(* ===== verification/_CoqProject ===== *)
-Q . S2P
Prelude.v
CBase.v
Math64.v
Math64Spec.v
BitField.v
BitFieldSpec.v
BitCount.v
CheckSum.v
CheckSumSpec.v
Crc32.v
TimeBase.v
TimeBaseSpec.v
ByteMem.v
Base64.v
Base64Spec.v
SafeString.v
SafeStringSpec.v
ByteOrder.v
StrConvert.v
StrConvertSpec.v
StrCompare.v
StrCompareSpec.v
SafeIntConv.v
SafeIntArith.v
RbDefs.v
RbTree.v
RbHeap.v
RbWalk.v
RbInsert.v
RbValidate.v
RbInsertOp.v
RbDelete.v
OrderedCollection.v
OcInterface.v
OcRedBlack.v
PciCap.v
PciCapInv.v
PciCapInsert.v
PciCapFree.v
PciCapParse.v
PciCapFinish.v
PciCapQuery.v
PciCapSpec.v
LinkedList.v
LinkedRing.v
LinkedListSpec.v
Kcs.v
KcsSpec.v
KcsCommand.v
HiiTree.v
HiiMem.v
HiiString.v
HiiForms.v
HiiLookup.v
HiiInv.v
HiiUrl.v
HiiQuestions.v
HiiListInit.v
HiiSpec.v
Decompress.v
DecompressBits.v
DecompressSafe.v
DecompressRun.v
DecompressCodes.v
DecompressTable.v
DecompressChars.v
DecompressFormat.v
DecompressLens.v
DecompressTokens.v
DecompressBlocks.v
DecompressHang.v
StrParse.v
StrParseSpec.v
StrAddressSpec.v
StrIpv6Spec.v
FwCfg.v
FwCfgParser.v
FwCfgSpec.v
FwCfgLib.v
