(* ===== verification/Prelude.v ===== *)
(** * Verification library for the liano firmware tree

    The repository is a UEFI firmware tree: the EDK2 packages and the owner's
    KarlPkg.  This development models, in C source order and with the names of the
    source, the base libraries the rest of the tree is built on, two OVMF
    libraries, and the libraries and the driver that KarlPkg adds, for the X64
    build.

    ** The parts and where they are

    - Base types (MdePkg/Include/Base.h, Include/X64/ProcessorBind.h): [CBase].
      A C integer is a [Z]; [cast t] is the conversion to the type [t], with its
      wrap-around.  RETURN_STATUS codes are the 64-bit values of the source.
    - 64-bit arithmetic (MdePkg/Library/BaseLib/Math64.c and the one-function
      files around it): [Math64] has the functions, [Math64Spec] what they compute.
    - Bit fields and checksums (BitField.c and CheckSum.c of BaseLib): [BitField]
      and [CheckSum]; [BitFieldSpec], [BitCount], [CheckSumSpec] and [Crc32] say
      what they compute.
    - SafeIntLib (MdePkg/Library/BaseSafeIntLib/SafeIntLib.c, SafeIntLib64.c):
      [SafeIntConv] has the conversions, [SafeIntArith] the arithmetic, which
      calls the conversions and the 64-bit shifts and products.
    - Calendar arithmetic (EmbeddedPkg/Library/TimeBaseLib/TimeBaseLib.c):
      [TimeBase], with [TimeBaseSpec].
    - Strings (SafeString.c and String.c of BaseLib), over a memory of bytes
      ([ByteMem], [ByteOrder]): [SafeString] copies, appends and converts between
      character kinds, [StrConvert] converts to integers, [StrCompare] compares and
      searches, [StrParse] parses bytes, GUIDs and addresses, [Base64] encodes and
      decodes.  [SafeStringSpec], [StrConvertSpec], [StrCompareSpec],
      [StrParseSpec], [StrAddressSpec], [StrIpv6Spec] and [Base64Spec] treat them
      on lists of characters.  The CHAR16 and the CHAR8 function of a pair are two
      instances of one definition.
    - Decompression (MdePkg/Library/BaseUefiDecompressLib): [Decompress] has every
      function over the scratch data.  [DecompressBits] is the bit reader,
      [DecompressSafe] and [DecompressRun] the bounds of every access and the end
      of every loop, [DecompressHang] a source that is decoded for ever,
      [DecompressCodes], [DecompressTable] and [DecompressChars] the prefix codes
      that MakeTable builds; [DecompressFormat] is the format from the encoder's
      side, and [DecompressLens], [DecompressTokens] and [DecompressBlocks] decode
      what it writes.
    - Ordered collections (MdePkg/Library/BaseOrderedCollectionRedBlackTreeLib):
      [RbDefs] has every function of the file.  [RbTree] is the mathematical side,
      trees with a hole and the red-black properties; [RbHeap] says when a heap
      holds such a tree and what field accesses and rotations do to it; [RbWalk],
      [RbInsert], [RbInsertOp], [RbDelete] and [RbValidate] treat traversals and
      search, the two updates and the validation; [OrderedCollection] restates all
      of it for a client, for whom a collection is an ascending list of entries.
      [OcInterface] is the library class as a record of operations with its laws,
      and [OcRedBlack] shows that the red-black tree keeps them.
    - PCI capabilities (OvmfPkg/Library/BasePciCapLib), a client of [OcInterface]:
      [PciCap] has the functions, [PciCapInv] what a list represents,
      [PciCapInsert], [PciCapFree], [PciCapParse], [PciCapFinish] and [PciCapQuery]
      treat insertion, release, the two traversals of the config space, the end of
      the initialisation and the lookups; [PciCapSpec] is the client's view.
    - Doubly-linked lists (MdePkg/Library/BaseLib/LinkedList.c): [LinkedList] has
      every function, [LinkedRing] the ring invariant and the functions on rings,
      [LinkedListSpec] the client's view, a head and a list of nodes.
    - HII attribute questions (KarlPkg/Library/HiiAttributeQuestionTreeLib):
      [HiiTree] has the functions of HiiAttributeQuestionLib.c, on the lists that
      [LinkedListSpec] specifies, with HiiGetString of UefiHiiLib and
      GetBestLanguage of UefiLib, which it calls.  [HiiMem] has execution rules,
      [HiiString] the strings, [HiiForms] the forms of a form set, [HiiLookup] the
      searches, [HiiInv], [HiiQuestions] and [HiiListInit] the list of questions,
      [HiiUrl] the paths; [HiiSpec] is the outcome.
    - fw_cfg (OvmfPkg/Library/QemuFwCfgLib, QemuFwCfgSimpleParserLib): [FwCfg] is
      the library over I/O ports (QemuFwCfgLib.c, QemuFwCfgSec.c), [FwCfgParser]
      the parser over a class of the library's functions; [FwCfgSpec] has the laws
      of that class and what the parser accepts, [FwCfgLib] shows that the library
      keeps the laws on every device with QEMU's documented interface.
    - The IPMI KCS driver (KarlPkg/Ipmi/Kcs): [Kcs] has the port-level transfers
      of Common/IpmiKcs.c and the command layer of Dxe/IpmiCmd.c and Dxe/KcsDxe.c
      (Pei/ is the same code); [KcsSpec] treats the transfers, [KcsCommand] the
      command layer and the self test, and has a scripted device.

    This file has what the parts share: the monad of C function bodies, its
    weakest preconditions, and a few lemmas on lists.

    ** How code becomes definitions

    Code with memory is a program of the monad [M] below over the memory it uses:
    a finite map from addresses to structures or bytes, a device, or the globals of
    a library.  A [None] is a NULL or dangling pointer, an access outside of a
    buffer, a failed ASSERT (assertions are enabled, as in a debug build), or a
    loop that outlives its fuel; a theorem that says that a call gives [Some]
    therefore says that it is memory safe, that its assertions hold and that it
    ends.  The decompressor has a monad of its own, which tells these apart.  Pure
    code with undefined C behaviour (shifts by the width and more, MIN_INT64 / -1,
    signed overflow) is an [option].  Output parameters that the caller may omit
    are options as well, and are returned updated.

    ** Fuel

    Every loop over the nodes of a collection gets one unit more than the heap has
    nodes, every loop over a linked list one unit more than the heap has nodes or
    than the PCD limit, every loop over a string one unit more than the memory has
    addresses, every counting loop one unit more than it counts; the theorems show
    that this is enough.  The two traversals of the config space get 64 and 1024 units,
    one for each aligned offset, since no offset is visited twice.  The wait loops of the KCS driver get
    KCS_TIME_OUT_LIMIT + 1 units, KcsErrorExit four, the write loop 256; the fuel of
    the read loop is an argument: 128 units are enough for sizes up to 254, and no
    fuel is enough for 255.  The fuel of the registration of form sets and of the
    list of questions is an argument; for the list, the number of pairs of a form
    set and a form identifier is enough.  The loop of Decode gets two units more
    than there are bytes to write.  The searches of the decompressor in a code tree
    have a fuel of their own, an argument: 16 is enough for complete codes, and no
    fuel is enough for a crafted source; all its other loops end on every source.

    ** What the theorems show

    - [OrderedCollection]: insertion and deletion are safe, keep the red-black
      properties and the order, change exactly one entry and touch no other
      memory; lookup, traversal; validation accepts exactly the valid collections;
      a client of insertions and deletions never leaves the valid states.
    - [PciCapSpec]: PciCapListInit on every device, with the list of exactly the
      capabilities that the device reports or an error and all memory released; a
      client sees nothing but that sequence.
    - [DecompressBlocks], [DecompressChars], [DecompressRun], [DecompressHang]:
      decompression inverts every encoding of the format, MakeTable builds the
      canonical code, no access leaves its array and only a search in a code tree
      can be endless; such a source exists.
    - [Base64Spec]: which texts are decoded and to what, the round trip.
    - [SafeStringSpec], [StrConvertSpec], [StrCompareSpec], [StrParseSpec],
      [StrAddressSpec], [StrIpv6Spec]: each function against its definition on
      lists of characters, errors included.
    - [FwCfgSpec], [FwCfgLib]: the value of a file as a function of its bytes.
    - [HiiSpec]: the forms that are found, the list of questions with its end on
      cyclic references, the path of a question, and the strings it leaks.
    - [LinkedListSpec]: insertion and removal on the list of nodes, the exactness of
      the debug checks, and traversal.
    - [TimeBaseSpec], [CheckSumSpec], [Crc32], [BitFieldSpec], [Math64Spec],
      [SafeIntConv], [SafeIntArith]: the functions against the calendar, the shift
      register of the CRC, bits, and integer arithmetic, each checked operation
      either exact or an error with the error value stored.
    - [KcsSpec], [KcsCommand]: bounded waiting and termination on every device,
      the bytes sent to a ready device, and defects of the driver: responses lose
      every other byte, a transfer of 255 bytes need not end, an aborted transfer
      is reported as a success, and the self test cannot succeed.

    ** Parameters

    The user's comparison functions ([UserOrder], [KeyOrder]: the laws the
    library class header demands), AllocatePool ([PoolAllocator], [CapAllocator],
    [HiiPool]: an unused block or a failure), the platform settings
    ([LinkedListPcd], [ValidatePcd], RSIZE_MAX and ASCII_RSIZE_MAX), the signedness
    of CHAR8 ([CharSign]), sizeof (SCRATCH_DATA), the HII database with its string
    protocol and the variable PlatformLang ([HiiDatabase]), the addresses of local
    arrays and string literals, and the machine behind the ports and the PCI config
    space ([IoDevice], the device of [PciCap], the device of [FwCfg]).

    ** Not modelled

    The 32-bit and EBC variants of SafeIntLib; the deprecated copies of String.c;
    the PEI and DXE instances of the fw_cfg library, which add DMA; DEBUG output,
    with the functions that only print and the HiiGetString calls they make; the
    null-pointer ASSERTs of the decompressor; the structure signature check of the
    KCS instance; protocol installation, which only provides a status; the rest of
    UefiHiiLib and UefiLib.  The firmware cores, the driver stacks over devices and
    protocols, the bindings to OpenSSL and the host tools stay outside. *)
From Stdlib Require Export ZArith Lia.
From stdpp Require Export base tactics numbers list option gmap.

#[export] Set Default Goal Selector "!".

Declare Scope fw_scope.
Delimit Scope fw_scope with fw.

(** ** Stateful code that can go wrong

    [M S A] is a C function body over a state [S]: it returns a value and a
    state, or [None] when it dereferences a NULL or dangling pointer, fails an
    ASSERT, or runs out of the fuel given to one of its loops. *)
Definition M (S A : Type) : Type := S → option (A * S).

#[export] Instance M_ret {S} : MRet (M S) := λ A x s, Some (x, s).
#[export] Instance M_bind {S} : MBind (M S) :=
  λ A B k m s, match m s with Some (x, s') => k x s' | None => None end.
#[export] Instance M_fmap {S} : FMap (M S) :=
  λ A B f m s, match m s with Some (x, s') => Some (f x, s') | None => None end.

Definition fails {S A} : M S A := λ _, None.
Definition get_state {S} : M S S := λ s, Some (s, s).
Definition put_state {S} (s : S) : M S unit := λ _, Some (tt, s).

(** [ASSERT (b)] of DebugLib with assertions enabled. *)
Definition ASSERT {S} (b : bool) : M S unit := if b then mret tt else fails.

(** ** Weakest preconditions *)

Definition wp {S A} (m : M S A) (Q : A → S → Prop) (s : S) : Prop :=
  match m s with Some (x, s') => Q x s' | None => False end.

Section wp.
Context {S : Type}.

Lemma wp_ret {A} (x : A) (Q : A → S → Prop) s : Q x s → wp (mret x) Q s.
Proof. done. Qed.

Lemma wp_bind {A B} (m : M S A) (k : A → M S B) Q s :
  wp m (λ x s', wp (k x) Q s') s → wp (m ≫= k) Q s.
Proof.
  unfold wp, mbind, M_bind. by destruct (m s) as [[x s']|].
Qed.

(** Regroup the first two steps of a sequence. *)
Lemma wp_bind_bind {A B C} (m : M S A) (f : A → M S B) (k : B → M S C) Q s :
  wp (m ≫= f) (λ y s', wp (k y) Q s') s → wp (m ≫= λ x, f x ≫= k) Q s.
Proof.
  unfold wp, mbind, M_bind. destruct (m s) as [[x s1]|]; [|done].
  by destruct (f x s1) as [[y s2]|].
Qed.

Lemma wp_mono {A} (m : M S A) (P Q : A → S → Prop) s :
  wp m P s → (∀ x s', P x s' → Q x s') → wp m Q s.
Proof. unfold wp. destruct (m s) as [[x s']|]; auto. Qed.

Lemma wp_assert b (Q : unit → S → Prop) s :
  b = true → Q tt s → wp (ASSERT b) Q s.
Proof. by intros ->. Qed.

Lemma wp_get (Q : S → S → Prop) s : Q s s → wp get_state Q s.
Proof. done. Qed.

Lemma wp_put s' (Q : unit → S → Prop) s : Q tt s' → wp (put_state s') Q s.
Proof. done. Qed.

Lemma wp_Some {A} (m : M S A) (Q : A → S → Prop) s :
  wp m Q s ↔ ∃ x s', m s = Some (x, s') ∧ Q x s'.
Proof.
  unfold wp. destruct (m s) as [[x s']|]; split; [eauto | | done |].
  - by intros (?&?&[= <- <-]&?).
  - by intros (?&?&?&?).
Qed.
End wp.

(** ** Partial correctness

    [wlp m Q s]: if [m] completes, its outcome satisfies [Q].  Used only for
    negative results, where a program that fails is in the claim as well. *)
Definition wlp {S A} (m : M S A) (Q : A → S → Prop) (s : S) : Prop :=
  ∀ x s', m s = Some (x, s') → Q x s'.

Lemma wlp_ret {S A} (x : A) (Q : A → S → Prop) s : Q x s → wlp (mret x) Q s.
Proof. by intros HQ y s' [= <- <-]. Qed.

Lemma wlp_bind {S A B} (m : M S A) (k : A → M S B) Q s :
  wlp m (λ x s', wlp (k x) Q s') s → wlp (m ≫= k) Q s.
Proof.
  intros Hm y s'. unfold mbind, M_bind. destruct (m s) as [[x s1]|] eqn:Hs; [|done].
  intros Hk. by apply (Hm x s1 Hs).
Qed.

Lemma wlp_fails {S A} (Q : A → S → Prop) (s : S) : wlp fails Q s.
Proof. done. Qed.

Lemma wlp_mono {S A} (m : M S A) (P Q : A → S → Prop) s :
  wlp m P s → (∀ x s', P x s' → Q x s') → wlp m Q s.
Proof. intros Hm HPQ x s' Hs. by apply HPQ, Hm. Qed.

(** ** Evaluating a program step by step *)

Lemma bind_run {S A B} (m : M S A) (k : A → M S B) s x s' :
  m s = Some (x, s') → (m ≫= k) s = k x s'.
Proof. intros Hm. unfold mbind, M_bind. by rewrite Hm. Qed.

Lemma bind_run_seq {S A B C} (a : M S A) (b : A → M S B) (k : B → M S C) s x s' :
  (a ≫= b) s = Some (x, s') → (y ← a; z ← b y; k z) s = k x s'.
Proof. unfold mbind, M_bind. destruct (a s) as [[y s1]|]; [|done]. by intros ->. Qed.

Lemma bind_none {S A B} (m : M S A) (k : A → M S B) s : m s = None → (m ≫= k) s = None.
Proof. intros Hm. unfold mbind, M_bind. by rewrite Hm. Qed.

Lemma wp_run {S A} (m : M S A) s x s' : wp m (λ y s2, s2 = s' ∧ y = x) s → m s = Some (x, s').
Proof. intros (? & ? & ? & -> & ->)%wp_Some. done. Qed.

Lemma run_wp {S A} (m : M S A) (Q : A → S → Prop) s x s' : m s = Some (x, s') → Q x s' → wp m Q s.
Proof. intros Hm HQ. unfold wp. by rewrite Hm. Qed.

Lemma wp_elim {S A} (m : M S A) (Q : A → S → Prop) s : wp m Q s → ∃ x s', m s = Some (x, s') ∧ Q x s'.
Proof. apply wp_Some. Qed.

Create HintDb fw discriminated.
#[export] Hint Resolve wp_ret wp_get wp_put : fw.

(** Decompose the sequencing at the head of a program. *)
Ltac wp_seq :=
  repeat lazymatch goal with
  | |- wp (_ ≫= _) _ _ => apply wp_bind
  | |- wp (mret _) _ _ => apply wp_ret
  end.

(** Turn the boolean tests recorded by [destruct ... eqn:] into propositions. *)
Ltac bool_hyps :=
  repeat match goal with
  | H : (_ && _)%bool = true |- _ => apply andb_true_iff in H as [? ?]
  | H : (_ && _)%bool = false |- _ => apply andb_false_iff in H
  | H : (_ || _)%bool = true |- _ => apply orb_true_iff in H
  | H : (_ || _)%bool = false |- _ => apply orb_false_iff in H as [? ?]
  | H : negb _ = true |- _ => apply negb_true_iff in H
  | H : negb _ = false |- _ => apply negb_false_iff in H
  | H : _ ∨ _ |- _ => destruct H as [H|H]
  | H : Z.eqb _ _ = true |- _ => apply Z.eqb_eq in H
  | H : Z.eqb _ _ = false |- _ => apply Z.eqb_neq in H
  | H : Z.leb _ _ = true |- _ => apply Z.leb_le in H
  | H : Z.leb _ _ = false |- _ => apply Z.leb_gt in H
  | H : Z.ltb _ _ = true |- _ => apply Z.ltb_lt in H
  | H : Z.ltb _ _ = false |- _ => apply Z.ltb_ge in H
  | H : Z.geb _ _ = _ |- _ => rewrite Z.geb_leb in H
  | H : Z.gtb _ _ = _ |- _ => rewrite Z.gtb_ltb in H
  end.

(** ** Lists *)

Lemma filter_none {A} (P : A → Prop) `{∀ x, Decision (P x)} (l : list A) :
  (∀ x, x ∈ l → ¬ P x) → filter P l = [].
Proof.
  induction l as [|x l IH]; intros Hl; [done|].
  rewrite filter_cons_False by (apply Hl; by left). apply IH. intros y Hy. apply Hl. by right.
Qed.

(** In a list without repeated keys an entry has one position. *)
Lemma NoDup_split_unique {A B} (l1 l2 m1 m2 : list (A * B)) a b c :
  NoDup (l1 ++ (a, b) :: l2).*1 →
  l1 ++ (a, b) :: l2 = m1 ++ (a, c) :: m2 →
  l1 = m1 ∧ b = c ∧ l2 = m2.
Proof.
  revert m1. induction l1 as [|e l1 IH]; intros m1 Hnd Heq; destruct m1 as [|e' m1]; cbn in *.
  - by simplify_eq.
  - simplify_eq. apply NoDup_cons in Hnd as [Hnd _]. destruct Hnd.
    rewrite fmap_app, elem_of_app. right. by left.
  - simplify_eq. apply NoDup_cons in Hnd as [Hnd _]. destruct Hnd.
    rewrite fmap_app, elem_of_app. right. by left.
  - simplify_eq. apply NoDup_cons in Hnd as [_ Hnd].
    by destruct (IH _ Hnd ltac:(eassumption)) as (-> & -> & ->).
Qed.

(** ** The prefix of a list of numbers with a property *)

Fixpoint take_while (p : Z → bool) (cs : list Z) : list Z :=
  match cs with c :: cs => if p c then c :: take_while p cs else [] | [] => [] end.

Fixpoint drop_while (p : Z → bool) (cs : list Z) : list Z :=
  match cs with c :: l => if p c then drop_while p l else cs | [] => [] end.

Lemma take_drop_while p cs : take_while p cs ++ drop_while p cs = cs.
Proof. induction cs as [|c cs IH]; [done|]. cbn [take_while drop_while]. destruct (p c); [|done]. cbn. by f_equal. Qed.

Lemma drop_take_while p cs : drop (length (take_while p cs)) cs = drop_while p cs.
Proof. rewrite <-(take_drop_while p cs) at 2. by rewrite drop_app_length. Qed.

Lemma take_while_lookup p cs i c : take_while p cs !! i = Some c → cs !! i = Some c.
Proof. intros Hi. rewrite <-(take_drop_while p cs). by apply lookup_app_l_Some. Qed.

Lemma take_while_le p cs : (length (take_while p cs) ≤ length cs)%nat.
Proof. rewrite <-(take_drop_while p cs) at 2. rewrite length_app. lia. Qed.

Lemma drop_while_zeros (q p : Z → bool) cs : (∀ c, q c = true → p c = true) →
  take_while p cs = take_while q cs ++ take_while p (drop_while q cs).
Proof.
  intros Hqp. induction cs as [|c cs IH]; [done|]. cbn [take_while drop_while].
  destruct (q c) eqn:Hq; [|done]. rewrite (Hqp c Hq). cbn. by f_equal.
Qed.

Lemma take_while_all p cs : Forall (λ c, p c = true) (take_while p cs).
Proof.
  induction cs as [|c cs IH]; [by constructor|]. cbn [take_while].
  destruct (p c) eqn:Hp; [by constructor|by constructor].
Qed.
