(* ===== verification/CBase.v ===== *)
(** * Base types of the firmware (MdePkg/Include/Base.h, X64/ProcessorBind.h)

    Fixed-width C integers as [Z] with their wrap-around, and the
    RETURN_STATUS codes of a 64-bit build. *)
From S2P Require Import Prelude.
Local Open Scope Z_scope.

(** ** Integer types *)

Record ctype := CType { signed : bool; width : Z }.

Definition UINT8  := CType false 8.
Definition UINT16 := CType false 16.
Definition UINT32 := CType false 32.
Definition UINT64 := CType false 64.
Definition UINTN  := UINT64.
Definition INT8   := CType true 8.
Definition INT16  := CType true 16.
Definition INT32  := CType true 32.
Definition INT64  := CType true 64.
Definition INTN   := INT64.

Definition tmin (t : ctype) : Z := if signed t then - 2 ^ (width t - 1) else 0.
Definition tmax (t : ctype) : Z :=
  if signed t then 2 ^ (width t - 1) - 1 else 2 ^ width t - 1.

(** Conversion of a mathematical integer to type [t] (two's complement). *)
Definition cast (t : ctype) (z : Z) : Z :=
  if signed t
  then (z + 2 ^ (width t - 1)) mod 2 ^ width t - 2 ^ (width t - 1)
  else z mod 2 ^ width t.

Definition in_range (t : ctype) (z : Z) : Prop := tmin t ≤ z ≤ tmax t.

#[export] Instance in_range_dec t z : Decision (in_range t z).
Proof. unfold in_range. apply _. Defined.

Definition MAX_INT8   := 0x7F.
Definition MAX_UINT8  := 0xFF.
Definition MAX_INT16  := 0x7FFF.
Definition MAX_UINT16 := 0xFFFF.
Definition MAX_INT32  := 0x7FFFFFFF.
Definition MAX_UINT32 := 0xFFFFFFFF.
Definition MAX_INT64  := 0x7FFFFFFFFFFFFFFF.
Definition MAX_UINT64 := 0xFFFFFFFFFFFFFFFF.
Definition MAX_INTN   := 0x7FFFFFFFFFFFFFFF.
Definition MAX_UINTN  := 0xFFFFFFFFFFFFFFFF.
Definition MIN_INT8   := -127 - 1.
Definition MIN_INT16  := -32767 - 1.
Definition MIN_INT32  := -2147483647 - 1.
Definition MIN_INT64  := -9223372036854775807 - 1.

(** ** Status codes *)

Definition MAX_BIT := 0x8000000000000000.

Definition ENCODE_ERROR (StatusCode : Z) : Z := Z.lor MAX_BIT StatusCode.
Definition RETURN_ERROR (StatusCode : Z) : bool := cast INTN StatusCode <? 0.

Definition RETURN_SUCCESS           := 0.
Definition RETURN_INVALID_PARAMETER := ENCODE_ERROR 2.
Definition RETURN_UNSUPPORTED       := ENCODE_ERROR 3.
Definition RETURN_BAD_BUFFER_SIZE   := ENCODE_ERROR 4.
Definition RETURN_BUFFER_TOO_SMALL  := ENCODE_ERROR 5.
Definition RETURN_NOT_READY         := ENCODE_ERROR 6.
Definition RETURN_DEVICE_ERROR      := ENCODE_ERROR 7.
Definition RETURN_OUT_OF_RESOURCES  := ENCODE_ERROR 9.
Definition RETURN_NOT_FOUND         := ENCODE_ERROR 14.
Definition RETURN_ACCESS_DENIED     := ENCODE_ERROR 15.
Definition RETURN_TIMEOUT           := ENCODE_ERROR 18.
Definition RETURN_NOT_STARTED       := ENCODE_ERROR 19.
Definition RETURN_ALREADY_STARTED   := ENCODE_ERROR 20.
Definition RETURN_PROTOCOL_ERROR    := ENCODE_ERROR 24.

(** ** Lemmas *)

(** Unfold the concrete bounds of every type mentioned, for [lia]. *)
Ltac cint_unfold :=
  unfold in_range, tmin, tmax, cast,
    UINTN, INTN, UINT8, UINT16, UINT32, UINT64, INT8, INT16, INT32, INT64,
    MAX_INT8, MAX_UINT8, MAX_INT16, MAX_UINT16, MAX_INT32, MAX_UINT32,
    MAX_INT64, MAX_UINT64, MAX_INTN, MAX_UINTN,
    MIN_INT8, MIN_INT16, MIN_INT32, MIN_INT64 in *;
  cbn [signed width] in *;
  change (8 - 1) with 7 in *; change (16 - 1) with 15 in *;
  change (32 - 1) with 31 in *; change (64 - 1) with 63 in *;
  change (2 ^ 7) with 128 in *; change (2 ^ 8) with 256 in *;
  change (2 ^ 15) with 32768 in *; change (2 ^ 16) with 65536 in *;
  change (2 ^ 31) with 2147483648 in *; change (2 ^ 32) with 4294967296 in *;
  change (2 ^ 63) with 9223372036854775808 in *;
  change (2 ^ 64) with 18446744073709551616 in *.

Lemma cast_id t z : 0 < width t → in_range t z → cast t z = z.
Proof.
  unfold in_range, tmin, tmax, cast. destruct t as [[] w]; cbn [signed width]; intros Hw Hz.
  - assert (2 ^ w = 2 * 2 ^ (w - 1)).
    { rewrite <- Z.pow_succ_r by lia. f_equal. lia. }
    rewrite Z.mod_small; lia.
  - apply Z.mod_small. lia.
Qed.

Lemma cast_range t z : 0 < width t → in_range t (cast t z).
Proof.
  unfold in_range, tmin, tmax, cast. destruct t as [[] w]; cbn [signed width]; intros Hw.
  - assert (2 ^ w = 2 * 2 ^ (w - 1)).
    { rewrite <- Z.pow_succ_r by lia. f_equal. lia. }
    assert (0 < 2 ^ (w - 1)) by (apply Z.pow_pos_nonneg; lia).
    pose proof (Z.mod_pos_bound (z + 2 ^ (w - 1)) (2 ^ w)). lia.
  - assert (0 < 2 ^ w) by (apply Z.pow_pos_nonneg; lia).
    pose proof (Z.mod_pos_bound z (2 ^ w)). lia.
Qed.

(** Sum of two values of an unsigned type: it wraps at most once. *)
Lemma cast_unsigned_add w x y :
  0 < w → in_range (CType false w) x → in_range (CType false w) y →
  cast (CType false w) (x + y)
    = if decide (x + y < 2 ^ w) then x + y else x + y - 2 ^ w.
Proof.
  unfold in_range, tmin, tmax, cast; cbn [signed width]; intros Hw Hx Hy.
  case_decide.
  - apply Z.mod_small. lia.
  - replace (x + y) with ((x + y - 2 ^ w) + 1 * 2 ^ w) at 1 by lia.
    rewrite Z.mod_add by lia. apply Z.mod_small. lia.
Qed.

(** The error codes of the model all have the top bit set. *)
Definition error_codes : list Z :=
  [RETURN_INVALID_PARAMETER; RETURN_UNSUPPORTED; RETURN_BUFFER_TOO_SMALL;
   RETURN_NOT_READY; RETURN_DEVICE_ERROR; RETURN_OUT_OF_RESOURCES;
   RETURN_NOT_FOUND; RETURN_TIMEOUT; RETURN_NOT_STARTED; RETURN_ALREADY_STARTED;
   RETURN_PROTOCOL_ERROR; RETURN_BAD_BUFFER_SIZE; RETURN_ACCESS_DENIED].

Lemma RETURN_ERROR_codes s : s ∈ error_codes → RETURN_ERROR s = true.
Proof.
  assert (forallb RETURN_ERROR error_codes = true) as H by by vm_compute.
  rewrite forallb_forall in H. intros Hs. apply H. by apply list_elem_of_In.
Qed.

Lemma RETURN_SUCCESS_no_error : RETURN_ERROR RETURN_SUCCESS = false.
Proof. by vm_compute. Qed.
