(* ===== verification/Math64.v ===== *)
(** * 64-bit arithmetic of BaseLib (MdePkg/Library/BaseLib/Math64.c and the
    one-function files LShiftU64.c, RShiftU64.c, MultU64x64.c, ...)

    A call is [None] when an ASSERT of the public wrapper fails or when the C
    expression is undefined: a shift by the width of its type or more, and the
    quotient MIN_INT64 / -1. *)
From S2P Require Import Prelude CBase.
Local Open Scope Z_scope.

(** C shifts of a 64-bit operand; the count must be below the width. *)
Definition c_shl64 (x n : Z) : option Z :=
  if (0 <=? n) && (n <? 64) then Some (cast UINT64 (Z.shiftl x n)) else None.
Definition c_shr64 (x n : Z) : option Z :=
  if (0 <=? n) && (n <? 64) then Some (Z.shiftr x n) else None.

Definition assert_then {A} (b : bool) (m : option A) : option A :=
  if b then m else None.

(** ** Workers of Math64.c *)

Definition InternalMathLShiftU64 (Operand Count : Z) : option Z :=
  c_shl64 Operand Count.

Definition InternalMathRShiftU64 (Operand Count : Z) : option Z :=
  c_shr64 Operand Count.

Definition InternalMathARShiftU64 (Operand Count : Z) : option Z :=
  one ← c_shl64 1 63;
  TestValue ← c_shr64 (cast INT64 one) 63;
  if cast INTN TestValue =? -1
  then r ← c_shr64 (cast INT64 Operand) Count; Some (cast UINT64 r)
  else
    hi ← c_shr64 Operand Count;
    ones ← c_shr64 (cast UINTN (-1)) Count;
    Some (Z.lor hi (if cast INTN Operand <? 0 then cast UINTN (Z.lnot ones) else 0)).

Definition InternalMathLRotU64 (Operand Count : Z) : option Z :=
  l ← c_shl64 Operand Count;
  r ← c_shr64 Operand (64 - Count);
  Some (Z.lor l r).

Definition InternalMathRRotU64 (Operand Count : Z) : option Z :=
  r ← c_shr64 Operand Count;
  l ← c_shl64 Operand (64 - Count);
  Some (Z.lor r l).

Definition SwapBytes16 (Value : Z) : Z :=
  cast UINT16 (Z.lor (Z.shiftl Value 8) (Z.shiftr Value 8)).

Definition SwapBytes32 (Value : Z) : Z :=
  let LowerBytes := cast UINT32 (SwapBytes16 (cast UINT16 Value)) in
  let HigherBytes := cast UINT32 (SwapBytes16 (cast UINT16 (Z.shiftr Value 16))) in
  Z.lor (cast UINT32 (Z.shiftl LowerBytes 16)) HigherBytes.

Definition InternalMathSwapBytes64 (Operand : Z) : Z :=
  let LowerBytes := cast UINT64 (SwapBytes32 (cast UINT32 Operand)) in
  let HigherBytes := cast UINT64 (SwapBytes32 (cast UINT32 (Z.shiftr Operand 32))) in
  Z.lor (cast UINT64 (Z.shiftl LowerBytes 32)) HigherBytes.

Definition InternalMathMultU64x32 (Multiplicand Multiplier : Z) : Z :=
  cast UINT64 (Multiplicand * Multiplier).

Definition InternalMathMultU64x64 (Multiplicand Multiplier : Z) : Z :=
  cast UINT64 (Multiplicand * Multiplier).

(** C division truncates towards zero and is undefined for a zero divisor. *)
Definition InternalMathDivU64x32 (Dividend Divisor : Z) : option Z :=
  assert_then (negb (Divisor =? 0)) (Some (Z.quot Dividend Divisor)).

Definition InternalMathModU64x32 (Dividend Divisor : Z) : option Z :=
  assert_then (negb (Divisor =? 0)) (Some (cast UINT32 (Z.rem Dividend Divisor))).

(** The optional [Remainder] buffer: NULL is [None], otherwise its content. *)
Definition InternalMathDivRemU64x32 (Dividend Divisor : Z) (Remainder : option Z)
    : option (Z * option Z) :=
  assert_then (negb (Divisor =? 0))
    (Some (Z.quot Dividend Divisor,
           (λ _, cast UINT32 (Z.rem Dividend Divisor)) <$> Remainder)).

Definition InternalMathDivRemU64x64 (Dividend Divisor : Z) (Remainder : option Z)
    : option (Z * option Z) :=
  assert_then (negb (Divisor =? 0))
    (Some (Z.quot Dividend Divisor, (λ _, Z.rem Dividend Divisor) <$> Remainder)).

(** Signed division overflows for MIN_INT64 / -1. *)
Definition InternalMathDivRemS64x64 (Dividend Divisor : Z) (Remainder : option Z)
    : option (Z * option Z) :=
  assert_then (negb (Divisor =? 0) &&
               negb ((Dividend =? MIN_INT64) && (Divisor =? -1)))
    (Some (Z.quot Dividend Divisor, (λ _, Z.rem Dividend Divisor) <$> Remainder)).

(** ** Public wrappers *)

Definition LShiftU64 (Operand Count : Z) : option Z :=
  assert_then (Count <? 64) (InternalMathLShiftU64 Operand Count).
Definition RShiftU64 (Operand Count : Z) : option Z :=
  assert_then (Count <? 64) (InternalMathRShiftU64 Operand Count).
Definition ARShiftU64 (Operand Count : Z) : option Z :=
  assert_then (Count <? 64) (InternalMathARShiftU64 Operand Count).
Definition LRotU64 (Operand Count : Z) : option Z :=
  assert_then (Count <? 64) (InternalMathLRotU64 Operand Count).
Definition RRotU64 (Operand Count : Z) : option Z :=
  assert_then (Count <? 64) (InternalMathRRotU64 Operand Count).
Definition SwapBytes64 (Value : Z) : Z := InternalMathSwapBytes64 Value.
Definition MultU64x32 (Multiplicand Multiplier : Z) : Z :=
  InternalMathMultU64x32 Multiplicand Multiplier.
Definition MultU64x64 (Multiplicand Multiplier : Z) : Z :=
  InternalMathMultU64x64 Multiplicand Multiplier.
Definition MultS64x64 (Multiplicand Multiplier : Z) : Z :=
  cast INT64 (MultU64x64 (cast UINT64 Multiplicand) (cast UINT64 Multiplier)).
Definition DivU64x32 (Dividend Divisor : Z) : option Z :=
  assert_then (negb (Divisor =? 0)) (InternalMathDivU64x32 Dividend Divisor).
Definition ModU64x32 (Dividend Divisor : Z) : option Z :=
  assert_then (negb (Divisor =? 0)) (InternalMathModU64x32 Dividend Divisor).
Definition DivU64x32Remainder (Dividend Divisor : Z) (Remainder : option Z) :=
  assert_then (negb (Divisor =? 0)) (InternalMathDivRemU64x32 Dividend Divisor Remainder).
Definition DivU64x64Remainder (Dividend Divisor : Z) (Remainder : option Z) :=
  assert_then (negb (Divisor =? 0)) (InternalMathDivRemU64x64 Dividend Divisor Remainder).
Definition DivS64x64Remainder (Dividend Divisor : Z) (Remainder : option Z) :=
  assert_then (negb (Divisor =? 0)) (InternalMathDivRemS64x64 Dividend Divisor Remainder).
