(* ===== verification/Math64Spec.v ===== *)
(** * 64-bit arithmetic of BaseLib: what the functions compute

    Shifts and products against integer arithmetic modulo 2^64, rotations and byte
    swaps bit by bit, divisions with their remainders. *)
From S2P Require Import Prelude CBase Math64.
Local Open Scope Z_scope.

Abbreviation u64 x := (in_range UINT64 x) (only parsing).
Abbreviation s64 x := (in_range INT64 x) (only parsing).

(** ** Bits of casts *)

Lemma cast_testbit w z i : 0 ≤ i → 0 ≤ w →
  Z.testbit (cast (CType false w) z) i = (i <? w) && Z.testbit z i.
Proof.
  intros Hi Hw. unfold cast. cbn [signed width]. destruct (Z.ltb_spec i w).
  - by rewrite Z.mod_pow2_bits_low.
  - rewrite Z.mod_pow2_bits_high by lia. done.
Qed.

Lemma u64_bits x i : u64 x → 64 ≤ i → Z.testbit x i = false.
Proof.
  intros Hx Hi. destruct (decide (x = 0)) as [->|Hne]; [apply Z.bits_0|].
  apply Z.bits_above_log2; [cint_unfold; lia|].
  assert (Z.log2 x < 64); [|lia]. apply Z.log2_lt_pow2; cint_unfold; lia.
Qed.

Lemma shl64_bits x n r i : c_shl64 x n = Some r → 0 ≤ i →
  Z.testbit r i = (i <? 64) && Z.testbit x (i - n).
Proof.
  unfold c_shl64. intros Hr Hi. destruct ((0 <=? n) && (n <? 64)) eqn:Hn; [|done].
  bool_hyps. simplify_eq. unfold UINT64. rewrite cast_testbit by lia.
  by rewrite Z.shiftl_spec.
Qed.

Lemma shr64_bits x n r i : c_shr64 x n = Some r → 0 ≤ i → Z.testbit r i = Z.testbit x (i + n).
Proof.
  unfold c_shr64. intros Hr Hi. destruct ((0 <=? n) && (n <? 64)) eqn:Hn; [|done].
  bool_hyps. simplify_eq. by rewrite Z.shiftr_spec.
Qed.

Lemma c_shl64_run x n : 0 ≤ n < 64 → c_shl64 x n = Some (cast UINT64 (x * 2 ^ n)).
Proof.
  intros Hn. unfold c_shl64. rewrite (proj2 (Z.leb_le 0 n)), (proj2 (Z.ltb_lt n 64)) by lia.
  cbn [andb]. by rewrite Z.shiftl_mul_pow2 by lia.
Qed.

Lemma c_shr64_run x n : 0 ≤ n < 64 → c_shr64 x n = Some (x / 2 ^ n).
Proof.
  intros Hn. unfold c_shr64. rewrite (proj2 (Z.leb_le 0 n)), (proj2 (Z.ltb_lt n 64)) by lia.
  cbn [andb]. by rewrite Z.shiftr_div_pow2 by lia.
Qed.

Lemma c_shift_undefined x n : 64 ≤ n → c_shl64 x n = None ∧ c_shr64 x n = None.
Proof.
  intros Hn. unfold c_shl64, c_shr64. rewrite (proj2 (Z.ltb_ge n 64)) by lia.
  by rewrite andb_false_r.
Qed.

(** LShiftU64, RShiftU64 and ARShiftU64 multiply by a power of two modulo
    2^64, divide by one, and divide the operand read as a signed number, rounding
    down; a count of 64 or more fails their ASSERT. *)
Theorem shifts_correct Operand Count :
  u64 Operand → 0 ≤ Count →
  (Count < 64 →
   LShiftU64 Operand Count = Some ((Operand * 2 ^ Count) mod 2 ^ 64) ∧
   RShiftU64 Operand Count = Some (Operand / 2 ^ Count) ∧
   ARShiftU64 Operand Count = Some (cast UINT64 (cast INT64 Operand / 2 ^ Count))) ∧
  (64 ≤ Count → LShiftU64 Operand Count = None ∧ RShiftU64 Operand Count = None ∧
                ARShiftU64 Operand Count = None).
Proof.
  intros Hx Hc. unfold LShiftU64, RShiftU64, ARShiftU64, assert_then. split.
  - intros Hlt. rewrite (proj2 (Z.ltb_lt Count 64)) by lia.
    unfold InternalMathLShiftU64, InternalMathRShiftU64, InternalMathARShiftU64.
    rewrite c_shl64_run, !c_shr64_run by lia. split_and!; [done..|].
    change (c_shl64 1 63) with (Some (2 ^ 63)). cbn [mbind option_bind].
    change (c_shr64 (cast INT64 (2 ^ 63)) 63) with (Some (-1)). cbn [mbind option_bind].
    change (cast INTN (-1) =? -1) with true. done.
  - intros Hge. rewrite (proj2 (Z.ltb_ge Count 64)) by lia. done.
Qed.

(** ** Rotations *)

Lemma lrot_bits x n r i : u64 x → 0 < n < 64 → 0 ≤ i < 64 →
  InternalMathLRotU64 x n = Some r → Z.testbit r i = Z.testbit x ((i - n) mod 64).
Proof.
  unfold InternalMathLRotU64. intros Hx Hn Hi.
  destruct (c_shl64 x n) as [l|] eqn:Hl; [|done]. cbn.
  destruct (c_shr64 x (64 - n)) as [h|] eqn:Hh; [|done]. cbn. intros [= <-].
  rewrite Z.lor_spec, (shl64_bits _ _ _ _ Hl), (shr64_bits _ _ _ _ Hh) by lia.
  rewrite (proj2 (Z.ltb_lt i 64)) by lia. cbn [andb].
  destruct (decide (n ≤ i)).
  - rewrite Z.mod_small by lia. rewrite (u64_bits x (i + (64 - n))) by (done || lia). apply orb_false_r.
  - rewrite (Z.testbit_neg_r x (i - n)) by lia. cbn [orb].
    replace ((i - n) mod 64) with (i + (64 - n)); [done|].
    apply (Z.mod_unique_pos _ _ (-1)); lia.
Qed.

Lemma rrot_bits x n r i : u64 x → 0 < n < 64 → 0 ≤ i < 64 →
  InternalMathRRotU64 x n = Some r → Z.testbit r i = Z.testbit x ((i + n) mod 64).
Proof.
  unfold InternalMathRRotU64. intros Hx Hn Hi.
  destruct (c_shr64 x n) as [h|] eqn:Hh; [|done]. cbn.
  destruct (c_shl64 x (64 - n)) as [l|] eqn:Hl; [|done]. cbn. intros [= <-].
  rewrite Z.lor_spec, (shl64_bits _ _ _ _ Hl), (shr64_bits _ _ _ _ Hh) by lia.
  rewrite (proj2 (Z.ltb_lt i 64)) by lia. cbn [andb].
  destruct (decide (i + n < 64)).
  - rewrite Z.mod_small by lia. rewrite (Z.testbit_neg_r x (i - (64 - n))) by lia. apply orb_false_r.
  - rewrite (u64_bits x (i + n)) by (done || lia). cbn [orb].
    replace ((i + n) mod 64) with (i - (64 - n)); [done|].
    apply (Z.mod_unique_pos _ _ 1); lia.
Qed.

Lemma u64_ext x y : u64 x → u64 y → (∀ i, 0 ≤ i < 64 → Z.testbit x i = Z.testbit y i) → x = y.
Proof.
  intros Hx Hy Hbits. apply Z.bits_inj'. intros i Hi.
  destruct (decide (i < 64)); [by apply Hbits|]. by rewrite !u64_bits by (done || lia).
Qed.

Lemma lor_u64 x y : u64 x → u64 y → u64 (Z.lor x y).
Proof.
  intros Hx Hy. assert (0 ≤ Z.lor x y) by (apply Z.lor_nonneg; cint_unfold; lia).
  assert (Z.lor x y < 2 ^ 64); [|cint_unfold; lia].
  destruct (decide (Z.lor x y = 0)) as [->|Hne]; [done|].
  apply Z.log2_lt_pow2; [lia|]. rewrite Z.log2_lor by (cint_unfold; lia).
  assert (Hlog : ∀ z, u64 z → Z.log2 z < 64).
  { intros z Hz. destruct (decide (z = 0)) as [->|]; [done|]. apply Z.log2_lt_pow2; cint_unfold; lia. }
  apply Z.max_lub_lt; by apply Hlog.
Qed.

Lemma shr_u64 x n : u64 x → 0 ≤ n → u64 (x / 2 ^ n).
Proof.
  intros Hx Hn. assert (0 < 2 ^ n) by (apply Z.pow_pos_nonneg; lia).
  cint_unfold. split; [apply Z.div_pos; lia|].
  apply Z.le_trans with x; [|lia]. apply Z.div_le_upper_bound; nia.
Qed.

(** For a count from 1 to 63 the rotations move bit (i - Count) mod 64 to bit
    i, stay in 64 bits, and undo each other.  For a count of 0, which their
    description and their ASSERT admit, they shift by 64, which C does not
    define; from 64 on the ASSERT fails. *)
Theorem rotations_correct Operand Count :
  u64 Operand → 0 ≤ Count →
  (0 < Count < 64 → ∃ l r,
     LRotU64 Operand Count = Some l ∧ RRotU64 Operand Count = Some r ∧ u64 l ∧ u64 r ∧
     (∀ i, 0 ≤ i < 64 → Z.testbit l i = Z.testbit Operand ((i - Count) mod 64)) ∧
     (∀ i, 0 ≤ i < 64 → Z.testbit r i = Z.testbit Operand ((i + Count) mod 64)) ∧
     RRotU64 l Count = Some Operand ∧ LRotU64 r Count = Some Operand) ∧
  (Count = 0 ∨ 64 ≤ Count → LRotU64 Operand Count = None ∧ RRotU64 Operand Count = None).
Proof.
  intros Hx Hc. split; cycle 1.
  { unfold LRotU64, RRotU64, assert_then. intros [->|Hge].
    - done.
    - by rewrite (proj2 (Z.ltb_ge Count 64)) by lia. }
  intros Hn.
  assert (Hl : ∀ y, u64 y → ∃ l, LRotU64 y Count = Some l ∧ u64 l ∧
    ∀ i, 0 ≤ i < 64 → Z.testbit l i = Z.testbit y ((i - Count) mod 64)).
  { intros y Hy. unfold LRotU64, assert_then. rewrite (proj2 (Z.ltb_lt Count 64)) by lia.
    destruct (InternalMathLRotU64 y Count) as [l|] eqn:Hl.
    - exists l. split_and!; [done| |by intros; eapply lrot_bits].
      unfold InternalMathLRotU64 in Hl. rewrite c_shl64_run, c_shr64_run in Hl by lia. cbn [mbind option_bind] in Hl.
      simplify_eq. apply lor_u64; [by apply cast_range|]. apply shr_u64; [done|lia].
    - unfold InternalMathLRotU64 in Hl. by rewrite c_shl64_run, c_shr64_run in Hl by lia. }
  assert (Hr : ∀ y, u64 y → ∃ r, RRotU64 y Count = Some r ∧ u64 r ∧
    ∀ i, 0 ≤ i < 64 → Z.testbit r i = Z.testbit y ((i + Count) mod 64)).
  { intros y Hy. unfold RRotU64, assert_then. rewrite (proj2 (Z.ltb_lt Count 64)) by lia.
    destruct (InternalMathRRotU64 y Count) as [r|] eqn:Hr.
    - exists r. split_and!; [done| |by intros; eapply rrot_bits].
      unfold InternalMathRRotU64 in Hr. rewrite c_shl64_run, c_shr64_run in Hr by lia. cbn [mbind option_bind] in Hr.
      simplify_eq. apply lor_u64; [|by apply cast_range]. apply shr_u64; [done|lia].
    - unfold InternalMathRRotU64 in Hr. by rewrite c_shr64_run, c_shl64_run in Hr by lia. }
  destruct (Hl Operand Hx) as (l & Hlrun & Hlu & Hlb). destruct (Hr Operand Hx) as (r & Hrrun & Hru & Hrb).
  exists l, r. split_and!; [done..| |].
  - destruct (Hr l Hlu) as (x' & -> & Hx' & Hb). f_equal. apply u64_ext; [done..|].
    intros i Hi. rewrite Hb, Hlb by (try apply Z.mod_pos_bound; lia).
    rewrite Zminus_mod_idemp_l. f_equal. rewrite Z.mod_small; lia.
  - destruct (Hl r Hru) as (x' & -> & Hx' & Hb). f_equal. apply u64_ext; [done..|].
    intros i Hi. rewrite Hb, Hrb by (try apply Z.mod_pos_bound; lia).
    rewrite Zplus_mod_idemp_l. f_equal. rewrite Z.mod_small; lia.
Qed.

(** ** Byte swaps *)

(** Position of bit [i] after the [w / 8] bytes are reversed. *)
Definition swap_index (w i : Z) : Z := (w - 8) - 8 * (i / 8) + i mod 8.

Lemma bits_above w x i : 0 ≤ w ≤ i → in_range (CType false w) x → Z.testbit x i = false.
Proof.
  intros Hi Hx. unfold in_range, tmin, tmax in Hx. cbn [signed width] in Hx.
  destruct (decide (x = 0)) as [->|Hne]; [apply Z.bits_0|].
  apply Z.bits_above_log2; [lia|].
  assert (Z.log2 x < w); [|lia]. apply Z.log2_lt_pow2; lia.
Qed.

Lemma swap16_bits v i : in_range UINT16 v → 0 ≤ i < 16 →
  Z.testbit (SwapBytes16 v) i = Z.testbit v (swap_index 16 i).
Proof.
  intros Hv Hi. unfold SwapBytes16, UINT16. rewrite cast_testbit, Z.lor_spec by lia.
  rewrite Z.shiftl_spec, Z.shiftr_spec by lia. rewrite (proj2 (Z.ltb_lt i 16)) by lia. cbn [andb].
  unfold swap_index. destruct (decide (i < 8)).
  - rewrite (Z.testbit_neg_r v (i - 8)) by lia. cbn [orb].
    f_equal. Z.div_mod_to_equations. lia.
  - rewrite (bits_above 16 v (i + 8)) by (done || lia). rewrite orb_false_r.
    f_equal. Z.div_mod_to_equations. lia.
Qed.

Lemma swap16_range v : in_range UINT16 (SwapBytes16 v).
Proof. by apply cast_range. Qed.

Lemma swap32_bits v i : in_range UINT32 v → 0 ≤ i < 32 →
  Z.testbit (SwapBytes32 v) i = Z.testbit v (swap_index 32 i).
Proof.
  intros Hv Hi. unfold SwapBytes32.
  rewrite !(cast_id UINT32 (SwapBytes16 _)); try done;
    try (match goal with |- in_range _ (SwapBytes16 ?x) =>
           pose proof (swap16_range x); cint_unfold; lia end).
  rewrite Z.lor_spec. unfold UINT32 at 1. rewrite cast_testbit, Z.shiftl_spec by lia.
  rewrite (proj2 (Z.ltb_lt i 32)) by lia. cbn [andb]. unfold swap_index. destruct (decide (i < 16)).
  - rewrite (Z.testbit_neg_r _ (i - 16)) by lia. cbn [orb].
    rewrite swap16_bits by (first [by apply cast_range | lia]). unfold swap_index.
    unfold UINT16. rewrite cast_testbit, Z.shiftr_spec by (Z.div_mod_to_equations; lia).
    rewrite (proj2 (Z.ltb_lt _ 16)) by (Z.div_mod_to_equations; lia). cbn [andb]. f_equal. lia.
  - rewrite (bits_above 16 (SwapBytes16 _) i) by (first [apply swap16_range | lia]). rewrite orb_false_r.
    rewrite swap16_bits by (first [by apply cast_range | lia]). unfold swap_index.
    unfold UINT16. rewrite cast_testbit by (Z.div_mod_to_equations; lia).
    rewrite (proj2 (Z.ltb_lt _ 16)) by (Z.div_mod_to_equations; lia). cbn [andb].
    f_equal. Z.div_mod_to_equations. lia.
Qed.

Lemma lor_range w x y : 0 < w → in_range (CType false w) x → in_range (CType false w) y →
  in_range (CType false w) (Z.lor x y).
Proof.
  intros Hw Hx Hy. unfold in_range, tmin, tmax in *. cbn [signed width] in *.
  assert (0 ≤ Z.lor x y) by (apply Z.lor_nonneg; lia).
  assert (Z.lor x y < 2 ^ w); [|lia].
  destruct (decide (Z.lor x y = 0)) as [->|Hne]; [apply Z.pow_pos_nonneg; lia|].
  apply Z.log2_lt_pow2; [lia|]. rewrite Z.log2_lor by lia.
  assert (Hlog : ∀ z, 0 ≤ z ≤ 2 ^ w - 1 → Z.log2 z < w).
  { intros z Hz. destruct (decide (z = 0)) as [->|]; [done|]. apply Z.log2_lt_pow2; lia. }
  apply Z.max_lub_lt; by apply Hlog.
Qed.

Lemma swap32_range v : in_range UINT32 (SwapBytes32 v).
Proof. apply lor_range; [done|by apply cast_range|by apply cast_range]. Qed.

Lemma swap64_bits v i : u64 v → 0 ≤ i < 64 →
  Z.testbit (SwapBytes64 v) i = Z.testbit v (swap_index 64 i).
Proof.
  intros Hv Hi. unfold SwapBytes64, InternalMathSwapBytes64.
  rewrite !(cast_id UINT64 (SwapBytes32 _)); try done;
    try (match goal with |- in_range _ (SwapBytes32 ?x) =>
           pose proof (swap32_range x); cint_unfold; lia end).
  rewrite Z.lor_spec. unfold UINT64 at 1. rewrite cast_testbit, Z.shiftl_spec by lia.
  rewrite (proj2 (Z.ltb_lt i 64)) by lia. cbn [andb]. unfold swap_index. destruct (decide (i < 32)).
  - rewrite (Z.testbit_neg_r _ (i - 32)) by lia. cbn [orb].
    rewrite swap32_bits by (first [by apply cast_range | lia]). unfold swap_index.
    unfold UINT32. rewrite cast_testbit, Z.shiftr_spec by (Z.div_mod_to_equations; lia).
    rewrite (proj2 (Z.ltb_lt _ 32)) by (Z.div_mod_to_equations; lia). cbn [andb]. f_equal. lia.
  - rewrite (bits_above 32 (SwapBytes32 _) i) by (first [apply swap32_range | lia]). rewrite orb_false_r.
    rewrite swap32_bits by (first [by apply cast_range | lia]). unfold swap_index.
    unfold UINT32. rewrite cast_testbit by (Z.div_mod_to_equations; lia).
    rewrite (proj2 (Z.ltb_lt _ 32)) by (Z.div_mod_to_equations; lia). cbn [andb].
    f_equal. Z.div_mod_to_equations. lia.
Qed.

Lemma swap_index_involutive w i : (8 | w) → swap_index w (swap_index w i) = i.
Proof. intros [k ->]. unfold swap_index. Z.div_mod_to_equations. lia. Qed.

Lemma swap64_range v : u64 (SwapBytes64 v).
Proof. apply lor_range; [done|by apply cast_range|by apply cast_range]. Qed.

(** SwapBytes16, SwapBytes32 and SwapBytes64 reverse the order of the bytes:
    byte i of the result is byte n - 1 - i of the operand; so each is its own
    inverse. *)
Theorem swap_bytes_correct v :
  (in_range UINT16 v → SwapBytes16 (SwapBytes16 v) = v ∧
     ∀ i, 0 ≤ i < 16 → Z.testbit (SwapBytes16 v) i = Z.testbit v (swap_index 16 i)) ∧
  (in_range UINT32 v → SwapBytes32 (SwapBytes32 v) = v ∧
     ∀ i, 0 ≤ i < 32 → Z.testbit (SwapBytes32 v) i = Z.testbit v (swap_index 32 i)) ∧
  (in_range UINT64 v → SwapBytes64 (SwapBytes64 v) = v ∧
     ∀ i, 0 ≤ i < 64 → Z.testbit (SwapBytes64 v) i = Z.testbit v (swap_index 64 i)).
Proof.
  assert (Hext : ∀ w x y, 0 < w → in_range (CType false w) x → in_range (CType false w) y →
    (∀ i, 0 ≤ i < w → Z.testbit x i = Z.testbit y i) → x = y).
  { intros w x y Hw Hx Hy Hb. apply Z.bits_inj'. intros i Hi. destruct (decide (i < w)); [by apply Hb|].
    rewrite (bits_above w x i), (bits_above w y i) by (done || lia). done. }
  assert (Hix : ∀ w i, (w = 16 ∨ w = 32 ∨ w = 64) → 0 ≤ i < w → 0 ≤ swap_index w i < w).
  { intros w i Hw Hi. unfold swap_index. destruct Hw as [->|[->| ->]]; Z.div_mod_to_equations; lia. }
  split_and!; intros Hv; (split; [|intros i Hi]).
  - apply (Hext 16); [done|apply swap16_range|done|]. intros i Hi.
    rewrite !swap16_bits by first [done | apply swap16_range | by apply Hix; auto].
    by rewrite swap_index_involutive by (by exists 2).
  - by apply swap16_bits.
  - apply (Hext 32); [done|apply swap32_range|done|]. intros i Hi.
    rewrite !swap32_bits by first [done | apply swap32_range | by apply Hix; auto].
    by rewrite swap_index_involutive by (by exists 4).
  - by apply swap32_bits.
  - apply (Hext 64); [done|apply swap64_range|done|]. intros i Hi.
    rewrite !swap64_bits by first [done | apply swap64_range | by apply Hix; auto].
    by rewrite swap_index_involutive by (by exists 8).
  - by apply swap64_bits.
Qed.

(** ** Products and quotients *)

(** The 64-bit products are exact modulo 2^64, and exact as they stand when
    the product fits; MultS64x64, which multiplies unsigned, is the two's
    complement product of its signed operands. *)
Theorem products_correct x y :
  MultU64x64 x y = (x * y) mod 2 ^ 64 ∧
  MultU64x32 x y = (x * y) mod 2 ^ 64 ∧
  (u64 (x * y) → MultU64x64 x y = x * y ∧ MultU64x32 x y = x * y) ∧
  MultS64x64 x y = cast INT64 (x * y) ∧
  (s64 (x * y) → MultS64x64 x y = x * y).
Proof.
  assert (Hs : MultS64x64 x y = cast INT64 (x * y)).
  { unfold MultS64x64, MultU64x64, InternalMathMultU64x64, cast. cbn [signed width UINT64 INT64].
    change (64 - 1) with 63. rewrite <-Z.mul_mod by done. by rewrite Zplus_mod_idemp_l. }
  split_and!; try done.
  - intros Hxy. unfold MultU64x32, MultU64x64, InternalMathMultU64x32, InternalMathMultU64x64.
    by rewrite !cast_id.
  - intros Hxy. by rewrite Hs, cast_id.
Qed.

Lemma quot_rem_unique x y : 0 ≤ x → 0 < y →
  Z.quot x y = x / y ∧ Z.rem x y = x mod y.
Proof. intros Hx Hy. rewrite Z.quot_div_nonneg, Z.rem_mod_nonneg by lia. done. Qed.

(** For a non-zero divisor the unsigned divisions give the quotient and the
    remainder of Euclidean division, within the 32 or 64 bits of the result; for
    a zero divisor their ASSERT fails. *)
Theorem unsigned_division_correct Dividend Divisor :
  u64 Dividend →
  (in_range UINT32 Divisor → Divisor ≠ 0 →
   DivU64x32 Dividend Divisor = Some (Dividend / Divisor) ∧
   ModU64x32 Dividend Divisor = Some (Dividend mod Divisor) ∧
   DivU64x32Remainder Dividend Divisor None = Some (Dividend / Divisor, None) ∧
   (∀ old, DivU64x32Remainder Dividend Divisor (Some old) =
             Some (Dividend / Divisor, Some (Dividend mod Divisor))) ∧
   u64 (Dividend / Divisor) ∧ in_range UINT32 (Dividend mod Divisor)) ∧
  (u64 Divisor → Divisor ≠ 0 →
   DivU64x64Remainder Dividend Divisor None = Some (Dividend / Divisor, None) ∧
   (∀ old, DivU64x64Remainder Dividend Divisor (Some old) =
             Some (Dividend / Divisor, Some (Dividend mod Divisor)))) ∧
  (Divisor = 0 →
   DivU64x32 Dividend Divisor = None ∧ ModU64x32 Dividend Divisor = None ∧
   ∀ Remainder, DivU64x32Remainder Dividend Divisor Remainder = None ∧
                DivU64x64Remainder Dividend Divisor Remainder = None).
Proof.
  intros Hx. split_and!.
  - intros Hy H0. assert (0 < Divisor) by (cint_unfold; lia). assert (0 ≤ Dividend) by (cint_unfold; lia).
    destruct (quot_rem_unique Dividend Divisor) as [Hq Hr]; [lia..|].
    assert (Hm : in_range UINT32 (Dividend mod Divisor)).
    { pose proof (Z.mod_pos_bound Dividend Divisor). cint_unfold. lia. }
    unfold DivU64x32, ModU64x32, DivU64x32Remainder, InternalMathDivU64x32, InternalMathModU64x32,
      InternalMathDivRemU64x32, assert_then.
    rewrite (proj2 (Z.eqb_neq _ _) H0). cbn [negb]. rewrite Hq, Hr, (cast_id UINT32) by done.
    split_and!; try done. pose proof (Z.div_pos Dividend Divisor). cint_unfold.
    assert (Dividend / Divisor ≤ Dividend) by (apply Z.div_le_upper_bound; nia). lia.
  - intros Hy H0. assert (0 < Divisor) by (cint_unfold; lia). assert (0 ≤ Dividend) by (cint_unfold; lia).
    destruct (quot_rem_unique Dividend Divisor) as [Hq Hr]; [lia..|].
    unfold DivU64x64Remainder, InternalMathDivRemU64x64, assert_then.
    rewrite (proj2 (Z.eqb_neq _ _) H0). cbn [negb]. by rewrite Hq, Hr.
  - by intros ->.
Qed.

(** DivS64x64Remainder truncates towards zero, with a remainder that has the
    sign of the dividend, and its quotient fits in 64 bits; the ASSERT rejects a
    zero divisor, and nothing rejects the one other case that C leaves undefined,
    the smallest number divided by -1. *)
Theorem signed_division_correct Dividend Divisor :
  s64 Dividend → s64 Divisor →
  (Divisor ≠ 0 → ¬ (Dividend = MIN_INT64 ∧ Divisor = -1) → ∃ q r,
   DivS64x64Remainder Dividend Divisor None = Some (q, None) ∧
   (∀ old, DivS64x64Remainder Dividend Divisor (Some old) = Some (q, Some r)) ∧
   Dividend = Divisor * q + r ∧ Z.abs r < Z.abs Divisor ∧ 0 ≤ r * Dividend ∧ s64 q ∧ s64 r) ∧
  (Divisor = 0 ∨ (Dividend = MIN_INT64 ∧ Divisor = -1) →
   ∀ Remainder, DivS64x64Remainder Dividend Divisor Remainder = None).
Proof.
  intros Hx Hy. split.
  - intros H0 Hmin. exists (Z.quot Dividend Divisor), (Z.rem Dividend Divisor).
    unfold DivS64x64Remainder, InternalMathDivRemS64x64, assert_then.
    rewrite (proj2 (Z.eqb_neq _ _) H0). cbn [negb andb].
    assert (Hb : (Dividend =? MIN_INT64) && (Divisor =? -1) = false).
    { destruct (Z.eqb_spec Dividend MIN_INT64), (Z.eqb_spec Divisor (-1)); try done. by destruct Hmin. }
    rewrite Hb. cbn [negb].
    pose proof (Z.quot_rem Dividend Divisor H0) as Hqr.
    pose proof (Z.rem_bound_abs Dividend Divisor H0) as Hr.
    pose proof (Z.rem_sign_mul Dividend Divisor H0) as Hsg.
    split_and!; try done.
    + assert (Z.abs (Z.quot Dividend Divisor) ≤ Z.abs Dividend).
      { rewrite <-Z.quot_abs by done. apply Z.quot_le_upper_bound; [lia|]. nia. }
      assert (Z.quot Dividend Divisor ≠ 9223372036854775808); [|cint_unfold; lia].
      intros Hq. rewrite Hq in *. unfold MIN_INT64 in Hmin. cint_unfold. nia.
    + cint_unfold. lia.
  - intros [->|[-> ->]] Remainder; done.
Qed.

(** For a non-zero divisor the unsigned divisions give the quotient and the
    remainder of Euclidean division; DivS64x64Remainder truncates towards zero, with
    a remainder that has the sign of the dividend.  A zero divisor fails the ASSERT
    of each, and nothing rejects the one other case that C leaves undefined, the
    smallest number divided by -1. *)
Theorem divisions_correct Dividend Divisor :
  (u64 Dividend → Divisor ≠ 0 →
   (in_range UINT32 Divisor →
    DivU64x32 Dividend Divisor = Some (Dividend / Divisor) ∧
    ModU64x32 Dividend Divisor = Some (Dividend mod Divisor) ∧
    ∀ old, DivU64x32Remainder Dividend Divisor (Some old) =
             Some (Dividend / Divisor, Some (Dividend mod Divisor))) ∧
   (u64 Divisor → ∀ old, DivU64x64Remainder Dividend Divisor (Some old) =
             Some (Dividend / Divisor, Some (Dividend mod Divisor)))) ∧
  (s64 Dividend → s64 Divisor → Divisor ≠ 0 → ¬ (Dividend = MIN_INT64 ∧ Divisor = -1) → ∃ q r,
   (∀ old, DivS64x64Remainder Dividend Divisor (Some old) = Some (q, Some r)) ∧
   Dividend = Divisor * q + r ∧ Z.abs r < Z.abs Divisor ∧ 0 ≤ r * Dividend ∧ s64 q ∧ s64 r) ∧
  (∀ Remainder, DivS64x64Remainder MIN_INT64 (-1) Remainder = None ∧
     DivU64x32Remainder Dividend 0 Remainder = None ∧ DivU64x64Remainder Dividend 0 Remainder = None ∧
     DivS64x64Remainder Dividend 0 Remainder = None).
Proof.
  split_and!.
  - intros Hx H0. destruct (unsigned_division_correct Dividend Divisor Hx) as (H32 & H64 & _). split.
    + intros Hy. by destruct (H32 Hy H0) as (? & ? & _ & ? & _).
    + intros Hy. by destruct (H64 Hy H0) as [_ ?].
  - intros Hx Hy H0 Hmin. destruct (signed_division_correct Dividend Divisor Hx Hy) as [Hq _].
    destruct (Hq H0 Hmin) as (q & r & _ & ?). by exists q, r.
  - done.
Qed.

(** ** Concrete operands *)

Lemma shifts_correct_witness :
  RShiftU64 0x100 4 = Some 0x10 ∧ ARShiftU64 0x8000000000000000 63 = Some 0xFFFFFFFFFFFFFFFF.
Proof.
  split.
  - destruct (shifts_correct 0x100 4) as [H _]; [by split|lia|].
    destruct H as (_ & H & _); [lia|]. rewrite H. reflexivity.
  - destruct (shifts_correct 0x8000000000000000 63) as [H _]; [by split|lia|].
    destruct H as (_ & _ & H); [lia|]. rewrite H. reflexivity.
Defined.

Lemma rotations_correct_witness : LRotU64 0x8000000000000001 0 = None ∧ RRotU64 5 64 = None.
Proof.
  split.
  - apply (rotations_correct 0x8000000000000001 0); [by split|lia|by left].
  - apply (rotations_correct 5 64); [by split|lia|by right].
Defined.

Lemma swap_bytes_correct_witness : SwapBytes64 (SwapBytes64 0x0102030405060708) = 0x0102030405060708.
Proof. apply (swap_bytes_correct 0x0102030405060708). by split. Defined.

Lemma products_correct_witness : MultS64x64 (-3) 7 = -21.
Proof. apply (products_correct (-3) 7). by split. Defined.

Lemma unsigned_division_correct_witness : ModU64x32 1000 7 = Some 6.
Proof. apply (unsigned_division_correct 1000 7); [by split|by split|lia]. Defined.

Lemma signed_division_correct_witness : DivS64x64Remainder MIN_INT64 (-1) None = None.
Proof. apply (signed_division_correct MIN_INT64 (-1)); [by split|by split|]. right. by split. Defined.

Lemma divisions_correct_witness :
  DivU64x32Remainder 1000 7 (Some 0) = Some (142, Some 6) ∧
  ∃ q r, DivS64x64Remainder (-1000) 7 (Some 0) = Some (q, Some r) ∧ -1000 = 7 * q + r ∧ 0 ≤ r * -1000.
Proof.
  split.
  - by apply (proj1 (divisions_correct 1000 7)); [by split|done|by split].
  - destruct (proj1 (proj2 (divisions_correct (-1000) 7)) ltac:(by split) ltac:(by split) ltac:(done)
      ltac:(by intros [? ?])) as (q & r & Hrun & Heq & _ & Hsign & _). by exists q, r.
Defined.
