(* ===== verification/BitField.v ===== *)
(** * Bit fields of BaseLib (MdePkg/Library/BaseLib/BitField.c)

    Every function of the file, for the X64 build, where UINTN has 64 bits.  A
    call is [None] when an ASSERT fails or a shift is undefined in C.  The
    64-bit functions call the shifts of [Math64], as in the source. *)
From S2P Require Import Prelude CBase Math64.
Local Open Scope Z_scope.

(** ** Workers on UINTN *)

Definition InternalBaseLibBitFieldReadUint (Operand StartBit EndBit : Z) : option Z :=
  above ← c_shl64 (cast UINTN (-2)) EndBit;
  c_shr64 (Z.land Operand (cast UINTN (Z.lnot above))) StartBit.

Definition InternalBaseLibBitFieldOrUint (Operand StartBit EndBit OrData : Z) : option Z :=
  top ← c_shr64 OrData (cast UINTN (EndBit - StartBit));
  assert_then (top =? Z.land top 1)
    (data ← c_shl64 OrData StartBit;
     above ← c_shl64 (cast UINTN (-2)) EndBit;
     Some (Z.lor Operand (Z.land data (cast UINTN (Z.lnot above))))).

Definition InternalBaseLibBitFieldAndUint (Operand StartBit EndBit AndData : Z) : option Z :=
  top ← c_shr64 AndData (cast UINTN (EndBit - StartBit));
  assert_then (top =? Z.land top 1)
    (data ← c_shl64 (cast UINTN (Z.lnot AndData)) StartBit;
     above ← c_shl64 (cast UINTN (-2)) EndBit;
     Some (Z.land Operand (cast UINTN (Z.lnot (Z.land data (cast UINTN (Z.lnot above))))))).

(** ** 8-bit values *)

Definition BitFieldRead8 (Operand StartBit EndBit : Z) : option Z :=
  assert_then (EndBit <? 8) (assert_then (StartBit <=? EndBit)
    (cast UINT8 <$> InternalBaseLibBitFieldReadUint Operand StartBit EndBit)).

Definition BitFieldOr8 (Operand StartBit EndBit OrData : Z) : option Z :=
  assert_then (EndBit <? 8) (assert_then (StartBit <=? EndBit)
    (cast UINT8 <$> InternalBaseLibBitFieldOrUint Operand StartBit EndBit OrData)).

Definition BitFieldAnd8 (Operand StartBit EndBit AndData : Z) : option Z :=
  assert_then (EndBit <? 8) (assert_then (StartBit <=? EndBit)
    (cast UINT8 <$> InternalBaseLibBitFieldAndUint Operand StartBit EndBit AndData)).

Definition BitFieldAndThenOr8 (Operand StartBit EndBit AndData OrData : Z) : option Z :=
  assert_then (EndBit <? 8) (assert_then (StartBit <=? EndBit)
    (x ← BitFieldAnd8 Operand StartBit EndBit AndData;
     BitFieldOr8 x StartBit EndBit OrData)).

Definition BitFieldWrite8 (Operand StartBit EndBit Value : Z) : option Z :=
  assert_then (EndBit <? 8) (assert_then (StartBit <=? EndBit)
    (BitFieldAndThenOr8 Operand StartBit EndBit 0 Value)).

(** ** 16-bit values *)

Definition BitFieldRead16 (Operand StartBit EndBit : Z) : option Z :=
  assert_then (EndBit <? 16) (assert_then (StartBit <=? EndBit)
    (cast UINT16 <$> InternalBaseLibBitFieldReadUint Operand StartBit EndBit)).

Definition BitFieldOr16 (Operand StartBit EndBit OrData : Z) : option Z :=
  assert_then (EndBit <? 16) (assert_then (StartBit <=? EndBit)
    (cast UINT16 <$> InternalBaseLibBitFieldOrUint Operand StartBit EndBit OrData)).

Definition BitFieldAnd16 (Operand StartBit EndBit AndData : Z) : option Z :=
  assert_then (EndBit <? 16) (assert_then (StartBit <=? EndBit)
    (cast UINT16 <$> InternalBaseLibBitFieldAndUint Operand StartBit EndBit AndData)).

Definition BitFieldAndThenOr16 (Operand StartBit EndBit AndData OrData : Z) : option Z :=
  assert_then (EndBit <? 16) (assert_then (StartBit <=? EndBit)
    (x ← BitFieldAnd16 Operand StartBit EndBit AndData;
     BitFieldOr16 x StartBit EndBit OrData)).

Definition BitFieldWrite16 (Operand StartBit EndBit Value : Z) : option Z :=
  assert_then (EndBit <? 16) (assert_then (StartBit <=? EndBit)
    (BitFieldAndThenOr16 Operand StartBit EndBit 0 Value)).

(** ** 32-bit values *)

Definition BitFieldRead32 (Operand StartBit EndBit : Z) : option Z :=
  assert_then (EndBit <? 32) (assert_then (StartBit <=? EndBit)
    (cast UINT32 <$> InternalBaseLibBitFieldReadUint Operand StartBit EndBit)).

Definition BitFieldOr32 (Operand StartBit EndBit OrData : Z) : option Z :=
  assert_then (EndBit <? 32) (assert_then (StartBit <=? EndBit)
    (cast UINT32 <$> InternalBaseLibBitFieldOrUint Operand StartBit EndBit OrData)).

Definition BitFieldAnd32 (Operand StartBit EndBit AndData : Z) : option Z :=
  assert_then (EndBit <? 32) (assert_then (StartBit <=? EndBit)
    (cast UINT32 <$> InternalBaseLibBitFieldAndUint Operand StartBit EndBit AndData)).

Definition BitFieldAndThenOr32 (Operand StartBit EndBit AndData OrData : Z) : option Z :=
  assert_then (EndBit <? 32) (assert_then (StartBit <=? EndBit)
    (x ← BitFieldAnd32 Operand StartBit EndBit AndData;
     BitFieldOr32 x StartBit EndBit OrData)).

Definition BitFieldWrite32 (Operand StartBit EndBit Value : Z) : option Z :=
  assert_then (EndBit <? 32) (assert_then (StartBit <=? EndBit)
    (BitFieldAndThenOr32 Operand StartBit EndBit 0 Value)).

(** ** 64-bit values *)

Definition BitFieldRead64 (Operand StartBit EndBit : Z) : option Z :=
  assert_then (EndBit <? 64) (assert_then (StartBit <=? EndBit)
    (above ← LShiftU64 (cast UINT64 (-2)) EndBit;
     RShiftU64 (Z.land Operand (cast UINT64 (Z.lnot above))) StartBit)).

Definition BitFieldOr64 (Operand StartBit EndBit OrData : Z) : option Z :=
  assert_then (EndBit <? 64) (assert_then (StartBit <=? EndBit)
    (top ← RShiftU64 OrData (EndBit - StartBit);
     assert_then (top =? Z.land top 1)
       (Value1 ← LShiftU64 OrData StartBit;
        Value2 ← LShiftU64 (cast UINT64 (-2)) EndBit;
        Some (Z.lor Operand (Z.land Value1 (cast UINT64 (Z.lnot Value2))))))).

Definition BitFieldAnd64 (Operand StartBit EndBit AndData : Z) : option Z :=
  assert_then (EndBit <? 64) (assert_then (StartBit <=? EndBit)
    (top ← RShiftU64 AndData (EndBit - StartBit);
     assert_then (top =? Z.land top 1)
       (Value1 ← LShiftU64 (cast UINT64 (Z.lnot AndData)) StartBit;
        Value2 ← LShiftU64 (cast UINT64 (-2)) EndBit;
        Some (Z.land Operand
                (cast UINT64 (Z.lnot (Z.land Value1 (cast UINT64 (Z.lnot Value2))))))))).

Definition BitFieldAndThenOr64 (Operand StartBit EndBit AndData OrData : Z) : option Z :=
  assert_then (EndBit <? 64) (assert_then (StartBit <=? EndBit)
    (x ← BitFieldAnd64 Operand StartBit EndBit AndData;
     BitFieldOr64 x StartBit EndBit OrData)).

Definition BitFieldWrite64 (Operand StartBit EndBit Value : Z) : option Z :=
  assert_then (EndBit <? 64) (assert_then (StartBit <=? EndBit)
    (BitFieldAndThenOr64 Operand StartBit EndBit 0 Value)).

(** ** Counting *)

Definition BitFieldCountOnes32 (Operand StartBit EndBit : Z) : option Z :=
  assert_then (EndBit <? 32) (assert_then (StartBit <=? EndBit)
    (Count ← BitFieldRead32 Operand StartBit EndBit;
     let Count := cast UINT32 (Count - Z.land (Z.shiftr Count 1) 0x55555555) in
     let Count := cast UINT32 (Z.land Count 0x33333333 + Z.land (Z.shiftr Count 2) 0x33333333) in
     let Count := cast UINT32 (Count + Z.shiftr Count 4) in
     let Count := Z.land Count 0x0F0F0F0F in
     let Count := cast UINT32 (Count + Z.shiftr Count 8) in
     let Count := cast UINT32 (Count + Z.shiftr Count 16) in
     Some (Z.land (cast UINT8 Count) 0x3F))).

Definition BitFieldCountOnes64 (Operand StartBit EndBit : Z) : option Z :=
  assert_then (EndBit <? 64) (assert_then (StartBit <=? EndBit)
    (BitField ← BitFieldRead64 Operand StartBit EndBit;
     Count ← BitFieldCountOnes32 (cast UINT32 BitField) 0 31;
     high ← RShiftU64 BitField 32;
     more ← BitFieldCountOnes32 (cast UINT32 high) 0 31;
     Some (cast UINT8 (Count + more)))).
