(* ===== verification/BitFieldSpec.v ===== *)
(** * Bit fields of BaseLib: what the functions compute

    [field] and [with_field] say what reading and replacing bits s to e of an
    integer mean; [BitFieldOps] is what a family of bit field functions promises
    in those terms, and the families of the four widths all keep it. *)
From S2P Require Import Prelude CBase Math64 Math64Spec BitField.
Local Open Scope Z_scope.

(** ** Fields of integers *)

Definition field (x s e : Z) : Z := Z.land (Z.shiftr x s) (Z.ones (e - s + 1)).

Definition with_field (x s e v : Z) : Z :=
  Z.lor (Z.ldiff x (Z.shiftl (Z.ones (e - s + 1)) s)) (Z.shiftl v s).

(** A field from s to e inside a value of w bits. *)
Definition inside (w s e : Z) : Prop := 0 ≤ s ≤ e ∧ e < w.

(** A value that fits the field. *)
Definition fits (s e v : Z) : Prop := 0 ≤ v < 2 ^ (e - s + 1).

#[export] Instance inside_dec w s e : Decision (inside w s e).
Proof. unfold inside. apply _. Defined.
#[export] Instance fits_dec s e v : Decision (fits s e v).
Proof. unfold fits. apply _. Defined.

Lemma bits_range w z : 0 ≤ w → (∀ i, w ≤ i → Z.testbit z i = false) → 0 ≤ z < 2 ^ w.
Proof.
  intros Hw Hz. replace z with (z mod 2 ^ w).
  - apply Z.mod_pos_bound. lia.
  - apply Z.bits_inj'. intros i Hi. destruct (decide (i < w)).
    + by rewrite Z.mod_pow2_bits_low by lia.
    + rewrite Z.mod_pow2_bits_high, Hz by lia. done.
Qed.

Lemma range_bits w z i : 0 ≤ z < 2 ^ w → w ≤ i → Z.testbit z i = false.
Proof.
  intros Hz Hi. destruct (decide (0 ≤ w)) as [Hw|Hw].
  - rewrite <-(Z.mod_small z (2 ^ w)) by done. apply Z.mod_pow2_bits_high. lia.
  - rewrite Z.pow_neg_r in Hz by lia. lia.
Qed.

Lemma ones_bits n i : 0 ≤ n → 0 ≤ i → Z.testbit (Z.ones n) i = (i <? n).
Proof. intros Hn Hi. rewrite Z.testbit_ones by done. by rewrite (proj2 (Z.leb_le 0 i)). Qed.

Lemma field_bits x s e i : 0 ≤ s ≤ e → 0 ≤ i →
  Z.testbit (field x s e) i = Z.testbit x (i + s) && (i <? e - s + 1).
Proof. intros Hs Hi. unfold field. rewrite Z.land_spec, Z.shiftr_spec, ones_bits by lia. done. Qed.

Lemma with_field_bits x s e v i : 0 ≤ s ≤ e → fits s e v → 0 ≤ i →
  Z.testbit (with_field x s e v) i
    = if decide (s ≤ i ≤ e) then Z.testbit v (i - s) else Z.testbit x i.
Proof.
  intros Hs Hv Hi. unfold with_field. rewrite Z.lor_spec, Z.ldiff_spec, !Z.shiftl_spec by done.
  destruct (decide (s ≤ i)).
  - rewrite ones_bits by lia. case_decide; destruct (Z.ltb_spec (i - s) (e - s + 1)); try lia.
    + by rewrite andb_false_r.
    + rewrite (range_bits _ v (i - s) Hv) by lia. by rewrite andb_true_r, orb_false_r.
  - rewrite !(Z.testbit_neg_r _ (i - s)) by lia. rewrite decide_False by lia.
    by rewrite andb_true_r, orb_false_r.
Qed.

Lemma field_fits x s e : 0 ≤ s ≤ e → fits s e (field x s e).
Proof.
  intros Hs. unfold fits, field. rewrite Z.land_ones by lia. apply Z.mod_pos_bound. lia.
Qed.

Lemma fits_lor s e v d : 0 ≤ s ≤ e → fits s e v → fits s e d → fits s e (Z.lor v d).
Proof.
  intros Hs Hv Hd. apply bits_range; [lia|]. intros i Hi.
  by rewrite Z.lor_spec, (range_bits _ _ _ Hv Hi), (range_bits _ _ _ Hd Hi).
Qed.

Lemma fits_land s e v d : 0 ≤ s ≤ e → fits s e v → fits s e (Z.land v d).
Proof.
  intros Hs Hv. apply bits_range; [lia|]. intros i Hi.
  by rewrite Z.land_spec, (range_bits _ _ _ Hv Hi).
Qed.

Lemma with_field_range w x s e v :
  inside w s e → fits s e v → 0 ≤ x < 2 ^ w → 0 ≤ with_field x s e v < 2 ^ w.
Proof.
  intros [Hs He] Hv Hx. apply bits_range; [lia|]. intros i Hi.
  rewrite with_field_bits by (done || lia). rewrite decide_False by lia.
  by apply (range_bits w).
Qed.

(** Replacing a field twice: the second value stays. *)
Lemma with_field_twice x s e v v' : 0 ≤ s ≤ e → fits s e v → fits s e v' →
  with_field (with_field x s e v) s e v' = with_field x s e v'.
Proof.
  intros Hs Hv Hv'. apply Z.bits_inj'. intros i Hi. rewrite !with_field_bits by done.
  by case_decide.
Qed.

Lemma field_with_field x s e v : 0 ≤ s ≤ e → fits s e v → field (with_field x s e v) s e = v.
Proof.
  intros Hs Hv. apply Z.bits_inj'. intros i Hi. rewrite field_bits, with_field_bits by (done || lia).
  destruct (Z.ltb_spec i (e - s + 1)).
  - rewrite decide_True by lia. rewrite andb_true_r. f_equal. lia.
  - rewrite andb_false_r. symmetry. apply (range_bits _ _ _ Hv). lia.
Qed.

(** Fields that do not overlap are independent. *)
Lemma field_with_other x s e v s' e' : 0 ≤ s ≤ e → 0 ≤ s' ≤ e' → e < s' ∨ e' < s → fits s e v →
  field (with_field x s e v) s' e' = field x s' e'.
Proof.
  intros Hs Hs' Hd Hv. apply Z.bits_inj'. intros i Hi. rewrite !field_bits by (done || lia).
  destruct (Z.ltb_spec i (e' - s' + 1)); [|by rewrite !andb_false_r].
  rewrite with_field_bits by (done || lia). by rewrite decide_False by lia.
Qed.

(** ** The workers *)

Abbreviation uw w x := (in_range (CType false w) x) (only parsing).

Lemma uw_bound w x : uw w x ↔ 0 ≤ x < 2 ^ w.
Proof. unfold in_range, tmin, tmax. cbn [signed width]. lia. Qed.

(** The mask of the bits up to [e]. *)
Lemma below_mask e : 0 ≤ e < 64 →
  ∃ m, c_shl64 (cast UINTN (-2)) e = Some m ∧ cast UINTN (Z.lnot m) = Z.ones (e + 1).
Proof.
  intros He. unfold c_shl64. rewrite (proj2 (Z.leb_le 0 e)), (proj2 (Z.ltb_lt e 64)) by lia.
  eexists. split; [reflexivity|]. apply Z.bits_inj'. intros i Hi.
  unfold UINTN, UINT64. rewrite cast_testbit, Z.lnot_spec, cast_testbit, Z.shiftl_spec by lia.
  rewrite ones_bits by lia. destruct (Z.ltb_spec i 64); [|symmetry; apply Z.ltb_ge; lia].
  destruct (Z.ltb_spec i (e + 1)).
  - destruct (decide (i = e)) as [->|]; [by rewrite Z.sub_diag|].
    by rewrite Z.testbit_neg_r by lia.
  - rewrite cast_testbit by lia. rewrite (proj2 (Z.ltb_lt (i - e) 64)) by lia.
    replace (i - e) with (Z.succ (i - e - 1)) by lia.
    change (-2) with (2 * -1). rewrite Z.testbit_even_succ, Z.bits_m1 by lia. done.
Qed.

(** The assertion on the unused bits of the data. *)
Lemma top_bit_iff d k : 0 ≤ k → 0 ≤ d →
  (d / 2 ^ k =? Z.land (d / 2 ^ k) 1) = bool_decide (d < 2 ^ (k + 1)).
Proof.
  intros Hk Hd. change 1 with (Z.ones 1) at 1. rewrite Z.land_ones by done. change (2 ^ 1) with 2.
  rewrite Z.pow_add_r, Z.pow_1_r by lia.
  assert (0 < 2 ^ k) by (apply Z.pow_pos_nonneg; lia).
  assert (d / 2 ^ k < 2 ↔ d < 2 ^ k * 2) as Hiff.
  { split; intros Hlt; [|by apply Z.div_lt_upper_bound].
    apply Z.lt_nge. intros Hge. apply (Z.div_le_lower_bound d (2 ^ k) 2) in Hge; lia. }
  pose proof (Z.mod_pos_bound (d / 2 ^ k) 2 ltac:(lia)).
  pose proof (Z.div_pos d (2 ^ k) Hd ltac:(lia)).
  case_bool_decide as Hb.
  - apply Z.eqb_eq. symmetry. apply Z.mod_small. lia.
  - apply Z.eqb_neq. intros Heq. apply Hb, Hiff. lia.
Qed.

Lemma lnot64_bits x i : 0 ≤ i →
  Z.testbit (cast UINTN (Z.lnot x)) i = (i <? 64) && negb (Z.testbit x i).
Proof. intros Hi. unfold UINTN, UINT64. by rewrite cast_testbit, Z.lnot_spec by lia. Qed.

Lemma shl_data_bits d s m i : 0 ≤ s < 64 → c_shl64 d s = Some m → 0 ≤ i < 64 →
  Z.testbit m i = Z.testbit d (i - s).
Proof.
  intros Hs Hm Hi. rewrite (shl64_bits _ _ _ _ Hm) by lia. by rewrite (proj2 (Z.ltb_lt i 64)) by lia.
Qed.

Lemma read_worker x s e : uw 64 x → inside 64 s e →
  InternalBaseLibBitFieldReadUint x s e = Some (field x s e).
Proof.
  intros Hx [Hs He]. unfold InternalBaseLibBitFieldReadUint.
  destruct (below_mask e ltac:(lia)) as (m & -> & Hm). cbn [mbind option_bind]. rewrite Hm.
  rewrite c_shr64_run, <-Z.shiftr_div_pow2 by lia. f_equal. apply Z.bits_inj'. intros i Hi.
  rewrite Z.shiftr_spec, Z.land_spec, field_bits, ones_bits by lia. f_equal.
  destruct (Z.ltb_spec (i + s) (e + 1)), (Z.ltb_spec i (e - s + 1)); lia.
Qed.

Lemma or_worker x s e d : uw 64 x → 0 ≤ d → inside 64 s e →
  InternalBaseLibBitFieldOrUint x s e d
    = if decide (fits s e d) then Some (with_field x s e (Z.lor (field x s e) d)) else None.
Proof.
  intros Hx Hd [Hs He]. unfold InternalBaseLibBitFieldOrUint, assert_then.
  rewrite (cast_id _ (e - s)) by (done || (cint_unfold; lia)). rewrite c_shr64_run by lia.
  cbn [mbind option_bind]. rewrite top_bit_iff by lia. destruct (decide (fits s e d)) as [Hf|Hf].
  2: { by rewrite bool_decide_eq_false_2 by (intros ?; by apply Hf). }
  rewrite bool_decide_eq_true_2 by apply Hf.
  pose proof (c_shl64_run d s ltac:(lia)) as Hrun. rewrite Hrun. cbn [mbind option_bind].
  destruct (below_mask e ltac:(lia)) as (m & -> & Hm). cbn [mbind option_bind]. rewrite Hm.
  f_equal. apply Z.bits_inj'. intros i Hi.
  rewrite with_field_bits by (lia || (apply fits_lor; [lia|by apply field_fits|done])).
  rewrite Z.lor_spec, Z.land_spec, ones_bits by lia.
  destruct (Z.ltb_spec i (e + 1)); [|rewrite decide_False by lia; by rewrite andb_false_r, orb_false_r].
  rewrite (shl_data_bits _ s _ i ltac:(lia) Hrun), andb_true_r by lia. case_decide.
  - rewrite Z.lor_spec, field_bits by lia. rewrite (proj2 (Z.ltb_lt _ _)) by lia.
    rewrite andb_true_r. do 2 f_equal. lia.
  - by rewrite (Z.testbit_neg_r d) by lia; rewrite orb_false_r.
Qed.

Lemma and_worker x s e d : uw 64 x → 0 ≤ d → inside 64 s e →
  InternalBaseLibBitFieldAndUint x s e d
    = if decide (fits s e d) then Some (with_field x s e (Z.land (field x s e) d)) else None.
Proof.
  intros Hx Hd [Hs He]. unfold InternalBaseLibBitFieldAndUint, assert_then.
  rewrite (cast_id _ (e - s)) by (done || (cint_unfold; lia)). rewrite c_shr64_run by lia.
  cbn [mbind option_bind]. rewrite top_bit_iff by lia. destruct (decide (fits s e d)) as [Hf|Hf].
  2: { by rewrite bool_decide_eq_false_2 by (intros ?; by apply Hf). }
  rewrite bool_decide_eq_true_2 by apply Hf.
  pose proof (c_shl64_run (cast UINTN (Z.lnot d)) s ltac:(lia)) as Hrun. rewrite Hrun.
  cbn [mbind option_bind].
  destruct (below_mask e ltac:(lia)) as (m & -> & Hm). cbn [mbind option_bind]. rewrite Hm.
  f_equal. apply Z.bits_inj'. intros i Hi.
  rewrite with_field_bits by (lia || (apply fits_land; [lia|by apply field_fits])).
  rewrite Z.land_spec, lnot64_bits, Z.land_spec, ones_bits by lia.
  destruct (Z.ltb_spec i 64).
  2: { rewrite (range_bits 64 x i (proj1 (uw_bound _ _) Hx)), decide_False by lia. done. }
  destruct (Z.ltb_spec i (e + 1)); [|rewrite decide_False by lia; by rewrite andb_false_r, andb_true_r].
  rewrite (shl_data_bits _ s _ i ltac:(lia) Hrun), andb_true_r by lia. cbn [andb]. case_decide.
  - rewrite lnot64_bits, (proj2 (Z.ltb_lt (i - s) 64)) by lia.
    cbn [andb]. rewrite negb_involutive, Z.land_spec, field_bits, (proj2 (Z.ltb_lt _ (e - s + 1))) by lia.
    rewrite andb_true_r. do 2 f_equal. lia.
  - rewrite (Z.testbit_neg_r _ (i - s)) by lia. by rewrite andb_true_r.
Qed.

(** ** Families of bit field functions *)

(** What the functions for values of [w] bits promise: outside the asserted
    range of bits, or for data wider than the field, an ASSERT fails; otherwise
    the field is read or replaced. *)
Class BitFieldOps (w : Z) (read : Z → Z → Z → option Z)
    (or_ and_ write : Z → Z → Z → Z → option Z)
    (and_or : Z → Z → Z → Z → Z → option Z) : Prop := {
  bf_read x s e : uw w x → 0 ≤ s → 0 ≤ e →
    read x s e = if decide (inside w s e) then Some (field x s e) else None;
  bf_or x s e d : uw w x → 0 ≤ s → 0 ≤ e → uw w d →
    or_ x s e d = if decide (inside w s e ∧ fits s e d)
                  then Some (with_field x s e (Z.lor (field x s e) d)) else None;
  bf_and x s e d : uw w x → 0 ≤ s → 0 ≤ e → uw w d →
    and_ x s e d = if decide (inside w s e ∧ fits s e d)
                   then Some (with_field x s e (Z.land (field x s e) d)) else None;
  bf_and_or x s e d d' : uw w x → 0 ≤ s → 0 ≤ e → uw w d → uw w d' →
    and_or x s e d d' = if decide (inside w s e ∧ fits s e d ∧ fits s e d')
      then Some (with_field x s e (Z.lor (Z.land (field x s e) d) d')) else None;
  bf_write x s e v : uw w x → 0 ≤ s → 0 ≤ e → uw w v →
    write x s e v = if decide (inside w s e ∧ fits s e v)
                    then Some (with_field x s e v) else None
}.

(** The two assertions every function of a family starts with. *)
Definition bf_guard {A} (w s e : Z) (m : option A) : option A :=
  assert_then (e <? w) (assert_then (s <=? e) m).

Lemma bf_guard_inside {A} w s e (m : option A) : 0 ≤ s →
  bf_guard w s e m = if decide (inside w s e) then m else None.
Proof.
  intros Hs. unfold bf_guard, assert_then, inside.
  destruct (Z.ltb_spec e w), (Z.leb_spec s e); case_decide; done || lia.
Qed.

Lemma uw_widen w x : 0 ≤ w ≤ 64 → uw w x → uw 64 x.
Proof.
  rewrite !uw_bound. intros Hw Hx. pose proof (Z.pow_le_mono_r 2 w 64 ltac:(lia) ltac:(lia)). lia.
Qed.

Lemma field_range w x s e : 0 ≤ s → inside w s e → uw w (field x s e).
Proof.
  intros Hs [? ?]. rewrite uw_bound. pose proof (field_fits x s e ltac:(lia)) as Hf. unfold fits in Hf.
  pose proof (Z.pow_le_mono_r 2 (e - s + 1) w ltac:(lia) ltac:(lia)). lia.
Qed.

Lemma zero_fits w s e : inside w s e → fits s e 0.
Proof. intros [? ?]. unfold fits. pose proof (Z.pow_pos_nonneg 2 (e - s + 1) ltac:(lia) ltac:(lia)). lia. Qed.

(** Two updates of one field. *)
Lemma and_then_or x s e d d' : 0 ≤ s ≤ e → fits s e d → fits s e d' →
  with_field (with_field x s e (Z.land (field x s e) d)) s e
    (Z.lor (field (with_field x s e (Z.land (field x s e) d)) s e) d')
  = with_field x s e (Z.lor (Z.land (field x s e) d) d').
Proof.
  intros Hs Hd Hd'. pose proof (fits_land s e (field x s e) d Hs (field_fits x s e Hs)).
  rewrite field_with_field by done. by rewrite with_field_twice by (done || by apply fits_lor).
Qed.

Section family.
Context (w : Z) (read : Z → Z → Z → option Z) (or_ and_ write : Z → Z → Z → Z → option Z).
Context (and_or : Z → Z → Z → Z → Z → option Z).

(** The composed functions follow from the other three. *)
Lemma bf_compose :
  (∀ x s e, uw w x → 0 ≤ s → 0 ≤ e →
     read x s e = if decide (inside w s e) then Some (field x s e) else None) →
  (∀ x s e d, uw w x → 0 ≤ s → 0 ≤ e → uw w d →
     or_ x s e d = if decide (inside w s e ∧ fits s e d)
                   then Some (with_field x s e (Z.lor (field x s e) d)) else None) →
  (∀ x s e d, uw w x → 0 ≤ s → 0 ≤ e → uw w d →
     and_ x s e d = if decide (inside w s e ∧ fits s e d)
                    then Some (with_field x s e (Z.land (field x s e) d)) else None) →
  (∀ x s e d d', and_or x s e d d' = bf_guard w s e (y ← and_ x s e d; or_ y s e d')) →
  (∀ x s e v, write x s e v = bf_guard w s e (and_or x s e 0 v)) →
  BitFieldOps w read or_ and_ write and_or.
Proof.
  intros Hread Hor Hand Hao Hwr.
  assert (∀ x s e d d', uw w x → 0 ≤ s → 0 ≤ e → uw w d → uw w d' →
    and_or x s e d d' = if decide (inside w s e ∧ fits s e d ∧ fits s e d')
      then Some (with_field x s e (Z.lor (Z.land (field x s e) d) d')) else None) as Hboth.
  { intros x s e d d' Hx Hs He Hd Hd'. rewrite Hao, bf_guard_inside by done.
    destruct (decide (inside w s e)) as [Hin|]; [|by rewrite decide_False by tauto].
    rewrite Hand by done. destruct (decide (fits s e d)); [|by rewrite !decide_False by tauto].
    rewrite decide_True by done. cbn [mbind option_bind].
    assert (uw w (with_field x s e (Z.land (field x s e) d))).
    { apply uw_bound, with_field_range; [done| |by apply uw_bound].
      apply fits_land; [apply Hin|apply field_fits, Hin]. }
    rewrite Hor by done.
    destruct (decide (fits s e d')); [|by rewrite !decide_False by tauto].
    rewrite !decide_True by done. by rewrite and_then_or by (done || apply Hin). }
  split; [done..|]. intros x s e v Hx Hs He Hv. rewrite Hwr, bf_guard_inside by done.
  destruct (decide (inside w s e)) as [Hin|]; [|by rewrite decide_False by tauto].
  pose proof (zero_fits w s e Hin). assert (uw w 0) as H0.
  { apply uw_bound. apply uw_bound in Hx. lia. }
  rewrite Hboth by done. rewrite Z.land_0_r, Z.lor_0_l.
  destruct (decide (fits s e v)); [by rewrite !decide_True by tauto|by rewrite !decide_False by tauto].
Qed.

(** A family of narrow functions: each calls its worker and truncates. *)
Lemma bf_narrow : 0 ≤ w ≤ 64 →
  (∀ x s e, read x s e =
     bf_guard w s e (cast (CType false w) <$> InternalBaseLibBitFieldReadUint x s e)) →
  (∀ x s e d, or_ x s e d =
     bf_guard w s e (cast (CType false w) <$> InternalBaseLibBitFieldOrUint x s e d)) →
  (∀ x s e d, and_ x s e d =
     bf_guard w s e (cast (CType false w) <$> InternalBaseLibBitFieldAndUint x s e d)) →
  (∀ x s e d d', and_or x s e d d' = bf_guard w s e (y ← and_ x s e d; or_ y s e d')) →
  (∀ x s e v, write x s e v = bf_guard w s e (and_or x s e 0 v)) →
  BitFieldOps w read or_ and_ write and_or.
Proof.
  intros Hw Hread Hor Hand Hao Hwr.
  assert (∀ s e, inside w s e → inside 64 s e) as Hwide by (unfold inside; lia).
  assert (∀ z, uw w z → cast (CType false w) z = z) as Hcast.
  { intros z Hz. unfold cast. cbn [signed width]. apply Z.mod_small. by apply uw_bound. }
  assert (∀ x s e v, uw w x → inside w s e → fits s e v → uw w (with_field x s e v)) as Hwf.
  { intros x s e v Hx Hin Hv. apply uw_bound. by apply with_field_range; [..|apply uw_bound]. }
  apply bf_compose; [| | |done..].
  - intros x s e Hx Hs He. rewrite Hread, bf_guard_inside by done.
    destruct (decide (inside w s e)) as [Hin|]; [|done].
    rewrite read_worker by eauto using uw_widen. cbn. f_equal. by apply Hcast, field_range.
  - intros x s e d Hx Hs He Hd. rewrite Hor, bf_guard_inside by done.
    destruct (decide (inside w s e)) as [Hin|]; [|by rewrite decide_False by tauto].
    rewrite or_worker by (eauto using uw_widen || (apply uw_bound in Hd; lia)).
    destruct (decide (fits s e d)); [|by rewrite !decide_False by tauto].
    rewrite !decide_True by done. cbn. f_equal. apply Hcast, Hwf; [done..|].
    apply fits_lor; [apply Hin|apply field_fits, Hin|done].
  - intros x s e d Hx Hs He Hd. rewrite Hand, bf_guard_inside by done.
    destruct (decide (inside w s e)) as [Hin|]; [|by rewrite decide_False by tauto].
    rewrite and_worker by (eauto using uw_widen || (apply uw_bound in Hd; lia)).
    destruct (decide (fits s e d)); [|by rewrite !decide_False by tauto].
    rewrite !decide_True by done. cbn. f_equal. apply Hcast, Hwf; [done..|].
    apply fits_land; [apply Hin|apply field_fits, Hin].
Qed.
End family.

(** In range, the shifts of Math64 are the C shifts. *)
Lemma bf_guard_ext {A} w s e (m m' : option A) :
  0 ≤ s → (inside w s e → m = m') → bf_guard w s e m = bf_guard w s e m'.
Proof. intros Hs Hm. rewrite !bf_guard_inside by done. case_decide; auto. Qed.

Ltac bf_shifts :=
  unfold LShiftU64, RShiftU64, assert_then; by rewrite !(proj2 (Z.ltb_lt _ 64)) by lia.

Lemma BitFieldRead64_worker x s e : 0 ≤ s →
  BitFieldRead64 x s e = bf_guard 64 s e (InternalBaseLibBitFieldReadUint x s e).
Proof.
  intros Hs. apply (bf_guard_ext 64 s e); [done|]. intros [? ?].
  unfold InternalBaseLibBitFieldReadUint. bf_shifts.
Qed.

Lemma BitFieldOr64_worker x s e d : 0 ≤ s →
  BitFieldOr64 x s e d = bf_guard 64 s e (InternalBaseLibBitFieldOrUint x s e d).
Proof.
  intros Hs. apply (bf_guard_ext 64 s e); [done|]. intros [? ?].
  unfold InternalBaseLibBitFieldOrUint. rewrite (cast_id _ (e - s)) by (done || (cint_unfold; lia)).
  bf_shifts.
Qed.

Lemma BitFieldAnd64_worker x s e d : 0 ≤ s →
  BitFieldAnd64 x s e d = bf_guard 64 s e (InternalBaseLibBitFieldAndUint x s e d).
Proof.
  intros Hs. apply (bf_guard_ext 64 s e); [done|]. intros [? ?].
  unfold InternalBaseLibBitFieldAndUint. rewrite (cast_id _ (e - s)) by (done || (cint_unfold; lia)).
  bf_shifts.
Qed.

#[export] Instance bit_fields_8 :
  BitFieldOps 8 BitFieldRead8 BitFieldOr8 BitFieldAnd8 BitFieldWrite8 BitFieldAndThenOr8.
Proof. by apply bf_narrow. Qed.

#[export] Instance bit_fields_16 :
  BitFieldOps 16 BitFieldRead16 BitFieldOr16 BitFieldAnd16 BitFieldWrite16 BitFieldAndThenOr16.
Proof. by apply bf_narrow. Qed.

#[export] Instance bit_fields_32 :
  BitFieldOps 32 BitFieldRead32 BitFieldOr32 BitFieldAnd32 BitFieldWrite32 BitFieldAndThenOr32.
Proof. by apply bf_narrow. Qed.

#[export] Instance bit_fields_64 :
  BitFieldOps 64 BitFieldRead64 BitFieldOr64 BitFieldAnd64 BitFieldWrite64 BitFieldAndThenOr64.
Proof.
  apply bf_compose; [| | |done..].
  - intros x s e Hx Hs He. rewrite BitFieldRead64_worker, bf_guard_inside by done.
    case_decide; [by apply read_worker|done].
  - intros x s e d Hx Hs He Hd. rewrite BitFieldOr64_worker, bf_guard_inside by done.
    destruct (decide (inside 64 s e)); [|by rewrite decide_False by tauto].
    apply uw_bound in Hd. rewrite or_worker by (done || lia).
    destruct (decide (fits s e d)); [by rewrite decide_True|by rewrite decide_False by tauto].
  - intros x s e d Hx Hs He Hd. rewrite BitFieldAnd64_worker, bf_guard_inside by done.
    destruct (decide (inside 64 s e)); [|by rewrite decide_False by tauto].
    apply uw_bound in Hd. rewrite and_worker by (done || lia).
    destruct (decide (fits s e d)); [by rewrite decide_True|by rewrite decide_False by tauto].
Qed.

(** C33: In every width (8, 16, 32 and 64), the five bit field functions read and
    replace bits StartBit to EndBit, and only those: Read returns the field, Write
    stores a value in it, Or, And and AndThenOr combine it with their data; a range
    that is not inside the operand and data wider than the field fail an ASSERT. *)
Theorem bit_fields_correct :
  BitFieldOps 8 BitFieldRead8 BitFieldOr8 BitFieldAnd8 BitFieldWrite8 BitFieldAndThenOr8 ∧
  BitFieldOps 16 BitFieldRead16 BitFieldOr16 BitFieldAnd16 BitFieldWrite16 BitFieldAndThenOr16 ∧
  BitFieldOps 32 BitFieldRead32 BitFieldOr32 BitFieldAnd32 BitFieldWrite32 BitFieldAndThenOr32 ∧
  BitFieldOps 64 BitFieldRead64 BitFieldOr64 BitFieldAnd64 BitFieldWrite64 BitFieldAndThenOr64.
Proof. split_and!; apply _. Qed.

(** What a client of any family gets: a written field reads back, and a field that
    does not overlap it is unchanged. *)
Lemma write_then_read `{BitFieldOps w read or_ and_ write and_or} x s e v s' e' :
  0 ≤ w → uw w x → inside w s e → fits s e v → inside w s' e' →
  ∃ y, write x s e v = Some y ∧ uw w y ∧ read y s e = Some v ∧
    (e < s' ∨ e' < s → read y s' e' = read x s' e').
Proof.
  intros Hw Hx Hin Hv Hin'. assert (uw w (with_field x s e v)) as Hy.
  { apply uw_bound. by apply with_field_range; [..|apply uw_bound]. }
  assert (uw w v) as Hvw.
  { apply uw_bound. unfold fits in Hv. pose proof (Z.pow_le_mono_r 2 (e - s + 1) w ltac:(lia)) as Hle.
    unfold inside in Hin. lia. }
  pose proof Hin as [Hs He]. pose proof Hin' as [Hs' He'].
  exists (with_field x s e v). split_and!; [|done| |].
  - rewrite bf_write by (done || lia). by rewrite decide_True.
  - rewrite bf_read by (done || lia). by rewrite decide_True, field_with_field.
  - intros Hd. rewrite !bf_read by (done || lia). rewrite !decide_True by done.
    f_equal. by apply field_with_other.
Qed.
