(* ===== verification/BitCount.v ===== *)
(** * Bit fields of BaseLib: counting the set bits

    BitFieldCountOnes32 adds neighbouring groups of bits in parallel.  The sums
    of every byte depend on that byte only ([swar_split]), a byte is checked by
    computation, and the last additions collect the four bytes. *)
From S2P Require Import Prelude CBase Math64 Math64Spec BitField BitFieldSpec.
Local Open Scope Z_scope.

(** The positions from s to e at which [x] has a set bit. *)
Definition set_bits (x s e : Z) : list Z := filter (λ i, Z.testbit x i = true) (seqZ s (e - s + 1)).

(** ** Counting as a sum *)

Fixpoint cnt (f : Z → bool) (s : Z) (n : nat) : Z :=
  match n with O => 0 | S n => Z.b2z (f s) + cnt f (s + 1) n end.

Lemma cnt_ext f g s n : (∀ i, s ≤ i < s + Z.of_nat n → f i = g i) → cnt f s n = cnt g s n.
Proof.
  revert s. induction n as [|n IH]; intros s Hfg; [done|]. cbn [cnt].
  rewrite Hfg by lia. f_equal. apply IH. intros i Hi. apply Hfg. lia.
Qed.

Lemma cnt_split f s n m : cnt f s (n + m) = cnt f s n + cnt f (s + Z.of_nat n) m.
Proof.
  revert s. induction n as [|n IH]; intros s; cbn [cnt Nat.add]; [by rewrite Z.add_0_r|].
  rewrite IH. rewrite Nat2Z.inj_succ. replace (s + 1 + Z.of_nat n) with (s + Z.succ (Z.of_nat n)) by lia. lia.
Qed.

Lemma cnt_shift f s k n : cnt f (s + k) n = cnt (λ i, f (i + k)) s n.
Proof.
  revert s. induction n as [|n IH]; intros s; cbn [cnt]; [done|]. f_equal.
  rewrite <-IH. f_equal. lia.
Qed.

Lemma cnt_none f s n : (∀ i, s ≤ i → f i = false) → cnt f s n = 0.
Proof.
  revert s. induction n as [|n IH]; intros s Hf; [done|]. cbn [cnt].
  rewrite Hf, IH by (lia || (intros; apply Hf; lia)). done.
Qed.

Lemma set_bits_cnt x s e : s ≤ e + 1 →
  Z.of_nat (length (set_bits x s e)) = cnt (Z.testbit x) s (Z.to_nat (e - s + 1)).
Proof.
  intros Hs. unfold set_bits. replace (e - s + 1) with (Z.of_nat (Z.to_nat (e - s + 1))) at 1 by lia.
  generalize (Z.to_nat (e - s + 1)). clear Hs. intros n. revert s.
  induction n as [|n IH]; intros s; [done|]. rewrite seqZ_cons by lia. cbn [cnt].
  replace (Z.pred (Z.of_nat (S n))) with (Z.of_nat n) by lia. rewrite filter_cons, <-Z.add_1_r, <-IH.
  destruct (Z.testbit x s); cbn [Z.b2z]; case_decide; try done. cbn [length]. lia.
Qed.

(** The field keeps the bits of its range. *)
Lemma cnt_field x s e n : 0 ≤ s ≤ e → e - s + 1 ≤ Z.of_nat n →
  cnt (Z.testbit (field x s e)) 0 n = Z.of_nat (length (set_bits x s e)).
Proof.
  intros Hs Hn. rewrite set_bits_cnt by lia.
  replace n with (Z.to_nat (e - s + 1) + (n - Z.to_nat (e - s + 1)))%nat by lia.
  rewrite cnt_split, (cnt_none _ (0 + _)), Z.add_0_r.
  2: { intros i Hi. rewrite field_bits by lia. rewrite (proj2 (Z.ltb_ge _ _)) by lia. apply andb_false_r. }
  rewrite <-(Z.add_0_l s) at 3. rewrite cnt_shift. apply cnt_ext. intros i Hi.
  rewrite field_bits, (proj2 (Z.ltb_lt _ _)) by lia. apply andb_true_r.
Qed.

(** ** Bytes of a word *)

Lemma byte_add_bits b h i : 0 ≤ b < 256 → 0 ≤ i →
  Z.testbit (b + 256 * h) i = if decide (i < 8) then Z.testbit b i else Z.testbit h (i - 8).
Proof.
  intros Hb Hi. case_decide.
  - rewrite <-(Z.mod_pow2_bits_low _ 8) by lia. change (2 ^ 8) with 256.
    rewrite Z.mul_comm, Z.mod_add, Z.mod_small by lia. done.
  - replace i with (i - 8 + 8) at 1 by lia. rewrite <-Z.div_pow2_bits by lia. change (2 ^ 8) with 256.
    rewrite Z.mul_comm, Z.div_add, Z.div_small by lia. f_equal.
Qed.

Lemma cnt_byte b h n : 0 ≤ b < 256 →
  cnt (Z.testbit (b + 256 * h)) 0 (8 + n) = cnt (Z.testbit b) 0 8 + cnt (Z.testbit h) 0 n.
Proof.
  intros Hb. rewrite cnt_split. f_equal.
  - apply cnt_ext. intros i Hi. rewrite byte_add_bits, decide_True by lia. done.
  - rewrite cnt_shift. apply cnt_ext. intros i Hi. rewrite byte_add_bits, decide_False by lia. f_equal. lia.
Qed.

Lemma land_small b m k : 0 ≤ k → 0 ≤ m < 2 ^ k → 0 ≤ Z.land b m < 2 ^ k.
Proof.
  intros Hk Hm. apply bits_range; [lia|]. intros i Hi.
  by rewrite Z.land_spec, (range_bits _ _ _ Hm Hi), andb_false_r.
Qed.

(** A mask that clears the bits shifted in from the next byte. *)
Lemma masked_shift b h k m q : 0 ≤ b < 256 → 0 ≤ k ≤ 8 → 0 ≤ m < 2 ^ (8 - k) →
  Z.land (Z.shiftr (b + 256 * h) k) (m + 256 * q)
    = Z.land (Z.shiftr b k) m + 256 * Z.land (Z.shiftr h k) q.
Proof.
  intros Hb Hk Hm. assert (0 ≤ m < 256) as Hm'.
  { change 256 with (2 ^ 8). pose proof (Z.pow_le_mono_r 2 (8 - k) 8 ltac:(lia) ltac:(lia)). lia. }
  apply Z.bits_inj'. intros i Hi.
  rewrite byte_add_bits by (done || (apply (land_small _ m 8); [done|exact Hm'])).
  rewrite Z.land_spec, Z.shiftr_spec, !byte_add_bits by lia.
  destruct (decide (i < 8)).
  - rewrite Z.land_spec, Z.shiftr_spec by lia. case_decide; [done|].
    rewrite (range_bits _ m i Hm) by lia. by rewrite !andb_false_r.
  - rewrite decide_False, Z.land_spec, Z.shiftr_spec by lia. do 2 f_equal. lia.
Qed.

Lemma masked_byte b h m q : 0 ≤ b < 256 → 0 ≤ m < 256 →
  Z.land (b + 256 * h) (m + 256 * q) = Z.land b m + 256 * Z.land h q.
Proof. intros Hb Hm. by pose proof (masked_shift b h 0 m q Hb ltac:(lia) Hm). Qed.

(** ** The parallel sums *)

(** The three masking steps on a number of any size. *)
Definition pairs (m5 c : Z) : Z := c - Z.land (Z.shiftr c 1) m5.
Definition nibbles (m3 c : Z) : Z := Z.land c m3 + Z.land (Z.shiftr c 2) m3.
Definition bytes (mF c : Z) : Z := Z.land (c + Z.shiftr c 4) mF.
Definition swar (m5 m3 mF c : Z) : Z := bytes mF (nibbles m3 (pairs m5 c)).

(** The claims about one byte, checked for all of them. *)
Definition byte_ok (b : Z) : bool :=
  let p := pairs 0x55 b in let n := nibbles 0x33 p in
  (0 <=? p) && (p <? 256) && (0 <=? n) && (n <? 0x45) &&
  (swar 0x55 0x33 0x0F b =? cnt (Z.testbit b) 0 8) && (swar 0x55 0x33 0x0F b <=? 8).

Lemma bytes_ok b : 0 ≤ b < 256 → byte_ok b = true.
Proof.
  intros Hb. assert (forallb byte_ok (seqZ 0 256) = true) as Hall by by vm_compute.
  rewrite forallb_forall in Hall. apply Hall. apply list_elem_of_In, elem_of_seqZ. lia.
Qed.

Lemma byte_facts b : 0 ≤ b < 256 →
  0 ≤ pairs 0x55 b < 256 ∧ 0 ≤ nibbles 0x33 (pairs 0x55 b) < 0x45 ∧
  swar 0x55 0x33 0x0F b = cnt (Z.testbit b) 0 8 ∧ 0 ≤ swar 0x55 0x33 0x0F b ≤ 8.
Proof.
  intros Hb. pose proof (bytes_ok b Hb) as Hok. unfold byte_ok in Hok. bool_hyps.
  split_and!; try lia. unfold swar, bytes. by apply Z.land_nonneg; right.
Qed.

Lemma pairs_split b h q : 0 ≤ b < 256 →
  pairs (0x55 + 256 * q) (b + 256 * h) = pairs 0x55 b + 256 * pairs q h.
Proof. intros Hb. unfold pairs. rewrite masked_shift by (done || lia). lia. Qed.

Lemma nibbles_split b h q : 0 ≤ b < 256 →
  nibbles (0x33 + 256 * q) (b + 256 * h) = nibbles 0x33 b + 256 * nibbles q h.
Proof. intros Hb. unfold nibbles. rewrite masked_byte, masked_shift by (done || lia). lia. Qed.

Lemma nibbles_low q h : q mod 16 ≤ 3 → nibbles q h mod 16 ≤ 6.
Proof.
  intros Hq. unfold nibbles.
  assert (∀ x, Z.land x q mod 16 ≤ 3) as Hx.
  { intros x. change 16 with (2 ^ 4). rewrite <-Z.land_ones, <-Z.land_assoc, Z.land_ones by done.
    destruct (Z.land_nonneg x (q mod 2 ^ 4)) as [_ Hnn]. change (2 ^ 4) with 16 in *.
    assert (q mod 16 = 0 ∨ q mod 16 = 1 ∨ q mod 16 = 2 ∨ q mod 16 = 3) as [E|[E|[E|E]]]
      by (pose proof (Z.mod_pos_bound q 16 ltac:(lia)); lia); rewrite E.
    - by rewrite Z.land_0_r.
    - pose proof (land_small x 1 2 ltac:(lia) ltac:(lia)). lia.
    - pose proof (land_small x 2 2 ltac:(lia) ltac:(lia)). lia.
    - pose proof (land_small x 3 2 ltac:(lia) ltac:(lia)). lia. }
  pose proof (Hx h). pose proof (Hx (Z.shiftr h 2)).
  rewrite Z.add_mod by lia. pose proof (Z.mod_le (Z.land h q mod 16 + Z.land (Z.shiftr h 2) q mod 16) 16).
  pose proof (Z.mod_pos_bound (Z.land h q) 16 ltac:(lia)).
  pose proof (Z.mod_pos_bound (Z.land (Z.shiftr h 2) q) 16 ltac:(lia)). lia.
Qed.

(** The nibble that comes from the next byte is masked out and causes no carry. *)
Lemma bytes_split b h q : 0 ≤ b < 0x45 → h mod 16 ≤ 6 →
  bytes (0x0F + 256 * q) (b + 256 * h) = bytes 0x0F b + 256 * bytes q h.
Proof.
  intros Hb Hh. unfold bytes. rewrite !Z.shiftr_div_pow2 by done. change (2 ^ 4) with 16.
  replace (b + 256 * h + (b + 256 * h) / 16)
    with (b + b / 16 + 16 * (h mod 16) + 256 * (h + h / 16)).
  2: { replace (b + 256 * h) with (b + (16 * h) * 16) at 2 by lia. rewrite Z.div_add by lia.
       pose proof (Z.div_mod h 16 ltac:(lia)). lia. }
  pose proof (Z.mod_pos_bound h 16 ltac:(lia)). pose proof (Z.div_pos b 16 ltac:(lia) ltac:(lia)).
  pose proof (Z.div_lt_upper_bound b 16 5 ltac:(lia) ltac:(lia)).
  rewrite masked_byte by lia. f_equal. change 0x0F with (Z.ones 4). rewrite !Z.land_ones by done.
  change (2 ^ 4) with 16. by rewrite (Z.mul_comm 16), Z.mod_add by lia.
Qed.

Lemma swar_split b h m5 m3 mF : 0 ≤ b < 256 → m3 mod 16 ≤ 3 →
  swar (0x55 + 256 * m5) (0x33 + 256 * m3) (0x0F + 256 * mF) (b + 256 * h)
    = cnt (Z.testbit b) 0 8 + 256 * swar m5 m3 mF h.
Proof.
  intros Hb Hm. destruct (byte_facts b Hb) as (Hp & Hn & <- & _). unfold swar.
  rewrite pairs_split, nibbles_split by done. apply bytes_split; [done|]. by apply nibbles_low.
Qed.

Lemma swar_word c : 0 ≤ c < 2 ^ 32 →
  ∃ p0 p1 p2 p3, swar 0x55555555 0x33333333 0x0F0F0F0F c = p0 + 256 * (p1 + 256 * (p2 + 256 * p3)) ∧
    0 ≤ p0 ≤ 8 ∧ 0 ≤ p1 ≤ 8 ∧ 0 ≤ p2 ≤ 8 ∧ 0 ≤ p3 ≤ 8 ∧
    p0 + p1 + p2 + p3 = cnt (Z.testbit c) 0 32.
Proof.
  intros Hc. change (2 ^ 32) with 4294967296 in Hc.
  assert (∃ b0 b1 b2 b3, c = b0 + 256 * (b1 + 256 * (b2 + 256 * b3)) ∧
    0 ≤ b0 < 256 ∧ 0 ≤ b1 < 256 ∧ 0 ≤ b2 < 256 ∧ 0 ≤ b3 < 256) as (b0 & b1 & b2 & b3 & -> & H0 & H1 & H2 & H3).
  { exists (c mod 256), (c / 256 mod 256), (c / 256 / 256 mod 256), (c / 256 / 256 / 256).
    Z.div_mod_to_equations. lia. }
  change 0x55555555 with (0x55 + 256 * (0x55 + 256 * (0x55 + 256 * 0x55))).
  change 0x33333333 with (0x33 + 256 * (0x33 + 256 * (0x33 + 256 * 0x33))).
  change 0x0F0F0F0F with (0x0F + 256 * (0x0F + 256 * (0x0F + 256 * 0x0F))).
  rewrite !swar_split by (done || by vm_compute).
  pose proof (byte_facts b0 H0) as (_ & _ & <- & ?). pose proof (byte_facts b1 H1) as (_ & _ & <- & ?).
  pose proof (byte_facts b2 H2) as (_ & _ & <- & ?). pose proof (byte_facts b3 H3) as (_ & _ & E3 & ?).
  do 4 eexists. split; [reflexivity|]. split_and!; try lia.
  rewrite (cnt_byte b0 _ 24), (cnt_byte b1 _ 16), (cnt_byte b2 _ 8) by done.
  rewrite <-E3. destruct (byte_facts b0 H0) as (_ & _ & <- & _).
  destruct (byte_facts b1 H1) as (_ & _ & <- & _). destruct (byte_facts b2 H2) as (_ & _ & <- & _). lia.
Qed.

(** The sum of the four byte counts ends up in the low byte. *)
Lemma collect_bytes p0 p1 p2 p3 :
  0 ≤ p0 ≤ 8 → 0 ≤ p1 ≤ 8 → 0 ≤ p2 ≤ 8 → 0 ≤ p3 ≤ 8 →
  let y := p0 + 256 * (p1 + 256 * (p2 + 256 * p3)) in
  let z := cast UINT32 (y + Z.shiftr y 8) in
  Z.land (cast UINT8 (cast UINT32 (z + Z.shiftr z 16))) 0x3F = p0 + p1 + p2 + p3.
Proof.
  intros H0 H1 H2 H3 y z. change 0x3F with (Z.ones 6). rewrite Z.land_ones by done.
  assert (z = y + (p1 + 256 * (p2 + 256 * p3))) as Hz.
  { subst z y. rewrite Z.shiftr_div_pow2 by done. change (2 ^ 8) with 256.
    cint_unfold. rewrite Z.mod_small; Z.div_mod_to_equations; lia. }
  clearbody z. subst z y. rewrite Z.shiftr_div_pow2 by done. change (2 ^ 16) with 65536.
  cint_unfold. change (2 ^ 6) with 64. Z.div_mod_to_equations. lia.
Qed.

(** No step of the 32-bit computation wraps. *)
Lemma swar_casts c : 0 ≤ c < 2 ^ 32 →
  let c1 := cast UINT32 (c - Z.land (Z.shiftr c 1) 0x55555555) in
  let c2 := cast UINT32 (Z.land c1 0x33333333 + Z.land (Z.shiftr c1 2) 0x33333333) in
  let c3 := cast UINT32 (c2 + Z.shiftr c2 4) in
  Z.land c3 0x0F0F0F0F = swar 0x55555555 0x33333333 0x0F0F0F0F c.
Proof.
  intros Hc c1 c2 c3.
  assert (∀ z, 0 ≤ z < 2 ^ 32 → cast UINT32 z = z) as Hcast by (intros z Hz; by apply Z.mod_small).
  assert (∀ x m, 0 ≤ x → 0 ≤ m → 0 ≤ Z.land x m ≤ x ∧ Z.land x m ≤ m) as Hland.
  { intros x m Hx Hm. rewrite <-(Z2N.id x), <-(Z2N.id m), <-N2Z.inj_land by done.
    pose proof (N.land_le_l (Z.to_N x) (Z.to_N m)). pose proof (N.land_le_r (Z.to_N x) (Z.to_N m)). lia. }
  assert (c1 = pairs 0x55555555 c ∧ 0 ≤ c1 < 2 ^ 32) as [-> H1].
  { subst c1. pose proof (Z.shiftr_nonneg c 1) as [_ Hnn]. specialize (Hnn ltac:(lia)).
    destruct (Hland (Z.shiftr c 1) 0x55555555 Hnn ltac:(lia)) as [Hl _].
    rewrite Z.shiftr_div_pow2 in Hl by done. pose proof (Z.div_le_upper_bound c (2 ^ 1) c ltac:(lia) ltac:(lia)).
    assert (0 ≤ c - Z.land (Z.shiftr c 1) 0x55555555 < 2 ^ 32) by (rewrite Z.shiftr_div_pow2 in * by done; lia).
    by rewrite Hcast by done. }
  assert (c2 = nibbles 0x33333333 (pairs 0x55555555 c) ∧ 0 ≤ c2 ≤ 0x66666666) as [-> H2].
  { subst c2. pose proof (Z.shiftr_nonneg (pairs 0x55555555 c) 2) as [_ Hnn]. specialize (Hnn ltac:(lia)).
    pose proof (Hland _ 0x33333333 Hnn ltac:(lia)).
    pose proof (Hland (pairs 0x55555555 c) 0x33333333 ltac:(lia) ltac:(lia)).
    rewrite Hcast by (change (2 ^ 32) with 4294967296; lia). split; [done|lia]. }
  subst c3. unfold swar, bytes. f_equal. apply Hcast. rewrite Z.shiftr_div_pow2 by done.
  change (2 ^ 4) with 16. change (2 ^ 32) with 4294967296.
  generalize dependent (nibbles 0x33333333 (pairs 0x55555555 c)). intros n Hn.
  Z.div_mod_to_equations. lia.
Qed.

Lemma CountOnes32_value x s e : uw 32 x → inside 32 s e →
  BitFieldCountOnes32 x s e = Some (Z.of_nat (length (set_bits x s e))).
Proof.
  intros Hx [Hs He]. unfold BitFieldCountOnes32, assert_then.
  rewrite (proj2 (Z.ltb_lt e 32)), (proj2 (Z.leb_le s e)), bf_read by (done || lia).
  rewrite decide_True by done. cbn [mbind option_bind]. cbv zeta.
  assert (0 ≤ field x s e < 2 ^ 32) as Hf by (apply uw_bound; apply field_range; [lia|done]).
  rewrite swar_casts by done. destruct (swar_word _ Hf) as (p0 & p1 & p2 & p3 & -> & ? & ? & ? & ? & Hsum).
  rewrite collect_bytes by done. by rewrite Hsum, cnt_field by lia.
Qed.

Lemma cnt_bounds f s n : 0 ≤ cnt f s n ≤ Z.of_nat n.
Proof.
  revert s. induction n as [|n IH]; intros s; cbn [cnt]; [lia|].
  pose proof (IH (s + 1)). destruct (f s); cbn [Z.b2z]; lia.
Qed.

Lemma count_halves f :
  cast UINT8 (cnt (Z.testbit (cast UINT32 f)) 0 32 + cnt (Z.testbit (cast UINT32 (Z.shiftr f 32))) 0 32)
    = cnt (Z.testbit f) 0 (32 + 32).
Proof.
  rewrite cnt_split. rewrite cast_id; [|done|].
  - f_equal; [|rewrite cnt_shift]; apply cnt_ext; intros i Hi; unfold UINT32.
    + rewrite cast_testbit by lia. by rewrite (proj2 (Z.ltb_lt i 32)) by lia.
    + rewrite cast_testbit, Z.shiftr_spec by lia. by rewrite (proj2 (Z.ltb_lt i 32)) by lia.
  - pose proof (cnt_bounds (Z.testbit (cast UINT32 f)) 0 32) as Hl.
    pose proof (cnt_bounds (Z.testbit (cast UINT32 (Z.shiftr f 32))) 0 32) as Hh.
    change (Z.of_nat 32) with 32 in *. unfold in_range. change (tmin UINT8) with 0.
    change (tmax UINT8) with 255. lia.
Qed.

Lemma CountOnes32_all z :
  BitFieldCountOnes32 (cast UINT32 z) 0 31 = Some (cnt (Z.testbit (cast UINT32 z)) 0 32).
Proof.
  rewrite CountOnes32_value by (done || by apply (cast_range UINT32)). by rewrite set_bits_cnt by lia.
Qed.

Lemma bind_some {A B} (x : A) (k : A → option B) m : m = Some x → m ≫= k = k x.
Proof. by intros ->. Qed.

Lemma RShiftU64_high f : RShiftU64 f 32 = Some (Z.shiftr f 32).
Proof. done. Qed.

Lemma CountOnes64_value x s e : uw 64 x → inside 64 s e →
  BitFieldCountOnes64 x s e = Some (Z.of_nat (length (set_bits x s e))).
Proof.
  intros Hx [Hs He]. unfold BitFieldCountOnes64, assert_then.
  rewrite (proj2 (Z.ltb_lt e 64)), (proj2 (Z.leb_le s e)) by lia.
  erewrite bind_some by (rewrite bf_read, decide_True by (done || lia); reflexivity).
  erewrite bind_some by apply CountOnes32_all. erewrite bind_some by apply RShiftU64_high.
  erewrite bind_some by apply CountOnes32_all. by rewrite count_halves, cnt_field by lia.
Qed.

Lemma bf_guard_outside {A} w s e (m : option A) : 0 ≤ s → ¬ inside w s e → bf_guard w s e m = None.
Proof. intros Hs Hin. by rewrite bf_guard_inside, decide_False by done. Qed.

(** BitFieldCountOnes32 and BitFieldCountOnes64, which add neighbouring groups
    of bits in parallel, return the number of positions from StartBit to EndBit at
    which the operand has a set bit; a range that is not inside the operand fails
    an ASSERT. *)
Theorem count_ones_correct Operand StartBit EndBit :
  0 ≤ StartBit → 0 ≤ EndBit →
  (uw 32 Operand → BitFieldCountOnes32 Operand StartBit EndBit =
     if decide (inside 32 StartBit EndBit)
     then Some (Z.of_nat (length (set_bits Operand StartBit EndBit))) else None) ∧
  (uw 64 Operand → BitFieldCountOnes64 Operand StartBit EndBit =
     if decide (inside 64 StartBit EndBit)
     then Some (Z.of_nat (length (set_bits Operand StartBit EndBit))) else None).
Proof.
  intros Hs He. split; intros Hx; case_decide as Hin.
  - by apply CountOnes32_value.
  - by apply (bf_guard_outside 32 StartBit EndBit).
  - by apply CountOnes64_value.
  - by apply (bf_guard_outside 64 StartBit EndBit).
Qed.

Lemma count_ones_correct_witness :
  BitFieldCountOnes32 0xF00F 2 13 = Some 4 ∧ BitFieldCountOnes64 (2 ^ 63 + 5) 0 63 = Some 3 ∧
  BitFieldCountOnes32 1 0 32 = None.
Proof.
  split_and!.
  - rewrite (proj1 (count_ones_correct 0xF00F 2 13 ltac:(lia) ltac:(lia))) by (split; vm_compute; done).
    by vm_compute.
  - rewrite (proj2 (count_ones_correct (2 ^ 63 + 5) 0 63 ltac:(lia) ltac:(lia))) by (split; vm_compute; done).
    by vm_compute.
  - rewrite (proj1 (count_ones_correct 1 0 32 ltac:(lia) ltac:(lia))) by (split; vm_compute; done).
    by vm_compute.
Defined.
