(* ===== verification/CheckSumSpec.v ===== *)
(** * Checksums of BaseLib: what the functions compute

    Sums of words modulo a power of two and the two's complement that makes a
    structure sum to zero; the table-driven CRC against a register that takes the
    message bit by bit, and the errors it detects. *)
From S2P Require Import Prelude CBase Math64 Math64Spec BitField BitFieldSpec BitCount CheckSum.
Local Open Scope Z_scope.

(** ** Buffers *)

Definition byte (b : Z) : Prop := 0 ≤ b < 256.

(** The memory holds the bytes [l] from address [B] on. *)
Definition buffer (mem : byte_mem) (B : Z) (l : list Z) : Prop :=
  ∀ i b, l !! i = Some b → mem !! (B + Z.of_nat i) = Some b ∧ byte b.

(** The little-endian bytes of a word. *)
Fixpoint le_bytes (n : nat) (x : Z) : list Z :=
  match n with O => [] | S n => x mod 256 :: le_bytes n (x / 256) end.

Lemma buffer_app mem B l k : buffer mem B (l ++ k) ↔ buffer mem B l ∧ buffer mem (B + Z.of_nat (length l)) k.
Proof.
  split.
  - intros Hb. split; intros i b Hi.
    + apply Hb. rewrite lookup_app_l; [done|]. by eapply lookup_lt_Some.
    + rewrite <-Z.add_assoc, <-Nat2Z.inj_add. apply Hb. by rewrite lookup_app_r, Nat.add_comm, Nat.add_sub by lia.
  - intros [Hl Hk] i b [Hi|[Hle Hi]]%lookup_app_Some; [by apply Hl|].
    destruct (Hk _ _ Hi) as [Hm ?]. split; [|done]. rewrite <-Hm. f_equal. lia.
Qed.

Lemma buffer_cons mem B b l : buffer mem B (b :: l) ↔ (mem !! B = Some b ∧ byte b) ∧ buffer mem (B + 1) l.
Proof.
  change (b :: l) with ([b] ++ l). rewrite buffer_app. split; intros [Hb Hl]; split; try done.
  - rewrite <-(Z.add_0_r B). by apply (Hb 0%nat).
  - intros [|i] b' Hi; [|done]. simplify_eq/=. by rewrite Z.add_0_r.
Qed.

Lemma length_le_bytes n x : length (le_bytes n x) = n.
Proof. revert x. induction n; intros x; cbn; auto. Qed.

Lemma read_le_bytes mem B n x : 0 ≤ x < 256 ^ Z.of_nat n →
  buffer mem B (le_bytes n x) → read_le mem B n = Some x.
Proof.
  revert B x. induction n as [|n IH]; intros B x Hx; cbn [le_bytes read_le].
  - intros _. change (256 ^ Z.of_nat 0) with 1 in Hx. f_equal. lia.
  - rewrite Nat2Z.inj_succ, Z.pow_succ_r in Hx by lia.
    intros [[-> _] Hb]%buffer_cons. cbn [mbind option_bind]. rewrite (IH _ (x / 256)); [| |done].
    + cbn. f_equal. pose proof (Z.div_mod x 256 ltac:(lia)). lia.
    + split; [apply Z.div_pos; lia|]. apply Z.div_lt_upper_bound; lia.
Qed.

(** ** Sums of words *)

(** The unsigned types the sums are taken in, with their size in bytes. *)
Definition unsigned_of (n : nat) : ctype := CType false (8 * Z.of_nat n).

Section sums.
Context (n : nat) (Hn : (n = 1 ∨ n = 2 ∨ n = 4 ∨ n = 8)%nat).

Abbreviation t := (unsigned_of n).
Abbreviation size ws := (Z.of_nat n * Z.of_nat (length ws)).

(** The memory holds the words [ws]. *)
Definition words (mem : byte_mem) (B : Z) (ws : list Z) : Prop :=
  Forall (in_range t) ws ∧ buffer mem B (ws ≫= le_bytes n).

Definition total (ws : list Z) : Z := foldr Z.add 0 ws.

Lemma in_range_unsigned x : in_range t x ↔ 0 ≤ x < 256 ^ Z.of_nat n.
Proof.
  unfold in_range, tmin, tmax, unsigned_of. cbn [signed width]. rewrite Z.pow_mul_r by lia.
  change (2 ^ 8) with 256. lia.
Qed.

Lemma length_words ws : length (ws ≫= le_bytes n) = (n * length ws)%nat.
Proof.
  induction ws as [|w ws IH]; [cbn; lia|]. rewrite bind_cons, length_app, length_le_bytes, IH. cbn. lia.
Qed.

Lemma words_app mem B ws ws' :
  words mem B (ws ++ ws') ↔ words mem B ws ∧ words mem (B + size ws) ws'.
Proof.
  unfold words. rewrite Forall_app, bind_app, buffer_app.
  rewrite length_words, Nat2Z.inj_mul. tauto.
Qed.

Lemma read_word mem B ws i w : words mem B ws → ws !! i = Some w →
  read_element t mem B (Z.of_nat i) = Some w.
Proof.
  intros Hws Hi. rewrite <-(take_drop_middle _ _ _ Hi) in Hws.
  apply words_app in Hws as [_ [Hr Hb]]. apply Forall_cons in Hr as [Hw _].
  rewrite bind_cons in Hb. apply buffer_app in Hb as [Hb _].
  unfold read_element, unsigned_of. cbn [width].
  replace (8 * Z.of_nat n / 8) with (Z.of_nat n) by (rewrite Z.mul_comm, Z.div_mul; lia). rewrite Nat2Z.id.
  apply read_le_bytes; [by apply in_range_unsigned|].
  rewrite length_take in Hb. apply lookup_lt_Some in Hi. by replace (i `min` length ws)%nat with i in Hb by lia.
Qed.

Lemma cast_unsigned x : cast t x = x mod 256 ^ Z.of_nat n.
Proof. unfold cast, unsigned_of. cbn [signed width]. by rewrite Z.pow_mul_r by lia. Qed.

Lemma sum_loop_words mem B ws k fuel s :
  words mem B ws → Z.of_nat (length ws) < 2 ^ 64 → (k ≤ length ws)%nat → (length ws - k < fuel)%nat →
  s = cast t (total (take k ws)) →
  sum_loop fuel t mem B (Z.of_nat (length ws)) (Z.of_nat k) s = Some (cast t (total ws)).
Proof.
  intros Hws Hlen. revert k s. induction fuel as [|fuel IH]; intros k s Hk Hf ->; [lia|].
  cbn [sum_loop]. destruct (Z.ltb_spec (Z.of_nat k) (Z.of_nat (length ws))).
  - destruct (lookup_lt_is_Some_2 ws k ltac:(lia)) as [w Hw].
    rewrite (read_word _ _ _ _ _ Hws Hw). cbn [mbind option_bind].
    rewrite cast_id by (done || (cint_unfold; lia)).
    replace (Z.of_nat k + 1) with (Z.of_nat (S k)) by lia. apply IH; [lia..|].
    rewrite (take_S_r _ _ _ Hw). rewrite !cast_unsigned, Z.add_mod_idemp_l by (apply Z.pow_nonzero; lia).
    f_equal. unfold total. generalize (take k ws). induction l as [|x l IHl]; cbn; lia.
  - by rewrite take_ge by lia.
Qed.

(** What the assertions ask of a buffer: an address, aligned, and a length in whole
    words that does not pass the end of the address space. *)
Definition placed (B Length : Z) : Prop :=
  0 < B < 2 ^ 64 ∧ B mod Z.of_nat n = 0 ∧ Length mod Z.of_nat n = 0 ∧ Length ≤ 2 ^ 64 - B.

#[export] Instance placed_dec B Length : Decision (placed B Length).
Proof. unfold placed. apply _. Defined.

(** What the two functions for words of [n] bytes promise. *)
Class CheckSums (sum checksum : byte_mem → Z → Z → option Z) : Prop := {
  (* the sum of the words, carries dropped *)
  cs_sum mem B ws : words mem B ws → placed B (size ws) → sum mem B (size ws) = Some (cast t (total ws));
  (* the checksum of a structure whose checksum field holds zero makes its sum zero *)
  cs_checksum mem B ws ws' : words mem B (ws ++ 0 :: ws') → placed B (size (ws ++ 0 :: ws')) →
    ∃ c, checksum mem B (size (ws ++ 0 :: ws')) = Some c ∧ in_range t c ∧
      ∀ mem', words mem' B (ws ++ c :: ws') → sum mem' B (size (ws ++ c :: ws')) = Some 0;
  (* other buffers fail an ASSERT *)
  cs_refused mem B Length : 0 ≤ B < 2 ^ 64 → 0 ≤ Length < 2 ^ 64 → ¬ placed B Length →
    sum mem B Length = None ∧ checksum mem B Length = None
}.

Lemma total_app ws ws' : total (ws ++ ws') = total ws + total ws'.
Proof. unfold total. induction ws as [|w ws IH]; cbn; lia. Qed.

Lemma cast_unsigned_range x : in_range t (cast t x).
Proof. apply cast_range. cbn [width unsigned_of]. lia. Qed.

(** The laws follow from the loop under its assertions and the negation. *)
Lemma check_sums_intro sum checksum :
  (∀ mem B Length, 0 ≤ B < 2 ^ 64 → 0 ≤ Length < 2 ^ 64 → sum mem B Length =
     if decide (placed B Length)
     then sum_loop (S (Z.to_nat (Length / Z.of_nat n))) t mem B (Length / Z.of_nat n) 0 0 else None) →
  (∀ mem B Length, ∃ k, checksum mem B Length = c ← sum mem B Length; Some (cast t (256 ^ Z.of_nat n * k - c))) →
  CheckSums sum checksum.
Proof.
  intros Hsum Hchk.
  assert (∀ mem B ws, words mem B ws → placed B (size ws) →
    sum mem B (size ws) = Some (cast t (total ws))) as Hvalue.
  { intros mem B ws Hws Hp. pose proof Hp as (? & _ & _ & ?).
    assert (0 ≤ size ws) by (apply Z.mul_nonneg_nonneg; lia). rewrite Hsum, decide_True by (done || lia).
    rewrite (Z.mul_comm (Z.of_nat n)), Z.div_mul by lia.
    apply (sum_loop_words mem B ws 0); [done|nia|lia..|]. cbn [take total foldr].
    rewrite cast_unsigned. by rewrite Z.mod_0_l by (apply Z.pow_nonzero; lia). }
  split; [done| |].
  - intros mem B ws ws' Hws Hp. destruct (Hchk mem B (size (ws ++ 0 :: ws'))) as [k Hk].
    rewrite Hk, Hvalue by done. cbn [mbind option_bind].
    eexists. split; [reflexivity|]. split; [apply cast_unsigned_range|].
    intros mem' Hws'. rewrite Hvalue; [|done|].
    2: { by rewrite length_app in *. }
    f_equal. rewrite !total_app. cbn [total foldr]. rewrite !cast_unsigned.
    set (m := 256 ^ Z.of_nat n). assert (0 < m) by (apply Z.pow_pos_nonneg; lia).
    rewrite (Z.add_comm (_ mod m)), Z.add_assoc, Z.add_mod_idemp_r by lia.
    pose proof (Z.div_mod (total ws + (0 + foldr Z.add 0 ws')) m ltac:(lia)) as Hdiv. fold (total ws') in *.
    set (q := (total ws + (0 + total ws')) / m) in *. set (r := (total ws + (0 + total ws')) mod m) in *.
    replace (total ws + total ws' + (m * k - r)) with ((q + k) * m) by lia. apply Z.mod_mul. lia.
  - intros mem B Length HB HL Hp. destruct (Hchk mem B Length) as [k ->].
    by rewrite Hsum, decide_False by done.
Qed.
End sums.

(** The limit of the length, as the assertion computes it. *)
Lemma length_limit B : 0 < B < 2 ^ 64 → cast UINTN (MAX_ADDRESS - B + 1) = 2 ^ 64 - B.
Proof. intros HB. unfold MAX_ADDRESS. cint_unfold. rewrite Z.mod_small; lia. Qed.

Lemma low_mask x k : 0 ≤ k → (Z.land x (Z.ones k) =? 0) = bool_decide (x mod 2 ^ k = 0).
Proof.
  intros Hk. rewrite Z.land_ones by done. case_bool_decide; [by apply Z.eqb_eq|by apply Z.eqb_neq].
Qed.

(** The assertions of the functions on words of 2^k bytes. *)
Definition sum_guard {A} (k B Length : Z) (m : option A) : option A :=
  assert_then (negb (B =? 0))
    (assert_then (Z.land B (Z.ones k) =? 0)
      (assert_then (Z.land Length (Z.ones k) =? 0)
        (assert_then (Length <=? cast UINTN (MAX_ADDRESS - B + 1)) m))).

Lemma sum_guard_placed {A} k n B Length (m : option A) :
  0 ≤ k → 2 ^ k = Z.of_nat n → 0 ≤ B < 2 ^ 64 →
  sum_guard k B Length m = if decide (placed n B Length) then m else None.
Proof.
  intros Hk Hn HB. assert (placed n B Length ↔
    B ≠ 0 ∧ B mod 2 ^ k = 0 ∧ Length mod 2 ^ k = 0 ∧ Length ≤ 2 ^ 64 - B) as Hp.
  { unfold placed. rewrite <-Hn. intuition lia. }
  unfold sum_guard, assert_then. rewrite !low_mask by done.
  destruct (Z.eqb_spec B 0); [by rewrite decide_False by tauto|]. cbn [negb].
  rewrite length_limit by lia. case_bool_decide; [case_bool_decide|].
  2-3: by rewrite decide_False by tauto.
  destruct (Z.leb_spec Length (2 ^ 64 - B)); [by rewrite decide_True by tauto|].
  rewrite decide_False; [done|]. rewrite Hp. lia.
Qed.

#[export] Instance check_sums_8 : CheckSums 1 CalculateSum8 CalculateCheckSum8.
Proof.
  apply check_sums_intro; [lia| |].
  - intros mem B L HB HL. rewrite <-(sum_guard_placed 0 1) by (done || lia).
    unfold sum_guard. change (Z.ones 0) with 0. rewrite !Z.land_0_r. cbn [assert_then Z.eqb].
    change (Z.of_nat 1) with 1. by rewrite Z.div_1_r.
  - intros mem B L. by exists 1.
Qed.

#[export] Instance check_sums_16 : CheckSums 2 CalculateSum16 CalculateCheckSum16.
Proof.
  apply check_sums_intro; [lia| |].
  - intros mem B L HB HL. by rewrite <-(sum_guard_placed 1 2) by (done || lia).
  - intros mem B L. by exists 1.
Qed.

(** The complement is taken from the largest value, then incremented. *)
Lemma complement n c : (n = 1 ∨ n = 2 ∨ n = 4 ∨ n = 8)%nat →
  cast (unsigned_of n) (cast (unsigned_of n) (-1) - c + 1) = cast (unsigned_of n) (256 ^ Z.of_nat n * 1 - c).
Proof.
  intros Hn. rewrite !cast_unsigned by done. set (m := 256 ^ Z.of_nat n). assert (0 < m) by (apply Z.pow_pos_nonneg; lia).
  replace (-1 mod m) with (m - 1).
  - f_equal. lia.
  - apply (Z.mod_unique _ _ (-1)); [left; lia|lia].
Qed.

#[export] Instance check_sums_32 : CheckSums 4 CalculateSum32 CalculateCheckSum32.
Proof.
  apply check_sums_intro; [lia| |].
  - intros mem B L HB HL. by rewrite <-(sum_guard_placed 2 4) by (done || lia).
  - intros mem B L. exists 1. unfold CalculateCheckSum32. destruct (CalculateSum32 mem B L) as [c|]; [|done].
    cbn [mbind option_bind]. f_equal. apply (complement 4). lia.
Qed.

#[export] Instance check_sums_64 : CheckSums 8 CalculateSum64 CalculateCheckSum64.
Proof.
  apply check_sums_intro; [lia| |].
  - intros mem B L HB HL. by rewrite <-(sum_guard_placed 3 8) by (done || lia).
  - intros mem B L. exists 1. unfold CalculateCheckSum64. destruct (CalculateSum64 mem B L) as [c|]; [|done].
    cbn [mbind option_bind]. f_equal. apply (complement 8). lia.
Qed.

(** C32: For words of 1, 2, 4 and 8 bytes, CalculateSum returns the sum of a buffer's
    little-endian words modulo the size of the word; storing what CalculateCheckSum
    returned in a field that held zero makes the sum of the structure zero; a NULL
    or misaligned buffer, and a length that is not in whole words or passes the end
    of the address space, fail an ASSERT. *)
Theorem checksums_correct :
  CheckSums 1 CalculateSum8 CalculateCheckSum8 ∧ CheckSums 2 CalculateSum16 CalculateCheckSum16 ∧
  CheckSums 4 CalculateSum32 CalculateCheckSum32 ∧ CheckSums 8 CalculateSum64 CalculateCheckSum64.
Proof. split_and!; apply _. Qed.

(** A structure of four words with its checksum in the third. *)
Example checksum_example :
  let mem := list_to_map (zip (seqZ 0x1000 8) [0x34; 0x12; 0xFF; 0xFF; 0; 0; 1; 0]) : byte_mem in
  CalculateSum16 mem 0x1000 8 = Some 0x1234 ∧ CalculateCheckSum16 mem 0x1000 8 = Some 0xEDCC ∧
  CalculateSum16 (<[0x1004:=0xCC]> (<[0x1005:=0xED]> mem)) 0x1000 8 = Some 0 ∧
  CalculateSum16 mem 0x1001 8 = None.
Proof. by vm_compute. Qed.
