(* ===== verification/Crc32.v ===== *)
(** * The CRC of BaseLib (CalculateCrc32 in MdePkg/Library/BaseLib/CheckSum.c)

    The reference is the shift register of ITU-T V.42, which takes the message
    bit by bit, least significant bit first.  One table entry is eight steps of
    the register; a message of up to 32 bits can be added to the register at once,
    which gives the errors the CRC detects. *)
From S2P Require Import Prelude CBase Math64 Math64Spec BitField BitFieldSpec BitCount CheckSum CheckSumSpec.
Local Open Scope Z_scope.

(** ** The register *)

Definition crc_poly : Z := 0xEDB88320.

Definition crc_shift (s : Z) : Z :=
  if Z.testbit s 0 then Z.lxor (Z.shiftr s 1) crc_poly else Z.shiftr s 1.

Definition crc_step (s : Z) (b : bool) : Z := crc_shift (Z.lxor s (Z.b2z b)).

Definition crc_run (s : Z) (bits : list bool) : Z := foldl crc_step s bits.

(** The bits of a byte and of a buffer, least significant first. *)
Definition byte_bits (b : Z) : list bool := Z.testbit b <$> seqZ 0 8.
Definition buffer_bits (l : list Z) : list bool := l ≫= byte_bits.

Definition crc32 (l : list Z) : Z := Z.lxor (crc_run 0xffffffff (buffer_bits l)) 0xffffffff.

(** ** The register is linear and injective *)

Definition reg (s : Z) : Prop := 0 ≤ s < 2 ^ 32.

Lemma crc_shift_lxor x y : crc_shift (Z.lxor x y) = Z.lxor (crc_shift x) (crc_shift y).
Proof.
  unfold crc_shift. rewrite Z.lxor_spec, Z.shiftr_lxor.
  destruct (Z.testbit x 0), (Z.testbit y 0); cbn [xorb]; apply Z.bits_inj'; intros i Hi;
    rewrite !Z.lxor_spec; destruct (Z.testbit (Z.shiftr x 1) i), (Z.testbit (Z.shiftr y 1) i),
      (Z.testbit crc_poly i); done.
Qed.

Lemma crc_shift_double y : crc_shift (2 * y) = y.
Proof.
  unfold crc_shift. rewrite Z.testbit_even_0. rewrite Z.shiftr_div_pow2 by done.
  change (2 ^ 1) with 2. by rewrite Z.mul_comm, Z.div_mul.
Qed.

Lemma reg_lxor x y : reg x → reg y → reg (Z.lxor x y).
Proof.
  intros Hx Hy. apply bits_range; [done|]. intros i Hi.
  by rewrite Z.lxor_spec, (range_bits _ _ _ Hx Hi), (range_bits _ _ _ Hy Hi).
Qed.

Lemma reg_half s : reg s → 0 ≤ Z.shiftr s 1 < 2 ^ 31.
Proof.
  unfold reg. intros Hs. rewrite Z.shiftr_div_pow2 by done. change (2 ^ 1) with 2.
  change (2 ^ 32) with 4294967296 in Hs. change (2 ^ 31) with 2147483648.
  split; [by apply Z.div_pos; lia|]. apply Z.div_lt_upper_bound; lia.
Qed.

Lemma reg_shift s : reg s → reg (crc_shift s).
Proof.
  intros Hs. pose proof (reg_half s Hs) as Hh. change (2 ^ 31) with 2147483648 in Hh.
  assert (reg (Z.shiftr s 1)) by (unfold reg; change (2 ^ 32) with 4294967296; lia).
  unfold crc_shift. destruct (Z.testbit s 0); [by apply reg_lxor|done].
Qed.

Lemma reg_b2z b : reg (Z.b2z b).
Proof. by destruct b. Qed.

Lemma reg_step s b : reg s → reg (crc_step s b).
Proof. intros Hs. by apply reg_shift, reg_lxor, reg_b2z. Qed.

Lemma reg_run bits s : reg s → reg (crc_run s bits).
Proof. revert s. induction bits as [|b bits IH]; intros s Hs; [done|]. by apply IH, reg_step. Qed.

(** The polynomial's leading coefficient is never shifted in from above. *)
Lemma crc_shift_zero s : reg s → crc_shift s = 0 → s = 0.
Proof.
  intros Hs. unfold crc_shift. pose proof (reg_half s Hs) as Hh.
  pose proof (Z.div_mod s 2 ltac:(lia)) as Hdiv. rewrite <-Z.bit0_mod in Hdiv.
  rewrite Z.shiftr_div_pow2 in * by done. change (2 ^ 1) with 2 in *.
  destruct (Z.testbit s 0); cbn [Z.b2z] in Hdiv.
  - intros Heq%Z.lxor_eq. rewrite Heq in Hh. change (2 ^ 31) with 2147483648 in Hh. unfold crc_poly in Hh. lia.
  - lia.
Qed.

Lemma lxor_cancel x y z : Z.lxor (Z.lxor x z) (Z.lxor y z) = Z.lxor x y.
Proof.
  apply Z.bits_inj'. intros i Hi. rewrite !Z.lxor_spec.
  by destruct (Z.testbit x i), (Z.testbit y i), (Z.testbit z i).
Qed.

Lemma crc_shift_inj x y : reg x → reg y → crc_shift x = crc_shift y → x = y.
Proof.
  intros Hx Hy Heq. apply Z.lxor_eq, crc_shift_zero; [by apply reg_lxor|].
  by rewrite crc_shift_lxor, Heq, Z.lxor_nilpotent.
Qed.

Lemma crc_step_inj x y b : reg x → reg y → crc_step x b = crc_step y b → x = y.
Proof.
  intros Hx Hy Heq%crc_shift_inj; [|by apply reg_lxor, reg_b2z..].
  apply Z.lxor_eq. by rewrite <-(lxor_cancel x y (Z.b2z b)), Heq, Z.lxor_nilpotent.
Qed.

Lemma crc_run_inj bits x y : reg x → reg y → crc_run x bits = crc_run y bits → x = y.
Proof.
  revert x y. induction bits as [|b bits IH]; intros x y Hx Hy Heq; [done|].
  eapply (crc_step_inj _ _ b); [done..|]. by apply IH; [apply reg_step..|].
Qed.

Lemma crc_run_app s b1 b2 : crc_run s (b1 ++ b2) = crc_run (crc_run s b1) b2.
Proof. apply foldl_app. Qed.

(** ** Adding a message to the register at once *)

(** The number with the given bits, least significant first. *)
Fixpoint bits_value (bits : list bool) : Z :=
  match bits with [] => 0 | b :: bits => Z.b2z b + 2 * bits_value bits end.

Definition crc_shifts (n : nat) (s : Z) : Z := Nat.iter n crc_shift s.

Lemma bits_value_bound bits : 0 ≤ bits_value bits < 2 ^ Z.of_nat (length bits).
Proof.
  induction bits as [|b bits IH]; [done|]. cbn [bits_value length].
  rewrite Nat2Z.inj_succ, Z.pow_succ_r by lia. destruct b; cbn [Z.b2z]; lia.
Qed.

Lemma b2z_lxor_double b y : Z.b2z b + 2 * y = Z.lxor (Z.b2z b) (2 * y).
Proof.
  apply Z.bits_inj'. intros i Hi. rewrite Z.lxor_spec. destruct (decide (i = 0)) as [->|].
  - rewrite Z.testbit_even_0, xorb_false_r, Z.add_comm. destruct b; [by rewrite Z.testbit_odd_0|].
    by rewrite Z.add_0_r, Z.testbit_even_0.
  - replace i with (Z.succ (i - 1)) by lia. rewrite Z.testbit_even_succ by lia. rewrite Z.add_comm.
    destruct b; cbn [Z.b2z]; [rewrite Z.testbit_odd_succ by lia|rewrite Z.add_0_r, Z.testbit_even_succ by lia].
    + change 1 with (2 * 0 + 1) at 2. by rewrite Z.testbit_odd_succ, Z.bits_0 by lia.
    + by rewrite Z.bits_0.
Qed.

Lemma crc_shifts_succ n s : crc_shifts (S n) s = crc_shifts n (crc_shift s).
Proof. unfold crc_shifts. by rewrite Nat.iter_succ_r. Qed.

Lemma crc_run_value bits s : crc_run s bits = crc_shifts (length bits) (Z.lxor s (bits_value bits)).
Proof.
  revert s. induction bits as [|b bits IH]; intros s.
  - cbn. by rewrite Z.lxor_0_r.
  - cbn [length bits_value]. rewrite crc_shifts_succ, b2z_lxor_double, <-Z.lxor_assoc, crc_shift_lxor.
    rewrite crc_shift_double. apply IH.
Qed.

Lemma crc_shifts_inj n x y : reg x → reg y → crc_shifts n x = crc_shifts n y → x = y.
Proof.
  revert x y. induction n as [|n IH]; intros x y Hx Hy; [done|]. rewrite !crc_shifts_succ.
  intros Heq%IH; [|by apply reg_shift..]. by apply crc_shift_inj.
Qed.

Lemma bits_value_inj l k : length l = length k → bits_value l = bits_value k → l = k.
Proof.
  revert k. induction l as [|b l IH]; intros [|c k]; cbn [bits_value length]; try done.
  intros [= Hlen] Heq. assert (b = c) as -> by (destruct b, c; cbn [Z.b2z] in Heq; lia).
  f_equal. apply IH; [done|lia].
Qed.

(** Messages of at most 32 bits leave different registers. *)
Lemma crc_window s l k : reg s → length l = length k → (length l ≤ 32)%nat →
  crc_run s l = crc_run s k → l = k.
Proof.
  intros Hs Hlen Hle. rewrite !crc_run_value, Hlen.
  assert (∀ m, (length m ≤ 32)%nat → reg (Z.lxor s (bits_value m))) as Hreg.
  { intros m Hm. apply reg_lxor; [done|]. pose proof (bits_value_bound m). unfold reg.
    pose proof (Z.pow_le_mono_r 2 (Z.of_nat (length m)) 32 ltac:(lia) ltac:(lia)). lia. }
  intros Heq%crc_shifts_inj; [|apply Hreg; lia..]. apply bits_value_inj; [done|].
  apply Z.lxor_eq. rewrite <-(lxor_cancel _ _ s), !(Z.lxor_comm _ s), Heq. apply Z.lxor_nilpotent.
Qed.

(** ** The table *)

Lemma crc_shifts_lxor n x y : crc_shifts n (Z.lxor x y) = Z.lxor (crc_shifts n x) (crc_shifts n y).
Proof.
  revert x y. induction n as [|n IH]; intros x y; [done|]. by rewrite !crc_shifts_succ, crc_shift_lxor, IH.
Qed.

Lemma crc_shifts_high n y : crc_shifts n (2 ^ Z.of_nat n * y) = y.
Proof.
  revert y. induction n as [|n IH]; intros y; [cbn; by rewrite Z.mul_1_l|].
  rewrite Nat2Z.inj_succ, Z.pow_succ_r, <-Z.mul_assoc, crc_shifts_succ, crc_shift_double by lia. apply IH.
Qed.

Definition table_ok (i : Z) : bool :=
  bool_decide (mCrcTable !! Z.to_nat i = Some (crc_shifts 8 i)) && (bits_value (byte_bits i) =? i).

Lemma byte_table i : byte i →
  mCrcTable !! Z.to_nat i = Some (crc_shifts 8 i) ∧ bits_value (byte_bits i) = i.
Proof.
  intros Hi. assert (forallb table_ok (seqZ 0 256) = true) as Hall by by vm_compute.
  rewrite forallb_forall in Hall. unfold byte in Hi.
  specialize (Hall i ltac:(apply list_elem_of_In, elem_of_seqZ; lia)). unfold table_ok in Hall.
  apply andb_true_iff in Hall as [Ht%bool_decide_eq_true Hb%Z.eqb_eq]. done.
Qed.

Lemma byte_lxor x y : byte x → byte y → byte (Z.lxor x y).
Proof.
  unfold byte. change 256 with (2 ^ 8). intros Hx Hy. apply bits_range; [done|]. intros i Hi.
  by rewrite Z.lxor_spec, (range_bits _ _ _ Hx Hi), (range_bits _ _ _ Hy Hi).
Qed.

Lemma split_byte s : s = Z.lxor (cast UINT8 s) (2 ^ Z.of_nat 8 * Z.shiftr s 8).
Proof.
  change (2 ^ Z.of_nat 8) with (2 ^ 8). rewrite Z.mul_comm, <-Z.shiftl_mul_pow2 by done.
  apply Z.bits_inj'. intros i Hi. unfold UINT8. rewrite Z.lxor_spec, cast_testbit, Z.shiftl_spec by lia.
  destruct (Z.ltb_spec i 8).
  - by rewrite (Z.testbit_neg_r _ (i - 8)), xorb_false_r by lia.
  - rewrite Z.shiftr_spec by lia. cbn [andb xorb]. f_equal. lia.
Qed.

(** One table lookup takes a byte. *)
Lemma crc_byte s b : byte b →
  ∃ entry, mCrcTable !! Z.to_nat (Z.lxor (cast UINT8 s) b) = Some entry ∧
    Z.lxor (Z.shiftr s 8) entry = crc_run s (byte_bits b).
Proof.
  intros Hb. assert (byte (cast UINT8 s)) as Hc.
  { pose proof (cast_range UINT8 s ltac:(done)) as Hr. unfold byte. cint_unfold. lia. }
  destruct (byte_table _ (byte_lxor _ _ Hc Hb)) as [-> _]. eexists. split; [reflexivity|].
  rewrite crc_run_value. destruct (byte_table _ Hb) as [_ ->]. change (length (byte_bits b)) with 8%nat.
  rewrite (split_byte s) at 3.
  by rewrite !crc_shifts_lxor, crc_shifts_high, <-Z.lxor_assoc, (Z.lxor_comm (Z.shiftr s 8)).
Qed.

Lemma crc_loop_run mem B l k fuel s :
  buffer mem B l → Z.of_nat (length l) < 2 ^ 64 → (k ≤ length l)%nat → (length l - k < fuel)%nat →
  crc_loop fuel mem (Z.of_nat (length l)) (Z.of_nat k) (B + Z.of_nat k) s
    = Some (crc_run s (buffer_bits (drop k l))).
Proof.
  intros Hl Hlen. revert k s. induction fuel as [|fuel IH]; intros k s Hk Hf; [lia|].
  cbn [crc_loop]. destruct (Z.ltb_spec (Z.of_nat k) (Z.of_nat (length l))).
  - destruct (lookup_lt_is_Some_2 l k ltac:(lia)) as [b Hb]. destruct (Hl _ _ Hb) as [-> Hbyte].
    destruct (crc_byte s b Hbyte) as (entry & Hentry & Hstep).
    cbn [mbind option_bind]. rewrite Hentry. cbn [mbind option_bind].
    rewrite Hstep, cast_id by (done || (cint_unfold; lia)).
    replace (B + Z.of_nat k + 1) with (B + Z.of_nat (S k)) by lia.
    replace (Z.of_nat k + 1) with (Z.of_nat (S k)) by lia. rewrite IH by lia.
    rewrite (drop_S _ _ _ Hb). unfold buffer_bits. by rewrite bind_cons, crc_run_app.
  - by rewrite drop_ge by lia.
Qed.

(** ** The claims *)

(** The assertions of CalculateCrc32. *)
Lemma crc32_run mem B l : buffer mem B l → 0 < B < 2 ^ 64 → Z.of_nat (length l) ≤ 2 ^ 64 - B →
  CalculateCrc32 mem B (Z.of_nat (length l)) = Some (crc32 l).
Proof.
  intros Hl HB Hlen. unfold CalculateCrc32, assert_then.
  rewrite (proj2 (Z.eqb_neq B 0)), length_limit, (proj2 (Z.leb_le _ _)) by lia. cbn [negb].
  pose proof (crc_loop_run mem B l 0 (S (Z.to_nat (Z.of_nat (length l)))) 0xffffffff Hl ltac:(lia) ltac:(lia) ltac:(lia)) as Hrun.
  rewrite Z.add_0_r in Hrun. change (Z.of_nat 0) with 0 in Hrun. by rewrite Hrun.
Qed.

(** CalculateCrc32, which looks up a table entry for every byte, returns the CRC
    of the bit-serial register of ITU-T V.42; a NULL buffer and a length that passes
    the end of the address space fail an ASSERT. *)
Theorem crc32_correct mem Buffer l :
  buffer mem Buffer l → 0 ≤ Buffer < 2 ^ 64 → Z.of_nat (length l) < 2 ^ 64 →
  CalculateCrc32 mem Buffer (Z.of_nat (length l)) =
    if decide (Buffer ≠ 0 ∧ Z.of_nat (length l) ≤ 2 ^ 64 - Buffer) then Some (crc32 l) else None.
Proof.
  intros Hl HB Hlen. destruct (decide (Buffer ≠ 0 ∧ _)) as [[HB0 Hend]|Hbad]; [by apply crc32_run; [|lia|]|].
  unfold CalculateCrc32, assert_then. destruct (Z.eqb_spec Buffer 0); [done|].
  rewrite length_limit, (proj2 (Z.leb_gt _ _)) by lia. done.
Qed.

Lemma byte_bits_length b : length (byte_bits b) = 8%nat.
Proof. done. Qed.

Lemma crc_run_init l : reg (crc_run 0xffffffff l).
Proof. by apply reg_run. Qed.

Lemma bits_value_app l k : bits_value (l ++ k) = bits_value l + 2 ^ Z.of_nat (length l) * bits_value k.
Proof.
  induction l as [|b l IH]; [cbn; lia|]. cbn [bits_value app length]. rewrite IH, Nat2Z.inj_succ, Z.pow_succ_r; lia.
Qed.

Lemma bits_value_le_bytes n x : 0 ≤ x < 256 ^ Z.of_nat n → bits_value (buffer_bits (le_bytes n x)) = x.
Proof.
  revert x. induction n as [|n IH]; intros x Hx; [change (256 ^ Z.of_nat 0) with 1 in Hx; cbn; lia|].
  rewrite Nat2Z.inj_succ, Z.pow_succ_r in Hx by lia. cbn [le_bytes]. unfold buffer_bits.
  rewrite bind_cons, bits_value_app. fold (buffer_bits (le_bytes n (x / 256))).
  rewrite (proj2 (byte_table (x mod 256) (Z.mod_pos_bound x 256 ltac:(lia)))), IH.
  - rewrite byte_bits_length. change (2 ^ Z.of_nat 8) with 256. pose proof (Z.div_mod x 256 ltac:(lia)). lia.
  - split; [apply Z.div_pos; lia|]. apply Z.div_lt_upper_bound; lia.
Qed.

(** The CRC bytes feed back into the register what it holds. *)
Lemma crc_append l : crc32 (l ++ le_bytes 4 (crc32 l)) = 0x2144DF1C.
Proof.
  unfold crc32 at 1. unfold buffer_bits. rewrite bind_app, crc_run_app. fold (buffer_bits l).
  set (s := crc_run 0xffffffff (buffer_bits l)).
  assert (reg (crc32 l)) as Hreg by (apply reg_lxor; [apply crc_run_init|done]).
  fold (buffer_bits (le_bytes 4 (crc32 l))). rewrite crc_run_value, bits_value_le_bytes by exact Hreg.
  change (length (buffer_bits (le_bytes 4 (crc32 l)))) with 32%nat. unfold crc32. fold s.
  rewrite <-Z.lxor_assoc, Z.lxor_nilpotent, Z.lxor_0_l. by vm_compute.
Qed.

Lemma buffer_bits_length l : length (buffer_bits l) = (8 * length l)%nat.
Proof.
  unfold buffer_bits. induction l as [|b l IH]; [done|].
  rewrite bind_cons, length_app, byte_bits_length, IH. cbn. lia.
Qed.

(** C31: Two buffers whose bits agree but for a window of at most 32 consecutive bits
    have different CRCs; and a buffer followed by its CRC in little-endian order has
    a CRC that does not depend on the buffer. *)
Theorem crc32_detects mem Buffer l mem' Buffer' l' pre w w' post :
  buffer mem Buffer l → 0 < Buffer < 2 ^ 64 → Z.of_nat (length l) ≤ 2 ^ 64 - Buffer →
  buffer mem' Buffer' l' → 0 < Buffer' < 2 ^ 64 → Z.of_nat (length l') ≤ 2 ^ 64 - Buffer' →
  buffer_bits l = pre ++ w ++ post → buffer_bits l' = pre ++ w' ++ post →
  length w = length w' → (length w ≤ 32)%nat → w ≠ w' →
  ∃ c c', CalculateCrc32 mem Buffer (Z.of_nat (length l)) = Some c ∧
    CalculateCrc32 mem' Buffer' (Z.of_nat (length l')) = Some c' ∧ c ≠ c' ∧
    ∀ mem2, buffer mem2 Buffer (l ++ le_bytes 4 c) → Z.of_nat (length l) + 4 ≤ 2 ^ 64 - Buffer →
      CalculateCrc32 mem2 Buffer (Z.of_nat (length l) + 4) = Some 0x2144DF1C.
Proof.
  intros Hl HB Hlen Hl' HB' Hlen' Hbits Hbits' Hw Hle Hne.
  exists (crc32 l), (crc32 l'). split_and!; [by apply crc32_run..| |].
  - intros Heq. apply Hne. unfold crc32 in Heq. rewrite Hbits, Hbits', !crc_run_app in Heq.
    apply (crc_window (crc_run 0xffffffff pre)); [apply crc_run_init|done..|].
    apply (crc_run_inj post); [by apply reg_run, crc_run_init..|].
    apply Z.lxor_eq. by rewrite <-(lxor_cancel _ _ 0xffffffff), Heq, Z.lxor_nilpotent.
  - intros mem2 Hmem Hend. replace (Z.of_nat (length l) + 4) with (Z.of_nat (length (l ++ le_bytes 4 (crc32 l)))).
    2: { rewrite length_app, length_le_bytes. lia. }
    rewrite crc32_run; [by rewrite crc_append|done..|]. rewrite length_app, length_le_bytes. lia.
Qed.

(** ** A message *)

Definition crc_message : list Z := [0x31; 0x32; 0x33; 0x34; 0x35; 0x36; 0x37; 0x38; 0x39].
Definition crc_mem (l : list Z) : byte_mem := list_to_map (zip (seqZ 0x1000 (Z.of_nat (length l))) l).

Definition crc_corrupted : list Z := [0x31; 0x32; 0x73; 0x35; 0x35; 0x36; 0x37; 0x38; 0x39].

Ltac concrete_buffer :=
  intros i b Hi; assert (i < 9)%nat by (by apply lookup_lt_Some in Hi);
  do 9 (destruct i as [|i]; [cbn in Hi; simplify_eq; unfold byte; by vm_compute|]); lia.

Lemma crc_message_held : buffer (crc_mem crc_message) 0x1000 crc_message.
Proof. concrete_buffer. Qed.
Lemma crc_corrupted_held : buffer (crc_mem crc_corrupted) 0x1000 crc_corrupted.
Proof. concrete_buffer. Qed.

(** The check value of the standard, for the digits 1 to 9. *)
Lemma crc32_correct_witness : CalculateCrc32 (crc_mem crc_message) 0x1000 9 = Some 0xCBF43926.
Proof.
  change 9 with (Z.of_nat (length crc_message)).
  rewrite (crc32_correct (crc_mem crc_message) 0x1000 crc_message crc_message_held) by (by vm_compute).
  by vm_compute.
Defined.

(** Two bytes of the message are damaged. *)
Lemma crc32_detects_witness : ∃ c c', CalculateCrc32 (crc_mem crc_message) 0x1000 9 = Some c ∧
  CalculateCrc32 (crc_mem crc_corrupted) 0x1000 9 = Some c' ∧ c ≠ c'.
Proof.
  destruct (crc32_detects (crc_mem crc_message) 0x1000 crc_message (crc_mem crc_corrupted) 0x1000
    crc_corrupted (buffer_bits [0x31; 0x32]) (buffer_bits [0x33; 0x34]) (buffer_bits [0x73; 0x35])
    (buffer_bits [0x35; 0x36; 0x37; 0x38; 0x39]))
    as (c & c' & Hc & Hc' & Hne & _);
    [apply crc_message_held|by vm_compute|by vm_compute|apply crc_corrupted_held|by vm_compute|by vm_compute
    |by vm_compute|by vm_compute|done|rewrite buffer_bits_length; cbn; lia|by vm_compute|].
  by exists c, c'.
Defined.
