(* ===== verification/TimeBase.v ===== *)
(** * Calendar arithmetic (EmbeddedPkg/Library/TimeBaseLib/TimeBaseLib.c)

    Every function of the file.  UINTN expressions wrap where the result can be
    divided or is stored; [Z.quot] is the division of a C int.  A call is [None]
    when its ASSERT fails or the month indexes outside of the table of days. *)
From S2P Require Import Prelude CBase.
Local Open Scope Z_scope.

(** EFI_TIME of Uefi/UefiBaseType.h. *)
Record EFI_TIME := EfiTime {
  Year : Z; Month : Z; Day : Z; Hour : Z; Minute : Z; Second : Z; Pad1 : Z;
  Nanosecond : Z; TimeZone : Z; Daylight : Z; Pad2 : Z
}.

Definition EPOCH_JULIAN_DATE := 2440588.
Definition SEC_PER_MIN := 60.
Definition SEC_PER_HOUR := 3600.
Definition SEC_PER_DAY := 86400.
Definition EFI_TIME_ADJUST_DAYLIGHT := 0x01.
Definition EFI_TIME_IN_DAYLIGHT := 0x02.
Definition EFI_UNSPECIFIED_TIMEZONE := 0x07FF.

(** [Time] is the structure the result is written to; the fields that the
    function does not set keep their values. *)
Definition EpochToEfiTime (EpochSeconds : Z) (Time : EFI_TIME) : EFI_TIME :=
  let J := cast UINTN (EpochSeconds / 86400 + 2440588) in
  let j := cast UINTN (J + 32044) in
  let g := j / 146097 in
  let dg := j mod 146097 in
  let c := cast UINTN ((dg / 36524 + 1) * 3) / 4 in
  let dc := cast UINTN (dg - c * 36524) in
  let b := dc / 1461 in
  let db := dc mod 1461 in
  let a := cast UINTN ((db / 365 + 1) * 3) / 4 in
  let da := cast UINTN (db - a * 365) in
  let y := cast UINTN (g * 400 + c * 100 + b * 4 + a) in
  let m := cast UINTN (cast UINTN (da * 5 + 308) / 153 - 2) in
  let d := cast UINTN (da - cast UINTN ((m + 4) * 153) / 5 + 122) in
  let ss := EpochSeconds mod 60 in
  let minutes := cast UINTN (EpochSeconds - ss) / 60 in
  let mm := minutes mod 60 in
  let hours := cast UINTN (minutes - mm) / 60 in
  let hh := hours mod 24 in
  {| Year := cast UINT16 (y - 4800 + cast UINTN (m + 2) / 12);
     Month := cast UINT8 (cast UINTN (m + 2) mod 12 + 1);
     Day := cast UINT8 (d + 1);
     Hour := cast UINT8 hh; Minute := cast UINT8 mm; Second := cast UINT8 ss;
     Pad1 := Pad1 Time; Nanosecond := 0;
     TimeZone := TimeZone Time; Daylight := Daylight Time; Pad2 := Pad2 Time |}.

Definition EfiGetEpochDays (Time : EFI_TIME) : option Z :=
  let a := cast UINTN (Z.quot (14 - Month Time) 12) in
  let y := cast UINTN (Year Time + 4800 - a) in
  let m := cast UINTN (Month Time + 12 * a - 3) in
  let JulianDate := cast UINTN (Day Time + cast UINTN (153 * m + 2) / 5 + 365 * y
                                + y / 4 - y / 100 + y / 400 - 32045) in
  if JulianDate >=? EPOCH_JULIAN_DATE
  then Some (cast UINTN (JulianDate - EPOCH_JULIAN_DATE)) else None.

Definition EfiTimeToEpoch (Time : EFI_TIME) : option Z :=
  days ← EfiGetEpochDays Time;
  let EpochDays := cast UINT32 days in
  Some (cast UINT32 (EpochDays * SEC_PER_DAY + Hour Time * SEC_PER_HOUR
                     + Minute Time * SEC_PER_MIN + Second Time)).

Definition EfiTimeToWday (Time : EFI_TIME) : option Z :=
  EpochDays ← EfiGetEpochDays Time;
  Some (cast UINTN (EpochDays + 4) mod 7).

Definition IsLeapYear (Time : EFI_TIME) : bool :=
  if Year Time mod 4 =? 0 then
    if Year Time mod 100 =? 0 then
      if Year Time mod 400 =? 0 then true else false
    else true
  else false.

Definition DayOfMonth : list Z := [31; 29; 31; 30; 31; 30; 31; 31; 30; 31; 30; 31].

(** The index of the table must be in its bounds. *)
Definition IsDayValid (Time : EFI_TIME) : option bool :=
  if Day Time <? 1 then Some false else
  let i := Month Time - 1 in
  limit ← (if (0 <=? i) then DayOfMonth !! Z.to_nat i else None);
  Some (negb ((Day Time >? limit) ||
              ((Month Time =? 2) && (negb (IsLeapYear Time) && (Day Time >? 28))))).

Definition IsTimeValid (Time : EFI_TIME) : option bool :=
  if (Year Time <? 2000) || (Year Time >? 2099) || (Month Time <? 1) || (Month Time >? 12)
  then Some false else
  day ← IsDayValid Time;
  Some (negb (negb day ||
    (Hour Time >? 23) || (Minute Time >? 59) || (Second Time >? 59) ||
    (Nanosecond Time >? 999999999) ||
    negb ((TimeZone Time =? EFI_UNSPECIFIED_TIMEZONE) ||
          ((TimeZone Time >=? -1440) && (TimeZone Time <=? 1440))) ||
    negb (Z.land (Daylight Time)
            (Z.lnot (Z.lor EFI_TIME_ADJUST_DAYLIGHT EFI_TIME_IN_DAYLIGHT)) =? 0))).
