(* ===== verification/TimeBaseSpec.v ===== *)
(** * Calendar arithmetic: what the functions compute

    The reference is the Gregorian calendar counted day by day: [next_day] from
    1 January 1970.  The conversions split a day number into centuries, four-year
    groups and years that start in March; [march_date] is that splitting and
    [march_days] its inverse. *)
From S2P Require Import Prelude CBase TimeBase.
Local Open Scope Z_scope.

(** ** The calendar *)

Record date := Date { d_year : Z; d_month : Z; d_day : Z }.

Definition leap (Y : Z) : bool :=
  (Y mod 4 =? 0) && (negb (Y mod 100 =? 0) || (Y mod 400 =? 0)).

Definition month_length (Y M : Z) : Z :=
  if M =? 2 then if leap Y then 29 else 28
  else if (M =? 4) || (M =? 6) || (M =? 9) || (M =? 11) then 30 else 31.

Definition valid_date (d : date) : Prop :=
  1 ≤ d_month d ≤ 12 ∧ 1 ≤ d_day d ≤ month_length (d_year d) (d_month d).

Definition next_day (d : date) : date :=
  let '(Date Y M D) := d in
  if D <? month_length Y M then Date Y M (D + 1)
  else if M <? 12 then Date Y (M + 1) 1 else Date (Y + 1) 1 1.

Definition epoch_date : date := Date 1970 1 1.

(** The date after a number of days from the epoch. *)
Definition date_after (n : nat) : date := Nat.iter n next_day epoch_date.

#[export] Instance valid_date_dec d : Decision (valid_date d).
Proof. unfold valid_date. apply _. Defined.

Lemma month_length_bounds Y M : 28 ≤ month_length Y M ≤ 31.
Proof. unfold month_length. repeat case_match; lia. Qed.

Lemma valid_next d : valid_date d → valid_date (next_day d).
Proof.
  destruct d as [Y M D]. unfold valid_date, next_day. cbn [d_year d_month d_day]. intros [HM HD].
  destruct (Z.ltb_spec D (month_length Y M)); [cbn; lia|].
  destruct (Z.ltb_spec M 12); cbn [d_year d_month d_day].
  - pose proof (month_length_bounds Y (M + 1)). lia.
  - pose proof (month_length_bounds (Y + 1) 1). lia.
Qed.

(** ** Years that start in March *)

(** The day number of the code, from the year and the month counted from March. *)
Definition march_days (y m D : Z) : Z :=
  D + (153 * m + 2) / 5 + 365 * y + y / 4 - y / 100 + y / 400 - 32045.

Definition julian (d : date) : Z :=
  let a := (14 - d_month d) / 12 in
  march_days (d_year d + 4800 - a) (d_month d + 12 * a - 3) (d_day d).

(** The parts of a day number: 400 years, centuries, four years, years, days. *)
Record parts := Parts { p_g : Z; p_c : Z; p_b : Z; p_a : Z; p_da : Z }.

Definition parts_of (j : Z) : parts :=
  let dg := j mod 146097 in
  let c := (dg / 36524 + 1) * 3 / 4 in
  let dc := dg - c * 36524 in
  let db := dc mod 1461 in
  let a := (db / 365 + 1) * 3 / 4 in
  Parts (j / 146097) c (dc / 1461) a (db - a * 365).

Definition day_of (p : parts) : Z :=
  146097 * p_g p + 36524 * p_c p + 1461 * p_b p + 365 * p_a p + p_da p.

(** Only the last year of a group has a day 365, and the last group of a century
    only if the century is the last of four. *)
Definition parts_ok (p : parts) : Prop :=
  0 ≤ p_c p ≤ 3 ∧ 0 ≤ p_b p ≤ 24 ∧ 0 ≤ p_a p ≤ 3 ∧ 0 ≤ p_da p ≤ 365 ∧
  (p_da p = 365 → p_a p = 3 ∧ (p_b p = 24 → p_c p = 3)).

Lemma parts_of_ok j : parts_ok (parts_of j) ∧ day_of (parts_of j) = j.
Proof.
  unfold parts_ok, day_of, parts_of. cbn [p_g p_c p_b p_a p_da].
  pose proof (Z.mod_pos_bound j 146097 ltac:(lia)) as Hdg. pose proof (Z.div_mod j 146097 ltac:(lia)) as Hj.
  set (g := j / 146097) in *. set (dg := j mod 146097) in *. clearbody g dg.
  assert (∃ c, (dg / 36524 + 1) * 3 / 4 = c ∧ 0 ≤ c ≤ 3 ∧ 0 ≤ dg - c * 36524 ≤ 36524 ∧
    (dg - c * 36524 = 36524 → c = 3)) as (c & -> & Hc & Hdc & Hc3).
  { eexists. split; [reflexivity|]. Z.div_mod_to_equations. lia. }
  set (dc := dg - c * 36524) in *.
  assert (0 ≤ dc / 1461 ≤ 24 ∧ 0 ≤ dc mod 1461 < 1461 ∧ dc = 1461 * (dc / 1461) + dc mod 1461)
    as (Hb & Hdb & Hdc') by (Z.div_mod_to_equations; lia).
  set (b := dc / 1461) in *. set (db := dc mod 1461) in *. clearbody b db.
  assert (∃ a, (db / 365 + 1) * 3 / 4 = a ∧ 0 ≤ a ≤ 3 ∧ 0 ≤ db - a * 365 ≤ 365 ∧
    (db - a * 365 = 365 → a = 3)) as (a & -> & Ha & Hda & Ha3).
  { eexists. split; [reflexivity|]. Z.div_mod_to_equations. lia. }
  split_and!; try lia; subst dc; lia.
Qed.

Lemma parts_of_day p : parts_ok p → parts_of (day_of p) = p.
Proof.
  destruct p as [g c b a da]. unfold parts_ok, day_of, parts_of. cbn [p_g p_c p_b p_a p_da].
  intros (Hc & Hb & Ha & Hda & H365).
  set (dg := 36524 * c + 1461 * b + 365 * a + da).
  replace (146097 * g + 36524 * c + 1461 * b + 365 * a + da) with (dg + g * 146097) by (subst dg; lia).
  rewrite Z.div_add, Z.mod_add by lia. rewrite (Z.div_small dg), (Z.mod_small dg) by (subst dg; lia).
  assert ((dg / 36524 + 1) * 3 / 4 = c) as -> by (subst dg; Z.div_mod_to_equations; lia).
  replace (dg - c * 36524) with (365 * a + da + b * 1461) by (subst dg; lia).
  rewrite Z.div_add, Z.mod_add by lia. rewrite (Z.div_small (365 * a + da)), (Z.mod_small (365 * a + da)) by lia.
  assert (((365 * a + da) / 365 + 1) * 3 / 4 = a) as -> by (Z.div_mod_to_equations; lia).
  f_equal; lia.
Qed.

Definition year_of (p : parts) : Z := 400 * p_g p + 100 * p_c p + 4 * p_b p + p_a p.

(** The month and the day of a day of the year, both from 0. *)
Definition month_of (da : Z) : Z := (da * 5 + 308) / 153 - 2.
Definition day_in (da : Z) : Z := da - (month_of da + 4) * 153 / 5 + 122.

(** The lengths of the months from March on; the last one is a leap February. *)
Definition march_length (m : Z) : Z := nth (Z.to_nat m) [31; 30; 31; 30; 31; 31; 30; 31; 30; 31; 31; 29] 0.

Definition of_march (y m D : Z) : date :=
  Date (y - 4800 + (m + 2) / 12) ((m + 2) mod 12 + 1) D.

Definition month_ok (da : Z) : bool :=
  let m := month_of da in let D := day_in da + 1 in
  (0 <=? m) && (m <=? 11) && (1 <=? D) && (D <=? march_length m) &&
  (da =? (153 * m + 2) / 5 + D - 1) && Bool.eqb (da =? 365) ((m =? 11) && (D =? 29)).

Lemma month_facts da : 0 ≤ da ≤ 365 →
  0 ≤ month_of da ≤ 11 ∧ 1 ≤ day_in da + 1 ≤ march_length (month_of da) ∧
  da = (153 * month_of da + 2) / 5 + (day_in da + 1) - 1 ∧
  (da = 365 ↔ month_of da = 11 ∧ day_in da + 1 = 29).
Proof.
  intros Hda. assert (forallb month_ok (seqZ 0 366) = true) as Hall by by vm_compute.
  rewrite forallb_forall in Hall.
  specialize (Hall da ltac:(apply list_elem_of_In, elem_of_seqZ; lia)). unfold month_ok in Hall.
  repeat apply andb_true_iff in Hall as [Hall ?]. apply eqb_prop in H. bool_hyps.
  do 3 (split; [lia|]). destruct (Z.eqb_spec da 365) as [->|].
  - symmetry in H. by bool_hyps.
  - split; [lia|]. intros [E1 E2]. by rewrite E1, E2 in H.
Qed.

Definition march_ok (md : Z * Z) : bool :=
  let '(m, D) := md in let da := (153 * m + 2) / 5 + D - 1 in
  (march_length m <? D) ||
  ((0 <=? da) && (da <=? 365) && (month_of da =? m) && (day_in da + 1 =? D) &&
   ((negb (da =? 365)) || ((m =? 11) && (D =? 29)))).

Lemma march_facts m D : 0 ≤ m ≤ 11 → 1 ≤ D ≤ march_length m →
  let da := (153 * m + 2) / 5 + D - 1 in
  0 ≤ da ≤ 365 ∧ month_of da = m ∧ day_in da + 1 = D ∧ (da = 365 → m = 11 ∧ D = 29).
Proof.
  intros Hm HD da. assert (march_length m ≤ 31) as H31.
  { unfold march_length. assert (Z.to_nat m < 12)%nat as Hlt by lia. revert Hlt. generalize (Z.to_nat m).
    intros n Hn. do 12 (destruct n as [|n]; [cbn; lia|]). lia. }
  assert (forallb march_ok (m ← seqZ 0 12; (m,.) <$> seqZ 1 31) = true) as Hall by by vm_compute.
  rewrite forallb_forall in Hall. specialize (Hall (m, D)). unfold march_ok in Hall. fold da in Hall.
  rewrite (proj2 (Z.ltb_ge _ _)) in Hall by lia. cbn [orb] in Hall.
  assert ((0 <=? da) && (da <=? 365) && (month_of da =? m) && (day_in da + 1 =? D) &&
   ((negb (da =? 365)) || ((m =? 11) && (D =? 29))) = true) as Hok.
  { apply Hall. apply list_elem_of_In, list_elem_of_bind. exists m. rewrite list_elem_of_fmap. split.
    - exists D. split; [done|]. apply elem_of_seqZ. lia.
    - apply elem_of_seqZ. lia. }
  bool_hyps; split_and!; lia.
Qed.

(** ** Dates and parts *)

Lemma leap_parts p : parts_ok p →
  leap (year_of p - 4799) = bool_decide (p_a p = 3 ∧ (p_b p = 24 → p_c p = 3)).
Proof.
  destruct p as [g c b a da]. unfold parts_ok, year_of, leap. cbn [p_g p_c p_b p_a p_da].
  intros (Hc & Hb & Ha & _).
  replace (400 * g + 100 * c + 4 * b + a - 4799) with (100 * c + 4 * b + a + 1 + (g - 12) * 400) by lia.
  rewrite Z.mod_add by lia. replace (100 * c + 4 * b + a + 1 + (g - 12) * 400)
    with (4 * b + a + 1 + (c + 4 * (g - 12)) * 100) at 2 by lia. rewrite Z.mod_add by lia.
  replace (100 * c + 4 * b + a + 1 + (g - 12) * 400)
    with (a + 1 + (25 * c + b + 100 * (g - 12)) * 4) by lia. rewrite Z.mod_add by lia.
  case_bool_decide as Hl.
  - destruct Hl as [-> Hl]. change ((3 + 1) mod 4) with 0. cbn [Z.eqb andb].
    apply orb_true_iff. destruct (decide (b = 24)) as [->|].
    + right. rewrite (Hl eq_refl). done.
    + left. rewrite Z.mod_small by lia. apply negb_true_iff, Z.eqb_neq. lia.
  - destruct (decide (a = 3)) as [->|].
    + apply andb_false_iff. right. assert (b = 24 ∧ c ≠ 3) as [-> Hc3] by lia.
      rewrite orb_false_iff. split; [done|]. rewrite Z.mod_small by lia. apply Z.eqb_neq. lia.
    + apply andb_false_iff. left. rewrite Z.mod_small by lia. apply Z.eqb_neq. lia.
Qed.

Lemma of_march_length y m : 0 ≤ m ≤ 11 →
  month_length (d_year (of_march y m 0)) (d_month (of_march y m 0))
    = if decide (m = 11) then if leap (y - 4799) then 29 else 28 else march_length m.
Proof.
  intros Hm. unfold of_march. cbn [d_year d_month].
  assert (m = 0 ∨ m = 1 ∨ m = 2 ∨ m = 3 ∨ m = 4 ∨ m = 5 ∨ m = 6 ∨ m = 7 ∨ m = 8 ∨ m = 9 ∨ m = 10 ∨ m = 11)
    as Hcase by lia.
  repeat destruct Hcase as [->|Hcase]; [done..|]. subst m.
  change ((11 + 2) / 12) with 1. by replace (y - 4800 + 1) with (y - 4799) by lia.
Qed.

Definition of_parts (p : parts) : date := of_march (year_of p) (month_of (p_da p)) (day_in (p_da p) + 1).

Lemma month_length_of_march y m D :
  month_length (d_year (of_march y m D)) (d_month (of_march y m D))
    = month_length (d_year (of_march y m 0)) (d_month (of_march y m 0)).
Proof. done. Qed.

Lemma of_parts_valid p : parts_ok p → valid_date (of_parts p).
Proof.
  intros Hp. pose proof Hp as (_ & _ & _ & Hda & H365).
  destruct (month_facts _ Hda) as (Hm & HD & _ & Hlast). unfold of_parts, valid_date.
  rewrite month_length_of_march, of_march_length by done. cbn [of_march d_day d_month].
  split; [pose proof (Z.mod_pos_bound (month_of (p_da p) + 2) 12 ltac:(lia)); lia|].
  case_decide as H11; [|lia]. rewrite leap_parts by done. rewrite H11 in HD. change (march_length 11) with 29 in HD.
  case_bool_decide as Hl; [lia|]. assert (day_in (p_da p) + 1 ≠ 29); [|lia].
  intros H29. apply Hl, H365, Hlast. done.
Qed.

Lemma julian_of_march y m D : 0 ≤ m ≤ 11 → julian (of_march y m D) = march_days y m D.
Proof.
  intros Hm. unfold julian, of_march. cbn [d_year d_month d_day].
  assert (∃ q, (m + 2) / 12 = q ∧ (m + 2) mod 12 = m + 2 - 12 * q ∧
    (14 - (m + 2 - 12 * q + 1)) / 12 = q) as (q & -> & -> & Hq).
  { eexists. split; [reflexivity|]. Z.div_mod_to_equations. lia. }
  rewrite Hq. f_equal; lia.
Qed.

(** Every fourth year is leap but the centuries not divisible by 400. *)
Lemma year_days p : parts_ok p →
  365 * year_of p + year_of p / 4 - year_of p / 100 + year_of p / 400 = day_of p - p_da p.
Proof.
  destruct p as [g c b a da]. unfold parts_ok, year_of, day_of. cbn [p_g p_c p_b p_a p_da].
  intros (Hc & Hb & Ha & _). Z.div_mod_to_equations. lia.
Qed.

Lemma julian_of_parts p : parts_ok p → julian (of_parts p) = day_of p - 32044.
Proof.
  intros Hp. pose proof Hp as (_ & _ & _ & Hda & _). destruct (month_facts _ Hda) as (Hm & _ & Hval & _).
  unfold of_parts. rewrite julian_of_march by done. unfold march_days. pose proof (year_days p Hp). lia.
Qed.

Lemma of_march_date d : valid_date d → ∃ y m, 0 ≤ m ≤ 11 ∧ d = of_march y m (d_day d).
Proof.
  destruct d as [Y M D]. intros [HM _]. cbn [d_month d_day] in *.
  exists (Y + 4800 - (14 - M) / 12), (M + 12 * ((14 - M) / 12) - 3). unfold of_march.
  assert (∃ q, (14 - M) / 12 = q ∧ 0 ≤ M + 12 * q - 3 ≤ 11 ∧ (M + 12 * q - 3 + 2) / 12 = q ∧
    (M + 12 * q - 3 + 2) mod 12 = M - 1) as (q & -> & ? & Hq & Hmod).
  { eexists. split; [reflexivity|]. Z.div_mod_to_equations. lia. }
  split; [done|]. rewrite Hq, Hmod. f_equal; lia.
Qed.

Lemma date_parts d : valid_date d → ∃ p, parts_ok p ∧ of_parts p = d.
Proof.
  intros Hv. destruct (of_march_date d Hv) as (y & m & Hm & Hd). destruct Hv as [_ HD].
  set (D := d_day d) in *. clearbody D. subst d. rewrite month_length_of_march, of_march_length in HD by done.
  set (da := (153 * m + 2) / 5 + D - 1).
  set (p := Parts (y / 400) (y mod 400 / 100) (y mod 100 / 4) (y mod 4) da).
  assert (year_of p = y) as Hy.
  { unfold year_of, p. cbn [p_g p_c p_b p_a]. Z.div_mod_to_equations. lia. }
  assert (1 ≤ D ≤ march_length m) as HD'.
  { case_decide; [subst m; change (march_length 11) with 29; destruct (leap (y - 4799)); lia|done]. }
  destruct (march_facts m D Hm HD') as (Hda & Hmo & Hdi & H365). fold da in Hda, Hmo, Hdi, H365.
  assert (parts_ok (Parts (p_g p) (p_c p) (p_b p) (p_a p) 0)) as Hp0.
  { unfold parts_ok, p. cbn [p_c p_b p_a p_da]. split_and!; try lia; Z.div_mod_to_equations; lia. }
  exists p. split.
  - pose proof (leap_parts _ Hp0) as Hl. change (year_of _) with (year_of p) in Hl at 1. rewrite Hy in Hl.
    destruct Hp0 as (? & ? & ? & _). do 4 (split; [done|]). intros E.
    destruct (H365 E) as [-> ->]. rewrite decide_True in HD by done.
    destruct (leap (y - 4799)); [|lia]. symmetry in Hl. by apply bool_decide_eq_true in Hl.
  - unfold of_parts. rewrite Hy. cbn [p p_da]. by rewrite Hmo, Hdi.
Qed.

(** ** Days and dates *)

Definition civil (n : Z) : date := of_parts (parts_of (n + EPOCH_JULIAN_DATE + 32044)).
Definition days_of (d : date) : Z := julian d - EPOCH_JULIAN_DATE.

Lemma civil_valid n : valid_date (civil n).
Proof. apply of_parts_valid, parts_of_ok. Qed.

Lemma days_of_civil n : days_of (civil n) = n.
Proof.
  destruct (parts_of_ok (n + EPOCH_JULIAN_DATE + 32044)) as [Hok Hday].
  unfold days_of, civil. rewrite julian_of_parts by done. lia.
Qed.

Lemma civil_days_of d : valid_date d → civil (days_of d) = d.
Proof.
  intros Hv. destruct (date_parts d Hv) as (p & Hp & <-). unfold civil, days_of.
  rewrite julian_of_parts by done. replace (_ + 32044) with (day_of p) by lia. by rewrite parts_of_day.
Qed.

(** One day later is the next date. *)
Lemma days_of_next d : valid_date d → days_of (next_day d) = days_of d + 1.
Proof.
  destruct d as [Y M D]. intros [HM HD]. cbn [d_year d_month d_day] in *.
  unfold next_day. destruct (Z.ltb_spec D (month_length Y M)).
  { unfold days_of, julian, march_days. cbn [d_year d_month d_day]. lia. }
  assert (D = month_length Y M) as -> by lia. clear HD.
  assert (M = 1 ∨ M = 2 ∨ M = 3 ∨ M = 4 ∨ M = 5 ∨ M = 6 ∨ M = 7 ∨ M = 8 ∨ M = 9 ∨ M = 10 ∨ M = 11 ∨ M = 12)
    as Hcase by lia.
  unfold month_length, days_of, julian, march_days.
  repeat destruct Hcase as [->|Hcase]; try subst M; cbn [Z.eqb Z.ltb Z.compare orb Pos.eqb Pos.compare Pos.compare_cont d_year d_month d_day].
  2: { unfold leap. destruct (Z.eqb_spec (Y mod 4) 0), (Z.eqb_spec (Y mod 100) 0), (Z.eqb_spec (Y mod 400) 0);
       cbn [andb orb negb]; Z.div_mod_to_equations; lia. }
  all: Z.div_mod_to_equations; lia.
Qed.

(** ** The code *)

(** The seconds before 1 January 65536, when the year no longer fits its field. *)
Definition epoch_limit : Z := 2005949145600.

(** The day number of 1 January. *)
Definition new_year (Y : Z) : Z := days_of (Date Y 1 1).

Lemma new_year_mono Y Y' : Y ≤ Y' → new_year Y ≤ new_year Y'.
Proof.
  unfold new_year, days_of, julian, march_days. cbn [d_year d_month d_day]. intros HY.
  change ((14 - 1) / 12) with 1. cbn. Z.div_mod_to_equations. lia.
Qed.

Lemma in_year d : valid_date d → new_year (d_year d) ≤ days_of d < new_year (d_year d + 1).
Proof.
  destruct d as [Y M D]. intros [HM HD]. pose proof (month_length_bounds Y M) as Hlen.
  assert (M = 2 → D ≤ 29) as H2. { intros ->. unfold month_length in HD. cbn in HD. destruct (leap Y); lia. }
  unfold new_year, days_of, julian, march_days. cbn [d_year d_month d_day] in *.
  change ((14 - 1) / 12) with 1. assert (∃ q, (14 - M) / 12 = q ∧ 0 ≤ q ≤ 1 ∧ (q = 1 → M ≤ 2) ∧ (q = 0 → 3 ≤ M))
    as (q & -> & ? & ? & ?) by (eexists; split; [reflexivity|]; Z.div_mod_to_equations; lia).
  Z.div_mod_to_equations. lia.
Qed.

(** The years of the days between two new years. *)
Lemma year_between n Y Y' : new_year Y ≤ n < new_year Y' → Y ≤ d_year (civil n) < Y'.
Proof.
  intros Hn. pose proof (in_year _ (civil_valid n)) as Hin. rewrite days_of_civil in Hin. split.
  - apply Z.le_ngt. intros Hlt. pose proof (new_year_mono (d_year (civil n) + 1) Y ltac:(lia)). lia.
  - apply Z.lt_nge. intros Hge. pose proof (new_year_mono Y' (d_year (civil n)) ltac:(lia)). lia.
Qed.

Lemma civil_year_bounds n : 0 ≤ n < 23217004 → 1970 ≤ d_year (civil n) ≤ 65535.
Proof.
  intros Hn. pose proof (year_between n 1970 65536) as Hy. change (new_year 1970) with 0 in Hy.
  change (new_year 65536) with 23217004 in Hy. lia.
Qed.

Lemma cast_u64 z : 0 ≤ z < 2 ^ 64 → cast UINTN z = z.
Proof. intros Hz. by apply Z.mod_small. Qed.

(** Replace the value of the first local variable and substitute it. *)
Ltac let_value v' :=
  lazymatch goal with
  | |- (let x := ?v in @?b x) = ?r => replace v with v'; [change (b v' = r); cbv beta|]
  end.

Lemma epoch_fields s Time : 0 ≤ s < epoch_limit →
  EpochToEfiTime s Time =
    {| Year := d_year (civil (s / 86400)); Month := d_month (civil (s / 86400));
       Day := d_day (civil (s / 86400)); Hour := s / 3600 mod 24; Minute := s / 60 mod 60;
       Second := s mod 60; Pad1 := Pad1 Time; Nanosecond := 0;
       TimeZone := TimeZone Time; Daylight := Daylight Time; Pad2 := Pad2 Time |}.
Proof.
  intros Hs. unfold epoch_limit in Hs.
  pose proof (Z.div_pos s 86400 ltac:(lia) ltac:(lia)) as Hn0.
  pose proof (Z.div_lt_upper_bound s 86400 23217004 ltac:(lia) ltac:(lia)) as Hn1.
  pose proof (civil_year_bounds (s / 86400) ltac:(lia)) as Hyear. pose proof (civil_valid (s / 86400)) as [HM HD].
  pose proof (month_length_bounds (d_year (civil (s / 86400))) (d_month (civil (s / 86400)))).
  unfold civil in *. set (j := s / 86400 + EPOCH_JULIAN_DATE + 32044) in *.
  destruct (parts_of_ok j) as [Hok Hday]. set (p := parts_of j) in *.
  pose proof Hok as (Hc & Hb & Ha & Hda & _). destruct (month_facts _ Hda) as (Hm & Hdi & _ & _).
  cbv beta delta [EpochToEfiTime].
  let_value (s / 86400 + EPOCH_JULIAN_DATE); [|by rewrite cast_u64 by lia].
  let_value j; [|by rewrite cast_u64 by (unfold EPOCH_JULIAN_DATE; lia)].
  let_value (p_g p); [|done]. let_value (j mod 146097); [|done].
  pose proof (Z.mod_pos_bound j 146097 ltac:(lia)) as Hdg.
  let_value (p_c p); [|rewrite cast_u64 by (Z.div_mod_to_equations; lia); done].
  let_value (j mod 146097 - p_c p * 36524); [|rewrite cast_u64; [done|]; unfold p, parts_of; cbn [p_c]; Z.div_mod_to_equations; lia].
  let_value (p_b p); [|done]. let_value ((j mod 146097 - p_c p * 36524) mod 1461); [|done].
  let_value (p_a p); [|rewrite cast_u64 by (Z.div_mod_to_equations; lia); done].
  let_value (p_da p); [|change (p_da p) with ((j mod 146097 - p_c p * 36524) mod 1461 - p_a p * 365) in *; by rewrite cast_u64 by lia].
  assert (0 ≤ year_of p ≤ 70400) as Hyp.
  { pose proof (year_days p Hok). unfold j, EPOCH_JULIAN_DATE in Hday. Z.div_mod_to_equations. lia. }
  let_value (year_of p); [|unfold year_of in *; rewrite cast_u64; lia].
  let_value (month_of (p_da p)); [|unfold month_of in *; rewrite (cast_u64 (_ + 308)) by lia; by rewrite cast_u64 by lia].
  let_value (day_in (p_da p)).
  2: { unfold day_in in *. rewrite (cast_u64 (_ * 153)) by lia. rewrite cast_u64; [done|]. Z.div_mod_to_equations. lia. }
  let_value (s mod 60); [|done].
  pose proof (Z.mod_pos_bound s 60 ltac:(lia)).
  let_value (s / 60); [|rewrite cast_u64; Z.div_mod_to_equations; lia].
  let_value (s / 60 mod 60); [|done].
  let_value (s / 3600); [|rewrite cast_u64; Z.div_mod_to_equations; lia].
  let_value (s / 3600 mod 24); [|done].
  pose proof (Z.mod_pos_bound (s / 60) 60 ltac:(lia)). pose proof (Z.mod_pos_bound (s / 3600) 24 ltac:(lia)).
  unfold of_parts, of_march in *. cbn [d_year d_month d_day] in *.
  rewrite !(cast_u64 (_ + 2)) by lia.
  unfold UINT16, UINT8, cast. cbn [signed width].
  by rewrite (Z.mod_small _ (2 ^ 16)), !(Z.mod_small _ (2 ^ 8)) by lia.
Qed.

(** ** From dates to days *)

Definition time_date (t : EFI_TIME) : date := Date (Year t) (Month t) (Day t).

Lemma year_of_date t : d_year (time_date t) = Year t.
Proof. done. Qed.

(** The fields hold a point of time that a calendar has. *)
Definition calendar_time (t : EFI_TIME) : Prop :=
  valid_date (time_date t) ∧ 0 ≤ Year t ≤ 65535 ∧
  0 ≤ Hour t ≤ 23 ∧ 0 ≤ Minute t ≤ 59 ∧ 0 ≤ Second t ≤ 59.

Lemma days_of_bounds d : valid_date d → 0 ≤ d_year d ≤ 65535 → new_year 0 ≤ days_of d < 23217004.
Proof.
  intros Hv HY. pose proof (in_year d Hv). pose proof (new_year_mono 0 (d_year d) ltac:(lia)).
  pose proof (new_year_mono (d_year d + 1) 65536 ltac:(lia)) as Hm. change (new_year 65536) with 23217004 in Hm. lia.
Qed.

Lemma epoch_days_run t : valid_date (time_date t) → 0 ≤ Year t ≤ 65535 →
  EfiGetEpochDays t = if decide (0 ≤ days_of (time_date t)) then Some (days_of (time_date t)) else None.
Proof.
  intros Hv HY. pose proof (days_of_bounds _ Hv HY) as Hb. change (new_year 0) with (-719528) in Hb.
  destruct Hv as [HM HD].
  pose proof (month_length_bounds (d_year (time_date t)) (d_month (time_date t))).
  unfold days_of, julian, march_days in *. destruct t as [Y M D ? ? ? ? ? ? ? ?].
  cbn [time_date Year Month Day d_year d_month d_day] in *. cbv beta delta [EfiGetEpochDays]. cbn [Year Month Day].
  rewrite Z.quot_div_nonneg by lia.
  assert (0 ≤ (14 - M) / 12 ≤ 1 ∧ 0 ≤ M + 12 * ((14 - M) / 12) - 3 ≤ 11) as [Ha Hm] by (Z.div_mod_to_equations; lia).
  set (a := (14 - M) / 12) in *. clearbody a. rewrite (cast_u64 a) by lia. cbv zeta.
  rewrite (cast_u64 (_ - a)), (cast_u64 (_ - 3)), (cast_u64 (_ + 2)) by lia.
  set (x := D + (153 * (M + 12 * a - 3) + 2) / 5 + 365 * (Y + 4800 - a) + (Y + 4800 - a) / 4
    - (Y + 4800 - a) / 100 + (Y + 4800 - a) / 400 - 32045) in *. clearbody x.
  unfold EPOCH_JULIAN_DATE in *. rewrite (cast_u64 x) by lia. rewrite Z.geb_leb.
  destruct (Z.leb_spec 2440588 x); [rewrite decide_True by lia|by rewrite decide_False by lia].
  by rewrite cast_u64 by lia.
Qed.

Lemma date_after_valid n : valid_date (date_after n).
Proof. induction n as [|n IH]; [by vm_compute|]. cbn [date_after Nat.iter]. by apply valid_next. Qed.

Lemma days_of_date_after n : days_of (date_after n) = Z.of_nat n.
Proof.
  induction n as [|n IH]; [done|]. change (date_after (S n)) with (next_day (date_after n)).
  rewrite days_of_next by apply date_after_valid. lia.
Qed.

(** The closed form of the code counts days like the calendar. *)
Lemma civil_date_after n : 0 ≤ n → civil n = date_after (Z.to_nat n).
Proof.
  intros Hn. rewrite <-(civil_days_of (date_after (Z.to_nat n))) by apply date_after_valid.
  by rewrite days_of_date_after, Z2Nat.id.
Qed.

Lemma epoch_bounds s : 0 ≤ s < epoch_limit → 0 ≤ s / 86400 < 23217004.
Proof. unfold epoch_limit. intros Hs. Z.div_mod_to_equations. lia. Qed.

Lemma epoch_to_days s Time : 0 ≤ s < epoch_limit →
  EfiGetEpochDays (EpochToEfiTime s Time) = Some (s / 86400).
Proof.
  intros Hs. pose proof (epoch_bounds s Hs) as Hn. pose proof (civil_year_bounds _ Hn).
  assert (time_date (EpochToEfiTime s Time) = civil (s / 86400)) as Hd.
  { rewrite epoch_fields by done. unfold time_date. cbn [Year Month Day].
    by destruct (civil (s / 86400)). }
  rewrite epoch_days_run.
  - rewrite Hd, days_of_civil. by rewrite decide_True by lia.
  - rewrite Hd. apply civil_valid.
  - rewrite <-year_of_date, Hd. lia.
Qed.

(** C26: EpochToEfiTime gives the date that follows 1 January 1970 by the number of
    whole days, counting day by day through the Gregorian calendar, with the time of
    day that is left, and EfiTimeToWday counts the days of the week from a Thursday,
    up to the last second of the year 65535. *)
Theorem epoch_calendar EpochSeconds Time : 0 ≤ EpochSeconds < epoch_limit →
  let d := date_after (Z.to_nat (EpochSeconds / 86400)) in
  EpochToEfiTime EpochSeconds Time =
    {| Year := d_year d; Month := d_month d; Day := d_day d;
       Hour := EpochSeconds / 3600 mod 24; Minute := EpochSeconds / 60 mod 60;
       Second := EpochSeconds mod 60; Pad1 := Pad1 Time; Nanosecond := 0;
       TimeZone := TimeZone Time; Daylight := Daylight Time; Pad2 := Pad2 Time |} ∧
  EfiTimeToWday (EpochToEfiTime EpochSeconds Time) = Some ((EpochSeconds / 86400 + 4) mod 7).
Proof.
  intros Hs d. pose proof (epoch_bounds _ Hs). split.
  - rewrite epoch_fields, civil_date_after by (done || lia). done.
  - unfold EfiTimeToWday. rewrite epoch_to_days by done. cbn [mbind option_bind].
    by rewrite cast_u64 by lia.
Qed.

(** ** Calendar arithmetic: round trips and validity

    Dates and epoch seconds determine each other; IsTimeValid accepts the fields
    that a calendar has, for the years it admits. *)

Definition seconds_of (t : EFI_TIME) : Z :=
  days_of (time_date t) * 86400 + Hour t * 3600 + Minute t * 60 + Second t.

Lemma to_epoch_run t : calendar_time t → 0 ≤ days_of (time_date t) →
  EfiTimeToEpoch t = Some (seconds_of t mod 2 ^ 32).
Proof.
  intros (Hv & HY & HH & HMi & HS) Hd. unfold EfiTimeToEpoch. rewrite epoch_days_run, decide_True by done.
  cbn [mbind option_bind]. pose proof (days_of_bounds _ Hv HY). unfold seconds_of, SEC_PER_DAY, SEC_PER_HOUR, SEC_PER_MIN.
  f_equal. assert (cast UINT32 (days_of (time_date t)) = days_of (time_date t)) as ->.
  { apply Z.mod_small. cbn [width UINT32]. lia. }
  done.
Qed.

Lemma seconds_parts n h m s : 0 ≤ h ≤ 23 → 0 ≤ m ≤ 59 → 0 ≤ s ≤ 59 →
  let e := n * 86400 + h * 3600 + m * 60 + s in
  e / 86400 = n ∧ e / 3600 mod 24 = h ∧ e / 60 mod 60 = m ∧ e mod 60 = s.
Proof. intros Hh Hm Hs e. subst e. Z.div_mod_to_equations. lia. Qed.

Lemma seconds_split e : e = e / 86400 * 86400 + e / 3600 mod 24 * 3600 + e / 60 mod 60 * 60 + e mod 60.
Proof. Z.div_mod_to_equations. lia. Qed.

Lemma epoch_limit_days t : calendar_time t → 0 ≤ days_of (time_date t) → 0 ≤ seconds_of t < epoch_limit.
Proof.
  intros (Hv & HY & HH & HMi & HS) Hd. pose proof (days_of_bounds _ Hv HY).
  unfold seconds_of, epoch_limit. lia.
Qed.

Lemma epoch_of_seconds t Time : calendar_time t → 0 ≤ days_of (time_date t) →
  EpochToEfiTime (seconds_of t) Time =
    {| Year := Year t; Month := Month t; Day := Day t; Hour := Hour t; Minute := Minute t;
       Second := Second t; Pad1 := Pad1 Time; Nanosecond := 0;
       TimeZone := TimeZone Time; Daylight := Daylight Time; Pad2 := Pad2 Time |}.
Proof.
  intros Hc Hd. rewrite epoch_fields by (by apply epoch_limit_days).
  destruct Hc as (Hv & HY & HH & HMi & HS).
  destruct (seconds_parts (days_of (time_date t)) (Hour t) (Minute t) (Second t) HH HMi HS) as (E1 & E2 & E3 & E4).
  unfold seconds_of. by rewrite E1, E2, E3, E4, civil_days_of.
Qed.

Lemma epoch_time_calendar s Time : 0 ≤ s < epoch_limit →
  calendar_time (EpochToEfiTime s Time) ∧ time_date (EpochToEfiTime s Time) = civil (s / 86400).
Proof.
  intros Hs. pose proof (civil_year_bounds _ (epoch_bounds s Hs)).
  pose proof (Z.mod_pos_bound (s / 3600) 24 ltac:(lia)). pose proof (Z.mod_pos_bound (s / 60) 60 ltac:(lia)).
  pose proof (Z.mod_pos_bound s 60 ltac:(lia)). pose proof (civil_valid (s / 86400)).
  rewrite epoch_fields by done. unfold calendar_time, time_date. cbn [Year Month Day Hour Minute Second].
  destruct (civil (s / 86400)) as [Y M D]. cbn [d_year d_month d_day] in *. split; [|done].
  split; [done|]. lia.
Qed.

(** EfiTimeToEpoch undoes EpochToEfiTime, modulo the 32 bits of its result, and
    EpochToEfiTime restores the date and time of day of any point of the calendar
    from 1970 on from its number of seconds; for an earlier date an ASSERT fails. *)
Theorem epoch_roundtrip t Time :
  (∀ s, 0 ≤ s < epoch_limit → EfiTimeToEpoch (EpochToEfiTime s Time) = Some (s mod 2 ^ 32)) ∧
  (calendar_time t → Year t < 1970 → EfiTimeToEpoch t = None) ∧
  (calendar_time t → 1970 ≤ Year t → ∃ s, 0 ≤ s < epoch_limit ∧
     EfiTimeToEpoch t = Some (s mod 2 ^ 32) ∧
     EpochToEfiTime s Time =
       {| Year := Year t; Month := Month t; Day := Day t; Hour := Hour t; Minute := Minute t;
          Second := Second t; Pad1 := Pad1 Time; Nanosecond := 0;
          TimeZone := TimeZone Time; Daylight := Daylight Time; Pad2 := Pad2 Time |}).
Proof.
  split_and!.
  - intros s Hs. destruct (epoch_time_calendar s Time Hs) as [Hc Hd]. pose proof (epoch_bounds s Hs).
    rewrite to_epoch_run; [|done|rewrite Hd, days_of_civil; lia].
    unfold seconds_of. rewrite Hd, days_of_civil, epoch_fields by done. cbn [Hour Minute Second].
    by rewrite <-seconds_split.
  - intros (Hv & HY & _) Hlt. unfold EfiTimeToEpoch. rewrite epoch_days_run, decide_False; [done| |done..].
    intros Hd. pose proof (days_of_bounds _ Hv HY).
    pose proof (civil_year_bounds (days_of (time_date t)) ltac:(lia)) as Hyear.
    rewrite civil_days_of in Hyear by done. cbn [d_year time_date] in Hyear. lia.
  - intros Hc Hge. assert (0 ≤ days_of (time_date t)) as Hd.
    { destruct Hc as ([HM HD] & HY & _). unfold days_of, julian, march_days, EPOCH_JULIAN_DATE.
      cbn [time_date d_year d_month d_day] in *.
      assert (∃ q, (14 - Month t) / 12 = q ∧ 0 ≤ q ≤ 1 ∧ (q = 1 → 1 ≤ Month t) ∧ (q = 0 → 3 ≤ Month t))
        as (q & -> & ? & ? & ?) by (eexists; split; [reflexivity|]; Z.div_mod_to_equations; lia).
      Z.div_mod_to_equations. lia. }
    exists (seconds_of t). split_and!; try (by apply epoch_limit_days); [by apply to_epoch_run|].
    by apply epoch_of_seconds.
Qed.

(** ** Validity *)

(** Every field holds a value of its C type. *)
Definition typed_time (t : EFI_TIME) : Prop :=
  in_range UINT16 (Year t) ∧ in_range UINT8 (Month t) ∧ in_range UINT8 (Day t) ∧
  in_range UINT8 (Hour t) ∧ in_range UINT8 (Minute t) ∧ in_range UINT8 (Second t) ∧
  in_range UINT32 (Nanosecond t) ∧ in_range INT16 (TimeZone t) ∧ in_range UINT8 (Daylight t).

(** What the description of EFI_TIME asks of the fields next to the date. *)
Definition zone_ok (t : EFI_TIME) : Prop :=
  (TimeZone t = 2047 ∨ -1440 ≤ TimeZone t ≤ 1440) ∧ Daylight t < 4.

#[export] Instance calendar_time_dec t : Decision (calendar_time t).
Proof. unfold calendar_time. apply _. Defined.
#[export] Instance zone_ok_dec t : Decision (zone_ok t).
Proof. unfold zone_ok. apply _. Defined.

Lemma IsLeapYear_leap t : IsLeapYear t = leap (Year t).
Proof. unfold IsLeapYear, leap. by destruct (Year t mod 4 =? 0), (Year t mod 100 =? 0), (Year t mod 400 =? 0). Qed.

(** The table has the lengths of the months of a leap year. *)
Lemma day_table M : 1 ≤ M ≤ 12 → DayOfMonth !! Z.to_nat (M - 1) = Some (month_length 2000 M).
Proof.
  intros HM.
  assert (M = 1 ∨ M = 2 ∨ M = 3 ∨ M = 4 ∨ M = 5 ∨ M = 6 ∨ M = 7 ∨ M = 8 ∨ M = 9 ∨ M = 10 ∨ M = 11 ∨ M = 12)
    as Hcase by lia.
  repeat destruct Hcase as [->|Hcase]; try subst M; done.
Qed.

Lemma common_february Y M :
  month_length Y M = if (M =? 2) && negb (leap Y) then 28 else month_length 2000 M.
Proof. unfold month_length. destruct (M =? 2); [by destruct (leap Y)|done]. Qed.

Lemma day_valid_exact t : 1 ≤ Month t ≤ 12 →
  IsDayValid t = Some (bool_decide (1 ≤ Day t ≤ month_length (Year t) (Month t))).
Proof.
  intros HM. unfold IsDayValid. destruct (Z.ltb_spec (Day t) 1); [by rewrite bool_decide_eq_false_2 by lia|].
  rewrite IsLeapYear_leap, (proj2 (Z.leb_le 0 (Month t - 1))), day_table by lia. cbn [mbind option_bind].
  rewrite (common_february (Year t)), !Z.gtb_ltb. pose proof (month_length_bounds 2000 (Month t)). f_equal.
  destruct (Z.eqb_spec (Month t) 2) as [->|], (leap (Year t)); cbn [andb negb]; rewrite ?orb_false_r.
  2: change (month_length 2000 2) with 29.
  all: repeat match goal with |- context [?x <? ?y] => destruct (Z.ltb_spec x y) end;
    case_bool_decide; done || lia.
Qed.

Lemma daylight_bits x : 0 ≤ x < 256 →
  (Z.land x (Z.lnot (Z.lor EFI_TIME_ADJUST_DAYLIGHT EFI_TIME_IN_DAYLIGHT)) =? 0) = (x <? 4).
Proof.
  intros Hx. assert (forallb (λ x, Bool.eqb
    (Z.land x (Z.lnot (Z.lor EFI_TIME_ADJUST_DAYLIGHT EFI_TIME_IN_DAYLIGHT)) =? 0) (x <? 4))
    (seqZ 0 256) = true) as Hall by by vm_compute.
  rewrite forallb_forall in Hall. apply eqb_prop, Hall, list_elem_of_In, elem_of_seqZ. lia.
Qed.

Lemma is_time_valid_run t : typed_time t →
  IsTimeValid t = Some (bool_decide (calendar_time t ∧ 2000 ≤ Year t ≤ 2099 ∧
                                     Nanosecond t ≤ 999999999 ∧ zone_ok t)).
Proof.
  intros (HY & HM & HD & HH & HMi & HS & HN & HZ & HL). unfold IsTimeValid, zone_ok, calendar_time, valid_date.
  cbn [time_date d_year d_month d_day]. cint_unfold. rewrite !Z.gtb_ltb, !Z.geb_leb.
  destruct (_ || _) eqn:Hout; [bool_hyps; by rewrite bool_decide_eq_false_2 by lia|].
  bool_hyps. rewrite day_valid_exact by lia. cbn [mbind option_bind]. f_equal.
  rewrite daylight_bits by lia. unfold EFI_UNSPECIFIED_TIMEZONE.
  destruct (bool_decide (1 ≤ Day t ≤ month_length (Year t) (Month t))) eqn:Hday; symmetry;
    [apply bool_decide_eq_true in Hday|apply bool_decide_eq_false in Hday]; cbn [negb orb].
  2: { apply bool_decide_eq_false_2. tauto. }
  match goal with |- _ = ?b => destruct b eqn:Hb end.
  - apply bool_decide_eq_true_2. bool_hyps; lia.
  - apply bool_decide_eq_false_2. bool_hyps; lia.
Qed.

Lemma same_zone_valid u t : typed_time t → zone_ok t → calendar_time u → 2000 ≤ Year u < 2100 →
  Nanosecond u = 0 → TimeZone u = TimeZone t → Daylight u = Daylight t → IsTimeValid u = Some true.
Proof.
  intros Ht Hz Hc HY HN HZ HL. rewrite is_time_valid_run.
  - rewrite bool_decide_eq_true_2; [done|]. unfold zone_ok in *. rewrite HN, HZ, HL.
    split; [done|]. split; [lia|]. split; [lia|done].
  - destruct Hc as ([HM HD] & _ & HH & HMi & HS). destruct Ht as (_ & _ & _ & _ & _ & _ & _ & HZt & HLt).
    cbn [time_date d_year d_month d_day] in HM, HD. pose proof (month_length_bounds (Year u) (Month u)).
    unfold typed_time. rewrite HN, HZ, HL. do 7 (split; [cint_unfold; lia|]). done.
Qed.

(** C27: IsTimeValid accepts exactly the points of time of the years 2000 to 2099
    that the calendar has, with a time zone and daylight bits as EFI_TIME describes
    them, and never indexes its table of days out of bounds; what EpochToEfiTime
    produces within those years is valid. *)
Theorem time_valid_exact t :
  typed_time t →
  IsTimeValid t = Some (bool_decide (calendar_time t ∧ 2000 ≤ Year t ≤ 2099 ∧
                                     Nanosecond t ≤ 999999999 ∧ zone_ok t)) ∧
  (zone_ok t → ∀ s, 946684800 ≤ s < 4102444800 → IsTimeValid (EpochToEfiTime s t) = Some true).
Proof.
  intros Ht. split; [by apply is_time_valid_run|]. intros Hz s Hs.
  assert (0 ≤ s < epoch_limit) as Hs' by (unfold epoch_limit; lia).
  destruct (epoch_time_calendar s t Hs') as [Hc Hd]. pose proof (epoch_fields s t Hs') as Hf.
  apply (same_zone_valid _ t Ht Hz Hc); [|by rewrite Hf..].
  rewrite <-year_of_date, Hd. apply year_between.
  change (new_year 2000) with 10957. change (new_year 2100) with 47482. Z.div_mod_to_equations. lia.
Qed.

(** ** Witnesses *)

Definition any_time : EFI_TIME :=
  {| Year := 0; Month := 0; Day := 0; Hour := 0; Minute := 0; Second := 0; Pad1 := 0;
     Nanosecond := 7; TimeZone := 60; Daylight := 1; Pad2 := 0 |}.
Definition leap_day : EFI_TIME :=
  {| Year := 2024; Month := 2; Day := 29; Hour := 23; Minute := 59; Second := 58; Pad1 := 0;
     Nanosecond := 0; TimeZone := 60; Daylight := 1; Pad2 := 0 |}.

(** 86400 days times 100 after the epoch: day by day it is the code's date. *)
Lemma epoch_calendar_witness :
  EfiTimeToWday (EpochToEfiTime 8640000 any_time) = Some ((100 + 4) mod 7) ∧
  time_date (EpochToEfiTime 8640000 any_time) = Date 1970 4 11.
Proof.
  destruct (epoch_calendar 8640000 any_time ltac:(unfold epoch_limit; lia)) as [Hrun Hday]. split.
  - exact Hday.
  - rewrite Hrun. by vm_compute.
Defined.

Lemma epoch_roundtrip_witness : ∃ s, EfiTimeToEpoch leap_day = Some (s mod 2 ^ 32) ∧
  Day (EpochToEfiTime s any_time) = 29.
Proof.
  destruct (proj2 (proj2 (epoch_roundtrip leap_day any_time))) as (s & _ & Hrun & Hback).
  - apply (bool_decide_unpack _). by vm_compute.
  - apply (bool_decide_unpack _). by vm_compute.
  - exists s. split; [exact Hrun|]. by rewrite Hback.
Defined.

Lemma time_valid_exact_witness : IsTimeValid leap_day = Some true ∧
  IsTimeValid (EpochToEfiTime 1709251198 leap_day) = Some true.
Proof.
  assert (typed_time leap_day) as Ht by (unfold typed_time; repeat split; by vm_compute).
  split.
  - rewrite (proj1 (time_valid_exact leap_day Ht)). by vm_compute.
  - apply (proj2 (time_valid_exact leap_day Ht)); [apply (bool_decide_unpack _); by vm_compute|lia].
Defined.
