(* ===== verification/ByteMem.v ===== *)
(** * Byte memory

    Reading and writing single bytes of the memory of [CheckSum], for the string
    functions of BaseLib: a program fails at an address that is not mapped.  [put]
    is the memory after a run of bytes has been stored. *)
From S2P Require Import Prelude CBase CheckSum CheckSumSpec.
Local Open Scope Z_scope.

Definition read8 (p : Z) : M byte_mem Z :=
  λ m, match m !! p with Some b => Some (b, m) | None => None end.
Definition write8 (p b : Z) : M byte_mem unit :=
  λ m, match m !! p with Some _ => Some (tt, <[p:=b]> m) | None => None end.

(** A value that must exist, such as an element of a table. *)
Definition required {A} (o : option A) : M byte_mem A :=
  match o with Some x => mret x | None => fails end.

(** The little-endian integer of bytes, as in a variable that is filled byte by byte. *)
Definition le_value (l : list Z) : Z := foldr (λ b r, b + 256 * r) 0 l.

(** [n] bytes from [p] on are mapped. *)
Definition mapped (m : byte_mem) (p n : Z) : Prop := ∀ i, p ≤ i < p + n → is_Some (m !! i).

Fixpoint put (m : byte_mem) (p : Z) (l : list Z) : byte_mem :=
  match l with [] => m | b :: l => put (<[p:=b]> m) (p + 1) l end.

Definition bytes (l : list Z) : Prop := Forall byte l.

Lemma wp_read8 p b (Q : Z → byte_mem → Prop) m : m !! p = Some b → Q b m → wp (read8 p) Q m.
Proof. intros Hp HQ. unfold wp, read8. by rewrite Hp. Qed.

Lemma wp_write8 p b (Q : unit → byte_mem → Prop) m :
  is_Some (m !! p) → Q tt (<[p:=b]> m) → wp (write8 p b) Q m.
Proof. intros [x Hp] HQ. unfold wp, write8. by rewrite Hp. Qed.

Lemma wp_required {A} (x : A) o (Q : A → byte_mem → Prop) m : o = Some x → Q x m → wp (required o) Q m.
Proof. by intros ->. Qed.

Lemma put_app m p l k : put m p (l ++ k) = put (put m p l) (p + Z.of_nat (length l)) k.
Proof.
  revert m p. induction l as [|b l IH]; intros m p; cbn [put app length]; [by rewrite Z.add_0_r|].
  rewrite IH. f_equal. lia.
Qed.

Lemma put_snoc m p l b : put m p (l ++ [b]) = <[p + Z.of_nat (length l):=b]> (put m p l).
Proof. by rewrite put_app. Qed.

Lemma lookup_put_ne m p l i : ¬ (p ≤ i < p + Z.of_nat (length l)) → put m p l !! i = m !! i.
Proof.
  revert m p. induction l as [|b l IH]; intros m p Hi; [done|]. cbn [put length] in *.
  rewrite IH by lia. rewrite lookup_insert_ne by lia. done.
Qed.

Lemma lookup_put m p l k : (k < length l)%nat → put m p l !! (p + Z.of_nat k) = l !! k.
Proof.
  revert m p k. induction l as [|b l IH]; intros m p k Hk; cbn [put length] in *; [lia|].
  destruct k as [|k].
  - rewrite lookup_put_ne by lia. replace (p + Z.of_nat 0) with p by lia. by rewrite lookup_insert_eq.
  - replace (p + Z.of_nat (S k)) with (p + 1 + Z.of_nat k) by lia. apply IH. lia.
Qed.

Lemma mapped_put m p l q n : mapped m q n → mapped (put m p l) q n.
Proof.
  intros Hm i Hi. destruct (decide (p ≤ i < p + Z.of_nat (length l))) as [Hp|Hp].
  - replace i with (p + Z.of_nat (Z.to_nat (i - p))) by lia. rewrite lookup_put by lia.
    apply lookup_lt_is_Some_2. lia.
  - rewrite lookup_put_ne by done. by apply Hm.
Qed.

Lemma put_mapped m p l : mapped (put m p l) p (Z.of_nat (length l)).
Proof.
  intros i Hi. replace i with (p + Z.of_nat (Z.to_nat (i - p))) by lia. rewrite lookup_put by lia.
  apply lookup_lt_is_Some_2. lia.
Qed.

Lemma mapped_sub m D n D' n' : mapped m D n → D ≤ D' → D' + n' ≤ D + n → mapped m D' n'.
Proof. intros Hm H1 H2 i Hi. apply Hm. lia. Qed.

Lemma buffer_put m p l : bytes l → buffer (put m p l) p l.
Proof.
  intros Hl i b Hi. rewrite lookup_put by (by eapply lookup_lt_Some). split; [done|].
  by eapply Forall_lookup_1.
Qed.

(** Storing elsewhere leaves a buffer alone. *)
Definition apart (p n q k : Z) : Prop := p + n ≤ q ∨ q + k ≤ p.

Lemma buffer_put_apart m p l q k :
  buffer m q k → apart p (Z.of_nat (length l)) q (Z.of_nat (length k)) → buffer (put m p l) q k.
Proof.
  intros Hk Ha i b Hi. destruct (Hk i b Hi). split; [|done]. apply lookup_lt_Some in Hi.
  rewrite lookup_put_ne; [done|]. unfold apart in Ha. lia.
Qed.

Lemma buffer_at m p l k b : buffer m p l → l !! k = Some b → m !! (p + Z.of_nat k) = Some b.
Proof. intros Hl Hk. by apply Hl. Qed.

Lemma buffer_mapped m p l : buffer m p l → mapped m p (Z.of_nat (length l)).
Proof.
  intros Hl i Hi. destruct (lookup_lt_is_Some_2 l (Z.to_nat (i - p)) ltac:(lia)) as [b Hb].
  exists b. replace i with (p + Z.of_nat (Z.to_nat (i - p))) by lia. by apply (buffer_at _ _ l).
Qed.
