(* ===== verification/Base64.v ===== *)
(** * Base64 (Base64Encode and Base64Decode of MdePkg/Library/BaseLib/String.c)

    Pointers are addresses of a byte memory and 0 is NULL; [DestinationSize] is
    [None] for a NULL pointer and otherwise the value it points to, which is
    returned updated.  Loops get one unit of fuel more than they take steps. *)
From S2P Require Import Prelude CBase CheckSum ByteMem.
Local Open Scope Z_scope.

(** The letters of the alphabet in order. *)
Definition EncodingTable : list Z := seqZ 65 26 ++ seqZ 97 26 ++ seqZ 48 10 ++ [43; 47; 0].

Definition EncodingChar (k : Z) : M byte_mem Z := required (EncodingTable !! Z.to_nat k).

(** ** Base64Encode *)

(** Three bytes at a time; the remaining length and the advanced pointers. *)
Fixpoint encode_loop (fuel : nat) (Source Left Destination : Z) : M byte_mem (Z * Z * Z) :=
  match fuel with
  | O => fails
  | S fuel =>
    if Left >=? 3 then
      s0 ← read8 Source;
      c ← EncodingChar (Z.shiftr (Z.land s0 0xfc) 2); write8 Destination c;;
      s0 ← read8 Source; s1 ← read8 (Source + 1);
      c ← EncodingChar (Z.shiftl (Z.land s0 0x03) 4 + Z.shiftr (Z.land s1 0xf0) 4);
      write8 (Destination + 1) c;;
      s1 ← read8 (Source + 1); s2 ← read8 (Source + 2);
      c ← EncodingChar (Z.shiftl (Z.land s1 0x0f) 2 + Z.shiftr (Z.land s2 0xc0) 6);
      write8 (Destination + 2) c;;
      s2 ← read8 (Source + 2);
      c ← EncodingChar (Z.land s2 0x3f); write8 (Destination + 3) c;;
      encode_loop fuel (Source + 3) (Left - 3) (Destination + 4)
    else mret (Source, Left, Destination)
  end.

(** The switch on the bytes that are left; the advanced destination. *)
Definition encode_rest (Source Left Destination : Z) : M byte_mem Z :=
  if Left =? 1 then
    s0 ← read8 Source;
    c ← EncodingChar (Z.shiftr (Z.land s0 0xfc) 2); write8 Destination c;;
    s0 ← read8 Source;
    c ← EncodingChar (Z.shiftl (Z.land s0 0x03) 4); write8 (Destination + 1) c;;
    write8 (Destination + 2) 61;; write8 (Destination + 3) 61;;
    mret (Destination + 4)
  else if Left =? 2 then
    s0 ← read8 Source;
    c ← EncodingChar (Z.shiftr (Z.land s0 0xfc) 2); write8 Destination c;;
    s0 ← read8 Source; s1 ← read8 (Source + 1);
    c ← EncodingChar (Z.shiftl (Z.land s0 0x03) 4 + Z.shiftr (Z.land s1 0xf0) 4);
    write8 (Destination + 1) c;;
    s1 ← read8 (Source + 1);
    c ← EncodingChar (Z.shiftl (Z.land s1 0x0f) 2); write8 (Destination + 2) c;;
    write8 (Destination + 3) 61;;
    mret (Destination + 4)
  else mret Destination.

Definition Base64Encode (Source SourceLength Destination : Z) (DestinationSize : option Z)
    : M byte_mem (Z * option Z) :=
  match DestinationSize with
  | None => mret (RETURN_INVALID_PARAMETER, None)
  | Some size =>
    if Source =? 0 then mret (RETURN_INVALID_PARAMETER, Some size) else
    if SourceLength =? 0 then
      if size <? 1 then mret (RETURN_BUFFER_TOO_SMALL, Some 1)
      else write8 Destination 0;; mret (RETURN_SUCCESS, Some 1)
    else if (SourceLength >=? MAX_ADDRESS - Source) || (size >=? MAX_ADDRESS - Destination)
    then mret (RETURN_INVALID_PARAMETER, Some size) else
    let RequiredSize := cast UINTN (cast UINTN (SourceLength + 2) / 3 * 4 + 1) in
    if (Destination =? 0) || (size <? RequiredSize)
    then mret (RETURN_BUFFER_TOO_SMALL, Some RequiredSize) else
    '(Source, Left, Destination) ←
      encode_loop (S (Z.to_nat SourceLength)) Source SourceLength Destination;
    Destination ← encode_rest Source Left Destination;
    write8 Destination 0;;
    mret (RETURN_SUCCESS, Some size)
  end.

(** ** Base64Decode *)

Definition whitespace (c : Z) : bool :=
  (c =? 9) || (c =? 10) || (c =? 11) || (c =? 12) || (c =? 13) || (c =? 32).

(** The value of a character of the alphabet. *)
Definition Base64Value (SourceChar : Z) : option Z :=
  if (65 <=? SourceChar) && (SourceChar <=? 90) then Some (SourceChar - 65)
  else if (97 <=? SourceChar) && (SourceChar <=? 122) then Some (26 + (SourceChar - 97))
  else if (48 <=? SourceChar) && (SourceChar <=? 57) then Some (52 + (SourceChar - 48))
  else if SourceChar =? 43 then Some 62
  else if SourceChar =? 47 then Some 63
  else None.

(** The local variables of the loop. *)
Record decode_state := DecodeState {
  PaddingMode : bool; SixBitGroupsConsumed : Z; Accumulator : Z; StoredSize : Z
}.

(** Store a decoded octet if there is room left. *)
Definition spill (Destination Orig : Z) (st : decode_state) (octet acc groups : Z)
    : M byte_mem (option decode_state) :=
  (if StoredSize st <? Orig then
     ASSERT (negb (Destination =? 0));; write8 (Destination + StoredSize st) octet
   else mret tt);;
  mret (Some (DecodeState (PaddingMode st) groups acc (cast UINTN (StoredSize st + 1)))).

(** One character; [None] is the return of RETURN_INVALID_PARAMETER. *)
Definition decode_char (Destination Orig SourceChar : Z) (st : decode_state)
    : M byte_mem (option decode_state) :=
  if whitespace SourceChar then mret (Some st) else
  if PaddingMode st then
    if (SourceChar =? 61) && (SixBitGroupsConsumed st =? 3)
    then mret (Some (DecodeState true 0 (Accumulator st) (StoredSize st))) else mret None
  else match Base64Value SourceChar with
  | Some v =>
    let acc := Z.lor (cast UINT32 (Z.shiftl (Accumulator st) 6)) v in
    let groups := SixBitGroupsConsumed st + 1 in
    if groups =? 1 then mret (Some (DecodeState false 1 acc (StoredSize st))) else
    if groups =? 2
    then spill Destination Orig st (cast UINT8 (Z.shiftr acc 4)) (Z.land acc 0xF) 2 else
    if groups =? 3
    then spill Destination Orig st (cast UINT8 (Z.shiftr acc 2)) (Z.land acc 0x3) 3 else
    ASSERT (groups =? 4);; spill Destination Orig st (cast UINT8 acc) 0 0
  | None =>
    if negb (SourceChar =? 61) then mret None else
    if SixBitGroupsConsumed st =? 2 then
      if negb (Accumulator st =? 0) then mret None
      else mret (Some (DecodeState true 3 (Accumulator st) (StoredSize st)))
    else if SixBitGroupsConsumed st =? 3 then
      if negb (Accumulator st =? 0) then mret None
      else mret (Some (DecodeState true 0 (Accumulator st) (StoredSize st)))
    else mret None
  end.

(** The state is also returned when the source is rejected: the size that
    DestinationSize points to has been changed by then. *)
Fixpoint base64_loop (fuel : nat) (Source SourceSize Destination Orig SourceIndex : Z)
    (st : decode_state) : M byte_mem (bool * decode_state) :=
  match fuel with
  | O => fails
  | S fuel =>
    if SourceIndex <? SourceSize then
      c ← read8 (Source + SourceIndex);
      r ← decode_char Destination Orig c st;
      match r with
      | None => mret (false, st)
      | Some st => base64_loop fuel Source SourceSize Destination Orig (cast UINTN (SourceIndex + 1)) st
      end
    else mret (true, st)
  end.

(** The arrays must not wrap around and must not overlap. *)
Definition decode_arguments_ok (Source SourceSize Destination size : Z) : bool :=
  (if Source =? 0 then negb (SourceSize >? 0) else negb (SourceSize >? MAX_ADDRESS - Source)) &&
  (if Destination =? 0 then negb (size >? 0) else negb (size >? MAX_ADDRESS - Destination)) &&
  (if negb (Source =? 0) && negb (Destination =? 0)
   then (cast UINTN (Source + SourceSize) <=? Destination) ||
        (cast UINTN (Destination + size) <=? Source)
   else true).

Definition Base64Decode (Source SourceSize Destination : Z) (DestinationSize : option Z)
    : M byte_mem (Z * option Z) :=
  match DestinationSize with
  | None => mret (RETURN_INVALID_PARAMETER, None)
  | Some Orig =>
    if negb (decode_arguments_ok Source SourceSize Destination Orig)
    then mret (RETURN_INVALID_PARAMETER, Some Orig) else
    '(ok, st) ← base64_loop (S (Z.to_nat SourceSize)) Source SourceSize Destination Orig 0
      (DecodeState false 0 0 0);
    if negb ok then mret (RETURN_INVALID_PARAMETER, Some (StoredSize st)) else
    if negb (SixBitGroupsConsumed st =? 0)
    then mret (RETURN_INVALID_PARAMETER, Some (StoredSize st)) else
    if StoredSize st <=? Orig then mret (RETURN_SUCCESS, Some (StoredSize st))
    else mret (RETURN_BUFFER_TOO_SMALL, Some (StoredSize st))
  end.
