(* ===== verification/Base64Spec.v ===== *)
(** * Base64: the encoding and the decoder's automaton

    [b64] is the encoding of RFC 4648 on lists of bytes.  The decoder is a state
    machine over the characters ([auto]); it accepts, after whitespace has been
    dropped, exactly the encodings, and the bytes it spills are the encoded ones. *)
From S2P Require Import Prelude CBase CheckSum CheckSumSpec ByteMem Base64.
Local Open Scope Z_scope.

(** ** The encoding *)

Definition letter (v : Z) : Z := nth (Z.to_nat v) EncodingTable 0.

Fixpoint b64 (l : list Z) : list Z :=
  match l with
  | x :: y :: z :: l =>
    letter (x / 4) :: letter (x mod 4 * 16 + y / 16) :: letter (y mod 16 * 4 + z / 64)
      :: letter (z mod 64) :: b64 l
  | [x; y] => [letter (x / 4); letter (x mod 4 * 16 + y / 16); letter (y mod 16 * 4); 61]
  | [x] => [letter (x / 4); letter (x mod 4 * 16); 61; 61]
  | [] => []
  end.

(** Induction on lists three elements at a time. *)
Lemma three_ind {A} (P : list A → Prop) :
  P [] → (∀ x, P [x]) → (∀ x y, P [x; y]) → (∀ x y z l, P l → P (x :: y :: z :: l)) → ∀ l, P l.
Proof.
  intros H0 H1 H2 H3 l.
  assert (∀ n l, (length l ≤ n)%nat → P l) as Hn.
  { induction n as [|n IHn]; intros k Hk.
    - destruct k; [done|cbn in Hk; lia].
    - destruct k as [|x [|y [|z k]]]; try done. apply H3, IHn. cbn in Hk. lia. }
  by apply (Hn (length l)).
Qed.

(** ** Values and letters *)

Definition sextet (v : Z) : Prop := 0 ≤ v < 64.

Definition letter_ok (v : Z) : bool :=
  bool_decide (Base64Value (letter v) = Some v) && negb (whitespace (letter v)) &&
  bool_decide (EncodingTable !! Z.to_nat v = Some (letter v)) && bool_decide (byte (letter v)).

Lemma letter_facts v : sextet v →
  Base64Value (letter v) = Some v ∧ whitespace (letter v) = false ∧
  EncodingTable !! Z.to_nat v = Some (letter v) ∧ byte (letter v).
Proof.
  intros Hv. assert (forallb letter_ok (seqZ 0 64) = true) as Hall by by vm_compute.
  rewrite forallb_forall in Hall. unfold sextet in Hv.
  specialize (Hall v ltac:(apply list_elem_of_In, elem_of_seqZ; lia)). unfold letter_ok in Hall.
  repeat apply andb_true_iff in Hall as [Hall ?].
  repeat match goal with H : bool_decide _ = true |- _ => apply bool_decide_eq_true in H end.
  by rewrite negb_true_iff in *.
Qed.

Lemma value_facts c v : Base64Value c = Some v → sextet v ∧ c = letter v ∧ c ≠ 61 ∧ whitespace c = false.
Proof.
  intros Hv. assert (48 ≤ c < 123 ∨ c = 43 ∨ c = 47) as Hc.
  { unfold Base64Value in Hv. repeat case_match; simplify_eq; bool_hyps; lia. }
  assert (0 ≤ c < 128) as Hr by lia. clear Hc.
  assert (forallb (λ c, match Base64Value c with
    | Some v => bool_decide (0 ≤ v < 64) && (c =? letter v) && negb (c =? 61) && negb (whitespace c)
    | None => true end) (seqZ 0 128) = true) as Hall by by vm_compute.
  rewrite forallb_forall in Hall. specialize (Hall c ltac:(apply list_elem_of_In, elem_of_seqZ; lia)).
  cbv beta in Hall. rewrite Hv in Hall. repeat apply andb_true_iff in Hall as [Hall ?].
  apply bool_decide_eq_true in Hall. bool_hyps. done.
Qed.

(** The octets that the decoder assembles, and the pieces of the encoder. *)
Definition octets_ok (v w : Z) : bool :=
  let acc2 := Z.lor (cast UINT32 (Z.shiftl v 6)) w in
  (cast UINT8 (Z.shiftr acc2 4) =? v * 4 + w / 16) && (Z.land acc2 0xF =? w mod 16) &&
  (let acc3 := Z.lor (cast UINT32 (Z.shiftl (v mod 16) 6)) w in
   (cast UINT8 (Z.shiftr acc3 2) =? v mod 16 * 16 + w / 4) && (Z.land acc3 0x3 =? w mod 4)) &&
  (let acc4 := Z.lor (cast UINT32 (Z.shiftl (v mod 4) 6)) w in cast UINT8 acc4 =? v mod 4 * 64 + w).

Lemma octets_facts v w : sextet v → sextet w →
  (let acc2 := Z.lor (cast UINT32 (Z.shiftl v 6)) w in
   cast UINT8 (Z.shiftr acc2 4) = v * 4 + w / 16 ∧ Z.land acc2 0xF = w mod 16) ∧
  (let acc3 := Z.lor (cast UINT32 (Z.shiftl (v mod 16) 6)) w in
   cast UINT8 (Z.shiftr acc3 2) = v mod 16 * 16 + w / 4 ∧ Z.land acc3 0x3 = w mod 4) ∧
  cast UINT8 (Z.lor (cast UINT32 (Z.shiftl (v mod 4) 6)) w) = v mod 4 * 64 + w.
Proof.
  intros Hv Hw. assert (forallb (λ v, forallb (octets_ok v) (seqZ 0 64)) (seqZ 0 64) = true) as Hall by by vm_compute.
  unfold sextet in *. rewrite forallb_forall in Hall.
  specialize (Hall v ltac:(apply list_elem_of_In, elem_of_seqZ; lia)).
  rewrite forallb_forall in Hall. specialize (Hall w ltac:(apply list_elem_of_In, elem_of_seqZ; lia)).
  unfold octets_ok in Hall. bool_hyps. done.
Qed.

Definition pieces_ok (x : Z) : bool :=
  (Z.shiftr (Z.land x 0xfc) 2 =? x / 4) && (Z.shiftl (Z.land x 0x03) 4 =? x mod 4 * 16) &&
  (Z.shiftr (Z.land x 0xf0) 4 =? x / 16) && (Z.shiftl (Z.land x 0x0f) 2 =? x mod 16 * 4) &&
  (Z.shiftr (Z.land x 0xc0) 6 =? x / 64) && (Z.land x 0x3f =? x mod 64).

Lemma pieces_facts x : byte x →
  Z.shiftr (Z.land x 0xfc) 2 = x / 4 ∧ Z.shiftl (Z.land x 0x03) 4 = x mod 4 * 16 ∧
  Z.shiftr (Z.land x 0xf0) 4 = x / 16 ∧ Z.shiftl (Z.land x 0x0f) 2 = x mod 16 * 4 ∧
  Z.shiftr (Z.land x 0xc0) 6 = x / 64 ∧ Z.land x 0x3f = x mod 64.
Proof.
  intros Hx. assert (forallb pieces_ok (seqZ 0 256) = true) as Hall by by vm_compute.
  rewrite forallb_forall in Hall. unfold byte in Hx.
  specialize (Hall x ltac:(apply list_elem_of_In, elem_of_seqZ; lia)). unfold pieces_ok in Hall.
  bool_hyps. done.
Qed.

(** ** The automaton of the decoder *)

(** Padding mode, groups consumed and pending bits. *)
Record phase := Phase { ph_pad : bool; ph_groups : Z; ph_acc : Z }.

(** The next phase and the octet that is spilled; [None] rejects. *)
Definition auto (s : phase) (c : Z) : option (phase * list Z) :=
  if whitespace c then Some (s, []) else
  let '(Phase pad g acc) := s in
  if pad then if (c =? 61) && (g =? 3) then Some (Phase true 0 acc, []) else None
  else match Base64Value c with
  | Some v =>
    let acc := Z.lor (cast UINT32 (Z.shiftl acc 6)) v in
    if g =? 0 then Some (Phase false 1 acc, []) else
    if g =? 1 then Some (Phase false 2 (Z.land acc 0xF), [cast UINT8 (Z.shiftr acc 4)]) else
    if g =? 2 then Some (Phase false 3 (Z.land acc 0x3), [cast UINT8 (Z.shiftr acc 2)]) else
    Some (Phase false 0 0, [cast UINT8 acc])
  | None =>
    if negb (c =? 61) then None else
    if g =? 2 then if negb (acc =? 0) then None else Some (Phase true 3 acc, []) else
    if g =? 3 then if negb (acc =? 0) then None else Some (Phase true 0 acc, []) else None
  end.

(** The phase at the end, if the source is not rejected, and the octets spilled. *)
Fixpoint auto_run (s : phase) (cs : list Z) (out : list Z) : option phase * list Z :=
  match cs with
  | [] => (Some s, out)
  | c :: cs => match auto s c with
               | None => (None, out)
               | Some (s, o) => auto_run s cs (out ++ o)
               end
  end.

Definition black (cs : list Z) : list Z := filter (λ c, whitespace c = false) cs.

Lemma auto_run_black s cs out : auto_run s cs out = auto_run s (black cs) out.
Proof.
  revert s out. induction cs as [|c cs IH]; intros s out; [done|]. unfold black. rewrite filter_cons.
  destruct (whitespace c) eqn:Hc; case_decide; try done.
  - cbn [auto_run]. unfold auto at 1. rewrite Hc, app_nil_r. apply IH.
  - cbn [auto_run]. destruct (auto s c) as [[s' o]|]; [apply IH|done].
Qed.

Definition start : phase := Phase false 0 0.

Lemma auto_letter s v : sextet v → ph_pad s = false →
  auto s (letter v) =
    let acc := Z.lor (cast UINT32 (Z.shiftl (ph_acc s) 6)) v in
    if ph_groups s =? 0 then Some (Phase false 1 acc, []) else
    if ph_groups s =? 1 then Some (Phase false 2 (Z.land acc 0xF), [cast UINT8 (Z.shiftr acc 4)]) else
    if ph_groups s =? 2 then Some (Phase false 3 (Z.land acc 0x3), [cast UINT8 (Z.shiftr acc 2)]) else
    Some (Phase false 0 0, [cast UINT8 acc]).
Proof.
  intros Hv Hs. destruct (letter_facts v Hv) as (Hval & Hws & _ & _). destruct s as [pad g acc].
  cbn [ph_pad ph_groups ph_acc] in *. subst pad. unfold auto. by rewrite Hws, Hval.
Qed.

Lemma land_bits_0 v : sextet v → Z.lor (cast UINT32 (Z.shiftl 0 6)) v = v.
Proof. intros Hv. by rewrite Z.shiftl_0_l. Qed.

Lemma auto_first v : sextet v → auto start (letter v) = Some (Phase false 1 v, []).
Proof. intros Hv. rewrite auto_letter by done. cbn. by rewrite land_bits_0. Qed.

Lemma auto_second v w : sextet v → sextet w →
  auto (Phase false 1 v) (letter w) = Some (Phase false 2 (w mod 16), [v * 4 + w / 16]).
Proof.
  intros Hv Hw. rewrite auto_letter by done. destruct (octets_facts v w Hv Hw) as [[E1 E2] _].
  cbn [ph_groups ph_acc]. cbv zeta in *. by rewrite E1, E2.
Qed.

Lemma auto_third v w : sextet v → sextet w →
  auto (Phase false 2 (v mod 16)) (letter w) = Some (Phase false 3 (w mod 4), [v mod 16 * 16 + w / 4]).
Proof.
  intros Hv Hw. rewrite auto_letter by done. destruct (octets_facts v w Hv Hw) as (_ & [E1 E2] & _).
  cbn [ph_groups ph_acc]. cbv zeta in *. by rewrite E1, E2.
Qed.

Lemma auto_fourth v w : sextet v → sextet w →
  auto (Phase false 3 (v mod 4)) (letter w) = Some (start, [v mod 4 * 64 + w]).
Proof.
  intros Hv Hw. rewrite auto_letter by done. destruct (octets_facts v w Hv Hw) as (_ & _ & E).
  cbn [ph_groups ph_acc]. cbv zeta in *. by rewrite E.
Qed.

(** A quantum of four letters. *)
Lemma auto_quantum a b c d cs out : sextet a → sextet b → sextet c → sextet d →
  auto_run start (letter a :: letter b :: letter c :: letter d :: cs) out
    = auto_run start cs (out ++ [a * 4 + b / 16; b mod 16 * 16 + c / 4; c mod 4 * 64 + d]).
Proof.
  intros Ha Hb Hc Hd. cbn [auto_run]. rewrite auto_first by done. cbn [auto_run].
  rewrite auto_second by done. cbn [auto_run]. rewrite auto_third by done. cbn [auto_run].
  rewrite auto_fourth by done. by rewrite app_nil_r, <-!app_assoc.
Qed.

Lemma group_sextets x y z : byte x → byte y → byte z →
  sextet (x / 4) ∧ sextet (x mod 4 * 16 + y / 16) ∧ sextet (y mod 16 * 4 + z / 64) ∧ sextet (z mod 64).
Proof. unfold byte, sextet. intros. Z.div_mod_to_equations. lia. Qed.

Lemma group_octets x y z : byte x → byte y → byte z →
  x / 4 * 4 + (x mod 4 * 16 + y / 16) / 16 = x ∧
  (x mod 4 * 16 + y / 16) mod 16 * 16 + (y mod 16 * 4 + z / 64) / 4 = y ∧
  (y mod 16 * 4 + z / 64) mod 4 * 64 + z mod 64 = z.
Proof. unfold byte. intros. Z.div_mod_to_equations. lia. Qed.

(** The decoder accepts every encoding and returns what was encoded. *)
Lemma auto_accepts l out : bytes l →
  ∃ p, auto_run start (b64 l) out = (Some p, out ++ l) ∧ ph_groups p = 0.
Proof.
  revert out. pattern l. apply three_ind; clear l.
  - intros out _. exists start. by rewrite app_nil_r.
  - intros x out [Hx _]%Forall_cons. destruct (group_sextets x 0 0 Hx ltac:(done) ltac:(done)) as (S1 & S2 & _).
    destruct (group_octets x 0 0 Hx ltac:(done) ltac:(done)) as (O1 & _).
    change (0 / 16) with 0 in *. rewrite Z.add_0_r in *. cbn [b64 auto_run].
    rewrite auto_first by done. cbn [auto_run]. rewrite auto_second by done. cbn [auto_run].
    replace (x mod 4 * 16 mod 16) with 0 by (by rewrite Z.mod_mul). rewrite O1. cbn. rewrite app_nil_r.
    eexists. rewrite !app_nil_r. by split.
  - intros x y out [Hx [Hy _]%Forall_cons]%Forall_cons.
    destruct (group_sextets x y 0 Hx Hy ltac:(done)) as (S1 & S2 & S3 & _).
    destruct (group_octets x y 0 Hx Hy ltac:(done)) as (O1 & O2 & _).
    change (0 / 64) with 0 in *. rewrite Z.add_0_r in *. cbn [b64 auto_run].
    rewrite auto_first by done. cbn [auto_run]. rewrite auto_second by done. cbn [auto_run].
    rewrite auto_third by done. cbn [auto_run]. rewrite O1, O2.
    replace (y mod 16 * 4 mod 4) with 0 by (by rewrite Z.mod_mul). cbn.
    eexists. rewrite !app_nil_r, <-app_assoc. by split.
  - intros x y z l IH out [Hx [Hy [Hz Hl]%Forall_cons]%Forall_cons]%Forall_cons.
    destruct (group_sextets x y z Hx Hy Hz) as (S1 & S2 & S3 & S4).
    destruct (group_octets x y z Hx Hy Hz) as (O1 & O2 & O3). cbn [b64].
    rewrite auto_quantum, O1, O2, O3 by done. destruct (IH (out ++ [x; y; z]) Hl) as (p & Hrun & Hp).
    exists p. rewrite Hrun, <-app_assoc. done.
Qed.

(** Outside of the padding a character that is accepted is a letter, or begins the
    padding. *)
Lemma auto_inv g acc c s o : whitespace c = false → auto (Phase false g acc) c = Some (s, o) →
  (∃ v, sextet v ∧ c = letter v) ∨
  (c = 61 ∧ acc = 0 ∧ o = [] ∧ ((g = 2 ∧ s = Phase true 3 0) ∨ (g = 3 ∧ s = Phase true 0 0))).
Proof.
  intros Hws. unfold auto. rewrite Hws. destruct (Base64Value c) as [v|] eqn:Hv.
  - intros _. left. destruct (value_facts c v Hv) as (? & ? & _). by exists v.
  - intros Hs. right. repeat case_match; simplify_eq; bool_hyps; subst; split_and!; auto.
Qed.

Lemma auto_pad_inv g acc c s o : whitespace c = false → auto (Phase true g acc) c = Some (s, o) →
  c = 61 ∧ g = 3 ∧ s = Phase true 0 acc ∧ o = [].
Proof.
  intros Hws. unfold auto. rewrite Hws. intros Hs. repeat case_match; simplify_eq. bool_hyps. done.
Qed.

Lemma auto_run_cons s c cs out p o : auto_run s (c :: cs) out = (Some p, o) →
  ∃ s' x, auto s c = Some (s', x) ∧ auto_run s' cs (out ++ x) = (Some p, o).
Proof. cbn [auto_run]. destruct (auto s c) as [[s' x]|]; [|done]. eauto. Qed.

Abbreviation dense cs := (Forall (λ c, whitespace c = false) cs) (only parsing).

Lemma auto_padded acc cs out p o : dense cs →
  auto_run (Phase true 0 acc) cs out = (Some p, o) → cs = [] ∧ o = out.
Proof.
  intros Hd Hrun. destruct cs as [|c cs]; [cbn in Hrun; by simplify_eq|]. apply Forall_cons in Hd as [Hc _].
  apply auto_run_cons in Hrun as (s & x & Hstep & _). by apply auto_pad_inv in Hstep as (_ & ? & _).
Qed.

(** The encodings that end in padding: what the pending bits must be. *)
Lemma quantum_bytes a b c d : sextet a → sextet b → sextet c → sextet d →
  byte (a * 4 + b / 16) ∧ byte (b mod 16 * 16 + c / 4) ∧ byte (c mod 4 * 64 + d).
Proof. unfold byte, sextet. intros. Z.div_mod_to_equations. lia. Qed.

Lemma quantum_letters a b c d l : sextet a → sextet b → sextet c → sextet d →
  b64 ((a * 4 + b / 16) :: (b mod 16 * 16 + c / 4) :: (c mod 4 * 64 + d) :: l)
    = letter a :: letter b :: letter c :: letter d :: b64 l.
Proof.
  intros Ha Hb Hc Hd. cbn [b64]. unfold sextet in *.
  do 4 (apply (f_equal2 cons); [apply (f_equal letter); Z.div_mod_to_equations; lia|]). done.
Qed.

Lemma padded_letters2 a b : sextet a → sextet b → b mod 16 = 0 →
  b64 [a * 4 + b / 16] = [letter a; letter b; 61; 61].
Proof.
  intros Ha Hb H0. cbn [b64]. unfold sextet in *. do 2 (apply (f_equal2 cons); [apply (f_equal letter); Z.div_mod_to_equations; lia|]). done.
Qed.

Lemma padded_letters3 a b c : sextet a → sextet b → sextet c → c mod 4 = 0 →
  b64 [a * 4 + b / 16; b mod 16 * 16 + c / 4] = [letter a; letter b; letter c; 61].
Proof.
  intros Ha Hb Hc H0. cbn [b64]. unfold sextet in *. do 3 (apply (f_equal2 cons); [apply (f_equal letter); Z.div_mod_to_equations; lia|]). done.
Qed.

(** Take the next character of an accepted source. *)
Ltac next_char Hd Hrun c Hws Hstep :=
  lazymatch type of Hrun with
  | auto_run _ ?cs _ = _ =>
    destruct cs as [|c cs]; [cbn in Hrun; simplify_eq; done|];
    apply Forall_cons in Hd as [Hws Hd];
    apply auto_run_cons in Hrun as (? & ? & Hstep & Hrun)
  end.

(** What the decoder accepts is an encoding. *)
Lemma auto_only n : ∀ cs out p o, (length cs ≤ n)%nat → dense cs →
  auto_run start cs out = (Some p, o) → ph_groups p = 0 →
  ∃ l, bytes l ∧ cs = b64 l ∧ o = out ++ l.
Proof.
  induction n as [|n IH]; intros cs out p o Hn Hd Hrun Hp.
  { destruct cs; [|cbn in Hn; lia]. cbn in Hrun. simplify_eq.
    exists []. rewrite app_nil_r. split; [by constructor|done]. }
  destruct cs as [|c1 cs].
  { cbn in Hrun. simplify_eq. exists []. rewrite app_nil_r. split; [by constructor|done]. }
  apply Forall_cons in Hd as [W1 Hd]. apply auto_run_cons in Hrun as (s1 & x1 & St1 & Hrun).
  destruct (auto_inv _ _ _ _ _ W1 St1) as [(a & Ha & ->)|(_ & _ & _ & [[? _]|[? _]])]; [|done..].
  rewrite auto_first in St1 by done. simplify_eq. rewrite app_nil_r in Hrun.
  next_char Hd Hrun c2 W2 St2.
  destruct (auto_inv _ _ _ _ _ W2 St2) as [(b & Hb & ->)|(_ & _ & _ & [[? _]|[? _]])]; [|done..].
  rewrite auto_second in St2 by done. simplify_eq.
  next_char Hd Hrun c3 W3 St3.
  destruct (auto_inv _ _ _ _ _ W3 St3) as [(c & Hc & ->)|(-> & Hz & -> & [[_ ->]|[? _]])]; [| |done].
  2: { next_char Hd Hrun c4 W4 St4. apply auto_pad_inv in St4 as (-> & _ & -> & ->); [|done].
       apply auto_padded in Hrun as [-> ->]; [|done]. exists [a * 4 + b / 16].
       destruct (quantum_bytes a b 0 0 Ha Hb ltac:(done) ltac:(done)) as [? _].
       rewrite padded_letters2, !app_nil_r by done. split; [by apply Forall_singleton|done]. }
  rewrite auto_third in St3 by done. simplify_eq.
  next_char Hd Hrun c4 W4 St4.
  destruct (auto_inv _ _ _ _ _ W4 St4) as [(d & Hdd & ->)|(-> & Hz & -> & [[? _]|[_ ->]])]; [|done|].
  - rewrite auto_fourth in St4 by done. simplify_eq.
    apply IH in Hrun as (l & Hl & -> & ->); [|cbn in Hn; lia|done|done].
    exists ((a * 4 + b / 16) :: (b mod 16 * 16 + c / 4) :: (c mod 4 * 64 + d) :: l).
    rewrite quantum_letters by done. destruct (quantum_bytes a b c d Ha Hb Hc Hdd) as (? & ? & ?).
    split; [by repeat apply Forall_cons_2|]. by rewrite <-!app_assoc.
  - apply auto_padded in Hrun as [-> ->]; [|done]. exists [a * 4 + b / 16; b mod 16 * 16 + c / 4].
    destruct (quantum_bytes a b c 0 Ha Hb Hc ltac:(done)) as (? & ? & _).
    rewrite padded_letters3, app_nil_r by done. split; [by repeat apply Forall_cons_2|]. by rewrite <-!app_assoc.
Qed.

(** ** Base64: the two functions on memory

    Base64Decode runs the automaton of [Base64Spec] over a buffer; Base64Encode
    stores the encoding.  The claims: what is accepted, what is stored, and that
    decoding what was encoded gives the bytes back. *)

(** ** The decoding loop *)

(** The octets that fit are stored at the destination. *)
Definition stored (m : byte_mem) (D Orig : Z) (out : list Z) : byte_mem := put m D (take (Z.to_nat Orig) out).

Lemma stored_snoc m D Orig out o : 0 ≤ Orig →
  stored m D Orig (out ++ [o]) =
    if Z.of_nat (length out) <? Orig then <[D + Z.of_nat (length out):=o]> (stored m D Orig out)
    else stored m D Orig out.
Proof.
  intros H0. unfold stored. destruct (Z.ltb_spec (Z.of_nat (length out)) Orig).
  - rewrite !take_ge by (rewrite ?length_app; cbn; lia). apply put_snoc.
  - by rewrite take_app_le by lia.
Qed.

Definition run_state (s : phase) (out : list Z) : decode_state :=
  DecodeState (ph_pad s) (ph_groups s) (ph_acc s) (Z.of_nat (length out)).

Definition phase_ok (s : phase) : Prop := 0 ≤ ph_groups s ≤ 3.

Lemma auto_ok s c s' o : phase_ok s → auto s c = Some (s', o) → phase_ok s' ∧ (length o ≤ 1)%nat.
Proof.
  destruct s as [pad g acc]. unfold phase_ok, auto. cbn [ph_groups]. intros Hg Hs.
  repeat case_match; simplify_eq; cbn [ph_groups length]; lia.
Qed.

Section decode.
Context (m0 : byte_mem) (D Orig : Z) (HO : 0 ≤ Orig).
Context (HD : 0 < Orig → D ≠ 0) (Hroom : mapped m0 D Orig).

Lemma wp_spill s out octet acc g Q : Z.of_nat (length out) + 1 < 2 ^ 64 →
  Q (Some (DecodeState (ph_pad s) g acc (Z.of_nat (length (out ++ [octet]))))) (stored m0 D Orig (out ++ [octet])) →
  wp (spill D Orig (run_state s out) octet acc g) Q (stored m0 D Orig out).
Proof.
  intros Hn HQ. unfold spill. cbn [StoredSize PaddingMode run_state]. rewrite stored_snoc in HQ by done.
  wp_seq. replace (Z.of_nat (length (out ++ [octet]))) with (Z.of_nat (length out) + 1) in HQ
    by (rewrite length_app; cbn; lia).
  destruct (Z.ltb_spec (Z.of_nat (length out)) Orig).
  - wp_seq. apply wp_assert; [apply negb_true_iff, Z.eqb_neq, HD; lia|].
    apply wp_write8; [apply (mapped_put m0 D _ D Orig Hroom); lia|].
    rewrite cast_id by (done || (cint_unfold; lia)). apply wp_ret. exact HQ.
  - apply wp_ret. rewrite cast_id by (done || (cint_unfold; lia)). apply wp_ret. exact HQ.
Qed.

(** One character of the program is one step of the automaton. *)
Lemma decode_char_auto s out c Q : phase_ok s → Z.of_nat (length out) + 1 < 2 ^ 64 →
  match auto s c with
  | None => Q None (stored m0 D Orig out)
  | Some (s', o) => Q (Some (run_state s' (out ++ o))) (stored m0 D Orig (out ++ o))
  end →
  wp (decode_char D Orig c (run_state s out)) Q (stored m0 D Orig out).
Proof.
  destruct s as [pad g acc]. unfold phase_ok, auto, decode_char. cbn [ph_pad ph_groups ph_acc run_state PaddingMode SixBitGroupsConsumed Accumulator StoredSize].
  intros Hg Hn HQ. destruct (whitespace c); [rewrite app_nil_r in HQ; by apply wp_ret|].
  destruct pad; [destruct (_ && _); [rewrite app_nil_r in HQ|]; by apply wp_ret|].
  destruct (Base64Value c) as [v|].
  - cbv zeta in *. set (acc' := Z.lor _ v) in *. clearbody acc'.
    assert (g = 0 ∨ g = 1 ∨ g = 2 ∨ g = 3) as [->|[->|[->| ->]]] by lia; cbn in HQ |- *.
    + rewrite app_nil_r in HQ. by apply wp_ret.
    + by apply (wp_spill (Phase false 1 acc)).
    + by apply (wp_spill (Phase false 2 acc)).
    + apply wp_bind, wp_assert; [done|]. by apply (wp_spill (Phase false 3 acc)).
  - destruct (negb (c =? 61)); [by apply wp_ret|].
    destruct (g =? 2); [destruct (negb (acc =? 0)); rewrite ?app_nil_r in HQ; by apply wp_ret|].
    destruct (g =? 3); [destruct (negb (acc =? 0)); rewrite ?app_nil_r in HQ; by apply wp_ret|by apply wp_ret].
Qed.

(** The loop is the run of the automaton. *)
Lemma base64_loop_run S cs : buffer m0 S cs → apart S (Z.of_nat (length cs)) D Orig ∨ Orig = 0 →
  Z.of_nat (length cs) < 2 ^ 64 →
  ∀ fuel k s out, phase_ok s → (k ≤ length cs)%nat → (length out ≤ k)%nat → (length cs - k < fuel)%nat →
  ∃ ok s' out', base64_loop fuel S (Z.of_nat (length cs)) D Orig (Z.of_nat k) (run_state s out) (stored m0 D Orig out)
      = Some ((ok, run_state s' out'), stored m0 D Orig out') ∧
    auto_run s (drop k cs) out = (if ok then Some s' else None, out').
Proof.
  intros Hb Ha Hlen. induction fuel as [|fuel IH]; intros k s out Hs Hk Hout Hf; [lia|].
  cbn [base64_loop]. destruct (Z.ltb_spec (Z.of_nat k) (Z.of_nat (length cs))).
  - destruct (lookup_lt_is_Some_2 cs k ltac:(lia)) as [c Hc]. rewrite (drop_S _ _ _ Hc).
    assert (stored m0 D Orig out !! (S + Z.of_nat k) = Some c) as Hread.
    { unfold stored. rewrite lookup_put_ne; [by apply (buffer_at _ _ cs)|].
      rewrite length_take. unfold apart in Ha. lia. }
    erewrite bind_run by (unfold read8; rewrite Hread; reflexivity).
    destruct (wp_elim _ _ _ (decode_char_auto s out c
      (λ r m', match auto s c with None => r = None ∧ m' = stored m0 D Orig out
        | Some (s', o) => r = Some (run_state s' (out ++ o)) ∧ m' = stored m0 D Orig (out ++ o) end)
      Hs ltac:(lia) ltac:(destruct (auto s c) as [[? ?]|]; done))) as (r & m' & Hrun & Hr).
    erewrite bind_run by exact Hrun. cbn [auto_run].
    destruct (auto s c) as [[s' o]|] eqn:Hauto; destruct Hr as [-> ->].
    + rewrite cast_id by (done || (cint_unfold; lia)). destruct (auto_ok _ _ _ _ Hs Hauto) as [Hs' Ho].
      replace (Z.of_nat k + 1) with (Z.of_nat (Datatypes.S k)) by lia.
      apply IH; [done|lia|rewrite length_app; lia|lia].
    + exists false, s, out. done.
  - exists true, s, out. by rewrite drop_ge by lia.
Qed.
End decode.

(** ** The encoder *)

Lemma wp_letter k v (Q : Z → byte_mem → Prop) m : k = v → sextet v → Q (letter v) m → wp (EncodingChar k) Q m.
Proof. intros -> Hv HQ. apply (wp_required (letter v)); [apply letter_facts; done|done]. Qed.

(** Storing the next character after [cs]. *)
Lemma wp_put_next m D n cs c (Q : unit → byte_mem → Prop) :
  mapped m D n → Z.of_nat (length cs) < n → Q tt (put m D (cs ++ [c])) →
  wp (write8 (D + Z.of_nat (length cs)) c) Q (put m D cs).
Proof.
  intros Hm Hn HQ. rewrite put_snoc in HQ. apply wp_write8; [|done].
  apply (mapped_put m D cs D n Hm). lia.
Qed.

Lemma wp_put_first m D n c (Q : unit → byte_mem → Prop) :
  mapped m D n → 0 < n → Q tt (put m D [c]) → wp (write8 D c) Q m.
Proof. intros Hm Hn HQ. apply wp_write8; [apply Hm; lia|done]. Qed.

(** The source stays readable while the destination is written. *)
Lemma read_source m S l D n cs k b : buffer m S l → apart S (Z.of_nat (length l)) D n →
  Z.of_nat (length cs) ≤ n → l !! k = Some b → put m D cs !! (S + Z.of_nat k) = Some b.
Proof.
  intros Hl Ha Hn Hk. rewrite lookup_put_ne; [by apply (buffer_at _ _ l)|].
  apply lookup_lt_Some in Hk. unfold apart in Ha. lia.
Qed.

Ltac read_next H := apply wp_bind, (wp_read8 _ _ _ _ H).
Ltac store_first Hm := apply wp_bind, (wp_put_first _ _ _ _ _ Hm); [lia|].
Ltac store_next Hm cs := apply wp_bind, (wp_put_next _ _ _ cs _ _ Hm); [cbn; lia|]; cbn [app].

Definition encoded (m : byte_mem) (D : Z) (l : list Z) (d : Z) (m' : byte_mem) : Prop :=
  d = D + Z.of_nat (length (b64 l)) ∧ m' = put m D (b64 l).

Lemma encode_rest_1 m S x D : buffer m S [x] → mapped m D 4 → apart S 1 D 4 →
  wp (encode_rest S 1 D) (encoded m D [x]) m.
Proof.
  intros Hl Hm Ha. assert (byte x) as Hx by (by destruct (Hl 0%nat x eq_refl)).
  destruct (pieces_facts x Hx) as (P1 & P2 & _).
  destruct (group_sextets x 0 0 Hx ltac:(done) ltac:(done)) as (G1 & G2 & _).
  change (0 / 16) with 0 in *. rewrite Z.add_0_r in *.
  assert (∀ cs, Z.of_nat (length cs) ≤ 4 → put m D cs !! S = Some x) as R0.
  { intros cs Hcs. rewrite <-(Z.add_0_r S). by apply (read_source m S [x] D 4 cs 0). }
  unfold encode_rest. change (1 =? 1) with true. cbv iota.
  read_next (R0 [] ltac:(cbn; lia)). apply wp_bind, (wp_letter _ (x / 4)); [done..|]. store_first Hm.
  read_next (R0 [letter (x / 4)] ltac:(cbn; lia)). apply wp_bind, (wp_letter _ (x mod 4 * 16)); [done..|].
  store_next Hm [letter (x / 4)]. store_next Hm [letter (x / 4); letter (x mod 4 * 16)].
  store_next Hm [letter (x / 4); letter (x mod 4 * 16); 61]. by apply wp_ret.
Qed.

Lemma encode_rest_2 m S x y D : buffer m S [x; y] → mapped m D 4 → apart S 2 D 4 →
  wp (encode_rest S 2 D) (encoded m D [x; y]) m.
Proof.
  intros Hl Hm Ha. assert (byte x) as Hx by (by destruct (Hl 0%nat x eq_refl)).
  assert (byte y) as Hy by (by destruct (Hl 1%nat y eq_refl)).
  destruct (pieces_facts x Hx) as (P1 & P2 & _). destruct (pieces_facts y Hy) as (_ & _ & P3 & P4 & _).
  destruct (group_sextets x y 0 Hx Hy ltac:(done)) as (G1 & G2 & G3 & _).
  change (0 / 64) with 0 in *. rewrite Z.add_0_r in *.
  assert (∀ cs, Z.of_nat (length cs) ≤ 4 → put m D cs !! S = Some x) as R0.
  { intros cs Hcs. rewrite <-(Z.add_0_r S). by apply (read_source m S [x; y] D 4 cs 0). }
  assert (∀ cs, Z.of_nat (length cs) ≤ 4 → put m D cs !! (S + 1) = Some y) as R1.
  { intros cs Hcs. by apply (read_source m S [x; y] D 4 cs 1). }
  unfold encode_rest. change (2 =? 1) with false. change (2 =? 2) with true. cbv iota.
  read_next (R0 [] ltac:(cbn; lia)). apply wp_bind, (wp_letter _ (x / 4)); [done..|]. store_first Hm.
  set (a := letter (x / 4)). read_next (R0 [a] ltac:(cbn; lia)). read_next (R1 [a] ltac:(cbn; lia)).
  apply wp_bind, (wp_letter _ (x mod 4 * 16 + y / 16)); [by rewrite P2, P3|done|]. store_next Hm [a].
  set (b := letter (x mod 4 * 16 + y / 16)). read_next (R1 [a; b] ltac:(cbn; lia)).
  apply wp_bind, (wp_letter _ (y mod 16 * 4)); [done..|]. store_next Hm [a; b].
  store_next Hm [a; b; letter (y mod 16 * 4)]. by apply wp_ret.
Qed.

Lemma encode_step m S x y z l D fuel (Left : Z) Q :
  buffer m S (x :: y :: z :: l) → mapped m D 4 → apart S 3 D 4 → 3 ≤ Left →
  let q := [letter (x / 4); letter (x mod 4 * 16 + y / 16); letter (y mod 16 * 4 + z / 64); letter (z mod 64)] in
  wp (encode_loop fuel (S + 3) (Left - 3) (D + 4)) Q (put m D q) →
  wp (encode_loop (Datatypes.S fuel) S Left D) Q m.
Proof.
  intros Hl Hm Ha HL q HQ. apply (buffer_app _ _ [x; y; z] l) in Hl as [Hl _].
  assert (byte x) as Hx by (by destruct (Hl 0%nat x eq_refl)).
  assert (byte y) as Hy by (by destruct (Hl 1%nat y eq_refl)).
  assert (byte z) as Hz by (by destruct (Hl 2%nat z eq_refl)).
  destruct (pieces_facts x Hx) as (P1 & P2 & _). destruct (pieces_facts y Hy) as (_ & _ & P3 & P4 & _).
  destruct (pieces_facts z Hz) as (_ & _ & _ & _ & P5 & P6).
  destruct (group_sextets x y z Hx Hy Hz) as (G1 & G2 & G3 & G4).
  assert (∀ cs, Z.of_nat (length cs) ≤ 4 → put m D cs !! S = Some x) as R0.
  { intros cs Hcs. rewrite <-(Z.add_0_r S). by apply (read_source m S [x; y; z] D 4 cs 0). }
  assert (∀ cs, Z.of_nat (length cs) ≤ 4 → put m D cs !! (S + 1) = Some y) as R1.
  { intros cs Hcs. by apply (read_source m S [x; y; z] D 4 cs 1). }
  assert (∀ cs, Z.of_nat (length cs) ≤ 4 → put m D cs !! (S + 2) = Some z) as R2.
  { intros cs Hcs. by apply (read_source m S [x; y; z] D 4 cs 2). }
  cbn [encode_loop]. rewrite (proj2 (Z.geb_le Left 3)) by lia.
  read_next (R0 [] ltac:(cbn; lia)). apply wp_bind, (wp_letter _ (x / 4)); [done..|]. store_first Hm.
  set (a := letter (x / 4)). read_next (R0 [a] ltac:(cbn; lia)). read_next (R1 [a] ltac:(cbn; lia)).
  apply wp_bind, (wp_letter _ (x mod 4 * 16 + y / 16)); [by rewrite P2, P3|done|]. store_next Hm [a].
  set (b := letter (x mod 4 * 16 + y / 16)). read_next (R1 [a; b] ltac:(cbn; lia)). read_next (R2 [a; b] ltac:(cbn; lia)).
  apply wp_bind, (wp_letter _ (y mod 16 * 4 + z / 64)); [by rewrite P4, P5|done|]. store_next Hm [a; b].
  set (c := letter (y mod 16 * 4 + z / 64)). read_next (R2 [a; b; c] ltac:(cbn; lia)).
  apply wp_bind, (wp_letter _ (z mod 64)); [done..|]. store_next Hm [a; b; c]. exact HQ.
Qed.

Lemma b64_length l : Z.of_nat (length (b64 l)) = (Z.of_nat (length l) + 2) / 3 * 4.
Proof.
  pattern l. apply three_ind; clear l; [done..|]. intros x y z l IH. cbn [b64 length].
  rewrite !Nat2Z.inj_succ, IH. Z.div_mod_to_equations. lia.
Qed.

(** The loop and the switch store the encoding. *)
Lemma encode_run l : ∀ fuel m S D Q, buffer m S l → mapped m D (Z.of_nat (length (b64 l))) →
  apart S (Z.of_nat (length l)) D (Z.of_nat (length (b64 l))) → (length l < fuel)%nat →
  Q (D + Z.of_nat (length (b64 l))) (put m D (b64 l)) →
  wp (encode_loop fuel S (Z.of_nat (length l)) D) (λ '(S', L', D') m', wp (encode_rest S' L' D') Q m') m.
Proof.
  pattern l. apply three_ind; clear l.
  - intros fuel m S D Q Hb Hm Ha Hf HQ. destruct fuel; [lia|]. cbn [b64 length Z.of_nat put] in HQ.
    rewrite Z.add_0_r in HQ. exact HQ.
  - intros x fuel m S D Q Hb Hm Ha Hf HQ. destruct fuel; [lia|]. cbn [length encode_loop].
    change (Z.of_nat 1 >=? 3) with false. cbv iota. apply wp_ret.
    eapply wp_mono; [by apply encode_rest_1|]. intros d m' [-> ->]. exact HQ.
  - intros x y fuel m S D Q Hb Hm Ha Hf HQ. destruct fuel; [lia|]. cbn [length encode_loop].
    change (Z.of_nat 2 >=? 3) with false. cbv iota. apply wp_ret.
    eapply wp_mono; [by apply encode_rest_2|]. intros d m' [-> ->]. exact HQ.
  - intros x y z l IH fuel m S D Q Hb Hm Ha Hf HQ. destruct fuel as [|fuel]; [lia|].
    cbn [b64 length] in Hm, Ha, HQ, Hf. unfold apart in Ha.
    eapply (encode_step m S x y z l); [done|eapply mapped_sub; [exact Hm|lia..]|unfold apart; lia|cbn [length]; lia|].
    apply (buffer_app m S [x; y; z] l) in Hb as [_ Hb].
    replace (Z.of_nat (length (x :: y :: z :: l)) - 3) with (Z.of_nat (length l)) by (cbn [length]; lia).
    apply IH.
    + apply buffer_put_apart; [exact Hb|unfold apart; cbn [length]; lia].
    + apply mapped_put. eapply mapped_sub; [exact Hm|lia..].
    + unfold apart. lia.
    + lia.
    + replace (D + Z.of_nat _) with (D + 4 + Z.of_nat (length (b64 l))) in HQ by lia.
      set (d := D + 4 + _) in *. clearbody d. cbn [put] in HQ |- *.
      replace (D + 1 + 1 + 1 + 1) with (D + 4) in HQ by lia. exact HQ.
Qed.

(** ** Base64Encode *)

Definition required_size (l : list Z) : Z := Z.of_nat (length (b64 l)) + 1.

Lemma required_size_computed l : Z.of_nat (length l) < 2 ^ 63 →
  cast UINTN (cast UINTN (Z.of_nat (length l) + 2) / 3 * 4 + 1) = required_size l.
Proof.
  intros Hl. unfold required_size. rewrite b64_length.
  rewrite (cast_id UINTN (Z.of_nat (length l) + 2)) by (done || (cint_unfold; lia)).
  apply cast_id; [done|]. cint_unfold. Z.div_mod_to_equations. lia.
Qed.

Lemma encode_all m S D l (size : Z) : buffer m S l → mapped m D (required_size l) →
  apart S (Z.of_nat (length l)) D (required_size l) →
  wp ('(S', L', D') ← encode_loop (Datatypes.S (Z.to_nat (Z.of_nat (length l)))) S (Z.of_nat (length l)) D;
      d ← encode_rest S' L' D'; write8 d 0;; mret (RETURN_SUCCESS, Some size))
    (λ r m', r = (RETURN_SUCCESS, Some size) ∧ m' = put m D (b64 l ++ [0])) m.
Proof.
  unfold required_size, apart. intros Hb Hm Ha. apply wp_bind.
  eapply wp_mono; [apply (encode_run l _ m S D (λ d m', d = D + Z.of_nat (length (b64 l)) ∧ m' = put m D (b64 l)))|].
  - done.
  - eapply mapped_sub; [exact Hm|lia..].
  - unfold apart. lia.
  - lia.
  - done.
  - intros [[S' L'] D'] m' Hw. apply wp_bind. eapply wp_mono; [exact Hw|]. intros d m'' [-> ->].
    apply wp_bind, wp_write8; [apply (mapped_put m D (b64 l) _ _ Hm); lia|]. by rewrite <-put_snoc.
Qed.

(** What Base64Encode does with a readable source and a sensible destination. *)
Lemma encode_outcome m S D l size : l ≠ [] → S ≠ 0 →
  Z.of_nat (length l) < 2 ^ 63 → Z.of_nat (length l) < MAX_ADDRESS - S → size < MAX_ADDRESS - D →
  buffer m S l →
  (D ≠ 0 → required_size l ≤ size → mapped m D (required_size l) ∧ apart S (Z.of_nat (length l)) D (required_size l)) →
  Base64Encode S (Z.of_nat (length l)) D (Some size) m =
    if (D =? 0) || (size <? required_size l)
    then Some ((RETURN_BUFFER_TOO_SMALL, Some (required_size l)), m)
    else Some ((RETURN_SUCCESS, Some size), put m D (b64 l ++ [0])).
Proof.
  intros Hl HS H63 HmaxS HmaxD Hb Hdst. unfold Base64Encode. rewrite (proj2 (Z.eqb_neq S 0)) by done.
  rewrite (proj2 (Z.eqb_neq (Z.of_nat (length l)) 0)) by (destruct l; cbn; [done|lia]).
  rewrite !Z.geb_leb, (proj2 (Z.leb_gt _ _) HmaxS), (proj2 (Z.leb_gt _ _) HmaxD). cbn [orb].
  cbv zeta. rewrite required_size_computed by done.
  destruct ((D =? 0) || (size <? required_size l)) eqn:Hd; [done|].
  apply orb_false_iff in Hd as [HD Hsz]. apply Z.eqb_neq in HD. apply Z.ltb_ge in Hsz.
  destruct (Hdst HD Hsz) as [Hm Ha].
  destruct (wp_elim _ _ _ (encode_all m S D l size Hb Hm Ha)) as (r & m' & Hrun & -> & ->). exact Hrun.
Qed.

(** ** Base64Decode *)

Lemma arguments_apart S len D size : 0 ≤ S → 0 ≤ D → 0 ≤ len → 0 ≤ size →
  decode_arguments_ok S len D size = true →
  (0 < size → D ≠ 0) ∧ len < 2 ^ 64 ∧ apart S len D size.
Proof.
  intros HS HD Hl Hs. unfold decode_arguments_ok, apart, MAX_ADDRESS. intros H.
  destruct (Z.eqb_spec S 0), (Z.eqb_spec D 0); cbn [negb andb] in H;
    repeat apply andb_true_iff in H as [H ?]; rewrite ?orb_true_iff, ?negb_true_iff, ?Z.gtb_ltb, ?Z.ltb_ge, ?Z.leb_le in *;
    try (split_and!; [done || lia|lia|lia]).
  rewrite !cast_id in * by (done || (cint_unfold; lia)). split_and!; [done|lia|lia].
Qed.

(** The run of Base64Decode, by the automaton. *)
Lemma decode_run m S D size cs : 0 ≤ S → 0 ≤ D → 0 ≤ size → buffer m S cs → mapped m D size →
  decode_arguments_ok S (Z.of_nat (length cs)) D size = true →
  ∃ (ok : bool) s out, auto_run start cs [] = (if ok then Some s else None, out) ∧
    Base64Decode S (Z.of_nat (length cs)) D (Some size) m = Some
      ((if ok then if ph_groups s =? 0 then
          if Z.of_nat (length out) <=? size then RETURN_SUCCESS else RETURN_BUFFER_TOO_SMALL
          else RETURN_INVALID_PARAMETER else RETURN_INVALID_PARAMETER, Some (Z.of_nat (length out))),
       stored m D size out).
Proof.
  intros HS HD Hsize Hb Hm Hargs.
  destruct (arguments_apart S (Z.of_nat (length cs)) D size HS HD ltac:(lia) Hsize Hargs) as (HD0 & Hlen & Ha).
  destruct (base64_loop_run m D size Hsize HD0 Hm S cs Hb (or_introl Ha) Hlen
    (Datatypes.S (Z.to_nat (Z.of_nat (length cs)))) 0 start []) as (ok & s & out & Hrun & Hauto);
    [done|lia|done|lia|].
  exists ok, s, out. split; [done|]. unfold Base64Decode. rewrite Hargs. cbn [negb].
  change (stored m D size []) with (put m D (take (Z.to_nat size) [])) in Hrun. rewrite take_nil in Hrun.
  erewrite bind_run by exact Hrun. cbv beta iota. unfold run_state. cbn [StoredSize SixBitGroupsConsumed].
  destruct ok; cbn [negb]; [|done]. destruct (ph_groups s =? 0); cbn [negb]; [|done].
  by destruct (Z.of_nat (length out) <=? size).
Qed.

Lemma b64_dense l : bytes l → black (b64 l) = b64 l.
Proof.
  unfold black. pattern l. apply three_ind; clear l; [done|..].
  - intros x [Hx _]%Forall_cons. destruct (group_sextets x 0 0 Hx ltac:(done) ltac:(done)) as (S1 & S2 & _).
    change (0 / 16) with 0 in *. rewrite Z.add_0_r in *. cbn [b64].
    rewrite !filter_cons_True by (by apply letter_facts || done). done.
  - intros x y [Hx [Hy _]%Forall_cons]%Forall_cons.
    destruct (group_sextets x y 0 Hx Hy ltac:(done)) as (S1 & S2 & S3 & _).
    change (0 / 64) with 0 in *. rewrite Z.add_0_r in *. cbn [b64].
    rewrite !filter_cons_True by (by apply letter_facts || done). done.
  - intros x y z l IH [Hx [Hy [Hz Hl]%Forall_cons]%Forall_cons]%Forall_cons.
    destruct (group_sextets x y z Hx Hy Hz) as (S1 & S2 & S3 & S4). cbn [b64].
    rewrite !filter_cons_True by (by apply letter_facts). by rewrite IH.
Qed.

Lemma buffer_bytes m p l : buffer m p l → bytes l.
Proof. intros Hb. apply Forall_lookup. intros i b Hi. by destruct (Hb i b Hi). Qed.

Lemma b64_bytes l : bytes l → bytes (b64 l).
Proof.
  assert (byte 61) as H61 by done. unfold bytes. pattern l. apply three_ind; clear l; [done|..].
  - intros x [Hx _]%Forall_cons. destruct (group_sextets x 0 0 Hx ltac:(done) ltac:(done)) as (S1 & S2 & _).
    change (0 / 16) with 0 in *. rewrite Z.add_0_r in *. cbn [b64].
    repeat apply Forall_cons_2; try (by apply letter_facts); by try apply Forall_nil.
  - intros x y [Hx [Hy _]%Forall_cons]%Forall_cons.
    destruct (group_sextets x y 0 Hx Hy ltac:(done)) as (S1 & S2 & S3 & _).
    change (0 / 64) with 0 in *. rewrite Z.add_0_r in *. cbn [b64].
    repeat apply Forall_cons_2; try (by apply letter_facts); by try apply Forall_nil.
  - intros x y z l IH [Hx [Hy [Hz Hl]%Forall_cons]%Forall_cons]%Forall_cons.
    destruct (group_sextets x y z Hx Hy Hz) as (S1 & S2 & S3 & S4). cbn [b64].
    repeat apply Forall_cons_2; try (by apply letter_facts). by apply IH.
Qed.

(** C7: Base64Decode accepts exactly the encodings, whitespace aside.  When the
    source without its whitespace is the encoding of some bytes, the returned
    size is their number, as many of them as fit are stored at the destination
    and the status is RETURN_SUCCESS, or RETURN_BUFFER_TOO_SMALL when not all
    fit; when it is no encoding (a foreign character, data or padding in the
    wrong place, a truncated quantum, non-zero bits before the padding) the
    status is RETURN_INVALID_PARAMETER.  Only the destination changes. *)
Theorem base64_decode_exact m S D size cs : 0 ≤ S → 0 ≤ D → 0 ≤ size → buffer m S cs → mapped m D size →
  decode_arguments_ok S (Z.of_nat (length cs)) D size = true →
  ∃ r n m', Base64Decode S (Z.of_nat (length cs)) D (Some size) m = Some ((r, Some n), m') ∧
    (∀ l, bytes l → black cs = b64 l →
      n = Z.of_nat (length l) ∧ m' = put m D (take (Z.to_nat size) l) ∧
      r = if Z.of_nat (length l) <=? size then RETURN_SUCCESS else RETURN_BUFFER_TOO_SMALL) ∧
    ((∀ l, bytes l → black cs ≠ b64 l) → r = RETURN_INVALID_PARAMETER) ∧
    (∀ i, ¬ (D ≤ i < D + size) → m' !! i = m !! i).
Proof.
  intros HS HD Hsize Hb Hm Hargs.
  destruct (decode_run m S D size cs HS HD Hsize Hb Hm Hargs) as (ok & s & out & Hauto & Hrun).
  rewrite auto_run_black in Hauto. do 3 eexists. split; [exact Hrun|]. split_and!.
  - intros l Hl Hcs. rewrite Hcs in Hauto. destruct (auto_accepts l [] Hl) as (p & Hacc & Hp).
    rewrite Hacc in Hauto. destruct ok; simplify_eq. by rewrite Hp.
  - intros Hno. destruct ok; [|done]. destruct (Z.eqb_spec (ph_groups s) 0) as [Hg|]; [exfalso|done].
    destruct (auto_only _ (black cs) [] s out (le_n _)) as (l & Hl & Hcs & _); [|done|done|by apply (Hno l)].
    apply Forall_forall. intros c. unfold black. by rewrite list_elem_of_filter; intros [? _].
  - intros i Hi. unfold stored. apply lookup_put_ne. rewrite length_take. lia.
Qed.


(** ** Examples and witnesses *)

(** The test vectors of RFC 4648. *)
Example rfc4648_vectors :
  map b64 [[]; [102]; [102; 111]; [102; 111; 111]; [102; 111; 111; 98]; [102; 111; 111; 98; 97]] =
  [[]; [90; 103; 61; 61]; [90; 109; 56; 61]; [90; 109; 57; 118];
   [90; 109; 57; 118; 89; 103; 61; 61]; [90; 109; 57; 118; 89; 109; 69; 61]].
Proof. vm_compute. reflexivity. Qed.

(** No data: the encoder stores the NUL only, and so through a NULL destination
    too when the size says there is room. *)
Lemma encode_nothing m S D size : S ≠ 0 →
  Base64Encode S 0 D (Some size) m =
    if size <? 1 then Some ((RETURN_BUFFER_TOO_SMALL, Some 1), m)
    else match m !! D with
         | Some _ => Some ((RETURN_SUCCESS, Some 1), <[D:=0]> m)
         | None => None
         end.
Proof.
  intros HS. unfold Base64Encode. rewrite (proj2 (Z.eqb_neq S 0)) by done. cbn [Z.eqb].
  destruct (size <? 1); [done|]. unfold write8, mbind, M_bind. by destruct (m !! D).
Qed.

Definition ex_source : list Z := [77; 97; 110; 33].
Definition ex_text : list Z := [84; 87; 13; 10; 70; 117; 32; 73; 81; 61; 61].
Definition ex_room : byte_mem := put (put ∅ 32 (replicate 9 0)) 64 (replicate 4 0).

Lemma base64_decode_exact_witness :
  ∃ r n m', Base64Decode 16 11 64 (Some 3) (put ex_room 16 ex_text) = Some ((r, Some n), m') ∧
    n = 4 ∧ m' = put (put ex_room 16 ex_text) 64 [77; 97; 110] ∧ r = RETURN_BUFFER_TOO_SMALL.
Proof.
  destruct (base64_decode_exact (put ex_room 16 ex_text) 16 64 3 ex_text) as (r & n & m' & Hrun & Hyes & _ & _);
    [lia|lia|lia|apply buffer_put; by repeat constructor| |by vm_compute|].
  - apply mapped_put. unfold ex_room. eapply mapped_sub; [apply put_mapped|lia|cbn; lia].
  - exists r, n, m'. split; [exact Hrun|]. apply (Hyes ex_source); [by repeat constructor|by vm_compute].
Defined.

