(* ===== verification/SafeString.v ===== *)
(** * Safe strings: lengths, copies and appends (MdePkg/Library/BaseLib/SafeString.c)

    Strings of one-byte (CHAR8) and two-byte (CHAR16) characters in a byte memory;
    a character is the unsigned value of its bytes.  The Unicode and the Ascii
    function of a pair differ in the kind of character only, so that both are
    instances of one definition.  A loop that walks over a string reads a new
    address in every step, so the number of mapped addresses bounds its steps. *)
From S2P Require Import Prelude CBase CheckSum ByteMem.
Local Open Scope Z_scope.

(** ** Characters *)

Inductive char_kind := Unicode | Ascii.

#[export] Instance char_kind_eq_dec : EqDecision char_kind.
Proof. solve_decision. Defined.

Definition char_bytes (k : char_kind) : nat := match k with Unicode => 2 | Ascii => 1 end.
Definition sizeof_char (k : char_kind) : Z := Z.of_nat (char_bytes k).

Fixpoint low_bytes (n : nat) (x : Z) : list Z :=
  match n with O => [] | S n => Z.land x 0xff :: low_bytes n (Z.shiftr x 8) end.

Fixpoint write_bytes (p : Z) (l : list Z) : M byte_mem unit :=
  match l with [] => mret tt | b :: l => write8 p b;; write_bytes (p + 1) l end.

Definition read_char (k : char_kind) (p : Z) : M byte_mem Z :=
  m ← get_state; required (read_le m p (char_bytes k)).
Definition write_char (k : char_kind) (p c : Z) : M byte_mem unit :=
  write_bytes p (low_bytes (char_bytes k) c).

Definition memory_fuel : M byte_mem nat := m ← get_state; mret (S (size m)).

(** ASSERT (((UINTN) String & BIT0) == 0), of the functions on CHAR16. *)
Definition assert_aligned (k : char_kind) (p : Z) : M byte_mem unit :=
  match k with Unicode => ASSERT (Z.land p 1 =? 0) | Ascii => mret tt end.

Definition SAFE_STRING_CONSTRAINT_CHECK {A} (Expression : bool) (Status : A) (k : M byte_mem A)
    : M byte_mem A := if Expression then k else mret Status.

(** ** Overlap *)

Definition InternalSafeStringIsOverlap (Base1 Size1 Base2 Size2 : Z) : bool :=
  ((Base1 >=? Base2) && (Base1 <? cast UINTN (Base2 + Size2))) ||
  ((Base2 >=? Base1) && (Base2 <? cast UINTN (Base1 + Size1))).

Definition InternalSafeStringNoStrOverlap (Str1 Size1 Str2 Size2 : Z) : bool :=
  negb (InternalSafeStringIsOverlap Str1 (cast UINTN (Size1 * 2)) Str2 (cast UINTN (Size2 * 2))).

Definition InternalSafeStringNoAsciiStrOverlap (Str1 Size1 Str2 Size2 : Z) : bool :=
  negb (InternalSafeStringIsOverlap Str1 Size1 Str2 Size2).

Definition no_overlap (k : char_kind) : Z → Z → Z → Z → bool :=
  match k with Unicode => InternalSafeStringNoStrOverlap | Ascii => InternalSafeStringNoAsciiStrOverlap end.

(** ** Lengths *)

Fixpoint length_loop (fuel : nat) (k : char_kind) (String MaxSize Length : Z) : M byte_mem Z :=
  match fuel with
  | O => fails
  | S fuel =>
    c ← read_char k (String + sizeof_char k * Length);
    if negb (c =? 0) then
      if Length >=? MaxSize - 1 then mret MaxSize
      else length_loop fuel k String MaxSize (cast UINTN (Length + 1))
    else mret Length
  end.

Definition LenS (k : char_kind) (String MaxSize : Z) : M byte_mem Z :=
  assert_aligned k String;;
  if (String =? 0) || (MaxSize =? 0) then mret 0 else
  fuel ← memory_fuel; length_loop fuel k String MaxSize 0.

Definition SizeS (k : char_kind) (String MaxSize : Z) : M byte_mem Z :=
  if String =? 0 then mret 0 else
  n ← LenS k String MaxSize; mret (cast UINTN (cast UINTN (n + 1) * sizeof_char k)).

Definition StrnLenS := LenS Unicode.
Definition AsciiStrnLenS := LenS Ascii.
Definition StrnSizeS := SizeS Unicode.
Definition AsciiStrnSizeS := SizeS Ascii.

(** ** Copies and appends *)

(** The character that is stored: a CHAR16 must fit into a CHAR8. *)
Definition convert (ks kd : char_kind) (c : Z) : M byte_mem Z :=
  match ks, kd with
  | Unicode, Ascii => ASSERT (c <? 0x100);; mret (cast UINT8 c)
  | Ascii, Unicode => mret (cast UINT16 (cast UINT8 c))
  | _, _ => mret c
  end.

(** while ( *Source != 0) *(Destination++) = *(Source++); the final Destination. *)
Fixpoint copy_loop (fuel : nat) (ks kd : char_kind) (Destination Source : Z) : M byte_mem Z :=
  match fuel with
  | O => fails
  | S fuel =>
    c ← read_char ks Source;
    if negb (c =? 0) then
      d ← convert ks kd c; write_char kd Destination d;;
      copy_loop fuel ks kd (Destination + sizeof_char kd) (Source + sizeof_char ks)
    else mret Destination
  end.

(** The same with a count of the characters that are left. *)
Fixpoint ncopy_loop (fuel : nat) (k : char_kind) (Destination Source SourceLen : Z) : M byte_mem Z :=
  match fuel with
  | O => fails
  | S fuel =>
    if SourceLen >? 0 then
      c ← read_char k Source;
      if negb (c =? 0) then
        write_char k Destination c;;
        ncopy_loop fuel k (Destination + sizeof_char k) (Source + sizeof_char k) (SourceLen - 1)
      else mret Destination
    else mret Destination
  end.

(** The loop of the conversions with a length tests the character first; it also
    counts in DestinationLength. *)
Fixpoint nconvert_loop (fuel : nat) (ks kd : char_kind) (Destination Source SourceLen DestinationLength : Z)
    : M byte_mem (Z * Z) :=
  match fuel with
  | O => fails
  | S fuel =>
    c ← read_char ks Source;
    if negb (c =? 0) && (SourceLen >? 0) then
      d ← convert ks kd c; write_char kd Destination d;;
      nconvert_loop fuel ks kd (Destination + sizeof_char kd) (Source + sizeof_char ks) (SourceLen - 1)
        (cast UINTN (DestinationLength + 1))
    else mret (Destination, DestinationLength)
  end.

Section limits.
(** PcdMaximumUnicodeStringLength and PcdMaximumAsciiStringLength. *)
Context (RSIZE_MAX ASCII_RSIZE_MAX : Z).

Definition rsize_max (k : char_kind) : Z := match k with Unicode => RSIZE_MAX | Ascii => ASCII_RSIZE_MAX end.

(** if (RSIZE_MAX != 0) SAFE_STRING_CONSTRAINT_CHECK (Size <= RSIZE_MAX). *)
Definition within_rsize (k : char_kind) (Size : Z) : bool :=
  if negb (rsize_max k =? 0) then Size <=? rsize_max k else true.

Definition CpyS (k : char_kind) (Destination DestMax Source : Z) : M byte_mem Z :=
  assert_aligned k Destination;;
  assert_aligned k Source;;
  SAFE_STRING_CONSTRAINT_CHECK (negb (Destination =? 0)) RETURN_INVALID_PARAMETER
  (SAFE_STRING_CONSTRAINT_CHECK (negb (Source =? 0)) RETURN_INVALID_PARAMETER
  (SAFE_STRING_CONSTRAINT_CHECK (within_rsize k DestMax) RETURN_INVALID_PARAMETER
  (SAFE_STRING_CONSTRAINT_CHECK (negb (DestMax =? 0)) RETURN_INVALID_PARAMETER
  (SourceLen ← LenS k Source DestMax;
   SAFE_STRING_CONSTRAINT_CHECK (DestMax >? SourceLen) RETURN_BUFFER_TOO_SMALL
   (SAFE_STRING_CONSTRAINT_CHECK (no_overlap k Destination DestMax Source (cast UINTN (SourceLen + 1)))
      RETURN_ACCESS_DENIED
    (fuel ← memory_fuel;
     Destination ← copy_loop fuel k k Destination Source;
     write_char k Destination 0;; mret RETURN_SUCCESS)))))).

Definition nCpyS (k : char_kind) (Destination DestMax Source Length : Z) : M byte_mem Z :=
  assert_aligned k Destination;;
  assert_aligned k Source;;
  SAFE_STRING_CONSTRAINT_CHECK (negb (Destination =? 0)) RETURN_INVALID_PARAMETER
  (SAFE_STRING_CONSTRAINT_CHECK (negb (Source =? 0)) RETURN_INVALID_PARAMETER
  (SAFE_STRING_CONSTRAINT_CHECK (within_rsize k DestMax) RETURN_INVALID_PARAMETER
  (SAFE_STRING_CONSTRAINT_CHECK (within_rsize k Length) RETURN_INVALID_PARAMETER
  (SAFE_STRING_CONSTRAINT_CHECK (negb (DestMax =? 0)) RETURN_INVALID_PARAMETER
  (SourceLen ← LenS k Source (Z.min DestMax Length);
   SAFE_STRING_CONSTRAINT_CHECK (if Length >=? DestMax then DestMax >? SourceLen else true) RETURN_BUFFER_TOO_SMALL
   (let SourceLen := if SourceLen >? Length then Length else SourceLen in
    SAFE_STRING_CONSTRAINT_CHECK (no_overlap k Destination DestMax Source (cast UINTN (SourceLen + 1)))
      RETURN_ACCESS_DENIED
    (fuel ← memory_fuel;
     Destination ← ncopy_loop fuel k Destination Source SourceLen;
     write_char k Destination 0;; mret RETURN_SUCCESS))))))).

Definition CatS (k : char_kind) (Destination DestMax Source : Z) : M byte_mem Z :=
  assert_aligned k Destination;;
  assert_aligned k Source;;
  DestLen ← LenS k Destination DestMax;
  let CopyLen := cast UINTN (DestMax - DestLen) in
  SAFE_STRING_CONSTRAINT_CHECK (negb (Destination =? 0)) RETURN_INVALID_PARAMETER
  (SAFE_STRING_CONSTRAINT_CHECK (negb (Source =? 0)) RETURN_INVALID_PARAMETER
  (SAFE_STRING_CONSTRAINT_CHECK (within_rsize k DestMax) RETURN_INVALID_PARAMETER
  (SAFE_STRING_CONSTRAINT_CHECK (negb (DestMax =? 0)) RETURN_INVALID_PARAMETER
  (SAFE_STRING_CONSTRAINT_CHECK (negb (CopyLen =? 0)) RETURN_BAD_BUFFER_SIZE
  (SourceLen ← LenS k Source CopyLen;
   SAFE_STRING_CONSTRAINT_CHECK (CopyLen >? SourceLen) RETURN_BUFFER_TOO_SMALL
   (SAFE_STRING_CONSTRAINT_CHECK (no_overlap k Destination DestMax Source (cast UINTN (SourceLen + 1)))
      RETURN_ACCESS_DENIED
    (fuel ← memory_fuel;
     Destination ← copy_loop fuel k k (Destination + sizeof_char k * DestLen) Source;
     write_char k Destination 0;; mret RETURN_SUCCESS))))))).

Definition nCatS (k : char_kind) (Destination DestMax Source Length : Z) : M byte_mem Z :=
  assert_aligned k Destination;;
  assert_aligned k Source;;
  DestLen ← LenS k Destination DestMax;
  let CopyLen := cast UINTN (DestMax - DestLen) in
  SAFE_STRING_CONSTRAINT_CHECK (negb (Destination =? 0)) RETURN_INVALID_PARAMETER
  (SAFE_STRING_CONSTRAINT_CHECK (negb (Source =? 0)) RETURN_INVALID_PARAMETER
  (SAFE_STRING_CONSTRAINT_CHECK (within_rsize k DestMax) RETURN_INVALID_PARAMETER
  (SAFE_STRING_CONSTRAINT_CHECK (within_rsize k Length) RETURN_INVALID_PARAMETER
  (SAFE_STRING_CONSTRAINT_CHECK (negb (DestMax =? 0)) RETURN_INVALID_PARAMETER
  (SAFE_STRING_CONSTRAINT_CHECK (negb (CopyLen =? 0)) RETURN_BAD_BUFFER_SIZE
  (SourceLen ← LenS k Source (Z.min CopyLen Length);
   SAFE_STRING_CONSTRAINT_CHECK (if Length >=? CopyLen then CopyLen >? SourceLen else true) RETURN_BUFFER_TOO_SMALL
   (let SourceLen := if SourceLen >? Length then Length else SourceLen in
    SAFE_STRING_CONSTRAINT_CHECK (no_overlap k Destination DestMax Source (cast UINTN (SourceLen + 1)))
      RETURN_ACCESS_DENIED
    (fuel ← memory_fuel;
     Destination ← ncopy_loop fuel k (Destination + sizeof_char k * DestLen) Source SourceLen;
     write_char k Destination 0;; mret RETURN_SUCCESS)))))))).

(** ** Conversions *)

(** UnicodeStrToAsciiStrS and AsciiStrToUnicodeStrS. *)
Definition ConvertS (ks kd : char_kind) (Source Destination DestMax : Z) : M byte_mem Z :=
  assert_aligned ks Source;;
  assert_aligned kd Destination;;
  SAFE_STRING_CONSTRAINT_CHECK (negb (Destination =? 0)) RETURN_INVALID_PARAMETER
  (SAFE_STRING_CONSTRAINT_CHECK (negb (Source =? 0)) RETURN_INVALID_PARAMETER
  (SAFE_STRING_CONSTRAINT_CHECK (within_rsize kd DestMax) RETURN_INVALID_PARAMETER
  (SAFE_STRING_CONSTRAINT_CHECK (within_rsize ks DestMax) RETURN_INVALID_PARAMETER
  (SAFE_STRING_CONSTRAINT_CHECK (negb (DestMax =? 0)) RETURN_INVALID_PARAMETER
  (SourceLen ← LenS ks Source DestMax;
   SAFE_STRING_CONSTRAINT_CHECK (DestMax >? SourceLen) RETURN_BUFFER_TOO_SMALL
   (SAFE_STRING_CONSTRAINT_CHECK (negb (InternalSafeStringIsOverlap
        Destination (cast UINTN (DestMax * sizeof_char kd))
        Source (cast UINTN (cast UINTN (SourceLen + 1) * sizeof_char ks)))) RETURN_ACCESS_DENIED
    (fuel ← memory_fuel;
     Destination ← copy_loop fuel ks kd Destination Source;
     write_char kd Destination 0;; mret RETURN_SUCCESS))))))).

(** UnicodeStrnToAsciiStrS and AsciiStrnToUnicodeStrS, with the value that
    DestinationLength points to. *)
Definition nConvertS (ks kd : char_kind) (Source Length Destination DestMax : Z)
    (DestinationLength : option Z) : M byte_mem (Z * option Z) :=
  assert_aligned ks Source;;
  assert_aligned kd Destination;;
  let failed Status := (Status, DestinationLength) in
  SAFE_STRING_CONSTRAINT_CHECK (negb (Destination =? 0)) (failed RETURN_INVALID_PARAMETER)
  (SAFE_STRING_CONSTRAINT_CHECK (negb (Source =? 0)) (failed RETURN_INVALID_PARAMETER)
  (SAFE_STRING_CONSTRAINT_CHECK (bool_decide (is_Some DestinationLength)) (failed RETURN_INVALID_PARAMETER)
  (SAFE_STRING_CONSTRAINT_CHECK (within_rsize kd Length) (failed RETURN_INVALID_PARAMETER)
  (SAFE_STRING_CONSTRAINT_CHECK (within_rsize kd DestMax) (failed RETURN_INVALID_PARAMETER)
  (SAFE_STRING_CONSTRAINT_CHECK (within_rsize ks Length) (failed RETURN_INVALID_PARAMETER)
  (SAFE_STRING_CONSTRAINT_CHECK (within_rsize ks DestMax) (failed RETURN_INVALID_PARAMETER)
  (SAFE_STRING_CONSTRAINT_CHECK (negb (DestMax =? 0)) (failed RETURN_INVALID_PARAMETER)
  (SourceLen ← LenS ks Source DestMax;
   SAFE_STRING_CONSTRAINT_CHECK (if Length >=? DestMax then DestMax >? SourceLen else true)
     (failed RETURN_BUFFER_TOO_SMALL)
   (let SourceLen := if SourceLen >? Length then Length else SourceLen in
    SAFE_STRING_CONSTRAINT_CHECK (negb (InternalSafeStringIsOverlap
        Destination (cast UINTN (DestMax * sizeof_char kd))
        Source (cast UINTN (cast UINTN (SourceLen + 1) * sizeof_char ks)))) (failed RETURN_ACCESS_DENIED)
    (fuel ← memory_fuel;
     '(Destination, n) ← nconvert_loop fuel ks kd Destination Source SourceLen 0;
     write_char kd Destination 0;; mret (RETURN_SUCCESS, Some n))))))))))).

Definition UnicodeStrToAsciiStrS := ConvertS Unicode Ascii.
Definition AsciiStrToUnicodeStrS := ConvertS Ascii Unicode.
Definition UnicodeStrnToAsciiStrS := nConvertS Unicode Ascii.
Definition AsciiStrnToUnicodeStrS := nConvertS Ascii Unicode.

Definition StrCpyS := CpyS Unicode.
Definition AsciiStrCpyS := CpyS Ascii.
Definition StrnCpyS := nCpyS Unicode.
Definition AsciiStrnCpyS := nCpyS Ascii.
Definition StrnCatS := nCatS Unicode.
Definition AsciiStrnCatS := nCatS Ascii.
Definition StrCatS := CatS Unicode.
Definition AsciiStrCatS := CatS Ascii.
End limits.
