(* ===== verification/SafeStringSpec.v ===== *)
(** * Safe strings: character arrays in memory

    What the functions of [SafeString] read and write, in terms of lists of
    characters. *)
From S2P Require Import Prelude CBase Math64Spec CheckSum CheckSumSpec ByteMem SafeString.
Local Open Scope Z_scope.

(** ** Characters and arrays *)

Abbreviation char_range k c := (0 ≤ c < 256 ^ sizeof_char k) (only parsing).

(** The bytes of the characters [cs]. *)
Definition text (k : char_kind) (cs : list Z) : list Z := cs ≫= le_bytes (char_bytes k).

(** The memory holds the characters [cs] from [p] on. *)
Definition chars (k : char_kind) (m : byte_mem) (p : Z) (cs : list Z) : Prop :=
  Forall (λ c, char_range k c) cs ∧ buffer m p (text k cs).

Definition put_chars (k : char_kind) (m : byte_mem) (p : Z) (cs : list Z) : byte_mem := put m p (text k cs).

Definition chars_size (k : char_kind) (n : nat) : Z := sizeof_char k * Z.of_nat n.

Lemma sizeof_char_cases k : sizeof_char k = 1 ∨ sizeof_char k = 2.
Proof. destruct k; [by right|by left]. Qed.

Lemma low_bytes_le n x : low_bytes n x = le_bytes n x.
Proof.
  revert x. induction n as [|n IH]; intros x; [done|]. cbn [low_bytes le_bytes].
  change 0xff with (Z.ones 8). by rewrite Z.land_ones, Z.shiftr_div_pow2, IH by lia.
Qed.

Lemma length_text k cs : Z.of_nat (length (text k cs)) = chars_size k (length cs).
Proof.
  unfold text, chars_size, sizeof_char. induction cs as [|c cs IH]; [cbn; lia|].
  rewrite bind_cons, length_app, length_le_bytes. cbn [length]. lia.
Qed.

Lemma text_app k cs ds : text k (cs ++ ds) = text k cs ++ text k ds.
Proof. apply bind_app. Qed.

Lemma text_cons k c cs : text k (c :: cs) = le_bytes (char_bytes k) c ++ text k cs.
Proof. apply bind_cons. Qed.

Lemma text_singleton k c : text k [c] = le_bytes (char_bytes k) c.
Proof. by rewrite text_cons, app_nil_r. Qed.

Lemma le_bytes_bytes n x : bytes (le_bytes n x).
Proof.
  revert x. induction n as [|n IH]; intros x; [by constructor|]. cbn [le_bytes].
  apply Forall_cons_2; [apply Z.mod_pos_bound; lia|apply IH].
Qed.

Lemma text_bytes k cs : bytes (text k cs).
Proof.
  induction cs as [|c cs IH]; [by constructor|]. rewrite text_cons. apply Forall_app. split; [apply le_bytes_bytes|done].
Qed.

Lemma chars_app k m p cs ds :
  chars k m p (cs ++ ds) ↔ chars k m p cs ∧ chars k m (p + chars_size k (length cs)) ds.
Proof. unfold chars. rewrite Forall_app, text_app, buffer_app, length_text. tauto. Qed.

Lemma chars_cons k m p c cs :
  chars k m p (c :: cs) ↔ chars k m p [c] ∧ chars k m (p + sizeof_char k) cs.
Proof.
  change (c :: cs) with ([c] ++ cs). rewrite chars_app. unfold chars_size. cbn [length]. by rewrite Z.mul_1_r.
Qed.

Lemma chars_range k m p cs : chars k m p cs → Forall (λ c, char_range k c) cs.
Proof. by intros [? _]. Qed.

Lemma put_chars_chars k m p cs : Forall (λ c, char_range k c) cs → chars k (put_chars k m p cs) p cs.
Proof. intros Hr. split; [done|]. apply buffer_put, text_bytes. Qed.

Lemma put_chars_apart k m p cs k' q ds : chars k' m q ds →
  apart p (chars_size k (length cs)) q (chars_size k' (length ds)) → chars k' (put_chars k m p cs) q ds.
Proof.
  intros [Hr Hb] Ha. split; [done|]. apply buffer_put_apart; [done|]. by rewrite !length_text.
Qed.

Lemma put_chars_snoc k m p cs c :
  put_chars k m p (cs ++ [c]) = put (put_chars k m p cs) (p + chars_size k (length cs)) (le_bytes (char_bytes k) c).
Proof.
  unfold put_chars. rewrite text_app, put_app, length_text, text_singleton. done.
Qed.

(** ** Reading and writing a character *)

Lemma wp_read_char k p c (Q : Z → byte_mem → Prop) m : chars k m p [c] → Q c m → wp (read_char k p) Q m.
Proof.
  intros [Hr Hb] HQ. unfold read_char. apply wp_bind, wp_get. apply (wp_required c); [|done].
  rewrite Forall_singleton in Hr. rewrite text_singleton in Hb.
  by apply read_le_bytes.
Qed.

Lemma wp_write_bytes p l (Q : unit → byte_mem → Prop) m :
  mapped m p (Z.of_nat (length l)) → Q tt (put m p l) → wp (write_bytes p l) Q m.
Proof.
  revert m p. induction l as [|b l IH]; intros m p Hm HQ; [done|]. cbn [write_bytes length] in *.
  apply wp_bind, wp_write8; [apply Hm; lia|]. apply IH; [|done].
  apply (mapped_put m p [b]). intros i Hi. apply Hm. lia.
Qed.

Lemma wp_write_char k p c (Q : unit → byte_mem → Prop) m :
  mapped m p (sizeof_char k) → Q tt (put m p (le_bytes (char_bytes k) c)) → wp (write_char k p c) Q m.
Proof.
  intros Hm HQ. unfold write_char. rewrite low_bytes_le. apply wp_write_bytes; [|done].
  by rewrite length_le_bytes.
Qed.

(** ** Fuel *)

Lemma mapped_size m p n : mapped m p (Z.of_nat n) → (n ≤ size m)%nat.
Proof.
  intros Hm. assert (list_to_set (seqZ p (Z.of_nat n)) ⊆@{gset Z} dom m) as Hsub.
  { intros i. rewrite elem_of_list_to_set, elem_of_seqZ, elem_of_dom. intros Hi. by apply Hm. }
  apply subseteq_size in Hsub. rewrite size_list_to_set, length_seqZ, Nat2Z.id in Hsub by apply NoDup_seqZ.
  by rewrite size_dom in Hsub.
Qed.

Lemma chars_mapped k m p cs : chars k m p cs → mapped m p (chars_size k (length cs)).
Proof. intros [_ Hb]. rewrite <-length_text. by apply buffer_mapped. Qed.

(** There is fuel for every character of an array and one step more. *)
Lemma chars_fuel k m p cs : chars k m p cs → (length cs ≤ size m)%nat.
Proof.
  intros Hc%chars_mapped. apply (mapped_size m p). intros i Hi. apply Hc.
  unfold chars_size. destruct (sizeof_char_cases k) as [-> | ->]; lia.
Qed.

Lemma wp_memory_fuel (Q : nat → byte_mem → Prop) m : Q (S (size m)) m → wp memory_fuel Q m.
Proof. done. Qed.

(** ** Strings *)

Definition nonzero (cs : list Z) : Prop := Forall (λ c, c ≠ 0) cs.

(** [cs] are the characters before the NUL among the first [b] characters. *)
Definition string_upto (k : char_kind) (m : byte_mem) (p : Z) (b : nat) (cs : list Z) : Prop :=
  nonzero cs ∧ (length cs ≤ b)%nat ∧
  chars k m p (if decide (length cs < b)%nat then cs ++ [0] else cs).

Lemma string_upto_chars k m p b cs : string_upto k m p b cs → chars k m p cs.
Proof. intros (_ & _ & Hc). case_decide; [|done]. by apply chars_app in Hc as [? _]. Qed.

Lemma string_upto_end k m p b cs : string_upto k m p b cs → (length cs < b)%nat → chars k m p (cs ++ [0]).
Proof. intros (_ & _ & Hc) Hb. by case_decide. Qed.

Lemma chars_at k m p cs i c : chars k m p cs → cs !! i = Some c →
  chars k m (p + sizeof_char k * Z.of_nat i) [c].
Proof.
  intros Hc Hi. rewrite <-(take_drop_middle _ _ _ Hi) in Hc. apply chars_app in Hc as [_ Hc].
  apply chars_cons in Hc as [Hc _]. rewrite length_take in Hc. apply lookup_lt_Some in Hi.
  by replace (i `min` length cs)%nat with i in Hc by lia.
Qed.

(** ** StrnLenS *)

Lemma length_loop_run k m p b cs : string_upto k m p b cs → Z.of_nat b < 2 ^ 64 → (1 ≤ b)%nat →
  ∀ fuel i, (length cs - i < fuel)%nat → (i ≤ length cs)%nat → (i < b)%nat →
  length_loop fuel k p (Z.of_nat b) (Z.of_nat i) m = Some (Z.of_nat (length cs), m).
Proof.
  intros Hs Hb64 Hb1. pose proof Hs as (Hnz & Hlen & _).
  induction fuel as [|fuel IH]; intros i Hf Hi Hib; [lia|]. cbn [length_loop].
  destruct (decide (i = length cs)) as [->|Hne].
  - pose proof (string_upto_end _ _ _ _ _ Hs Hib) as He. apply chars_app in He as [_ He].
    apply wp_run, wp_bind, (wp_read_char k _ 0); [exact He|]. by apply wp_ret.
  - destruct (lookup_lt_is_Some_2 cs i ltac:(lia)) as [c Hc].
    pose proof (chars_at _ _ _ _ _ _ (string_upto_chars _ _ _ _ _ Hs) Hc) as Hch.
    assert (c ≠ 0) as Hc0 by (by eapply Forall_lookup_1 in Hnz).
    erewrite bind_run; [|apply wp_run, (wp_read_char k _ c); [exact Hch|done]].
    rewrite (proj2 (Z.eqb_neq c 0)) by done. cbn [negb]. rewrite Z.geb_leb.
    destruct (Z.leb_spec (Z.of_nat b - 1) (Z.of_nat i)).
    + by replace b with (length cs) by lia.
    + rewrite cast_id by (done || (cint_unfold; lia)).
      replace (Z.of_nat i + 1) with (Z.of_nat (S i)) by lia. apply IH; lia.
Qed.

Definition aligned (k : char_kind) (p : Z) : Prop := k = Unicode → p mod 2 = 0.

Lemma wp_aligned k p (Q : unit → byte_mem → Prop) m : aligned k p → Q tt m → wp (assert_aligned k p) Q m.
Proof.
  intros Ha HQ. destruct k; [|done]. apply wp_assert; [|done]. change 1 with (Z.ones 1).
  rewrite Z.land_ones by lia. by rewrite Ha.
Qed.

Lemma wp_LenS k m p b cs (Q : Z → byte_mem → Prop) : aligned k p → p ≠ 0 → Z.of_nat b < 2 ^ 64 →
  string_upto k m p b cs → Q (Z.of_nat (length cs)) m → wp (LenS k p (Z.of_nat b)) Q m.
Proof.
  intros Ha Hp Hb Hs HQ. unfold LenS. apply wp_bind, wp_aligned; [done|].
  rewrite (proj2 (Z.eqb_neq p 0)) by done. cbn [orb]. pose proof Hs as (_ & Hlen & _).
  destruct (Z.eqb_spec (Z.of_nat b) 0).
  - apply wp_ret. replace (length cs) with 0%nat in HQ by lia. exact HQ.
  - apply wp_bind, wp_memory_fuel. eapply run_wp; [|exact HQ].
    apply (length_loop_run k m p b cs Hs Hb ltac:(lia) _ 0); [|lia..].
    apply string_upto_chars, chars_fuel in Hs. lia.
Qed.

(** ** The copying loops *)

(** A character of one kind can be stored as the other. *)
Definition converts (ks kd : char_kind) (c : Z) : Prop := char_range kd c.

Lemma wp_convert ks kd c (Q : Z → byte_mem → Prop) m :
  char_range ks c → converts ks kd c → Q c m → wp (convert ks kd c) Q m.
Proof.
  unfold converts. intros Hs Hd HQ. destruct ks, kd; try done.
  - change (256 ^ sizeof_char Ascii) with 256 in Hd.
    apply wp_bind, wp_assert; [apply Z.ltb_lt; lia|]. apply wp_ret.
    rewrite cast_id by (done || (cint_unfold; lia)). exact HQ.
  - change (256 ^ sizeof_char Ascii) with 256 in Hs. apply wp_ret.
    rewrite (cast_id UINT8), cast_id by (done || (cint_unfold; lia)). exact HQ.
Qed.

Section copying.
Context (ks kd : char_kind) (m : byte_mem) (D P : Z) (cs : list Z).
Context (Hconv : Forall (converts ks kd) cs) (Hnz : nonzero cs).
Context (Hmap : mapped m D (chars_size kd (S (length cs)))).

Lemma source_kept ds i c : chars ks m P cs → apart P (chars_size ks (length cs)) D (chars_size kd (length ds)) →
  cs !! i = Some c → chars ks (put_chars kd m D ds) (P + sizeof_char ks * Z.of_nat i) [c].
Proof.
  intros Hc Ha Hi. apply (chars_at _ _ _ cs); [|done]. apply put_chars_apart; [done|].
  unfold apart in *. lia.
Qed.

(** One round of a loop: the character at [i] is stored. *)
Lemma wp_store_char i c (Q : unit → byte_mem → Prop) : cs !! i = Some c →
  Q tt (put_chars kd m D (take (S i) cs)) →
  wp (write_char kd (D + sizeof_char kd * Z.of_nat i) c) Q (put_chars kd m D (take i cs)).
Proof.
  intros Hi HQ. pose proof (lookup_lt_Some _ _ _ Hi). apply wp_write_char.
  - unfold put_chars. apply mapped_put. intros j Hj. apply Hmap. unfold chars_size.
    destruct (sizeof_char_cases kd) as [Hw|Hw]; rewrite Hw in *; lia.
  - rewrite (take_S_r _ _ _ Hi), put_chars_snoc in HQ. unfold chars_size in HQ.
    rewrite length_take in HQ. by replace (i `min` length cs)%nat with i in HQ by lia.
Qed.

Lemma wp_terminate (Q : unit → byte_mem → Prop) : Q tt (put_chars kd m D (cs ++ [0])) →
  wp (write_char kd (D + chars_size kd (length cs)) 0) Q (put_chars kd m D cs).
Proof.
  intros HQ. apply wp_write_char.
  - unfold put_chars. apply mapped_put. intros j Hj. apply Hmap. unfold chars_size in *.
    destruct (sizeof_char_cases kd) as [Hw|Hw]; rewrite Hw in *; lia.
  - by rewrite put_chars_snoc in HQ.
Qed.

Lemma copy_loop_run : chars ks m P (cs ++ [0]) →
  apart P (chars_size ks (S (length cs))) D (chars_size kd (S (length cs))) →
  ∀ fuel i, (i ≤ length cs)%nat → (length cs - i < fuel)%nat →
  copy_loop fuel ks kd (D + sizeof_char kd * Z.of_nat i) (P + sizeof_char ks * Z.of_nat i) (put_chars kd m D (take i cs))
    = Some (D + chars_size kd (length cs), put_chars kd m D cs).
Proof.
  intros Hc Ha. pose proof (proj1 (proj1 (chars_app _ _ _ _ _) Hc)) as Hcs.
  induction fuel as [|fuel IH]; intros i Hi Hf; [lia|]. cbn [copy_loop].
  destruct (decide (i = length cs)) as [->|Hne].
  - rewrite take_ge by lia. apply wp_run, wp_bind, (wp_read_char ks _ 0); [|by apply wp_ret].
    apply (chars_at _ _ _ (cs ++ [0])); [|by rewrite lookup_app_r, Nat.sub_diag by lia].
    apply put_chars_apart; [done|]. rewrite length_app. unfold apart, chars_size in *. cbn [length].
    destruct (sizeof_char_cases kd) as [Hw|Hw], (sizeof_char_cases ks) as [Hw'|Hw']; rewrite Hw, Hw' in *; lia.
  - destruct (lookup_lt_is_Some_2 cs i ltac:(lia)) as [c Hci].
    assert (c ≠ 0) as Hc0 by (by eapply Forall_lookup_1 in Hnz).
    apply wp_run. apply wp_bind, (wp_read_char ks _ c).
    { apply source_kept; [done| |done]. rewrite length_take. unfold apart, chars_size in *.
      destruct (sizeof_char_cases kd) as [Hw|Hw], (sizeof_char_cases ks) as [Hw'|Hw']; rewrite Hw, Hw' in *; lia. }
    rewrite (proj2 (Z.eqb_neq c 0)) by done. cbn [negb].
    apply wp_bind, wp_convert; [by eapply Forall_lookup_1 in Hci; [|exact (chars_range _ _ _ _ Hcs)]|by eapply Forall_lookup_1 in Hconv|].
    apply wp_bind, wp_store_char; [done|]. eapply run_wp; [|done].
    rewrite <-IH with (i := S i) by lia. rewrite !Nat2Z.inj_succ, !Z.mul_succ_r, !Z.add_assoc. done.
Qed.

(** The loop with a count stops at the count, or at the NUL before it. *)
Lemma ncopy_loop_run (k : char_kind) (Ek : ks = k) (Ed : kd = k) : chars k m P cs →
  apart P (chars_size k (length cs)) D (chars_size k (S (length cs))) →
  ∀ fuel i, (i ≤ length cs)%nat → (length cs - i < fuel)%nat →
  ncopy_loop fuel k (D + sizeof_char k * Z.of_nat i) (P + sizeof_char k * Z.of_nat i)
      (Z.of_nat (length cs) - Z.of_nat i) (put_chars k m D (take i cs))
    = Some (D + chars_size k (length cs), put_chars k m D cs).
Proof.
  intros Hcs Ha. induction fuel as [|fuel IH]; intros i Hi Hf; [lia|]. cbn [ncopy_loop].
  rewrite Z.gtb_ltb. destruct (Z.ltb_spec 0 (Z.of_nat (length cs) - Z.of_nat i)).
  - destruct (lookup_lt_is_Some_2 cs i ltac:(lia)) as [c Hci].
    assert (c ≠ 0) as Hc0 by (by eapply Forall_lookup_1 in Hnz).
    apply wp_run. apply wp_bind, (wp_read_char k _ c).
    { pose proof (λ ds H, source_kept ds i c H) as Hkeep. rewrite Ek, Ed in Hkeep.
      apply Hkeep; [done| |done]. rewrite length_take. unfold apart, chars_size in *.
      destruct (sizeof_char_cases k) as [Hw|Hw]; rewrite Hw in *; lia. }
    rewrite (proj2 (Z.eqb_neq c 0)) by done. cbn [negb].
    pose proof (wp_store_char i c) as Hst. rewrite Ed in Hst. apply wp_bind, Hst; [done|].
    eapply run_wp; [|done]. rewrite <-IH with (i := S i) by lia.
    rewrite !Nat2Z.inj_succ, !Z.mul_succ_r, !Z.add_assoc. f_equal. lia.
  - assert (i = length cs) as -> by lia. rewrite take_ge by lia. done.
Qed.

(** The loop of the conversions reads one character past those it stores. *)
Lemma nconvert_loop_run x : chars ks m P (cs ++ [x]) → Z.of_nat (length cs) < 2 ^ 64 →
  apart P (chars_size ks (S (length cs))) D (chars_size kd (S (length cs))) →
  ∀ fuel i, (i ≤ length cs)%nat → (length cs - i < fuel)%nat →
  nconvert_loop fuel ks kd (D + sizeof_char kd * Z.of_nat i) (P + sizeof_char ks * Z.of_nat i)
      (Z.of_nat (length cs) - Z.of_nat i) (Z.of_nat i) (put_chars kd m D (take i cs))
    = Some ((D + chars_size kd (length cs), Z.of_nat (length cs)), put_chars kd m D cs).
Proof.
  intros Hc H64 Ha. pose proof (proj1 (proj1 (chars_app _ _ _ _ _) Hc)) as Hcs.
  induction fuel as [|fuel IH]; intros i Hi Hf; [lia|]. cbn [nconvert_loop].
  assert (∀ c, (cs ++ [x]) !! i = Some c → chars ks (put_chars kd m D (take i cs)) (P + sizeof_char ks * Z.of_nat i) [c]) as Hread.
  { intros c Hci. apply (chars_at _ _ _ (cs ++ [x])); [|done]. apply put_chars_apart; [done|].
    rewrite length_app, length_take. unfold apart, chars_size in *. cbn [length].
    destruct (sizeof_char_cases kd) as [Hw|Hw], (sizeof_char_cases ks) as [Hw'|Hw']; rewrite Hw, Hw' in *; lia. }
  destruct (decide (i = length cs)) as [->|Hne].
  - apply wp_run, wp_bind, (wp_read_char ks _ x).
    { apply Hread. by rewrite lookup_app_r, Nat.sub_diag by lia. }
    rewrite Z.sub_diag, andb_false_r, take_ge by lia. by apply wp_ret.
  - destruct (lookup_lt_is_Some_2 cs i ltac:(lia)) as [c Hci].
    assert (c ≠ 0) as Hc0 by (by eapply Forall_lookup_1 in Hnz).
    apply wp_run. apply wp_bind, (wp_read_char ks _ c).
    { apply Hread. rewrite lookup_app_l; [done|lia]. }
    rewrite (proj2 (Z.eqb_neq c 0)), Z.gtb_ltb, (proj2 (Z.ltb_lt _ _)) by (done || lia). cbn [negb andb].
    apply wp_bind, wp_convert; [by eapply Forall_lookup_1 in Hci; [|exact (chars_range _ _ _ _ Hcs)]|by eapply Forall_lookup_1 in Hconv|].
    apply wp_bind, wp_store_char; [done|]. eapply run_wp; [|done].
    rewrite <-IH with (i := S i) by lia. rewrite (cast_id UINTN) by (done || (cint_unfold; lia)).
    rewrite !Nat2Z.inj_succ, !Z.mul_succ_r, !Z.add_assoc. f_equal; lia.
Qed.
End copying.

(** ** Overlap *)

Definition separate (D n P l : Z) : bool := (D + n <=? P) || (P + l <=? D).

Lemma separate_apart D n P l : separate D n P l = true ↔ apart P l D n.
Proof. unfold separate, apart. rewrite orb_true_iff, !Z.leb_le. lia. Qed.

Lemma is_overlap D n P l : 0 ≤ D → 0 ≤ P → 0 < n → 0 < l → D + n < 2 ^ 64 → P + l < 2 ^ 64 →
  InternalSafeStringIsOverlap D n P l = negb (separate D n P l).
Proof.
  intros HD HP Hn Hl HDn HPl. unfold InternalSafeStringIsOverlap, separate.
  rewrite !cast_id by (done || (cint_unfold; lia)). rewrite !Z.geb_leb.
  destruct (Z.leb_spec P D), (Z.ltb_spec D (P + l)), (Z.leb_spec D P), (Z.ltb_spec P (D + n)),
    (Z.leb_spec (D + n) P), (Z.leb_spec (P + l) D); cbn; first [reflexivity|lia].
Qed.

(** The test of the conversions. *)
Lemma overlap_separate kd ks D max P n : 0 ≤ D → 0 ≤ P → (0 < max)%nat →
  D + chars_size kd max < 2 ^ 64 → P + chars_size ks (S n) < 2 ^ 64 →
  negb (InternalSafeStringIsOverlap D (cast UINTN (Z.of_nat max * sizeof_char kd))
      P (cast UINTN (cast UINTN (Z.of_nat n + 1) * sizeof_char ks))) =
    separate D (chars_size kd max) P (chars_size ks (S n)).
Proof.
  intros HD HP Hmax HDm HPn. unfold chars_size in *.
  assert (1 ≤ sizeof_char kd ≤ 2) as Hd by (destruct kd; done).
  assert (1 ≤ sizeof_char ks ≤ 2) as Hs by (destruct ks; done).
  rewrite (cast_id UINTN (Z.of_nat n + 1)), !cast_id by (done || (cint_unfold; nia)).
  rewrite is_overlap, negb_involutive by nia. f_equal; lia.
Qed.

(** The test of a function is the separation of the two arrays. *)
Lemma no_overlap_separate k D max P n : 0 ≤ D → 0 ≤ P → (0 < max)%nat →
  D + chars_size k max < 2 ^ 64 → P + chars_size k (S n) < 2 ^ 64 →
  no_overlap k D (Z.of_nat max) P (cast UINTN (Z.of_nat n + 1)) =
    separate D (chars_size k max) P (chars_size k (S n)).
Proof.
  intros HD HP Hmax HDm HPn. unfold chars_size in *.
  assert (∀ b, negb (negb b) = b) as Hneg by (by intros []).
  destruct k; cbn [no_overlap]; unfold InternalSafeStringNoStrOverlap, InternalSafeStringNoAsciiStrOverlap.
  - change (sizeof_char Unicode) with 2 in *. rewrite (cast_id UINTN (Z.of_nat n + 1)), !cast_id by (done || (cint_unfold; lia)).
    rewrite is_overlap, Hneg by lia. f_equal; lia.
  - change (sizeof_char Ascii) with 1 in *. rewrite !cast_id by (done || (cint_unfold; lia)).
    rewrite is_overlap, Hneg by lia. f_equal; lia.
Qed.

(** ** Safe strings: what the copies and appends do

    Each function against its effect on lists of characters: which status it
    returns, and that on success the string and its NUL are stored inside of the
    DestMax characters of the destination; on an error memory is unchanged. *)

(** The buffer of [max] characters that the caller passes. *)
Record dest_ok (k : char_kind) (m : byte_mem) (D : Z) (max : nat) : Prop := DestOk {
  dest_aligned : aligned k D;
  dest_pos : 0 < D;
  dest_end : D + chars_size k max < 2 ^ 64;
  dest_max : Z.of_nat max < 2 ^ 64;
  dest_room : mapped m D (chars_size k max)
}.

(** A source of [n] characters and one more. *)
Record source_ok (k : char_kind) (P : Z) (n : nat) : Prop := SourceOk {
  source_aligned : aligned k P;
  source_pos : 0 < P;
  source_end : P + chars_size k (S n) < 2 ^ 64
}.

(** The outcome once the lengths have been accepted. *)
Definition store_string (kd ks : char_kind) (m : byte_mem) (D : Z) (max : nat) (P : Z) (pos : Z) (cs : list Z)
    : option (Z * byte_mem) :=
  if separate D (chars_size kd max) P (chars_size ks (S (length cs)))
  then Some (RETURN_SUCCESS, put_chars kd m pos (cs ++ [0]))
  else Some (RETURN_ACCESS_DENIED, m).

Lemma check_true {A} (b : bool) (s : A) k : b = true → SAFE_STRING_CONSTRAINT_CHECK b s k = k.
Proof. by intros ->. Qed.

Lemma check_false {A} (b : bool) (s : A) k : b = false → SAFE_STRING_CONSTRAINT_CHECK b s k = mret s.
Proof. by intros ->. Qed.

Lemma run_aligned {A} k p (c : M byte_mem A) m : aligned k p → (assert_aligned k p;; c) m = c m.
Proof.
  intros Ha. assert (assert_aligned k p m = Some (tt, m)) as Hrun by by apply wp_run, wp_aligned.
  by rewrite (bind_run _ _ _ _ _ Hrun).
Qed.

Lemma run_LenS {A} k m p b cs (c : Z → M byte_mem A) : aligned k p → p ≠ 0 → Z.of_nat b < 2 ^ 64 →
  string_upto k m p b cs → (LenS k p (Z.of_nat b) ≫= c) m = c (Z.of_nat (length cs)) m.
Proof.
  intros. assert (LenS k p (Z.of_nat b) m = Some (Z.of_nat (length cs), m)) as Hrun by (apply wp_run; by eapply wp_LenS).
  by rewrite (bind_run _ _ _ _ _ Hrun).
Qed.

(** What follows the checks. *)
Lemma copy_tail ks kd m pos P cs : Forall (converts ks kd) cs → nonzero cs →
  mapped m pos (chars_size kd (S (length cs))) → chars ks m P (cs ++ [0]) →
  apart P (chars_size ks (S (length cs))) pos (chars_size kd (S (length cs))) →
  (fuel ← memory_fuel; d ← copy_loop fuel ks kd pos P; write_char kd d 0;; mret RETURN_SUCCESS) m
    = Some (RETURN_SUCCESS, put_chars kd m pos (cs ++ [0])).
Proof.
  intros Hconv Hnz Hmap Hc Ha. pose proof (chars_fuel _ _ _ _ Hc) as Hf. rewrite length_app in Hf. cbn [length] in Hf.
  apply wp_run, wp_bind, wp_memory_fuel. apply wp_bind.
  pose proof (copy_loop_run ks kd m pos P cs Hconv Hnz Hmap Hc Ha (S (size m)) 0 ltac:(lia) ltac:(lia)) as Hrun.
  change (Z.of_nat 0) with 0 in Hrun. rewrite !Z.mul_0_r, !Z.add_0_r in Hrun.
  eapply run_wp; [exact Hrun|]. by apply wp_bind, wp_terminate.
Qed.

Lemma self_converts k cs : Forall (λ c, char_range k c) cs → Forall (converts k k) cs.
Proof. done. Qed.

Lemma ncopy_tail k m pos P cs : nonzero cs → chars k m P cs →
  mapped m pos (chars_size k (S (length cs))) →
  apart P (chars_size k (length cs)) pos (chars_size k (S (length cs))) →
  (fuel ← memory_fuel; d ← ncopy_loop fuel k pos P (Z.of_nat (length cs)); write_char k d 0;; mret RETURN_SUCCESS) m
    = Some (RETURN_SUCCESS, put_chars k m pos (cs ++ [0])).
Proof.
  intros Hnz Hc Hmap Ha. pose proof (chars_fuel _ _ _ _ Hc) as Hf.
  apply wp_run, wp_bind, wp_memory_fuel. apply wp_bind.
  pose proof (ncopy_loop_run k k m pos P cs Hnz Hmap k eq_refl eq_refl Hc Ha
    (S (size m)) 0 ltac:(lia) ltac:(lia)) as Hrun.
  change (Z.of_nat 0) with 0 in Hrun. rewrite Z.sub_0_r, !Z.mul_0_r, !Z.add_0_r in Hrun.
  eapply run_wp; [exact Hrun|]. by apply wp_bind, wp_terminate.
Qed.

(** Below [DestMax] characters there is room for the string and its NUL. *)
Lemma room_for k m D max i n : mapped m D (chars_size k max) → (i + n < max)%nat →
  mapped m (D + chars_size k i) (chars_size k (S n)).
Proof.
  intros Hm Hn j Hj. apply Hm. unfold chars_size in *.
  destruct (sizeof_char_cases k) as [Hw|Hw]; rewrite Hw in *; lia.
Qed.

Lemma apart_tail k D max i P n l : (i + n < max)%nat →
  apart P l D (chars_size k max) → 0 ≤ l → apart P l (D + chars_size k i) (chars_size k (S n)).
Proof.
  unfold apart, chars_size. destruct (sizeof_char_cases k) as [Hw|Hw]; rewrite Hw; lia.
Qed.

Section operations.
Context (RSIZE_MAX ASCII_RSIZE_MAX : Z).
Abbreviation within := (within_rsize RSIZE_MAX ASCII_RSIZE_MAX).
Context (k : char_kind) (m : byte_mem) (D P : Z) (max : nat).
Context (HD : dest_ok k m D max) (Hlim : within k (Z.of_nat max) = true) (Hmax : (0 < max)%nat).

Abbreviation copied pos cs := (store_string k k m D max P pos cs).

(** Pass the checks that a proper call passes. *)
Ltac passes := rewrite check_true by
  (solve [done | apply negb_true_iff, Z.eqb_neq; lia
    | rewrite Z.gtb_ltb; apply Z.ltb_lt; lia]).

(** The last check and the copy. *)
Lemma run_store pos i cs (loop : M byte_mem Z) :
  source_ok k P (length cs) → pos = D + chars_size k i → (i + length cs < max)%nat →
  (apart P (chars_size k (S (length cs))) pos (chars_size k (S (length cs))) →
   mapped m pos (chars_size k (S (length cs))) →
   loop m = Some (RETURN_SUCCESS, put_chars k m pos (cs ++ [0]))) →
  SAFE_STRING_CONSTRAINT_CHECK
    (no_overlap k D (Z.of_nat max) P (cast UINTN (Z.of_nat (length cs) + 1))) RETURN_ACCESS_DENIED loop m
  = copied pos cs.
Proof.
  intros [_ HP HPend] -> Hfit Hloop. destruct HD as [_ HD0 HDend _ Hroom].
  rewrite no_overlap_separate by (done || lia). unfold store_string.
  destruct (separate _ _ _ _) eqn:Hsep; [|done]. apply separate_apart in Hsep. cbn [SAFE_STRING_CONSTRAINT_CHECK].
  apply Hloop; [|by eapply room_for]. apply (apart_tail k D max); [lia|done|].
  unfold chars_size. destruct (sizeof_char_cases k) as [Hw|Hw]; rewrite Hw; lia.
Qed.

Lemma CpyS_run cs : source_ok k P (length cs) → string_upto k m P max cs →
  CpyS RSIZE_MAX ASCII_RSIZE_MAX k D (Z.of_nat max) P m =
    if decide (length cs = max) then Some (RETURN_BUFFER_TOO_SMALL, m) else copied D cs.
Proof.
  intros HPok Hs. pose proof HPok as [HPa HP HPend]. pose proof HD as [HDa HD0 HDend Hm64 Hroom].
  unfold CpyS. rewrite !run_aligned by done. do 4 passes.
  rewrite (run_LenS k m P max cs) by (done || lia). pose proof Hs as (Hnz & Hlen & _).
  case_decide as Hd; [rewrite check_false by (rewrite Z.gtb_ltb; apply Z.ltb_ge; lia); done|]. passes.
  apply (run_store D 0 cs); [done|unfold chars_size; lia|lia|]. intros Ha Hm.
  pose proof (string_upto_end _ _ _ _ _ Hs ltac:(lia)) as Hc. apply copy_tail; try done.
  apply self_converts. by apply (chars_range k m P), (string_upto_chars _ _ _ max).
Qed.

(** The source is separate from a part of the destination. *)
Lemma source_apart pos n : apart P (chars_size k (S n)) pos (chars_size k (S n)) →
  apart P (chars_size k n) pos (chars_size k (S n)).
Proof. unfold apart, chars_size. destruct (sizeof_char_cases k) as [Hw|Hw]; rewrite Hw; lia. Qed.

Lemma nCpyS_run len cs : source_ok k P (length cs) → within k (Z.of_nat len) = true →
  string_upto k m P (max `min` len) cs →
  nCpyS RSIZE_MAX ASCII_RSIZE_MAX k D (Z.of_nat max) P (Z.of_nat len) m =
    if decide (length cs = max) then Some (RETURN_BUFFER_TOO_SMALL, m) else copied D cs.
Proof.
  intros HPok Hlen Hs. pose proof HPok as [HPa HP HPend]. pose proof HD as [HDa HD0 HDend Hm64 Hroom].
  unfold nCpyS. rewrite !run_aligned by done. do 5 passes. rewrite <-Nat2Z.inj_min.
  rewrite (run_LenS k m P (max `min` len) cs) by (done || lia). pose proof Hs as (Hnz & Hle & _).
  case_decide as Hd.
  { rewrite check_false; [done|]. rewrite Z.geb_leb, Z.gtb_ltb.
    destruct (Z.leb_spec (Z.of_nat max) (Z.of_nat len)); [apply Z.ltb_ge; lia|lia]. }
  rewrite check_true by (rewrite Z.gtb_ltb; case_match; [apply Z.ltb_lt; lia|done]).
  rewrite Z.gtb_ltb, (proj2 (Z.ltb_ge _ _)) by lia. cbv zeta.
  apply (run_store D 0 cs); [done|unfold chars_size; lia|lia|]. intros Ha Hm.
  apply ncopy_tail; [done|by eapply string_upto_chars|done|by apply source_apart].
Qed.

Lemma CatS_run ds cs : string_upto k m D max ds → source_ok k P (length cs) →
  string_upto k m P (max - length ds) cs →
  CatS RSIZE_MAX ASCII_RSIZE_MAX k D (Z.of_nat max) P m =
    if decide (length ds = max) then Some (RETURN_BAD_BUFFER_SIZE, m) else
    if decide (length cs = max - length ds)%nat then Some (RETURN_BUFFER_TOO_SMALL, m) else
    copied (D + chars_size k (length ds)) cs.
Proof.
  intros Hds HPok Hs. pose proof HPok as [HPa HP HPend]. pose proof HD as [HDa HD0 HDend Hm64 Hroom].
  pose proof Hds as (_ & Hdl & _). unfold CatS. rewrite !run_aligned by done.
  rewrite (run_LenS k m D max ds) by (done || lia). cbv zeta.
  replace (Z.of_nat max - Z.of_nat (length ds)) with (Z.of_nat (max - length ds)) by lia.
  rewrite cast_id by (done || (cint_unfold; lia)). do 4 passes. case_decide as Hd0.
  { rewrite check_false; [done|]. apply negb_false_iff, Z.eqb_eq. lia. }
  passes. rewrite (run_LenS k m P (max - length ds) cs) by (done || lia). pose proof Hs as (Hnz & Hle & _).
  case_decide as Hd; [rewrite check_false by (rewrite Z.gtb_ltb; apply Z.ltb_ge; lia); done|]. passes.
  apply (run_store _ (length ds) cs); [done|done|lia|]. intros Ha Hm.
  pose proof (string_upto_end _ _ _ _ _ Hs ltac:(lia)) as Hc. apply copy_tail; try done.
  apply self_converts. by apply (chars_range k m P), (string_upto_chars _ _ _ (max - length ds)).
Qed.

Lemma nCatS_run len ds cs : string_upto k m D max ds → source_ok k P (length cs) →
  within k (Z.of_nat len) = true → string_upto k m P ((max - length ds) `min` len) cs →
  nCatS RSIZE_MAX ASCII_RSIZE_MAX k D (Z.of_nat max) P (Z.of_nat len) m =
    if decide (length ds = max) then Some (RETURN_BAD_BUFFER_SIZE, m) else
    if decide (length cs = max - length ds)%nat then Some (RETURN_BUFFER_TOO_SMALL, m) else
    copied (D + chars_size k (length ds)) cs.
Proof.
  intros Hds HPok Hlen Hs. pose proof HPok as [HPa HP HPend]. pose proof HD as [HDa HD0 HDend Hm64 Hroom].
  pose proof Hds as (_ & Hdl & _). unfold nCatS. rewrite !run_aligned by done.
  rewrite (run_LenS k m D max ds) by (done || lia). cbv zeta.
  replace (Z.of_nat max - Z.of_nat (length ds)) with (Z.of_nat (max - length ds)) by lia.
  rewrite cast_id by (done || (cint_unfold; lia)). do 5 passes. case_decide as Hd0.
  { rewrite check_false; [done|]. apply negb_false_iff, Z.eqb_eq. lia. }
  passes. rewrite <-Nat2Z.inj_min.
  rewrite (run_LenS k m P ((max - length ds) `min` len) cs) by (done || lia). pose proof Hs as (Hnz & Hle & _).
  case_decide as Hd.
  { rewrite check_false; [done|]. rewrite Z.geb_leb, Z.gtb_ltb.
    destruct (Z.leb_spec (Z.of_nat (max - length ds)) (Z.of_nat len)); [apply Z.ltb_ge; lia|lia]. }
  rewrite check_true by (rewrite Z.gtb_ltb; case_match; [apply Z.ltb_lt; lia|done]).
  rewrite Z.gtb_ltb, (proj2 (Z.ltb_ge _ _)) by lia.
  apply (run_store _ (length ds) cs); [done|done|lia|]. intros Ha Hm.
  apply ncopy_tail; [done|by eapply string_upto_chars|done|by apply source_apart].
Qed.
End operations.

(** ** Conversions *)

Section conversions.
Context (RSIZE_MAX ASCII_RSIZE_MAX : Z).
Abbreviation within := (within_rsize RSIZE_MAX ASCII_RSIZE_MAX).
Context (ks kd : char_kind) (m : byte_mem) (D P : Z) (max : nat).
Context (HD : dest_ok kd m D max) (Hmax : (0 < max)%nat).
Context (Hlimd : within kd (Z.of_nat max) = true) (Hlims : within ks (Z.of_nat max) = true).

Ltac passes := rewrite check_true by
  (solve [done | apply negb_true_iff, Z.eqb_neq; lia
    | rewrite Z.gtb_ltb; apply Z.ltb_lt; lia]).

Lemma converted_room n : (n < max)%nat → apart P (chars_size ks (S n)) D (chars_size kd max) →
  apart P (chars_size ks (S n)) D (chars_size kd (S n)) ∧ mapped m D (chars_size kd (S n)).
Proof.
  intros Hn Ha. replace D with (D + chars_size kd 0) at 1 2 by (unfold chars_size; lia). split.
  - apply (apart_tail kd D max 0); [lia|done|].
    unfold chars_size. destruct (sizeof_char_cases ks) as [Hw|Hw]; rewrite Hw; lia.
  - apply (room_for kd m D max 0); [by destruct HD|lia].
Qed.

Lemma ConvertS_run cs : source_ok ks P (length cs) → string_upto ks m P max cs → Forall (converts ks kd) cs →
  ConvertS RSIZE_MAX ASCII_RSIZE_MAX ks kd P D (Z.of_nat max) m =
    if decide (length cs = max) then Some (RETURN_BUFFER_TOO_SMALL, m)
    else store_string kd ks m D max P D cs.
Proof.
  intros HPok Hs Hconv. pose proof HPok as [HPa HP HPend]. pose proof HD as [HDa HD0 HDend Hm64 Hroom].
  unfold ConvertS. rewrite !run_aligned by done. do 5 passes.
  rewrite (run_LenS ks m P max cs) by (done || lia). pose proof Hs as (Hnz & Hlen & _).
  case_decide as Hd; [rewrite check_false by (rewrite Z.gtb_ltb; apply Z.ltb_ge; lia); done|]. passes.
  rewrite overlap_separate by (done || lia). unfold store_string.
  destruct (separate _ _ _ _) eqn:Hsep; [|done]. apply separate_apart, converted_room in Hsep as [Ha Hm]; [|lia].
  rewrite check_true by done. apply copy_tail; try done. apply (string_upto_end _ _ _ max); [done|lia].
Qed.

Lemma nConvertS_run cs len n0 : let out := take len cs in
  source_ok ks P (length out) → string_upto ks m P max cs → Forall (converts ks kd) out →
  within kd (Z.of_nat len) = true → within ks (Z.of_nat len) = true →
  nConvertS RSIZE_MAX ASCII_RSIZE_MAX ks kd P (Z.of_nat len) D (Z.of_nat max) (Some n0) m =
    if decide (length out = max) then Some ((RETURN_BUFFER_TOO_SMALL, Some n0), m)
    else if separate D (chars_size kd max) P (chars_size ks (S (length out)))
    then Some ((RETURN_SUCCESS, Some (Z.of_nat (length out))), put_chars kd m D (out ++ [0]))
    else Some ((RETURN_ACCESS_DENIED, Some n0), m).
Proof.
  intros out HPok Hs Hconv Hld Hls. pose proof HPok as [HPa HP HPend]. pose proof HD as [HDa HD0 HDend Hm64 Hroom].
  unfold nConvertS. rewrite !run_aligned by done. cbv zeta.
  do 2 passes. rewrite (check_true (bool_decide _)) by by apply bool_decide_eq_true_2. do 5 passes.
  rewrite (run_LenS ks m P max cs) by (done || lia). pose proof Hs as (Hnz & Hlen & _).
  pose proof (length_take cs len) as Hout. fold out in Hout. case_decide as Hd.
  { rewrite check_false; [done|]. rewrite Z.geb_leb, Z.gtb_ltb.
    destruct (Z.leb_spec (Z.of_nat max) (Z.of_nat len)); [apply Z.ltb_ge; lia|lia]. }
  rewrite check_true by (rewrite Z.geb_leb, Z.gtb_ltb;
    destruct (Z.leb_spec (Z.of_nat max) (Z.of_nat len)); [apply Z.ltb_lt; lia|done]).
  assert ((if Z.of_nat (length cs) >? Z.of_nat len then Z.of_nat len else Z.of_nat (length cs)) = Z.of_nat (length out)) as ->
    by (rewrite Z.gtb_ltb; destruct (Z.ltb_spec (Z.of_nat len) (Z.of_nat (length cs))); lia).
  rewrite overlap_separate by (done || lia).
  destruct (separate _ _ _ _) eqn:Hsep; [|done]. apply separate_apart, converted_room in Hsep as [Ha Hm]; [|lia].
  rewrite check_true by done. pose proof (string_upto_chars _ _ _ _ _ Hs) as Hcs.
  assert (∃ x, chars ks m P (out ++ [x])) as [x Hx].
  { destruct (decide (length out < length cs)%nat) as [Hlt|Hge].
    - destruct (lookup_lt_is_Some_2 cs (length out) Hlt) as [x Hx]. exists x.
      assert (length out = len) as El by lia. rewrite El in Hx. unfold out. rewrite <-(take_S_r _ _ _ Hx).
      rewrite <-(take_drop (S len) cs) in Hcs. by apply chars_app in Hcs as [? _].
    - exists 0. assert (out = cs) as -> by (apply take_ge; lia). apply (string_upto_end _ _ _ max); [done|lia]. }
  pose proof (chars_fuel _ _ _ _ Hx) as Hf. rewrite length_app in Hf. cbn [length] in Hf.
  assert (nonzero out) as Hnzo by (by apply Forall_take).
  apply wp_run, wp_bind, wp_memory_fuel. apply wp_bind.
  pose proof (nconvert_loop_run ks kd m D P out Hconv Hnzo Hm x Hx ltac:(lia) Ha (S (size m)) 0 ltac:(lia) ltac:(lia)) as Hrun.
  change (Z.of_nat 0) with 0 in Hrun. rewrite Z.sub_0_r, !Z.mul_0_r, !Z.add_0_r in Hrun.
  eapply run_wp; [exact Hrun|]. by apply wp_bind, wp_terminate.
Qed.
End conversions.

(** ** The claims *)

(** A call that breaks one of the first three constraints. *)
Definition bad_call (RSIZE_MAX ASCII_RSIZE_MAX : Z) (k : char_kind) (D max P : Z) : Prop :=
  D = 0 ∨ P = 0 ∨ max = 0 ∨ within_rsize RSIZE_MAX ASCII_RSIZE_MAX k max = false.

(** The checks at the head of the functions. *)
Section refused.
Context (RSIZE_MAX ASCII_RSIZE_MAX : Z) (k : char_kind) (D max P : Z) (rest : M byte_mem Z) (m : byte_mem).
Let within := within_rsize RSIZE_MAX ASCII_RSIZE_MAX k.
Let check b c := SAFE_STRING_CONSTRAINT_CHECK (A := Z) b RETURN_INVALID_PARAMETER c.

Lemma refused_4 : bad_call RSIZE_MAX ASCII_RSIZE_MAX k D max P →
  check (negb (D =? 0)) (check (negb (P =? 0)) (check (within max) (check (negb (max =? 0)) rest))) m = Some (RETURN_INVALID_PARAMETER, m).
Proof.
  unfold check, within, SAFE_STRING_CONSTRAINT_CHECK. intros [-> |[-> |[-> | ->]]]; by repeat (case_match; [|done]).
Qed.

Lemma refused_5 len : bad_call RSIZE_MAX ASCII_RSIZE_MAX k D max P ∨ within_rsize RSIZE_MAX ASCII_RSIZE_MAX k len = false →
  check (negb (D =? 0)) (check (negb (P =? 0)) (check (within max) (check (within len) (check (negb (max =? 0)) rest)))) m
    = Some (RETURN_INVALID_PARAMETER, m).
Proof.
  unfold check, within, SAFE_STRING_CONSTRAINT_CHECK. intros [[-> |[-> |[-> | ->]]]| ->]; by repeat (case_match; [|done]).
Qed.
End refused.

(** StrCatS and StrnCatS measure the destination before they look at their arguments. *)
Definition measurable (k : char_kind) (m : byte_mem) (D max : Z) : Prop :=
  D = 0 ∨ max = 0 ∨ ∃ b ds, max = Z.of_nat b ∧ max < 2 ^ 64 ∧ string_upto k m D b ds.

Lemma run_LenS_measurable {A} k m D max : aligned k D → measurable k m D max →
  ∃ n, ∀ c : Z → M byte_mem A, (LenS k D max ≫= c) m = c n m.
Proof.
  intros Ha Hm. destruct (Z.eq_dec D 0) as [->|HD].
  { exists 0. intros c. apply (bind_run _ _ _ _ _ (run_aligned k 0 _ m Ha)). }
  destruct (Z.eq_dec max 0) as [->|Hmax].
  { exists 0. intros c. eapply bind_run. unfold LenS. rewrite run_aligned by done. by rewrite (proj2 (Z.eqb_neq D 0)). }
  destruct Hm as [?|[?|(b & ds & -> & Hb & Hs)]]; [done|done|]. exists (Z.of_nat (length ds)). intros c. by eapply run_LenS.
Qed.

(** C10: the four copying functions, for CHAR16 and CHAR8 strings alike.  With [cs]
    the string at Source as far as the function may look (DestMax characters,
    Length if that is less, or the room that is left) they store exactly [cs] and
    a NUL, at the start of Destination or at the end [ds] of its string, and
    return RETURN_SUCCESS; when [cs] and its NUL do not fit they return
    RETURN_BUFFER_TOO_SMALL, when the destination is full already
    RETURN_BAD_BUFFER_SIZE, when the source shares memory with the DestMax
    characters of the destination RETURN_ACCESS_DENIED, and for a NULL pointer or
    a size that is 0 or above the configured maximum RETURN_INVALID_PARAMETER
    (StrCatS and StrnCatS measure the destination first, which has to be readable
    as far as they look unless it is NULL or of size 0); an error leaves memory as
    it was. *)
Theorem safe_strings_exact RSIZE_MAX ASCII_RSIZE_MAX k m D P max len ds cs :
  dest_ok k m D max → (0 < max)%nat → source_ok k P (length cs) →
  within_rsize RSIZE_MAX ASCII_RSIZE_MAX k (Z.of_nat max) = true →
  within_rsize RSIZE_MAX ASCII_RSIZE_MAX k (Z.of_nat len) = true →
  let copied pos := store_string k k m D max P pos cs in
  let too_small := Some (RETURN_BUFFER_TOO_SMALL, m) in
  (string_upto k m P max cs →
    CpyS RSIZE_MAX ASCII_RSIZE_MAX k D (Z.of_nat max) P m =
      if decide (length cs = max) then too_small else copied D) ∧
  (string_upto k m P (max `min` len) cs →
    nCpyS RSIZE_MAX ASCII_RSIZE_MAX k D (Z.of_nat max) P (Z.of_nat len) m =
      if decide (length cs = max) then too_small else copied D) ∧
  (string_upto k m D max ds →
    let room := (max - length ds)%nat in
    let outcome := if decide (length ds = max) then Some (RETURN_BAD_BUFFER_SIZE, m) else
      if decide (length cs = room) then too_small else copied (D + chars_size k (length ds)) in
    (string_upto k m P room cs → CatS RSIZE_MAX ASCII_RSIZE_MAX k D (Z.of_nat max) P m = outcome) ∧
    (string_upto k m P (room `min` len) cs →
      nCatS RSIZE_MAX ASCII_RSIZE_MAX k D (Z.of_nat max) P (Z.of_nat len) m = outcome)) ∧
  (∀ D' P' max' len', aligned k D' → aligned k P' →
    (bad_call RSIZE_MAX ASCII_RSIZE_MAX k D' max' P' →
      CpyS RSIZE_MAX ASCII_RSIZE_MAX k D' max' P' m = Some (RETURN_INVALID_PARAMETER, m)) ∧
    (bad_call RSIZE_MAX ASCII_RSIZE_MAX k D' max' P' ∨ within_rsize RSIZE_MAX ASCII_RSIZE_MAX k len' = false →
      nCpyS RSIZE_MAX ASCII_RSIZE_MAX k D' max' P' len' m = Some (RETURN_INVALID_PARAMETER, m)) ∧
    (measurable k m D' max' → bad_call RSIZE_MAX ASCII_RSIZE_MAX k D' max' P' →
      CatS RSIZE_MAX ASCII_RSIZE_MAX k D' max' P' m = Some (RETURN_INVALID_PARAMETER, m)) ∧
    (measurable k m D' max' → bad_call RSIZE_MAX ASCII_RSIZE_MAX k D' max' P' ∨ within_rsize RSIZE_MAX ASCII_RSIZE_MAX k len' = false →
      nCatS RSIZE_MAX ASCII_RSIZE_MAX k D' max' P' len' m = Some (RETURN_INVALID_PARAMETER, m))).
Proof.
  intros HD Hmax HP Hlim Hlen. cbv zeta. split_and!.
  - intros Hs. by apply CpyS_run.
  - intros Hs. by apply nCpyS_run.
  - intros Hds. split; intros Hs; [by apply CatS_run|by apply nCatS_run].
  - intros D' P' max' len' HD' HP'. split_and!; [intros Hbad|intros Hbad|intros Hm Hbad|intros Hm Hbad].
    + unfold CpyS. rewrite !run_aligned by done. by apply refused_4.
    + unfold nCpyS. rewrite !run_aligned by done. by apply refused_5.
    + unfold CatS. rewrite !run_aligned by done. destruct (run_LenS_measurable (A := Z) k m D' max' HD' Hm) as [n ->]. by apply refused_4.
    + unfold nCatS. rewrite !run_aligned by done. destruct (run_LenS_measurable (A := Z) k m D' max' HD' Hm) as [n ->]. by apply refused_5.
Qed.

Lemma string_upto_whole k m p b cs : nonzero cs → (length cs < b)%nat → chars k m p (cs ++ [0]) → string_upto k m p b cs.
Proof. intros Hnz Hb Hc. split_and!; [done|lia|]. by case_decide. Qed.

Lemma dest_ok_put k m D max k' p cs : dest_ok k m D max → dest_ok k (put_chars k' m p cs) D max.
Proof. intros [? ? ? ? Hm]. split; try done. by apply mapped_put. Qed.

Lemma ascii_char_range cs : Forall (λ c, char_range Ascii c) cs → Forall (λ c, char_range Unicode c) cs.
Proof.
  intros Hc. eapply Forall_impl; [exact Hc|]. intros c. cbv beta. change (256 ^ sizeof_char Ascii) with 256. change (256 ^ sizeof_char Unicode) with 65536. lia.
Qed.

(** C25: an Ascii string that fits is stored as a Unicode string with the same
    character codes and converting that back stores the original string; with a
    Length, as many characters as that, and their number is returned.  The
    DestMax characters of the destination must not meet the source. *)
Theorem conversion_roundtrip RSIZE_MAX ASCII_RSIZE_MAX m P D E max max2 len n0 cs :
  let within k n := within_rsize RSIZE_MAX ASCII_RSIZE_MAX k (Z.of_nat n) = true in
  source_ok Ascii P (length cs) → dest_ok Unicode m D max → dest_ok Ascii m E max2 →
  nonzero cs → chars Ascii m P (cs ++ [0]) → (length cs < max)%nat → (length cs < max2)%nat →
  within Unicode max → within Ascii max → within Unicode max2 → within Ascii max2 →
  within Unicode len → within Ascii len →
  separate D (chars_size Unicode max) P (chars_size Ascii (S (length cs))) = true →
  separate E (chars_size Ascii max2) D (chars_size Unicode (S (length cs))) = true →
  ∃ m1 m2 m3,
    AsciiStrToUnicodeStrS RSIZE_MAX ASCII_RSIZE_MAX P D (Z.of_nat max) m = Some (RETURN_SUCCESS, m1) ∧
    chars Unicode m1 D (cs ++ [0]) ∧
    UnicodeStrToAsciiStrS RSIZE_MAX ASCII_RSIZE_MAX D E (Z.of_nat max2) m1 = Some (RETURN_SUCCESS, m2) ∧
    chars Ascii m2 E (cs ++ [0]) ∧
    UnicodeStrnToAsciiStrS RSIZE_MAX ASCII_RSIZE_MAX D (Z.of_nat len) E (Z.of_nat max2) (Some n0) m1
      = Some ((RETURN_SUCCESS, Some (Z.of_nat (len `min` length cs))), m3) ∧
    chars Ascii m3 E (take len cs ++ [0]).
Proof.
  intros within HP HD HE Hnz Hc Hmax Hmax2 HUmax HAmax HUmax2 HAmax2 HUlen HAlen Hsep1 Hsep2.
  pose proof (chars_range _ _ _ _ Hc) as Hr. apply Forall_app in Hr as [Hra H0].
  pose proof (ascii_char_range _ Hra) as Hru. pose proof HD as [HDa HD0 HDend _ _].
  assert (∀ k, Forall (λ c, char_range k c) [0]) as Hzero by (intros []; by repeat constructor).
  assert (chars Unicode (put_chars Unicode m D (cs ++ [0])) D (cs ++ [0])) as Hu
    by (apply put_chars_chars, Forall_app; done).
  assert (source_ok Unicode D (length cs)) as HDs.
  { split; [done|done|]. unfold chars_size in *. change (sizeof_char Unicode) with 2 in *. lia. }
  exists (put_chars Unicode m D (cs ++ [0])). do 2 eexists. split_and!.
  - unfold AsciiStrToUnicodeStrS. rewrite (ConvertS_run _ _ Ascii Unicode m D P max HD) with (cs := cs);
      [|lia|done|done|done|by apply string_upto_whole|done].
    case_decide; [lia|]. unfold store_string. by rewrite Hsep1.
  - done.
  - unfold UnicodeStrToAsciiStrS.
    rewrite (ConvertS_run _ _ Unicode Ascii _ E D max2) with (cs := cs);
      [|by apply dest_ok_put|lia|done|done|done|by apply string_upto_whole|done].
    case_decide; [lia|]. unfold store_string. by rewrite Hsep2.
  - by apply put_chars_chars, Forall_app.
  - unfold UnicodeStrnToAsciiStrS. pose proof (length_take cs len) as Hlt.
    rewrite (nConvertS_run _ _ Unicode Ascii _ E D max2) with (cs := cs);
      [|by apply dest_ok_put|lia|done|done| |by apply string_upto_whole|by apply Forall_take|done|done].
    + case_decide; [lia|]. rewrite Hlt.
      assert (separate E (chars_size Ascii max2) D (chars_size Unicode (S (len `min` length cs))) = true) as ->.
      { apply separate_apart. apply separate_apart in Hsep2. unfold apart, chars_size in *.
        change (sizeof_char Unicode) with 2 in *. lia. }
      done.
    + rewrite Hlt. destruct HDs as [? ? He]. split; [done|done|]. unfold chars_size in *.
      change (sizeof_char Unicode) with 2 in *. lia.
  - apply put_chars_chars, Forall_app. split; [by apply Forall_take|done].
Qed.

(** ** Witnesses *)

Definition ex_string : list Z := [102; 119].
Definition ex_buffers : byte_mem :=
  put_chars Ascii (put_chars Ascii (put ∅ 32 (replicate 16 0)) 16 (ex_string ++ [0])) 64 [120; 0; 0; 0; 0; 0].

Lemma safe_strings_exact_witness :
  AsciiStrCatS 0 100 64 6 16 ex_buffers = Some (RETURN_SUCCESS, put_chars Ascii ex_buffers 65 [102; 119; 0]) ∧
  AsciiStrCpyS 0 100 64 2 16 ex_buffers = Some (RETURN_BUFFER_TOO_SMALL, ex_buffers).
Proof.
  assert (source_ok Ascii 16 2) as HP by (by split).
  assert (chars Ascii ex_buffers 16 (ex_string ++ [0])) as Hsrc.
  { apply put_chars_apart; [apply put_chars_chars; by repeat constructor|by right]. }
  assert (chars Ascii ex_buffers 64 [120; 0; 0; 0; 0; 0]) as Hdst by (apply put_chars_chars; by repeat constructor).
  assert (∀ n, (n ≤ 6)%nat → dest_ok Ascii ex_buffers 64 n) as HD.
  { intros n Hn. split; [done|done|unfold chars_size; change (sizeof_char Ascii) with 1; lia|lia|].
    eapply mapped_sub; [apply (chars_mapped _ _ _ _ Hdst)|lia|unfold chars_size; cbn [length]; change (sizeof_char Ascii) with 1; lia]. }
  split.
  - destruct (safe_strings_exact 0 100 Ascii ex_buffers 64 16 6 0 [120] ex_string) as (_ & _ & Hcat & _);
      [by apply HD; lia|lia|done..|].
    apply Hcat; [split_and!; [by repeat constructor|cbn; lia|]|apply string_upto_whole; [by repeat constructor|cbn; lia|done]].
    cbn. by apply (chars_app Ascii ex_buffers 64 [120; 0]) in Hdst as [? _].
  - destruct (safe_strings_exact 0 100 Ascii ex_buffers 64 16 2 0 [] ex_string) as (Hcpy & _);
      [by apply HD; lia|lia|done..|].
    apply Hcpy. split_and!; [by repeat constructor|cbn; lia|]. cbn. by apply (chars_app Ascii ex_buffers 16 ex_string) in Hsrc as [? _].
Defined.

Lemma conversion_roundtrip_witness : ∃ m1 m2 m3,
  AsciiStrToUnicodeStrS 0 0 16 32 4 ex_buffers = Some (RETURN_SUCCESS, m1) ∧
  chars Unicode m1 32 (ex_string ++ [0]) ∧
  UnicodeStrToAsciiStrS 0 0 32 64 6 m1 = Some (RETURN_SUCCESS, m2) ∧ chars Ascii m2 64 (ex_string ++ [0]) ∧
  UnicodeStrnToAsciiStrS 0 0 32 1 64 6 (Some 7) m1 = Some ((RETURN_SUCCESS, Some 1), m3) ∧
  chars Ascii m3 64 [102; 0].
Proof.
  apply (conversion_roundtrip 0 0 ex_buffers 16 32 64 4 6 1 7 ex_string); try done.
  - split; [done|done|done|done|]. unfold ex_buffers, put_chars. do 2 apply mapped_put.
    eapply mapped_sub; [apply put_mapped|lia|by vm_compute].
  - split; [done|done|done|done|]. unfold ex_buffers, put_chars.
    eapply mapped_sub; [apply put_mapped|lia|by vm_compute].
  - by repeat constructor.
  - apply put_chars_apart; [apply put_chars_chars; by repeat constructor|by right].
  - cbn. lia.
  - cbn. lia.
Defined.
