(* ===== verification/ByteOrder.v ===== *)
(** * Byte order

    The integers of byte lists in both orders, and what SwapBytes16 and SwapBytes32
    do to them. *)
From S2P Require Import Prelude CBase Math64 Math64Spec CheckSum CheckSumSpec ByteMem SafeString SafeStringSpec.
Local Open Scope Z_scope.

Definition be_bytes (n : nat) (v : Z) : list Z := reverse (le_bytes n v).

Lemma lor_bytes w a b : 0 ≤ w → 0 ≤ b < 2 ^ w → Z.lor (a * 2 ^ w) b = a * 2 ^ w + b.
Proof.
  intros Hw Hb. rewrite <-Z.shiftl_mul_pow2 by done. rewrite Z.add_nocarry_lxor, Z.lxor_lor; [done|..];
    rewrite ?Z.lxor_lor; try done; apply Z.bits_inj'; intros i Hi; rewrite Z.land_spec, Z.bits_0;
    (destruct (decide (i < w)); [rewrite Z.shiftl_spec_low by done; done|]);
    rewrite (bits_above w b i) by (cint_unfold; lia); by rewrite andb_false_r.
Qed.

Lemma SwapBytes16_value a b : 0 ≤ a < 256 → 0 ≤ b < 256 → SwapBytes16 (a + 256 * b) = a * 256 + b.
Proof.
  intros Ha Hb. unfold SwapBytes16. rewrite Z.shiftl_mul_pow2, Z.shiftr_div_pow2 by done. change (2 ^ 8) with 256.
  replace ((a + 256 * b) / 256) with b by (apply (Z.div_unique _ _ _ a); lia).
  pose proof (lor_bytes 8 (a + 256 * b) b ltac:(done) ltac:(done)) as Hlor. change (2 ^ 8) with 256 in Hlor. rewrite Hlor.
  unfold cast. cbn [signed width UINT16]. change (2 ^ 16) with 65536. symmetry. apply (Z.mod_unique _ _ b); lia.
Qed.

Lemma SwapBytes32_value x y : 0 ≤ x < 65536 → 0 ≤ y < 65536 →
  SwapBytes32 (x + 65536 * y) = SwapBytes16 x * 65536 + SwapBytes16 y.
Proof.
  intros Hx Hy. pose proof (swap16_range x) as H1. pose proof (swap16_range y) as H2. unfold SwapBytes32.
  assert (cast UINT16 (x + 65536 * y) = x) as ->.
  { unfold cast. cbn [signed width UINT16]. change (2 ^ 16) with 65536. symmetry. apply (Z.mod_unique _ _ y); lia. }
  rewrite Z.shiftr_div_pow2 by done. change (2 ^ 16) with 65536.
  replace ((x + 65536 * y) / 65536) with y by (apply (Z.div_unique _ _ _ x); lia).
  rewrite (cast_id UINT16 y) by (done || (cint_unfold; lia)).
  rewrite !(cast_id UINT32 (SwapBytes16 _)) by (done || (cint_unfold; lia)).
  rewrite Z.shiftl_mul_pow2 by done. rewrite cast_id by (done || (cint_unfold; lia)). apply lor_bytes; [done|cint_unfold; lia].
Qed.

Lemma divide_byte v : 0 ≤ v → v = v mod 256 + 256 * (v / 256) ∧ 0 ≤ v mod 256 < 256 ∧ 0 ≤ v / 256.
Proof. intros Hv. pose proof (Z.div_mod v 256 ltac:(done)). pose proof (Z.mod_pos_bound v 256 ltac:(done)).
  pose proof (Z.div_pos v 256 Hv ltac:(done)). lia. Qed.

Lemma be_value16 v : 0 ≤ v < 2 ^ 16 → SwapBytes16 (le_value (be_bytes 2 v)) = v.
Proof.
  intros Hv. change (2 ^ 16) with 65536 in Hv. destruct (divide_byte v ltac:(lia)) as (Hq & Hr & Hp).
  change (be_bytes 2 v) with [(v / 256) mod 256; v mod 256]. rewrite (Z.mod_small (v / 256)) by lia.
  unfold le_value. cbn [foldr]. rewrite Z.mul_0_r, Z.add_0_r. rewrite SwapBytes16_value by lia. lia.
Qed.

Lemma be_value32 v : 0 ≤ v < 2 ^ 32 → SwapBytes32 (le_value (be_bytes 4 v)) = v.
Proof.
  intros Hv. change (2 ^ 32) with 4294967296 in Hv. destruct (divide_byte v ltac:(lia)) as (Hq0 & Hr0 & Hp0).
  destruct (divide_byte (v / 256) Hp0) as (Hq1 & Hr1 & Hp1).
  destruct (divide_byte (v / 256 / 256) Hp1) as (Hq2 & Hr2 & Hp2).
  change (be_bytes 4 v) with [(v / 256 / 256 / 256) mod 256; (v / 256 / 256) mod 256; (v / 256) mod 256; v mod 256].
  rewrite (Z.mod_small (v / 256 / 256 / 256)) by lia. unfold le_value. cbn [foldr].
  set (a := v mod 256) in *. set (b := (v / 256) mod 256) in *. set (c := (v / 256 / 256) mod 256) in *.
  set (e := v / 256 / 256 / 256) in *.
  replace (e + 256 * (c + 256 * (b + 256 * (a + 256 * 0)))) with ((e + 256 * c) + 65536 * (b + 256 * a)) by ring.
  rewrite SwapBytes32_value, !SwapBytes16_value by lia. lia.
Qed.

Lemma length_be_bytes n v : length (be_bytes n v) = n.
Proof. unfold be_bytes. by rewrite length_reverse, length_le_bytes. Qed.

(** ** Little-endian integers *)

Lemma le_bytes_value l : bytes l → le_bytes (length l) (le_value l) = l.
Proof.
  induction l as [|b l IH]; intros Hl; [done|]. apply Forall_cons in Hl as [Hb Hl]. unfold byte in Hb.
  cbn [length le_bytes le_value foldr]. fold (le_value l). f_equal.
  - symmetry. apply (Z.mod_unique _ _ (le_value l)); lia.
  - replace ((b + 256 * le_value l) / 256) with (le_value l) by (apply (Z.div_unique _ _ _ b); lia). by apply IH.
Qed.

Lemma le_value_range l : bytes l → 0 ≤ le_value l < 256 ^ Z.of_nat (length l).
Proof.
  induction l as [|b l IH]; intros Hl; [done|]. apply Forall_cons in Hl as [Hb Hl]. unfold byte in Hb.
  specialize (IH Hl). cbn [length le_value foldr]. fold (le_value l). rewrite Nat2Z.inj_succ, Z.pow_succ_r by lia. lia.
Qed.

Lemma swapped16 l : bytes l → length l = 2%nat → le_bytes 2 (SwapBytes16 (le_value l)) = reverse l.
Proof.
  intros Hl Hn. assert (bytes (reverse l)) as Hr by by apply Forall_reverse.
  pose proof (le_bytes_value _ Hr) as Hv. pose proof (le_value_range _ Hr) as Hrange. rewrite length_reverse, Hn in *.
  rewrite <-(reverse_involutive l) at 1. rewrite <-Hv at 1. fold (be_bytes 2 (le_value (reverse l))).
  by rewrite be_value16.
Qed.

Lemma swapped32 l : bytes l → length l = 4%nat → le_bytes 4 (SwapBytes32 (le_value l)) = reverse l.
Proof.
  intros Hl Hn. assert (bytes (reverse l)) as Hr by by apply Forall_reverse.
  pose proof (le_bytes_value _ Hr) as Hv. pose proof (le_value_range _ Hr) as Hrange. rewrite length_reverse, Hn in *.
  rewrite <-(reverse_involutive l) at 1. rewrite <-Hv at 1. fold (be_bytes 4 (le_value (reverse l))).
  by rewrite be_value32.
Qed.

(** ** Storing bytes *)

Lemma put_put m p l1 l2 : length l1 = length l2 → put (put m p l1) p l2 = put m p l2.
Proof.
  intros Hl. apply map_eq. intros i. destruct (decide (p ≤ i < p + Z.of_nat (length l2))) as [Hi|Hi].
  - replace i with (p + Z.of_nat (Z.to_nat (i - p))) by lia. by rewrite !lookup_put by lia.
  - by rewrite !lookup_put_ne by lia.
Qed.

Lemma write_bytes_run p l m : mapped m p (Z.of_nat (length l)) → write_bytes p l m = Some (tt, put m p l).
Proof. intros Hm. apply wp_run. by apply wp_write_bytes. Qed.
