(* ===== verification/StrConvert.v ===== *)
(** * Strings to integers (MdePkg/Library/BaseLib/SafeString.c and String.c)

    The decimal and hexadecimal conversions.  EndPointer and Data are [None] for a
    NULL pointer and otherwise the value pointed to, which is returned updated.
    A CHAR8 is modelled unsigned; the tests below only hold of ASCII characters,
    so that its sign does not matter. *)
From S2P Require Import Prelude CBase Math64 CheckSum ByteMem SafeString.
Local Open Scope Z_scope.

(** ** Classes of characters *)

Definition InternalIsDecimalDigitCharacter (Char : Z) : bool := (Char >=? 48) && (Char <=? 57).

Definition CharToUpper (Char : Z) : Z :=
  if (Char >=? 97) && (Char <=? 122) then cast UINT16 (Char - (97 - 65)) else Char.

Definition InternalHexCharToUintn (Char : Z) : Z :=
  if InternalIsDecimalDigitCharacter Char then Char - 48
  else cast UINTN (10 + CharToUpper Char - 65).

Definition InternalIsHexaDecimalDigitCharacter (Char : Z) : bool :=
  InternalIsDecimalDigitCharacter Char || ((Char >=? 65) && (Char <=? 70)) || ((Char >=? 97) && (Char <=? 102)).

Definition InternalAsciiIsDecimalDigitCharacter (Char : Z) : bool := (Char >=? 48) && (Char <=? 57).

Definition InternalAsciiIsHexaDecimalDigitCharacter (Char : Z) : bool :=
  InternalAsciiIsDecimalDigitCharacter Char || ((Char >=? 65) && (Char <=? 70)) || ((Char >=? 97) && (Char <=? 102)).

Definition AsciiCharToUpper (Chr : Z) : Z :=
  cast UINT8 (if (Chr >=? 97) && (Chr <=? 122) then Chr - (97 - 65) else Chr).

Definition InternalAsciiHexCharToUintn (Char : Z) : Z :=
  if InternalIsDecimalDigitCharacter Char then Char - 48
  else cast UINTN (10 + AsciiCharToUpper Char - 65).

Definition is_decimal (k : char_kind) : Z → bool :=
  match k with Unicode => InternalIsDecimalDigitCharacter | Ascii => InternalAsciiIsDecimalDigitCharacter end.
Definition is_hex (k : char_kind) : Z → bool :=
  match k with Unicode => InternalIsHexaDecimalDigitCharacter | Ascii => InternalAsciiIsHexaDecimalDigitCharacter end.
Definition to_upper (k : char_kind) : Z → Z :=
  match k with Unicode => CharToUpper | Ascii => AsciiCharToUpper end.
Definition hex_value (k : char_kind) : Z → Z :=
  match k with Unicode => InternalHexCharToUintn | Ascii => InternalAsciiHexCharToUintn end.

(** ** The loops *)

(** while (p ( *String)) String++; *)
Fixpoint skip_loop (fuel : nat) (k : char_kind) (p : Z → bool) (String : Z) : M byte_mem Z :=
  match fuel with
  | O => fails
  | S fuel =>
    c ← read_char k String;
    if p c then skip_loop fuel k p (String + sizeof_char k) else mret String
  end.

Definition pad_space (c : Z) : bool := (c =? 32) || (c =? 9).
Definition leading_zero (c : Z) : bool := c =? 48.

(** One digit more, or [None] when the number does not fit: the arithmetic of the
    UINTN functions and of the UINT64 functions. *)
Definition decimal_uintn (Data d : Z) : M byte_mem (option Z) :=
  if Data >? (MAX_UINTN - d) / 10 then mret None else mret (Some (cast UINTN (Data * 10 + d))).

Definition decimal_uint64 (Data d : Z) : M byte_mem (option Z) :=
  q ← required (DivU64x32 (MAX_UINT64 - d) 10);
  if Data >? q then mret None else mret (Some (cast UINT64 (MultU64x32 Data 10 + d))).

Definition hex_uintn (Data d : Z) : M byte_mem (option Z) :=
  if Data >? Z.shiftr (MAX_UINTN - d) 4 then mret None
  else mret (Some (cast UINTN (cast UINTN (Z.shiftl Data 4) + d))).

Definition hex_uint64 (Data d : Z) : M byte_mem (option Z) :=
  q ← required (RShiftU64 (MAX_UINT64 - d) 4);
  if Data >? q then mret None
  else (h ← required (LShiftU64 Data 4); mret (Some (cast UINT64 (h + d)))).

(** The digits; the pointer at the end and [None] for a number that does not fit. *)
Fixpoint digits_loop (fuel : nat) (k : char_kind) (digit : Z → bool) (value : Z → Z)
    (step : Z → Z → M byte_mem (option Z)) (String Data : Z) : M byte_mem (Z * option Z) :=
  match fuel with
  | O => fails
  | S fuel =>
    c ← read_char k String;
    if digit c then
      r ← step Data (value c);
      match r with
      | None => mret (String, None)
      | Some Data => digits_loop fuel k digit value step (String + sizeof_char k) Data
      end
    else mret (String, Some Data)
  end.

(** ** The functions *)

Definition number_result : Type := Z * option Z * option Z.

(** if (EndPointer != NULL) *EndPointer = v. *)
Definition set_pointer (EndPointer : option Z) (v : Z) : option Z := (λ _, v) <$> EndPointer.

(** The end of a conversion; [max] is stored when the number does not fit. *)
Definition converted (EndPointer : option Z) (max : Z) (r : Z * option Z) : number_result :=
  match r with
  | (String, None) => (RETURN_UNSUPPORTED, set_pointer EndPointer String, Some max)
  | (String, Some Data) => (RETURN_SUCCESS, set_pointer EndPointer String, Some Data)
  end.

Section limits.
Context (RSIZE_MAX ASCII_RSIZE_MAX : Z).
Abbreviation rsize_max := (rsize_max RSIZE_MAX ASCII_RSIZE_MAX).

(** The constraints on String and Data; PcdGet32 gives a UINT32. *)
Definition number_constraints (k : char_kind) (String : Z) (EndPointer Data : option Z)
    (body : M byte_mem number_result) : M byte_mem number_result :=
  let failed := (RETURN_INVALID_PARAMETER, EndPointer, Data) in
  assert_aligned k String;;
  SAFE_STRING_CONSTRAINT_CHECK (negb (String =? 0)) failed
  (SAFE_STRING_CONSTRAINT_CHECK (bool_decide (is_Some Data)) failed
   (if negb (rsize_max k =? 0) then
      n ← LenS k String (cast UINT32 (rsize_max k + 1));
      SAFE_STRING_CONSTRAINT_CHECK (n <=? rsize_max k) failed body
    else body)).

Definition DecimalToIntegerS (step : Z → Z → M byte_mem (option Z)) (max : Z) (k : char_kind)
    (String : Z) (EndPointer Data : option Z) : M byte_mem number_result :=
  number_constraints k String EndPointer Data (
    fuel ← memory_fuel;
    String ← skip_loop fuel k pad_space String;
    String ← skip_loop fuel k leading_zero String;
    r ← digits_loop fuel k (is_decimal k) (λ c, c - 48) step String 0;
    mret (converted EndPointer max r)).

Definition HexToIntegerS (step : Z → Z → M byte_mem (option Z)) (max : Z) (k : char_kind)
    (String : Z) (EndPointer Data : option Z) : M byte_mem number_result :=
  number_constraints k String EndPointer Data (
    let EndPointer := set_pointer EndPointer String in
    fuel ← memory_fuel;
    String ← skip_loop fuel k pad_space String;
    String ← skip_loop fuel k leading_zero String;
    let digits String :=
      r ← digits_loop fuel k (is_hex k) (hex_value k) step String 0;
      mret (converted EndPointer max r) in
    c ← read_char k String;
    if to_upper k c =? 88 then
      before ← read_char k (String - sizeof_char k);
      if negb (before =? 48) then mret (RETURN_SUCCESS, EndPointer, Some 0)
      else digits (String + sizeof_char k)
    else digits String).

Definition StrDecimalToUintnS := DecimalToIntegerS decimal_uintn MAX_UINTN Unicode.
Definition StrDecimalToUint64S := DecimalToIntegerS decimal_uint64 MAX_UINT64 Unicode.
Definition StrHexToUintnS := HexToIntegerS hex_uintn MAX_UINTN Unicode.
Definition StrHexToUint64S := HexToIntegerS hex_uint64 MAX_UINT64 Unicode.
Definition AsciiStrDecimalToUintnS := DecimalToIntegerS decimal_uintn MAX_UINTN Ascii.
Definition AsciiStrDecimalToUint64S := DecimalToIntegerS decimal_uint64 MAX_UINT64 Ascii.
Definition AsciiStrHexToUintnS := HexToIntegerS hex_uintn MAX_UINTN Ascii.
Definition AsciiStrHexToUint64S := HexToIntegerS hex_uint64 MAX_UINT64 Ascii.

(** The functions of String.c return their local variable Result, which a refused
    string leaves uninitialized. *)
Definition result_of (r : number_result) : M byte_mem Z :=
  let '(Status, _, Result) := r in
  if Status =? RETURN_INVALID_PARAMETER then fails else required Result.

Definition StrDecimalToUintn (String : Z) : M byte_mem Z :=
  r ← StrDecimalToUintnS String None (Some 0); result_of r.
Definition StrDecimalToUint64 (String : Z) : M byte_mem Z :=
  r ← StrDecimalToUint64S String None (Some 0); result_of r.
Definition StrHexToUintn (String : Z) : M byte_mem Z :=
  r ← StrHexToUintnS String None (Some 0); result_of r.
Definition StrHexToUint64 (String : Z) : M byte_mem Z :=
  r ← StrHexToUint64S String None (Some 0); result_of r.
Definition AsciiStrDecimalToUintn (String : Z) : M byte_mem Z :=
  r ← AsciiStrDecimalToUintnS String None (Some 0); result_of r.
Definition AsciiStrDecimalToUint64 (String : Z) : M byte_mem Z :=
  r ← AsciiStrDecimalToUint64S String None (Some 0); result_of r.
Definition AsciiStrHexToUintn (String : Z) : M byte_mem Z :=
  r ← AsciiStrHexToUintnS String None (Some 0); result_of r.
Definition AsciiStrHexToUint64 (String : Z) : M byte_mem Z :=
  r ← AsciiStrHexToUint64S String None (Some 0); result_of r.
End limits.
