(* ===== verification/StrConvertSpec.v ===== *)
(** * Strings to integers: the value of a string

    The conversions against the value of the longest run of digits after the
    spaces, in unbounded integers. *)
From S2P Require Import Prelude CBase Math64 Math64Spec CheckSum CheckSumSpec ByteMem SafeString SafeStringSpec.
From S2P Require Import StrConvert.
Local Open Scope Z_scope.

(** ** The value of a run of digits *)

Section digits.
Context (base : Z) (f : Z → Z) (max : Z).

Fixpoint value_from (acc : Z) (ds : list Z) : Z :=
  match ds with [] => acc | c :: ds => value_from (acc * base + f c) ds end.

Definition value : list Z → Z := value_from 0.

(** The first digit with which the value exceeds [max]. *)
Fixpoint overflow_at (acc : Z) (ds : list Z) : nat :=
  match ds with
  | [] => 0
  | c :: ds => if acc * base + f c >? max then 0%nat else S (overflow_at (acc * base + f c) ds)
  end.

Context (digit : Z → bool) (Hbase : 1 ≤ base).
Context (Hdigit : ∀ c, digit c = true → 0 ≤ f c < base).

Lemma value_from_le acc ds : 0 ≤ acc → Forall (λ c, digit c = true) ds → acc ≤ value_from acc ds.
Proof.
  revert acc. induction ds as [|c ds IH]; intros acc Ha Hds; cbn [value_from]; [lia|].
  apply Forall_cons in Hds as [Hc Hds]. apply Hdigit in Hc.
  pose proof (IH (acc * base + f c) ltac:(nia) Hds). nia.
Qed.

Lemma overflow_at_spec acc ds : 0 ≤ acc ≤ max → Forall (λ c, digit c = true) ds → max < value_from acc ds →
  value_from acc (take (overflow_at acc ds) ds) ≤ max < value_from acc (take (S (overflow_at acc ds)) ds).
Proof.
  revert acc. induction ds as [|c ds IH]; intros acc Ha Hds Hv; cbn [value_from] in Hv; [lia|].
  apply Forall_cons in Hds as [Hc Hds]. apply Hdigit in Hc. cbn [overflow_at]. rewrite Z.gtb_ltb.
  destruct (Z.ltb_spec max (acc * base + f c)).
  - cbn [take value_from]. rewrite take_0. cbn [value_from]. lia.
  - cbn [take value_from]. apply IH; [nia|done|done].
Qed.

(** The string position and the number at the end of the digits. *)
Definition scan (acc : Z) (cs : list Z) : nat * option Z :=
  let ds := take_while digit cs in
  if value_from acc ds >? max then (overflow_at acc ds, None) else (length ds, Some (value_from acc ds)).

Lemma scan_cons acc c cs : 0 ≤ acc → digit c = true →
  scan acc (c :: cs) =
    if acc * base + f c >? max then (0%nat, None)
    else let '(n, r) := scan (acc * base + f c) cs in (S n, r).
Proof.
  intros Ha Hc. unfold scan. cbn [take_while]. rewrite Hc. cbn [value_from overflow_at].
  pose proof (Hdigit _ Hc). pose proof (value_from_le (acc * base + f c) (take_while digit cs) ltac:(nia) (take_while_all _ _)).
  rewrite !Z.gtb_ltb. destruct (Z.ltb_spec max (acc * base + f c)).
  - by rewrite (proj2 (Z.ltb_lt _ _)) by lia.
  - by case_match.
Qed.

Lemma scan_stop acc c cs : acc ≤ max → digit c = false → scan acc (c :: cs) = (0%nat, Some acc).
Proof.
  intros Ha Hc. unfold scan. cbn [take_while]. rewrite Hc. cbn. rewrite Z.gtb_ltb.
  by rewrite (proj2 (Z.ltb_ge _ _)).
Qed.

Context (step : Z → Z → M byte_mem (option Z)) (k : char_kind).
Context (Hstep : ∀ Data d m, 0 ≤ Data ≤ max → 0 ≤ d < base →
  step Data d m = Some (if Data * base + d >? max then None else Some (Data * base + d), m)).

(** The loop computes the value. *)
Lemma digits_loop_run m p cs : chars k m p (cs ++ [0]) → digit 0 = false →
  ∀ fuel i acc, (i ≤ length cs)%nat → (length cs - i < fuel)%nat → 0 ≤ acc ≤ max →
  digits_loop fuel k digit f step (p + sizeof_char k * Z.of_nat i) acc m =
    Some (let '(n, r) := scan acc (drop i cs) in (p + sizeof_char k * Z.of_nat (i + n), r), m).
Proof.
  intros Hc H0. induction fuel as [|fuel IH]; intros i acc Hi Hf Ha; [lia|]. cbn [digits_loop].
  destruct (decide (i = length cs)) as [->|Hne].
  - apply wp_run, wp_bind, (wp_read_char k _ 0).
    { apply (chars_at _ _ _ (cs ++ [0])); [done|]. by rewrite lookup_app_r, Nat.sub_diag by lia. }
    rewrite H0. apply wp_ret. split; [done|]. rewrite drop_ge by lia. unfold scan. cbn. rewrite Z.gtb_ltb.
    rewrite (proj2 (Z.ltb_ge _ _)) by lia. by rewrite Nat.add_0_r.
  - destruct (lookup_lt_is_Some_2 cs i ltac:(lia)) as [c Hci].
    apply wp_run, wp_bind, (wp_read_char k _ c).
    { apply (chars_at _ _ _ (cs ++ [0])); [done|]. by apply lookup_app_l_Some. }
    rewrite (drop_S _ _ _ Hci). destruct (digit c) eqn:Hd.
    + apply wp_bind. eapply run_wp; [apply Hstep; [done|by apply Hdigit]|].
      rewrite scan_cons by (done || lia). destruct (acc * base + f c >? max) eqn:Hov.
      * apply wp_ret. by rewrite Nat.add_0_r.
      * rewrite Z.gtb_ltb in Hov. apply Z.ltb_ge in Hov. pose proof (Hdigit _ Hd).
        replace (p + sizeof_char k * Z.of_nat i + sizeof_char k) with (p + sizeof_char k * Z.of_nat (S i)) by lia.
        eapply run_wp; [apply IH; [lia|lia|nia]|]. split; [done|].
        destruct (scan _ _) as [n r]. by rewrite Nat.add_succ_comm.
    + apply wp_ret. split; [done|]. rewrite scan_stop by (done || lia). by rewrite Nat.add_0_r.
Qed.
End digits.

(** ** Skipping *)

Lemma skip_loop_run k m p cs q : chars k m p (cs ++ [0]) → q 0 = false →
  ∀ fuel i, (i ≤ length cs)%nat → (length cs - i < fuel)%nat →
  skip_loop fuel k q (p + sizeof_char k * Z.of_nat i) m =
    Some (p + sizeof_char k * Z.of_nat (i + length (take_while q (drop i cs))), m).
Proof.
  intros Hc H0. induction fuel as [|fuel IH]; intros i Hi Hf; [lia|]. cbn [skip_loop].
  destruct (decide (i = length cs)) as [->|Hne].
  - apply wp_run, wp_bind, (wp_read_char k _ 0).
    { apply (chars_at _ _ _ (cs ++ [0])); [done|]. by rewrite lookup_app_r, Nat.sub_diag by lia. }
    rewrite H0, drop_ge by lia. cbn. by rewrite Nat.add_0_r.
  - destruct (lookup_lt_is_Some_2 cs i ltac:(lia)) as [c Hci].
    apply wp_run, wp_bind, (wp_read_char k _ c).
    { apply (chars_at _ _ _ (cs ++ [0])); [done|]. by apply lookup_app_l_Some. }
    rewrite (drop_S _ _ _ Hci). cbn [take_while]. destruct (q c).
    + replace (p + sizeof_char k * Z.of_nat i + sizeof_char k) with (p + sizeof_char k * Z.of_nat (S i)) by lia.
      eapply run_wp; [apply IH; lia|]. split; [done|]. cbn [length]. by rewrite Nat.add_succ_comm.
    + apply wp_ret. by rewrite Nat.add_0_r.
Qed.

(** ** Strings to integers: the conversions are exact *)

(** ** Digits *)

Definition decimal (c : Z) : Z := c - 48.
Definition hexadecimal (c : Z) : Z := if c <=? 57 then c - 48 else if c <=? 70 then c - 55 else c - 87.

Lemma is_decimal_digit k c : is_decimal k c = true → 48 ≤ c ≤ 57.
Proof. intros Hc. destruct k; cbn in Hc; unfold InternalIsDecimalDigitCharacter, InternalAsciiIsDecimalDigitCharacter in Hc; bool_hyps; bool_hyps; lia. Qed.

Definition hex_ok (k : char_kind) (c : Z) : bool :=
  if is_hex k c then (hex_value k c =? hexadecimal c) && (0 <=? hexadecimal c) && (hexadecimal c <? 16) else true.

Lemma is_hex_range k c : is_hex k c = true → 48 ≤ c < 103.
Proof.
  intros Hc. destruct k; cbn in Hc; unfold InternalIsHexaDecimalDigitCharacter, InternalAsciiIsHexaDecimalDigitCharacter,
    InternalIsDecimalDigitCharacter, InternalAsciiIsDecimalDigitCharacter in Hc; bool_hyps; repeat bool_hyps; lia.
Qed.

Lemma is_hex_digit k c : is_hex k c = true → hex_value k c = hexadecimal c ∧ 0 ≤ hexadecimal c < 16.
Proof.
  intros Hc. assert (forallb (hex_ok k) (seqZ 48 55) = true) as Hall by (destruct k; by vm_compute).
  rewrite forallb_forall in Hall. pose proof (is_hex_range k c Hc).
  specialize (Hall c ltac:(apply list_elem_of_In, elem_of_seqZ; lia)). unfold hex_ok in Hall. rewrite Hc in Hall.
  bool_hyps. lia.
Qed.

Lemma is_hex_value k c : is_hex k c = true → 0 ≤ hex_value k c < 16.
Proof. intros Hc. by destruct (is_hex_digit k c Hc) as [-> ?]. Qed.

(** ** The overflow tests are exact *)

Lemma step_overflow base Data d max : 0 < base → (Data >? (max - d) / base) = (Data * base + d >? max).
Proof.
  intros Hb. rewrite !Z.gtb_ltb. pose proof (Z.div_mod (max - d) base ltac:(lia)).
  pose proof (Z.mod_pos_bound (max - d) base ltac:(lia)).
  destruct (Z.ltb_spec ((max - d) / base) Data), (Z.ltb_spec max (Data * base + d)); try done; nia.
Qed.

Lemma decimal_uintn_step Data d (m : byte_mem) : 0 ≤ Data ≤ MAX_UINTN → 0 ≤ d < 10 →
  decimal_uintn Data d m = Some (if Data * 10 + d >? MAX_UINTN then None else Some (Data * 10 + d), m).
Proof.
  intros HD Hd. unfold decimal_uintn. rewrite step_overflow by lia.
  destruct (Data * 10 + d >? MAX_UINTN) eqn:Hov; [done|]. rewrite Z.gtb_ltb in Hov. apply Z.ltb_ge in Hov.
  unfold MAX_UINTN in *. by rewrite cast_id by (done || (cint_unfold; lia)).
Qed.

Lemma decimal_uint64_step Data d (m : byte_mem) : 0 ≤ Data ≤ MAX_UINT64 → 0 ≤ d < 10 →
  decimal_uint64 Data d m = Some (if Data * 10 + d >? MAX_UINT64 then None else Some (Data * 10 + d), m).
Proof.
  intros HD Hd. unfold decimal_uint64, MAX_UINT64 in *.
  destruct (unsigned_division_correct (0xFFFFFFFFFFFFFFFF - d) 10) as [Hq _]; [unfold u64; cint_unfold; lia|].
  destruct Hq as [-> _]; [done|done|].
  erewrite bind_run by reflexivity. rewrite step_overflow by lia.
  destruct (Data * 10 + d >? _) eqn:Hov; [done|]. rewrite Z.gtb_ltb in Hov. apply Z.ltb_ge in Hov.
  destruct (products_correct Data 10) as (_ & _ & Hp & _). destruct Hp as [_ ->]; [unfold u64; cint_unfold; lia|].
  by rewrite cast_id by (done || (cint_unfold; lia)).
Qed.

Lemma hex_uintn_step Data d (m : byte_mem) : 0 ≤ Data ≤ MAX_UINTN → 0 ≤ d < 16 →
  hex_uintn Data d m = Some (if Data * 16 + d >? MAX_UINTN then None else Some (Data * 16 + d), m).
Proof.
  intros HD Hd. unfold hex_uintn, MAX_UINTN in *. rewrite Z.shiftr_div_pow2, Z.shiftl_mul_pow2 by lia.
  change (2 ^ 4) with 16. rewrite step_overflow by lia.
  destruct (Data * 16 + d >? _) eqn:Hov; [done|]. rewrite Z.gtb_ltb in Hov. apply Z.ltb_ge in Hov.
  rewrite (cast_id UINTN (Data * 16)) by (done || (cint_unfold; lia)).
  by rewrite cast_id by (done || (cint_unfold; lia)).
Qed.

Lemma hex_uint64_step Data d (m : byte_mem) : 0 ≤ Data ≤ MAX_UINT64 → 0 ≤ d < 16 →
  hex_uint64 Data d m = Some (if Data * 16 + d >? MAX_UINT64 then None else Some (Data * 16 + d), m).
Proof.
  intros HD Hd. unfold hex_uint64, MAX_UINT64 in *.
  destruct (shifts_correct (0xFFFFFFFFFFFFFFFF - d) 4) as [Hs _]; [unfold u64; cint_unfold; lia|done|].
  destruct Hs as (_ & -> & _); [done|]. erewrite bind_run by reflexivity. change (2 ^ 4) with 16. rewrite step_overflow by lia.
  destruct (Data * 16 + d >? _) eqn:Hov; [done|]. rewrite Z.gtb_ltb in Hov. apply Z.ltb_ge in Hov.
  destruct (shifts_correct Data 4) as [Hs _]; [unfold u64; cint_unfold; lia|done|].
  destruct Hs as (-> & _); [done|]. erewrite bind_run by reflexivity. rewrite Z.mod_small by lia. change (2 ^ 4) with 16.
  by rewrite cast_id by (done || (cint_unfold; lia)).
Qed.

(** ** The functions *)

(** The outcome for a number that ends [n] characters into the string. *)
Definition number_at (k : char_kind) (p : Z) (E : option Z) (max : Z) (r : nat * option Z) : number_result :=
  let '(n, v) := r in converted E max (p + chars_size k n, v).

Section functions.
Context (RSIZE_MAX ASCII_RSIZE_MAX : Z).
Abbreviation limit := (rsize_max RSIZE_MAX ASCII_RSIZE_MAX).
Context (k : char_kind) (m : byte_mem) (p : Z) (cs : list Z).
Context (Hp : 0 < p) (Ha : aligned k p) (Hlim : 0 ≤ limit k < 2 ^ 32 - 1).
Context (Hnz : nonzero cs) (Hcs : chars k m p (cs ++ [0])).

Lemma constraints_run E d0 body :
  number_constraints RSIZE_MAX ASCII_RSIZE_MAX k p E (Some d0) body m =
    if decide (limit k = 0 ∨ Z.of_nat (length cs) ≤ limit k) then body m
    else Some ((RETURN_INVALID_PARAMETER, E, Some d0), m).
Proof.
  unfold number_constraints. rewrite run_aligned by done.
  rewrite check_true by (apply negb_true_iff, Z.eqb_neq; lia).
  rewrite check_true by by apply bool_decide_eq_true_2.
  destruct (Z.eqb_spec (limit k) 0) as [H0|H0]; cbn [negb].
  { case_decide; [done|tauto]. }
  set (R := Z.to_nat (limit k)). replace (limit k) with (Z.of_nat R) by lia.
  rewrite cast_id by (done || (cint_unfold; lia)). replace (Z.of_nat R + 1) with (Z.of_nat (S R)) by lia.
  destruct (decide (length cs ≤ R)%nat) as [Hle|Hgt].
  - rewrite (run_LenS k m p (S R) cs); [|done|lia|lia|apply string_upto_whole; [done|lia|done]].
    rewrite check_true by (apply Z.leb_le; lia). case_decide; [done|lia].
  - rewrite (run_LenS k m p (S R) (take (S R) cs)); [|done|lia|lia|].
    + rewrite check_false by (apply Z.leb_gt; rewrite length_take; lia). case_decide; [lia|done].
    + split_and!; [by apply Forall_take|rewrite length_take; lia|]. rewrite length_take.
      rewrite decide_False by lia. apply chars_app in Hcs as [Hc _].
      rewrite <-(take_drop (S R) cs) in Hc. by apply chars_app in Hc as [? _].
Qed.

Lemma skip_run q i : q 0 = false → (i ≤ length cs)%nat →
  skip_loop (S (size m)) k q (p + chars_size k i) m =
    Some (p + chars_size k (i + length (take_while q (drop i cs))), m).
Proof.
  intros Hq Hi. pose proof (chars_fuel _ _ _ _ Hcs) as Hf. rewrite length_app in Hf. cbn [length] in Hf.
  apply (skip_loop_run k m p cs q); [done|done|lia|lia].
Qed.

Lemma skipped q i : (length (take_while q (drop i cs)) + i ≤ length cs ∨ length cs < i)%nat.
Proof. pose proof (take_while_le q (drop i cs)) as Hl. rewrite length_drop in Hl. lia. Qed.

Abbreviation pads := (length (take_while pad_space cs)).
Abbreviation body := (drop_while pad_space cs).
Abbreviation zeros := (length (take_while leading_zero body)).

(** The two loops that skip the spaces and the zeros. *)
Lemma prefix_run {A} (c : Z → M byte_mem A) :
  (s ← skip_loop (S (size m)) k pad_space p; s ← skip_loop (S (size m)) k leading_zero s; c s) m =
    c (p + chars_size k (pads + zeros)) m.
Proof.
  pose proof (skip_run pad_space 0 eq_refl ltac:(lia)) as H1. unfold chars_size at 1 in H1.
  rewrite Z.mul_0_r, Z.add_0_r in H1. erewrite bind_run by exact H1. rewrite drop_0, Nat.add_0_l.
  pose proof (take_while_le pad_space cs). erewrite bind_run by (by apply skip_run).
  by rewrite drop_take_while.
Qed.

Lemma positions : (pads + zeros ≤ length cs)%nat ∧ drop (pads + zeros) cs = drop_while leading_zero body.
Proof.
  rewrite <-drop_drop, drop_take_while, drop_take_while. split; [|done].
  pose proof (take_while_le leading_zero body) as Hz. pose proof (f_equal length (take_drop_while pad_space cs)) as Hl.
  rewrite length_app in Hl. lia.
Qed.

Section step.
Context (base : Z) (f : Z → Z) (digit : Z → bool) (max : Z) (step : Z → Z → M byte_mem (option Z)).
Context (Hbase : 1 ≤ base) (Hmax : 0 ≤ max) (Hdigit : ∀ c, digit c = true → 0 ≤ f c < base).
Context (Hd0 : digit 0 = false).
Context (Hstep : ∀ Data d m, 0 ≤ Data ≤ max → 0 ≤ d < base →
  step Data d m = Some (if Data * base + d >? max then None else Some (Data * base + d), m)).

Lemma digits_run E i : (i ≤ length cs)%nat →
  (r ← digits_loop (S (size m)) k digit f step (p + chars_size k i) 0; mret (converted E max r)) m =
    Some (let '(n, v) := scan base f max digit 0 (drop i cs) in number_at k p E max ((i + n)%nat, v), m).
Proof.
  intros Hi. pose proof (chars_fuel _ _ _ _ Hcs) as Hf. rewrite length_app in Hf. cbn [length] in Hf.
  erewrite bind_run by (apply (digits_loop_run base f max digit Hbase Hdigit step k Hstep m p cs Hcs Hd0); lia).
  by destruct (scan _ _ _ _ _ _) as [n v].
Qed.
End step.
End functions.

(** Leading zeros do not count. *)
Lemma scan_zeros base f max digit cs : 1 ≤ base → 0 ≤ max → (∀ c, digit c = true → 0 ≤ f c < base) →
  digit 48 = true → f 48 = 0 →
  scan base f max digit 0 cs =
    (let '(n, v) := scan base f max digit 0 (drop_while leading_zero cs) in
     ((length (take_while leading_zero cs) + n)%nat, v)).
Proof.
  intros Hb Hmax Hd H48 Hf48. induction cs as [|c cs IH]; cbn [take_while drop_while].
  - by destruct (scan _ _ _ _ _ _).
  - destruct (leading_zero c) eqn:Hz; [apply Z.eqb_eq in Hz as ->|].
    + rewrite scan_cons by done. rewrite Hf48, Z.mul_0_l, Z.add_0_l, Z.gtb_ltb, (proj2 (Z.ltb_ge _ _)) by lia.
      rewrite IH. cbn [length]. destruct (scan base f max digit 0 (drop_while leading_zero cs)) as [n v]. reflexivity.
    + destruct (scan base f max digit 0 (c :: cs)) as [n v]. reflexivity.
Qed.

(** The result for the digits that begin [start] characters into the string. *)
Definition parsed (k : char_kind) (p : Z) (E : option Z) (max base : Z) (f : Z → Z) (digit : Z → bool)
    (start : nat) (cs : list Z) : number_result :=
  let ds := take_while digit cs in
  if value base f ds >? max
  then (RETURN_UNSUPPORTED, set_pointer E (p + chars_size k (start + overflow_at base f max 0 ds)), Some max)
  else (RETURN_SUCCESS, set_pointer E (p + chars_size k (start + length ds)), Some (value base f ds)).

Lemma parsed_scan k p E max base f digit start cs :
  parsed k p E max base f digit start cs =
    (let '(n, v) := scan base f max digit 0 cs in number_at k p E max ((start + n)%nat, v)).
Proof. unfold parsed, scan, number_at, value. by case_match. Qed.

Lemma parsed_zeros k p E max base f digit start cs : 1 ≤ base → 0 ≤ max →
  (∀ c, digit c = true → 0 ≤ f c < base) → digit 48 = true → f 48 = 0 →
  parsed k p E max base f digit (start + length (take_while leading_zero cs)) (drop_while leading_zero cs)
    = parsed k p E max base f digit start cs.
Proof.
  intros. rewrite !parsed_scan, (scan_zeros base f max digit cs) by done.
  destruct (scan base f max digit 0 (drop_while leading_zero cs)) as [n v]. by rewrite Nat.add_assoc.
Qed.

(** Two ways to read the digits give the same result. *)
Lemma parsed_ext k p E max base f g digit start cs : (∀ c, digit c = true → f c = g c) →
  parsed k p E max base f digit start cs = parsed k p E max base g digit start cs.
Proof.
  intros Hfg. assert (∀ ds acc, Forall (λ c, digit c = true) ds →
    value_from base f acc ds = value_from base g acc ds ∧ overflow_at base f max acc ds = overflow_at base g max acc ds) as Hext.
  { induction ds as [|c ds IH]; intros acc Hds; [done|]. apply Forall_cons in Hds as [Hc Hds].
    cbn [value_from overflow_at]. rewrite (Hfg c Hc). destruct (IH (acc * base + g c) Hds) as [-> ->]. done. }
  unfold parsed, value. destruct (Hext _ 0 (take_while_all digit cs)) as [-> ->]. done.
Qed.

Definition parse_decimal (k : char_kind) (p : Z) (E : option Z) (max : Z) (cs : list Z) : number_result :=
  parsed k p E max 10 decimal (is_decimal k) (length (take_while pad_space cs)) (drop_while pad_space cs).

(** The prefix: spaces, zeros and, after at least one zero, an x. *)
Definition letter_x (c : Z) : bool := (c =? 88) || (c =? 120).

Definition parse_hex (k : char_kind) (p : Z) (E : option Z) (max : Z) (cs : list Z) : number_result :=
  let pads := length (take_while pad_space cs) in
  let body := drop_while pad_space cs in
  let zeros := length (take_while leading_zero body) in
  let parse := parsed k p E max 16 hexadecimal (is_hex k) in
  match drop_while leading_zero body with
  | c :: rest => if letter_x c then
                   if (zeros =? 0)%nat then (RETURN_SUCCESS, set_pointer E p, Some 0)
                   else parse (S (pads + zeros)) rest
                 else parse pads body
  | [] => parse pads body
  end.

Section correct.
Context (RSIZE_MAX ASCII_RSIZE_MAX : Z).
Abbreviation limit := (rsize_max RSIZE_MAX ASCII_RSIZE_MAX).
Context (k : char_kind) (m : byte_mem) (p : Z) (cs : list Z).
Context (Hp : 0 < p) (Ha : aligned k p) (Hlim : 0 ≤ limit k < 2 ^ 32 - 1).
Context (Hnz : nonzero cs) (Hcs : chars k m p (cs ++ [0])).

Abbreviation pads := (length (take_while pad_space cs)).
Abbreviation body := (drop_while pad_space cs).
Abbreviation zeros := (length (take_while leading_zero body)).

Lemma DecimalToIntegerS_run step max E d0 : 0 ≤ max →
  (∀ Data d (m : byte_mem), 0 ≤ Data ≤ max → 0 ≤ d < 10 →
    step Data d m = Some (if Data * 10 + d >? max then None else Some (Data * 10 + d), m)) →
  DecimalToIntegerS RSIZE_MAX ASCII_RSIZE_MAX step max k p E (Some d0) m =
    Some (if decide (limit k = 0 ∨ Z.of_nat (length cs) ≤ limit k) then parse_decimal k p E max cs
          else (RETURN_INVALID_PARAMETER, E, Some d0), m).
Proof.
  intros Hmax Hstep. unfold DecimalToIntegerS. rewrite (constraints_run _ _ k m p cs) by done.
  case_decide; [|done]. unfold parse_decimal.
  assert (∀ c, is_decimal k c = true → 0 ≤ decimal c < 10) as Hd
    by (intros c Hc%is_decimal_digit; unfold decimal; lia).
  assert (is_decimal k 0 = false) as H0 by by destruct k.
  rewrite <-parsed_zeros, parsed_scan by (done || by destruct k).
  erewrite bind_run by reflexivity. rewrite (prefix_run k m p cs Hcs).
  destruct (positions cs) as [Hpos Hdrop].
  rewrite (digits_run k m p cs Hcs 10 decimal (is_decimal k) max step ltac:(lia) Hmax Hd H0 Hstep) by done.
  by rewrite Hdrop.
Qed.

Lemma to_upper_x c : char_range k c → (to_upper k c =? 88) = letter_x c.
Proof.
  intros Hc. assert (0 ≤ c < 65536) as Hr by (destruct k; [exact Hc|change (256 ^ sizeof_char Ascii) with 256 in Hc; lia]).
  unfold letter_x. destruct k; cbn [to_upper]; unfold CharToUpper, AsciiCharToUpper.
  - rewrite Z.geb_leb. destruct (Z.leb_spec 97 c), (Z.leb_spec c 122); cbn [andb];
      try rewrite cast_id by (done || (cint_unfold; lia));
      destruct (Z.eqb_spec c 88), (Z.eqb_spec c 120); cbn [orb]; first [lia|apply Z.eqb_eq; lia|apply Z.eqb_neq; lia].
  - change (256 ^ sizeof_char Ascii) with 256 in Hc. rewrite Z.geb_leb.
    destruct (Z.leb_spec 97 c), (Z.leb_spec c 122); cbn [andb];
      rewrite cast_id by (done || (cint_unfold; lia));
      destruct (Z.eqb_spec c 88), (Z.eqb_spec c 120); cbn [orb]; first [lia|apply Z.eqb_eq; lia|apply Z.eqb_neq; lia].
Qed.

(** The character after the spaces and the zeros, and the one before it. *)
Lemma read_at i c : (cs ++ [0]) !! i = Some c → read_char k (p + chars_size k i) m = Some (c, m).
Proof. intros Hi. apply wp_run, wp_read_char with (c := c); [|done]. by apply (chars_at _ _ _ (cs ++ [0])). Qed.

Lemma before_prefix : (0 < pads + zeros)%nat →
  ∃ c, cs !! (pads + zeros - 1)%nat = Some c ∧ (c =? 48) = negb (zeros =? 0)%nat.
Proof.
  intros Hpz. destruct zeros as [|z] eqn:Hz.
  - destruct (lookup_lt_is_Some_2 (take_while pad_space cs) (pads - 1) ltac:(lia)) as [c Hc]. exists c.
    pose proof (Forall_lookup_1 _ _ _ _ (take_while_all pad_space cs) Hc) as Hpad. cbv beta in Hpad. split.
    + replace (pads + 0 - 1)%nat with (pads - 1)%nat by lia. by eapply take_while_lookup.
    + apply Z.eqb_neq. by intros ->.
  - destruct (lookup_lt_is_Some_2 (take_while leading_zero body) z ltac:(lia)) as [c Hc]. exists c.
    pose proof (Forall_lookup_1 _ _ _ _ (take_while_all leading_zero body) Hc) as Hzero. split; [|exact Hzero].
    replace (pads + S z - 1)%nat with (pads + z)%nat by lia. rewrite <-lookup_drop, drop_take_while.
    by eapply take_while_lookup.
Qed.

Section hex_step.
Context (step : Z → Z → M byte_mem (option Z)) (max : Z) (Hmax : 0 ≤ max).
Context (Hstep : ∀ Data d (m : byte_mem), 0 ≤ Data ≤ max → 0 ≤ d < 16 →
  step Data d m = Some (if Data * 16 + d >? max then None else Some (Data * 16 + d), m)).

(** The digits from a position on; EndPointer has been set to the start before. *)
Lemma hex_digits_run E i : (i ≤ length cs)%nat →
  (r ← digits_loop (S (size m)) k (is_hex k) (hex_value k) step (p + chars_size k i) 0;
   mret (converted (set_pointer E p) max r)) m =
  Some (parsed k p E max 16 hexadecimal (is_hex k) i (drop i cs), m).
Proof.
  intros Hi. assert (is_hex k 0 = false) as H0 by (by destruct k).
  rewrite (digits_run k m p cs Hcs 16 (hex_value k) (is_hex k) max step ltac:(lia) Hmax (is_hex_value k) H0 Hstep) by done.
  rewrite <-(parsed_ext k p E max 16 (hex_value k)) by (by intros c [? _]%is_hex_digit).
  rewrite parsed_scan. destruct (scan _ _ _ _ _ _) as [n [v|]]; by destruct E.
Qed.

Lemma HexToIntegerS_run E d0 : (∀ c l, cs = c :: l → letter_x c = false) →
  HexToIntegerS RSIZE_MAX ASCII_RSIZE_MAX step max k p E (Some d0) m =
    Some (if decide (limit k = 0 ∨ Z.of_nat (length cs) ≤ limit k) then parse_hex k p E max cs
          else (RETURN_INVALID_PARAMETER, E, Some d0), m).
Proof.
  intros Hfirst. unfold HexToIntegerS. rewrite (constraints_run _ _ k m p cs) by done.
  case_decide; [|done]. cbv zeta. erewrite bind_run by reflexivity. rewrite (prefix_run k m p cs Hcs).
  destruct (positions cs) as [Hpos Hdrop].
  pose proof (parsed_zeros k p E max 16 hexadecimal (is_hex k) pads body ltac:(lia) Hmax
    (λ c Hc, proj2 (is_hex_digit k c Hc)) ltac:(by destruct k) eq_refl) as Hzeros.
  unfold parse_hex. destruct (drop_while leading_zero body) as [|c rest] eqn:Hrest.
  - assert (pads + zeros = length cs)%nat as El.
    { apply (f_equal length) in Hdrop. rewrite length_drop in Hdrop. cbn [length] in Hdrop. lia. }
    erewrite bind_run by (apply (read_at _ 0); rewrite El, lookup_app_r, Nat.sub_diag by lia; done).
    rewrite to_upper_x by (destruct k; done). change (letter_x 0) with false. cbv iota.
    by rewrite hex_digits_run, Hdrop, Hzeros.
  - assert (cs !! (pads + zeros)%nat = Some c) as Hc.
    { rewrite <-(Nat.add_0_r (pads + zeros)), <-lookup_drop, Hdrop. done. }
    assert (char_range k c) as Hcr.
    { pose proof (chars_range _ _ _ _ Hcs) as Hr. apply Forall_app in Hr as [Hr _]. by eapply Forall_lookup_1 in Hr. }
    erewrite bind_run by (apply (read_at _ c); by apply lookup_app_l_Some). rewrite to_upper_x by done.
    destruct (letter_x c) eqn:Hx; [|by rewrite hex_digits_run, Hdrop, Hzeros].
    assert (0 < pads + zeros)%nat as Hpz.
    { destruct (decide (0 < pads + zeros)%nat) as [|Hn]; [done|exfalso].
      replace (pads + zeros)%nat with 0%nat in Hc by lia. pose proof (drop_S _ _ _ Hc) as Ecs.
      rewrite drop_0 in Ecs. by rewrite (Hfirst c _ Ecs) in Hx. }
    destruct (before_prefix Hpz) as (b & Hb & Hb48).
    replace (p + chars_size k (pads + zeros) - sizeof_char k) with (p + chars_size k (pads + zeros - 1))
      by (unfold chars_size; rewrite Nat2Z.inj_sub by lia; ring).
    erewrite bind_run by (apply (read_at _ b); by apply lookup_app_l_Some). rewrite Hb48, negb_involutive.
    destruct (zeros =? 0)%nat; [done|].
    replace (p + chars_size k (pads + zeros) + sizeof_char k) with (p + chars_size k (S (pads + zeros)))
      by (unfold chars_size; lia).
    rewrite hex_digits_run by (apply lookup_lt_Some in Hc; lia). by rewrite (drop_S _ _ _ Hc) in Hdrop; simplify_eq.
Qed.
End hex_step.
End correct.

(** An x at the very start of the string: the character before it is read. *)
Lemma hex_reads_before RSIZE_MAX ASCII_RSIZE_MAX step max m p E d0 : 0 < p → RSIZE_MAX = 0 →
  chars Unicode m p [120; 0] → aligned Unicode p → m !! (p - 2) = None →
  HexToIntegerS RSIZE_MAX ASCII_RSIZE_MAX step max Unicode p E (Some d0) m = None.
Proof.
  intros Hp -> Hc Ha Hnone. unfold HexToIntegerS, number_constraints. rewrite run_aligned by done.
  rewrite check_true by (apply negb_true_iff, Z.eqb_neq; lia). rewrite check_true by by apply bool_decide_eq_true_2.
  change (rsize_max 0 ASCII_RSIZE_MAX Unicode) with 0. cbn [negb Z.eqb].
  erewrite bind_run by reflexivity. rewrite (prefix_run Unicode m p [120] Hc).
  erewrite bind_run by (apply (read_at Unicode m p [120] Hc 0 120); done). cbn [to_upper]. change (CharToUpper 120 =? 88) with true.
  cbv iota. apply bind_none. cbn [take_while drop_while pad_space leading_zero length Nat.add].
  unfold read_char, chars_size. change (sizeof_char Unicode) with 2. change (2 * Z.of_nat 0) with 0. rewrite Z.add_0_r.
  erewrite bind_run by reflexivity. cbn [char_bytes read_le]. by rewrite Hnone.
Qed.


(** The strings " 0123x", "18446744073709551616" and "0x1Fg". *)
Definition ex_number : list Z := [32; 48; 49; 50; 51; 120].


Example parse_examples :
  parse_decimal Ascii 0 (Some 0) MAX_UINT64
    [49; 56; 52; 52; 54; 55; 52; 52; 48; 55; 51; 55; 48; 57; 53; 53; 49; 54; 49; 54]
    = (RETURN_UNSUPPORTED, Some 19, Some MAX_UINT64) ∧
  parse_hex Ascii 0 (Some 0) MAX_UINT64 [48; 120; 49; 70; 103] = (RETURN_SUCCESS, Some 4, Some 31).
Proof. split; by vm_compute. Qed.
