(* ===== verification/StrCompare.v ===== *)
(** * Comparing and searching strings (MdePkg/Library/BaseLib/String.c)

    The lengths, comparisons and searches that ASSERT their constraints, for CHAR16
    and CHAR8 strings, and the BCD conversions of the same file. *)
From S2P Require Import Prelude CBase Math64Spec CheckSum CheckSumSpec ByteMem SafeString SafeStringSpec StrConvert.
Local Open Scope Z_scope.

(** The difference of two characters; CHAR8 is signed. *)
Definition char_difference (k : char_kind) (a b : Z) : Z :=
  match k with Unicode => a - b | Ascii => cast INT8 a - cast INT8 b end.

Section limits.
Context (RSIZE_MAX ASCII_RSIZE_MAX : Z).
Abbreviation limit := (rsize_max RSIZE_MAX ASCII_RSIZE_MAX).

(** ** Lengths *)

Fixpoint strlen_loop (fuel : nat) (k : char_kind) (String Length : Z) : M byte_mem Z :=
  match fuel with
  | O => fails
  | S fuel =>
    c ← read_char k String;
    if negb (c =? 0) then
      (if negb (limit k =? 0) then ASSERT (Length <? limit k) else mret tt);;
      strlen_loop fuel k (String + sizeof_char k) (cast UINTN (Length + 1))
    else mret Length
  end.

Definition Len (k : char_kind) (String : Z) : M byte_mem Z :=
  ASSERT (negb (String =? 0));; assert_aligned k String;;
  fuel ← memory_fuel; strlen_loop fuel k String 0.

Definition Size (k : char_kind) (String : Z) : M byte_mem Z :=
  n ← Len k String; mret (cast UINTN (cast UINTN (n + 1) * sizeof_char k)).

(** ASSERT (StrSize (String) != 0), which checks the string. *)
Definition assert_string (k : char_kind) (String : Z) : M byte_mem unit :=
  n ← Size k String; ASSERT (negb (n =? 0)).

(** ** Comparisons *)

Fixpoint cmp_loop (fuel : nat) (k : char_kind) (FirstString SecondString : Z) : M byte_mem (Z * Z) :=
  match fuel with
  | O => fails
  | S fuel =>
    c ← read_char k FirstString;
    if negb (c =? 0) then
      d ← read_char k SecondString;
      if c =? d then cmp_loop fuel k (FirstString + sizeof_char k) (SecondString + sizeof_char k)
      else mret (FirstString, SecondString)
    else mret (FirstString, SecondString)
  end.

Definition Cmp (k : char_kind) (FirstString SecondString : Z) : M byte_mem Z :=
  assert_string k FirstString;; assert_string k SecondString;;
  fuel ← memory_fuel;
  '(FirstString, SecondString) ← cmp_loop fuel k FirstString SecondString;
  c ← read_char k FirstString; d ← read_char k SecondString; mret (char_difference k c d).

Fixpoint ncmp_loop (fuel : nat) (k : char_kind) (FirstString SecondString Length : Z) : M byte_mem (Z * Z) :=
  match fuel with
  | O => fails
  | S fuel =>
    c ← read_char k FirstString;
    if negb (c =? 0) then
      d ← read_char k SecondString;
      if negb (d =? 0) && (c =? d) && (Length >? 1)
      then ncmp_loop fuel k (FirstString + sizeof_char k) (SecondString + sizeof_char k) (Length - 1)
      else mret (FirstString, SecondString)
    else mret (FirstString, SecondString)
  end.

Definition nCmp (k : char_kind) (FirstString SecondString Length : Z) : M byte_mem Z :=
  if Length =? 0 then mret 0 else
  assert_string k FirstString;; assert_string k SecondString;;
  (if negb (limit k =? 0) then ASSERT (Length <=? limit k) else mret tt);;
  fuel ← memory_fuel;
  '(FirstString, SecondString) ← ncmp_loop fuel k FirstString SecondString Length;
  c ← read_char k FirstString; d ← read_char k SecondString; mret (char_difference k c d).

(** The loop of AsciiStriCmp, with the upper case of both characters. *)
Fixpoint icmp_loop (fuel : nat) (FirstString SecondString UpperFirstString UpperSecondString : Z) : M byte_mem Z :=
  match fuel with
  | O => fails
  | S fuel =>
    c ← read_char Ascii FirstString;
    if negb (c =? 0) then
      d ← read_char Ascii SecondString;
      if negb (d =? 0) && (UpperFirstString =? UpperSecondString) then
        c ← read_char Ascii (FirstString + 1); d ← read_char Ascii (SecondString + 1);
        icmp_loop fuel (FirstString + 1) (SecondString + 1) (AsciiCharToUpper c) (AsciiCharToUpper d)
      else mret (char_difference Ascii UpperFirstString UpperSecondString)
    else mret (char_difference Ascii UpperFirstString UpperSecondString)
  end.

Definition AsciiStriCmp (FirstString SecondString : Z) : M byte_mem Z :=
  assert_string Ascii FirstString;; assert_string Ascii SecondString;;
  fuel ← memory_fuel;
  c ← read_char Ascii FirstString; d ← read_char Ascii SecondString;
  icmp_loop fuel FirstString SecondString (AsciiCharToUpper c) (AsciiCharToUpper d).

(** ** Search *)

(** The inner loop: both strings are followed while they agree. *)
Fixpoint match_loop (fuel : nat) (k : char_kind) (String SearchStringTmp : Z) : M byte_mem (Z * Z) :=
  match fuel with
  | O => fails
  | S fuel =>
    c ← read_char k String; d ← read_char k SearchStringTmp;
    if (c =? d) && negb (c =? 0)
    then match_loop fuel k (String + sizeof_char k) (SearchStringTmp + sizeof_char k)
    else mret (String, SearchStringTmp)
  end.

Fixpoint search_loop (fuel : nat) (k : char_kind) (String SearchString : Z) : M byte_mem (option Z) :=
  match fuel with
  | O => fails
  | S fuel =>
    c ← read_char k String;
    if negb (c =? 0) then
      let FirstMatch := String in
      inner ← memory_fuel;
      '(String, SearchStringTmp) ← match_loop inner k String SearchString;
      d ← read_char k SearchStringTmp;
      if d =? 0 then mret (Some FirstMatch) else
      c ← read_char k String;
      if c =? 0 then mret None
      else search_loop fuel k (FirstMatch + sizeof_char k) SearchString
    else mret None
  end.

(** [None] is NULL. *)
Definition Str (k : char_kind) (String SearchString : Z) : M byte_mem (option Z) :=
  assert_string k String;; assert_string k SearchString;;
  c ← read_char k SearchString;
  if c =? 0 then mret (Some String) else
  fuel ← memory_fuel; search_loop fuel k String SearchString.

Definition StrLen := Len Unicode.
Definition AsciiStrLen := Len Ascii.
Definition StrSize := Size Unicode.
Definition AsciiStrSize := Size Ascii.
Definition StrCmp := Cmp Unicode.
Definition AsciiStrCmp := Cmp Ascii.
Definition StrnCmp := nCmp Unicode.
Definition AsciiStrnCmp := nCmp Ascii.
Definition StrStr := Str Unicode.
Definition AsciiStrStr := Str Ascii.
End limits.

(** ** Binary-coded decimals *)

Definition DecimalToBcd8 (Value : Z) : option Z :=
  if Value <? 100 then Some (cast UINT8 (Z.lor (Z.shiftl (Value / 10) 4) (Value mod 10))) else None.

Definition BcdToDecimal8 (Value : Z) : option Z :=
  if Value <? 0xa0 then
    if Z.land Value 0xf <? 0xa then Some (cast UINT8 (Z.shiftr Value 4 * 10 + Z.land Value 0xf)) else None
  else None.
