(* ===== verification/StrCompareSpec.v ===== *)
(** * Comparing and searching strings: equivalence with lists of characters *)
From S2P Require Import Prelude CBase Math64Spec CheckSum CheckSumSpec ByteMem SafeString SafeStringSpec StrConvert.
From S2P Require Import StrConvertSpec StrCompare.
Local Open Scope Z_scope.

(** A NUL-terminated string. *)
Record cstring (k : char_kind) (m : byte_mem) (p : Z) (cs : list Z) : Prop := CString {
  cstring_nonzero : nonzero cs;
  cstring_chars : chars k m p (cs ++ [0])
}.

Lemma cstring_nil k m p cs : cstring k m p cs → cs = [] → read_char k p m = Some (0, m).
Proof. intros [_ Hc] ->. by apply wp_run, wp_read_char with (c := 0). Qed.

Lemma cstring_cons k m p c cs :
  cstring k m p (c :: cs) → c ≠ 0 ∧ read_char k p m = Some (c, m) ∧ cstring k m (p + sizeof_char k) cs.
Proof.
  intros [Hnz Hc]. apply Forall_cons in Hnz as [Hc0 Hnz]. apply chars_cons in Hc as [Hc Hcs].
  split_and!; [done|by apply wp_run, wp_read_char with (c := c)|by split].
Qed.

(** The first character, the NUL of an empty string included. *)
Lemma cstring_head k m p cs : cstring k m p cs → read_char k p m = Some (hd 0 cs, m).
Proof. destruct cs as [|c cs]; intros Hs; [by eapply cstring_nil|]. by apply cstring_cons in Hs as (_ & ? & _). Qed.

Lemma cstring_range k m p cs : cstring k m p cs → Forall (λ c, char_range k c) cs.
Proof. intros [_ Hc]. apply chars_range in Hc. by apply Forall_app in Hc as [? _]. Qed.

Lemma cstring_fuel k m p cs : cstring k m p cs → (length cs < S (size m))%nat.
Proof. intros [_ Hc]. apply chars_fuel in Hc. rewrite length_app in Hc. cbn [length] in Hc. lia. Qed.

Lemma cstring_drop k m p cs i : cstring k m p cs → (i ≤ length cs)%nat →
  cstring k m (p + chars_size k i) (drop i cs).
Proof.
  intros [Hnz Hc] Hi. split; [by apply Forall_drop|]. rewrite <-(take_drop i cs), <-app_assoc in Hc.
  apply chars_app in Hc as [_ Hc]. rewrite length_take in Hc. by replace (i `min` length cs)%nat with i in Hc by lia.
Qed.

(** ** Reference definitions *)

(** The difference of the first characters that differ, or of a character and
    the end of the shorter string. *)
Fixpoint compare (k : char_kind) (cs ds : list Z) : Z :=
  match cs, ds with
  | c :: cs, d :: ds => if c =? d then compare k cs ds else char_difference k c d
  | c :: _, [] => char_difference k c 0
  | [], d :: _ => char_difference k 0 d
  | [], [] => 0
  end.

Lemma char_difference_0 k a b : char_range k a → char_range k b → char_difference k a b = 0 ↔ a = b.
Proof.
  intros Ha Hb. destruct k; cbn [char_difference]; [lia|]. change (256 ^ sizeof_char Ascii) with 256 in *.
  split; [|by intros ->; lia]. unfold cast. cbn [signed width INT8]. intros Heq.
  change (2 ^ (8 - 1)) with 128 in Heq. change (2 ^ 8) with 256 in Heq.
  pose proof (Z.div_mod (a + 128) 256 ltac:(lia)). pose proof (Z.div_mod (b + 128) 256 ltac:(lia)).
  pose proof (Z.mod_pos_bound (a + 128) 256 ltac:(lia)). pose proof (Z.mod_pos_bound (b + 128) 256 ltac:(lia)). lia.
Qed.

Lemma compare_0 k cs ds : nonzero cs → nonzero ds → Forall (λ c, char_range k c) cs → Forall (λ c, char_range k c) ds →
  compare k cs ds = 0 ↔ cs = ds.
Proof.
  assert (char_range k 0) as H0 by by destruct k.
  revert ds. induction cs as [|c cs IH]; intros [|d ds] Hc Hd Hrc Hrd; cbn [compare]; try done.
  - apply Forall_cons in Hd as [Hd _], Hrd as [Hrd _]. rewrite char_difference_0 by done. by split; intros; subst.
  - apply Forall_cons in Hc as [Hc _], Hrc as [Hrc _]. rewrite char_difference_0 by done. by split; intros; subst.
  - apply Forall_cons in Hc as [Hc Hcs], Hrc as [Hrc Hrcs], Hd as [Hd Hds], Hrd as [Hrd Hrds].
    destruct (Z.eqb_spec c d) as [->|Hne].
    + rewrite IH by done. split; [by intros ->|by intros [= ->]].
    + rewrite char_difference_0 by done. split; [done|by intros [= -> _]].
Qed.

(** The first place at which [ds] occurs in [cs]. *)
Fixpoint find_substring (ds cs : list Z) : option nat :=
  match cs with
  | [] => None
  | _ :: cs' => if decide (ds `prefix_of` cs) then Some 0%nat else S <$> find_substring ds cs'
  end.

Lemma find_substring_short ds cs : (length cs < length ds)%nat → find_substring ds cs = None.
Proof.
  induction cs as [|c cs IH]; intros Hl; [done|]. cbn [find_substring]. rewrite decide_False.
  - rewrite IH; [done|cbn in Hl; lia].
  - intros Hp%prefix_length. lia.
Qed.

(** ** The loops *)

Section run.
Context (RSIZE_MAX ASCII_RSIZE_MAX : Z).
Abbreviation limit := (rsize_max RSIZE_MAX ASCII_RSIZE_MAX).
Context (k : char_kind) (m : byte_mem).

(** The strings that the functions accept. *)
Definition accepted (p : Z) (cs : list Z) : Prop :=
  0 < p ∧ aligned k p ∧ cstring k m p cs ∧ (limit k = 0 ∨ Z.of_nat (length cs) ≤ limit k) ∧
  chars_size k (S (length cs)) < 2 ^ 64.

Lemma strlen_loop_run cs : ∀ fuel p n, cstring k m p cs → (length cs < fuel)%nat →
  (limit k = 0 ∨ n + Z.of_nat (length cs) ≤ limit k) → 0 ≤ n → n + Z.of_nat (length cs) < 2 ^ 64 →
  strlen_loop RSIZE_MAX ASCII_RSIZE_MAX fuel k p n m = Some (n + Z.of_nat (length cs), m).
Proof.
  induction cs as [|c cs IH]; intros fuel p n Hs Hf Hlim Hn H64; (destruct fuel as [|fuel]; [lia|]); cbn [strlen_loop].
  - erewrite bind_run by (by eapply cstring_nil). cbn. by rewrite Z.add_0_r.
  - apply cstring_cons in Hs as (Hc0 & Hread & Hs). erewrite bind_run by exact Hread.
    rewrite (proj2 (Z.eqb_neq c 0)) by done. cbn [negb length] in *.
    assert ((if negb (limit k =? 0) then ASSERT (n <? limit k) else mret tt) m = Some (tt, m)) as Hchk.
    { destruct (Z.eqb_spec (limit k) 0); [done|]. cbn [negb]. unfold ASSERT. by rewrite (proj2 (Z.ltb_lt _ _)) by lia. }
    erewrite bind_run by exact Hchk. rewrite cast_id by (done || (cint_unfold; lia)).
    rewrite IH by (done || lia). do 2 f_equal. lia.
Qed.

Lemma Len_run p cs : accepted p cs → Len RSIZE_MAX ASCII_RSIZE_MAX k p m = Some (Z.of_nat (length cs), m).
Proof.
  intros (Hp & Ha & Hs & Hlim & H64). unfold Len. erewrite bind_run.
  2: { unfold ASSERT. by rewrite (proj2 (Z.eqb_neq p 0)) by lia. }
  rewrite run_aligned by done. erewrite bind_run by reflexivity.
  rewrite <-(Z.add_0_l (Z.of_nat (length cs))). apply strlen_loop_run; [done|by eapply cstring_fuel|lia|lia|].
  unfold chars_size in H64. destruct (sizeof_char_cases k) as [Hw|Hw]; rewrite Hw in H64; lia.
Qed.

Lemma assert_string_run {A} p cs (c : M byte_mem A) : accepted p cs →
  (assert_string RSIZE_MAX ASCII_RSIZE_MAX k p;; c) m = c m.
Proof.
  intros Hacc. pose proof Hacc as (_ & _ & _ & _ & H64). unfold chars_size in H64.
  assert (Size RSIZE_MAX ASCII_RSIZE_MAX k p m = Some (chars_size k (S (length cs)), m)) as Hsize.
  { unfold Size. erewrite bind_run by (by apply Len_run). unfold chars_size, mret, M_ret.
    destruct (sizeof_char_cases k) as [Hw|Hw]; rewrite Hw in H64 |- *;
      rewrite (cast_id UINTN (Z.of_nat (length cs) + 1)), cast_id by (done || (cint_unfold; lia)); do 2 f_equal; lia. }
  assert (assert_string RSIZE_MAX ASCII_RSIZE_MAX k p m = Some (tt, m)) as Hrun.
  { unfold assert_string. erewrite bind_run by exact Hsize. unfold ASSERT, chars_size.
    rewrite (proj2 (Z.eqb_neq (sizeof_char k * Z.of_nat (S (length cs))) 0)); [done|].
    destruct (sizeof_char_cases k) as [Hw|Hw]; rewrite Hw; lia. }
  by rewrite (bind_run _ _ _ _ _ Hrun).
Qed.

(** The loop, and the difference that the function then takes. *)
Definition difference_at (r : Z * Z) : M byte_mem Z :=
  c ← read_char k r.1; d ← read_char k r.2; mret (char_difference k c d).

Lemma difference_at_run p q cs ds : cstring k m p cs → cstring k m q ds →
  difference_at (p, q) m = Some (char_difference k (hd 0 cs) (hd 0 ds), m).
Proof.
  intros Hc Hd. unfold difference_at. erewrite bind_run by (by apply cstring_head).
  by erewrite bind_run by (by apply cstring_head).
Qed.

Lemma char_difference_self c : char_difference k c c = 0.
Proof. destruct k; cbn; lia. Qed.

(** The outcome of a comparing loop: the pointers at which [x] is the difference. *)
Definition ends_with (x : Z) (r : Z * Z) (m' : byte_mem) : Prop := m' = m ∧ difference_at r m = Some (x, m).

Lemma wp_head p cs (Q : Z → byte_mem → Prop) : cstring k m p cs → Q (hd 0 cs) m → wp (read_char k p) Q m.
Proof. intros Hs HQ. eapply run_wp; [by apply cstring_head|done]. Qed.

Lemma cmp_loop_run cs : ∀ ds fuel p q, cstring k m p cs → cstring k m q ds → (length cs < fuel)%nat →
  wp (cmp_loop fuel k p q) (ends_with (compare k cs ds)) m.
Proof.
  induction cs as [|c cs IH]; intros ds fuel p q Hp Hq Hf; (destruct fuel as [|fuel]; [lia|]); cbn [cmp_loop];
    pose proof (difference_at_run p q _ _ Hp Hq) as Hdiff; apply wp_bind, (wp_head p _ _ Hp); cbn [hd].
  - apply wp_ret. split; [done|]. rewrite Hdiff. destruct ds; [by rewrite char_difference_self|done].
  - apply cstring_cons in Hp as (Hc0 & _ & Hp). rewrite (proj2 (Z.eqb_neq c 0)) by done. cbn [negb].
    apply wp_bind, (wp_head q _ _ Hq). destruct ds as [|d ds]; cbn [hd compare].
    + rewrite (proj2 (Z.eqb_neq c 0)) by done. by apply wp_ret.
    + apply cstring_cons in Hq as (Hd0 & _ & Hq). destruct (c =? d).
      * apply IH; [done|done|cbn in Hf; lia].
      * by apply wp_ret.
Qed.

Lemma ncmp_loop_run cs : ∀ ds fuel p q n, cstring k m p cs → cstring k m q ds → (length cs < fuel)%nat → (1 ≤ n)%nat →
  wp (ncmp_loop fuel k p q (Z.of_nat n)) (ends_with (compare k (take n cs) (take n ds))) m.
Proof.
  induction cs as [|c cs IH]; intros ds fuel p q n Hp Hq Hf Hn; (destruct fuel as [|fuel]; [lia|]); cbn [ncmp_loop];
    (destruct n as [|n]; [lia|]); pose proof (difference_at_run p q _ _ Hp Hq) as Hdiff;
    apply wp_bind, (wp_head p _ _ Hp); cbn [hd].
  - apply wp_ret. split; [done|]. rewrite Hdiff. destruct ds; [by rewrite char_difference_self|done].
  - apply cstring_cons in Hp as (Hc0 & _ & Hp). rewrite (proj2 (Z.eqb_neq c 0)) by done. cbn [negb].
    apply wp_bind, (wp_head q _ _ Hq). destruct ds as [|d ds]; cbn [hd take compare negb andb Z.eqb]; [by apply wp_ret|].
    apply cstring_cons in Hq as (Hd0 & _ & Hq). rewrite (proj2 (Z.eqb_neq d 0)) by done. cbn [negb andb].
    destruct (Z.eqb_spec c d) as [->|Hne]; cbn [andb]; [|by apply wp_ret].
    rewrite Z.gtb_ltb. destruct (Z.ltb_spec 1 (Z.of_nat (S n))).
    + replace (Z.of_nat (S n) - 1) with (Z.of_nat n) by lia. apply IH; [done|done|cbn in Hf; lia|lia].
    + assert (n = 0%nat) as -> by lia. rewrite !take_0. apply wp_ret. split; [done|]. rewrite Hdiff. cbn [hd compare].
      by rewrite char_difference_self.
Qed.

(** ** Searching *)

(** The inner loop ends behind the common prefix. *)
Lemma match_loop_run cs : ∀ ds fuel p q, cstring k m p cs → cstring k m q ds → (length cs < fuel)%nat →
  wp (match_loop fuel k p q) (λ r m', m' = m ∧
    ∃ l cs' ds', cs = l ++ cs' ∧ ds = l ++ ds' ∧ cstring k m r.1 cs' ∧ cstring k m r.2 ds' ∧
      (cs' = [] ∨ ds' = [] ∨ hd 0 cs' ≠ hd 0 ds')) m.
Proof.
  induction cs as [|c cs IH]; intros ds fuel p q Hp Hq Hf; (destruct fuel as [|fuel]; [lia|]); cbn [match_loop];
    apply wp_bind, (wp_head p _ _ Hp); apply wp_bind, (wp_head q _ _ Hq); cbn [hd].
  - rewrite andb_false_r. apply wp_ret. split; [done|]. exists [], [], ds. split_and!; auto.
  - pose proof Hp as Hp0. apply cstring_cons in Hp as (Hc0 & _ & Hp). rewrite (proj2 (Z.eqb_neq c 0)) by done.
    rewrite andb_true_r. destruct (Z.eqb_spec c (hd 0 ds)) as [Heq|Hne].
    + destruct ds as [|d ds]; [done|]. cbn in Heq. subst d. apply cstring_cons in Hq as (_ & _ & Hq).
      eapply wp_mono; [apply IH; [exact Hp|exact Hq|cbn in Hf; lia]|].
      intros r m' [-> (l & cs' & ds' & -> & -> & ?)]. split; [done|]. by exists (c :: l), cs', ds'.
    + apply wp_ret. split; [done|]. exists [], (c :: cs), ds. split_and!; auto.
Qed.

Lemma search_loop_run ds : ds ≠ [] → ∀ cs fuel p q, cstring k m p cs → cstring k m q ds → (length cs < fuel)%nat →
  wp (search_loop fuel k p q)
    (λ r m', m' = m ∧ r = (λ i, p + chars_size k i) <$> find_substring ds cs) m.
Proof.
  intros Hds. induction cs as [|c cs IH]; intros fuel p q Hp Hq Hf; (destruct fuel as [|fuel]; [lia|]); cbn [search_loop];
    apply wp_bind, (wp_head p _ _ Hp); cbn [hd]; [by apply wp_ret|].
  pose proof Hp as Hp0. apply cstring_cons in Hp as (Hc0 & _ & Hp). rewrite (proj2 (Z.eqb_neq c 0)) by done. cbn [negb].
  apply wp_bind, wp_memory_fuel. apply wp_bind.
  eapply wp_mono; [apply (match_loop_run (c :: cs) ds); [done|done|by eapply cstring_fuel]|].
  intros [p' q'] m' [-> (l & cs' & ds' & Hcs & Hdl & Hp' & Hq' & Hend)]. cbn [fst snd] in *.
  apply wp_bind, (wp_head q' _ _ Hq'). cbn [find_substring].
  destruct ds' as [|d ds']; cbn [hd].
  { apply wp_ret. split; [done|]. rewrite app_nil_r in Hdl. rewrite decide_True by (exists cs'; by rewrite Hcs, Hdl).
    cbn. f_equal. unfold chars_size. lia. }
  apply cstring_cons in Hq' as (Hd0 & _ & _). rewrite (proj2 (Z.eqb_neq d 0)) by done.
  assert (¬ ds `prefix_of` c :: cs) as Hnp.
  { rewrite Hdl, Hcs. intros [t Ht]. rewrite <-app_assoc in Ht. apply app_inv_head in Ht. subst cs'.
    destruct Hend as [?|[?|Hne]]; [done|done|by destruct Hne]. }
  rewrite decide_False by done. apply wp_bind, (wp_head p' _ _ Hp').
  destruct cs' as [|c' cs']; cbn [hd].
  - apply wp_ret. split; [done|]. rewrite find_substring_short; [done|].
    apply (f_equal length) in Hcs, Hdl. rewrite app_nil_r in Hcs. rewrite length_app in Hdl. cbn [length] in *. lia.
  - apply cstring_cons in Hp' as (Hc'0 & _ & _). rewrite (proj2 (Z.eqb_neq c' 0)) by done.
    eapply wp_mono; [apply IH; [done|done|cbn in Hf; lia]|]. intros r m' [-> ->]. split; [done|].
    destruct (find_substring ds cs) as [i|]; [|done]. cbn. f_equal. unfold chars_size. lia.
Qed.
End run.

(** ** Without regard to case *)

Definition upper (c : Z) : Z := if (97 <=? c) && (c <=? 122) then c - 32 else c.

Lemma upper_correct c : char_range Ascii c → AsciiCharToUpper c = upper c.
Proof.
  change (256 ^ sizeof_char Ascii) with 256. intros Hc. unfold AsciiCharToUpper, upper. rewrite Z.geb_leb.
  apply cast_id; [done|]. cint_unfold. destruct (Z.leb_spec 97 c), (Z.leb_spec c 122); cbn [andb]; lia.
Qed.

Lemma upper_hd cs : upper (hd 0 cs) = hd 0 (map upper cs).
Proof. by destruct cs. Qed.

Lemma icmp_loop_run m cs : ∀ ds fuel p q, cstring Ascii m p cs → cstring Ascii m q ds → (length cs < fuel)%nat →
  icmp_loop fuel p q (upper (hd 0 cs)) (upper (hd 0 ds)) m
    = Some (compare Ascii (map upper cs) (map upper ds), m).
Proof.
  induction cs as [|c cs IH]; intros ds fuel p q Hp Hq Hf; (destruct fuel as [|fuel]; [lia|]); cbn [icmp_loop];
    apply wp_run, wp_bind, (wp_head _ _ p _ _ Hp); cbn [hd].
  - apply wp_ret. split; [done|]. rewrite upper_hd. by destruct ds.
  - apply cstring_cons in Hp as (Hc0 & _ & Hp). rewrite (proj2 (Z.eqb_neq c 0)) by done. cbn [negb].
    apply wp_bind, (wp_head _ _ q _ _ Hq). destruct ds as [|d ds]; cbn [hd map compare Z.eqb negb andb]; [by apply wp_ret|].
    apply cstring_cons in Hq as (Hd0 & _ & Hq). rewrite (proj2 (Z.eqb_neq d 0)) by done. cbn [negb andb].
    destruct (upper c =? upper d); [|by apply wp_ret].
    pose proof (chars_range _ _ _ _ (cstring_chars _ _ _ _ Hp)) as Hrc.
    pose proof (chars_range _ _ _ _ (cstring_chars _ _ _ _ Hq)) as Hrd.
    assert (∀ l, Forall (λ c, char_range Ascii c) (l ++ [0]) → AsciiCharToUpper (hd 0 l) = upper (hd 0 l)) as Hup.
    { intros l Hl. apply upper_correct. destruct l; by apply Forall_cons in Hl as [? _]. }
    change (p + 1) with (p + sizeof_char Ascii). change (q + 1) with (q + sizeof_char Ascii).
    apply wp_bind, (wp_head _ _ _ _ _ Hp), wp_bind, (wp_head _ _ _ _ _ Hq). rewrite !Hup by done.
    eapply run_wp; [apply IH; [done|done|cbn in Hf; lia]|done].
Qed.

(** ** The functions *)

Lemma Cmp_run RSIZE_MAX ASCII_RSIZE_MAX k m p q cs ds :
  accepted RSIZE_MAX ASCII_RSIZE_MAX k m p cs → accepted RSIZE_MAX ASCII_RSIZE_MAX k m q ds →
  Cmp RSIZE_MAX ASCII_RSIZE_MAX k p q m = Some (compare k cs ds, m).
Proof.
  intros Hp Hq. pose proof Hp as (_ & _ & Hcs & _ & _). pose proof Hq as (_ & _ & Hds & _ & _).
  unfold Cmp. rewrite (assert_string_run _ _ k m p cs), (assert_string_run _ _ k m q ds) by done.
  apply wp_run, wp_bind, wp_memory_fuel, wp_bind.
  eapply wp_mono; [by apply (cmp_loop_run k m cs ds); [| |eapply cstring_fuel]|].
  intros [p' q'] m' [-> Hd]. by eapply run_wp.
Qed.

Lemma compare_equal k m p q cs ds : cstring k m p cs → cstring k m q ds → compare k cs ds = 0 ↔ cs = ds.
Proof.
  intros Hcs Hds. apply compare_0; [by destruct Hcs|by destruct Hds|by eapply cstring_range|by eapply cstring_range].
Qed.

Lemma AsciiStriCmp_run RSIZE_MAX ASCII_RSIZE_MAX m p q cs ds :
  accepted RSIZE_MAX ASCII_RSIZE_MAX Ascii m p cs → accepted RSIZE_MAX ASCII_RSIZE_MAX Ascii m q ds →
  AsciiStriCmp RSIZE_MAX ASCII_RSIZE_MAX p q m = Some (compare Ascii (map upper cs) (map upper ds), m).
Proof.
  intros Hp Hq. pose proof Hp as (_ & _ & Hcs & _ & _). pose proof Hq as (_ & _ & Hds & _ & _).
  unfold AsciiStriCmp. rewrite (assert_string_run _ _ Ascii m p cs), (assert_string_run _ _ Ascii m q ds) by done.
  apply wp_run, wp_bind, wp_memory_fuel. apply wp_bind, (wp_head _ _ _ _ _ Hcs), wp_bind, (wp_head _ _ _ _ _ Hds).
  rewrite !upper_correct by (pose proof (cstring_chars _ _ _ _ Hcs) as [Hr _]; pose proof (cstring_chars _ _ _ _ Hds) as [Hr' _];
    first [destruct cs; by apply Forall_cons in Hr as [? _]|destruct ds; by apply Forall_cons in Hr' as [? _]]).
  eapply run_wp; [apply icmp_loop_run; [done|done|by eapply cstring_fuel]|done].
Qed.

(** C24: the comparisons and searches of CHAR16 and CHAR8 strings against their
    definitions on lists of characters: StrCmp and AsciiStrCmp return the
    difference of the first characters that differ, and so 0 exactly for equal
    strings; the functions with a Length compare that many characters at most;
    AsciiStriCmp compares the upper case, so that its result is the difference of
    upper-case characters (for a and _, say, of the other sign than that of the
    lower-case ones); StrStr and AsciiStrStr return a pointer
    to the first occurrence of the search string, or NULL when there is none. *)
Theorem strings_compare_exact RSIZE_MAX ASCII_RSIZE_MAX k m p q cs ds n :
  accepted RSIZE_MAX ASCII_RSIZE_MAX k m p cs → accepted RSIZE_MAX ASCII_RSIZE_MAX k m q ds →
  Cmp RSIZE_MAX ASCII_RSIZE_MAX k p q m = Some (compare k cs ds, m) ∧
  (compare k cs ds = 0 ↔ cs = ds) ∧
  ((rsize_max RSIZE_MAX ASCII_RSIZE_MAX k = 0 ∨ Z.of_nat n ≤ rsize_max RSIZE_MAX ASCII_RSIZE_MAX k) →
    nCmp RSIZE_MAX ASCII_RSIZE_MAX k p q (Z.of_nat n) m = Some (compare k (take n cs) (take n ds), m)) ∧
  (k = Ascii →
    AsciiStriCmp RSIZE_MAX ASCII_RSIZE_MAX p q m = Some (compare Ascii (map upper cs) (map upper ds), m)) ∧
  Str RSIZE_MAX ASCII_RSIZE_MAX k p q m =
    Some (if decide (ds = []) then Some p else (λ i, p + chars_size k i) <$> find_substring ds cs, m).
Proof.
  intros Hp Hq. pose proof Hp as (_ & _ & Hcs & _ & _). pose proof Hq as (_ & _ & Hds & _ & _). split_and!.
  - by apply Cmp_run.
  - by eapply compare_equal.
  - intros Hn. unfold nCmp. destruct n as [|n].
    { change (Z.of_nat 0 =? 0) with true. cbv iota. by rewrite !take_0. }
    rewrite (proj2 (Z.eqb_neq _ 0)) by lia.
    rewrite (assert_string_run _ _ k m p cs), (assert_string_run _ _ k m q ds) by done.
    erewrite bind_run.
    2: { instantiate (2 := tt). destruct (Z.eqb_spec (rsize_max RSIZE_MAX ASCII_RSIZE_MAX k) 0); [done|].
         cbn [negb]. unfold ASSERT. by rewrite (proj2 (Z.leb_le _ _)) by lia. }
    apply wp_run, wp_bind, wp_memory_fuel, wp_bind.
    eapply wp_mono; [apply (ncmp_loop_run k m cs ds); [done|done|by eapply cstring_fuel|lia]|].
    intros [p' q'] m' [-> Hd]. by eapply run_wp.
  - intros ->. by apply AsciiStriCmp_run.
  - unfold Str. rewrite (assert_string_run _ _ k m p cs), (assert_string_run _ _ k m q ds) by done.
    apply wp_run, wp_bind, (wp_head _ _ _ _ _ Hds). destruct ds as [|d ds]; cbn [hd].
    { rewrite decide_True by done. by apply wp_ret. }
    pose proof (cstring_cons _ _ _ _ _ Hds) as (Hd0 & _ & _). rewrite (proj2 (Z.eqb_neq d 0)), decide_False by done.
    apply wp_bind, wp_memory_fuel. by apply search_loop_run; [| | |eapply cstring_fuel].
Qed.

Definition ex_memory : byte_mem :=
  put_chars Ascii (put_chars Ascii ∅ 16 [97; 97; 66; 97; 98; 0]) 32 [97; 98; 0].

Lemma strings_compare_exact_witness :
  AsciiStrStr 0 0 16 32 ex_memory = Some (Some 19, ex_memory) ∧
  AsciiStrCmp 0 0 16 32 ex_memory = Some (-1, ex_memory) ∧
  AsciiStriCmp 0 0 16 32 ex_memory = Some (-1, ex_memory).
Proof.
  assert (accepted 0 0 Ascii ex_memory 16 [97; 97; 66; 97; 98]) as Hp.
  { split_and!; [done|done| |by left|by vm_compute]. split; [by repeat constructor|].
    apply put_chars_apart; [apply put_chars_chars; by repeat constructor|by right]. }
  assert (accepted 0 0 Ascii ex_memory 32 [97; 98]) as Hq.
  { split_and!; [done|done| |by left|by vm_compute]. split; [by repeat constructor|].
    apply put_chars_chars; by repeat constructor. }
  destruct (strings_compare_exact 0 0 Ascii ex_memory 16 32 _ _ 0 Hp Hq) as (Hcmp & _ & _ & Hicmp & Hstr).
  split_and!; [exact Hstr|exact Hcmp|exact (Hicmp eq_refl)].
Defined.

(** ** Binary-coded decimals *)

(** The two conversions are inverse on the numbers and the codes they accept. *)
Theorem bcd_roundtrip v : 0 ≤ v < 256 →
  (v < 100 → ∃ b, DecimalToBcd8 v = Some b ∧ BcdToDecimal8 b = Some v) ∧ (100 ≤ v → DecimalToBcd8 v = None) ∧
  (v / 16 < 10 → v mod 16 < 10 → ∃ n, BcdToDecimal8 v = Some n ∧ DecimalToBcd8 n = Some v).
Proof.
  intros Hv. assert (forallb (λ v,
    (if v <? 100 then bool_decide ((DecimalToBcd8 v ≫= BcdToDecimal8) = Some v) else bool_decide (DecimalToBcd8 v = None)) &&
    (if (v / 16 <? 10) && (v mod 16 <? 10) then bool_decide ((BcdToDecimal8 v ≫= DecimalToBcd8) = Some v) else true))
    (seqZ 0 256) = true) as Hall by by vm_compute.
  rewrite forallb_forall in Hall. specialize (Hall v ltac:(apply list_elem_of_In, elem_of_seqZ; lia)).
  apply andb_true_iff in Hall as [H1 H2]. split_and!.
  - intros Hlt. rewrite (proj2 (Z.ltb_lt v 100)) in H1 by done. apply bool_decide_eq_true in H1.
    destruct (DecimalToBcd8 v) as [b|]; [|done]. by exists b.
  - intros Hge. rewrite (proj2 (Z.ltb_ge v 100)) in H1 by done. by apply bool_decide_eq_true in H1.
  - intros Hhi Hlo. rewrite (proj2 (Z.ltb_lt (v / 16) 10)), (proj2 (Z.ltb_lt (v mod 16) 10)) in H2 by done.
    apply bool_decide_eq_true in H2. destruct (BcdToDecimal8 v) as [n|]; [|done]. by exists n.
Qed.
