(* ===== verification/SafeIntConv.v ===== *)
(** * Checked integer conversions (MdePkg/Library/BaseSafeIntLib/SafeIntLib.c
    and, for the pairs whose code depends on the width of UINTN, the X64
    variant SafeIntLib64.c)

    A result buffer is [None] when the caller passes NULL and otherwise holds
    the current content of the buffer. *)
From S2P Require Import Prelude CBase.
Local Open Scope Z_scope.

Definition out : Type := option Z.
Definition RETURN_STATUS : Type := Z.

Definition is_NULL (Result : out) : bool :=
  match Result with None => true | Some _ => false end.
Definition store (Result : out) (v : Z) : out := (λ _, v) <$> Result.

(** CHAR8 is plain [char]: its signedness is the compiler's choice. *)
Class CharSign := char_signed : bool.
Definition CHAR8 `{CharSign} : ctype := CType char_signed 8.

(** The values the library leaves in the buffer of a failed operation. *)
Definition INT8_ERROR   := cast INT8 (-1).
Definition UINT8_ERROR  := MAX_UINT8.
Definition CHAR8_ERROR `{CharSign} := cast CHAR8 MAX_INT8.
Definition INT16_ERROR  := cast INT16 (-1).
Definition UINT16_ERROR := MAX_UINT16.
Definition INT32_ERROR  := cast INT32 (-1).
Definition UINT32_ERROR := MAX_UINT32.
Definition INT64_ERROR  := cast INT64 (-1).
Definition UINT64_ERROR := MAX_UINT64.
Definition INTN_ERROR   := cast INTN (-1).
Definition UINTN_ERROR  := MAX_UINTN.

Section conversions.
Context `{CharSign}.

(** ** SafeIntLib.c *)

Definition SafeInt8ToUint8 (Operand : Z) (Result : out) : RETURN_STATUS * out :=
  if is_NULL Result then (RETURN_INVALID_PARAMETER, Result) else
  if Operand >=? 0
  then (RETURN_SUCCESS, store Result (cast UINT8 Operand))
  else (RETURN_BUFFER_TOO_SMALL, store Result UINT8_ERROR).

Definition SafeInt8ToChar8 (Operand : Z) (Result : out) : RETURN_STATUS * out :=
  if is_NULL Result then (RETURN_INVALID_PARAMETER, Result) else
  if Operand >=? 0
  then (RETURN_SUCCESS, store Result (cast CHAR8 Operand))
  else (RETURN_BUFFER_TOO_SMALL, store Result CHAR8_ERROR).

Definition SafeInt8ToUint16 (Operand : Z) (Result : out) : RETURN_STATUS * out :=
  if is_NULL Result then (RETURN_INVALID_PARAMETER, Result) else
  if Operand >=? 0
  then (RETURN_SUCCESS, store Result (cast UINT16 Operand))
  else (RETURN_BUFFER_TOO_SMALL, store Result UINT16_ERROR).

Definition SafeInt8ToUint32 (Operand : Z) (Result : out) : RETURN_STATUS * out :=
  if is_NULL Result then (RETURN_INVALID_PARAMETER, Result) else
  if Operand >=? 0
  then (RETURN_SUCCESS, store Result (cast UINT32 Operand))
  else (RETURN_BUFFER_TOO_SMALL, store Result UINT32_ERROR).

Definition SafeInt8ToUintn (Operand : Z) (Result : out) : RETURN_STATUS * out :=
  if is_NULL Result then (RETURN_INVALID_PARAMETER, Result) else
  if Operand >=? 0
  then (RETURN_SUCCESS, store Result (cast UINTN Operand))
  else (RETURN_BUFFER_TOO_SMALL, store Result UINTN_ERROR).

Definition SafeInt8ToUint64 (Operand : Z) (Result : out) : RETURN_STATUS * out :=
  if is_NULL Result then (RETURN_INVALID_PARAMETER, Result) else
  if Operand >=? 0
  then (RETURN_SUCCESS, store Result (cast UINT64 Operand))
  else (RETURN_BUFFER_TOO_SMALL, store Result UINT64_ERROR).

Definition SafeUint8ToInt8 (Operand : Z) (Result : out) : RETURN_STATUS * out :=
  if is_NULL Result then (RETURN_INVALID_PARAMETER, Result) else
  if Operand <=? MAX_INT8
  then (RETURN_SUCCESS, store Result (cast INT8 Operand))
  else (RETURN_BUFFER_TOO_SMALL, store Result INT8_ERROR).

Definition SafeUint8ToChar8 (Operand : Z) (Result : out) : RETURN_STATUS * out :=
  if is_NULL Result then (RETURN_INVALID_PARAMETER, Result) else
  if Operand <=? MAX_INT8
  then (RETURN_SUCCESS, store Result (cast CHAR8 Operand))
  else (RETURN_BUFFER_TOO_SMALL, store Result CHAR8_ERROR).

Definition SafeInt16ToInt8 (Operand : Z) (Result : out) : RETURN_STATUS * out :=
  if is_NULL Result then (RETURN_INVALID_PARAMETER, Result) else
  if (Operand >=? MIN_INT8) && (Operand <=? MAX_INT8)
  then (RETURN_SUCCESS, store Result (cast INT8 Operand))
  else (RETURN_BUFFER_TOO_SMALL, store Result INT8_ERROR).

Definition SafeInt16ToChar8 (Operand : Z) (Result : out) : RETURN_STATUS * out :=
  if is_NULL Result then (RETURN_INVALID_PARAMETER, Result) else
  if (Operand >=? 0) && (Operand <=? MAX_INT8)
  then (RETURN_SUCCESS, store Result (cast CHAR8 Operand))
  else (RETURN_BUFFER_TOO_SMALL, store Result CHAR8_ERROR).

Definition SafeInt16ToUint8 (Operand : Z) (Result : out) : RETURN_STATUS * out :=
  if is_NULL Result then (RETURN_INVALID_PARAMETER, Result) else
  if (Operand >=? 0) && (Operand <=? MAX_UINT8)
  then (RETURN_SUCCESS, store Result (cast UINT8 Operand))
  else (RETURN_BUFFER_TOO_SMALL, store Result UINT8_ERROR).

Definition SafeInt16ToUint16 (Operand : Z) (Result : out) : RETURN_STATUS * out :=
  if is_NULL Result then (RETURN_INVALID_PARAMETER, Result) else
  if Operand >=? 0
  then (RETURN_SUCCESS, store Result (cast UINT16 Operand))
  else (RETURN_BUFFER_TOO_SMALL, store Result UINT16_ERROR).

Definition SafeInt16ToUint32 (Operand : Z) (Result : out) : RETURN_STATUS * out :=
  if is_NULL Result then (RETURN_INVALID_PARAMETER, Result) else
  if Operand >=? 0
  then (RETURN_SUCCESS, store Result (cast UINT32 Operand))
  else (RETURN_BUFFER_TOO_SMALL, store Result UINT32_ERROR).

Definition SafeInt16ToUintn (Operand : Z) (Result : out) : RETURN_STATUS * out :=
  if is_NULL Result then (RETURN_INVALID_PARAMETER, Result) else
  if Operand >=? 0
  then (RETURN_SUCCESS, store Result (cast UINTN Operand))
  else (RETURN_BUFFER_TOO_SMALL, store Result UINTN_ERROR).

Definition SafeInt16ToUint64 (Operand : Z) (Result : out) : RETURN_STATUS * out :=
  if is_NULL Result then (RETURN_INVALID_PARAMETER, Result) else
  if Operand >=? 0
  then (RETURN_SUCCESS, store Result (cast UINT64 Operand))
  else (RETURN_BUFFER_TOO_SMALL, store Result UINT64_ERROR).

Definition SafeUint16ToInt8 (Operand : Z) (Result : out) : RETURN_STATUS * out :=
  if is_NULL Result then (RETURN_INVALID_PARAMETER, Result) else
  if Operand <=? MAX_INT8
  then (RETURN_SUCCESS, store Result (cast INT8 Operand))
  else (RETURN_BUFFER_TOO_SMALL, store Result INT8_ERROR).

Definition SafeUint16ToChar8 (Operand : Z) (Result : out) : RETURN_STATUS * out :=
  if is_NULL Result then (RETURN_INVALID_PARAMETER, Result) else
  if Operand <=? MAX_INT8
  then (RETURN_SUCCESS, store Result (cast CHAR8 (cast INT8 Operand)))
  else (RETURN_BUFFER_TOO_SMALL, store Result CHAR8_ERROR).

Definition SafeUint16ToUint8 (Operand : Z) (Result : out) : RETURN_STATUS * out :=
  if is_NULL Result then (RETURN_INVALID_PARAMETER, Result) else
  if Operand <=? MAX_UINT8
  then (RETURN_SUCCESS, store Result (cast UINT8 Operand))
  else (RETURN_BUFFER_TOO_SMALL, store Result UINT8_ERROR).

Definition SafeUint16ToInt16 (Operand : Z) (Result : out) : RETURN_STATUS * out :=
  if is_NULL Result then (RETURN_INVALID_PARAMETER, Result) else
  if Operand <=? MAX_INT16
  then (RETURN_SUCCESS, store Result (cast INT16 Operand))
  else (RETURN_BUFFER_TOO_SMALL, store Result INT16_ERROR).

Definition SafeInt32ToInt8 (Operand : Z) (Result : out) : RETURN_STATUS * out :=
  if is_NULL Result then (RETURN_INVALID_PARAMETER, Result) else
  if (Operand >=? MIN_INT8) && (Operand <=? MAX_INT8)
  then (RETURN_SUCCESS, store Result (cast INT8 Operand))
  else (RETURN_BUFFER_TOO_SMALL, store Result INT8_ERROR).

Definition SafeInt32ToChar8 (Operand : Z) (Result : out) : RETURN_STATUS * out :=
  if is_NULL Result then (RETURN_INVALID_PARAMETER, Result) else
  if (Operand >=? 0) && (Operand <=? MAX_INT8)
  then (RETURN_SUCCESS, store Result (cast CHAR8 Operand))
  else (RETURN_BUFFER_TOO_SMALL, store Result CHAR8_ERROR).

Definition SafeInt32ToUint8 (Operand : Z) (Result : out) : RETURN_STATUS * out :=
  if is_NULL Result then (RETURN_INVALID_PARAMETER, Result) else
  if (Operand >=? 0) && (Operand <=? MAX_UINT8)
  then (RETURN_SUCCESS, store Result (cast UINT8 Operand))
  else (RETURN_BUFFER_TOO_SMALL, store Result UINT8_ERROR).

Definition SafeInt32ToInt16 (Operand : Z) (Result : out) : RETURN_STATUS * out :=
  if is_NULL Result then (RETURN_INVALID_PARAMETER, Result) else
  if (Operand >=? MIN_INT16) && (Operand <=? MAX_INT16)
  then (RETURN_SUCCESS, store Result (cast INT16 Operand))
  else (RETURN_BUFFER_TOO_SMALL, store Result INT16_ERROR).

Definition SafeInt32ToUint16 (Operand : Z) (Result : out) : RETURN_STATUS * out :=
  if is_NULL Result then (RETURN_INVALID_PARAMETER, Result) else
  if (Operand >=? 0) && (Operand <=? MAX_UINT16)
  then (RETURN_SUCCESS, store Result (cast UINT16 Operand))
  else (RETURN_BUFFER_TOO_SMALL, store Result UINT16_ERROR).

Definition SafeInt32ToUint32 (Operand : Z) (Result : out) : RETURN_STATUS * out :=
  if is_NULL Result then (RETURN_INVALID_PARAMETER, Result) else
  if Operand >=? 0
  then (RETURN_SUCCESS, store Result (cast UINT32 Operand))
  else (RETURN_BUFFER_TOO_SMALL, store Result UINT32_ERROR).

Definition SafeInt32ToUint64 (Operand : Z) (Result : out) : RETURN_STATUS * out :=
  if is_NULL Result then (RETURN_INVALID_PARAMETER, Result) else
  if Operand >=? 0
  then (RETURN_SUCCESS, store Result (cast UINT64 Operand))
  else (RETURN_BUFFER_TOO_SMALL, store Result UINT64_ERROR).

Definition SafeUint32ToInt8 (Operand : Z) (Result : out) : RETURN_STATUS * out :=
  if is_NULL Result then (RETURN_INVALID_PARAMETER, Result) else
  if Operand <=? MAX_INT8
  then (RETURN_SUCCESS, store Result (cast INT8 Operand))
  else (RETURN_BUFFER_TOO_SMALL, store Result INT8_ERROR).

Definition SafeUint32ToChar8 (Operand : Z) (Result : out) : RETURN_STATUS * out :=
  if is_NULL Result then (RETURN_INVALID_PARAMETER, Result) else
  if Operand <=? MAX_INT8
  then (RETURN_SUCCESS, store Result (cast CHAR8 (cast INT8 Operand)))
  else (RETURN_BUFFER_TOO_SMALL, store Result CHAR8_ERROR).

Definition SafeUint32ToUint8 (Operand : Z) (Result : out) : RETURN_STATUS * out :=
  if is_NULL Result then (RETURN_INVALID_PARAMETER, Result) else
  if Operand <=? MAX_UINT8
  then (RETURN_SUCCESS, store Result (cast UINT8 Operand))
  else (RETURN_BUFFER_TOO_SMALL, store Result UINT8_ERROR).

Definition SafeUint32ToInt16 (Operand : Z) (Result : out) : RETURN_STATUS * out :=
  if is_NULL Result then (RETURN_INVALID_PARAMETER, Result) else
  if Operand <=? MAX_INT16
  then (RETURN_SUCCESS, store Result (cast INT16 Operand))
  else (RETURN_BUFFER_TOO_SMALL, store Result INT16_ERROR).

Definition SafeUint32ToUint16 (Operand : Z) (Result : out) : RETURN_STATUS * out :=
  if is_NULL Result then (RETURN_INVALID_PARAMETER, Result) else
  if Operand <=? MAX_UINT16
  then (RETURN_SUCCESS, store Result (cast UINT16 Operand))
  else (RETURN_BUFFER_TOO_SMALL, store Result UINT16_ERROR).

Definition SafeUint32ToInt32 (Operand : Z) (Result : out) : RETURN_STATUS * out :=
  if is_NULL Result then (RETURN_INVALID_PARAMETER, Result) else
  if Operand <=? MAX_INT32
  then (RETURN_SUCCESS, store Result (cast INT32 Operand))
  else (RETURN_BUFFER_TOO_SMALL, store Result INT32_ERROR).

Definition SafeIntnToInt8 (Operand : Z) (Result : out) : RETURN_STATUS * out :=
  if is_NULL Result then (RETURN_INVALID_PARAMETER, Result) else
  if (Operand >=? MIN_INT8) && (Operand <=? MAX_INT8)
  then (RETURN_SUCCESS, store Result (cast INT8 Operand))
  else (RETURN_BUFFER_TOO_SMALL, store Result INT8_ERROR).

Definition SafeIntnToChar8 (Operand : Z) (Result : out) : RETURN_STATUS * out :=
  if is_NULL Result then (RETURN_INVALID_PARAMETER, Result) else
  if (Operand >=? 0) && (Operand <=? MAX_INT8)
  then (RETURN_SUCCESS, store Result (cast CHAR8 Operand))
  else (RETURN_BUFFER_TOO_SMALL, store Result CHAR8_ERROR).

Definition SafeIntnToUint8 (Operand : Z) (Result : out) : RETURN_STATUS * out :=
  if is_NULL Result then (RETURN_INVALID_PARAMETER, Result) else
  if (Operand >=? 0) && (Operand <=? MAX_UINT8)
  then (RETURN_SUCCESS, store Result (cast UINT8 Operand))
  else (RETURN_BUFFER_TOO_SMALL, store Result UINT8_ERROR).

Definition SafeIntnToInt16 (Operand : Z) (Result : out) : RETURN_STATUS * out :=
  if is_NULL Result then (RETURN_INVALID_PARAMETER, Result) else
  if (Operand >=? MIN_INT16) && (Operand <=? MAX_INT16)
  then (RETURN_SUCCESS, store Result (cast INT16 Operand))
  else (RETURN_BUFFER_TOO_SMALL, store Result INT16_ERROR).

Definition SafeIntnToUint16 (Operand : Z) (Result : out) : RETURN_STATUS * out :=
  if is_NULL Result then (RETURN_INVALID_PARAMETER, Result) else
  if (Operand >=? 0) && (Operand <=? MAX_UINT16)
  then (RETURN_SUCCESS, store Result (cast UINT16 Operand))
  else (RETURN_BUFFER_TOO_SMALL, store Result UINT16_ERROR).

Definition SafeIntnToUintn (Operand : Z) (Result : out) : RETURN_STATUS * out :=
  if is_NULL Result then (RETURN_INVALID_PARAMETER, Result) else
  if Operand >=? 0
  then (RETURN_SUCCESS, store Result (cast UINTN Operand))
  else (RETURN_BUFFER_TOO_SMALL, store Result UINTN_ERROR).

Definition SafeIntnToUint64 (Operand : Z) (Result : out) : RETURN_STATUS * out :=
  if is_NULL Result then (RETURN_INVALID_PARAMETER, Result) else
  if Operand >=? 0
  then (RETURN_SUCCESS, store Result (cast UINT64 Operand))
  else (RETURN_BUFFER_TOO_SMALL, store Result UINT64_ERROR).

Definition SafeUintnToInt8 (Operand : Z) (Result : out) : RETURN_STATUS * out :=
  if is_NULL Result then (RETURN_INVALID_PARAMETER, Result) else
  if Operand <=? MAX_INT8
  then (RETURN_SUCCESS, store Result (cast INT8 Operand))
  else (RETURN_BUFFER_TOO_SMALL, store Result INT8_ERROR).

Definition SafeUintnToChar8 (Operand : Z) (Result : out) : RETURN_STATUS * out :=
  if is_NULL Result then (RETURN_INVALID_PARAMETER, Result) else
  if Operand <=? MAX_INT8
  then (RETURN_SUCCESS, store Result (cast CHAR8 (cast INT8 Operand)))
  else (RETURN_BUFFER_TOO_SMALL, store Result CHAR8_ERROR).

Definition SafeUintnToUint8 (Operand : Z) (Result : out) : RETURN_STATUS * out :=
  if is_NULL Result then (RETURN_INVALID_PARAMETER, Result) else
  if Operand <=? MAX_UINT8
  then (RETURN_SUCCESS, store Result (cast UINT8 Operand))
  else (RETURN_BUFFER_TOO_SMALL, store Result UINT8_ERROR).

Definition SafeUintnToInt16 (Operand : Z) (Result : out) : RETURN_STATUS * out :=
  if is_NULL Result then (RETURN_INVALID_PARAMETER, Result) else
  if Operand <=? MAX_INT16
  then (RETURN_SUCCESS, store Result (cast INT16 Operand))
  else (RETURN_BUFFER_TOO_SMALL, store Result INT16_ERROR).

Definition SafeUintnToUint16 (Operand : Z) (Result : out) : RETURN_STATUS * out :=
  if is_NULL Result then (RETURN_INVALID_PARAMETER, Result) else
  if Operand <=? MAX_UINT16
  then (RETURN_SUCCESS, store Result (cast UINT16 Operand))
  else (RETURN_BUFFER_TOO_SMALL, store Result UINT16_ERROR).

Definition SafeUintnToInt32 (Operand : Z) (Result : out) : RETURN_STATUS * out :=
  if is_NULL Result then (RETURN_INVALID_PARAMETER, Result) else
  if Operand <=? MAX_INT32
  then (RETURN_SUCCESS, store Result (cast INT32 Operand))
  else (RETURN_BUFFER_TOO_SMALL, store Result INT32_ERROR).

Definition SafeUintnToIntn (Operand : Z) (Result : out) : RETURN_STATUS * out :=
  if is_NULL Result then (RETURN_INVALID_PARAMETER, Result) else
  if Operand <=? MAX_INTN
  then (RETURN_SUCCESS, store Result (cast INTN Operand))
  else (RETURN_BUFFER_TOO_SMALL, store Result INTN_ERROR).

Definition SafeInt64ToInt8 (Operand : Z) (Result : out) : RETURN_STATUS * out :=
  if is_NULL Result then (RETURN_INVALID_PARAMETER, Result) else
  if (Operand >=? MIN_INT8) && (Operand <=? MAX_INT8)
  then (RETURN_SUCCESS, store Result (cast INT8 Operand))
  else (RETURN_BUFFER_TOO_SMALL, store Result INT8_ERROR).

Definition SafeInt64ToChar8 (Operand : Z) (Result : out) : RETURN_STATUS * out :=
  if is_NULL Result then (RETURN_INVALID_PARAMETER, Result) else
  if (Operand >=? 0) && (Operand <=? MAX_INT8)
  then (RETURN_SUCCESS, store Result (cast CHAR8 Operand))
  else (RETURN_BUFFER_TOO_SMALL, store Result CHAR8_ERROR).

Definition SafeInt64ToUint8 (Operand : Z) (Result : out) : RETURN_STATUS * out :=
  if is_NULL Result then (RETURN_INVALID_PARAMETER, Result) else
  if (Operand >=? 0) && (Operand <=? MAX_UINT8)
  then (RETURN_SUCCESS, store Result (cast UINT8 Operand))
  else (RETURN_BUFFER_TOO_SMALL, store Result UINT8_ERROR).

Definition SafeInt64ToInt16 (Operand : Z) (Result : out) : RETURN_STATUS * out :=
  if is_NULL Result then (RETURN_INVALID_PARAMETER, Result) else
  if (Operand >=? MIN_INT16) && (Operand <=? MAX_INT16)
  then (RETURN_SUCCESS, store Result (cast INT16 Operand))
  else (RETURN_BUFFER_TOO_SMALL, store Result INT16_ERROR).

Definition SafeInt64ToUint16 (Operand : Z) (Result : out) : RETURN_STATUS * out :=
  if is_NULL Result then (RETURN_INVALID_PARAMETER, Result) else
  if (Operand >=? 0) && (Operand <=? MAX_UINT16)
  then (RETURN_SUCCESS, store Result (cast UINT16 Operand))
  else (RETURN_BUFFER_TOO_SMALL, store Result UINT16_ERROR).

Definition SafeInt64ToInt32 (Operand : Z) (Result : out) : RETURN_STATUS * out :=
  if is_NULL Result then (RETURN_INVALID_PARAMETER, Result) else
  if (Operand >=? MIN_INT32) && (Operand <=? MAX_INT32)
  then (RETURN_SUCCESS, store Result (cast INT32 Operand))
  else (RETURN_BUFFER_TOO_SMALL, store Result INT32_ERROR).

Definition SafeInt64ToUint32 (Operand : Z) (Result : out) : RETURN_STATUS * out :=
  if is_NULL Result then (RETURN_INVALID_PARAMETER, Result) else
  if (Operand >=? 0) && (Operand <=? MAX_UINT32)
  then (RETURN_SUCCESS, store Result (cast UINT32 Operand))
  else (RETURN_BUFFER_TOO_SMALL, store Result UINT32_ERROR).

Definition SafeInt64ToUint64 (Operand : Z) (Result : out) : RETURN_STATUS * out :=
  if is_NULL Result then (RETURN_INVALID_PARAMETER, Result) else
  if Operand >=? 0
  then (RETURN_SUCCESS, store Result (cast UINT64 Operand))
  else (RETURN_BUFFER_TOO_SMALL, store Result UINT64_ERROR).

Definition SafeUint64ToInt8 (Operand : Z) (Result : out) : RETURN_STATUS * out :=
  if is_NULL Result then (RETURN_INVALID_PARAMETER, Result) else
  if Operand <=? MAX_INT8
  then (RETURN_SUCCESS, store Result (cast INT8 Operand))
  else (RETURN_BUFFER_TOO_SMALL, store Result INT8_ERROR).

Definition SafeUint64ToChar8 (Operand : Z) (Result : out) : RETURN_STATUS * out :=
  if is_NULL Result then (RETURN_INVALID_PARAMETER, Result) else
  if Operand <=? MAX_INT8
  then (RETURN_SUCCESS, store Result (cast CHAR8 (cast INT8 Operand)))
  else (RETURN_BUFFER_TOO_SMALL, store Result CHAR8_ERROR).

Definition SafeUint64ToUint8 (Operand : Z) (Result : out) : RETURN_STATUS * out :=
  if is_NULL Result then (RETURN_INVALID_PARAMETER, Result) else
  if Operand <=? MAX_UINT8
  then (RETURN_SUCCESS, store Result (cast UINT8 Operand))
  else (RETURN_BUFFER_TOO_SMALL, store Result UINT8_ERROR).

Definition SafeUint64ToInt16 (Operand : Z) (Result : out) : RETURN_STATUS * out :=
  if is_NULL Result then (RETURN_INVALID_PARAMETER, Result) else
  if Operand <=? MAX_INT16
  then (RETURN_SUCCESS, store Result (cast INT16 Operand))
  else (RETURN_BUFFER_TOO_SMALL, store Result INT16_ERROR).

Definition SafeUint64ToUint16 (Operand : Z) (Result : out) : RETURN_STATUS * out :=
  if is_NULL Result then (RETURN_INVALID_PARAMETER, Result) else
  if Operand <=? MAX_UINT16
  then (RETURN_SUCCESS, store Result (cast UINT16 Operand))
  else (RETURN_BUFFER_TOO_SMALL, store Result UINT16_ERROR).

Definition SafeUint64ToInt32 (Operand : Z) (Result : out) : RETURN_STATUS * out :=
  if is_NULL Result then (RETURN_INVALID_PARAMETER, Result) else
  if Operand <=? MAX_INT32
  then (RETURN_SUCCESS, store Result (cast INT32 Operand))
  else (RETURN_BUFFER_TOO_SMALL, store Result INT32_ERROR).

Definition SafeUint64ToUint32 (Operand : Z) (Result : out) : RETURN_STATUS * out :=
  if is_NULL Result then (RETURN_INVALID_PARAMETER, Result) else
  if Operand <=? MAX_UINT32
  then (RETURN_SUCCESS, store Result (cast UINT32 Operand))
  else (RETURN_BUFFER_TOO_SMALL, store Result UINT32_ERROR).

Definition SafeUint64ToIntn (Operand : Z) (Result : out) : RETURN_STATUS * out :=
  if is_NULL Result then (RETURN_INVALID_PARAMETER, Result) else
  if Operand <=? MAX_INTN
  then (RETURN_SUCCESS, store Result (cast INTN Operand))
  else (RETURN_BUFFER_TOO_SMALL, store Result INTN_ERROR).

Definition SafeUint64ToInt64 (Operand : Z) (Result : out) : RETURN_STATUS * out :=
  if is_NULL Result then (RETURN_INVALID_PARAMETER, Result) else
  if Operand <=? MAX_INT64
  then (RETURN_SUCCESS, store Result (cast INT64 Operand))
  else (RETURN_BUFFER_TOO_SMALL, store Result INT64_ERROR).


(** ** SafeIntLib64.c *)

Definition SafeInt32ToUintn (Operand : Z) (Result : out) : RETURN_STATUS * out :=
  SafeInt32ToUint64 Operand Result.

Definition SafeUint32ToIntn (Operand : Z) (Result : out) : RETURN_STATUS * out :=
  if is_NULL Result then (RETURN_INVALID_PARAMETER, Result) else
  (RETURN_SUCCESS, store Result (cast INTN Operand)).

Definition SafeIntnToInt32 (Operand : Z) (Result : out) : RETURN_STATUS * out :=
  SafeInt64ToInt32 (cast INT64 Operand) Result.

Definition SafeIntnToUint32 (Operand : Z) (Result : out) : RETURN_STATUS * out :=
  SafeInt64ToUint32 (cast INT64 Operand) Result.

Definition SafeUintnToUint32 (Operand : Z) (Result : out) : RETURN_STATUS * out :=
  SafeUint64ToUint32 (cast UINT64 Operand) Result.

Definition SafeUintnToInt64 (Operand : Z) (Result : out) : RETURN_STATUS * out :=
  SafeUint64ToInt64 (cast UINT64 Operand) Result.

Definition SafeInt64ToIntn (Operand : Z) (Result : out) : RETURN_STATUS * out :=
  if is_NULL Result then (RETURN_INVALID_PARAMETER, Result) else
  (RETURN_SUCCESS, store Result (cast INTN Operand)).

Definition SafeInt64ToUintn (Operand : Z) (Result : out) : RETURN_STATUS * out :=
  SafeInt64ToUint64 Operand Result.

Definition SafeUint64ToUintn (Operand : Z) (Result : out) : RETURN_STATUS * out :=
  if is_NULL Result then (RETURN_INVALID_PARAMETER, Result) else
  (RETURN_SUCCESS, store Result (cast UINTN Operand)).

(** ** Contract

    What every conversion promises: a NULL buffer is refused, a representable
    operand is stored exactly, any other operand leaves the error value. *)
Record conversion := Conv {
  conv_from : ctype;
  conv_lo : Z;
  conv_hi : Z;
  conv_error : Z;
  conv_fn : Z → out → RETURN_STATUS * out }.

Definition conversion_exact (c : conversion) : Prop :=
  ∀ Operand old, in_range (conv_from c) Operand →
    conv_fn c Operand None = (RETURN_INVALID_PARAMETER, None) ∧
    conv_fn c Operand (Some old)
      = if decide (conv_lo c ≤ Operand ≤ conv_hi c)
        then (RETURN_SUCCESS, Some Operand)
        else (RETURN_BUFFER_TOO_SMALL, Some (conv_error c)).

Definition conversions : list conversion :=
  [ Conv INT8 (tmin UINT8) (tmax UINT8) UINT8_ERROR SafeInt8ToUint8;
    Conv INT8 0 MAX_INT8 CHAR8_ERROR SafeInt8ToChar8;
    Conv INT8 (tmin UINT16) (tmax UINT16) UINT16_ERROR SafeInt8ToUint16;
    Conv INT8 (tmin UINT32) (tmax UINT32) UINT32_ERROR SafeInt8ToUint32;
    Conv INT8 (tmin UINTN) (tmax UINTN) UINTN_ERROR SafeInt8ToUintn;
    Conv INT8 (tmin UINT64) (tmax UINT64) UINT64_ERROR SafeInt8ToUint64;
    Conv UINT8 (tmin INT8) (tmax INT8) INT8_ERROR SafeUint8ToInt8;
    Conv UINT8 0 MAX_INT8 CHAR8_ERROR SafeUint8ToChar8;
    Conv INT16 (tmin INT8) (tmax INT8) INT8_ERROR SafeInt16ToInt8;
    Conv INT16 0 MAX_INT8 CHAR8_ERROR SafeInt16ToChar8;
    Conv INT16 (tmin UINT8) (tmax UINT8) UINT8_ERROR SafeInt16ToUint8;
    Conv INT16 (tmin UINT16) (tmax UINT16) UINT16_ERROR SafeInt16ToUint16;
    Conv INT16 (tmin UINT32) (tmax UINT32) UINT32_ERROR SafeInt16ToUint32;
    Conv INT16 (tmin UINTN) (tmax UINTN) UINTN_ERROR SafeInt16ToUintn;
    Conv INT16 (tmin UINT64) (tmax UINT64) UINT64_ERROR SafeInt16ToUint64;
    Conv UINT16 (tmin INT8) (tmax INT8) INT8_ERROR SafeUint16ToInt8;
    Conv UINT16 0 MAX_INT8 CHAR8_ERROR SafeUint16ToChar8;
    Conv UINT16 (tmin UINT8) (tmax UINT8) UINT8_ERROR SafeUint16ToUint8;
    Conv UINT16 (tmin INT16) (tmax INT16) INT16_ERROR SafeUint16ToInt16;
    Conv INT32 (tmin INT8) (tmax INT8) INT8_ERROR SafeInt32ToInt8;
    Conv INT32 0 MAX_INT8 CHAR8_ERROR SafeInt32ToChar8;
    Conv INT32 (tmin UINT8) (tmax UINT8) UINT8_ERROR SafeInt32ToUint8;
    Conv INT32 (tmin INT16) (tmax INT16) INT16_ERROR SafeInt32ToInt16;
    Conv INT32 (tmin UINT16) (tmax UINT16) UINT16_ERROR SafeInt32ToUint16;
    Conv INT32 (tmin UINT32) (tmax UINT32) UINT32_ERROR SafeInt32ToUint32;
    Conv INT32 (tmin UINT64) (tmax UINT64) UINT64_ERROR SafeInt32ToUint64;
    Conv UINT32 (tmin INT8) (tmax INT8) INT8_ERROR SafeUint32ToInt8;
    Conv UINT32 0 MAX_INT8 CHAR8_ERROR SafeUint32ToChar8;
    Conv UINT32 (tmin UINT8) (tmax UINT8) UINT8_ERROR SafeUint32ToUint8;
    Conv UINT32 (tmin INT16) (tmax INT16) INT16_ERROR SafeUint32ToInt16;
    Conv UINT32 (tmin UINT16) (tmax UINT16) UINT16_ERROR SafeUint32ToUint16;
    Conv UINT32 (tmin INT32) (tmax INT32) INT32_ERROR SafeUint32ToInt32;
    Conv INTN (tmin INT8) (tmax INT8) INT8_ERROR SafeIntnToInt8;
    Conv INTN 0 MAX_INT8 CHAR8_ERROR SafeIntnToChar8;
    Conv INTN (tmin UINT8) (tmax UINT8) UINT8_ERROR SafeIntnToUint8;
    Conv INTN (tmin INT16) (tmax INT16) INT16_ERROR SafeIntnToInt16;
    Conv INTN (tmin UINT16) (tmax UINT16) UINT16_ERROR SafeIntnToUint16;
    Conv INTN (tmin UINTN) (tmax UINTN) UINTN_ERROR SafeIntnToUintn;
    Conv INTN (tmin UINT64) (tmax UINT64) UINT64_ERROR SafeIntnToUint64;
    Conv UINTN (tmin INT8) (tmax INT8) INT8_ERROR SafeUintnToInt8;
    Conv UINTN 0 MAX_INT8 CHAR8_ERROR SafeUintnToChar8;
    Conv UINTN (tmin UINT8) (tmax UINT8) UINT8_ERROR SafeUintnToUint8;
    Conv UINTN (tmin INT16) (tmax INT16) INT16_ERROR SafeUintnToInt16;
    Conv UINTN (tmin UINT16) (tmax UINT16) UINT16_ERROR SafeUintnToUint16;
    Conv UINTN (tmin INT32) (tmax INT32) INT32_ERROR SafeUintnToInt32;
    Conv UINTN (tmin INTN) (tmax INTN) INTN_ERROR SafeUintnToIntn;
    Conv INT64 (tmin INT8) (tmax INT8) INT8_ERROR SafeInt64ToInt8;
    Conv INT64 0 MAX_INT8 CHAR8_ERROR SafeInt64ToChar8;
    Conv INT64 (tmin UINT8) (tmax UINT8) UINT8_ERROR SafeInt64ToUint8;
    Conv INT64 (tmin INT16) (tmax INT16) INT16_ERROR SafeInt64ToInt16;
    Conv INT64 (tmin UINT16) (tmax UINT16) UINT16_ERROR SafeInt64ToUint16;
    Conv INT64 (tmin INT32) (tmax INT32) INT32_ERROR SafeInt64ToInt32;
    Conv INT64 (tmin UINT32) (tmax UINT32) UINT32_ERROR SafeInt64ToUint32;
    Conv INT64 (tmin UINT64) (tmax UINT64) UINT64_ERROR SafeInt64ToUint64;
    Conv UINT64 (tmin INT8) (tmax INT8) INT8_ERROR SafeUint64ToInt8;
    Conv UINT64 0 MAX_INT8 CHAR8_ERROR SafeUint64ToChar8;
    Conv UINT64 (tmin UINT8) (tmax UINT8) UINT8_ERROR SafeUint64ToUint8;
    Conv UINT64 (tmin INT16) (tmax INT16) INT16_ERROR SafeUint64ToInt16;
    Conv UINT64 (tmin UINT16) (tmax UINT16) UINT16_ERROR SafeUint64ToUint16;
    Conv UINT64 (tmin INT32) (tmax INT32) INT32_ERROR SafeUint64ToInt32;
    Conv UINT64 (tmin UINT32) (tmax UINT32) UINT32_ERROR SafeUint64ToUint32;
    Conv UINT64 (tmin INTN) (tmax INTN) INTN_ERROR SafeUint64ToIntn;
    Conv UINT64 (tmin INT64) (tmax INT64) INT64_ERROR SafeUint64ToInt64;
    Conv INT32 (tmin UINTN) (tmax UINTN) UINTN_ERROR SafeInt32ToUintn;
    Conv UINT32 (tmin INTN) (tmax INTN) INTN_ERROR SafeUint32ToIntn;
    Conv INTN (tmin INT32) (tmax INT32) INT32_ERROR SafeIntnToInt32;
    Conv INTN (tmin UINT32) (tmax UINT32) UINT32_ERROR SafeIntnToUint32;
    Conv UINTN (tmin UINT32) (tmax UINT32) UINT32_ERROR SafeUintnToUint32;
    Conv UINTN (tmin INT64) (tmax INT64) INT64_ERROR SafeUintnToInt64;
    Conv INT64 (tmin INTN) (tmax INTN) INTN_ERROR SafeInt64ToIntn;
    Conv INT64 (tmin UINTN) (tmax UINTN) UINTN_ERROR SafeInt64ToUintn;
    Conv UINT64 (tmin UINTN) (tmax UINTN) UINTN_ERROR SafeUint64ToUintn ].

Lemma CHAR8_small z : 0 ≤ z ≤ MAX_INT8 → cast CHAR8 z = z.
Proof.
  intros Hz. apply cast_id; [done|].
  unfold CHAR8. destruct char_signed; cint_unfold; lia.
Qed.

Lemma cast_INTN_UINT32 z : in_range UINT32 z → cast INTN z = z.
Proof. intros Hz. apply cast_id; [done|]. cint_unfold; lia. Qed.

End conversions.

(** Case split on the guards of the body and of the contract, drop the casts
    of values that fit, and close contradictory branches by arithmetic. *)
Ltac simp_casts :=
  repeat match goal with
  | |- context [cast CHAR8 ?z] => rewrite (CHAR8_small z) by (cint_unfold; lia)
  | |- context [cast ?t ?z] =>
      rewrite (cast_id t z) by (first [reflexivity | cint_unfold; lia])
  end.

Ltac conv_solve :=
  intros Operand old HO; split; [reflexivity|];
  cbn [conv_from conv_lo conv_hi conv_error conv_fn] in *;
  repeat (lazymatch goal with
    |- ?f _ _ = _ => let g := eval red in f in change f with g end; cbv beta);
  cbn [is_NULL store fmap option_fmap option_map];
  simp_casts; repeat case_decide;
  repeat match goal with |- context [if ?b then _ else _] => destruct b eqn:? end;
  bool_hyps; simp_casts; try done; exfalso; cint_unfold; lia.

(** C39: every conversion function of SafeIntLib, on the X64 build, stores its
    operand unchanged exactly when the destination type can represent it, for
    CHAR8 (plain char, signed or not) exactly when it lies within 0 to 127,
    reports BUFFER_TOO_SMALL with the type's error value otherwise, and refuses
    a NULL result buffer. *)
Theorem safe_conversions_exact `{CharSign} : Forall conversion_exact conversions.
Proof.
  repeat (apply Forall_cons; split); [..|apply Forall_nil; done]; conv_solve.
Qed.
