(* ===== verification/SafeIntArith.v ===== *)
(** * Checked integer arithmetic (MdePkg/Library/BaseSafeIntLib/SafeIntLib.c and
    the UINTN/INTN wrappers of SafeIntLib64.c)

    A call is [None] when one of its C expressions is undefined: a signed
    intermediate result that does not fit its type, or an ASSERT of the Math64
    shifts it uses. *)
From S2P Require Import Prelude CBase Math64 SafeIntConv.
Local Open Scope Z_scope.

(** A C expression of signed type [t]: undefined when it overflows. *)
Definition chk (t : ctype) (z : Z) : option Z :=
  if decide (in_range t z) then Some z else None.

Section arithmetic.
Context `{CharSign}.

Abbreviation result := (option (RETURN_STATUS * out)).

(** ** Unsigned addition and subtraction *)

Definition SafeUint8Add (Augend Addend : Z) (Result : out) : result :=
  if is_NULL Result then Some (RETURN_INVALID_PARAMETER, Result) else
  if cast UINT8 (Augend + Addend) >=? Augend
  then Some (RETURN_SUCCESS, store Result (cast UINT8 (Augend + Addend)))
  else Some (RETURN_BUFFER_TOO_SMALL, store Result UINT8_ERROR).

Definition SafeUint16Add (Augend Addend : Z) (Result : out) : result :=
  if is_NULL Result then Some (RETURN_INVALID_PARAMETER, Result) else
  if cast UINT16 (Augend + Addend) >=? Augend
  then Some (RETURN_SUCCESS, store Result (cast UINT16 (Augend + Addend)))
  else Some (RETURN_BUFFER_TOO_SMALL, store Result UINT16_ERROR).

Definition SafeUint32Add (Augend Addend : Z) (Result : out) : result :=
  if is_NULL Result then Some (RETURN_INVALID_PARAMETER, Result) else
  if cast UINT32 (Augend + Addend) >=? Augend
  then Some (RETURN_SUCCESS, store Result (cast UINT32 (Augend + Addend)))
  else Some (RETURN_BUFFER_TOO_SMALL, store Result UINT32_ERROR).

Definition SafeUint64Add (Augend Addend : Z) (Result : out) : result :=
  if is_NULL Result then Some (RETURN_INVALID_PARAMETER, Result) else
  if cast UINT64 (Augend + Addend) >=? Augend
  then Some (RETURN_SUCCESS, store Result (cast UINT64 (Augend + Addend)))
  else Some (RETURN_BUFFER_TOO_SMALL, store Result UINT64_ERROR).

Definition SafeUint8Sub (Minuend Subtrahend : Z) (Result : out) : result :=
  if is_NULL Result then Some (RETURN_INVALID_PARAMETER, Result) else
  if Minuend >=? Subtrahend
  then Some (RETURN_SUCCESS, store Result (cast UINT8 (Minuend - Subtrahend)))
  else Some (RETURN_BUFFER_TOO_SMALL, store Result UINT8_ERROR).

Definition SafeUint16Sub (Minuend Subtrahend : Z) (Result : out) : result :=
  if is_NULL Result then Some (RETURN_INVALID_PARAMETER, Result) else
  if Minuend >=? Subtrahend
  then Some (RETURN_SUCCESS, store Result (cast UINT16 (Minuend - Subtrahend)))
  else Some (RETURN_BUFFER_TOO_SMALL, store Result UINT16_ERROR).

Definition SafeUint32Sub (Minuend Subtrahend : Z) (Result : out) : result :=
  if is_NULL Result then Some (RETURN_INVALID_PARAMETER, Result) else
  if Minuend >=? Subtrahend
  then Some (RETURN_SUCCESS, store Result (cast UINT32 (Minuend - Subtrahend)))
  else Some (RETURN_BUFFER_TOO_SMALL, store Result UINT32_ERROR).

Definition SafeUint64Sub (Minuend Subtrahend : Z) (Result : out) : result :=
  if is_NULL Result then Some (RETURN_INVALID_PARAMETER, Result) else
  if Minuend >=? Subtrahend
  then Some (RETURN_SUCCESS, store Result (cast UINT64 (Minuend - Subtrahend)))
  else Some (RETURN_BUFFER_TOO_SMALL, store Result UINT64_ERROR).

(** ** Unsigned multiplication *)

Definition SafeUint8Mult (Multiplicand Multiplier : Z) (Result : out) : result :=
  let IntermediateResult := cast UINT32 (cast UINT32 Multiplicand * cast UINT32 Multiplier) in
  Some (SafeUint32ToUint8 IntermediateResult Result).

Definition SafeUint16Mult (Multiplicand Multiplier : Z) (Result : out) : result :=
  let IntermediateResult := cast UINT32 (cast UINT32 Multiplicand * cast UINT32 Multiplier) in
  Some (SafeUint32ToUint16 IntermediateResult Result).

Definition SafeUint32Mult (Multiplicand Multiplier : Z) (Result : out) : result :=
  let IntermediateResult := cast UINT64 (cast UINT64 Multiplicand * cast UINT64 Multiplier) in
  Some (SafeUint64ToUint32 IntermediateResult Result).

(** The 32.32 x 32.32 product. *)
Definition SafeUint64Mult (Multiplicand Multiplier : Z) (Result : out) : result :=
  if is_NULL Result then Some (RETURN_INVALID_PARAMETER, Result) else
  let overflow := Some (RETURN_BUFFER_TOO_SMALL, store Result UINT64_ERROR) in
  hiA ← RShiftU64 Multiplicand 32;
  hiC ← RShiftU64 Multiplier 32;
  let DwordA := cast UINT32 hiA in
  let DwordC := cast UINT32 hiC in
  if (DwordA =? 0) && (DwordC =? 0) then
    let DwordB := cast UINT32 Multiplicand in
    let DwordD := cast UINT32 Multiplier in
    Some (RETURN_SUCCESS,
          store Result (cast UINT64 (cast UINT64 DwordB * cast UINT64 DwordD)))
  else if (DwordA =? 0) || (DwordC =? 0) then
    let DwordD := cast UINT32 Multiplier in
    let ProductAD := MultU64x64 (cast UINT64 DwordA) (cast UINT64 DwordD) in
    if Z.land ProductAD 0xffffffff00000000 =? 0 then
      let DwordB := cast UINT32 Multiplicand in
      let ProductBC := MultU64x64 (cast UINT64 DwordB) (cast UINT64 DwordC) in
      if Z.land ProductBC 0xffffffff00000000 =? 0 then
        BC ← LShiftU64 ProductBC 32;
        AD ← LShiftU64 ProductAD 32;
        '(Status, UnsignedResult) ← SafeUint64Add BC AD (Some 0);
        if negb (RETURN_ERROR Status) then
          let ProductBD := MultU64x64 (cast UINT64 DwordB) (cast UINT64 DwordD) in
          sum ← UnsignedResult;
          '(Status, UnsignedResult) ← SafeUint64Add sum ProductBD (Some sum);
          if negb (RETURN_ERROR Status) then
            sum ← UnsignedResult;
            Some (RETURN_SUCCESS, store Result sum)
          else overflow
        else overflow
      else overflow
    else overflow
  else overflow.

(** ** Signed operations *)

Definition SafeInt8Add (Augend Addend : Z) (Result : out) : result :=
  s ← chk INT32 (cast INT32 Augend + cast INT32 Addend);
  Some (SafeInt32ToInt8 s Result).

Definition SafeChar8Add (Augend Addend : Z) (Result : out) : result :=
  if is_NULL Result then Some (RETURN_INVALID_PARAMETER, Result) else
  let Augend32 := cast INT32 Augend in
  let Addend32 := cast INT32 Addend in
  if (Augend32 <? 0) || (Augend32 >? MAX_INT8)
  then Some (RETURN_BUFFER_TOO_SMALL, store Result CHAR8_ERROR)
  else if (Addend32 <? 0) || (Addend32 >? MAX_INT8)
  then Some (RETURN_BUFFER_TOO_SMALL, store Result CHAR8_ERROR)
  else s ← chk INT32 (Augend32 + Addend32); Some (SafeInt32ToChar8 s Result).

Definition SafeInt16Add (Augend Addend : Z) (Result : out) : result :=
  s ← chk INT32 (cast INT32 Augend + cast INT32 Addend);
  Some (SafeInt32ToInt16 s Result).

Definition SafeInt32Add (Augend Addend : Z) (Result : out) : result :=
  s ← chk INT64 (cast INT64 Augend + cast INT64 Addend);
  Some (SafeInt64ToInt32 s Result).

Definition SafeInt64Add (Augend Addend : Z) (Result : out) : result :=
  if is_NULL Result then Some (RETURN_INVALID_PARAMETER, Result) else
  over ← (if Addend >? 0 then m ← chk INT64 (MAX_INT64 - Addend); Some (Augend >? m)
          else Some false);
  fault ← (if (over : bool) then Some true else
           if Addend <? 0 then m ← chk INT64 (MIN_INT64 - Addend); Some (Augend <? m)
           else Some false);
  if (fault : bool) then Some (RETURN_BUFFER_TOO_SMALL, store Result INT64_ERROR)
  else s ← chk INT64 (Augend + Addend); Some (RETURN_SUCCESS, store Result s).

Definition SafeInt8Sub (Minuend Subtrahend : Z) (Result : out) : result :=
  d ← chk INT32 (cast INT32 Minuend - cast INT32 Subtrahend);
  Some (SafeInt32ToInt8 d Result).

Definition SafeChar8Sub (Minuend Subtrahend : Z) (Result : out) : result :=
  if is_NULL Result then Some (RETURN_INVALID_PARAMETER, Result) else
  let Minuend32 := cast INT32 Minuend in
  let Subtrahend32 := cast INT32 Subtrahend in
  if (Minuend32 <? 0) || (Minuend32 >? MAX_INT8)
  then Some (RETURN_BUFFER_TOO_SMALL, store Result CHAR8_ERROR)
  else if (Subtrahend32 <? 0) || (Subtrahend32 >? MAX_INT8)
  then Some (RETURN_BUFFER_TOO_SMALL, store Result CHAR8_ERROR)
  else d ← chk INT32 (Minuend32 - Subtrahend32); Some (SafeInt32ToChar8 d Result).

Definition SafeInt16Sub (Minuend Subtrahend : Z) (Result : out) : result :=
  d ← chk INT32 (cast INT32 Minuend - cast INT32 Subtrahend);
  Some (SafeInt32ToInt16 d Result).

Definition SafeInt32Sub (Minuend Subtrahend : Z) (Result : out) : result :=
  d ← chk INT64 (cast INT64 Minuend - cast INT64 Subtrahend);
  Some (SafeInt64ToInt32 d Result).

Definition SafeInt64Sub (Minuend Subtrahend : Z) (Result : out) : result :=
  if is_NULL Result then Some (RETURN_INVALID_PARAMETER, Result) else
  under ← (if Subtrahend >? 0
           then m ← chk INT64 (MIN_INT64 + Subtrahend); Some (Minuend <? m)
           else Some false);
  fault ← (if (under : bool) then Some true else
           if Subtrahend <? 0
           then m ← chk INT64 (MAX_INT64 + Subtrahend); Some (Minuend >? m)
           else Some false);
  if (fault : bool) then Some (RETURN_BUFFER_TOO_SMALL, store Result INT64_ERROR)
  else d ← chk INT64 (Minuend - Subtrahend); Some (RETURN_SUCCESS, store Result d).

Definition SafeInt8Mult (Multiplicand Multiplier : Z) (Result : out) : result :=
  p ← chk INT32 (cast INT32 Multiplier * cast INT32 Multiplicand);
  Some (SafeInt32ToInt8 p Result).

Definition SafeChar8Mult (Multiplicand Multiplier : Z) (Result : out) : result :=
  if is_NULL Result then Some (RETURN_INVALID_PARAMETER, Result) else
  let Multiplicand32 := cast INT32 Multiplicand in
  let Multiplier32 := cast INT32 Multiplier in
  if (Multiplicand32 <? 0) || (Multiplicand32 >? MAX_INT8)
  then Some (RETURN_BUFFER_TOO_SMALL, store Result CHAR8_ERROR)
  else if (Multiplier32 <? 0) || (Multiplier32 >? MAX_INT8)
  then Some (RETURN_BUFFER_TOO_SMALL, store Result CHAR8_ERROR)
  else p ← chk INT32 (Multiplicand32 * Multiplier32); Some (SafeInt32ToChar8 p Result).

Definition SafeInt16Mult (Multiplicand Multiplier : Z) (Result : out) : result :=
  p ← chk INT32 (cast INT32 Multiplicand * cast INT32 Multiplier);
  Some (SafeInt32ToInt16 p Result).

Definition SafeInt32Mult (Multiplicand Multiplier : Z) (Result : out) : result :=
  Some (SafeInt64ToInt32 (MultS64x64 Multiplicand Multiplier) Result).

Definition MIN_INT64_MAGNITUDE : Z := cast UINT64 (cast UINT64 (- (MIN_INT64 + 1)) + 1).

Definition SafeInt64Mult (Multiplicand Multiplier : Z) (Result : out) : result :=
  if is_NULL Result then Some (RETURN_INVALID_PARAMETER, Result) else
  UnsignedMultiplicand ←
    (if Multiplicand <? 0
     then p ← chk INT64 (Multiplicand + 1); n ← chk INT64 (- p);
          Some (cast UINT64 (cast UINT64 n + 1))
     else Some (cast UINT64 Multiplicand));
  UnsignedMultiplier ←
    (if Multiplier <? 0
     then p ← chk INT64 (Multiplier + 1); n ← chk INT64 (- p);
          Some (cast UINT64 (cast UINT64 n + 1))
     else Some (cast UINT64 Multiplier));
  '(Status, u) ← SafeUint64Mult UnsignedMultiplicand UnsignedMultiplier (Some 0);
  if negb (RETURN_ERROR Status) then
    UnsignedResult ← u;
    if negb (Bool.eqb (Multiplicand <? 0) (Multiplier <? 0)) then
      if UnsignedResult >? MIN_INT64_MAGNITUDE
      then Some (RETURN_BUFFER_TOO_SMALL, store Result INT64_ERROR)
      else if UnsignedResult =? MIN_INT64_MAGNITUDE
      then Some (Status, store Result MIN_INT64)
      else n ← chk INT64 (- cast INT64 UnsignedResult); Some (Status, store Result n)
    else
      if UnsignedResult >? MAX_INT64
      then Some (RETURN_BUFFER_TOO_SMALL, store Result INT64_ERROR)
      else Some (Status, store Result (cast INT64 UnsignedResult))
  else Some (Status, store Result INT64_ERROR).

(** ** SafeIntLib64.c *)

Definition SafeUintnAdd (Augend Addend : Z) (Result : out) : result :=
  SafeUint64Add (cast UINT64 Augend) (cast UINT64 Addend) Result.
Definition SafeUintnSub (Minuend Subtrahend : Z) (Result : out) : result :=
  SafeUint64Sub (cast UINT64 Minuend) (cast UINT64 Subtrahend) Result.
Definition SafeUintnMult (Multiplicand Multiplier : Z) (Result : out) : result :=
  SafeUint64Mult (cast UINT64 Multiplicand) (cast UINT64 Multiplier) Result.
Definition SafeIntnAdd (Augend Addend : Z) (Result : out) : result :=
  SafeInt64Add (cast INT64 Augend) (cast INT64 Addend) Result.
Definition SafeIntnSub (Minuend Subtrahend : Z) (Result : out) : result :=
  SafeInt64Sub (cast INT64 Minuend) (cast INT64 Subtrahend) Result.
Definition SafeIntnMult (Multiplicand Multiplier : Z) (Result : out) : result :=
  SafeInt64Mult (cast INT64 Multiplicand) (cast INT64 Multiplier) Result.

(** ** Contract

    [op_exact]: on operands of its type the function never executes undefined
    C, refuses a NULL buffer, stores the exact mathematical result when operands
    and result lie in [op_lo, op_hi], and reports the error value otherwise. *)
Record operation := Op {
  op_type : ctype;
  op_lo : Z;
  op_hi : Z;
  op_error : Z;
  op_math : Z → Z → Z;
  op_fn : Z → Z → out → result }.

Definition op_result (o : operation) (x y : Z) : RETURN_STATUS * out :=
  if decide (op_lo o ≤ x ≤ op_hi o ∧ op_lo o ≤ y ≤ op_hi o ∧
             op_lo o ≤ op_math o x y ≤ op_hi o)
  then (RETURN_SUCCESS, Some (op_math o x y))
  else (RETURN_BUFFER_TOO_SMALL, Some (op_error o)).

Definition op_exact (o : operation) : Prop :=
  ∀ x y old, in_range (op_type o) x → in_range (op_type o) y →
    op_fn o x y None = Some (RETURN_INVALID_PARAMETER, None) ∧
    op_fn o x y (Some old) = Some (op_result o x y).

Definition additions : list operation :=
  [ Op UINT8 0 MAX_UINT8 UINT8_ERROR Z.add SafeUint8Add;
    Op UINT16 0 MAX_UINT16 UINT16_ERROR Z.add SafeUint16Add;
    Op UINT32 0 MAX_UINT32 UINT32_ERROR Z.add SafeUint32Add;
    Op UINT64 0 MAX_UINT64 UINT64_ERROR Z.add SafeUint64Add;
    Op UINTN 0 MAX_UINTN UINTN_ERROR Z.add SafeUintnAdd;
    Op INT8 MIN_INT8 MAX_INT8 INT8_ERROR Z.add SafeInt8Add;
    Op CHAR8 0 MAX_INT8 CHAR8_ERROR Z.add SafeChar8Add;
    Op INT16 MIN_INT16 MAX_INT16 INT16_ERROR Z.add SafeInt16Add;
    Op INT32 MIN_INT32 MAX_INT32 INT32_ERROR Z.add SafeInt32Add;
    Op INT64 MIN_INT64 MAX_INT64 INT64_ERROR Z.add SafeInt64Add;
    Op INTN MIN_INT64 MAX_INTN INTN_ERROR Z.add SafeIntnAdd ].

Definition subtractions : list operation :=
  [ Op UINT8 0 MAX_UINT8 UINT8_ERROR Z.sub SafeUint8Sub;
    Op UINT16 0 MAX_UINT16 UINT16_ERROR Z.sub SafeUint16Sub;
    Op UINT32 0 MAX_UINT32 UINT32_ERROR Z.sub SafeUint32Sub;
    Op UINT64 0 MAX_UINT64 UINT64_ERROR Z.sub SafeUint64Sub;
    Op UINTN 0 MAX_UINTN UINTN_ERROR Z.sub SafeUintnSub;
    Op INT8 MIN_INT8 MAX_INT8 INT8_ERROR Z.sub SafeInt8Sub;
    Op CHAR8 0 MAX_INT8 CHAR8_ERROR Z.sub SafeChar8Sub;
    Op INT16 MIN_INT16 MAX_INT16 INT16_ERROR Z.sub SafeInt16Sub;
    Op INT32 MIN_INT32 MAX_INT32 INT32_ERROR Z.sub SafeInt32Sub;
    Op INT64 MIN_INT64 MAX_INT64 INT64_ERROR Z.sub SafeInt64Sub;
    Op INTN MIN_INT64 MAX_INTN INTN_ERROR Z.sub SafeIntnSub ].

Definition multiplications : list operation :=
  [ Op UINT8 0 MAX_UINT8 UINT8_ERROR Z.mul SafeUint8Mult;
    Op UINT16 0 MAX_UINT16 UINT16_ERROR Z.mul SafeUint16Mult;
    Op UINT32 0 MAX_UINT32 UINT32_ERROR Z.mul SafeUint32Mult;
    Op UINT64 0 MAX_UINT64 UINT64_ERROR Z.mul SafeUint64Mult;
    Op UINTN 0 MAX_UINTN UINTN_ERROR Z.mul SafeUintnMult;
    Op INT8 MIN_INT8 MAX_INT8 INT8_ERROR Z.mul SafeInt8Mult;
    Op CHAR8 0 MAX_INT8 CHAR8_ERROR Z.mul SafeChar8Mult;
    Op INT16 MIN_INT16 MAX_INT16 INT16_ERROR Z.mul SafeInt16Mult;
    Op INT32 MIN_INT32 MAX_INT32 INT32_ERROR Z.mul SafeInt32Mult;
    Op INT64 MIN_INT64 MAX_INT64 INT64_ERROR Z.mul SafeInt64Mult;
    Op INTN MIN_INT64 MAX_INTN INTN_ERROR Z.mul SafeIntnMult ].

(** ** Lemmas *)

Lemma chk_Some t z : in_range t z → chk t z = Some z.
Proof. intros Hz. unfold chk. by case_decide. Qed.

Lemma mul_abs_bound x y a b : Z.abs x ≤ a → Z.abs y ≤ b → Z.abs (x * y) ≤ a * b.
Proof. intros. rewrite Z.abs_mul. nia. Qed.

Lemma high_dword_zero p :
  0 ≤ p < 2 ^ 64 → (Z.land p 0xffffffff00000000 =? 0) = (p <? 2 ^ 32).
Proof.
  intros Hp.
  assert (Z.land p 0xffffffff00000000 = p / 2 ^ 32 * 2 ^ 32) as ->.
  { change 0xffffffff00000000 with (Z.shiftl (Z.ones 32) 32).
    rewrite <- Z.shiftl_mul_pow2, <- Z.shiftr_div_pow2 by lia.
    rewrite <- (Z.mod_small (Z.shiftr p 32) (2 ^ 32)).
    - rewrite <- Z.land_ones by lia. apply Z.bits_inj'. intros n Hn.
      rewrite Z.land_spec, !Z.shiftl_spec by lia.
      destruct (decide (n < 32)).
      + rewrite !(Z.testbit_neg_r _ (n - 32)) by lia. apply andb_false_r.
      + rewrite Z.land_spec, Z.shiftr_spec by lia. by rewrite Z.sub_add.
    - rewrite Z.shiftr_div_pow2 by lia. split; [apply Z.div_pos; lia|].
      apply Z.div_lt_upper_bound; lia. }
  pose proof (Z.div_mod p (2 ^ 32)). pose proof (Z.mod_pos_bound p (2 ^ 32)).
  destruct (Z.ltb_spec p (2 ^ 32)) as [Hlt|Hge].
  - rewrite Z.div_small by lia. done.
  - assert (1 ≤ p / 2 ^ 32) by (apply Z.div_le_lower_bound; lia). apply Z.eqb_neq. lia.
Qed.

Lemma SafeUint64Add_exact x y old :
  in_range UINT64 x → in_range UINT64 y →
  SafeUint64Add x y (Some old)
    = Some (if decide (x + y ≤ MAX_UINT64) then (RETURN_SUCCESS, Some (x + y))
            else (RETURN_BUFFER_TOO_SMALL, Some UINT64_ERROR)).
Proof.
  intros Hx Hy. unfold SafeUint64Add. cbn [is_NULL store fmap option_fmap option_map].
  unfold UINT64. rewrite cast_unsigned_add by done. fold UINT64.
  repeat case_decide; destruct (_ >=? _) eqn:Hge; try done; exfalso;
    rewrite Z.geb_leb, ?Z.leb_le, ?Z.leb_gt in Hge; cint_unfold; lia.
Qed.

Lemma RShiftU64_32 x : RShiftU64 x 32 = Some (x / 2 ^ 32).
Proof.
  unfold RShiftU64, InternalMathRShiftU64, c_shr64. cbn.
  by rewrite Z.shiftr_div_pow2.
Qed.

Lemma LShiftU64_32 x : 0 ≤ x < 2 ^ 32 → LShiftU64 x 32 = Some (x * 2 ^ 32).
Proof.
  intros Hx. unfold LShiftU64, InternalMathLShiftU64, c_shl64. cbn -[cast Z.shiftl].
  rewrite Z.shiftl_mul_pow2 by lia. f_equal. apply cast_id; [done|]. cint_unfold; lia.
Qed.

Lemma MultU64x64_small x y : 0 ≤ x < 2 ^ 32 → 0 ≤ y < 2 ^ 32 →
  MultU64x64 (cast UINT64 x) (cast UINT64 y) = x * y.
Proof.
  intros Hx Hy. unfold MultU64x64, InternalMathMultU64x64.
  rewrite (cast_id UINT64 x), (cast_id UINT64 y) by (first [done | cint_unfold; lia]).
  apply cast_id; [done|]. cint_unfold; nia.
Qed.

(** The split of a 64-bit operand into its high and low dwords. *)
Lemma dwords x : in_range UINT64 x →
  cast UINT32 (x / 2 ^ 32) = x / 2 ^ 32 ∧
  0 ≤ x / 2 ^ 32 < 2 ^ 32 ∧ 0 ≤ cast UINT32 x < 2 ^ 32 ∧
  x = x / 2 ^ 32 * 2 ^ 32 + cast UINT32 x.
Proof.
  intros Hx. assert (0 ≤ x < 2 ^ 32 * 2 ^ 32) by (cint_unfold; lia).
  assert (0 ≤ x / 2 ^ 32 < 2 ^ 32)
    by (split; [apply Z.div_pos | apply Z.div_lt_upper_bound]; lia).
  split_and!; try lia.
  - apply cast_id; [done|]. cint_unfold; lia.
  - apply (cast_range UINT32 x); done.
  - pose proof (cast_range UINT32 x ltac:(done)). cint_unfold; lia.
  - unfold cast, UINT32; cbn [signed width]. pose proof (Z.div_mod x (2 ^ 32)). lia.
Qed.

Lemma SafeUint64Mult_exact x y old :
  in_range UINT64 x → in_range UINT64 y →
  SafeUint64Mult x y (Some old)
    = Some (if decide (x * y ≤ MAX_UINT64) then (RETURN_SUCCESS, Some (x * y))
            else (RETURN_BUFFER_TOO_SMALL, Some UINT64_ERROR)).
Proof.
  intros Hx Hy. unfold SafeUint64Mult. cbn [is_NULL store fmap option_fmap option_map].
  rewrite !RShiftU64_32; cbn [mbind option_bind].
  destruct (dwords x Hx) as (-> & Ha & Hb & Ex), (dwords y Hy) as (-> & Hc & Hd & Ey).
  set (a := x / 2 ^ 32) in *. set (b := cast UINT32 x) in *.
  set (c := y / 2 ^ 32) in *. set (d := cast UINT32 y) in *.
  clearbody a b c d. subst x y. clear Hx Hy.
  change MAX_UINT64 with (2 ^ 32 * 2 ^ 32 - 1).
  assert (0 ≤ a * d < 2 ^ 32 * 2 ^ 32) by nia.
  assert (0 ≤ b * c < 2 ^ 32 * 2 ^ 32) by nia.
  assert (0 ≤ b * d < 2 ^ 32 * 2 ^ 32) by nia.
  assert (0 ≤ a * c) by nia.
  replace ((a * 2 ^ 32 + b) * (c * 2 ^ 32 + d))
    with (a * c * (2 ^ 32 * 2 ^ 32) + (b * c * 2 ^ 32 + a * d * 2 ^ 32 + b * d)) by ring.
  destruct ((a =? 0) && (c =? 0)) eqn:E0; [|destruct ((a =? 0) || (c =? 0)) eqn:E1].
  - bool_hyps. subst a c.
    rewrite (cast_id UINT64 b), (cast_id UINT64 d) by (first [done | cint_unfold; lia]).
    rewrite cast_id by (first [done | cint_unfold; lia]).
    rewrite decide_True by lia. do 3 f_equal. lia.
  - rewrite !MultU64x64_small, !high_dword_zero by lia.
    assert (a * c = 0 ∧ (a * d = 0 ∨ b * c = 0)) as [-> ?] by (bool_hyps; nia).
    destruct (Z.ltb_spec (a * d) (2 ^ 32)); [|rewrite decide_False by lia; done].
    destruct (Z.ltb_spec (b * c) (2 ^ 32)); [|rewrite decide_False by lia; done].
    rewrite !LShiftU64_32 by lia; cbn [mbind option_bind].
    rewrite SafeUint64Add_exact, decide_True by (cint_unfold; lia); cbn [mbind option_bind].
    rewrite RETURN_SUCCESS_no_error; cbn [negb].
    rewrite SafeUint64Add_exact by (cint_unfold; lia); cbn [mbind option_bind].
    change MAX_UINT64 with (2 ^ 32 * 2 ^ 32 - 1). rewrite Z.mul_0_l, Z.add_0_l.
    case_decide; [by rewrite RETURN_SUCCESS_no_error|].
    rewrite RETURN_ERROR_codes by set_solver. done.
  - assert (1 ≤ a * c) by (bool_hyps; nia). rewrite decide_False by lia. done.
Qed.

(** The magnitude computed for an operand of SafeInt64Mult. *)
Lemma magnitude_exact x : in_range INT64 x →
  (if x <? 0
   then p ← chk INT64 (x + 1); n ← chk INT64 (- p); Some (cast UINT64 (cast UINT64 n + 1))
   else Some (cast UINT64 x)) = Some (Z.abs x).
Proof.
  intros Hx. destruct (Z.ltb_spec x 0).
  - rewrite chk_Some by (cint_unfold; lia). cbn [mbind option_bind].
    rewrite chk_Some by (cint_unfold; lia). cbn [mbind option_bind].
    rewrite (cast_id UINT64 (- (x + 1))) by (first [done | cint_unfold; lia]).
    rewrite cast_id by (first [done | cint_unfold; lia]). f_equal. lia.
  - rewrite cast_id by (first [done | cint_unfold; lia]). f_equal. lia.
Qed.

Lemma SafeInt64Mult_exact x y old :
  in_range INT64 x → in_range INT64 y →
  SafeInt64Mult x y (Some old)
    = Some (if decide (MIN_INT64 ≤ x * y ≤ MAX_INT64) then (RETURN_SUCCESS, Some (x * y))
            else (RETURN_BUFFER_TOO_SMALL, Some INT64_ERROR)).
Proof.
  intros Hx Hy. unfold SafeInt64Mult. cbn [is_NULL store fmap option_fmap option_map].
  rewrite (magnitude_exact x), (magnitude_exact y) by done. cbn [mbind option_bind].
  rewrite SafeUint64Mult_exact by (cint_unfold; lia).
  rewrite <- Z.abs_mul. cbn [mbind option_bind].
  change MIN_INT64_MAGNITUDE with 9223372036854775808.
  case_decide as Hfit.
  2: { rewrite RETURN_ERROR_codes by set_solver. cbn [negb].
       rewrite decide_False by (cint_unfold; lia). done. }
  rewrite RETURN_SUCCESS_no_error. cbn [negb mbind option_bind].
  destruct (negb _) eqn:Esign.
  - assert (x * y ≤ 0).
    { destruct (Z.ltb_spec x 0), (Z.ltb_spec y 0); try done; nia. }
    destruct (_ >? _) eqn:E1; rewrite ?Z.gtb_ltb, ?Z.ltb_lt, ?Z.ltb_ge in E1.
    { rewrite decide_False by (cint_unfold; lia). done. }
    rewrite decide_True by (cint_unfold; lia).
    destruct (Z.eqb_spec (Z.abs (x * y)) 9223372036854775808).
    { do 3 f_equal. cint_unfold; lia. }
    rewrite (cast_id INT64) by (first [done | cint_unfold; lia]).
    rewrite chk_Some by (cint_unfold; lia). cbn. do 3 f_equal. lia.
  - assert (0 ≤ x * y).
    { destruct (Z.ltb_spec x 0), (Z.ltb_spec y 0); try done; nia. }
    destruct (_ >? _) eqn:E1; rewrite ?Z.gtb_ltb, ?Z.ltb_lt, ?Z.ltb_ge in E1.
    { rewrite decide_False by (cint_unfold; lia). done. }
    rewrite decide_True by (cint_unfold; lia).
    rewrite (cast_id INT64) by (first [done | cint_unfold; lia]). do 3 f_equal. lia.
Qed.

Lemma CHAR8_wide z : in_range CHAR8 z → -128 ≤ z ≤ 255.
Proof. unfold CHAR8. destruct char_signed; cint_unfold; lia. Qed.

Lemma MultS64x64_INT32 x y : in_range INT32 x → in_range INT32 y → MultS64x64 x y = x * y.
Proof.
  intros Hx Hy. unfold MultS64x64, MultU64x64, InternalMathMultU64x64.
  assert (Z.abs (x * y) ≤ 2147483648 * 2147483648)
    by (apply mul_abs_bound; cint_unfold; lia).
  assert (E : cast UINT64 (cast UINT64 x * cast UINT64 y) = cast UINT64 (x * y)).
  { unfold cast, UINT64; cbn [signed width]. by rewrite <- Z.mul_mod by lia. }
  rewrite E. clear E. unfold cast, UINT64, INT64; cbn [signed width].
  rewrite Zplus_mod_idemp_l. fold (cast (CType true 64) (x * y)).
  change ((x * y + 2 ^ (64 - 1)) mod 2 ^ 64 - 2 ^ (64 - 1)) with (cast INT64 (x * y)).
  apply cast_id; [done|]. cint_unfold; lia.
Qed.

End arithmetic.

(** Symbolic execution of a checked operation: unfold it, drop the casts of
    values that fit, discharge the overflow checks, split on the guards. *)
Ltac op_unfold :=
  repeat (lazymatch goal with
    | |- @mbind _ _ _ _ _ _ = _ => fail
    | |- ?f _ _ _ = _ => let g := eval red in f in change f with g
    | |- Some (?f _ _) = Some _ => let g := eval red in f in change f with g
    end; cbv beta zeta);
  cbn [is_NULL store fmap option_fmap option_map mbind option_bind].

(** A wrapped unsigned sum is the sum, or the sum less one modulus. *)
Ltac op_wrap :=
  match goal with
  | |- context [cast ?t (?x + ?y)] =>
      let w := eval cbv in (width t) in
      change (cast t (x + y)) with (cast (CType false w) (x + y));
      rewrite (cast_unsigned_add w x y) by (first [reflexivity | done | cint_unfold; lia]);
      case_decide
  end.

Ltac op_step :=
  first
  [ progress simp_casts
  | match goal with |- context [chk ?t ?z] =>
      rewrite (chk_Some t z) by (cint_unfold; lia) end; cbn [mbind option_bind]
  | op_wrap
  | progress op_unfold
  | match goal with |- context [if ?b then _ else _] =>
      match type of b with bool => destruct b eqn:? end end;
    cbn [mbind option_bind]; bool_hyps ].

(** Close a row of one of the operation tables. *)
Ltac op_solve :=
  intros x y old Hx Hy;
  cbn [op_type op_lo op_hi op_error op_math op_fn] in *;
  repeat lazymatch goal with H : in_range CHAR8 _ |- _ => apply CHAR8_wide in H end;
  split; [op_unfold; repeat op_step; first [reflexivity | exfalso; cint_unfold; lia]|];
  unfold op_result; cbn [op_type op_lo op_hi op_error op_math op_fn];
  case_decide; op_unfold; repeat op_step;
  first [reflexivity | exfalso; cint_unfold; lia].

(** Every checked addition of SafeIntLib (unsigned, signed, CHAR8, UINTN
    and INTN) never overflows in C, stores the exact sum when it fits the type
    and reports BUFFER_TOO_SMALL with the error value when it does not. *)
Theorem safe_add_exact `{CharSign} : Forall op_exact additions.
Proof.
  repeat (apply Forall_cons; split); [..|apply Forall_nil; done]; op_solve.
Qed.

(** The contract of [safe_add_exact] for every checked subtraction. *)
Theorem safe_sub_exact `{CharSign} : Forall op_exact subtractions.
Proof.
  repeat (apply Forall_cons; split); [..|apply Forall_nil; done]; op_solve.
Qed.

(** Bounds on the product that [lia] needs, for operands of at most 32 bits. *)
Ltac mul_bounds b :=
  match goal with
  | |- context [?x * ?y] =>
      pose proof (mul_abs_bound x y b b ltac:(cint_unfold; lia) ltac:(cint_unfold; lia));
      try (assert (0 ≤ x * y) by (apply Z.mul_nonneg_nonneg; cint_unfold; lia))
  end.

Ltac mul_solve b :=
  intros x y old Hx Hy;
  cbn [op_type op_lo op_hi op_error op_math op_fn] in *;
  repeat lazymatch goal with H : in_range CHAR8 _ |- _ => apply CHAR8_wide in H end;
  unfold op_result; cbn [op_type op_lo op_hi op_error op_math op_fn];
  mul_bounds b;
  split; [|case_decide]; op_unfold; try rewrite MultS64x64_INT32 by done;
  repeat op_step;
  first [reflexivity | by rewrite Z.mul_comm | exfalso; cint_unfold; lia].

Lemma op_exact_mult `{CharSign} t lo hi err f :
  (∀ x y, f x y None = Some (RETURN_INVALID_PARAMETER, None)) →
  (∀ x, in_range t x ↔ lo ≤ x ≤ hi) →
  (∀ x y old, in_range t x → in_range t y →
    f x y (Some old) = Some (if decide (lo ≤ x * y ≤ hi) then (RETURN_SUCCESS, Some (x * y))
                             else (RETURN_BUFFER_TOO_SMALL, Some err))) →
  op_exact (Op t lo hi err Z.mul f).
Proof.
  intros HN Hr Hf x y old Hx Hy. cbn in Hx, Hy |- *. split; [apply HN|].
  rewrite Hf by done. unfold op_result; cbn. apply Hr in Hx, Hy.
  repeat case_decide; naive_solver.
Qed.

(** The contract of [safe_add_exact] for every checked multiplication, including the
    32.32-bit long multiplication of SafeUint64Mult and the sign-and-magnitude
    multiplication of SafeInt64Mult. *)
Theorem safe_mult_exact `{CharSign} : Forall op_exact multiplications.
Proof.
  repeat (apply Forall_cons; split); [..|apply Forall_nil; done].
  - mul_solve 255.
  - mul_solve 65535.
  - mul_solve 4294967295.
  - apply op_exact_mult; [done | intros; cint_unfold; lia |].
    intros x y old Hx Hy. rewrite SafeUint64Mult_exact by done.
    assert (0 ≤ x * y) by (cint_unfold; nia). repeat case_decide; done || lia.
  - apply op_exact_mult; [done | intros; cint_unfold; lia |].
    intros x y old Hx Hy. unfold SafeUintnMult.
    rewrite !(cast_id UINT64) by done. rewrite SafeUint64Mult_exact by done.
    assert (0 ≤ x * y) by (cint_unfold; nia). repeat case_decide; done || (cint_unfold; lia).
  - mul_solve 128.
  - mul_solve 255.
  - mul_solve 32768.
  - mul_solve 2147483648.
  - apply op_exact_mult; [done | intros; cint_unfold; lia |].
    apply SafeInt64Mult_exact.
  - apply op_exact_mult; [done | intros; cint_unfold; lia |].
    intros x y old Hx Hy. unfold SafeIntnMult.
    rewrite !(cast_id INT64) by done. by apply SafeInt64Mult_exact.
Qed.

(** C40: every checked addition, subtraction and multiplication of SafeIntLib (unsigned,
    signed, CHAR8, UINTN and INTN) never overflows in C, stores the exact result when it
    fits the type and reports BUFFER_TOO_SMALL with the error value when it does not;
    for CHAR8 (plain char, signed or not) it does so when both operands and the result
    lie within 0 to 127 and when one of them does not; this includes the 32.32-bit long multiplication of SafeUint64Mult and the
    sign-and-magnitude multiplication of SafeInt64Mult. *)
Theorem safe_arith_exact `{CharSign} : Forall op_exact (additions ++ subtractions ++ multiplications).
Proof.
  apply Forall_app. split; [apply safe_add_exact|]. apply Forall_app. split; [apply safe_sub_exact|apply safe_mult_exact].
Qed.
