(* ===== verification/RbDefs.v ===== *)
(** * OrderedCollectionLib as a red-black tree: the code
    (MdePkg/Library/BaseOrderedCollectionRedBlackTreeLib/
    BaseOrderedCollectionRedBlackTreeLib.c)

    The nodes live in a heap, a finite map from addresses to node structures;
    every function is a heap program that reads and writes the node fields the
    C function reads and writes, in the same order.  [None] stands for a NULL or
    dangling pointer, a failed ASSERT, or a loop that outlives its fuel; every
    loop is given one unit of fuel more than the heap has nodes. *)
From S2P Require Import Prelude CBase.
Local Open Scope Z_scope.

Abbreviation addr := positive (only parsing).
Abbreviation ptr := (option positive) (only parsing).
Abbreviation NULL := (@None positive) (only parsing).

(** Node colors. *)
Inductive RED_BLACK_TREE_COLOR := RedBlackTreeRed | RedBlackTreeBlack.

#[export] Instance color_eq_dec : EqDecision RED_BLACK_TREE_COLOR.
Proof. solve_decision. Defined.

(** Tree node; [U] is the type of the user structure pointers. *)
Record RED_BLACK_TREE_NODE (U : Type) := RbNode {
  UserStruct : U;
  Parent : ptr;
  Left : ptr;
  Right : ptr;
  Color : RED_BLACK_TREE_COLOR }.
Arguments RbNode {_}.
Arguments UserStruct {_}.
Arguments Parent {_}.
Arguments Left {_}.
Arguments Right {_}.
Arguments Color {_}.

(** The collection: root pointer and the two caller-provided orderings. *)
Record RED_BLACK_TREE (U K : Type) := RbTree {
  Root : ptr;
  UserStructCompare : U → U → Z;
  KeyCompare : K → U → Z }.
Arguments RbTree {_ _}.
Arguments Root {_ _}.
Arguments UserStructCompare {_ _}.
Arguments KeyCompare {_ _}.

Abbreviation rbheap U := (gmap positive (RED_BLACK_TREE_NODE U)).

(** MemoryAllocationLib for nodes: [AllocatePool] returns the address of a
    block that is not in use, with arbitrary content, or fails. *)
Class PoolAllocator (U : Type) := {
  AllocatePool : rbheap U → option (addr * RED_BLACK_TREE_NODE U);
  AllocatePool_fresh h a n : AllocatePool h = Some (a, n) → h !! a = None }.

(** Build setting: FeaturePcdGet (PcdValidateOrderedCollection). *)
Class ValidatePcd := PcdValidateOrderedCollection : bool.

Section code.
Context {U K : Type}.
Abbreviation M := (M (rbheap U)).
Abbreviation node := (RED_BLACK_TREE_NODE U).
Abbreviation tree := (RED_BLACK_TREE U K).

(** ** Memory access *)

Definition load (p : ptr) : M node :=
  match p with
  | Some a => λ h, n ← h !! a; Some (n, h)
  | None => fails
  end.

Definition update (f : node → node) (p : ptr) : M unit :=
  match p with
  | Some a => λ h, n ← h !! a; Some (tt, <[a := f n]> h)
  | None => fails
  end.

Definition get {A} (f : node → A) (p : ptr) : M A := n ← load p; mret (f n).

Definition set_UserStruct (p : ptr) (v : U) : M unit :=
  update (λ n, RbNode v (Parent n) (Left n) (Right n) (Color n)) p.
Definition set_Parent (p v : ptr) : M unit :=
  update (λ n, RbNode (UserStruct n) v (Left n) (Right n) (Color n)) p.
Definition set_Left (p v : ptr) : M unit :=
  update (λ n, RbNode (UserStruct n) (Parent n) v (Right n) (Color n)) p.
Definition set_Right (p v : ptr) : M unit :=
  update (λ n, RbNode (UserStruct n) (Parent n) (Left n) v (Color n)) p.
Definition set_Color (p : ptr) (v : RED_BLACK_TREE_COLOR) : M unit :=
  update (λ n, RbNode (UserStruct n) (Parent n) (Left n) (Right n) v) p.

Definition FreePool (p : ptr) : M unit :=
  match p with
  | Some a => λ h, _ ← h !! a; Some (tt, delete a h)
  | None => fails
  end.

Definition is_null (p : ptr) : bool := bool_decide (p = NULL).
Definition ptr_eq (p q : ptr) : bool := bool_decide (p = q).
Definition is_red (c : RED_BLACK_TREE_COLOR) : bool := bool_decide (c = RedBlackTreeRed).
Definition is_black (c : RED_BLACK_TREE_COLOR) : bool := bool_decide (c = RedBlackTreeBlack).

(** Fuel for a loop over the nodes of the heap. *)
Definition loop_fuel : M nat := h ← get_state; mret (S (size h)).

(** ** Read-only operations *)

Definition OrderedCollectionUserStruct (Node : ptr) : M U := get UserStruct Node.

Definition OrderedCollectionIsEmpty (Tree : tree) : bool := is_null (Root Tree).

Fixpoint find_loop (fuel : nat) (Tree : tree) (StandaloneKey : K) (Node : ptr) : M ptr :=
  match fuel with
  | O => fails
  | S fuel =>
      if is_null Node then mret Node else
      us ← get UserStruct Node;
      let Result := KeyCompare Tree StandaloneKey us in
      if Result =? 0 then mret Node else
      Node ← (if Result <? 0 then get Left Node else get Right Node);
      find_loop fuel Tree StandaloneKey Node
  end.

Definition OrderedCollectionFind (Tree : tree) (StandaloneKey : K) : M ptr :=
  fuel ← loop_fuel; find_loop fuel Tree StandaloneKey (Root Tree).

(** while (Node->Left != NULL) Node = Node->Left; *)
Fixpoint leftmost (fuel : nat) (Node : ptr) : M ptr :=
  match fuel with
  | O => fails
  | S fuel => l ← get Left Node; if is_null l then mret Node else leftmost fuel l
  end.

(** while (Node->Right != NULL) Node = Node->Right; *)
Fixpoint rightmost (fuel : nat) (Node : ptr) : M ptr :=
  match fuel with
  | O => fails
  | S fuel => r ← get Right Node; if is_null r then mret Node else rightmost fuel r
  end.

Definition OrderedCollectionMin (Tree : tree) : M ptr :=
  let Node := Root Tree in
  if is_null Node then mret NULL else
  fuel ← loop_fuel; leftmost fuel Node.

Definition OrderedCollectionMax (Tree : tree) : M ptr :=
  let Node := Root Tree in
  if is_null Node then mret NULL else
  fuel ← loop_fuel; rightmost fuel Node.

(** Ascend as long as [Child] is the right (left) child of [Walk]. *)
Fixpoint ascend_right (fuel : nat) (Child Walk : ptr) : M ptr :=
  match fuel with
  | O => fails
  | S fuel =>
      if is_null Walk then mret Walk else
      r ← get Right Walk;
      if ptr_eq Child r
      then up ← get Parent Walk; ascend_right fuel Walk up
      else mret Walk
  end.

Fixpoint ascend_left (fuel : nat) (Child Walk : ptr) : M ptr :=
  match fuel with
  | O => fails
  | S fuel =>
      if is_null Walk then mret Walk else
      l ← get Left Walk;
      if ptr_eq Child l
      then up ← get Parent Walk; ascend_left fuel Walk up
      else mret Walk
  end.

Definition OrderedCollectionNext (Node : ptr) : M ptr :=
  if is_null Node then mret NULL else
  fuel ← loop_fuel;
  Walk ← get Right Node;
  if negb (is_null Walk) then leftmost fuel Walk else
  Walk ← get Parent Node; ascend_right fuel Node Walk.

Definition OrderedCollectionPrev (Node : ptr) : M ptr :=
  if is_null Node then mret NULL else
  fuel ← loop_fuel;
  Walk ← get Left Node;
  if negb (is_null Walk) then rightmost fuel Walk else
  Walk ← get Parent Node; ascend_left fuel Node Walk.

(** ** Validation *)

Definition NodeIsNullOrBlack (Node : ptr) : M bool :=
  if is_null Node then mret true else c ← get Color Node; mret (is_black c).

Fixpoint RedBlackTreeRecursiveCheck (fuel : nat) (Node : ptr) : M Z :=
  match fuel with
  | O => fails
  | S fuel =>
      if is_null Node then mret 1 else
      c ← get Color Node;
      ASSERT (is_red c || is_black c);;
      (if is_red c then
         l ← get Left Node; bl ← NodeIsNullOrBlack l; ASSERT bl;;
         r ← get Right Node; br ← NodeIsNullOrBlack r; ASSERT br
       else mret tt);;
      l ← get Left Node;
      LeftHeight ← RedBlackTreeRecursiveCheck fuel l;
      r ← get Right Node;
      RightHeight ← RedBlackTreeRecursiveCheck fuel r;
      ASSERT (LeftHeight =? RightHeight);;
      mret (cast UINT32 ((if is_black c then 1 else 0) + LeftHeight))
  end.

Fixpoint validate_forward (fuel : nat) (Tree : tree) (Last : ptr) (ForwardCount : Z) : M Z :=
  match fuel with
  | O => fails
  | S fuel =>
      Node ← OrderedCollectionNext Last;
      if is_null Node then mret ForwardCount else
      us1 ← get UserStruct Last; us2 ← get UserStruct Node;
      ASSERT (UserStructCompare Tree us1 us2 <? 0);;
      validate_forward fuel Tree Node (cast UINT32 (ForwardCount + 1))
  end.

Fixpoint validate_backward (fuel : nat) (Tree : tree) (Last : ptr) (BackwardCount : Z) : M Z :=
  match fuel with
  | O => fails
  | S fuel =>
      Node ← OrderedCollectionPrev Last;
      if is_null Node then mret BackwardCount else
      us1 ← get UserStruct Last; us2 ← get UserStruct Node;
      ASSERT (UserStructCompare Tree us1 us2 >? 0);;
      validate_backward fuel Tree Node (cast UINT32 (BackwardCount + 1))
  end.

Definition RedBlackTreeValidate (Tree : tree) : M unit :=
  b ← NodeIsNullOrBlack (Root Tree); ASSERT b;;
  fuel ← loop_fuel;
  RedBlackTreeRecursiveCheck fuel (Root Tree);;
  Last ← OrderedCollectionMin Tree;
  ForwardCount ← validate_forward fuel Tree Last (if is_null Last then 0 else 1);
  Last ← OrderedCollectionMax Tree;
  BackwardCount ← validate_backward fuel Tree Last (if is_null Last then 0 else 1);
  ASSERT (ForwardCount =? BackwardCount).

Definition validate_if_enabled `{ValidatePcd} (Tree : tree) : M unit :=
  if PcdValidateOrderedCollection then RedBlackTreeValidate Tree else mret tt.

(** [pool_ok] is whether AllocatePool (sizeof *Tree) succeeds. *)
Definition OrderedCollectionInit `{ValidatePcd} (pool_ok : bool)
    (UserStructCompare : U → U → Z) (KeyCompare : K → U → Z) : M (option tree) :=
  if pool_ok then
    let Tree := RbTree NULL UserStructCompare KeyCompare in
    validate_if_enabled Tree;; mret (Some Tree)
  else mret None.

Definition OrderedCollectionUninit (Tree : tree) : M unit :=
  ASSERT (OrderedCollectionIsEmpty Tree).

(** ** Rotations; [NewRoot] is the caller's root variable, returned updated. *)

Definition RedBlackTreeRotateRight (Pivot NewRoot : ptr) : M ptr :=
  Parent0 ← get Parent Pivot;
  LeftChild ← get Left Pivot;
  LeftRightChild ← get Right LeftChild;
  set_Left Pivot LeftRightChild;;
  (if negb (is_null LeftRightChild) then set_Parent LeftRightChild Pivot else mret tt);;
  set_Parent LeftChild Parent0;;
  NewRoot ←
    (if is_null Parent0 then mret LeftChild else
     l ← get Left Parent0;
     (if ptr_eq Pivot l then set_Left Parent0 LeftChild else set_Right Parent0 LeftChild);;
     mret NewRoot);
  set_Right LeftChild Pivot;;
  set_Parent Pivot LeftChild;;
  mret NewRoot.

Definition RedBlackTreeRotateLeft (Pivot NewRoot : ptr) : M ptr :=
  Parent0 ← get Parent Pivot;
  RightChild ← get Right Pivot;
  RightLeftChild ← get Left RightChild;
  set_Right Pivot RightLeftChild;;
  (if negb (is_null RightLeftChild) then set_Parent RightLeftChild Pivot else mret tt);;
  set_Parent RightChild Parent0;;
  NewRoot ←
    (if is_null Parent0 then mret RightChild else
     l ← get Left Parent0;
     (if ptr_eq Pivot l then set_Left Parent0 RightChild else set_Right Parent0 RightChild);;
     mret NewRoot);
  set_Left RightChild Pivot;;
  set_Parent Pivot RightChild;;
  mret NewRoot.

(** ** Insertion *)

(** [Node != NULL && Node->Color == RedBlackTreeRed] *)
Definition non_null_red (Node : ptr) : M bool :=
  if is_null Node then mret false else c ← get Color Node; mret (is_red c).

(** Look for a collision; [Parent0] is the last examined node. *)
Fixpoint insert_descend (fuel : nat) (Tree : tree) (us : U)
    (Tmp Parent0 : ptr) (Result : Z) : M (ptr * ptr * Z) :=
  match fuel with
  | O => fails
  | S fuel =>
      if is_null Tmp then mret (Tmp, Parent0, Result) else
      tus ← get UserStruct Tmp;
      let Result := UserStructCompare Tree us tus in
      if Result =? 0 then mret (Tmp, Parent0, Result) else
      next ← (if Result <? 0 then get Left Tmp else get Right Tmp);
      insert_descend fuel Tree us next Tmp Result
  end.

(** Restore property #3 above the freshly linked red node [Tmp]. *)
Fixpoint insert_fixup (fuel : nat) (Tmp Parent0 NewRoot : ptr) : M ptr :=
  match fuel with
  | O => fails
  | S fuel =>
      if ptr_eq Tmp NewRoot then mret NewRoot else
      pc ← get Color Parent0;
      if negb (is_red pc) then mret NewRoot else
      GrandParent ← get Parent Parent0;
      gl ← get Left GrandParent;
      if ptr_eq Parent0 gl then
        Uncle ← get Right GrandParent;
        uncle_red ← non_null_red Uncle;
        if (uncle_red : bool) then
          set_Color Parent0 RedBlackTreeBlack;;
          set_Color Uncle RedBlackTreeBlack;;
          set_Color GrandParent RedBlackTreeRed;;
          up ← get Parent GrandParent;
          insert_fixup fuel GrandParent up NewRoot
        else
          pr ← get Right Parent0;
          '(Tmp, Parent0, NewRoot) ←
            (if ptr_eq Tmp pr then
               NewRoot ← RedBlackTreeRotateLeft Parent0 NewRoot;
               up ← get Parent Parent0;
               gp ← get Parent up;
               ASSERT (ptr_eq GrandParent gp);;
               mret (Parent0, up, NewRoot)
             else mret (Tmp, Parent0, NewRoot));
          set_Color Parent0 RedBlackTreeBlack;;
          set_Color GrandParent RedBlackTreeRed;;
          NewRoot ← RedBlackTreeRotateRight GrandParent NewRoot;
          insert_fixup fuel Tmp Parent0 NewRoot
      else
        Uncle ← get Left GrandParent;
        uncle_red ← non_null_red Uncle;
        if (uncle_red : bool) then
          set_Color Parent0 RedBlackTreeBlack;;
          set_Color Uncle RedBlackTreeBlack;;
          set_Color GrandParent RedBlackTreeRed;;
          up ← get Parent GrandParent;
          insert_fixup fuel GrandParent up NewRoot
        else
          pl ← get Left Parent0;
          '(Tmp, Parent0, NewRoot) ←
            (if ptr_eq Tmp pl then
               NewRoot ← RedBlackTreeRotateRight Parent0 NewRoot;
               up ← get Parent Parent0;
               gp ← get Parent up;
               ASSERT (ptr_eq GrandParent gp);;
               mret (Parent0, up, NewRoot)
             else mret (Tmp, Parent0, NewRoot));
          set_Color Parent0 RedBlackTreeBlack;;
          set_Color GrandParent RedBlackTreeRed;;
          NewRoot ← RedBlackTreeRotateLeft GrandParent NewRoot;
          insert_fixup fuel Tmp Parent0 NewRoot
  end.

Definition set_Root (Tree : tree) (r : ptr) : tree :=
  RbTree r (UserStructCompare Tree) (KeyCompare Tree).

(** The optional [Node] output parameter: [None] when the caller passes NULL,
    otherwise the content of the caller's variable. *)
Definition out_ptr (NodeOut : option ptr) (p : ptr) : option ptr := (λ _, p) <$> NodeOut.

Definition OrderedCollectionInsert `{PoolAllocator U, ValidatePcd}
    (Tree : tree) (NodeOut : option ptr) (us : U) : M (Z * tree * option ptr) :=
  fuel ← loop_fuel;
  '(Tmp, Parent0, Result) ← insert_descend fuel Tree us (Root Tree) NULL 0;
  if negb (is_null Tmp) then
    validate_if_enabled Tree;;
    mret (RETURN_ALREADY_STARTED, Tree, out_ptr NodeOut Tmp)
  else
  h ← get_state;
  match AllocatePool h with
  | None => validate_if_enabled Tree;; mret (RETURN_OUT_OF_RESOURCES, Tree, NodeOut)
  | Some (a, garbage) =>
      put_state (<[a := garbage]> h);;
      let Tmp := Some a in
      let NodeOut := out_ptr NodeOut Tmp in
      set_UserStruct Tmp us;;
      set_Parent Tmp Parent0;;
      set_Left Tmp NULL;;
      set_Right Tmp NULL;;
      if is_null Parent0 then
        let Tree := set_Root Tree Tmp in
        set_Color Tmp RedBlackTreeBlack;;
        validate_if_enabled Tree;;
        mret (RETURN_SUCCESS, Tree, NodeOut)
      else
        (if Result <? 0 then set_Left Parent0 Tmp else set_Right Parent0 Tmp);;
        set_Color Tmp RedBlackTreeRed;;
        NewRoot ← insert_fixup fuel Tmp Parent0 (Root Tree);
        set_Color NewRoot RedBlackTreeBlack;;
        let Tree := set_Root Tree NewRoot in
        validate_if_enabled Tree;;
        mret (RETURN_SUCCESS, Tree, NodeOut)
  end.

(** ** Deletion *)

(** do ToRelink = ToRelink->Left; while (ToRelink->Left != NULL); *)
Fixpoint to_relink_loop (fuel : nat) (ToRelink : ptr) : M ptr :=
  match fuel with
  | O => fails
  | S fuel =>
      next ← get Left ToRelink;
      l ← get Left next;
      if is_null l then mret next else to_relink_loop fuel next
  end.

(** Unlink [Node] when it has at most one child. *)
Definition unlink_single (Node OrigParent OrigLeftChild OrigRightChild NewRoot : ptr)
    : M (ptr * ptr * RED_BLACK_TREE_COLOR * ptr) :=
  let Parent0 := OrigParent in
  let Child := if negb (is_null OrigLeftChild) then OrigLeftChild else OrigRightChild in
  ColorOfUnlinked ← get Color Node;
  (if negb (is_null Child) then set_Parent Child Parent0 else mret tt);;
  NewRoot ←
    (if is_null OrigParent then mret Child else
     l ← get Left OrigParent;
     (if ptr_eq Node l then set_Left OrigParent Child else set_Right OrigParent Child);;
     mret NewRoot);
  mret (Child, Parent0, ColorOfUnlinked, NewRoot).

(** Unlink the successor [ToRelink] from below the right child of [Node], and give
    it that right child. *)
Definition splice_successor (ToRelink OrigRightChild : ptr) : M (ptr * ptr * ptr) :=
  Parent0 ← get Parent ToRelink;
  Child ← get Right ToRelink;
  set_Left Parent0 Child;;
  (if negb (is_null Child) then set_Parent Child Parent0 else mret tt);;
  set_Right ToRelink OrigRightChild;;
  set_Parent OrigRightChild ToRelink;;
  mret (ToRelink, Parent0, Child).

(** Link [ToRelink] into the place of [Node], with the color of [Node]. *)
Definition link_successor (Node OrigParent OrigLeftChild ToRelink Child Parent0 NewRoot : ptr)
    : M (ptr * ptr * RED_BLACK_TREE_COLOR * ptr) :=
  set_Left ToRelink OrigLeftChild;;
  set_Parent OrigLeftChild ToRelink;;
  ColorOfUnlinked ← get Color ToRelink;
  nc ← get Color Node;
  set_Color ToRelink nc;;
  set_Parent ToRelink OrigParent;;
  NewRoot ←
    (if is_null OrigParent then mret ToRelink else
     l ← get Left OrigParent;
     (if ptr_eq Node l then set_Left OrigParent ToRelink else set_Right OrigParent ToRelink);;
     mret NewRoot);
  mret (Child, Parent0, ColorOfUnlinked, NewRoot).

(** Unlink the successor of [Node] and link it into the place of [Node]. *)
Definition unlink_successor (fuel : nat)
    (Node OrigParent OrigLeftChild OrigRightChild NewRoot : ptr)
    : M (ptr * ptr * RED_BLACK_TREE_COLOR * ptr) :=
  let ToRelink := OrigRightChild in
  l ← get Left ToRelink;
  '(ToRelink, Parent0, Child) ←
    (if is_null l then
       Child ← get Right OrigRightChild;
       mret (ToRelink, OrigRightChild, Child)
     else
       ToRelink ← to_relink_loop fuel ToRelink;
       splice_successor ToRelink OrigRightChild);
  link_successor Node OrigParent OrigLeftChild ToRelink Child Parent0 NewRoot.

(** The loop body when [Child] is a left child, from its end backwards; each part
    returns the new (Child, Parent, NewRoot).

    The right nephew is red: flush the extra black value. *)
Definition delete_flush_left (Sibling RightNephew Parent0 NewRoot : ptr) : M (ptr * ptr * ptr) :=
  ASSERT (negb (is_null RightNephew));;
  rc ← get Color RightNephew;
  ASSERT (is_red rc);;
  ASSERT (negb (is_null Sibling));;
  sc ← get Color Sibling;
  ASSERT (is_black sc);;
  pc ← get Color Parent0;
  set_Color Sibling pc;;
  set_Color Parent0 RedBlackTreeBlack;;
  set_Color RightNephew RedBlackTreeBlack;;
  NewRoot ← RedBlackTreeRotateLeft Parent0 NewRoot;
  mret (NewRoot, Parent0, NewRoot).

(** The sibling is black. *)
Definition delete_black_left (Sibling Parent0 NewRoot : ptr) : M (ptr * ptr * ptr) :=
  sc ← get Color Sibling;
  ASSERT (is_black sc);;
  LeftNephew ← get Left Sibling;
  RightNephew ← get Right Sibling;
  lb ← NodeIsNullOrBlack LeftNephew;
  rb ← NodeIsNullOrBlack RightNephew;
  if lb && rb then
    set_Color Sibling RedBlackTreeRed;;
    up ← get Parent Parent0;
    mret (Parent0, up, NewRoot)
  else
    '(Sibling, RightNephew, NewRoot) ←
      (if rb then
         set_Color LeftNephew RedBlackTreeBlack;;
         set_Color Sibling RedBlackTreeRed;;
         NewRoot ← RedBlackTreeRotateRight Sibling NewRoot;
         Sibling ← get Right Parent0;
         RightNephew ← get Right Sibling;
         mret (Sibling, RightNephew, NewRoot)
       else mret (Sibling, RightNephew, NewRoot));
    delete_flush_left Sibling RightNephew Parent0 NewRoot.

(** A red sibling is first turned into a black one. *)
Definition delete_step_left (Parent0 NewRoot : ptr) : M (ptr * ptr * ptr) :=
  Sibling ← get Right Parent0;
  ASSERT (negb (is_null Sibling));;
  sc ← get Color Sibling;
  '(Sibling, NewRoot) ←
    (if is_red sc then
       set_Color Sibling RedBlackTreeBlack;;
       set_Color Parent0 RedBlackTreeRed;;
       NewRoot ← RedBlackTreeRotateLeft Parent0 NewRoot;
       Sibling ← get Right Parent0;
       ASSERT (negb (is_null Sibling));;
       mret (Sibling, NewRoot)
     else mret (Sibling, NewRoot));
  delete_black_left Sibling Parent0 NewRoot.

(** The mirror images. *)
Definition delete_flush_right (Sibling LeftNephew Parent0 NewRoot : ptr) : M (ptr * ptr * ptr) :=
  ASSERT (negb (is_null LeftNephew));;
  lc ← get Color LeftNephew;
  ASSERT (is_red lc);;
  ASSERT (negb (is_null Sibling));;
  sc ← get Color Sibling;
  ASSERT (is_black sc);;
  pc ← get Color Parent0;
  set_Color Sibling pc;;
  set_Color Parent0 RedBlackTreeBlack;;
  set_Color LeftNephew RedBlackTreeBlack;;
  NewRoot ← RedBlackTreeRotateRight Parent0 NewRoot;
  mret (NewRoot, Parent0, NewRoot).

Definition delete_black_right (Sibling Parent0 NewRoot : ptr) : M (ptr * ptr * ptr) :=
  sc ← get Color Sibling;
  ASSERT (is_black sc);;
  RightNephew ← get Right Sibling;
  LeftNephew ← get Left Sibling;
  rb ← NodeIsNullOrBlack RightNephew;
  lb ← NodeIsNullOrBlack LeftNephew;
  if rb && lb then
    set_Color Sibling RedBlackTreeRed;;
    up ← get Parent Parent0;
    mret (Parent0, up, NewRoot)
  else
    '(Sibling, LeftNephew, NewRoot) ←
      (if lb then
         set_Color RightNephew RedBlackTreeBlack;;
         set_Color Sibling RedBlackTreeRed;;
         NewRoot ← RedBlackTreeRotateLeft Sibling NewRoot;
         Sibling ← get Left Parent0;
         LeftNephew ← get Left Sibling;
         mret (Sibling, LeftNephew, NewRoot)
       else mret (Sibling, LeftNephew, NewRoot));
    delete_flush_right Sibling LeftNephew Parent0 NewRoot.

Definition delete_step_right (Parent0 NewRoot : ptr) : M (ptr * ptr * ptr) :=
  Sibling ← get Left Parent0;
  ASSERT (negb (is_null Sibling));;
  sc ← get Color Sibling;
  '(Sibling, NewRoot) ←
    (if is_red sc then
       set_Color Sibling RedBlackTreeBlack;;
       set_Color Parent0 RedBlackTreeRed;;
       NewRoot ← RedBlackTreeRotateRight Parent0 NewRoot;
       Sibling ← get Left Parent0;
       ASSERT (negb (is_null Sibling));;
       mret (Sibling, NewRoot)
     else mret (Sibling, NewRoot));
  delete_black_right Sibling Parent0 NewRoot.

(** Ascend with the extra black value carried by [Child]. *)
Fixpoint delete_fixup (fuel : nat) (Child Parent0 NewRoot : ptr) : M (ptr * ptr) :=
  match fuel with
  | O => fails
  | S fuel =>
      if ptr_eq Child NewRoot then mret (Child, NewRoot) else
      b ← NodeIsNullOrBlack Child;
      if negb b then mret (Child, NewRoot) else
      pl ← get Left Parent0;
      '(Child, Parent0, NewRoot) ←
        (if ptr_eq Child pl
         then delete_step_left Parent0 NewRoot
         else delete_step_right Parent0 NewRoot);
      delete_fixup fuel Child Parent0 NewRoot
  end.

(** Returns the updated tree and the content of the optional [UserStruct]
    output parameter. *)
Definition OrderedCollectionDelete `{ValidatePcd} (Tree : tree) (Node : ptr)
    (UserStructOut : option U) : M (tree * option U) :=
  fuel ← loop_fuel;
  let NewRoot := Root Tree in
  OrigLeftChild ← get Left Node;
  OrigRightChild ← get Right Node;
  OrigParent ← get Parent Node;
  us ← get UserStruct Node;
  let UserStructOut := (λ _, us) <$> UserStructOut in
  '(Child, Parent0, ColorOfUnlinked, NewRoot) ←
    (if is_null OrigLeftChild || is_null OrigRightChild
     then unlink_single Node OrigParent OrigLeftChild OrigRightChild NewRoot
     else unlink_successor fuel Node OrigParent OrigLeftChild OrigRightChild NewRoot);
  FreePool Node;;
  NewRoot ←
    (if is_black ColorOfUnlinked then
       '(Child, NewRoot) ← delete_fixup fuel Child Parent0 NewRoot;
       (if negb (is_null Child) then set_Color Child RedBlackTreeBlack else mret tt);;
       mret NewRoot
     else mret NewRoot);
  let Tree := set_Root Tree NewRoot in
  validate_if_enabled Tree;;
  mret (Tree, UserStructOut).

End code.

#[global] Arguments get : simpl never.
#[global] Arguments update : simpl never.
#[global] Arguments set_UserStruct : simpl never.
#[global] Arguments set_Parent : simpl never.
#[global] Arguments set_Left : simpl never.
#[global] Arguments set_Right : simpl never.
#[global] Arguments set_Color : simpl never.
#[global] Arguments NodeIsNullOrBlack : simpl never.
#[global] Arguments non_null_red : simpl never.
#[global] Arguments RedBlackTreeRotateRight : simpl never.
#[global] Arguments RedBlackTreeRotateLeft : simpl never.
