(* ===== verification/RbTree.v ===== *)
(** * Red-black trees as data: the mathematical side of the ordered collection

    A tree whose nodes carry their heap address, its contexts (the path from a
    node up to the root, nearest frame first), the in-order list of entries it
    represents, and the red-black properties #1 to #5 of the source comments. *)
From S2P Require Import Prelude RbDefs.

Section tree.
Context {U : Type}.

Inductive rbt :=
  | E
  | T (c : RED_BLACK_TREE_COLOR) (l : rbt) (a : positive) (u : U) (r : rbt).

(** Which child of the frame's node the hole is. *)
Inductive side := SL | SR.

Record frame := F {
  f_side : side;
  f_color : RED_BLACK_TREE_COLOR;
  f_addr : positive;
  f_us : U;
  f_sibling : rbt }.

Implicit Types (t l r s : rbt) (k : list frame) (a x : positive) (u : U).

Definition root t : option positive :=
  match t with E => None | T _ _ a _ _ => Some a end.

Definition cptr k : option positive :=
  match k with [] => None | f :: _ => Some (f_addr f) end.

Definition close (f : frame) t : rbt :=
  match f_side f with
  | SL => T (f_color f) t (f_addr f) (f_us f) (f_sibling f)
  | SR => T (f_color f) (f_sibling f) (f_addr f) (f_us f) t
  end.

Fixpoint plug k t : rbt :=
  match k with [] => t | f :: k => plug k (close f t) end.

(** ** Entries in order *)

Fixpoint entries t : list (positive * U) :=
  match t with E => [] | T _ l a u r => entries l ++ (a, u) :: entries r end.

Fixpoint before k : list (positive * U) :=
  match k with
  | [] => []
  | f :: k =>
      match f_side f with
      | SL => before k
      | SR => before k ++ entries (f_sibling f) ++ [(f_addr f, f_us f)]
      end
  end.

Fixpoint after k : list (positive * U) :=
  match k with
  | [] => []
  | f :: k =>
      match f_side f with
      | SL => (f_addr f, f_us f) :: entries (f_sibling f) ++ after k
      | SR => after k
      end
  end.

(** ** Occurrences of an address *)

Definition one a x : nat := if decide (a = x) then 1 else 0.

Fixpoint occ t x : nat :=
  match t with E => 0 | T _ l a _ r => occ l x + one a x + occ r x end.

Fixpoint kocc k x : nat :=
  match k with [] => 0 | f :: k => one (f_addr f) x + occ (f_sibling f) x + kocc k x end.

(** ** Red-black properties *)

(** [is_rb t c n]: root color [c] (leaves are black), no red node with a red
    child, and [n] black nodes on every path to a leaf. *)
Inductive is_rb : rbt → RED_BLACK_TREE_COLOR → nat → Prop :=
  | rb_leaf : is_rb E RedBlackTreeBlack 0
  | rb_red l a u r n :
      is_rb l RedBlackTreeBlack n → is_rb r RedBlackTreeBlack n →
      is_rb (T RedBlackTreeRed l a u r) RedBlackTreeRed n
  | rb_black l a u r n c1 c2 :
      is_rb l c1 n → is_rb r c2 n →
      is_rb (T RedBlackTreeBlack l a u r) RedBlackTreeBlack (S n).

(** Color a hole of the context must have if it is to respect property #3. *)
Definition hole_color k : RED_BLACK_TREE_COLOR :=
  match k with [] => RedBlackTreeBlack | f :: _ => f_color f end.

(** [ctx_rb k n]: plugging a tree of black height [n] into [k] gives equal black
    heights everywhere, every red frame has a black sibling and a black parent
    frame, and the root is black. *)
Inductive ctx_rb : list frame → nat → Prop :=
  | ctx_nil n : ctx_rb [] n
  | ctx_red d a u s k n :
      is_rb s RedBlackTreeBlack n → ctx_rb k n → k ≠ [] →
      hole_color k = RedBlackTreeBlack →
      ctx_rb (F d RedBlackTreeRed a u s :: k) n
  | ctx_black d a u s k c n :
      is_rb s c n → ctx_rb k (S n) →
      ctx_rb (F d RedBlackTreeBlack a u s :: k) n.

(** Validity of a whole tree: property #5 and the others. *)
Definition rb_valid t : Prop := ∃ n, is_rb t RedBlackTreeBlack n.

(** ** Lemmas *)

Lemma plug_entries k t : entries (plug k t) = before k ++ entries t ++ after k.
Proof.
  revert t. induction k as [|[[] c a u s] k IH]; intros t; cbn.
  - by rewrite app_nil_r.
  - rewrite IH. cbn. rewrite <-!app_assoc. done.
  - rewrite IH. cbn. rewrite <-!app_assoc. done.
Qed.

Lemma plug_app k1 k2 t : plug (k1 ++ k2) t = plug k2 (plug k1 t).
Proof. revert t. induction k1; intros t; cbn; auto. Qed.

Lemma plug_root k t : k ≠ [] → root (plug k t) ≠ None.
Proof.
  revert t. induction k as [|f k IH]; intros t Hk; [done|].
  destruct k as [|g k].
  - by destruct f as [[] c a u s].
  - by apply IH.
Qed.

Lemma one_same a : one a a = 1.
Proof. unfold one. by rewrite decide_True. Qed.

Lemma one_ne a x : a ≠ x → one a x = 0.
Proof. intros Hne. unfold one. by rewrite decide_False. Qed.

Lemma one_le a x : one a x ≤ 1.
Proof. unfold one. case_decide; lia. Qed.

Lemma occ_close f t x :
  occ (close f t) x = one (f_addr f) x + occ (f_sibling f) x + occ t x.
Proof. destruct f as [[] c a u s]; cbn; lia. Qed.

Lemma occ_plug k t x : occ (plug k t) x = kocc k x + occ t x.
Proof.
  revert t. induction k as [|f k IH]; intros t; cbn; [done|].
  rewrite IH, occ_close. lia.
Qed.

Lemma occ_entries t x : x ∈ (entries t).*1 ↔ occ t x ≠ 0.
Proof.
  induction t as [|c l IHl a u r IHr]; cbn.
  - split; [by intros ?%elem_of_nil | done].
  - rewrite fmap_app, fmap_cons, elem_of_app, elem_of_cons, IHl, IHr. cbn.
    unfold one. case_decide; naive_solver lia.
Qed.

Lemma occ_NoDup t : (∀ x, occ t x ≤ 1) → NoDup (entries t).*1.
Proof.
  induction t as [|c l IHl a u r IHr]; cbn; intros H; [constructor|].
  rewrite fmap_app, fmap_cons, NoDup_app, NoDup_cons. cbn. split_and!.
  - apply IHl. intros x. specialize (H x). lia.
  - intros x Hx. rewrite elem_of_cons, occ_entries. apply occ_entries in Hx.
    specialize (H x). intros [->|]; [rewrite one_same in H|]; lia.
  - rewrite occ_entries. specialize (H a). rewrite one_same in H. lia.
  - apply IHr. intros x. specialize (H x). lia.
Qed.

(** Every address of a tree is the root of a subtree in some context. *)
Lemma occ_focus t x : occ t x ≠ 0 → ∃ k c l u r, t = plug k (T c l x u r).
Proof.
  cut (∀ k0, occ t x ≠ 0 → ∃ k c l u r, plug k0 t = plug k (T c l x u r)).
  { intros H Hx. by apply (H []). }
  induction t as [|c l IHl a u r IHr]; cbn; intros k0 Hx; [done|].
  destruct (decide (a = x)) as [->|Hne]; [by eauto 10|].
  destruct (decide (occ l x = 0)) as [Hl|Hl].
  - apply (IHr (F SR c a u l :: k0)). unfold one in Hx. rewrite decide_False in Hx by done. lia.
  - by apply (IHl (F SL c a u r :: k0)).
Qed.

(** A subtree with root color [c] may be put into the hole of [k]. *)
Definition fits c k : Prop :=
  c = RedBlackTreeRed → k ≠ [] ∧ hole_color k = RedBlackTreeBlack.

Lemma plug_rb k t c n : is_rb t c n → ctx_rb k n → fits c k → rb_valid (plug k t).
Proof.
  intros Ht Hk. revert t c Ht.
  induction Hk as [n|d a u s k n Hs Hk IH Hne Hc|d a u s k c' n Hs Hk IH];
    intros t c Ht Hfit; cbn.
  - exists n. destruct c; [|done]. by destruct Hfit.
  - destruct c; [by destruct Hfit|]. apply (IH _ RedBlackTreeRed); [|done].
    destruct d; cbn; by constructor.
  - apply (IH _ RedBlackTreeBlack); [|done].
    destruct d; cbn; by econstructor.
Qed.

Lemma plug_rb_inv k t : rb_valid (plug k t) →
  ∃ c n, is_rb t c n ∧ ctx_rb k n ∧ fits c k.
Proof.
  revert t. induction k as [|[d c a u s] k IH]; cbn; intros t Ht.
  - destruct Ht as [n Ht]. exists RedBlackTreeBlack, n. by split_and!; [|constructor|].
  - destruct (IH _ Ht) as (c' & n & Hc & Hk & Hfit). destruct d; cbn in Hc;
      inversion Hc; subst;
      first [ exists RedBlackTreeBlack; eexists; split_and!;
              [eassumption | by constructor; try apply Hfit | done]
            | eexists _, _; split_and!; [eassumption | by econstructor | done] ].
Qed.

Lemma is_rb_root_color t c n : is_rb t c n → t ≠ E →
  ∃ l a u r, t = T c l a u r.
Proof. destruct 1; [done|eauto..]. Qed.

Lemma is_rb_black_height t c n : is_rb t c n → c = RedBlackTreeBlack → t ≠ E → n ≠ 0.
Proof. by destruct 1. Qed.

(** Painting the root of a valid tree or subtree black. *)
Definition blacken t : rbt :=
  match t with E => E | T _ l a u r => T RedBlackTreeBlack l a u r end.

Lemma is_rb_blacken t c n : is_rb t c n → ∃ n', is_rb (blacken t) RedBlackTreeBlack n'.
Proof. destruct 1; cbn; eexists; by econstructor. Qed.

Lemma blacken_valid_black t n : is_rb t RedBlackTreeBlack n → blacken t = t.
Proof. by inversion 1. Qed.

Lemma root_blacken t : root (blacken t) = root t.
Proof. by destruct t. Qed.

Lemma entries_blacken t : entries (blacken t) = entries t.
Proof. by destruct t. Qed.

Lemma occ_blacken t x : occ (blacken t) x = occ t x.
Proof. by destruct t. Qed.

End tree.

Arguments rbt : clear implicits.
Arguments frame : clear implicits.
