(* ===== verification/RbHeap.v ===== *)
(** * Heaps that hold a red-black tree

    [holds g h k t]: heap [h] holds the tree [plug k t], every node at its address
    with the parent, child and color fields the shape prescribes, and agrees with
    [g] everywhere else.  The lemmas give the effect of the field accesses and of
    the two rotations on such heaps. *)
From S2P Require Import Prelude RbDefs RbTree.

Section rep.
Context {U : Type}.
Implicit Types (t l r s : rbt U) (k : list (frame U)) (a x : positive) (u : U)
  (g h : rbheap U).

Fixpoint rep h (par : option positive) t : Prop :=
  match t with
  | E => True
  | T c l a u r =>
      h !! a = Some (RbNode u par (root l) (root r) c) ∧
      rep h (Some a) l ∧ rep h (Some a) r
  end.

(** The node of a frame, given the pointers to its parent and to its hole. *)
Definition frame_node (f : frame U) (par hole : option positive) :=
  match f_side f with
  | SL => RbNode (f_us f) par hole (root (f_sibling f)) (f_color f)
  | SR => RbNode (f_us f) par (root (f_sibling f)) hole (f_color f)
  end.

Fixpoint crep h (hole : option positive) k : Prop :=
  match k with
  | [] => True
  | f :: k =>
      h !! f_addr f = Some (frame_node f (cptr k) hole) ∧
      rep h (Some (f_addr f)) (f_sibling f) ∧ crep h (Some (f_addr f)) k
  end.

Record holds g h k t : Prop := Holds {
  zip_rep : rep h (cptr k) t;
  zip_crep : crep h (root t) k;
  zip_dist : ∀ x, kocc k x + occ t x ≤ 1;
  zip_rest : ∀ x, kocc k x + occ t x = 0 → h !! x = g !! x }.

(** ** Framing *)

Lemma rep_update h par t a (o : option (RED_BLACK_TREE_NODE U)) :
  occ t a = 0 → rep (partial_alter (λ _, o) a h) par t ↔ rep h par t.
Proof.
  revert par. induction t as [|c l IHl b u r IHr]; cbn; intros par Ha; [done|].
  rewrite IHl, IHr by lia. rewrite lookup_partial_alter_ne; [done|].
  intros ->. rewrite one_same in Ha. lia.
Qed.

Lemma crep_update h p k a (o : option (RED_BLACK_TREE_NODE U)) :
  kocc k a = 0 → crep (partial_alter (λ _, o) a h) p k ↔ crep h p k.
Proof.
  revert p. induction k as [|f k IH]; cbn; intros p Ha; [done|].
  rewrite IH, rep_update by lia. rewrite lookup_partial_alter_ne; [done|].
  intros ->. rewrite one_same in Ha. lia.
Qed.

Lemma rep_insert h par t a n : occ t a = 0 → rep (<[a := n]> h) par t ↔ rep h par t.
Proof. apply rep_update. Qed.
Lemma crep_insert h p k a n : kocc k a = 0 → crep (<[a := n]> h) p k ↔ crep h p k.
Proof. apply crep_update. Qed.
Lemma rep_delete h par t a : occ t a = 0 → rep (delete a h) par t ↔ rep h par t.
Proof. apply rep_update. Qed.
Lemma crep_delete h p k a : kocc k a = 0 → crep (delete a h) p k ↔ crep h p k.
Proof. apply crep_update. Qed.

(** ** Moving the focus *)

Lemma zip_up g h f k t : holds g h (f :: k) t ↔ holds g h k (close f t).
Proof.
  split; intros [Hr Hc Hd Hs]; destruct f as [d c a u s]; cbn in *.
  - destruct Hc as (Ha & Hsib & Hk). split.
    + destruct d; cbn in *; done.
    + by destruct d.
    + intros x. specialize (Hd x). rewrite occ_close. cbn. lia.
    + intros x Hx. apply Hs. rewrite occ_close in Hx. cbn in *. lia.
  - destruct d; cbn in *; destruct Hr as (Ha & Hl & Hr); split; cbn; try done.
    all: intros x; specialize (Hd x); specialize (Hs x); try intros; cbn in *; try apply Hs; lia.
Qed.

Lemma zip_plug g h k0 k t : holds g h (k0 ++ k) t ↔ holds g h k (plug k0 t).
Proof.
  revert t. induction k0 as [|f k0 IH]; intros t; cbn; [done|].
  by rewrite zip_up, IH.
Qed.

Lemma zip_root g h k t : holds g h k t ↔ holds g h [] (plug k t).
Proof. rewrite <-zip_plug. by rewrite app_nil_r. Qed.

(** ** What the fields of a focused node and of its parent are *)

Lemma zip_node g h k c l a u r :
  holds g h k (T c l a u r) → h !! a = Some (RbNode u (cptr k) (root l) (root r) c).
Proof. intros Hz. apply (zip_rep _ _ _ _ Hz). Qed.

Lemma zip_parent g h f k t :
  holds g h (f :: k) t → h !! f_addr f = Some (frame_node f (cptr k) (root t)).
Proof. intros Hz. apply (zip_crep _ _ _ _ Hz). Qed.

Lemma zip_root_ne_cptr g h k t : holds g h k t → root t ≠ None → root t ≠ cptr k.
Proof.
  intros [_ _ Hd _] Ht Heq. destruct t as [|c l a u r]; [done|].
  destruct k as [|f k]; [done|]. injection Heq as ->.
  specialize (Hd (f_addr f)). cbn in Hd. rewrite !one_same in Hd. lia.
Qed.

End rep.

(** Solve goals about distinct addresses from a bound on their occurrences. *)
Ltac dist_in Hd :=
  let go a := (specialize (Hd a); cbn in Hd; rewrite ?one_same in Hd; lia) in
  match goal with
  | |- occ _ ?a = 0 => go a
  | |- kocc _ ?a = 0 => go a
  | |- ?a ≠ ?b => intros ->; go b
  end.

Section access.
Context {U : Type}.
Implicit Types (t l r s : rbt U) (k : list (frame U)) (a x : positive) (u : U)
  (g h : rbheap U) (p v : option positive).

(** ** Field accesses *)

Lemma wp_get_field {A} (f : RED_BLACK_TREE_NODE U → A) (Q : A → rbheap U → Prop) h a n :
  h !! a = Some n → Q (f n) h → wp (get f (Some a)) Q h.
Proof. intros Ha HQ. unfold wp, get, load, mbind, M_bind. by rewrite Ha. Qed.

Lemma wp_update (f : RED_BLACK_TREE_NODE U → RED_BLACK_TREE_NODE U)
    (Q : unit → rbheap U → Prop) h a n :
  h !! a = Some n → Q tt (<[a := f n]> h) → wp (update f (Some a)) Q h.
Proof. intros Ha HQ. unfold wp, update. by rewrite Ha. Qed.

(** [if (child != NULL) child->Parent = v;] on the root of a subtree. *)
Definition reparent h t v : rbheap U :=
  match t with
  | E => h
  | T c l a u r => <[a := RbNode u v (root l) (root r) c]> h
  end.

Lemma wp_reparent (Q : unit → rbheap U → Prop) h t v par :
  rep h par t → Q tt (reparent h t v) →
  wp (if negb (is_null (root t)) then set_Parent (root t) v else mret tt) Q h.
Proof.
  destruct t as [|c l a u r]; cbn; [done|]. intros (Ha & _) HQ.
  by eapply wp_update.
Qed.

Lemma lookup_reparent_ne h t v a : occ t a = 0 → reparent h t v !! a = h !! a.
Proof.
  destruct t as [|c l b u r]; cbn; [done|]. intros Ha.
  rewrite lookup_insert_ne; [done|]. intros ->. rewrite one_same in Ha. lia.
Qed.

Lemma rep_reparent h t v par : rep h par t → (∀ x, occ t x ≤ 1) → rep (reparent h t v) v t.
Proof.
  destruct t as [|c l a u r]; cbn; [done|]. intros (Ha & Hl & Hr) Hd.
  specialize (Hd a). rewrite one_same in Hd.
  rewrite lookup_insert_eq, !rep_insert by lia. done.
Qed.

Lemma rep_reparent_ne h t v par s :
  (∀ x, occ t x + occ s x ≤ 1) → rep (reparent h t v) par s ↔ rep h par s.
Proof.
  destruct t as [|c l a u r]; cbn; [done|]. intros Hd. apply rep_insert.
  specialize (Hd a). rewrite one_same in Hd. lia.
Qed.

Lemma crep_reparent_ne h t v p k :
  (∀ x, occ t x + kocc k x ≤ 1) → crep (reparent h t v) p k ↔ crep h p k.
Proof.
  destruct t as [|c l a u r]; cbn; [done|]. intros Hd. apply crep_insert.
  specialize (Hd a). rewrite one_same in Hd. lia.
Qed.

(** Redirect the child pointer of the nearest frame to [p]. *)
Definition relink h k p : rbheap U :=
  match k with
  | [] => h
  | f :: k => <[f_addr f := frame_node f (cptr k) p]> h
  end.

Definition new_root k (p nr : option positive) : option positive :=
  match k with [] => p | _ => nr end.

(** The code that replaces [Node] by [p] below [Node]'s parent. *)
Lemma wp_relink (Q : option positive → rbheap U → Prop) h k a p nr :
  crep h (Some a) k → (∀ f k', k = f :: k' → root (f_sibling f) ≠ Some a) →
  Q (new_root k p nr) (relink h k p) →
  wp (if is_null (cptr k) then mret p else
      l ← get Left (cptr k);
      (if ptr_eq (Some a) l then set_Left (cptr k) p else set_Right (cptr k) p);;
      mret nr) Q h.
Proof.
  destruct k as [|[d c b u s] k]; cbn; [done|]. intros (Hb & _ & _) Hsib HQ.
  specialize (Hsib _ _ eq_refl). cbn in Hsib.
  apply wp_bind. eapply wp_get_field; [done|].
  apply wp_bind. destruct d; cbn.
  - unfold ptr_eq. rewrite bool_decide_true by done. by eapply wp_update.
  - unfold ptr_eq. rewrite bool_decide_false by done. by eapply wp_update.
Qed.

Lemma lookup_relink_ne h k p a : kocc k a = 0 → relink h k p !! a = h !! a.
Proof.
  destruct k as [|f k]; cbn; [done|]. intros Ha.
  rewrite lookup_insert_ne; [done|]. intros <-. rewrite one_same in Ha. lia.
Qed.

Lemma crep_relink h k p q : crep h q k → (∀ x, kocc k x ≤ 1) → crep (relink h k p) p k.
Proof.
  destruct k as [|f k]; cbn; [done|]. intros (Ha & Hs & Hk) Hd.
  specialize (Hd (f_addr f)). rewrite one_same in Hd.
  rewrite lookup_insert_eq, rep_insert, crep_insert by lia. done.
Qed.

Lemma rep_relink_ne h k p par s :
  (∀ x, kocc k x + occ s x ≤ 1) → rep (relink h k p) par s ↔ rep h par s.
Proof.
  destruct k as [|f k]; cbn; [done|]. intros Hd. apply rep_insert.
  specialize (Hd (f_addr f)). rewrite one_same in Hd. lia.
Qed.

(** The sibling of a focused node is not that node. *)
Lemma zip_sibling_ne g h k c l a u r :
  holds g h k (T c l a u r) → ∀ f k', k = f :: k' → root (f_sibling f) ≠ Some a.
Proof.
  intros [_ _ Hd _] f k' ->. destruct (f_sibling f) as [|c' l' b u' r'] eqn:Es; [done|].
  intros [= ->]. specialize (Hd a). cbn in Hd. rewrite Es in Hd. cbn in Hd.
  rewrite !one_same in Hd. lia.
Qed.

End access.

(** Symbolic execution of field accesses, and framing over the updated heaps. *)
Ltac heap_ne Hd :=
  repeat first
  [ rewrite lookup_insert_eq
  | rewrite lookup_insert_ne by (dist_in Hd)
  | rewrite lookup_reparent_ne by (dist_in Hd)
  | rewrite lookup_relink_ne by (dist_in Hd)
  | rewrite rep_insert by (dist_in Hd)
  | rewrite crep_insert by (dist_in Hd)
  | rewrite rep_reparent_ne by (let x := fresh in intros x; specialize (Hd x); cbn in Hd; lia)
  | rewrite crep_reparent_ne by (let x := fresh in intros x; specialize (Hd x); cbn in Hd; lia)
  | rewrite rep_relink_ne by (let x := fresh in intros x; specialize (Hd x); cbn in Hd; lia) ].

Ltac wp_access Hd :=
  wp_seq;
  first
  [ eapply wp_get_field; [heap_ne Hd; first [eassumption | reflexivity]|]; cbn
  | eapply wp_update; [heap_ne Hd; first [eassumption | reflexivity]|]; cbn ].

Ltac occ_lia Hd := let x := fresh in intros x; specialize (Hd x); cbn in Hd |- *; lia.

Ltac zip_done Hd Hs :=
  split; cbn;
  [ split_and?; heap_ne Hd; try done;
    try (eapply rep_reparent; [heap_ne Hd; eassumption | occ_lia Hd])
  | heap_ne Hd;
    first [ eassumption | eapply crep_relink; [heap_ne Hd; eassumption | occ_lia Hd] ]
  | occ_lia Hd
  | let x := fresh in let Hx := fresh in
    intros x Hx; cbn in Hx;
    repeat first
    [ rewrite lookup_insert_ne by (intros ->; rewrite ?one_same in Hx; lia)
    | rewrite lookup_reparent_ne by lia
    | rewrite lookup_relink_ne by lia ];
    apply Hs; cbn; lia ].

Section rotations.
Context {U : Type}.
Implicit Types (t l r s : rbt U) (k : list (frame U)) (a x : positive) (u : U)
  (g h : rbheap U) (p v : option positive).

Lemma rotate_right_spec g h k c cl ll al ul lr a u r nr :
  holds g h k (T c (T cl ll al ul lr) a u r) →
  wp (RedBlackTreeRotateRight (Some a) nr)
    (λ nr' h', holds g h' k (T cl ll al ul (T c lr a u r)) ∧
               nr' = new_root k (Some al) nr) h.
Proof.
  intros Hz. pose proof (zip_sibling_ne _ _ _ _ _ _ _ _ Hz) as Hsib.
  destruct Hz as [(Ha & (Hal & Hll & Hlr) & Hr) Hk Hd Hs].
  unfold RedBlackTreeRotateRight.
  do 4 wp_access Hd.
  wp_seq. eapply wp_reparent; [heap_ne Hd; eassumption|].
  wp_access Hd.
  wp_seq. eapply wp_relink; [heap_ne Hd; eassumption|done|].
  wp_access Hd. wp_access Hd. wp_seq. split; [|done].
  zip_done Hd Hs.
Qed.

Lemma rotate_left_spec g h k c l a u cr rl ar ur rr nr :
  holds g h k (T c l a u (T cr rl ar ur rr)) →
  wp (RedBlackTreeRotateLeft (Some a) nr)
    (λ nr' h', holds g h' k (T cr (T c l a u rl) ar ur rr) ∧
               nr' = new_root k (Some ar) nr) h.
Proof.
  intros Hz. pose proof (zip_sibling_ne _ _ _ _ _ _ _ _ Hz) as Hsib.
  destruct Hz as [(Ha & Hl & (Har & Hrl & Hrr)) Hk Hd Hs].
  unfold RedBlackTreeRotateLeft.
  do 4 wp_access Hd.
  wp_seq. eapply wp_reparent; [heap_ne Hd; eassumption|].
  wp_access Hd.
  wp_seq. eapply wp_relink; [heap_ne Hd; eassumption|done|].
  wp_access Hd. wp_access Hd. wp_seq. split; [|done].
  zip_done Hd Hs.
Qed.

(** Recoloring the focused node. *)
Lemma set_color_spec (Q : unit → rbheap U → Prop) g h k c c' l a u r :
  holds g h k (T c l a u r) →
  (∀ h', holds g h' k (T c' l a u r) → Q tt h') →
  wp (set_Color (Some a) c') Q h.
Proof.
  intros [(Ha & Hl & Hr) Hk Hd Hs] HQ. unfold set_Color.
  eapply wp_update; [done|]. cbn. apply HQ. zip_done Hd Hs.
Qed.

(** The pointer store that performs the relinking. *)
Lemma wp_link_child (Q : unit → rbheap U → Prop) h f k p q (b : bool) :
  h !! f_addr f = Some (frame_node f (cptr k) q) →
  f_side f = (if b then SL else SR) →
  Q tt (relink h (f :: k) p) →
  wp (if b then set_Left (Some (f_addr f)) p else set_Right (Some (f_addr f)) p) Q h.
Proof.
  intros Hf Hs HQ. destruct f as [d c a u s]; cbn in *. subst d. unfold set_Left, set_Right.
  destruct b; (eapply wp_update; [done|]; exact HQ).
Qed.

End rotations.
