(* ===== verification/RbWalk.v ===== *)
(** * Lookup and traversal of the ordered collection

    The read-only functions of BaseOrderedCollectionRedBlackTreeLib.c on a heap
    that holds a tree: what each returns in terms of the in-order entry list, and
    that the fuel of every loop suffices. *)
From stdpp Require Export sorting.
From S2P Require Import Prelude CBase RbDefs RbTree RbHeap.
Local Open Scope Z_scope.

Section walk.
Context {U K : Type}.
Implicit Types (t l r s : rbt U) (k : list (frame U)) (a x : positive) (u : U)
  (g h : rbheap U) (p v : option positive) (es : list (positive * U)).

(** ** Fuel *)

Fixpoint height t : nat :=
  match t with E => 0 | T _ l _ _ r => S (Nat.max (height l) (height r)) end.

Lemma height_entries t : (height t ≤ length (entries t))%nat.
Proof. induction t; cbn; rewrite ?length_app; cbn; lia. Qed.

Lemma context_entries k t : (length k + length (entries t) ≤ length (entries (plug k t)))%nat.
Proof.
  revert t. induction k as [|f k IH]; intros t; cbn; [lia|].
  specialize (IH (close f t)). destruct f as [[] c a u s]; cbn in *;
    rewrite length_app in IH; cbn in IH; lia.
Qed.

Lemma rep_dom h par t x : rep h par t → x ∈ (entries t).*1 → x ∈ dom h.
Proof.
  revert par. induction t as [|c l IHl a u r IHr]; cbn; intros par Ht Hx.
  - by apply elem_of_nil in Hx.
  - destruct Ht as (Ha & Hl & Hr).
    rewrite fmap_app, fmap_cons, elem_of_app, elem_of_cons in Hx.
    destruct Hx as [Hx|[->|Hx]]; eauto. apply elem_of_dom. eauto.
Qed.

Lemma zip_entries_size g h t : holds g h [] t → (length (entries t) ≤ size h)%nat.
Proof.
  intros [Hr _ Hd _]. cbn in *.
  rewrite <-(length_fmap fst), <-size_dom.
  rewrite <-(size_list_to_set (C := gset positive)) by (by apply occ_NoDup).
  apply subseteq_size. intros x Hx%elem_of_list_to_set. by eapply rep_dom.
Qed.

(** The fuel of a loop exceeds both the depth of the focus and its height. *)
Lemma zip_fuel g h k t : holds g h k t → (length k + height t ≤ size h)%nat.
Proof.
  intros Hz%zip_root%zip_entries_size.
  pose proof (context_entries k t). pose proof (height_entries t). lia.
Qed.

Lemma wp_loop_fuel (Q : nat → rbheap U → Prop) h :
  (∀ fuel, (size h < fuel)%nat → Q fuel h) → wp loop_fuel Q h.
Proof. intros HQ. apply HQ. lia. Qed.

(** ** Leftmost and rightmost nodes *)

Lemma leftmost_spec fuel g h k t :
  holds g h k t → t ≠ E → (height t ≤ fuel)%nat →
  wp (leftmost fuel (root t)) (λ p h', h' = h ∧ p = fst <$> head (entries t)) h.
Proof.
  revert fuel k. induction t as [|c l IHl a u r _]; intros fuel k Hz Ht Hf; [done|].
  destruct fuel as [|fuel]; cbn in Hf; [lia|]. cbn. wp_seq.
  eapply wp_get_field; [by eapply zip_node|]. cbn.
  destruct l as [|c' l' a' u' r']; [by wp_seq|]. cbn.
  eapply wp_mono; [eapply (IHl fuel (F SL c a u r :: k)); [by apply zip_up | done | lia]|].
  intros p h' [-> ->]. split; [done|]. cbn. by destruct (entries l').
Qed.

Lemma rightmost_spec fuel g h k t :
  holds g h k t → t ≠ E → (height t ≤ fuel)%nat →
  wp (rightmost fuel (root t)) (λ p h', h' = h ∧ p = fst <$> last (entries t)) h.
Proof.
  revert fuel k. induction t as [|c l _ a u r IHr]; intros fuel k Hz Ht Hf; [done|].
  destruct fuel as [|fuel]; cbn in Hf; [lia|]. cbn. wp_seq.
  eapply wp_get_field; [by eapply zip_node|]. cbn. rewrite last_app_cons.
  destruct r as [|c' l' a' u' r']; [by wp_seq|]. cbn.
  eapply wp_mono; [eapply (IHr fuel (F SR c a u l :: k)); [by apply zip_up | done | lia]|].
  intros p h' [-> ->]. split; [done|]. cbn.
  rewrite last_cons, !last_app_cons, !last_cons. by destruct (last (entries r')).
Qed.

(** ** Ascending *)

Lemma ascend_right_spec fuel g h k t :
  holds g h k t → t ≠ E → (length k < fuel)%nat →
  wp (ascend_right fuel (root t) (cptr k)) (λ p h', h' = h ∧ p = fst <$> head (after k)) h.
Proof.
  revert fuel t. induction k as [|[d c a u s] k IH]; intros fuel t Hz Ht Hf;
    (destruct fuel as [|fuel]; cbn in Hf; [lia|]); cbn; [by wp_seq|].
  destruct t as [|ct l b w r]; [done|]. wp_seq.
  eapply wp_get_field; [by apply (zip_parent _ _ _ _ _ Hz)|].
  destruct d; cbn; unfold ptr_eq.
  - rewrite bool_decide_false; [by wp_seq|].
    by apply not_eq_sym, (zip_sibling_ne _ _ _ _ _ _ _ _ Hz _ _ eq_refl).
  - rewrite bool_decide_true by done. wp_seq.
    eapply wp_get_field; [by apply (zip_parent _ _ _ _ _ Hz)|]. cbn.
    eapply (IH fuel (T c s a u (T ct l b w r))); [by apply zip_up in Hz | done | lia].
Qed.

Lemma ascend_left_spec fuel g h k t :
  holds g h k t → t ≠ E → (length k < fuel)%nat →
  wp (ascend_left fuel (root t) (cptr k)) (λ p h', h' = h ∧ p = fst <$> last (before k)) h.
Proof.
  revert fuel t. induction k as [|[d c a u s] k IH]; intros fuel t Hz Ht Hf;
    (destruct fuel as [|fuel]; cbn in Hf; [lia|]); cbn; [by wp_seq|].
  destruct t as [|ct l b w r]; [done|]. wp_seq.
  eapply wp_get_field; [by apply (zip_parent _ _ _ _ _ Hz)|].
  destruct d; cbn; unfold ptr_eq.
  - rewrite bool_decide_true by done. wp_seq.
    eapply wp_get_field; [by apply (zip_parent _ _ _ _ _ Hz)|]. cbn.
    eapply (IH fuel (T c (T ct l b w r) a u s)); [by apply zip_up in Hz | done | lia].
  - rewrite bool_decide_false.
    + wp_seq. split; [done|]. by rewrite app_assoc, last_snoc.
    + by apply not_eq_sym, (zip_sibling_ne _ _ _ _ _ _ _ _ Hz _ _ eq_refl).
Qed.

(** ** Min, Max, Next, Prev *)

Lemma next_spec g h k c l a u r :
  holds g h k (T c l a u r) →
  wp (OrderedCollectionNext (Some a))
    (λ p h', h' = h ∧ p = fst <$> head (entries r ++ after k)) h.
Proof.
  intros Hz. pose proof (zip_fuel _ _ _ _ Hz) as Hf. cbn in Hf.
  unfold OrderedCollectionNext. cbn. wp_seq. apply wp_loop_fuel. intros fuel Hfuel. wp_seq.
  eapply wp_get_field; [by eapply zip_node|]. cbn.
  destruct r as [|c' l' a' u' r'].
  - cbn. wp_seq. eapply wp_get_field; [by eapply zip_node|].
    eapply (ascend_right_spec _ _ _ _ (T c l a u E)); [done..|lia].
  - cbn. eapply wp_mono.
    { eapply (leftmost_spec _ _ _ (F SR c a u l :: k) (T c' l' a' u' r'));
        [by apply zip_up | done | cbn in *; lia]. }
    intros p h' [-> ->]. split; [done|]. cbn. by destruct (entries l').
Qed.

Lemma prev_spec g h k c l a u r :
  holds g h k (T c l a u r) →
  wp (OrderedCollectionPrev (Some a))
    (λ p h', h' = h ∧ p = fst <$> last (before k ++ entries l)) h.
Proof.
  intros Hz. pose proof (zip_fuel _ _ _ _ Hz) as Hf. cbn in Hf.
  unfold OrderedCollectionPrev. cbn. wp_seq. apply wp_loop_fuel. intros fuel Hfuel. wp_seq.
  eapply wp_get_field; [by eapply zip_node|]. cbn.
  destruct l as [|c' l' a' u' r'].
  - cbn. rewrite app_nil_r. wp_seq. eapply wp_get_field; [by eapply zip_node|].
    eapply (ascend_left_spec _ _ _ _ (T c E a u r)); [done..|lia].
  - cbn. eapply wp_mono.
    { eapply (rightmost_spec _ _ _ (F SL c a u r :: k) (T c' l' a' u' r'));
        [by apply zip_up | done | cbn in *; lia]. }
    intros p h' [-> ->]. split; [done|]. cbn. rewrite app_assoc, !last_app_cons, !last_cons.
    by destruct (last (entries r')).
Qed.

Lemma min_spec g h (Tree : RED_BLACK_TREE U K) t :
  holds g h [] t → Root Tree = root t →
  wp (OrderedCollectionMin Tree) (λ p h', h' = h ∧ p = fst <$> head (entries t)) h.
Proof.
  intros Hz Hr. pose proof (zip_fuel _ _ _ _ Hz) as Hf. unfold OrderedCollectionMin.
  rewrite Hr. destruct t as [|c l a u r]; [by wp_seq|]. cbn -[leftmost]. wp_seq.
  apply wp_loop_fuel. intros fuel Hfuel. by eapply (leftmost_spec _ _ _ [] (T c l a u r)); [..|cbn in *; lia].
Qed.

Lemma max_spec g h (Tree : RED_BLACK_TREE U K) t :
  holds g h [] t → Root Tree = root t →
  wp (OrderedCollectionMax Tree) (λ p h', h' = h ∧ p = fst <$> last (entries t)) h.
Proof.
  intros Hz Hr. pose proof (zip_fuel _ _ _ _ Hz) as Hf. unfold OrderedCollectionMax.
  rewrite Hr. destruct t as [|c l a u r]; [by wp_seq|]. cbn -[rightmost]. wp_seq.
  apply wp_loop_fuel. intros fuel Hfuel. by eapply (rightmost_spec _ _ _ [] (T c l a u r)); [..|cbn in *; lia].
Qed.

End walk.

(** ** Search in the ordered collection

    The descent of OrderedCollectionFind and of OrderedCollectionInsert, for an
    ordering function [f] ("the sought element minus the visited one") that is
    monotone along the in-order entries. *)

(** ** Orderings

    What OrderedCollectionLib.h asks of the two comparators: they order the
    user structures, and place every key consistently with that order. *)
Class UserOrder {U : Type} (cmp : U → U → Z) : Prop := {
  cmp_flip u v : 0 < cmp u v ↔ cmp v u < 0;
  cmp_trans u v w : cmp u v < 0 → cmp v w < 0 → cmp u w < 0;
  cmp_eq_lt u v w : cmp u v = 0 → cmp v w < 0 → cmp u w < 0;
  cmp_lt_eq u v w : cmp u v < 0 → cmp v w = 0 → cmp u w < 0 }.

Class KeyOrder {U K : Type} (cmp : U → U → Z) (kcmp : K → U → Z) : Prop := {
  key_lt key u v : kcmp key u ≤ 0 → cmp u v < 0 → kcmp key v < 0;
  key_gt key u v : 0 ≤ kcmp key v → cmp u v < 0 → 0 < kcmp key u }.

(** Strictly ascending entries. *)
Definition ascending {U} (cmp : U → U → Z) (es : list (positive * U)) : Prop :=
  StronglySorted (λ e1 e2, cmp e1.2 e2.2 < 0) es.

(** [f] changes sign once along the entries: positive, at most one zero,
    negative. *)
Definition monotone {U} (f : U → Z) (es : list (positive * U)) : Prop :=
  StronglySorted (λ e1 e2, (f e1.2 ≤ 0 → f e2.2 < 0) ∧ (0 ≤ f e2.2 → 0 < f e1.2)) es.

(** The entry that compares equal. *)
Definition find_entry {U} (f : U → Z) (es : list (positive * U)) : option positive :=
  fst <$> head (filter (λ e, f e.2 = 0) es).

(** ** Sorted lists *)

Section sorted.
Context {A : Type} (R : A → A → Prop).

Lemma StronglySorted_mid l1 x l2 :
  StronglySorted R (l1 ++ x :: l2) →
  (∀ y, y ∈ l1 → R y x) ∧ (∀ y, y ∈ l2 → R x y).
Proof.
  rewrite StronglySorted_app, StronglySorted_cons, Forall_forall.
  intros (H & _ & [Hx _]). split; [|done]. intros y Hy. apply H; [done|by left].
Qed.

Lemma StronglySorted_remove l1 x l2 :
  StronglySorted R (l1 ++ x :: l2) → StronglySorted R (l1 ++ l2).
Proof.
  rewrite !StronglySorted_app, StronglySorted_cons. intros (H & H1 & [_ H2]).
  split_and!; [|done..]. intros y z Hy Hz. apply H; [done|by right].
Qed.
End sorted.

Section search.
Context {U K : Type}.
Implicit Types (t l r s : rbt U) (k : list (frame U)) (a : positive) (u : U)
  (g h : rbheap U) (p v : option positive) (es : list (positive * U)) (f : U → Z).

Lemma monotone_app f es1 es2 : monotone f (es1 ++ es2) → monotone f es1 ∧ monotone f es2.
Proof. unfold monotone. rewrite StronglySorted_app. naive_solver. Qed.

Lemma ascending_user_monotone cmp `{!UserOrder cmp} u es :
  ascending cmp es → monotone (cmp u) es.
Proof.
  unfold ascending, monotone. induction 1 as [|e es _ IH He]; constructor; [done|].
  eapply Forall_impl; [exact He|]. intros e' Hlt. cbn in *. split; intros Hs.
  - destruct (decide (cmp u e.2 = 0)); [by eapply cmp_eq_lt|].
    eapply (cmp_trans _ e.2); [lia|done].
  - destruct (decide (cmp u e'.2 = 0)) as [Hz|].
    + apply cmp_flip. destruct (decide (cmp e'.2 u = 0)); [by eapply cmp_lt_eq|].
      destruct (decide (cmp e'.2 u < 0)) as [Hc|]; [apply cmp_flip in Hc; lia|].
      assert (0 < cmp e'.2 u) as Hc%cmp_flip by lia. lia.
    + apply cmp_flip. eapply (cmp_trans _ e'.2); [done|]. apply cmp_flip. lia.
Qed.

Lemma ascending_key_monotone cmp (kcmp : K → U → Z) `{!KeyOrder cmp kcmp} key es :
  ascending cmp es → monotone (kcmp key) es.
Proof.
  unfold ascending, monotone. induction 1 as [|e es _ IH He]; constructor; [done|].
  eapply Forall_impl; [exact He|]. intros e' Hlt. cbn in *. split; intros Hs.
  - by eapply key_lt.
  - by eapply key_gt.
Qed.

Lemma find_entry_app f es1 (e : positive * U) es2 :
  f e.2 = 0 → (∀ x, x ∈ es1 → 0 < f x.2) → find_entry f (es1 ++ e :: es2) = Some e.1.
Proof.
  intros He H1. unfold find_entry. rewrite filter_app, filter_cons_True by done.
  rewrite filter_none; [done|]. intros x Hx. specialize (H1 x Hx). lia.
Qed.

Lemma find_entry_skip_l f es1 es2 :
  (∀ x, x ∈ es1 → 0 < f x.2) → find_entry f (es1 ++ es2) = find_entry f es2.
Proof.
  intros H1. unfold find_entry. rewrite filter_app.
  rewrite filter_none; [done|]. intros x Hx. specialize (H1 x Hx). lia.
Qed.

Lemma find_entry_skip_r f es1 es2 :
  (∀ x, x ∈ es2 → f x.2 < 0) → find_entry f (es1 ++ es2) = find_entry f es1.
Proof.
  intros H1. unfold find_entry. rewrite filter_app.
  rewrite (filter_none _ es2); [by rewrite app_nil_r|].
  intros x Hx. specialize (H1 x Hx). lia.
Qed.

(** ** The descents *)

(** A step of the search at node (a, u): where the sought element can be. *)
Lemma monotone_node f l a u r c :
  monotone f (entries (T c l a u r)) →
  monotone f (entries l) ∧ monotone f (entries r) ∧
  (0 ≤ f u → ∀ e, e ∈ entries l → 0 < f e.2) ∧
  (f u ≤ 0 → ∀ e, e ∈ entries r → f e.2 < 0).
Proof.
  cbn. intros Hm. pose proof (StronglySorted_mid _ _ _ _ Hm) as [Hl Hr].
  apply monotone_app in Hm as [Hml [_ Hmr]%StronglySorted_cons]. split_and!; [done..| |].
  - intros Hu e He. by apply (Hl e He).
  - intros Hu e He. by apply (Hr e He).
Qed.

Lemma find_loop_spec fuel (Tree : RED_BLACK_TREE U K) key g h k t :
  holds g h k t → (height t < fuel)%nat → monotone (KeyCompare Tree key) (entries t) →
  wp (find_loop fuel Tree key (root t))
    (λ p h', h' = h ∧ p = find_entry (KeyCompare Tree key) (entries t)) h.
Proof.
  revert fuel k. induction t as [|c l IHl a u r IHr]; intros fuel k Hz Hf Hm;
    (destruct fuel as [|fuel]; cbn in Hf; [lia|]); cbn; [by wp_seq|].
  apply monotone_node in Hm as (Hml & Hmr & Hl & Hr). wp_seq.
  eapply wp_get_field; [by eapply zip_node|]. cbn.
  destruct (Z.eqb_spec (KeyCompare Tree key u) 0) as [Hz0|Hz0].
  { wp_seq. split; [done|]. rewrite find_entry_app; [done..|]. apply Hl. lia. }
  destruct (Z.ltb_spec (KeyCompare Tree key u) 0) as [Hlt|Hge]; wp_seq;
    (eapply wp_get_field; [by eapply zip_node|]; cbn).
  - eapply wp_mono; [eapply (IHl fuel (F SL c a u r :: k)); [by apply zip_up | lia | done]|].
    intros p h' [-> ->]. split; [done|]. symmetry. apply find_entry_skip_r.
    intros e [->|He]%elem_of_cons; [done|]. apply Hr; [lia|done].
  - eapply wp_mono; [eapply (IHr fuel (F SR c a u l :: k)); [by apply zip_up | lia | done]|].
    intros p h' [-> ->]. split; [done|]. symmetry.
    rewrite cons_middle, app_assoc. apply find_entry_skip_l.
    intros e [He|He%list_elem_of_singleton]%elem_of_app; [apply Hl; [lia|done]|].
    subst e. cbn. lia.
Qed.

(** Where the descent of an insertion ends: at the entry that compares equal, or
    at the leaf that separates the smaller entries from the greater ones. *)
Inductive descent f es0 k0 t0 : option positive → option positive → Z → Prop :=
  | descent_found a u par Result :
      (a, u) ∈ es0 → f u = 0 → find_entry f es0 = Some a →
      descent f es0 k0 t0 (Some a) par Result
  | descent_leaf k Result :
      plug k E = plug k0 t0 →
      (∀ e, e ∈ before k → 0 < f e.2) → (∀ e, e ∈ after k → f e.2 < 0) →
      match k with
      | [] => True
      | fr :: _ => f_side fr = if Result <? 0 then SL else SR
      end →
      descent f es0 k0 t0 None (cptr k) Result.

Lemma insert_descend_spec fuel (Tree : RED_BLACK_TREE U K) us g h k t Result :
  let f := UserStructCompare Tree us in
  holds g h k t → (height t < fuel)%nat → monotone f (entries (plug k t)) →
  (∀ e, e ∈ before k → 0 < f e.2) → (∀ e, e ∈ after k → f e.2 < 0) →
  match k with
  | [] => True
  | fr :: _ => f_side fr = if Result <? 0 then SL else SR
  end →
  wp (insert_descend fuel Tree us (root t) (cptr k) Result)
    (λ '(p, par, R) h', h' = h ∧ descent f (entries (plug k t)) k t p par R) h.
Proof.
  intros f. revert fuel k Result.
  induction t as [|c l IHl a u r IHr]; intros fuel k Result Hz Hf Hm Hb Ha Hs;
    (destruct fuel as [|fuel]; cbn in Hf; [lia|]); cbn.
  { wp_seq. split; [done|]. by eapply descent_leaf. }
  wp_seq. eapply wp_get_field; [by eapply zip_node|]. cbn. fold f.
  assert (Hm' := Hm). rewrite plug_entries in Hm'.
  apply monotone_app in Hm' as [_ [Hm' _]%monotone_app].
  apply monotone_node in Hm' as (_ & _ & Hl & Hr).
  destruct (Z.eqb_spec (f u) 0) as [Hz0|Hz0].
  { wp_seq. split; [done|]. apply (descent_found _ _ _ _ a u).
    - rewrite plug_entries. cbn. set_solver.
    - done.
    - rewrite plug_entries. cbn. rewrite <-app_assoc, app_assoc. cbn.
      apply (find_entry_app f _ (a, u)); [done|].
      intros e [He|He]%elem_of_app; [by apply Hb|]. apply Hl; [lia|done]. }
  destruct (Z.ltb_spec (f u) 0) as [Hlt|Hge]; wp_seq;
    (eapply wp_get_field; [by eapply zip_node|]; cbn).
  - eapply wp_mono; [eapply (IHl fuel (F SL c a u r :: k) (f u));
      [by apply zip_up | lia | done | done | | cbn; by rewrite (proj2 (Z.ltb_lt _ _))]|].
    + cbn. intros e [->|[He|He]%elem_of_app]%elem_of_cons; [done| |by apply Ha].
      apply Hr; [lia|done].
    + intros [[p par] R] h' [-> Hd]. split; [done|]. destruct Hd; by econstructor.
  - eapply wp_mono; [eapply (IHr fuel (F SR c a u l :: k) (f u));
      [by apply zip_up | lia | done | | done | cbn; by rewrite (proj2 (Z.ltb_ge _ _))]|].
    + cbn. intros e [He|[He|He%list_elem_of_singleton]%elem_of_app]%elem_of_app;
        [by apply Hb| |subst e; cbn; lia]. apply Hl; [lia|done].
    + intros [[p par] R] h' [-> Hd]. split; [done|]. destruct Hd; by econstructor.
Qed.

End search.
