(* ===== verification/RbInsert.v ===== *)
(** * Insertion into the ordered collection

    OrderedCollectionInsert of BaseOrderedCollectionRedBlackTreeLib.c: the loop
    that restores property #3 keeps the entries and ends in a valid red-black
    tree; linking the new node puts it between the smaller and greater entries. *)
From S2P Require Import Prelude CBase RbDefs RbTree RbHeap RbWalk.

Section fixup.
Context {U : Type}.
Implicit Types (t l r s : rbt U) (k : list (frame U)) (a : positive) (u : U)
  (g h : rbheap U) (p v nr : option positive).

Definition color_of t : RED_BLACK_TREE_COLOR :=
  match t with E => RedBlackTreeBlack | T c _ _ _ _ => c end.

Lemma is_rb_color t c n : is_rb t c n → color_of t = c.
Proof. by destruct 1. Qed.

Lemma wp_null_or_black (Q : bool → rbheap U → Prop) h par t :
  rep h par t → Q (is_black (color_of t)) h → wp (NodeIsNullOrBlack (root t)) Q h.
Proof.
  destruct t as [|c l a u r]; cbn; [done|]. intros (Ha & _) HQ.
  unfold NodeIsNullOrBlack. cbn. wp_seq. eapply wp_get_field; [done|]. by wp_seq.
Qed.

Lemma wp_non_null_red (Q : bool → rbheap U → Prop) h par t :
  rep h par t → Q (is_red (color_of t)) h → wp (non_null_red (root t)) Q h.
Proof.
  destruct t as [|c l a u r]; cbn; [done|]. intros (Ha & _) HQ.
  unfold non_null_red. cbn. wp_seq. eapply wp_get_field; [done|]. by wp_seq.
Qed.

(** ** The root pointer *)

Lemma root_plug_indep k t1 t2 : k ≠ [] → root (plug k t1) = root (plug k t2).
Proof.
  revert t1 t2. induction k as [|f k IH]; intros t1 t2 Hk; [done|].
  destruct k as [|f' k]; [by destruct f as [[] ? ? ? ?]|]. by apply IH.
Qed.

Lemma new_root_plug k t1 t2 : new_root k (root t2) (root (plug k t1)) = root (plug k t2).
Proof. destruct k; [done|]. by apply root_plug_indep. Qed.

Lemma root_plug_same k t1 t2 : root t1 = root t2 → root (plug k t1) = root (plug k t2).
Proof. intros Heq. destruct k; [done|]. by apply root_plug_indep. Qed.

Lemma root_plug_occ k t : k ≠ [] → ∃ b, root (plug k t) = Some b ∧ kocc k b ≠ 0.
Proof.
  revert t. induction k as [|f k IH]; intros t Hk; [done|]. cbn.
  destruct k as [|f' k].
  - exists (f_addr f). rewrite one_same. split; [by destruct f as [[] ? ? ? ?]|lia].
  - destruct (IH (close f t)) as (b & Hb & Ho); [done|]. exists b. split; [done|].
    cbn in *. lia.
Qed.

(** The loops' test whether the focused node is the root of the tree. *)
Lemma zip_is_root g h k t : holds g h k t →
  ptr_eq (root t) (root (plug k t)) = bool_decide (k = []).
Proof.
  intros Hz. unfold ptr_eq. destruct k as [|f k]; [by rewrite !bool_decide_true|].
  rewrite !bool_decide_false; [done..|]. intros Heq.
  destruct (root_plug_occ (f :: k) t) as (b & Hb & Ho); [done|].
  rewrite Hb in Heq. pose proof (zip_dist _ _ _ _ Hz b) as Hd.
  destruct t as [|c l a u r]; [done|]. injection Heq as ->. cbn in *.
  rewrite one_same in Hd. lia.
Qed.

(** The test [Pivot == Parent->Left] for the node in the hole of a frame. *)
Lemma zip_is_left g h f k t : holds g h (f :: k) t → t ≠ E →
  ptr_eq (root t) (Left (frame_node f (cptr k) (root t)))
    = match f_side f with SL => true | SR => false end.
Proof.
  intros Hz Ht. destruct t as [|c l a u r]; [done|].
  pose proof (zip_sibling_ne _ _ _ _ _ _ _ _ Hz _ _ eq_refl) as Hs.
  destruct f as [[] c' b w s]; cbn in *; unfold ptr_eq.
  - by apply bool_decide_true.
  - by apply bool_decide_false, not_eq_sym.
Qed.

(** Focus changes as facts, for use on the current heap. *)
Lemma zip_in_left g h k c l a u r :
  holds g h k (T c l a u r) → holds g h (F SL c a u r :: k) l.
Proof. intros Hz. by apply zip_up. Qed.
Lemma zip_in_right g h k c l a u r :
  holds g h k (T c l a u r) → holds g h (F SR c a u l :: k) r.
Proof. intros Hz. by apply zip_up. Qed.
Lemma zip_out_left g h k c l a u r :
  holds g h (F SL c a u r :: k) l → holds g h k (T c l a u r).
Proof. intros Hz. by apply zip_up in Hz. Qed.
Lemma zip_out_right g h k c l a u r :
  holds g h (F SR c a u l :: k) r → holds g h k (T c l a u r).
Proof. intros Hz. by apply zip_up in Hz. Qed.

(** Recoloring the node of the nearest frame, and the root of its sibling. *)
Lemma set_color_frame (Q : unit → rbheap U → Prop) g h k d c c' a u s t :
  holds g h (F d c a u s :: k) t →
  (∀ h', holds g h' (F d c' a u s :: k) t → Q tt h') →
  wp (set_Color (Some a) c') Q h.
Proof.
  intros Hz HQ. apply zip_up in Hz.
  destruct d; (eapply set_color_spec; [exact Hz|]); intros h' Hz'; apply HQ; by apply zip_up.
Qed.

Lemma set_color_sibling (Q : unit → rbheap U → Prop) g h k d c a u c0 c' sl b w sr t :
  holds g h (F d c a u (T c0 sl b w sr) :: k) t →
  (∀ h', holds g h' (F d c a u (T c' sl b w sr) :: k) t → Q tt h') →
  wp (set_Color (Some b) c') Q h.
Proof.
  intros Hz HQ. apply zip_up in Hz. destruct d; cbn in Hz.
  - eapply set_color_spec; [by eapply zip_in_right|]. intros h' Hz'.
    apply HQ, zip_up. by apply zip_out_right.
  - eapply set_color_spec; [by eapply zip_in_left|]. intros h' Hz'.
    apply HQ, zip_up. by apply zip_out_left.
Qed.

(** The field reads of the loops at the parent and the grandparent. *)
Lemma wp_frame_parent (Q : option positive → rbheap U → Prop) g h f k t :
  holds g h (f :: k) t → Q (cptr k) h → wp (get Parent (Some (f_addr f))) Q h.
Proof.
  intros Hz HQ. eapply wp_get_field; [by eapply zip_parent|]. by destruct f as [[] ? ? ? ?].
Qed.

Lemma wp_frame_left (Q : option positive → rbheap U → Prop) g h f k t :
  holds g h (f :: k) t →
  Q (match f_side f with SL => root t | SR => root (f_sibling f) end) h →
  wp (get Left (Some (f_addr f))) Q h.
Proof.
  intros Hz HQ. eapply wp_get_field; [by eapply zip_parent|]. by destruct f as [[] ? ? ? ?].
Qed.

Lemma wp_frame_right (Q : option positive → rbheap U → Prop) g h f k t :
  holds g h (f :: k) t →
  Q (match f_side f with SL => root (f_sibling f) | SR => root t end) h →
  wp (get Right (Some (f_addr f))) Q h.
Proof.
  intros Hz HQ. eapply wp_get_field; [by eapply zip_parent|]. by destruct f as [[] ? ? ? ?].
Qed.

Lemma wp_frame_color (Q : RED_BLACK_TREE_COLOR → rbheap U → Prop) g h f k t :
  holds g h (f :: k) t → Q (f_color f) h → wp (get Color (Some (f_addr f))) Q h.
Proof.
  intros Hz HQ. eapply wp_get_field; [by eapply zip_parent|]. by destruct f as [[] ? ? ? ?].
Qed.

Lemma holds_sibling_ptr g h f k t : holds g h (f :: k) t → t ≠ E →
  ptr_eq (root t) (root (f_sibling f)) = false.
Proof.
  intros Hz Ht. destruct t as [|c l a u r]; [done|]. unfold ptr_eq.
  apply bool_decide_false, not_eq_sym. by apply (zip_sibling_ne _ _ _ _ _ _ _ _ Hz _ _ eq_refl).
Qed.

(** Case 1 of the loop: parent and uncle are red; the grandparent becomes the
    node to look at. *)
Lemma insert_red_uncle (Q : option positive → rbheap U → Prop) g h d cp pa pu s d2 cg a2 ug ul b w ur k t
    (m : option positive → M (rbheap U) (option positive)) cu :
  let k0 := F d cp pa pu s :: F d2 cg a2 ug (T cu ul b w ur) :: k in
  holds g h k0 t →
  (∀ h', holds g h' k (close (F d2 RedBlackTreeRed a2 ug (T RedBlackTreeBlack ul b w ur))
                         (close (F d RedBlackTreeBlack pa pu s) t)) →
         wp (m (cptr k)) Q h') →
  wp (set_Color (Some pa) RedBlackTreeBlack;;
      set_Color (Some b) RedBlackTreeBlack;;
      set_Color (Some a2) RedBlackTreeRed;;
      up ← get Parent (Some a2); m up) Q h.
Proof.
  intros k0 Hz HQ. wp_seq. eapply set_color_frame; [done|]. intros h1 Hz1.
  wp_seq. apply -> (zip_up g) in Hz1. eapply set_color_sibling; [done|]. intros h2 Hz2.
  wp_seq. eapply set_color_frame; [done|]. intros h3 Hz3.
  wp_seq. eapply (wp_frame_parent _ _ _ (F d2 _ a2 _ _)); [done|].
  apply HQ. by apply -> (zip_up g) in Hz3.
Qed.

(** Case 2: the uncle is black and [Tmp] is (or has been rotated to be) an outer
    grandchild; recoloring and one rotation at the grandparent end the loop. *)
Lemma insert_outer_left (Q : option positive → rbheap U → Prop) g h A b ub C a2 ug un k nr
    (m : option positive → M (rbheap U) (option positive)) :
  holds g h (F SL RedBlackTreeBlack a2 ug un :: k) (T RedBlackTreeRed A b ub C) →
  (∀ h', holds g h' (F SL RedBlackTreeBlack b ub (T RedBlackTreeRed C a2 ug un) :: k) A →
         wp (m (new_root k (Some b) nr)) Q h') →
  wp (set_Color (Some b) RedBlackTreeBlack;;
      set_Color (Some a2) RedBlackTreeRed;;
      NewRoot ← RedBlackTreeRotateRight (Some a2) nr; m NewRoot) Q h.
Proof.
  intros Hz HQ. wp_seq. eapply set_color_spec; [done|]. intros h1 Hz1.
  wp_seq. eapply set_color_frame; [done|]. intros h2 Hz2%zip_out_left.
  wp_seq. eapply wp_mono; [by eapply rotate_right_spec|].
  intros nr' h3 [Hz3 ->]. apply HQ. by apply zip_in_left.
Qed.

Lemma insert_outer_right (Q : option positive → rbheap U → Prop) g h A b ub C a2 ug un k nr
    (m : option positive → M (rbheap U) (option positive)) :
  holds g h (F SR RedBlackTreeBlack a2 ug un :: k) (T RedBlackTreeRed C b ub A) →
  (∀ h', holds g h' (F SR RedBlackTreeBlack b ub (T RedBlackTreeRed un a2 ug C) :: k) A →
         wp (m (new_root k (Some b) nr)) Q h') →
  wp (set_Color (Some b) RedBlackTreeBlack;;
      set_Color (Some a2) RedBlackTreeRed;;
      NewRoot ← RedBlackTreeRotateLeft (Some a2) nr; m NewRoot) Q h.
Proof.
  intros Hz HQ. wp_seq. eapply set_color_spec; [done|]. intros h1 Hz1.
  wp_seq. eapply set_color_frame; [done|]. intros h2 Hz2%zip_out_right.
  wp_seq. eapply wp_mono; [by eapply rotate_left_spec|].
  intros nr' h3 [Hz3 ->]. apply HQ. by apply zip_in_right.
Qed.

Lemma entries_plug_eq k t1 t2 : entries t1 = entries t2 → entries (plug k t1) = entries (plug k t2).
Proof. intros Heq. by rewrite !plug_entries, Heq. Qed.

(** An inner grandchild is first rotated outwards, which leaves the entries and
    the root pointer as they are. *)
Lemma insert_turn_left g h d pa pu s cg a2 ug un k t n nr :
  holds g h (F d RedBlackTreeRed pa pu s :: F SL cg a2 ug un :: k) t →
  is_rb t RedBlackTreeRed n → is_rb s RedBlackTreeBlack n →
  wp (pr ← get Right (Some pa);
      if ptr_eq (root t) pr then
        NewRoot ← RedBlackTreeRotateLeft (Some pa) nr;
        up ← get Parent (Some pa);
        gp ← get Parent up;
        ASSERT (ptr_eq (Some a2) gp);;
        mret (Some pa, up, NewRoot)
      else mret (root t, Some pa, nr))
    (λ '(Tmp, Parent0, NewRoot) h', ∃ A b ub C,
       Tmp = root A ∧ Parent0 = Some b ∧ NewRoot = nr ∧
       holds g h' (F SL cg a2 ug un :: k) (T RedBlackTreeRed A b ub C) ∧
       is_rb A RedBlackTreeRed n ∧ is_rb C RedBlackTreeBlack n ∧
       entries (T RedBlackTreeRed A b ub C) = entries (close (F d RedBlackTreeRed pa pu s) t)) h.
Proof.
  intros Hz Ht Hs. wp_seq. eapply (wp_frame_right _ _ _ (F d _ pa _ _)); [done|].
  destruct d; cbn [f_side f_sibling].
  - pose proof (holds_sibling_ptr _ _ _ _ _ Hz) as Hne. cbn in Hne. rewrite Hne by (by intros ->; inversion Ht).
    wp_seq. exists t, pa, pu, s. split_and!; try done. by apply zip_up in Hz.
  - unfold ptr_eq at 1. rewrite bool_decide_true by done.
    destruct t as [|ct l a u r]; [by inversion Ht|]. inversion Ht; subst.
    apply -> (zip_up g) in Hz. cbn in Hz.
    wp_seq. eapply wp_mono; [by eapply rotate_left_spec|]. intros nr' h1 [Hz1 ->].
    apply zip_in_left in Hz1 as Hz2.
    wp_seq. eapply wp_get_field; [by eapply zip_node|]. cbn [Parent cptr f_addr].
    wp_seq. eapply wp_get_field; [by eapply zip_node|]. cbn [Parent cptr f_addr].
    wp_seq. apply wp_assert; [by apply bool_decide_true|]. wp_seq.
    exists (T RedBlackTreeRed s pa pu l), a, u, r. split_and!; try done; [by constructor|].
    cbn. by rewrite <-app_assoc.
Qed.

Lemma insert_turn_right g h d pa pu s cg a2 ug un k t n nr :
  holds g h (F d RedBlackTreeRed pa pu s :: F SR cg a2 ug un :: k) t →
  is_rb t RedBlackTreeRed n → is_rb s RedBlackTreeBlack n →
  wp (pl ← get Left (Some pa);
      if ptr_eq (root t) pl then
        NewRoot ← RedBlackTreeRotateRight (Some pa) nr;
        up ← get Parent (Some pa);
        gp ← get Parent up;
        ASSERT (ptr_eq (Some a2) gp);;
        mret (Some pa, up, NewRoot)
      else mret (root t, Some pa, nr))
    (λ '(Tmp, Parent0, NewRoot) h', ∃ A b ub C,
       Tmp = root A ∧ Parent0 = Some b ∧ NewRoot = nr ∧
       holds g h' (F SR cg a2 ug un :: k) (T RedBlackTreeRed C b ub A) ∧
       is_rb A RedBlackTreeRed n ∧ is_rb C RedBlackTreeBlack n ∧
       entries (T RedBlackTreeRed C b ub A) = entries (close (F d RedBlackTreeRed pa pu s) t)) h.
Proof.
  intros Hz Ht Hs. wp_seq. eapply (wp_frame_left _ _ _ (F d _ pa _ _)); [done|].
  destruct d; cbn [f_side f_sibling].
  - unfold ptr_eq at 1. rewrite bool_decide_true by done.
    destruct t as [|ct l a u r]; [by inversion Ht|]. inversion Ht; subst.
    apply -> (zip_up g) in Hz. cbn in Hz.
    wp_seq. eapply wp_mono; [by eapply rotate_right_spec|]. intros nr' h1 [Hz1 ->].
    apply zip_in_right in Hz1 as Hz2.
    wp_seq. eapply wp_get_field; [by eapply zip_node|]. cbn [Parent cptr f_addr].
    wp_seq. eapply wp_get_field; [by eapply zip_node|]. cbn [Parent cptr f_addr].
    wp_seq. apply wp_assert; [by apply bool_decide_true|]. wp_seq.
    exists (T RedBlackTreeRed r pa pu s), a, u, l. split_and!; try done; [by constructor|].
    cbn. by rewrite <-app_assoc.
  - pose proof (holds_sibling_ptr _ _ _ _ _ Hz) as Hne. cbn in Hne. rewrite Hne by (by intros ->; inversion Ht).
    wp_seq. exists t, pa, pu, s. split_and!; try done. by apply zip_up in Hz.
Qed.

Lemma is_rb_recolored d d2 pa pu s a2 ug ul b w ur t n :
  is_rb t RedBlackTreeRed n → is_rb s RedBlackTreeBlack n →
  is_rb (T RedBlackTreeRed ul b w ur) RedBlackTreeRed n →
  is_rb (close (F d2 RedBlackTreeRed a2 ug (T RedBlackTreeBlack ul b w ur))
           (close (F d RedBlackTreeBlack pa pu s) t)) RedBlackTreeRed (S n).
Proof.
  intros Ht Hs Hu. inversion Hu; subst.
  destruct d2, d; cbn; constructor; by econstructor.
Qed.

(** What the loop achieves: the result is a tree with the same entries that is
    red-black once its root is painted black. *)
Definition fixed g es nr' h' : Prop :=
  ∃ t', holds g h' [] t' ∧ nr' = root t' ∧ rb_valid (blacken t') ∧ entries t' = es.

Definition fixes fuel g : Prop := ∀ h k t n nr,
  holds g h k t → is_rb t RedBlackTreeRed n → ctx_rb k n →
  nr = root (plug k t) → length k < fuel →
  wp (insert_fixup fuel (root t) (cptr k) nr) (fixed g (entries (plug k t))) h.

Lemma fixed_entries fuel g h k t n p nr es :
  fixes fuel g → holds g h k t → is_rb t RedBlackTreeRed n → ctx_rb k n →
  p = root t → nr = root (plug k t) → length k < fuel → entries (plug k t) = es →
  wp (insert_fixup fuel p (cptr k) nr) (fixed g es) h.
Proof. intros IH Hz Ht Hk -> Hnr Hf <-. by eapply IH. Qed.

Lemma fixup_outer_left fuel g h A b ub C a2 ug un k n cu nr :
  fixes fuel g → length k + 1 < fuel →
  holds g h (F SL RedBlackTreeBlack b ub (T RedBlackTreeRed C a2 ug un) :: k) A →
  is_rb A RedBlackTreeRed n → is_rb C RedBlackTreeBlack n → is_rb un cu n →
  cu = RedBlackTreeBlack → ctx_rb k (S n) → (∃ t, nr = root (plug k t)) →
  wp (insert_fixup fuel (root A) (Some b) (new_root k (Some b) nr))
    (fixed g (entries (plug k (T RedBlackTreeBlack (T RedBlackTreeRed A b ub C) a2 ug un)))) h.
Proof.
  intros IH Hf Hz HA HC Hun -> Hk [t ->].
  assert (Hk' : ctx_rb (F SL RedBlackTreeBlack b ub (T RedBlackTreeRed C a2 ug un) :: k) n)
    by (econstructor; [by constructor|done]).
  eapply (fixed_entries _ _ _ _ _ _ _ _ _ IH Hz HA Hk'); [done| | |].
  - apply (new_root_plug k t (T RedBlackTreeBlack A b ub (T RedBlackTreeRed C a2 ug un))).
  - cbn. lia.
  - cbn. apply entries_plug_eq. cbn. by rewrite <-!app_assoc.
Qed.

Lemma fixup_outer_right fuel g h A b ub C a2 ug un k n cu nr :
  fixes fuel g → length k + 1 < fuel →
  holds g h (F SR RedBlackTreeBlack b ub (T RedBlackTreeRed un a2 ug C) :: k) A →
  is_rb A RedBlackTreeRed n → is_rb C RedBlackTreeBlack n → is_rb un cu n →
  cu = RedBlackTreeBlack → ctx_rb k (S n) → (∃ t, nr = root (plug k t)) →
  wp (insert_fixup fuel (root A) (Some b) (new_root k (Some b) nr))
    (fixed g (entries (plug k (T RedBlackTreeBlack un a2 ug (T RedBlackTreeRed C b ub A))))) h.
Proof.
  intros IH Hf Hz HA HC Hun -> Hk [t ->].
  assert (Hk' : ctx_rb (F SR RedBlackTreeBlack b ub (T RedBlackTreeRed un a2 ug C) :: k) n)
    by (econstructor; [by constructor|done]).
  eapply (fixed_entries _ _ _ _ _ _ _ _ _ IH Hz HA Hk'); [done| | |].
  - apply (new_root_plug k t (T RedBlackTreeBlack (T RedBlackTreeRed un a2 ug C) b ub A)).
  - cbn. lia.
  - cbn. apply entries_plug_eq. cbn. by rewrite <-!app_assoc.
Qed.

Lemma fixup_red_uncle fuel g h d d2 pa pu s a2 ug ul b w ur t k n nr :
  let f := F d RedBlackTreeRed pa pu s in
  let f2 := F d2 RedBlackTreeBlack a2 ug (T RedBlackTreeRed ul b w ur) in
  fixes fuel g → length k < fuel → holds g h (f :: f2 :: k) t →
  is_rb t RedBlackTreeRed n → is_rb s RedBlackTreeBlack n →
  is_rb (T RedBlackTreeRed ul b w ur) RedBlackTreeRed n → ctx_rb k (S n) →
  nr = root (plug (f :: f2 :: k) t) →
  wp (set_Color (Some pa) RedBlackTreeBlack;;
      set_Color (Some b) RedBlackTreeBlack;;
      set_Color (Some a2) RedBlackTreeRed;;
      up ← get Parent (Some a2); insert_fixup fuel (Some a2) up nr)
    (fixed g (entries (plug (f :: f2 :: k) t))) h.
Proof.
  intros f f2 IH Hf Hz Ht Hs Hu Hk ->. eapply insert_red_uncle; [done|]. intros h' Hz'.
  eapply (fixed_entries _ _ _ k _ (S n)); [done..| |done| | |done|].
  - by apply is_rb_recolored.
  - by destruct d2.
  - apply (root_plug_same k). by destruct d2.
  - apply (entries_plug_eq k). by destruct d, d2.
Qed.

Lemma fixup_black_uncle_left fuel g h d pa pu s a2 ug un t k n nr :
  let f := F d RedBlackTreeRed pa pu s in
  let f2 := F SL RedBlackTreeBlack a2 ug un in
  fixes fuel g → length k + 1 < fuel → holds g h (f :: f2 :: k) t →
  is_rb t RedBlackTreeRed n → is_rb s RedBlackTreeBlack n → is_rb un RedBlackTreeBlack n →
  ctx_rb k (S n) → nr = root (plug (f :: f2 :: k) t) →
  wp (pr ← get Right (Some pa);
      '(Tmp, Parent0, NewRoot) ←
        (if ptr_eq (root t) pr then
           NewRoot ← RedBlackTreeRotateLeft (Some pa) nr;
           up ← get Parent (Some pa);
           gp ← get Parent up;
           ASSERT (ptr_eq (Some a2) gp);;
           mret (Some pa, up, NewRoot)
         else mret (root t, Some pa, nr));
      set_Color Parent0 RedBlackTreeBlack;;
      set_Color (Some a2) RedBlackTreeRed;;
      NewRoot ← RedBlackTreeRotateRight (Some a2) NewRoot;
      insert_fixup fuel Tmp Parent0 NewRoot)
    (fixed g (entries (plug (f :: f2 :: k) t))) h.
Proof.
  intros f f2 IH Hf Hz Ht Hs Hu Hk ->.
  apply wp_bind_bind. eapply wp_mono; [by eapply insert_turn_left|].
  intros [[Tmp Parent0] nr1] h1 (A & b & ub & C & -> & -> & -> & Hz2 & HA & HC & Hent).
  eapply insert_outer_left; [done|]. intros h2 Hz3.
  change (plug (f :: f2 :: k) t) with (plug k (close f2 (close f t))).
  rewrite (entries_plug_eq k _ (T RedBlackTreeBlack (T RedBlackTreeRed A b ub C) a2 ug un)).
  - eapply fixup_outer_left; try done. by eexists.
  - cbn [entries] in Hent |- *. by rewrite Hent.
Qed.

Lemma fixup_black_uncle_right fuel g h d pa pu s a2 ug un t k n nr :
  let f := F d RedBlackTreeRed pa pu s in
  let f2 := F SR RedBlackTreeBlack a2 ug un in
  fixes fuel g → length k + 1 < fuel → holds g h (f :: f2 :: k) t →
  is_rb t RedBlackTreeRed n → is_rb s RedBlackTreeBlack n → is_rb un RedBlackTreeBlack n →
  ctx_rb k (S n) → nr = root (plug (f :: f2 :: k) t) →
  wp (pl ← get Left (Some pa);
      '(Tmp, Parent0, NewRoot) ←
        (if ptr_eq (root t) pl then
           NewRoot ← RedBlackTreeRotateRight (Some pa) nr;
           up ← get Parent (Some pa);
           gp ← get Parent up;
           ASSERT (ptr_eq (Some a2) gp);;
           mret (Some pa, up, NewRoot)
         else mret (root t, Some pa, nr));
      set_Color Parent0 RedBlackTreeBlack;;
      set_Color (Some a2) RedBlackTreeRed;;
      NewRoot ← RedBlackTreeRotateLeft (Some a2) NewRoot;
      insert_fixup fuel Tmp Parent0 NewRoot)
    (fixed g (entries (plug (f :: f2 :: k) t))) h.
Proof.
  intros f f2 IH Hf Hz Ht Hs Hu Hk ->.
  apply wp_bind_bind. eapply wp_mono; [by eapply insert_turn_right|].
  intros [[Tmp Parent0] nr1] h1 (A & b & ub & C & -> & -> & -> & Hz2 & HA & HC & Hent).
  eapply insert_outer_right; [done|]. intros h2 Hz3.
  change (plug (f :: f2 :: k) t) with (plug k (close f2 (close f t))).
  rewrite (entries_plug_eq k _ (T RedBlackTreeBlack un a2 ug (T RedBlackTreeRed C b ub A))).
  - eapply fixup_outer_right; try done. by eexists.
  - cbn [entries] in Hent |- *. by rewrite Hent.
Qed.

(** The test [Parent == GrandParent->Left]. *)
Lemma wp_is_left (Q : option positive → rbheap U → Prop) g h f f2 k t :
  holds g h (f :: f2 :: k) t →
  (∀ p, ptr_eq (Some (f_addr f)) p = match f_side f2 with SL => true | SR => false end → Q p h) →
  wp (get Left (Some (f_addr f2))) Q h.
Proof.
  intros Hz HQ. assert (Hz1 := Hz). apply -> (zip_up g) in Hz1.
  assert (Hr : root (close f t) = Some (f_addr f)) by (by destruct f as [[] ? ? ? ?]).
  eapply wp_frame_left; [done|]. apply HQ. destruct (f_side f2).
  - rewrite Hr. by apply bool_decide_true.
  - rewrite <-Hr. eapply holds_sibling_ptr; [done|]. by destruct f as [[] ? ? ? ?].
Qed.

Lemma insert_fixup_spec fuel g : fixes fuel g.
Proof.
  induction fuel as [|fuel IH]; intros h k t n nr Hz Ht Hk Hnr Hf; [lia|].
  cbn [insert_fixup]. rewrite Hnr, (zip_is_root _ _ _ _ Hz), <-Hnr.
  destruct k as [|[d [] pa pu s] k1].
  { subst nr. cbn. wp_seq. exists t. split_and!; [done..| |done]. by eapply is_rb_blacken. }
  2:{ rewrite bool_decide_false by done. wp_seq. eapply wp_frame_color; [done|]. cbn. wp_seq. eexists. split_and!; [|done| |done].
      - by apply -> (zip_root g) in Hz.
      - destruct (plug_rb _ _ _ _ Ht Hk) as [m Hm]; [by split|]. by eapply is_rb_blacken. }
  inversion Hk as [|? ? ? ? ? ? Hs Hk1 Hne Hhole|]; subst.
  destruct k1 as [|[d2 cg a2 ug un] k2]; [done|]. cbn in Hhole. subst cg.
  inversion Hk1 as [| |? ? ? ? ? cu ? Hun Hk2]; subst. cbn in Hf.
  rewrite bool_decide_false by done.
  wp_seq. eapply wp_frame_color; [done|]. cbn [f_color].
  change (negb (is_red RedBlackTreeRed)) with false. cbn beta iota.
  wp_seq. eapply (wp_frame_parent _ _ _ (F d _ pa _ _)); [done|]. cbn [cptr f_addr].
  wp_seq. eapply (wp_is_left _ _ _ (F d _ pa _ _) (F d2 _ a2 _ _)); [done|].
  intros gl Hgl. cbn in Hgl. rewrite Hgl.
  assert (Hz1 := Hz). apply -> (zip_up g) in Hz1.
  pose proof (zip_crep _ _ _ _ Hz1) as (_ & Hrun & _). cbn [f_addr f_sibling] in Hrun.
  destruct d2; wp_seq;
    [ eapply (wp_frame_right _ _ _ (F SL _ a2 _ _)); [done|]
    | eapply (wp_frame_left _ _ _ (F SR _ a2 _ _)); [done|] ]; cbn [f_side f_sibling];
    wp_seq; (eapply wp_non_null_red; [done|]); rewrite (is_rb_color _ _ _ Hun);
    (destruct cu;
      [ destruct un as [|cu ul b w ur]; inversion Hun; subst; eapply fixup_red_uncle; by try lia
      | first [ eapply fixup_black_uncle_left; by try lia
              | eapply fixup_black_uncle_right; by try lia ] ]).
Qed.

End fixup.
