(* ===== verification/RbValidate.v ===== *)
(** * Validation of the ordered collection

    RedBlackTreeRecursiveCheck and RedBlackTreeValidate of
    BaseOrderedCollectionRedBlackTreeLib.c accept exactly the trees with the
    red-black properties whose entries ascend. *)
From S2P Require Import Prelude CBase RbDefs RbTree RbHeap RbWalk RbInsert.
Local Open Scope Z_scope.

Section traversal.
Context {U K : Type}.
Implicit Types (t l r s : rbt U) (k : list (frame U)) (a : positive) (u : U)
  (g h : rbheap U) (es : list (positive * U)).

Lemma holds_NoDup g h k t : holds g h k t → NoDup (entries (plug k t)).*1.
Proof.
  intros Hz. apply occ_NoDup. intros x. rewrite occ_plug. apply (zip_dist _ _ _ _ Hz).
Qed.

(** An entry of the list is a node of the heap, in its context. *)
Lemma holds_focus g h t es1 a u es2 :
  holds g h [] t → entries t = es1 ++ (a, u) :: es2 →
  ∃ k c l r, t = plug k (T c l a u r) ∧ holds g h k (T c l a u r) ∧
    es1 = before k ++ entries l ∧ es2 = entries r ++ after k.
Proof.
  intros Hz He.
  assert (Ho : occ t a ≠ 0%nat).
  { apply occ_entries. rewrite He, fmap_app, elem_of_app. right. by left. }
  destruct (occ_focus t a Ho) as (k & c & l & u' & r & Ht).
  assert (Hz' : holds g h k (T c l a u' r)) by (apply (zip_root g); by rewrite <-Ht).
  pose proof (holds_NoDup _ _ _ _ Hz) as Hnd. cbn in Hnd.
  assert (He' := He). rewrite Ht, plug_entries in He'. cbn in He'.
  rewrite <-app_assoc, app_assoc in He'. cbn in He'. rewrite He in Hnd.
  destruct (NoDup_split_unique _ _ _ _ _ _ _ Hnd (eq_sym He')) as (-> & -> & ->).
  by exists k, c, l, r.
Qed.

Lemma next_at g h t es1 a u es2 :
  holds g h [] t → entries t = es1 ++ (a, u) :: es2 →
  OrderedCollectionNext (Some a) h = Some (fst <$> head es2, h).
Proof.
  intros Hz He. destruct (holds_focus _ _ _ _ _ _ _ Hz He) as (k & c & l & r & _ & Hz' & _ & ->).
  apply next_spec, wp_Some in Hz' as (p & h' & Heq & -> & ->). done.
Qed.

Lemma prev_at g h t es1 a u es2 :
  holds g h [] t → entries t = es1 ++ (a, u) :: es2 →
  OrderedCollectionPrev (Some a) h = Some (fst <$> last es1, h).
Proof.
  intros Hz He. destruct (holds_focus _ _ _ _ _ _ _ Hz He) as (k & c & l & r & _ & Hz' & -> & _).
  apply prev_spec, wp_Some in Hz' as (p & h' & Heq & -> & ->). done.
Qed.

Lemma user_struct_at g h t es1 a u es2 :
  holds g h [] t → entries t = es1 ++ (a, u) :: es2 →
  get UserStruct (Some a) h = Some (u, h).
Proof.
  intros Hz He. destruct (holds_focus _ _ _ _ _ _ _ Hz He) as (k & c & l & r & _ & Hz' & _ & _).
  apply zip_node in Hz'. unfold get, load, mbind, M_bind. by rewrite Hz'.
Qed.

End traversal.

(** ** The recursive check *)

(** The value the check computes, and when its assertions hold. *)
Section check.
Context {U : Type}.
Implicit Types (t l r : rbt U) (h : rbheap U).

Fixpoint checks t : option Z :=
  match t with
  | E => Some 1
  | T c l _ _ r =>
      if is_red c && negb (is_black (color_of l) && is_black (color_of r)) then None else
      hl ← checks l; hr ← checks r;
      if hl =? hr then Some (cast UINT32 ((if is_black c then 1 else 0) + hl)) else None
  end.

Lemma null_or_black_run h par t :
  rep h par t → NodeIsNullOrBlack (root t) h = Some (is_black (color_of t), h).
Proof.
  destruct t as [|c l a u r]; cbn; [done|]. intros (Ha & _).
  unfold NodeIsNullOrBlack. cbn. unfold get, load, mbind, M_bind. by rewrite Ha.
Qed.

Lemma get_run {A} (f : RED_BLACK_TREE_NODE U → A) h a n :
  h !! a = Some n → get f (Some a) h = Some (f n, h).
Proof. intros Ha. unfold get, load, mbind, M_bind. by rewrite Ha. Qed.

Lemma recursive_check_run fuel h par t :
  rep h par t → (height t < fuel)%nat →
  RedBlackTreeRecursiveCheck fuel (root t) h = (λ z, (z, h)) <$> checks t.
Proof.
  revert fuel par. induction t as [|c l IHl a u r IHr]; intros fuel par Hr Hf;
    (destruct fuel as [|fuel]; cbn in Hf; [lia|]); [done|].
  cbn in Hr. destruct Hr as (Ha & Hl & Hr). cbn [RedBlackTreeRecursiveCheck root checks].
  change (is_null (Some a)) with false. cbn iota.
  rewrite (bind_run _ _ _ _ _ (get_run Color _ _ _ Ha)). cbn [Color].
  rewrite (bind_run _ _ _ tt h) by (by destruct c).
  assert (Hcont : ∀ (k : unit → M (rbheap U) Z),
    (if is_red c then
       l0 ← get Left (Some a); bl ← NodeIsNullOrBlack l0; ASSERT bl;;
       r0 ← get Right (Some a); br ← NodeIsNullOrBlack r0; ASSERT br
     else mret tt) h =
    (if is_red c && negb (is_black (color_of l) && is_black (color_of r)) then None
     else Some (tt, h))).
  { intros _. destruct c; [|done]. change (is_red RedBlackTreeRed) with true. cbn [andb].
    rewrite (bind_run _ _ _ _ _ (get_run Left _ _ _ Ha)). cbn [Left].
    rewrite (bind_run _ _ _ _ _ (null_or_black_run _ _ _ Hl)).
    destruct (is_black (color_of l)); [|done]. rewrite (bind_run _ _ _ tt h) by done.
    rewrite (bind_run _ _ _ _ _ (get_run Right _ _ _ Ha)). cbn [Right].
    rewrite (bind_run _ _ _ _ _ (null_or_black_run _ _ _ Hr)).
    by destruct (is_black (color_of r)). }
  specialize (Hcont (λ _, mret 0)).
  destruct (is_red c && negb (is_black (color_of l) && is_black (color_of r)));
    [by rewrite (bind_none _ _ _ Hcont)|].
  rewrite (bind_run _ _ _ _ _ Hcont).
  rewrite (bind_run _ _ _ _ _ (get_run Left _ _ _ Ha)). cbn [Left].
  specialize (IHl fuel _ Hl ltac:(lia)). specialize (IHr fuel _ Hr ltac:(lia)).
  destruct (checks l) as [hl|]; [|by rewrite (bind_none _ _ _ IHl)].
  rewrite (bind_run _ _ _ _ _ IHl).
  rewrite (bind_run _ _ _ _ _ (get_run Right _ _ _ Ha)). cbn [Right mbind option_bind].
  destruct (checks r) as [hr|]; [|by rewrite (bind_none _ _ _ IHr)].
  rewrite (bind_run _ _ _ _ _ IHr). cbn [mbind option_bind].
  by destruct (hl =? hr).
Qed.

Lemma is_rb_checks t c n : is_rb t c n → checks t = Some (cast UINT32 (1 + Z.of_nat n)).
Proof.
  induction 1 as [|l a u r n Hl IHl Hr IHr|l a u r n c1 c2 Hl IHl Hr IHr]; [done|..];
    cbn [checks]; rewrite IHl, IHr; cbn [mbind option_bind]; rewrite Z.eqb_refl.
  - rewrite (is_rb_color _ _ _ Hl), (is_rb_color _ _ _ Hr). cbn.
    f_equal. unfold cast. cbn -[Z.modulo Z.pow Z.add]. rewrite Zplus_mod_idemp_r. done.
  - cbn -[cast Z.of_nat]. f_equal. unfold cast. cbn -[Z.modulo Z.pow Z.add Z.of_nat]. rewrite Zplus_mod_idemp_r. f_equal.
    change (if is_black RedBlackTreeBlack then 1 else 0) with 1. lia.
Qed.

(** Below 2^32 levels the wrapping height counter is exact. *)
Lemma checks_is_rb t z : checks t = Some z → Z.of_nat (height t) < 2^32 - 1 →
  ∃ n, is_rb t (color_of t) n ∧ z = 1 + Z.of_nat n ∧ (n ≤ height t)%nat.
Proof.
  revert z. induction t as [|c l IHl a u r IHr]; cbn [checks height]; intros z Hz Hh.
  - exists 0%nat. split_and!; [constructor|by simplify_eq|done].
  - destruct (is_red c && negb (is_black (color_of l) && is_black (color_of r))) eqn:Hred;
      [done|].
    destruct (checks l) as [hl|]; [|done]. destruct (checks r) as [hr|]; [|done].
    cbn in Hz. destruct (Z.eqb_spec hl hr) as [->|]; [|done]. simplify_eq.
    destruct (IHl _ eq_refl) as (n & Hl & Hzl & Hnl); [lia|].
    destruct (IHr _ eq_refl) as (m & Hr & Hzr & Hmr); [lia|].
    assert (n = m) as <- by lia. subst hr. destruct c.
    + cbn in Hred. destruct (color_of l), (color_of r); try done.
      exists n. split_and!; [by constructor| |lia].
      change (if is_black RedBlackTreeRed then 1 else 0) with 0. unfold cast. cbn -[Z.modulo Z.pow Z.add Z.of_nat]. rewrite Z.mod_small; lia.
    + exists (S n). split_and!; [by econstructor| |lia].
      change (if is_black RedBlackTreeBlack then 1 else 0) with 1. unfold cast. cbn -[Z.modulo Z.pow Z.add Z.of_nat]. rewrite Z.mod_small; lia.
Qed.

End check.

(** ** The two walks *)
Section walks.
Context {U K : Type}.
Implicit Types (t l r : rbt U) (a : positive) (u : U) (h : rbheap U)
  (es : list (positive * U)) (Tree : RED_BLACK_TREE U K).

(** Every entry compares below its successor, starting from [u]. *)
Fixpoint chain (cmp : U → U → Z) u es : bool :=
  match es with
  | [] => true
  | e :: es => (cmp u e.2 <? 0) && chain cmp e.2 es
  end.

Lemma chain_ascending cmp `{!UserOrder cmp} a u es :
  chain cmp u es = true ↔ ascending cmp ((a, u) :: es).
Proof.
  revert a u. induction es as [|[b w] es IH]; intros a u; cbn.
  { split; [|done]. intros _. by repeat constructor. }
  rewrite andb_true_iff, Z.ltb_lt, (IH b w). unfold ascending.
  rewrite !StronglySorted_cons. cbn. split.
  - intros (Huw & Hall & Hs). split_and!; [|done..]. apply Forall_cons. split; [done|].
    eapply Forall_impl; [exact Hall|]. intros e He. cbn in *. by eapply cmp_trans.
  - intros ([? _]%Forall_cons & ? & ?). done.
Qed.

Lemma cast_count_step n cnt :
  cast UINT32 (cast UINT32 (cnt + 1) + Z.of_nat n) = cast UINT32 (cnt + Z.of_nat (S n)).
Proof.
  unfold cast. cbn -[Z.modulo Z.pow Z.add Z.of_nat].
  rewrite Zplus_mod_idemp_l. f_equal. lia.
Qed.

Lemma forward_run fuel Tree g h t es1 a u es2 cnt :
  holds g h [] t → entries t = es1 ++ (a, u) :: es2 → (length es2 < fuel)%nat →
  cast UINT32 cnt = cnt →
  validate_forward fuel Tree (Some a) cnt h =
    if chain (UserStructCompare Tree) u es2
    then Some (cast UINT32 (cnt + Z.of_nat (length es2)), h) else None.
Proof.
  intros Hz. revert es1 a u cnt fuel.
  induction es2 as [|[b w] es2 IH]; intros es1 a u cnt fuel He Hf Hc;
    (destruct fuel as [|fuel]; cbn in Hf; [lia|]); cbn [validate_forward];
    rewrite (bind_run _ _ _ _ _ (next_at _ _ _ _ _ _ _ Hz He)).
  { cbn -[cast]. by rewrite Z.add_0_r, Hc. }
  cbn [head fmap option_fmap option_map fst chain]. change (is_null (Some b)) with false.
  cbn iota. rewrite (bind_run _ _ _ _ _ (user_struct_at _ _ _ _ _ _ _ Hz He)).
  assert (He' : entries t = (es1 ++ [(a, u)]) ++ (b, w) :: es2)
    by (rewrite He; by rewrite <-app_assoc).
  rewrite (bind_run _ _ _ _ _ (user_struct_at _ _ _ _ _ _ _ Hz He')). cbn [snd].
  destruct (UserStructCompare Tree u w <? 0); [|done]. cbn [andb].
  rewrite (bind_run _ _ _ tt h) by done.
  rewrite (IH _ _ _ _ fuel He'); [|lia|].
  - by rewrite cast_count_step.
  - unfold cast. cbn. by rewrite Z.mod_mod.
Qed.

Lemma backward_run fuel Tree `{!UserOrder (UserStructCompare Tree)} g h t es1 a u es2 cnt :
  holds g h [] t → entries t = es1 ++ (a, u) :: es2 → (length es1 < fuel)%nat →
  cast UINT32 cnt = cnt → ascending (UserStructCompare Tree) (entries t) →
  validate_backward fuel Tree (Some a) cnt h =
    Some (cast UINT32 (cnt + Z.of_nat (length es1)), h).
Proof.
  intros Hz He Hf Hc Hasc. revert a u es2 cnt fuel He Hf Hc.
  induction es1 as [|[b w] es1 IH] using rev_ind; intros a u es2 cnt fuel He Hf Hc;
    (destruct fuel as [|fuel]; cbn in Hf; [lia|]); cbn [validate_backward];
    rewrite (bind_run _ _ _ _ _ (prev_at _ _ _ _ _ _ _ Hz He)).
  { cbn -[cast]. by rewrite Z.add_0_r, Hc. }
  rewrite last_snoc. cbn [fmap option_fmap option_map fst]. change (is_null (Some b)) with false.
  cbn iota. rewrite (bind_run _ _ _ _ _ (user_struct_at _ _ _ _ _ _ _ Hz He)).
  assert (He' : entries t = es1 ++ (b, w) :: (a, u) :: es2)
    by (rewrite He; by rewrite <-app_assoc).
  rewrite (bind_run _ _ _ _ _ (user_struct_at _ _ _ _ _ _ _ Hz He')).
  rewrite He' in Hasc. apply StronglySorted_mid in Hasc as [_ Hlt].
  specialize (Hlt (a, u) ltac:(by left)). apply cmp_flip in Hlt. cbn in Hlt.
  rewrite (bind_run _ _ _ tt h) by (unfold ASSERT; by rewrite (proj2 (Z.gtb_lt _ _))).
  rewrite length_app in *. cbn -[cast] in *.
  rewrite (IH _ _ _ _ fuel He'); [|lia|].
  - by rewrite cast_count_step, Nat.add_1_r.
  - unfold cast. cbn. by rewrite Z.mod_mod.
Qed.

Lemma cast_one : cast UINT32 1 = 1.
Proof. done. Qed.

Lemma min_run Tree g h t : holds g h [] t → Root Tree = root t →
  OrderedCollectionMin Tree h = Some (fst <$> head (entries t), h).
Proof. intros Hz Hr. by apply wp_run, (wp_mono _ _ _ _ (min_spec _ _ _ _ Hz Hr)). Qed.

Lemma max_run Tree g h t : holds g h [] t → Root Tree = root t →
  OrderedCollectionMax Tree h = Some (fst <$> last (entries t), h).
Proof. intros Hz Hr. by apply wp_run, (wp_mono _ _ _ _ (max_spec _ _ _ _ Hz Hr)). Qed.

(** The count a walk starts with. *)
Definition first_count (p : option positive) : Z := if is_null p then 0 else 1.

(** The forward walk visits every entry, and succeeds when the order is right. *)
Lemma forward_walk Tree `{!UserOrder (UserStructCompare Tree)} g h t fuel :
  let first := fst <$> head (entries t) in
  holds g h [] t → (size h < fuel)%nat →
  (ascending (UserStructCompare Tree) (entries t) →
   validate_forward fuel Tree first (first_count first) h =
     Some (cast UINT32 (Z.of_nat (length (entries t))), h)) ∧
  (is_Some (validate_forward fuel Tree first (first_count first) h) →
   ascending (UserStructCompare Tree) (entries t)).
Proof.
  intros first Hz Hf. subst first. pose proof (zip_entries_size _ _ _ Hz) as Hsize.
  destruct (entries t) as [|[a u] es] eqn:He.
  { destruct fuel; [lia|]. split; [done|]. intros _. constructor. }
  cbn [head fmap option_fmap option_map fst]. cbn [length] in *.
  rewrite (forward_run _ _ _ _ _ [] _ _ _ _ Hz He); [|lia|done].
  rewrite <-chain_ascending by done.
  destruct (chain _ _ _); (split; [|by intros []]); [|done].
  intros _. f_equal. f_equal. f_equal. unfold first_count. cbn -[Z.of_nat]. lia.
Qed.

Lemma backward_walk Tree `{!UserOrder (UserStructCompare Tree)} g h t fuel :
  let first := fst <$> last (entries t) in
  holds g h [] t → (size h < fuel)%nat →
  ascending (UserStructCompare Tree) (entries t) →
  validate_backward fuel Tree first (first_count first) h =
    Some (cast UINT32 (Z.of_nat (length (entries t))), h).
Proof.
  intros first Hz Hf Hasc. subst first. pose proof (zip_entries_size _ _ _ Hz) as Hsize.
  destruct (entries t) as [|[a u] es _] eqn:He using rev_ind.
  { destruct fuel; [lia|]. done. }
  rewrite last_snoc, length_app in *. cbn in Hsize. rewrite <-He in Hasc.
  cbn [fmap option_fmap option_map fst length].
  rewrite (backward_run _ _ _ _ _ es a u [] _ Hz He); [|lia|done..].
  f_equal. f_equal. f_equal. unfold first_count. cbn -[Z.of_nat]. lia.
Qed.

(** Validation accepts every well-formed collection, of any size. *)
Lemma validate_accepts Tree `{!UserOrder (UserStructCompare Tree)} g h t :
  holds g h [] t → Root Tree = root t → rb_valid t →
  ascending (UserStructCompare Tree) (entries t) →
  RedBlackTreeValidate Tree h = Some (tt, h).
Proof.
  intros Hz Hroot [n Hrb] Hasc. pose proof (zip_rep _ _ _ _ Hz) as Hrep. cbn in Hrep.
  pose proof (zip_fuel _ _ _ _ Hz) as Hfuel. cbn in Hfuel.
  destruct (forward_walk Tree g h t (S (size h)) Hz ltac:(lia)) as [Hfw _].
  specialize (Hfw Hasc).
  pose proof (backward_walk Tree g h t (S (size h)) Hz ltac:(lia) Hasc) as Hbw.
  pose proof (recursive_check_run (S (size h)) h _ t Hrep ltac:(lia)) as Hcheck.
  rewrite (is_rb_checks _ _ _ Hrb) in Hcheck.
  unfold RedBlackTreeValidate. rewrite Hroot.
  rewrite (bind_run _ _ _ _ _ (null_or_black_run _ _ _ Hrep)), (is_rb_color _ _ _ Hrb).
  rewrite (bind_run _ _ _ tt h) by done. rewrite (bind_run _ _ _ (S (size h)) h) by done.
  rewrite (bind_run _ _ _ _ _ Hcheck).
  rewrite (bind_run _ _ _ _ _ (min_run _ _ _ _ Hz Hroot)), (bind_run _ _ _ _ _ Hfw).
  rewrite (bind_run _ _ _ _ _ (max_run _ _ _ _ Hz Hroot)), (bind_run _ _ _ _ _ Hbw).
  unfold ASSERT. by rewrite Z.eqb_refl.
Qed.

(** What validation accepts is well-formed, as long as the heap has fewer than
    2^32 - 1 nodes (the counters of the check are UINT32). *)
Lemma validate_sound Tree `{!UserOrder (UserStructCompare Tree)} g h t :
  holds g h [] t → Root Tree = root t → Z.of_nat (size h) < 2^32 - 1 →
  is_Some (RedBlackTreeValidate Tree h) →
  rb_valid t ∧ ascending (UserStructCompare Tree) (entries t).
Proof.
  intros Hz Hroot Hsize [[[] h'] Hv]. pose proof (zip_rep _ _ _ _ Hz) as Hrep. cbn in Hrep.
  pose proof (zip_fuel _ _ _ _ Hz) as Hfuel. cbn in Hfuel.
  destruct (forward_walk Tree g h t (S (size h)) Hz ltac:(lia)) as [_ Hfw].
  pose proof (recursive_check_run (S (size h)) h _ t Hrep ltac:(lia)) as Hcheck.
  revert Hv. unfold RedBlackTreeValidate. rewrite Hroot.
  rewrite (bind_run _ _ _ _ _ (null_or_black_run _ _ _ Hrep)).
  destruct (color_of t) eqn:Hc; [done|].
  rewrite (bind_run _ _ _ tt h) by done. rewrite (bind_run _ _ _ (S (size h)) h) by done.
  destruct (checks t) as [z|] eqn:Hz2; [|by rewrite (bind_none _ _ _ Hcheck)].
  rewrite (bind_run _ _ _ _ _ Hcheck).
  rewrite (bind_run _ _ _ _ _ (min_run _ _ _ _ Hz Hroot)).
  change (if is_null (fst <$> head (entries t)) then 0 else 1)
    with (first_count (fst <$> head (entries t))).
  destruct (validate_forward _ _ _ _ _) as [[cnt h1]|] eqn:Hw; [|by rewrite (bind_none _ _ _ Hw)].
  intros _. split; [|by apply Hfw].
  destruct (checks_is_rb t z Hz2) as (n & Hrb & _); [lia|]. rewrite Hc in Hrb. by exists n.
Qed.

(** With the feature PCD on or off, operations end in the same state. *)
Lemma wp_validate `{ValidatePcd} (Q : unit → rbheap U → Prop) Tree
    `{!UserOrder (UserStructCompare Tree)} g h t :
  holds g h [] t → Root Tree = root t → rb_valid t →
  ascending (UserStructCompare Tree) (entries t) → Q tt h →
  wp (validate_if_enabled Tree) Q h.
Proof.
  intros Hz Hr Hv Ha HQ. unfold validate_if_enabled.
  destruct PcdValidateOrderedCollection; [|done].
  apply wp_Some. exists tt, h. split; [by eapply validate_accepts|done].
Qed.

End walks.
