(* ===== verification/RbInsertOp.v ===== *)
(** * OrderedCollectionInsert

    The whole function on a heap that holds a collection: the colliding node is
    reported without a change, a failed allocation changes nothing, and otherwise
    a new node sits between the smaller and the greater entries of a tree that is
    red-black again. *)
From S2P Require Import Prelude CBase RbDefs RbTree RbHeap RbWalk RbInsert RbValidate.
Local Open Scope Z_scope.

Section insert.
Context {U K : Type}.
Implicit Types (t l r : rbt U) (k : list (frame U)) (a : positive) (u : U)
  (g h : rbheap U) (p nr : option positive) (es : list (positive * U))
  (Tree : RED_BLACK_TREE U K).

(** Filling in the fields of a fresh node. *)
Lemma wp_init_then {A} (Q : A → rbheap U → Prop) (m : M (rbheap U) A) h a garbage us par :
  wp m Q (<[a := RbNode us par None None (Color garbage)]> h) →
  wp (set_UserStruct (Some a) us;; set_Parent (Some a) par;;
      set_Left (Some a) None;; set_Right (Some a) None;; m) Q (<[a := garbage]> h).
Proof.
  intros HQ. unfold set_UserStruct, set_Parent, set_Left, set_Right.
  do 4 (wp_seq; eapply wp_update; [by rewrite lookup_insert_eq|]; rewrite insert_insert_eq; cbn).
  done.
Qed.

(** Making the fresh node the child of the node whose leaf the descent reached. *)
Lemma link_leaf g h k a u c :
  holds g h k E → h !! a = None →
  holds g (relink (<[a := RbNode u (cptr k) None None c]> h) k (Some a)) k (T c E a u E).
Proof.
  intros [_ Hk Hd Hs] Ha. cbn in Hk, Hd, Hs.
  assert (Hka : kocc k a = 0%nat).
  { destruct (decide (kocc k a = 0%nat)) as [|Hne]; [done|]. exfalso.
    clear Hd Hs. revert Hk Hne. generalize (@None positive).
    induction k as [|f k IH]; cbn; [done|]. intros p (Hf & Hsib & Hk) Hne.
    destruct (decide (f_addr f = a)) as [<-|Hfa]; [by rewrite Hf in Ha|].
    unfold one in Hne. rewrite decide_False in Hne by done.
    destruct (decide (occ (f_sibling f) a = 0%nat)); [apply (IH _ Hk); lia|].
    assert (Hin : a ∈ dom h) by (eapply rep_dom; [done|by apply occ_entries]).
    apply elem_of_dom in Hin as [? ?]. congruence. }
  assert (Hd2 : ∀ x, (kocc k x + one a x ≤ 1)%nat).
  { intros x. specialize (Hd x). unfold one. case_decide; subst; lia. }
  split; cbn.
  - rewrite lookup_relink_ne by done. by rewrite lookup_insert_eq.
  - eapply (crep_relink _ _ _ None); [by apply crep_insert|]. intros x. specialize (Hd x). lia.
  - intros x. specialize (Hd2 x). lia.
  - intros x Hx. rewrite lookup_relink_ne by lia. rewrite lookup_insert_ne; [apply Hs; lia|].
    intros ->. rewrite one_same in Hx. lia.
Qed.

(** The final [NewRoot->Color = RedBlackTreeBlack]. *)
Lemma wp_blacken (Q : unit → rbheap U → Prop) g h t :
  holds g h [] t → t ≠ E → (∀ h', holds g h' [] (blacken t) → Q tt h') →
  wp (set_Color (root t) RedBlackTreeBlack) Q h.
Proof.
  intros Hz Ht HQ. destruct t as [|c l a u r]; [done|].
  eapply set_color_spec; [done|]. intros h' Hz'. by apply HQ.
Qed.

(** The new entry keeps the order. *)
Lemma ascending_insert cmp `{!UserOrder cmp} us a es1 es2 :
  ascending cmp (es1 ++ es2) →
  (∀ e, e ∈ es1 → 0 < cmp us e.2) → (∀ e, e ∈ es2 → cmp us e.2 < 0) →
  ascending cmp (es1 ++ (a, us) :: es2).
Proof.
  unfold ascending. rewrite !StronglySorted_app, StronglySorted_cons, Forall_forall.
  intros (H12 & H1 & H2) Hlo Hhi. split_and!; [|done..].
  intros e e' He [->|He']%elem_of_cons; [|by apply H12]. by apply cmp_flip, Hlo.
Qed.

Lemma find_entry_none (f : U → Z) es1 es2 :
  (∀ e, e ∈ es1 → 0 < f e.2) → (∀ e, e ∈ es2 → f e.2 < 0) → find_entry f (es1 ++ es2) = None.
Proof.
  intros H1 H2. unfold find_entry. rewrite filter_none; [done|].
  intros e [He|He]%elem_of_app; [specialize (H1 e He)|specialize (H2 e He)]; lia.
Qed.

(** The three outcomes. *)
Inductive inserted `{PoolAllocator U} g h Tree t NodeOut us
    : Z * RED_BLACK_TREE U K * option (option positive) → rbheap U → Prop :=
  | inserted_collision a u :
      find_entry (UserStructCompare Tree us) (entries t) = Some a →
      (a, u) ∈ entries t → UserStructCompare Tree us u = 0 →
      inserted g h Tree t NodeOut us
        (RETURN_ALREADY_STARTED, Tree, out_ptr NodeOut (Some a)) h
  | inserted_no_memory :
      find_entry (UserStructCompare Tree us) (entries t) = None →
      AllocatePool h = None →
      inserted g h Tree t NodeOut us (RETURN_OUT_OF_RESOURCES, Tree, NodeOut) h
  | inserted_linked a garbage t' es1 es2 h' :
      find_entry (UserStructCompare Tree us) (entries t) = None →
      AllocatePool h = Some (a, garbage) →
      holds g h' [] t' → rb_valid t' →
      entries t = es1 ++ es2 → entries t' = es1 ++ (a, us) :: es2 →
      ascending (UserStructCompare Tree) (entries t') →
      inserted g h Tree t NodeOut us
        (RETURN_SUCCESS, set_Root Tree (root t'), out_ptr NodeOut (Some a)) h'.

Lemma insert_linked `{PoolAllocator U, ValidatePcd} Tree `{!UserOrder (UserStructCompare Tree)}
    NodeOut us g h h1 t t' a garbage es1 es2 :
  find_entry (UserStructCompare Tree us) (entries t) = None →
  AllocatePool h = Some (a, garbage) →
  entries t = es1 ++ es2 → ascending (UserStructCompare Tree) (entries t) →
  (∀ e, e ∈ es1 → 0 < UserStructCompare Tree us e.2) →
  (∀ e, e ∈ es2 → UserStructCompare Tree us e.2 < 0) →
  holds g h1 [] t' → rb_valid t' → entries t' = es1 ++ (a, us) :: es2 →
  wp (validate_if_enabled (set_Root Tree (root t'));;
      mret (RETURN_SUCCESS, set_Root Tree (root t'), out_ptr NodeOut (Some a)))
    (inserted g h Tree t NodeOut us) h1.
Proof.
  intros Hnone Ha He Hasc Hlo Hhi Hz Hv He'. rewrite He in Hasc.
  assert (Hasc' : ascending (UserStructCompare Tree) (entries t'))
    by (rewrite He'; by apply ascending_insert).
  wp_seq. eapply (wp_validate _ (set_Root Tree (root t'))); [done..|]. wp_seq.
  by eapply inserted_linked.
Qed.

Lemma insert_spec `{PoolAllocator U, ValidatePcd} Tree `{!UserOrder (UserStructCompare Tree)}
    NodeOut us g h t :
  holds g h [] t → Root Tree = root t → rb_valid t →
  ascending (UserStructCompare Tree) (entries t) →
  wp (OrderedCollectionInsert Tree NodeOut us) (inserted g h Tree t NodeOut us) h.
Proof.
  intros Hz Hroot Hv Hasc. pose proof (zip_fuel _ _ _ _ Hz) as Hfuel. cbn in Hfuel.
  unfold OrderedCollectionInsert. wp_seq. apply wp_loop_fuel. intros fuel Hf. wp_seq.
  rewrite Hroot. eapply wp_mono.
  { eapply (insert_descend_spec _ _ _ _ _ [] t); [done|lia| |cbn; set_solver..|done].
    by apply ascending_user_monotone. }
  intros [[Tmp par] Result] h' [-> Hd]. cbn [plug] in Hd.
  destruct Hd as [a u par Result Hin Hu Hfind|k Result Hplug Hlo Hhi Hside]; cbn [is_null].
  { change (is_null (Some a)) with false. cbn. wp_seq.
    eapply wp_validate; [done..|]. wp_seq. by eapply inserted_collision. }
  change (is_null None) with true. cbn [negb]. cbn in Hplug.
  assert (He : entries t = before k ++ after k) by (rewrite <-Hplug, plug_entries; done).
  assert (Hnone : find_entry (UserStructCompare Tree us) (entries t) = None)
    by (rewrite He; by apply find_entry_none).
  wp_seq. apply wp_get. destruct (AllocatePool h) as [[a garbage]|] eqn:Ha; cycle 1.
  { wp_seq. eapply wp_validate; [done..|]. wp_seq. by apply inserted_no_memory. }
  wp_seq. apply wp_put. assert (Hfresh := AllocatePool_fresh _ _ _ Ha).
  assert (Hzk : holds g h k E) by (apply (zip_root g); by rewrite Hplug).
  apply wp_init_then. assert (Hlink := link_leaf g h k a us (Color garbage) Hzk Hfresh).
  destruct (plug_rb_inv k E) as (c & n & HrbE & Hctx & _); [by rewrite Hplug|].
  inversion HrbE; subst c n. destruct k as [|f k].
  - cbn in *. wp_seq. eapply set_color_spec; [exact Hlink|]. intros h1 Hz1.
    eapply (insert_linked _ _ _ _ _ _ _ (T RedBlackTreeBlack E a us E) _ _ [] []); try done.
    eexists. by econstructor; constructor.
  - cbn [cptr] in *. change (is_null (Some (f_addr f))) with false. cbn iota. wp_seq.
    eapply wp_link_child; [ | exact Hside | wp_seq; eapply set_color_spec; [exact Hlink|] ].
    { rewrite lookup_insert_ne; [by apply zip_parent in Hzk|].
      intros ->. apply zip_parent in Hzk. congruence. }
    intros h1 Hz1. wp_seq. eapply wp_mono.
    { eapply (insert_fixup_spec fuel _ _ (f :: k) (T RedBlackTreeRed E a us E)); [done|..].
      - by constructor.
      - done.
      - rewrite <-Hplug. by apply root_plug_indep.
      - pose proof (zip_fuel _ _ _ _ Hzk). cbn in *. lia. }
    intros nr h2 (t' & Hz2 & -> & Hv' & Hent). rewrite plug_entries in Hent.
    wp_seq. eapply wp_blacken; [done| |].
    { intros ->. apply (f_equal length) in Hent. rewrite !length_app in Hent. cbn [length entries app] in Hent. lia. }
    intros h3 Hz3. rewrite <-(root_blacken t').
    eapply insert_linked; try done. by rewrite entries_blacken.
Qed.

End insert.
