(* ===== verification/RbDelete.v ===== *)
(** * The loop of OrderedCollectionDelete

    The part of OrderedCollectionDelete that ascends with the extra black value:
    one step of the loop on either side, and that the loop ends in a valid
    red-black tree with the same entries. *)
From S2P Require Import Prelude CBase RbDefs RbTree RbHeap RbWalk RbInsert RbValidate.

Section fixup.
Context {U : Type}.
Implicit Types (t l r s : rbt U) (k : list (frame U)) (a : positive) (u : U)
  (g h : rbheap U) (p v nr : option positive) (es : list (positive * U)).

(** The focused subtree lacks one black level: painting a red root black repairs
    it, a black one has to pass the extra black value on. *)
Definition lacking t n : Prop :=
  match color_of t with
  | RedBlackTreeRed => is_rb (blacken t) RedBlackTreeBlack (S n)
  | RedBlackTreeBlack => is_rb t RedBlackTreeBlack n
  end.

Lemma is_rb_lacking t c n : is_rb t c n → lacking t n.
Proof. destruct 1; unfold lacking; cbn; by econstructor. Qed.

(** The state after one step: the loop goes on at [t'], or has repaired the tree
    and [Child] is its root. *)
Inductive stepped g es m : option positive * option positive * option positive → rbheap U → Prop :=
  | stepped_up h k t n :
      holds g h k t → lacking t n → ctx_rb k (S n) → entries (plug k t) = es →
      (color_of t = RedBlackTreeRed ∨ length k < m) →
      stepped g es m (root t, cptr k, root (plug k t)) h
  | stepped_done h t p :
      holds g h [] t → rb_valid t → entries t = es →
      stepped g es m (root t, p, root t) h.

Lemma ctx_fits k n c a u s d : ctx_rb (F d c a u s :: k) n → fits c k.
Proof. inversion 1; subst; intros ?; by simplify_eq. Qed.

(** The black height of a node of color [c] over children of black height [n]. *)
Definition grow c n : nat := match c with RedBlackTreeRed => n | RedBlackTreeBlack => S n end.

Lemma ctx_up d c a u s k n : ctx_rb (F d c a u s :: k) n →
  ctx_rb k (grow c n) ∧
  (∃ cs, is_rb s cs n ∧ (c = RedBlackTreeRed → cs = RedBlackTreeBlack)).
Proof. inversion 1; subst; cbn; naive_solver. Qed.

Lemma is_rb_grow c l a u r n :
  is_rb l RedBlackTreeBlack n → is_rb r RedBlackTreeBlack n → is_rb (T c l a u r) c (grow c n).
Proof. destruct c; cbn; by econstructor. Qed.

(** Flushing: the two sides of the rotation. *)
Lemma delete_flush_left_spec g h cp pa pu ln b bu rl y yu rr c1 k t n :
  holds g h (F SL cp pa pu (T RedBlackTreeBlack ln b bu (T RedBlackTreeRed rl y yu rr)) :: k) t →
  is_rb t RedBlackTreeBlack n → is_rb ln c1 n →
  is_rb (T RedBlackTreeRed rl y yu rr) RedBlackTreeRed n →
  ctx_rb k (grow cp (S n)) → fits cp k →
  let t0 := T RedBlackTreeBlack ln b bu (T RedBlackTreeRed rl y yu rr) in
  ∀ nr m, nr = root (plug (F SL cp pa pu t0 :: k) t) →
  wp (delete_flush_left (Some b) (Some y) (Some pa) nr)
    (stepped g (entries (plug (F SL cp pa pu t0 :: k) t)) m) h.
Proof.
  intros Hz Ht Hln Hrn Hk Hfit t0 nr m ->. unfold delete_flush_left.
  wp_seq. apply wp_assert; [done|]. apply zip_out_left in Hz as Hz0.
  pose proof (zip_in_right _ _ _ _ _ _ _ _ Hz0) as Hz1.
  pose proof (zip_in_right _ _ _ _ _ _ _ _ Hz1) as Hz2.
  wp_seq. eapply wp_get_field; [by eapply zip_node|]. cbn [Color].
  wp_seq. apply wp_assert; [done|]. wp_seq. apply wp_assert; [done|].
  wp_seq. eapply wp_get_field; [by eapply zip_node|]. cbn [Color].
  wp_seq. apply wp_assert; [done|].
  wp_seq. eapply wp_get_field; [by eapply zip_node|]. cbn [Color].
  wp_seq. eapply set_color_spec; [exact Hz1|]. intros h1 Hz3.
  wp_seq. eapply set_color_spec; [by apply zip_out_right in Hz3|]. intros h2 Hz4.
  wp_seq. eapply set_color_spec; [by apply zip_in_right, zip_in_right in Hz4|].
  intros h3 Hz5%zip_out_right%zip_out_right.
  wp_seq. eapply wp_mono; [by eapply rotate_left_spec|]. intros nr' h4 [Hz6 ->]. wp_seq.
  set (t' := T cp (T RedBlackTreeBlack t pa pu ln) b bu (T RedBlackTreeBlack rl y yu rr)).
  replace (new_root k (Some b) _) with (root (plug k t')) by (symmetry; apply (new_root_plug k _ t')).
  inversion Hrn; subst. eapply stepped_done; [by apply -> (zip_root g)| |].
  - eapply (plug_rb k t' cp (grow cp (S n))); [|done..]. apply is_rb_grow; by econstructor.
  - apply (entries_plug_eq k t'). cbn. by rewrite <-app_assoc.
Qed.
(** Turning a red left nephew into a red right one. *)
Lemma delete_turn_left g h d cp pa pu xl x xu xr b bu rn k t nr :
  holds g h (F d cp pa pu (T RedBlackTreeBlack (T RedBlackTreeRed xl x xu xr) b bu rn) :: k) t →
  d = SL →
  wp (set_Color (Some x) RedBlackTreeBlack;;
      set_Color (Some b) RedBlackTreeRed;;
      NewRoot ← RedBlackTreeRotateRight (Some b) nr;
      Sibling ← get Right (Some pa);
      RightNephew ← get Right Sibling;
      mret (Sibling, RightNephew, NewRoot))
    (λ res h', res = (Some x, Some b, nr) ∧
       holds g h' (F d cp pa pu (T RedBlackTreeBlack xl x xu (T RedBlackTreeRed xr b bu rn)) :: k) t) h.
Proof.
  intros Hz ->. apply zip_out_left, zip_in_right in Hz.
  wp_seq. eapply set_color_spec; [by apply zip_in_left in Hz|]. intros h1 Hz1%zip_out_left.
  wp_seq. eapply set_color_spec; [exact Hz1|]. intros h2 Hz2.
  wp_seq. eapply wp_mono; [by eapply rotate_right_spec|]. intros nr' h3 [Hz3 ->].
  wp_seq. eapply wp_get_field; [by apply zip_out_right, zip_node in Hz3|]. cbn [Right root].
  wp_seq. eapply wp_get_field; [by eapply zip_node|]. cbn [Right root].
  wp_seq. split; [done|]. by apply zip_out_right, zip_in_left in Hz3.
Qed.

Lemma delete_black_left_spec g h cp pa pu ln b bu rn c1 c2 k t n :
  let s := T RedBlackTreeBlack ln b bu rn in
  holds g h (F SL cp pa pu s :: k) t →
  is_rb t RedBlackTreeBlack n → is_rb ln c1 n → is_rb rn c2 n →
  ctx_rb k (grow cp (S n)) → fits cp k →
  ∀ nr m, nr = root (plug (F SL cp pa pu s :: k) t) →
  cp = RedBlackTreeRed ∨ length k < m →
  wp (delete_black_left (Some b) (Some pa) nr)
    (stepped g (entries (plug (F SL cp pa pu s :: k) t)) m) h.
Proof.
  intros s Hz Ht Hln Hrn Hk Hfit nr m -> Hm. unfold delete_black_left.
  apply zip_out_left in Hz as Hz0. pose proof (zip_in_right _ _ _ _ _ _ _ _ Hz0) as Hz1.
  do 3 (wp_seq; [..|eapply wp_get_field; [by eapply zip_node|]; cbn [Color Left Right];
                 try (wp_seq; apply wp_assert; [done|])]).
  destruct (zip_rep _ _ _ _ Hz1) as (_ & Hrl & Hrr).
  wp_seq. eapply wp_null_or_black; [done|]. wp_seq. eapply wp_null_or_black; [done|].
  rewrite (is_rb_color _ _ _ Hln), (is_rb_color _ _ _ Hrn).
  destruct c2; cycle 1.
  2:{ replace (is_black c1 && is_black RedBlackTreeRed) with false by (by destruct c1).
      change (is_black RedBlackTreeRed) with false. inversion Hrn; subst.
      wp_seq. by eapply delete_flush_left_spec. }
  change (is_black RedBlackTreeBlack) with true. rewrite andb_true_r.
  destruct c1.
  - change (is_black RedBlackTreeRed) with false. inversion Hln; subst. apply wp_bind. cbn [root].
    eapply wp_mono; [by eapply delete_turn_left|]. intros res h1 [-> Hz2]. cbn beta iota.
    eapply wp_mono; [eapply delete_flush_left_spec; try done|].
    + by constructor.
    + by apply (root_plug_same k).
    + intros x h2 Hst. cbn [plug] in Hst |- *.
      erewrite (entries_plug_eq k); [exact Hst|]. cbn. by rewrite <-!app_assoc.
  - change (is_black RedBlackTreeBlack) with true. cbn iota.
    wp_seq. eapply set_color_spec; [exact Hz1|]. intros h1 Hz2%zip_out_right.
    wp_seq. eapply wp_get_field; [by eapply zip_node|]. cbn [Parent]. wp_seq.
    replace (root (plug _ _)) with (root (plug k (T cp t pa pu (T RedBlackTreeRed ln b bu rn))))
      by (by apply (root_plug_same k)).
    eapply (stepped_up _ _ _ _ k (T cp t pa pu (T RedBlackTreeRed ln b bu rn))
              (match cp with RedBlackTreeRed => n | RedBlackTreeBlack => S n end)); [done|..].
    + destruct cp; unfold lacking; cbn; econstructor; [done|by constructor|done|by constructor].
    + by destruct cp.
    + by apply (entries_plug_eq k).
    + cbn. destruct Hm; [by left|by right].
Qed.

(** A sibling of positive black height is a node; a black one has two subtrees. *)
Lemma is_rb_black_node t n : is_rb t RedBlackTreeBlack (S n) →
  ∃ l a u r c1 c2, t = T RedBlackTreeBlack l a u r ∧ is_rb l c1 n ∧ is_rb r c2 n.
Proof. inversion 1; subst; eauto 10. Qed.

Lemma is_rb_node t c n : is_rb t c (S n) → ∃ l a u r, t = T c l a u r.
Proof. inversion 1; subst; eauto. Qed.

(** Turning a red sibling into a black one. *)
Lemma delete_red_left g h pa pu sl b bu sr l1 a1 u1 r1 k t nr :
  sl = T RedBlackTreeBlack l1 a1 u1 r1 →
  holds g h (F SL RedBlackTreeBlack pa pu (T RedBlackTreeRed sl b bu sr) :: k) t →
  wp (set_Color (Some b) RedBlackTreeBlack;;
      set_Color (Some pa) RedBlackTreeRed;;
      NewRoot ← RedBlackTreeRotateLeft (Some pa) nr;
      Sibling ← get Right (Some pa);
      ASSERT (negb (is_null Sibling));;
      mret (Sibling, NewRoot))
    (λ res h', res = (Some a1, new_root k (Some b) nr) ∧
       holds g h' (F SL RedBlackTreeRed pa pu sl :: F SL RedBlackTreeBlack b bu sr :: k) t) h.
Proof.
  intros -> Hz. apply zip_out_left, zip_in_right in Hz.
  wp_seq. eapply set_color_spec; [exact Hz|]. intros h1 Hz1%zip_out_right.
  wp_seq. eapply set_color_spec; [exact Hz1|]. intros h2 Hz2.
  wp_seq. eapply wp_mono; [by eapply rotate_left_spec|]. intros nr' h3 [Hz3 ->].
  apply zip_in_left in Hz3.
  wp_seq. eapply wp_get_field; [by eapply zip_node|]. cbn [Right root].
  wp_seq. apply wp_assert; [done|]. wp_seq. split; [done|]. by apply zip_in_left.
Qed.

Lemma delete_step_left_spec g h cp pa pu s k t n nr :
  holds g h (F SL cp pa pu s :: k) t → is_rb t RedBlackTreeBlack n →
  ctx_rb (F SL cp pa pu s :: k) (S n) → nr = root (plug (F SL cp pa pu s :: k) t) →
  wp (delete_step_left (Some pa) nr)
    (stepped g (entries (plug (F SL cp pa pu s :: k) t)) (S (length k))) h.
Proof.
  intros Hz Ht Hk ->. pose proof (ctx_fits _ _ _ _ _ _ _ Hk) as Hfit.
  destruct (ctx_up _ _ _ _ _ _ _ Hk) as (Hk2 & cs & Hs & Hcs).
  destruct (is_rb_node _ _ _ Hs) as (sl & b & bu & sr & ->).
  unfold delete_step_left. wp_seq. eapply (wp_frame_right _ _ _ (F SL _ pa _ _)); [done|].
  cbn [f_side f_sibling root]. wp_seq. apply wp_assert; [done|].
  assert (Hz1 := Hz). apply zip_out_left, zip_in_right in Hz1.
  wp_seq. eapply wp_get_field; [by eapply zip_node|]. cbn [Color]. destruct cs; cycle 1.
  - change (is_red RedBlackTreeBlack) with false. cbn iota. wp_seq.
    destruct (is_rb_black_node _ _ Hs) as (? & ? & ? & ? & c1 & c2 & [= <- <- <- <-] & Hl & Hr).
    eapply delete_black_left_spec; try done. right. lia.
  - change (is_red RedBlackTreeRed) with true. cbn iota.
    destruct cp; [by specialize (Hcs eq_refl)|]. inversion Hs; subst.
    destruct (is_rb_black_node sl n) as (l1 & a1 & u1 & r1 & c1 & c2 & -> & Hl & Hr); [done|].
    apply wp_bind. eapply wp_mono; [by eapply delete_red_left|].
    intros res h1 [-> Hz2]. cbn beta iota.
    eapply wp_mono; [eapply delete_black_left_spec; try done|].
    + cbn. by econstructor.
    + set (sl := T RedBlackTreeBlack l1 a1 u1 r1).
      apply (new_root_plug k (T RedBlackTreeBlack t pa pu (T RedBlackTreeRed sl b bu sr))
               (T RedBlackTreeBlack (T RedBlackTreeRed t pa pu sl) b bu sr)).
    + by left.
    + intros x h2 Hst. cbn [plug] in Hst |- *.
      erewrite (entries_plug_eq k); [exact Hst|]. cbn. by simplify_list_eq.
Qed.

(** ** The mirror image *)

Lemma delete_flush_right_spec g h cp pa pu rn b bu rl y yu rr c1 k t n :
  holds g h (F SR cp pa pu (T RedBlackTreeBlack (T RedBlackTreeRed rl y yu rr) b bu rn) :: k) t →
  is_rb t RedBlackTreeBlack n → is_rb rn c1 n →
  is_rb (T RedBlackTreeRed rl y yu rr) RedBlackTreeRed n →
  ctx_rb k (grow cp (S n)) → fits cp k →
  let t0 := T RedBlackTreeBlack (T RedBlackTreeRed rl y yu rr) b bu rn in
  ∀ nr m, nr = root (plug (F SR cp pa pu t0 :: k) t) →
  wp (delete_flush_right (Some b) (Some y) (Some pa) nr)
    (stepped g (entries (plug (F SR cp pa pu t0 :: k) t)) m) h.
Proof.
  intros Hz Ht Hrn Hln Hk Hfit t0 nr m ->. unfold delete_flush_right.
  wp_seq. apply wp_assert; [done|]. apply zip_out_right in Hz as Hz0.
  pose proof (zip_in_left _ _ _ _ _ _ _ _ Hz0) as Hz1.
  pose proof (zip_in_left _ _ _ _ _ _ _ _ Hz1) as Hz2.
  wp_seq. eapply wp_get_field; [by eapply zip_node|]. cbn [Color].
  wp_seq. apply wp_assert; [done|]. wp_seq. apply wp_assert; [done|].
  wp_seq. eapply wp_get_field; [by eapply zip_node|]. cbn [Color].
  wp_seq. apply wp_assert; [done|].
  wp_seq. eapply wp_get_field; [by eapply zip_node|]. cbn [Color].
  wp_seq. eapply set_color_spec; [exact Hz1|]. intros h1 Hz3.
  wp_seq. eapply set_color_spec; [by apply zip_out_left in Hz3|]. intros h2 Hz4.
  wp_seq. eapply set_color_spec; [by apply zip_in_left, zip_in_left in Hz4|].
  intros h3 Hz5%zip_out_left%zip_out_left.
  wp_seq. eapply wp_mono; [by eapply rotate_right_spec|]. intros nr' h4 [Hz6 ->]. wp_seq.
  set (t' := T cp (T RedBlackTreeBlack rl y yu rr) b bu (T RedBlackTreeBlack rn pa pu t)).
  replace (new_root k (Some b) _) with (root (plug k t')) by (symmetry; apply (new_root_plug k _ t')).
  inversion Hln; subst. eapply stepped_done; [by apply -> (zip_root g)| |].
  - eapply (plug_rb k t' cp (grow cp (S n))); [|done..]. apply is_rb_grow; by econstructor.
  - apply (entries_plug_eq k t'). cbn. by simplify_list_eq.
Qed.

Lemma delete_turn_right g h d cp pa pu xl x xu xr b bu ln k t nr :
  holds g h (F d cp pa pu (T RedBlackTreeBlack ln b bu (T RedBlackTreeRed xl x xu xr)) :: k) t →
  d = SR →
  wp (set_Color (Some x) RedBlackTreeBlack;;
      set_Color (Some b) RedBlackTreeRed;;
      NewRoot ← RedBlackTreeRotateLeft (Some b) nr;
      Sibling ← get Left (Some pa);
      LeftNephew ← get Left Sibling;
      mret (Sibling, LeftNephew, NewRoot))
    (λ res h', res = (Some x, Some b, nr) ∧
       holds g h' (F d cp pa pu (T RedBlackTreeBlack (T RedBlackTreeRed ln b bu xl) x xu xr) :: k) t) h.
Proof.
  intros Hz ->. apply zip_out_right, zip_in_left in Hz.
  wp_seq. eapply set_color_spec; [by apply zip_in_right in Hz|]. intros h1 Hz1%zip_out_right.
  wp_seq. eapply set_color_spec; [exact Hz1|]. intros h2 Hz2.
  wp_seq. eapply wp_mono; [by eapply rotate_left_spec|]. intros nr' h3 [Hz3 ->].
  wp_seq. eapply wp_get_field; [by apply zip_out_left, zip_node in Hz3|]. cbn [Left root].
  wp_seq. eapply wp_get_field; [by eapply zip_node|]. cbn [Left root].
  wp_seq. split; [done|]. by apply zip_out_left, zip_in_right in Hz3.
Qed.

Lemma delete_black_right_spec g h cp pa pu ln b bu rn c1 c2 k t n :
  let s := T RedBlackTreeBlack ln b bu rn in
  holds g h (F SR cp pa pu s :: k) t →
  is_rb t RedBlackTreeBlack n → is_rb ln c1 n → is_rb rn c2 n →
  ctx_rb k (grow cp (S n)) → fits cp k →
  ∀ nr m, nr = root (plug (F SR cp pa pu s :: k) t) →
  cp = RedBlackTreeRed ∨ length k < m →
  wp (delete_black_right (Some b) (Some pa) nr)
    (stepped g (entries (plug (F SR cp pa pu s :: k) t)) m) h.
Proof.
  intros s Hz Ht Hln Hrn Hk Hfit nr m -> Hm. unfold delete_black_right.
  apply zip_out_right in Hz as Hz0. pose proof (zip_in_left _ _ _ _ _ _ _ _ Hz0) as Hz1.
  do 3 (wp_seq; [..|eapply wp_get_field; [by eapply zip_node|]; cbn [Color Left Right];
                 try (wp_seq; apply wp_assert; [done|])]).
  destruct (zip_rep _ _ _ _ Hz1) as (_ & Hrl & Hrr).
  wp_seq. eapply wp_null_or_black; [done|]. wp_seq. eapply wp_null_or_black; [done|].
  rewrite (is_rb_color _ _ _ Hln), (is_rb_color _ _ _ Hrn).
  destruct c1; cycle 1.
  2:{ replace (is_black c2 && is_black RedBlackTreeRed) with false by (by destruct c2).
      change (is_black RedBlackTreeRed) with false. inversion Hln; subst.
      wp_seq. by eapply delete_flush_right_spec. }
  change (is_black RedBlackTreeBlack) with true. rewrite andb_true_r.
  destruct c2.
  - change (is_black RedBlackTreeRed) with false. inversion Hrn; subst. apply wp_bind. cbn [root].
    eapply wp_mono; [by eapply delete_turn_right|]. intros res h1 [-> Hz2]. cbn beta iota.
    eapply wp_mono; [eapply delete_flush_right_spec; try done|].
    + by constructor.
    + by apply (root_plug_same k).
    + intros x h2 Hst. cbn [plug] in Hst |- *.
      erewrite (entries_plug_eq k); [exact Hst|]. cbn. by simplify_list_eq.
  - change (is_black RedBlackTreeBlack) with true. cbn iota.
    wp_seq. eapply set_color_spec; [exact Hz1|]. intros h1 Hz2%zip_out_left.
    wp_seq. eapply wp_get_field; [by eapply zip_node|]. cbn [Parent]. wp_seq.
    replace (root (plug _ _)) with (root (plug k (T cp (T RedBlackTreeRed ln b bu rn) pa pu t)))
      by (by apply (root_plug_same k)).
    eapply (stepped_up _ _ _ _ k (T cp (T RedBlackTreeRed ln b bu rn) pa pu t)
              (match cp with RedBlackTreeRed => n | RedBlackTreeBlack => S n end)); [done|..].
    + destruct cp; unfold lacking; cbn; econstructor; [by constructor|done|by constructor|done].
    + by destruct cp.
    + by apply (entries_plug_eq k).
    + cbn. destruct Hm; [by left|by right].
Qed.

Lemma delete_red_right g h pa pu sl b bu sr l1 a1 u1 r1 k t nr :
  sr = T RedBlackTreeBlack l1 a1 u1 r1 →
  holds g h (F SR RedBlackTreeBlack pa pu (T RedBlackTreeRed sl b bu sr) :: k) t →
  wp (set_Color (Some b) RedBlackTreeBlack;;
      set_Color (Some pa) RedBlackTreeRed;;
      NewRoot ← RedBlackTreeRotateRight (Some pa) nr;
      Sibling ← get Left (Some pa);
      ASSERT (negb (is_null Sibling));;
      mret (Sibling, NewRoot))
    (λ res h', res = (Some a1, new_root k (Some b) nr) ∧
       holds g h' (F SR RedBlackTreeRed pa pu sr :: F SR RedBlackTreeBlack b bu sl :: k) t) h.
Proof.
  intros -> Hz. apply zip_out_right, zip_in_left in Hz.
  wp_seq. eapply set_color_spec; [exact Hz|]. intros h1 Hz1%zip_out_left.
  wp_seq. eapply set_color_spec; [exact Hz1|]. intros h2 Hz2.
  wp_seq. eapply wp_mono; [by eapply rotate_right_spec|]. intros nr' h3 [Hz3 ->].
  apply zip_in_right in Hz3.
  wp_seq. eapply wp_get_field; [by eapply zip_node|]. cbn [Left root].
  wp_seq. apply wp_assert; [done|]. wp_seq. split; [done|]. by apply zip_in_right.
Qed.

Lemma delete_step_right_spec g h cp pa pu s k t n nr :
  holds g h (F SR cp pa pu s :: k) t → is_rb t RedBlackTreeBlack n →
  ctx_rb (F SR cp pa pu s :: k) (S n) → nr = root (plug (F SR cp pa pu s :: k) t) →
  wp (delete_step_right (Some pa) nr)
    (stepped g (entries (plug (F SR cp pa pu s :: k) t)) (S (length k))) h.
Proof.
  intros Hz Ht Hk ->. pose proof (ctx_fits _ _ _ _ _ _ _ Hk) as Hfit.
  destruct (ctx_up _ _ _ _ _ _ _ Hk) as (Hk2 & cs & Hs & Hcs).
  destruct (is_rb_node _ _ _ Hs) as (sl & b & bu & sr & ->).
  unfold delete_step_right. wp_seq. eapply (wp_frame_left _ _ _ (F SR _ pa _ _)); [done|].
  cbn [f_side f_sibling root]. wp_seq. apply wp_assert; [done|].
  assert (Hz1 := Hz). apply zip_out_right, zip_in_left in Hz1.
  wp_seq. eapply wp_get_field; [by eapply zip_node|]. cbn [Color]. destruct cs; cycle 1.
  - change (is_red RedBlackTreeBlack) with false. cbn iota. wp_seq.
    destruct (is_rb_black_node _ _ Hs) as (? & ? & ? & ? & c1 & c2 & [= <- <- <- <-] & Hl & Hr).
    eapply delete_black_right_spec; try done. right. lia.
  - change (is_red RedBlackTreeRed) with true. cbn iota.
    destruct cp; [by specialize (Hcs eq_refl)|]. inversion Hs; subst.
    destruct (is_rb_black_node sr n) as (l1 & a1 & u1 & r1 & c1 & c2 & -> & Hl & Hr); [done|].
    apply wp_bind. eapply wp_mono; [by eapply delete_red_right|].
    intros res h1 [-> Hz2]. cbn beta iota.
    eapply wp_mono; [eapply delete_black_right_spec; try done|].
    + cbn. by econstructor.
    + set (sr := T RedBlackTreeBlack l1 a1 u1 r1).
      apply (new_root_plug k (T RedBlackTreeBlack (T RedBlackTreeRed sl b bu sr) pa pu t)
               (T RedBlackTreeBlack sl b bu (T RedBlackTreeRed sr pa pu t))).
    + by left.
    + intros x h2 Hst. cbn [plug] in Hst |- *.
      erewrite (entries_plug_eq k); [exact Hst|]. cbn. by simplify_list_eq.
Qed.

(** ** The loop *)

(** The state after the loop: painting the root of the focused subtree black
    completes the tree. *)
Definition paintable g es (res : option positive * option positive) h : Prop :=
  ∃ k t, res = (root t, root (plug k t)) ∧ holds g h k t ∧
    rb_valid (plug k (blacken t)) ∧ entries (plug k t) = es.

Lemma lacking_blacken t n : lacking t n →
  ∃ m, is_rb (blacken t) RedBlackTreeBlack m ∧ (color_of t = RedBlackTreeRed → m = S n).
Proof.
  unfold lacking. destruct (color_of t) eqn:Hc; [by eauto|]. intros Ht. exists n.
  split; [|done]. destruct t; [done|]. cbn in *. by subst.
Qed.

Lemma lacking_paintable g h k t n : holds g h k t → lacking t n → ctx_rb k (S n) →
  k = [] ∨ color_of t = RedBlackTreeRed →
  paintable g (entries (plug k t)) (root t, root (plug k t)) h.
Proof.
  intros Hz Ht Hk Hc. exists k, t. split_and!; try done.
  destruct (lacking_blacken _ _ Ht) as (m & Hm & Hred). destruct Hc as [->|Hc].
  - by exists m.
  - rewrite (Hred Hc) in Hm. by eapply plug_rb.
Qed.

(** The test [Child == Parent->Left], for a child that may be NULL. *)
Lemma wp_child_is_left (Q : option positive → rbheap U → Prop) g h d c a u s k t :
  holds g h (F d c a u s :: k) t → s ≠ E →
  (∀ p, ptr_eq (root t) p = match d with SL => true | SR => false end → Q p h) →
  wp (get Left (Some a)) Q h.
Proof.
  intros Hz Hs HQ. eapply (wp_frame_left _ _ _ (F d c a u s)); [done|]. apply HQ.
  destruct d; cbn [f_side f_sibling]; [by apply bool_decide_true|].
  destruct t as [|c' l b w r].
  - destruct s; [done|]. done.
  - by apply (holds_sibling_ptr _ _ _ _ _ Hz).
Qed.

Lemma delete_fixup_spec fuel g h k t n nr :
  holds g h k t → lacking t n → ctx_rb k (S n) → nr = root (plug k t) → 0 < fuel →
  color_of t = RedBlackTreeRed ∨ length k < fuel →
  wp (delete_fixup fuel (root t) (cptr k) nr) (paintable g (entries (plug k t))) h.
Proof.
  revert h k t n nr. induction fuel as [|fuel IH]; intros h k t n nr Hz Ht Hk Hnr Hf Hlen; [lia|].
  cbn [delete_fixup]. rewrite Hnr, (zip_is_root _ _ _ _ Hz).
  destruct k as [|[d cp pa pu s] k].
  { cbn. wp_seq. eapply (lacking_paintable _ _ []); try done. by left. }
  rewrite bool_decide_false by done. wp_seq.
  eapply wp_null_or_black; [by apply (zip_rep _ _ _ _ Hz)|].
  destruct (color_of t) eqn:Hc.
  { change (is_black RedBlackTreeRed) with false. cbn [negb]. wp_seq.
    eapply lacking_paintable; try done. by right. }
  change (is_black RedBlackTreeBlack) with true. cbn [negb]. destruct Hlen as [|Hlen]; [done|].
  unfold lacking in Ht. rewrite Hc in Ht.
  destruct (ctx_up _ _ _ _ _ _ _ Hk) as (_ & cs & Hs & _).
  wp_seq. eapply wp_child_is_left; [done|by inversion Hs|]. intros p ->. wp_seq.
  eapply (wp_mono _ (stepped g (entries (plug (F d cp pa pu s :: k) t)) (S (length k)))).
  { destruct d; [by eapply delete_step_left_spec|by eapply delete_step_right_spec]. }
  cbn in Hlen. intros res h1 [h2 k' t' n' Hz' Ht' Hk' <- Hm|h2 t' q Hz' [m Hv] <-].
  - eapply IH; try done; [lia|]. destruct Hm; [by left|right; lia].
  - destruct fuel; [lia|]. cbn [delete_fixup]. unfold ptr_eq. rewrite bool_decide_true by done.
    wp_seq. exists [], t'. split_and!; [done..| |done]. rewrite (blacken_valid_black _ _ Hv). by exists m.
Qed.

End fixup.

(** ** OrderedCollectionDelete

    The whole function on a heap that holds a collection: the node, or its
    successor in the place of the node, is unlinked, the node is freed, and the
    loop of RbDelete makes the tree red-black again. *)

Section unlink.
Context {U K : Type}.
Implicit Types (t l r s : rbt U) (k : list (frame U)) (a b x : positive) (u : U)
  (g h : rbheap U) (p v nr : option positive) (es : list (positive * U))
  (nd : RED_BLACK_TREE_NODE U).

(** Heap [h] holds [plug k t] and, outside of it, the unlinked node [nd] at [a]. *)
Definition detached g h a nd k t : Prop := ∃ g1,
  holds g1 h k t ∧ (∀ x, x ≠ a → g1 !! x = g !! x) ∧ kocc k a + occ t a = 0 ∧
  h !! a = Some nd.

Lemma wp_FreePool (Q : unit → rbheap U → Prop) g h a nd k t :
  detached g h a nd k t →
  (∀ h', holds (delete a g) h' k t → Q tt h') →
  wp (FreePool (Some a)) Q h.
Proof.
  intros (g1 & [Hr Hc Hd Hs] & Hg & Ha & Hnd) HQ. unfold wp, FreePool. rewrite Hnd. cbn.
  apply HQ. split.
  - apply rep_delete; [lia|done].
  - apply crep_delete; [lia|done].
  - done.
  - intros x Hx. destruct (decide (x = a)) as [->|Hne]; [by rewrite !lookup_delete_eq|].
    rewrite !lookup_delete_ne by done. rewrite Hs by done. by apply Hg.
Qed.

Lemma reparent_relink_comm h k s p v :
  (∀ x, kocc k x + occ s x ≤ 1) →
  reparent (relink h k p) s v = relink (reparent h s v) k p.
Proof.
  intros Hd. destruct s as [|c l a u r], k as [|f k]; cbn; [done..|].
  apply insert_insert_ne. intros ->. specialize (Hd (f_addr f)). cbn in Hd.
  rewrite !one_same in Hd. lia.
Qed.

(** Splicing out a node with at most one child [s]. *)
Lemma splice_out g h k c l a u r s :
  holds g h k (T c l a u r) → (l = E ∧ s = r) ∨ (r = E ∧ s = l) →
  detached g (relink (reparent h s (cptr k)) k (root s)) a
    (RbNode u (cptr k) (root l) (root r) c) k s.
Proof.
  intros [(Ha & Hl & Hr) Hk Hd Hs] Hcase.
  set (nd := RbNode u (cptr k) (root l) (root r) c).
  assert (Hocc : ∀ x, occ (T c l a u r) x = one a x + occ s x).
  { intros x. destruct Hcase as [[-> ->]|[-> ->]]; cbn; lia. }
  assert (Hrep : rep h (Some a) s) by (by destruct Hcase as [[-> ->]|[-> ->]]).
  assert (Ha0 : kocc k a + occ s a = 0).
  { specialize (Hd a). rewrite Hocc, one_same in Hd. lia. }
  exists (<[a := nd]> g). split_and!; [|by intros; apply lookup_insert_ne|done|].
  - split.
    + apply rep_relink_ne; [intros x; specialize (Hd x); rewrite Hocc in Hd; lia|].
      eapply rep_reparent; [done|]. intros x. specialize (Hd x). rewrite Hocc in Hd. lia.
    + eapply crep_relink; [|intros x; specialize (Hd x); lia].
      apply crep_reparent_ne; [intros x; specialize (Hd x); rewrite Hocc in Hd; lia|done].
    + intros x. specialize (Hd x). rewrite Hocc in Hd. lia.
    + intros x Hx. rewrite lookup_relink_ne, lookup_reparent_ne by lia.
      destruct (decide (x = a)) as [->|Hne]; [by rewrite lookup_insert_eq|].
      rewrite lookup_insert_ne by done. apply Hs. rewrite Hocc. unfold one.
      rewrite decide_False by done. lia.
  - by rewrite lookup_relink_ne, lookup_reparent_ne by lia.
Qed.

Lemma unlink_single_spec g h k c l a u r nr :
  holds g h k (T c l a u r) → l = E ∨ r = E →
  let s := match l with E => r | _ => l end in
  wp (unlink_single (Some a) (cptr k) (root l) (root r) nr)
    (λ res h', res = (root s, cptr k, c, new_root k (root s) nr) ∧
               ∃ nd, detached g h' a nd k s) h.
Proof.
  intros Hz Hcase s. pose proof (zip_sibling_ne _ _ _ _ _ _ _ _ Hz) as Hsib.
  assert (Hs : (l = E ∧ s = r) ∨ (r = E ∧ s = l)).
  { destruct l; [by left|]. right. by destruct Hcase. }
  pose proof (splice_out _ _ _ _ _ _ _ _ _ Hz Hs) as Hdet.
  destruct Hz as [(Ha & Hl & Hr) Hk Hd _].
  assert (Hrep : rep h (Some a) s) by (by destruct Hs as [[-> ->]|[-> ->]]).
  assert (Hchild : (if negb (is_null (root l)) then root l else root r) = root s)
    by (by subst s; destruct l).
  unfold unlink_single. rewrite Hchild. wp_seq. eapply wp_get_field; [done|]. cbn [Color].
  wp_seq. eapply wp_reparent; [done|]. wp_seq. eapply wp_relink; [|done|].
  - apply crep_reparent_ne; [|done]. intros x. specialize (Hd x).
    destruct Hs as [[-> ->]|[-> ->]]; cbn in Hd; lia.
  - wp_seq. split; [done|]. by eexists.
Qed.

(** ** Linking the successor into the place of the node *)

(** The parts of the heap before the last steps: the context of node [a], its
    left subtree, the successor [b] with the rest [r'] of the right subtree. *)
Record pieces g h k c a l b us cs r' : Prop := {
  p_ctx : crep h (Some a) k;
  p_node : ∃ nd, h !! a = Some nd ∧ Color nd = c;
  p_left : rep h (Some a) l;
  p_succ : ∃ nb, h !! b = Some nb ∧ UserStruct nb = us ∧ Right nb = root r' ∧ Color nb = cs;
  p_right : rep h (Some b) r';
  p_dist : ∀ x, kocc k x + one a x + occ l x + one b x + occ r' x ≤ 1;
  p_rest : ∀ x, kocc k x + one a x + occ l x + one b x + occ r' x = 0 → h !! x = g !! x }.

Lemma pieces_ne g h k c a l b us cs r' : pieces g h k c a l b us cs r' →
  a ≠ b ∧ (∀ f k', k = f :: k' → root (f_sibling f) ≠ Some a).
Proof.
  intros [_ _ _ _ _ Hd _]. split.
  - intros ->. specialize (Hd b). rewrite one_same in Hd. lia.
  - intros f k' ->. destruct (f_sibling f) as [|c' l' a' u' r0] eqn:Es; [done|].
    intros [= ->]. specialize (Hd a). cbn in Hd. rewrite Es in Hd. cbn in Hd.
    rewrite !one_same in Hd. lia.
Qed.

Lemma link_successor_spec g h k c a l b us cs r' child par nr :
  pieces g h k c a l b us cs r' → l ≠ E →
  wp (link_successor (Some a) (cptr k) (root l) (Some b) child par nr)
    (λ res h', res = (child, par, cs, new_root k (Some b) nr) ∧
               ∃ nd, detached g h' a nd k (T c l b us r')) h.
Proof.
  intros Hp Hl0. destruct (pieces_ne _ _ _ _ _ _ _ _ _ _ Hp) as [Hab Hsib].
  destruct Hp as [Hk (nd & Ha & Hc) Hl (nb & Hb & Hus & Hright & Hcs) Hr Hd Hs].
  destruct l as [|cl ll al ul lr]; [done|]. destruct Hl as (Hal & Hll & Hlr).
  unfold link_successor. cbn [root].
  wp_access Hd. wp_access Hd. wp_access Hd. wp_access Hd. wp_access Hd. wp_access Hd.
  wp_seq. eapply wp_relink; [heap_ne Hd; done|done|]. wp_seq. split; [by rewrite Hcs|].
  subst us c. exists nd, (<[a := nd]> g). split_and!.
  - split; cbn.
    + rewrite <-Hright. split_and!; heap_ne Hd; done.
    + eapply crep_relink; [heap_ne Hd; done|occ_lia Hd].
    + occ_lia Hd.
    + intros x Hx. rewrite lookup_relink_ne by lia.
      destruct (decide (x = a)) as [->|Hxa]; [by heap_ne Hd|].
      assert (b ≠ x) by (intros ->; rewrite !one_same in Hx; lia).
      assert (al ≠ x) by (intros ->; rewrite !one_same in Hx; lia).
      rewrite !lookup_insert_ne by done. apply Hs. cbn. unfold one at 1.
      rewrite decide_False by done. lia.
  - intros x Hx. by rewrite lookup_insert_ne.
  - specialize (Hd a). cbn in *. rewrite one_same in Hd. lia.
  - heap_ne Hd. done.
Qed.

(** The walk to the leftmost node of the right subtree. *)
Lemma to_relink_spec fuel g h k c l a u r :
  holds g h k (T c l a u r) → l ≠ E → (height l ≤ fuel)%nat →
  wp (to_relink_loop fuel (Some a))
    (λ p h', h' = h ∧ ∃ kl cs b us rr,
       T c l a u r = plug kl (T cs E b us rr) ∧ kl ≠ [] ∧ p = Some b ∧
       Forall (λ f, f_side f = SL) kl) h.
Proof.
  revert k c a u r fuel. induction l as [|cl ll IHl al ul lr _]; intros k c a u r fuel Hz Hl Hf; [done|].
  destruct fuel as [|fuel]; cbn in Hf; [lia|]. cbn [to_relink_loop].
  wp_seq. eapply wp_get_field; [by eapply zip_node|]. cbn [Left root].
  apply zip_in_left in Hz. wp_seq. eapply wp_get_field; [by eapply zip_node|]. cbn [Left].
  destruct ll as [|c2 l2 a2 u2 r2].
  - cbn. wp_seq. split; [done|]. exists [F SL c a u r], cl, al, ul, lr. split_and!; try done.
    by repeat constructor.
  - change (is_null (root (T c2 l2 a2 u2 r2))) with false. cbn iota.
    eapply wp_mono; [eapply IHl; [done|done|cbn in *; lia]|].
    intros p h' [-> (kl & cs & b & us & rr & Heq & Hkl & -> & Hall)]. split; [done|].
    exists (kl ++ [F SL c a u r]), cs, b, us, rr. split_and!.
    + rewrite plug_app, <-Heq. done.
    + by destruct kl.
    + done.
    + apply Forall_app. split; [done|]. by repeat constructor.
Qed.

(** Both cases of the successor, from the state of the whole tree. *)
Lemma successor_child_pieces g h k c l a u cs b us rr :
  holds g h k (T c l a u (T cs E b us rr)) → pieces g h k c a l b us cs rr.
Proof.
  intros [(Ha & Hl & Hb & _ & Hr) Hk Hd Hs]. split; try done.
  - eexists. split; [exact Ha|done].
  - eexists. split; [exact Hb|done].
  - intros x. specialize (Hd x). cbn in Hd. lia.
  - intros x Hx. apply Hs. cbn. lia.
Qed.



(** The first half: unlinking it from the left of its parent. *)
Lemma splice_left g h f k cs b us rr (Q : option positive * option positive * option positive → rbheap U → Prop)
    (m : option positive → option positive → M (rbheap U) (option positive * option positive * option positive)) :
  holds g h (f :: k) (T cs E b us rr) → f_side f = SL →
  (∀ h', detached g h' b (RbNode us (Some (f_addr f)) None (root rr) cs) (f :: k) rr →
         wp (m (Some (f_addr f)) (root rr)) Q h') →
  wp (Parent0 ← get Parent (Some b);
      Child ← get Right (Some b);
      set_Left Parent0 Child;;
      (if negb (is_null Child) then set_Parent Child Parent0 else mret tt);;
      m Parent0 Child) Q h.
Proof.
  intros Hz Hf HQ.
  pose proof (splice_out _ _ _ _ _ _ _ _ rr Hz ltac:(by left)) as Hdet.
  assert (Hd : ∀ x, kocc (f :: k) x + occ rr x ≤ 1).
  { intros x. pose proof (zip_dist _ _ _ _ Hz x) as Hd. cbn in *. lia. }
  destruct (zip_rep _ _ _ _ Hz) as (Hb & _ & Hrr).
  wp_seq. eapply wp_get_field; [done|]. cbn [Parent cptr].
  wp_seq. eapply wp_get_field; [done|]. cbn [Right].
  wp_seq. eapply (wp_link_child _ _ f k (root rr) _ true); [by apply (zip_parent _ _ _ _ _ Hz)|done|].
  wp_seq. eapply wp_reparent.
  { apply rep_relink_ne; [exact Hd|exact Hrr]. }
  apply HQ. by rewrite reparent_relink_comm.
Qed.

Lemma splice_successor_spec g h k c a l u f kl cs b us rr :
  let r := plug (f :: kl) (T cs E b us rr) in
  holds g h k (T c l a u r) → f_side f = SL →
  wp (splice_successor (Some b) (root r))
    (λ res h', res = (Some b, cptr (f :: kl), root rr) ∧
               pieces g h' k c a l b us cs (plug (f :: kl) rr)) h.
Proof.
  intros r Hz Hf. apply zip_in_right in Hz. apply <- (zip_plug g) in Hz.
  assert (Hroot : root r = root (plug (f :: kl) rr)) by (by apply root_plug_indep).
  unfold splice_successor. eapply splice_left; [exact Hz|done|].
  intros h1 (g1 & Hz1 & Hg1 & Hb0 & Hb).
  change (holds g1 h1 ((f :: kl) ++ F SR c a u l :: k) rr) in Hz1.
  change (kocc ((f :: kl) ++ F SR c a u l :: k) b + occ rr b = 0) in Hb0.
  rewrite <-occ_plug, plug_app, occ_plug in Hb0. cbn [kocc f_addr f_sibling] in Hb0.
  apply -> (zip_plug g1) in Hz1. apply zip_out_right in Hz1. rewrite Hroot.
  set (r' := plug (f :: kl) rr) in *. destruct Hz1 as [(Ha & Hl & Hr') Hk Hd Hs].
  assert (Hd2 : ∀ x, kocc k x + one a x + occ l x + one b x + occ r' x ≤ 1).
  { intros x. specialize (Hd x). cbn [occ] in Hd. destruct (decide (b = x)) as [<-|Hbx].
    - rewrite one_same. lia.
    - rewrite (one_ne b x Hbx). lia. }
  assert (Hr0 : root r' ≠ None) by (by apply plug_root). clearbody r'.
  destruct r' as [|cr lr ar ur rr']; [done|]. destruct Hr' as (Har & Hlr & Hrr). cbn [root].
  wp_access Hd2. wp_access Hd2. wp_seq. split; [done|]. split; cbn [rep root].
  - heap_ne Hd2. done.
  - heap_ne Hd2. by eexists.
  - heap_ne Hd2. done.
  - heap_ne Hd2. by eexists.
  - split_and!; heap_ne Hd2; done.
  - done.
  - intros x Hx. assert (b ≠ x) by (intros ->; rewrite one_same in Hx; lia).
    assert (ar ≠ x) by (intros ->; cbn in Hx; rewrite one_same in Hx; lia).
    rewrite !lookup_insert_ne by done. rewrite Hs, Hg1; [done..|]. cbn in *. lia.
Qed.

(** Replacing a node by its successor: the successor's right subtree [rr] is what
    is left at the end of the path [kl]. *)
Lemma unlink_successor_spec fuel g h k c l a u r nr :
  holds g h k (T c l a u r) → l ≠ E → r ≠ E → (height r < fuel)%nat →
  wp (unlink_successor fuel (Some a) (cptr k) (root l) (root r) nr)
    (λ res h', ∃ kl cs b us rr nd,
       r = plug kl (T cs E b us rr) ∧ Forall (λ f, f_side f = SL) kl ∧
       res = (root rr, cptr (kl ++ F SR c b us l :: k), cs, new_root k (Some b) nr) ∧
       detached g h' a nd (kl ++ F SR c b us l :: k) rr) h.
Proof.
  intros Hz Hl Hr Hf. destruct r as [|cr rl b0 u0 rr0]; [done|]. cbn in Hf.
  unfold unlink_successor. assert (Hzr := Hz). apply zip_in_right in Hzr.
  wp_seq. eapply wp_get_field; [by eapply zip_node|]. cbn [Left].
  destruct rl as [|c1 l1 a1 u1 r1].
  - change (is_null (root E)) with true. cbn iota. wp_seq.
    eapply wp_get_field; [by eapply zip_node|]. cbn [Right].
    apply wp_ret. cbn beta iota. apply successor_child_pieces in Hz.
    eapply wp_mono; [by eapply link_successor_spec|]. intros res h1 [-> (nd & Hdet)].
    exists [], cr, b0, u0, rr0, nd. split_and!; try done.
    destruct Hdet as (g1 & Hz1 & Hg1 & Ho & Hnd). exists g1. split_and!; try done.
    + by apply zip_in_right in Hz1.
    + cbn in *. lia.
  - change (is_null (root (T c1 l1 a1 u1 r1))) with false. cbn iota.
    apply wp_bind, wp_bind. eapply wp_mono; [eapply to_relink_spec; [exact Hzr|done|cbn in *; lia]|].
    intros p h1 [-> (kl & cs & b & us & rr & Heq & Hkl & -> & Hall)].
    destruct kl as [|f kl]; [done|]. rewrite Heq in Hz |- *.
    eapply wp_mono; [eapply (splice_successor_spec _ _ _ _ _ _ _ f kl); [exact Hz|]|].
    { by apply Forall_cons in Hall as [? _]. }
    intros res h2 [-> Hp]. cbn beta iota.
    eapply wp_mono; [by eapply link_successor_spec|]. intros res h3 [-> (nd & Hdet)].
    exists (f :: kl), cs, b, us, rr, nd. split_and!; try done.
    destruct Hdet as (g1 & Hz1 & Hg1 & Ho & Hnd). exists g1. split_and!; try done.
    + apply zip_in_right in Hz1. by apply <- (zip_plug g1) in Hz1.
    + rewrite <-occ_plug, plug_app, occ_plug in *. cbn [kocc occ f_addr f_sibling] in *. lia.
Qed.

(** ** Both ways of unlinking *)

Lemma ctx_rb_rename kl d c a a' u u' s k n :
  ctx_rb (kl ++ F d c a u s :: k) n → ctx_rb (kl ++ F d c a' u' s :: k) n.
Proof.
  revert n. induction kl as [|f kl IH]; cbn; intros n Hk.
  - inversion Hk; subst; by econstructor.
  - inversion Hk as [|? ? ? ? ? ? Hs Hk' Hne Hh|]; subst; econstructor; eauto.
    + by destruct kl.
    + by destruct kl.
Qed.

Lemma before_left kl k : Forall (λ f, f_side f = SL) kl → before (kl ++ k) = before k.
Proof. induction 1 as [|f kl Hf _ IH]; cbn; [done|]. by rewrite Hf. Qed.

(** What unlinking leaves: the tree [plug k s] without node [a], which lacks one
    black level at [s] when the unlinked color is black. *)
Definition unlinked g a es (res : option positive * option positive * RED_BLACK_TREE_COLOR * option positive) h : Prop :=
  ∃ k s cu n cs nd,
    res = (root s, cptr k, cu, root (plug k s)) ∧ detached g h a nd k s ∧ is_rb s cs n ∧
    match cu with
    | RedBlackTreeRed => ctx_rb k n ∧ cs = RedBlackTreeBlack
    | RedBlackTreeBlack => ctx_rb k (S n)
    end ∧
    entries (plug k s) = es.

Lemma is_rb_unlink c l a u r n cl nl k s :
  is_rb (T c l a u r) c n → ctx_rb k n → is_rb l cl nl → l = E ∧ s = r ∨ r = E ∧ s = l →
  ∃ m cs, is_rb s cs m ∧
    match c with
    | RedBlackTreeRed => ctx_rb k m ∧ cs = RedBlackTreeBlack
    | RedBlackTreeBlack => ctx_rb k (S m)
    end.
Proof.
  intros Ht Hk _ Hcase. inversion Ht; subst; destruct Hcase as [[-> ->]|[-> ->]]; eauto 10.
Qed.

Lemma unlink_single_case g h k c l a u r :
  holds g h k (T c l a u r) → rb_valid (plug k (T c l a u r)) → l = E ∨ r = E →
  wp (unlink_single (Some a) (cptr k) (root l) (root r) (root (plug k (T c l a u r))))
    (unlinked g a (before k ++ entries l ++ entries r ++ after k)) h.
Proof.
  intros Hz Hv Hcase. eapply wp_mono; [by eapply unlink_single_spec|].
  intros res h1 [-> (nd & Hdet)]. set (s := match l with E => r | _ => l end) in *.
  assert (Hs : l = E ∧ s = r ∨ r = E ∧ s = l).
  { destruct l; [by left|]. right. by destruct Hcase. }
  destruct (plug_rb_inv _ _ Hv) as (c' & n & Hrb & Hctx & _).
  assert (c' = c) as -> by (apply is_rb_color in Hrb; done).
  assert (∃ cl nl, is_rb l cl nl) as (cl & nl & Hl) by (inversion Hrb; eauto).
  destruct (is_rb_unlink _ _ _ _ _ _ _ _ _ _ Hrb Hctx Hl Hs) as (m & cs & Hrs & Hm).
  exists k, s, c, m, cs, nd. split_and!; try done.
  - by rewrite new_root_plug.
  - rewrite plug_entries. destruct Hs as [[-> ->]|[-> ->]]; cbn; by rewrite ?app_nil_r.
Qed.

Lemma unlink_successor_case fuel g h k c l a u r :
  holds g h k (T c l a u r) → rb_valid (plug k (T c l a u r)) → l ≠ E → r ≠ E →
  (height r < fuel)%nat →
  wp (unlink_successor fuel (Some a) (cptr k) (root l) (root r) (root (plug k (T c l a u r))))
    (unlinked g a (before k ++ entries l ++ entries r ++ after k)) h.
Proof.
  intros Hz Hv Hl Hr Hf. eapply wp_mono; [by eapply unlink_successor_spec|].
  intros res h1 (kl & cs & b & us & rr & nd & -> & Hall & -> & Hdet).
  assert (Heq : plug k (T c l a u (plug kl (T cs E b us rr))) =
                plug (kl ++ F SR c a u l :: k) (T cs E b us rr)) by (by rewrite plug_app).
  rewrite Heq in Hv. destruct (plug_rb_inv _ _ Hv) as (c' & n & Hrb & Hctx & _).
  assert (c' = cs) as -> by (apply is_rb_color in Hrb; done).
  apply (ctx_rb_rename _ _ _ _ b _ us) in Hctx.
  destruct (is_rb_unlink _ _ _ _ _ _ RedBlackTreeBlack 0 _ rr Hrb Hctx) as (m & cr & Hrs & Hm);
    [constructor|by left|].
  exists (kl ++ F SR c b us l :: k), rr, cs, m, cr, nd. split_and!; try done.
  - f_equal. rewrite plug_app. cbn [plug close f_side f_color f_addr f_us f_sibling].
    apply (new_root_plug k _ (T c l b us (plug kl rr))).
  - rewrite plug_app. cbn [plug close f_side f_color f_addr f_us f_sibling].
    rewrite !plug_entries. cbn [entries]. rewrite !plug_entries.
    replace (before kl) with (@nil (positive * U)); [by simplify_list_eq|].
    pose proof (before_left kl [] Hall) as Hb. by rewrite app_nil_r in Hb.
Qed.

(** The rest of the function after unlinking. *)
Lemma delete_rest g h a es res fuel :
  unlinked g a es res h → (length es < fuel)%nat →
  let '(Child, Parent0, ColorOfUnlinked, NewRoot) := res in
  wp (FreePool (Some a);;
      (if is_black ColorOfUnlinked then
         '(Child, NewRoot) ← delete_fixup fuel Child Parent0 NewRoot;
         (if negb (is_null Child) then set_Color Child RedBlackTreeBlack else mret tt);;
         mret NewRoot
       else mret NewRoot))
    (λ nr h', ∃ t', holds (delete a g) h' [] t' ∧ nr = root t' ∧ rb_valid t' ∧ entries t' = es) h.
Proof.
  intros (k & s & cu & n & cs & nd & -> & Hdet & Hrb & Hk & <-) Hf.
  assert (Hlen : (length k < fuel)%nat).
  { pose proof (context_entries k s). lia. }
  wp_seq. eapply wp_FreePool; [done|]. intros h1 Hz. destruct cu.
  - change (is_black RedBlackTreeRed) with false. cbn iota. wp_seq.
    destruct Hk as [Hk ->]. exists (plug k s). split_and!; try done; [by apply -> (zip_root (delete a g))|].
    by eapply plug_rb.
  - change (is_black RedBlackTreeBlack) with true. cbn iota. wp_seq.
    eapply wp_mono; [eapply delete_fixup_spec; [done|by eapply is_rb_lacking|done|done|lia|by right]|].
    intros res h2 (k' & t & -> & Hz2 & Hv & Hent). cbn beta iota.
    assert (Hfin : ∀ h3, holds (delete a g) h3 k' (blacken t) →
      ∃ t', holds (delete a g) h3 [] t' ∧ root (plug k' t) = root t' ∧ rb_valid t' ∧
            entries t' = entries (plug k s)).
    { intros h3 Hz3. exists (plug k' (blacken t)). split_and!; [by apply -> (zip_root (delete a g))| |done|].
      - apply root_plug_same. by rewrite root_blacken.
      - rewrite <-Hent. apply entries_plug_eq. by rewrite entries_blacken. }
    destruct t as [|c l b u r]; wp_seq.
    + by apply Hfin.
    + eapply set_color_spec; [done|]. intros h3 Hz3. wp_seq. by apply Hfin.
Qed.

Lemma delete_spec `{ValidatePcd} (Tree : RED_BLACK_TREE U K) `{!UserOrder (UserStructCompare Tree)}
    UserStructOut g h t es1 a u es2 :
  holds g h [] t → Root Tree = root t → rb_valid t →
  ascending (UserStructCompare Tree) (entries t) → entries t = es1 ++ (a, u) :: es2 →
  wp (OrderedCollectionDelete Tree (Some a) UserStructOut)
    (λ res h', ∃ t', res = (set_Root Tree (root t'), (λ _, u) <$> UserStructOut) ∧
       holds (delete a g) h' [] t' ∧ rb_valid t' ∧ entries t' = es1 ++ es2 ∧
       ascending (UserStructCompare Tree) (entries t')) h.
Proof.
  intros Hz Hroot Hv Hasc He.
  destruct (holds_focus _ _ _ _ _ _ _ Hz He) as (k & c & l & r & -> & Hzk & -> & ->).
  pose proof (zip_fuel _ _ _ _ Hzk) as Hfuel. cbn in Hfuel.
  rewrite He in Hasc. apply StronglySorted_remove in Hasc.
  rewrite <-app_assoc in *.
  unfold OrderedCollectionDelete. wp_seq. apply wp_loop_fuel. intros fuel Hf.
  do 4 (wp_seq; eapply wp_get_field; [by eapply zip_node|]; cbn [Left Right Parent UserStruct]).
  rewrite Hroot. apply wp_bind.
  eapply (wp_mono _ (unlinked g a (before k ++ entries l ++ entries r ++ after k))).
  { destruct l as [|cl ll al ul lr] eqn:El; [by eapply unlink_single_case; try left|].
    destruct r as [|cr rl ar ur rr] eqn:Er; [by eapply unlink_single_case; try right|].
    eapply unlink_successor_case; try done. cbn in *. lia. }
  intros [[[Child Parent0] cu] nr] h1 Hun.
  apply (delete_rest _ _ _ _ _ fuel) in Hun.
  2:{ apply zip_entries_size in Hz. rewrite He in Hz. rewrite !length_app in *. cbn in Hz.
      rewrite !length_app in Hz. lia. }
  apply wp_bind_bind. eapply wp_mono; [exact Hun|].
  intros nr' h2 (t' & Hz2 & -> & Hv2 & He2). rewrite <-He2 in Hasc.
  wp_seq. eapply (wp_validate _ (set_Root Tree (root t'))); try done. wp_seq.
  by exists t'.
Qed.

End unlink.
