(* ===== verification/OrderedCollection.v ===== *)
(** * The ordered collection as a client sees it

    [collection h Tree es]: on heap [h], [Tree] is a valid red-black tree whose
    nodes and user structures, in ascending order, are [es].  The theorems state
    every function of OrderedCollectionLib against that list: the tree, its
    colors and its rotations no longer appear. *)
From S2P Require Import Prelude CBase RbDefs RbTree RbHeap RbWalk RbInsert RbValidate.
From S2P Require Import RbInsertOp RbDelete.
Local Open Scope Z_scope.

Section collection.
Context {U K : Type}.
Implicit Types (t : rbt U) (a : positive) (u us : U) (h : rbheap U)
  (es : list (positive * U)) (Tree : RED_BLACK_TREE U K).

Definition collection h Tree es : Prop :=
  ∃ t, holds h h [] t ∧ Root Tree = root t ∧ rb_valid t ∧ entries t = es ∧
       ascending (UserStructCompare Tree) es.

(** No entry compares equal under [f]. *)
Definition absent (f : U → Z) es : Prop := ∀ e, e ∈ es → f e.2 ≠ 0.

(** ** The representation *)

Lemma holds_self g h t : holds g h [] t → holds h h [] t.
Proof. intros [Hr Hc Hd _]. by split. Qed.

Lemma holds_frame g h t x : holds g h [] t → x ∉ (entries t).*1 → h !! x = g !! x.
Proof.
  intros Hz Hx. apply (zip_rest _ _ _ _ Hz). cbn. rewrite occ_entries in Hx.
  destruct (occ t x) eqn:Ho; [done|]. by destruct Hx.
Qed.

Lemma collection_intro h Tree t n :
  rep h None t → NoDup (entries t).*1 → is_rb t RedBlackTreeBlack n → Root Tree = root t →
  ascending (UserStructCompare Tree) (entries t) → collection h Tree (entries t).
Proof.
  intros Hr Hnd Hrb Hroot Hasc. exists t. split_and!; try done; [|by exists n].
  split; try done. intros x. cbn. revert Hnd. clear. induction t as [|c l IHl a u r IHr]; cbn; [lia|].
  rewrite fmap_app, fmap_cons, NoDup_app, NoDup_cons. cbn.
  intros (Hl & Hd & Ha & Hr). specialize (IHl Hl). specialize (IHr Hr).
  assert (Hin : ∀ s : rbt U, x ∉ (entries s).*1 → occ s x = 0%nat).
  { intros s Hs. rewrite occ_entries in Hs. destruct (occ s x); [done|]. by destruct Hs. }
  unfold one. case_decide as Hax.
  - subst x. rewrite (Hin r) by done. rewrite (Hin l); [lia|].
    intros Hal. apply (Hd _ Hal). by left.
  - destruct (decide (x ∈ (entries l).*1)) as [Hxl|Hxl].
    + rewrite (Hin r); [lia|]. intros Hxr. apply (Hd _ Hxl). by right.
    + rewrite (Hin l) by done. lia.
Qed.

Lemma find_entry_spec (f : U → Z) es : monotone f es →
  match find_entry f es with
  | Some a => ∃ u, (a, u) ∈ es ∧ f u = 0
  | None => absent f es
  end.
Proof.
  intros _. unfold find_entry, absent.
  destruct (filter (λ e, f e.2 = 0) es) as [|[a u] es'] eqn:Hf; cbn.
  - intros e He Hz. assert (Hin : e ∈ filter (λ e, f e.2 = 0) es) by (by apply list_elem_of_filter).
    rewrite Hf in Hin. by apply elem_of_nil in Hin.
  - assert (Hin : (a, u) ∈ filter (λ e, f e.2 = 0) es) by (rewrite Hf; by left).
    apply list_elem_of_filter in Hin as [? ?]. eauto.
Qed.

Lemma find_entry_absent (f : U → Z) es : find_entry f es = None → absent f es.
Proof.
  unfold find_entry, absent. intros Hf e He Hz.
  assert (Hin : e ∈ filter (λ e, f e.2 = 0) es) by (by apply list_elem_of_filter).
  destruct (filter _ _); [by apply elem_of_nil in Hin|done].
Qed.

Lemma set_Root_compare Tree r :
  UserStructCompare (set_Root Tree r) = UserStructCompare Tree ∧
  KeyCompare (set_Root Tree r) = KeyCompare Tree.
Proof. done. Qed.

(** ** Height *)

Lemma is_rb_height t c n : is_rb t c n →
  (height t ≤ 2 * n + match c with RedBlackTreeRed => 1 | RedBlackTreeBlack => 0 end)%nat ∧
  (2 ^ n ≤ length (entries t) + 1)%nat.
Proof.
  induction 1 as [|l a u r n _ [IHl IHl2] _ [IHr IHr2]|l a u r n c1 c2 _ [IHl IHl2] _ [IHr IHr2]];
    cbn -[Nat.mul Nat.pow]; rewrite ?length_app; cbn -[Nat.mul Nat.pow].
  - split; [lia|]. cbn. lia.
  - lia.
  - rewrite Nat.pow_succ_r'. destruct c1, c2; lia.
Qed.

Lemma rb_valid_height t : rb_valid t →
  (height t ≤ 2 * Nat.log2 (length (entries t) + 1))%nat.
Proof.
  intros [n [Hh Hn]%is_rb_height]. apply Nat.log2_le_mono in Hn. rewrite Nat.log2_pow2 in Hn; lia.
Qed.

End collection.

Section operations.
Context {U K : Type} `{HV : ValidatePcd}.
Implicit Types (t : rbt U) (a : positive) (u us : U) (h : rbheap U)
  (es : list (positive * U)) (Tree : RED_BLACK_TREE U K).

(** C1: OrderedCollectionInsert, on any valid collection and with validation
    enabled or not, runs to completion (no NULL dereference, no failed ASSERT,
    every loop ends) and does what its header promises.  A colliding node is
    reported with RETURN_ALREADY_STARTED and nothing changes; when AllocatePool
    fails nothing changes either; otherwise the fresh node is linked at its place
    in the ascending order, the result is again a valid red-black tree in which
    every old node still holds its user structure, and no other memory changes. *)
Theorem insert_correct `{PoolAllocator U} Tree `{!UserOrder (UserStructCompare Tree)}
    (NodeOut : option (option positive)) us h es :
  collection h Tree es →
  ∃ Status Tree' Out h',
    OrderedCollectionInsert Tree NodeOut us h = Some ((Status, Tree', Out), h') ∧
    UserStructCompare Tree' = UserStructCompare Tree ∧ KeyCompare Tree' = KeyCompare Tree ∧
    ((Status = RETURN_ALREADY_STARTED ∧ Tree' = Tree ∧ h' = h ∧
      ∃ a u, (a, u) ∈ es ∧ UserStructCompare Tree us u = 0 ∧ Out = out_ptr NodeOut (Some a)) ∨
     (absent (UserStructCompare Tree us) es ∧ AllocatePool h = None ∧
      Status = RETURN_OUT_OF_RESOURCES ∧ Tree' = Tree ∧ h' = h ∧ Out = NodeOut) ∨
     (absent (UserStructCompare Tree us) es ∧ Status = RETURN_SUCCESS ∧
      ∃ a garbage es1 es2, AllocatePool h = Some (a, garbage) ∧ Out = out_ptr NodeOut (Some a) ∧
        es = es1 ++ es2 ∧ collection h' Tree' (es1 ++ (a, us) :: es2) ∧
        ∀ x, x ∉ (es1 ++ (a, us) :: es2).*1 → h' !! x = h !! x)).
Proof.
  intros (t & Hz & Hroot & Hv & <- & Hasc).
  destruct (proj1 (wp_Some _ _ _) (insert_spec Tree NodeOut us h h t Hz Hroot Hv Hasc))
    as ([[Status Tree'] Out] & h' & Hrun & Hres).
  exists Status, Tree', Out, h'. split; [exact Hrun|].
  inversion Hres; subst; (split; [done|]); (split; [done|]).
  - left. eauto 10.
  - right. left. split_and!; try done. by apply find_entry_absent.
  - right. right. split_and!; [by apply find_entry_absent|done|].
    eexists a, garbage, es1, es2. split_and!; try done.
    + match goal with He : entries t' = _ |- _ => rewrite <-He end.
      exists t'. split_and!; try done. by eapply holds_self.
    + intros x Hx. eapply holds_frame; [done|].
      by match goal with He : entries t' = _ |- _ => rewrite He end.
Qed.

(** C2: OrderedCollectionDelete of any node of a valid collection runs to
    completion, hands the user structure of that node to the caller who asked for
    it, removes that entry and no other, keeps the order and the red-black
    properties, frees the node, and changes no memory outside the collection. *)
Theorem delete_correct Tree `{!UserOrder (UserStructCompare Tree)} (UserStructOut : option U) h es1 a u es2 :
  collection h Tree (es1 ++ (a, u) :: es2) →
  ∃ Tree' h',
    OrderedCollectionDelete Tree (Some a) UserStructOut h =
      Some ((Tree', (λ _, u) <$> UserStructOut), h') ∧
    UserStructCompare Tree' = UserStructCompare Tree ∧ KeyCompare Tree' = KeyCompare Tree ∧
    collection h' Tree' (es1 ++ es2) ∧ h' !! a = None ∧
    (∀ x, x ∉ (es1 ++ (a, u) :: es2).*1 → h' !! x = h !! x).
Proof.
  intros (t & Hz & Hroot & Hv & He & Hasc).
  assert (Hasc' := Hasc). rewrite <-He in Hasc.
  destruct (proj1 (wp_Some _ _ _) (delete_spec Tree UserStructOut h h t es1 a u es2 Hz Hroot Hv Hasc He))
    as (res & h' & Hrun & t' & -> & Hz' & Hv' & He' & Hasc2).
  assert (Ha : a ∉ (es1 ++ es2).*1).
  { pose proof (holds_NoDup _ _ _ _ Hz) as Hnd. cbn in Hnd. rewrite He in Hnd.
    rewrite fmap_app, fmap_cons in Hnd. rewrite fmap_app, elem_of_app.
    apply NoDup_app in Hnd as (_ & Hd & [Hn _]%NoDup_cons).
    intros [Hin|Hin]; [|done]. apply (Hd _ Hin). by left. }
  eexists _, h'. split; [exact Hrun|]. split_and!; try done.
  - exists t'. rewrite <-He'. split_and!; try done. by eapply holds_self.
  - rewrite (holds_frame _ _ _ a Hz'); [apply lookup_delete_eq|]. by rewrite He'.
  - intros x Hx. rewrite fmap_app, fmap_cons, elem_of_app, elem_of_cons in Hx.
    rewrite (holds_frame _ _ _ x Hz').
    + apply lookup_delete_ne. cbn in Hx. intros ->. apply Hx. by right; left.
    + rewrite He', fmap_app, elem_of_app. tauto.
Qed.

(** C14: OrderedCollectionFind, for a key comparator consistent with the order,
    returns a node whose user structure matches the key if there is one and NULL
    otherwise, and writes nothing. *)
Theorem find_correct Tree key `{!KeyOrder (UserStructCompare Tree) (KeyCompare Tree)} h es :
  collection h Tree es →
  ∃ p, OrderedCollectionFind Tree key h = Some (p, h) ∧
    match p with
    | Some a => ∃ u, (a, u) ∈ es ∧ KeyCompare Tree key u = 0
    | None => absent (KeyCompare Tree key) es
    end.
Proof.
  intros (t & Hz & Hroot & Hv & <- & Hasc).
  assert (Hm : monotone (KeyCompare Tree key) (entries t)) by (by eapply ascending_key_monotone).
  exists (find_entry (KeyCompare Tree key) (entries t)). split; [|by apply find_entry_spec].
  apply wp_run. pose proof (zip_fuel _ _ _ _ Hz) as Hfuel. cbn in Hfuel.
  unfold OrderedCollectionFind. wp_seq. apply wp_loop_fuel. intros fuel Hf. rewrite Hroot.
  eapply find_loop_spec; [done|lia|done].
Qed.

(** The search of OrderedCollectionFind inspects at most 2 log2 (n + 1) + 1
    pointers of a collection of n entries: with that much fuel its loop already
    ends, with the same answer. *)
Theorem find_logarithmic Tree key `{!KeyOrder (UserStructCompare Tree) (KeyCompare Tree)} h es fuel :
  collection h Tree es → (2 * Nat.log2 (length es + 1) < fuel)%nat →
  find_loop fuel Tree key (Root Tree) h = OrderedCollectionFind Tree key h ∧
  is_Some (OrderedCollectionFind Tree key h).
Proof.
  intros (t & Hz & Hroot & Hv & <- & Hasc) Hlog.
  assert (Hm : monotone (KeyCompare Tree key) (entries t)) by (by eapply ascending_key_monotone).
  assert (Hrun : ∀ n, (height t < n)%nat → find_loop n Tree key (Root Tree) h =
    Some (find_entry (KeyCompare Tree key) (entries t), h)).
  { intros n Hn. rewrite Hroot. apply wp_run. by eapply find_loop_spec. }
  apply rb_valid_height in Hv. pose proof (zip_fuel _ _ _ _ Hz) as Hfuel. cbn in Hfuel.
  unfold OrderedCollectionFind. rewrite (bind_run _ _ _ (S (size h)) h) by done.
  rewrite !Hrun by lia. by split.
Qed.

(** C30: OrderedCollectionMin, Max, Next and Prev walk the ascending list: the
    first and last entry, and from any entry its two neighbours, with NULL past
    the ends; none of them writes memory. *)
Theorem traversal_correct Tree h es :
  collection h Tree es →
  OrderedCollectionMin Tree h = Some (fst <$> head es, h) ∧
  OrderedCollectionMax Tree h = Some (fst <$> last es, h) ∧
  OrderedCollectionNext NULL h = Some (NULL, h) ∧
  OrderedCollectionPrev NULL h = Some (NULL, h) ∧
  ∀ es1 a u es2, es = es1 ++ (a, u) :: es2 →
    OrderedCollectionUserStruct (Some a) h = Some (u, h) ∧
    OrderedCollectionNext (Some a) h = Some (fst <$> head es2, h) ∧
    OrderedCollectionPrev (Some a) h = Some (fst <$> last es1, h).
Proof.
  intros (t & Hz & Hroot & Hv & <- & Hasc). split_and!; try done.
  - by eapply min_run.
  - by eapply max_run.
  - intros es1 a u es2 He. split_and!.
    + by eapply user_struct_at.
    + by eapply next_at.
    + by eapply prev_at.
Qed.

(** C17: RedBlackTreeValidate accepts exactly the valid collections.  For every
    tree-shaped heap with fewer than 2^32 - 1 nodes (the check counts in UINT32),
    it completes if and only if the red-black properties hold and the entries
    ascend, and it never writes memory. *)
Theorem validate_iff Tree `{!UserOrder (UserStructCompare Tree)} h t :
  holds h h [] t → Root Tree = root t → Z.of_nat (size h) < 2^32 - 1 →
  (RedBlackTreeValidate Tree h = Some (tt, h) ↔ collection h Tree (entries t)) ∧
  (RedBlackTreeValidate Tree h = None ↔ ¬ collection h Tree (entries t)).
Proof.
  intros Hz Hroot Hsize.
  assert (Hcol : collection h Tree (entries t) → RedBlackTreeValidate Tree h = Some (tt, h)).
  { intros (t2 & Hz2 & Hroot2 & Hv2 & He2 & Hasc). rewrite <-He2 in Hasc. by eapply validate_accepts. }
  assert (Hval : is_Some (RedBlackTreeValidate Tree h) → collection h Tree (entries t)).
  { intros Hs. destruct (validate_sound Tree h h t) as [Hv Hasc]; [done..|].
    exists t. by split_and!. }
  destruct (RedBlackTreeValidate Tree h) as [[[] h']|]; naive_solver.
Qed.

(** An initialised collection is empty, an empty collection is the one
    OrderedCollectionIsEmpty recognises, and OrderedCollectionUninit accepts
    exactly that one (its ASSERT fails on any other). *)
Theorem init_empty_uninit ucmp kcmp `{!UserOrder ucmp} h Tree es :
  collection h Tree es →
  OrderedCollectionInit false ucmp kcmp h = Some (None, h) ∧
  (∃ Tree0, OrderedCollectionInit true ucmp kcmp h = Some (Some Tree0, h) ∧
     UserStructCompare Tree0 = ucmp ∧ KeyCompare Tree0 = kcmp ∧ collection h Tree0 []) ∧
  (OrderedCollectionIsEmpty Tree = true ↔ es = []) ∧
  OrderedCollectionUninit Tree h = (if OrderedCollectionIsEmpty Tree then Some (tt, h) else None).
Proof.
  intros (t & Hz & Hroot & Hv & <- & Hasc). split_and!.
  - done.
  - exists (RbTree None ucmp kcmp).
    assert (Hc : collection h (RbTree None ucmp kcmp) []).
    { apply (collection_intro h (RbTree None ucmp kcmp) E 0); try done; constructor. }
    assert (Hrun : validate_if_enabled (RbTree None ucmp kcmp) h = Some (tt, h)).
    { apply wp_run. destruct Hc as (t0 & Hz0 & Hr0 & Hv0 & He0 & Ha0). rewrite <-He0 in Ha0.
      by eapply (wp_validate _ (RbTree None ucmp kcmp)). }
    unfold OrderedCollectionInit. rewrite (bind_run _ _ _ _ _ Hrun). by split_and!.
  - unfold OrderedCollectionIsEmpty, is_null. rewrite Hroot, bool_decide_eq_true.
    destruct t as [|c l a u r]; cbn; [done|]. split; [done|]. by destruct (entries l).
  - unfold OrderedCollectionUninit. by destruct (OrderedCollectionIsEmpty Tree).
Qed.

End operations.

(** ** Clients

    A client that inserts, and deletes what it has looked up or the minimum. *)
Section client.
Context {U K : Type} `{HA : PoolAllocator U} `{HV : ValidatePcd}.
Implicit Types (h : rbheap U) (Tree : RED_BLACK_TREE U K) (es : list (positive * U)).

Inductive client_step : rbheap U * RED_BLACK_TREE U K → rbheap U * RED_BLACK_TREE U K → Prop :=
  | client_insert h Tree NodeOut us Status Tree' Out h' :
      OrderedCollectionInsert Tree NodeOut us h = Some ((Status, Tree', Out), h') →
      client_step (h, Tree) (h', Tree')
  | client_delete_found h Tree key a UserStructOut Tree' Out h' :
      OrderedCollectionFind Tree key h = Some (Some a, h) →
      OrderedCollectionDelete Tree (Some a) UserStructOut h = Some ((Tree', Out), h') →
      client_step (h, Tree) (h', Tree')
  | client_delete_min h Tree a UserStructOut Tree' Out h' :
      OrderedCollectionMin Tree h = Some (Some a, h) →
      OrderedCollectionDelete Tree (Some a) UserStructOut h = Some ((Tree', Out), h') →
      client_step (h, Tree) (h', Tree').

(** The invariant of such a client, with the comparators it started with. *)
Definition client_inv (ucmp : U → U → Z) (kcmp : K → U → Z)
    (s : rbheap U * RED_BLACK_TREE U K) : Prop :=
  UserStructCompare s.2 = ucmp ∧ KeyCompare s.2 = kcmp ∧ ∃ es, collection s.1 s.2 es.

Lemma delete_keeps ucmp kcmp `{!UserOrder ucmp} h Tree a UserStructOut Tree' Out h' es u :
  UserStructCompare Tree = ucmp → KeyCompare Tree = kcmp → collection h Tree es → (a, u) ∈ es →
  OrderedCollectionDelete Tree (Some a) UserStructOut h = Some ((Tree', Out), h') →
  client_inv ucmp kcmp (h', Tree').
Proof.
  intros <- <- (t & Hz & Hroot & Hv & He & Hasc) (es1 & es2 & ->)%list_elem_of_split Hrun.
  rewrite <-He in Hasc.
  destruct (proj1 (wp_Some _ _ _) (delete_spec Tree UserStructOut h h t es1 a u es2 Hz Hroot Hv Hasc He))
    as (res & h2 & Hrun2 & t' & -> & Hz' & Hv' & He' & Hasc2).
  rewrite Hrun in Hrun2. simplify_eq. split_and!; [done..|]. exists (entries t').
  exists t'. split_and!; try done. by eapply holds_self.
Qed.

Lemma client_step_inv ucmp kcmp `{!UserOrder ucmp} `{!KeyOrder ucmp kcmp} s s' :
  client_step s s' → client_inv ucmp kcmp s → client_inv ucmp kcmp s'.
Proof.
  intros [h Tree NodeOut us Status Tree' Out h' Hrun
    |h Tree key a o Tree' Out h' Hf Hrun|h Tree a o Tree' Out h' Hf Hrun]
    (Hu & Hk & es & Hc); cbn in *.
  - destruct Hc as (t & Hz & Hroot & Hv & <- & Hasc). subst.
    destruct (proj1 (wp_Some _ _ _) (insert_spec Tree NodeOut us h h t Hz Hroot Hv Hasc))
      as (res & h2 & Hrun2 & Hres).
    rewrite Hrun in Hrun2. simplify_eq. inversion Hres; subst; (split_and!; [done..|]).
    1,2: exists (entries t), t; by split_and!.
    exists (entries t'), t'. split_and!; try done. by eapply holds_self.
  - destruct Hc as (t & Hz & Hroot & Hv & <- & Hasc). subst.
    assert (Hm : monotone (KeyCompare Tree key) (entries t)) by (by eapply ascending_key_monotone).
    assert (Hfind : OrderedCollectionFind Tree key h =
      Some (find_entry (KeyCompare Tree key) (entries t), h)).
    { apply wp_run. pose proof (zip_fuel _ _ _ _ Hz) as Hfuel. cbn in Hfuel.
      unfold OrderedCollectionFind. wp_seq. apply wp_loop_fuel. intros fuel Hf0. rewrite Hroot.
      eapply find_loop_spec; [done|lia|done]. }
    rewrite Hf in Hfind. injection Hfind as Hfind.
    pose proof (find_entry_spec _ _ Hm) as Hin. rewrite <-Hfind in Hin.
    destruct Hin as (u & Hin & _). eapply (delete_keeps (UserStructCompare Tree)); try done.
    exists t. by split_and!.
  - assert (Hc' := Hc). destruct Hc as (t & Hz & Hroot & Hv & <- & Hasc).
    rewrite (min_run _ _ _ _ Hz Hroot) in Hf. destruct (entries t) as [|[b u] es] eqn:He; [done|].
    cbn in Hf. simplify_eq. eapply (delete_keeps (UserStructCompare Tree)); try done. by left.
Qed.

(** C12: from an initialised collection, whatever sequence of insertions and of
    deletions of looked-up nodes a client performs, the state it reaches is a
    valid collection: validation passes, and the next insertion cannot fail an
    ASSERT, dereference NULL or loop. *)
Theorem client_safe ucmp kcmp `{!UserOrder ucmp} `{!KeyOrder ucmp kcmp} h0 Tree0 h Tree NodeOut us :
  OrderedCollectionInit true ucmp kcmp h0 = Some (Some Tree0, h0) →
  rtc client_step (h0, Tree0) (h, Tree) →
  (∃ es, collection h Tree es) ∧
  RedBlackTreeValidate Tree h = Some (tt, h) ∧
  is_Some (OrderedCollectionInsert Tree NodeOut us h).
Proof.
  intros Hinit Hsteps.
  assert (Hinv0 : client_inv ucmp kcmp (h0, Tree0)).
  { unfold OrderedCollectionInit in Hinit. unfold mbind, M_bind in Hinit.
    destruct (validate_if_enabled _ _) as [[]|]; [|done].
    unfold mret, M_ret in Hinit. injection Hinit as <- <-.
    split_and!; [done..|]. exists []. cbn [fst snd].
    apply (collection_intro _ (RbTree None ucmp kcmp) E 0); try done; constructor. }
  assert (Hinv : client_inv ucmp kcmp (h, Tree)).
  { revert Hinv0. clear Hinit. induction Hsteps as [|s1 s2 s3 Hs _ IH]; [done|].
    intros Hi. by eapply IH, client_step_inv. }
  destruct Hinv as (<- & <- & es & t & Hz & Hroot & Hv & He & Hasc). cbn in *. split_and!.
  - exists es, t. by split_and!.
  - rewrite <-He in Hasc. by eapply validate_accepts.
  - rewrite <-He in Hasc.
    destruct (proj1 (wp_Some _ _ _) (insert_spec Tree NodeOut us h h t Hz Hroot Hv Hasc))
      as (res & h2 & Hrun2 & _). by exists (res, h2).
Qed.

End client.

(** ** Concrete collections of integers *)

#[export] Instance Z_user_order : UserOrder Z.sub.
Proof. split; lia. Qed.

#[export] Instance Z_key_order : KeyOrder Z.sub Z.sub.
Proof. split; lia. Qed.

(** An allocator that always finds a fresh address. *)
Definition fresh_node (h : rbheap Z) : option (positive * RED_BLACK_TREE_NODE Z) :=
  Some (fresh (dom h), RbNode 0 None None None RedBlackTreeRed).

Lemma fresh_node_fresh h a n : fresh_node h = Some (a, n) → h !! a = None.
Proof. intros [= <- _]. apply not_elem_of_dom, is_fresh. Qed.

#[export] Instance Z_allocator : PoolAllocator Z := {|
  AllocatePool := fresh_node; AllocatePool_fresh := fresh_node_fresh |}.

#[export] Instance validate_on : ValidatePcd := true.

(** The collection 10, 20, 30, with a black root and two red children. *)
Definition sample_tree : rbt Z :=
  T RedBlackTreeBlack (T RedBlackTreeRed E 2 10 E) 1 20 (T RedBlackTreeRed E 3 30 E).

Definition sample_heap : rbheap Z :=
  <[1%positive := RbNode 20 None (Some 2%positive) (Some 3%positive) RedBlackTreeBlack]>
  (<[2%positive := RbNode 10 (Some 1%positive) None None RedBlackTreeRed]>
  (<[3%positive := RbNode 30 (Some 1%positive) None None RedBlackTreeRed]> ∅)).

Definition sample : RED_BLACK_TREE Z Z := RbTree (Some 1%positive) Z.sub Z.sub.

Definition sample_entries : list (positive * Z) :=
  [(2%positive, 10); (1%positive, 20); (3%positive, 30)].

Lemma sample_collection : collection sample_heap sample sample_entries.
Proof.
  apply (collection_intro sample_heap sample sample_tree 1); [| | |done|].
  - by split_and!.
  - cbn. repeat constructor; set_solver.
  - econstructor; repeat constructor.
  - cbn. repeat constructor.
Qed.

Lemma insert_correct_witness :
  ∃ Status Tree' Out h',
    OrderedCollectionInsert sample (Some None) 25 sample_heap = Some ((Status, Tree', Out), h') ∧
    Status = RETURN_SUCCESS.
Proof.
  destruct (insert_correct sample (Some None) 25 sample_heap sample_entries sample_collection)
    as (Status & Tree' & Out & h' & Hrun & _).
  exists Status, Tree', Out, h'. split; [exact Hrun|].
  vm_compute in Hrun. injection Hrun as <- _ _ _. reflexivity.
Defined.

Lemma delete_correct_witness :
  ∃ Tree' h', OrderedCollectionDelete sample (Some 1%positive) (Some 0) sample_heap =
      Some ((Tree', Some 20), h') ∧
    collection h' Tree' [(2%positive, 10); (3%positive, 30)].
Proof.
  destruct (delete_correct sample (Some 0) sample_heap [(2%positive, 10)] 1%positive 20
              [(3%positive, 30)] sample_collection) as (Tree' & h' & Hrun & _ & _ & Hc & _).
  exists Tree', h'. split; [exact Hrun | exact Hc].
Defined.

Lemma find_correct_witness :
  ∃ p, OrderedCollectionFind sample 30 sample_heap = Some (p, sample_heap) ∧ p = Some 3%positive.
Proof.
  destruct (find_correct sample 30 sample_heap sample_entries sample_collection) as (p & Hrun & _).
  exists p. split; [exact Hrun|]. vm_compute in Hrun. injection Hrun as <-. reflexivity.
Defined.

Lemma find_logarithmic_witness :
  find_loop 5 sample 30 (Root sample) sample_heap = OrderedCollectionFind sample 30 sample_heap.
Proof.
  apply (find_logarithmic sample 30 sample_heap sample_entries 5 sample_collection).
  cbn. lia.
Defined.

Lemma traversal_correct_witness :
  OrderedCollectionMin sample sample_heap = Some (Some 2%positive, sample_heap).
Proof. apply (traversal_correct sample sample_heap sample_entries sample_collection). Defined.

Lemma sample_holds : holds sample_heap sample_heap [] sample_tree.
Proof.
  split; cbn; [by split_and!|done| |done].
  intros x. unfold one. repeat case_decide; try lia; congruence.
Qed.

Lemma validate_iff_witness : RedBlackTreeValidate sample sample_heap = Some (tt, sample_heap).
Proof.
  apply (validate_iff sample sample_heap sample_tree sample_holds).
  - reflexivity.
  - vm_compute. reflexivity.
  - exact sample_collection.
Defined.

Lemma init_empty_uninit_witness : OrderedCollectionUninit sample sample_heap = None.
Proof.
  destruct (init_empty_uninit Z.sub Z.sub sample_heap sample sample_entries sample_collection)
    as (_ & _ & _ & Hun). rewrite Hun. reflexivity.
Defined.

Lemma client_safe_witness :
  is_Some (OrderedCollectionInsert (K := Z) (RbTree None Z.sub Z.sub) None 7 (∅ : rbheap Z)).
Proof.
  apply (client_safe Z.sub Z.sub ∅ (RbTree None Z.sub Z.sub) ∅ (RbTree None Z.sub Z.sub) None 7).
  - reflexivity.
  - apply rtc_refl.
Defined.
