(* ===== verification/OcInterface.v ===== *)
(** * The interface of OrderedCollectionLib

    [OrderedCollectionOps] has the functions of the library class
    (MdePkg/Include/Library/OrderedCollectionLib.h) as its clients call them, over
    an abstract pool of nodes [S] and abstract collections [C];
    [OrderedCollectionLaws] is what the library promises about them.  The user
    structures belong to the client, whose comparison functions read its memory:
    they are passed to every call that may compare, as they are at that moment. *)
From S2P Require Import Prelude CBase RbWalk.
Local Open Scope Z_scope.

Class OrderedCollectionOps (U S C : Type) := {
  oc_Init {K} : bool → (U → U → Z) → (K → U → Z) → M S (option C);
  oc_Uninit : C → M S unit;
  oc_IsEmpty : C → bool;
  oc_UserStruct : option positive → M S U;
  oc_Min : C → M S (option positive);
  oc_Next : option positive → M S (option positive);
  oc_Find {K} : (K → U → Z) → C → K → M S (option positive);
  oc_Insert : (U → U → Z) → C → option (option positive) → U → M S (Z * C * option (option positive));
  oc_Delete : (U → U → Z) → C → option positive → option U → M S (C * option U) }.

(** No entry compares equal. *)
Definition no_match {U} (f : U → Z) (es : list (positive * U)) : Prop := ∀ e, e ∈ es → f e.2 ≠ 0.

(** The outcomes of an insertion, for given meanings of the collections and of
    the set of nodes in use. *)
Inductive oc_inserted {U S C} (contents : S → C → list (positive * U) → Prop) (pool : S → gset positive)
    (cmp : U → U → Z) (s : S) (c : C) es (out : option (option positive)) us :
    Z * C * option (option positive) → S → Prop :=
  | oc_collision a u :
      (a, u) ∈ es → cmp us u = 0 →
      oc_inserted contents pool cmp s c es out us
        (RETURN_ALREADY_STARTED, c, (λ _, Some a) <$> out) s
  | oc_no_memory :
      no_match (cmp us) es →
      oc_inserted contents pool cmp s c es out us (RETURN_OUT_OF_RESOURCES, c, out) s
  | oc_linked a c' s' es1 es2 :
      no_match (cmp us) es → es = es1 ++ es2 → ascending cmp (es1 ++ (a, us) :: es2) →
      contents s' c' (es1 ++ (a, us) :: es2) → a ∉ pool s → pool s' = {[a]} ∪ pool s →
      (∀ c2 es', contents s c2 es' → (∀ x, x ∈ es'.*1 → x ∉ es.*1) → contents s' c2 es') →
      oc_inserted contents pool cmp s c es out us (RETURN_SUCCESS, c', (λ _, Some a) <$> out) s'.

Class OrderedCollectionLaws (U S C : Type) `{OrderedCollectionOps U S C} := {
  (** The nodes of a collection and their user structures, in ascending order. *)
  contents : S → C → list (positive * U) → Prop;
  (** The nodes in use. *)
  pool : S → gset positive;
  contents_pool s c es a : contents s c es → a ∈ es.*1 → a ∈ pool s;
  contents_NoDup s c es : contents s c es → NoDup es.*1;
  law_Init {K} ok cmp (kcmp : K → U → Z) s `{!UserOrder cmp} :
    ∃ o, oc_Init ok cmp kcmp s = Some (o, s) ∧
      match o with Some c => ok = true ∧ contents s c [] | None => ok = false end;
  law_Uninit s c : contents s c [] → oc_Uninit c s = Some (tt, s);
  law_IsEmpty s c es : contents s c es → oc_IsEmpty c = bool_decide (es = []);
  law_UserStruct s c es1 a u es2 :
    contents s c (es1 ++ (a, u) :: es2) → oc_UserStruct (Some a) s = Some (u, s);
  law_Min s c es : contents s c es → oc_Min c s = Some (fst <$> head es, s);
  law_Next s c es1 a u es2 :
    contents s c (es1 ++ (a, u) :: es2) → oc_Next (Some a) s = Some (fst <$> head es2, s);
  law_Find {K} cmp (kcmp : K → U → Z) key s c es `{!KeyOrder cmp kcmp} :
    contents s c es → ascending cmp es →
    oc_Find kcmp c key s = Some (find_entry (kcmp key) es, s);
  law_Insert cmp s c es out us `{!UserOrder cmp} :
    contents s c es → ascending cmp es →
    wp (oc_Insert cmp c out us) (oc_inserted contents pool cmp s c es out us) s;
  law_Delete cmp s c es1 a u es2 out `{!UserOrder cmp} :
    contents s c (es1 ++ (a, u) :: es2) → ascending cmp (es1 ++ (a, u) :: es2) →
    wp (oc_Delete cmp c (Some a) out) (λ '(c', out') s',
      out' = (λ _, u) <$> out ∧ contents s' c' (es1 ++ es2) ∧ pool s' = pool s ∖ {[a]} ∧
      (∀ c2 es', contents s c2 es' → (∀ x, x ∈ es'.*1 → x ∉ (es1 ++ (a, u) :: es2).*1) →
         contents s' c2 es')) s }.

(** ** Ascending entries *)

(** Only the order of the entries themselves matters. *)
Lemma ascending_agree {U} (cmp cmp' : U → U → Z) es :
  (∀ u v, u ∈ es.*2 → v ∈ es.*2 → cmp u v = cmp' u v) → ascending cmp es → ascending cmp' es.
Proof.
  unfold ascending. induction es as [|e es IH]; intros Hag Hasc; [constructor|].
  apply StronglySorted_cons in Hasc as [He Hasc]. apply StronglySorted_cons. split.
  - rewrite Forall_forall in *. intros e' He'. rewrite <-Hag; [by apply He|by left|].
    right. by apply list_elem_of_fmap_2.
  - apply IH; [|done]. intros u v Hu Hv. apply Hag; by right.
Qed.

Lemma ascending_delete {U} (cmp : U → U → Z) es1 e es2 :
  ascending cmp (es1 ++ e :: es2) → ascending cmp (es1 ++ es2).
Proof. apply StronglySorted_remove. Qed.
