(* ===== verification/OcRedBlack.v ===== *)
(** * The red-black tree implements the interface of OrderedCollectionLib *)
From S2P Require Import Prelude CBase RbDefs RbTree RbHeap RbWalk RbInsert.
From S2P Require Import RbValidate RbInsertOp RbDelete OrderedCollection OcInterface.
Local Open Scope Z_scope.

Section implementation.
Context {U : Type} `{HA : PoolAllocator U} `{HV : ValidatePcd}.
Implicit Types (t : rbt U) (a : positive) (u us : U) (h : rbheap U)
  (es : list (positive * U)) (c : option positive).

(** A collection is its root; the comparison functions come with every call. *)
Definition tree_of {K} c (cmp : U → U → Z) (kcmp : K → U → Z) : RED_BLACK_TREE U K := RbTree c cmp kcmp.
Definition no_key : unit → U → Z := λ _ _, 0.
Definition no_cmp : U → U → Z := λ _ _, 0.

#[export] Instance rb_ops : OrderedCollectionOps U (rbheap U) (option positive) := {|
  oc_Init K ok cmp kcmp := o ← OrderedCollectionInit ok cmp kcmp; mret (Root <$> o);
  oc_Uninit c := OrderedCollectionUninit (tree_of c no_cmp no_key);
  oc_IsEmpty c := OrderedCollectionIsEmpty (tree_of c no_cmp no_key);
  oc_UserStruct := OrderedCollectionUserStruct;
  oc_Min c := OrderedCollectionMin (tree_of c no_cmp no_key);
  oc_Next := OrderedCollectionNext;
  oc_Find K kcmp c key := OrderedCollectionFind (tree_of c no_cmp kcmp) key;
  oc_Insert cmp c out us :=
    '(Status, Tree, out) ← OrderedCollectionInsert (tree_of c cmp no_key) out us;
    mret (Status, Root Tree, out);
  oc_Delete cmp c Node out :=
    '(Tree, out) ← OrderedCollectionDelete (tree_of c cmp no_key) Node out; mret (Root Tree, out) |}.

Definition rb_contents h c es : Prop :=
  ∃ t, holds h h [] t ∧ c = root t ∧ rb_valid t ∧ entries t = es.

Lemma rb_contents_dom h c es a : rb_contents h c es → a ∈ es.*1 → a ∈ dom h.
Proof. intros (t & [Hr _ _ _] & _ & _ & <-). by eapply rep_dom. Qed.

Lemma rb_contents_NoDup h c es : rb_contents h c es → NoDup es.*1.
Proof. intros (t & Hz & _ & _ & <-). by apply holds_NoDup in Hz. Qed.

(** Other collections do not notice a change of nodes that are not theirs. *)
Lemma rb_contents_frame h h' c es :
  rb_contents h c es → (∀ x, x ∈ es.*1 → h' !! x = h !! x) → rb_contents h' c es.
Proof.
  intros (t & Hz & -> & Hv & <-) Hsame. exists t. split_and!; [|done..].
  destruct Hz as [Hr Hc Hd _]. split; [|done..]. clear Hv Hc Hd. revert Hr Hsame.
  cbn. generalize (@None positive). induction t as [|cl l IHl b v r IHr]; intros par; cbn; [done|].
  rewrite fmap_app, fmap_cons. setoid_rewrite elem_of_app. setoid_rewrite elem_of_cons.
  intros (Hb & Hl & Hr) Hsame. split_and!.
  - rewrite Hsame by (right; by left). done.
  - apply IHl; [done|]. intros. apply Hsame. by left.
  - apply IHr; [done|]. intros. apply Hsame. right. by right.
Qed.

Lemma rb_dom_eq h h' t' (xs : list positive) a :
  holds h h' [] t' → (∀ x, x ∈ (entries t').*1 ↔ x = a ∨ x ∈ xs) → (∀ x, x ∈ xs → x ∈ dom h) →
  dom h' = {[a]} ∪ dom h.
Proof.
  intros Hz He Hdom. apply set_eq. intros x. rewrite elem_of_union, elem_of_singleton.
  destruct (decide (x ∈ (entries t').*1)) as [Hx|Hx].
  - split; [|intros _; eapply rep_dom; [apply Hz|done]]. intros _. apply He in Hx as [->|Hx]; auto.
  - rewrite !elem_of_dom, (holds_frame _ _ _ _ Hz Hx). split; [by right|]. intros [->|?]; [|done].
    destruct Hx. apply He. by left.
Qed.

Lemma rb_law_Insert cmp h c es out us `{!UserOrder cmp} :
  rb_contents h c es → ascending cmp es →
  wp (oc_Insert cmp c out us) (oc_inserted rb_contents dom cmp h c es out us) h.
Proof.
  intros (t & Hz & -> & Hv & <-) Hasc. cbn [oc_Insert rb_ops]. wp_seq. eapply wp_mono.
  { by apply (insert_spec (tree_of (root t) cmp no_key) out us h h t). }
  intros res h' Hins. assert (Hno : find_entry (cmp us) (entries t) = None → no_match (cmp us) (entries t))
    by (apply find_entry_absent).
  destruct Hins as [a u _ Hin Hu|Hn _|a garbage t' es1 es2 h' Hn Ha Hz' Hv' He He' Hasc'];
    cbn beta iota; wp_seq.
  - by eapply oc_collision.
  - by apply oc_no_memory, Hno.
  - assert (Ha' : a ∉ dom h) by (apply not_elem_of_dom; by eapply AllocatePool_fresh).
    assert (Hent : ∀ x, x ∈ (entries t').*1 ↔ x = a ∨ x ∈ (entries t).*1).
    { intros x. rewrite He', He, !fmap_app, fmap_cons, !elem_of_app, elem_of_cons. cbn. tauto. }
    cbn [UserStructCompare tree_of] in *. rewrite He' in Hasc'.
    eapply (oc_linked rb_contents dom cmp h (root t) (entries t) out us a (root t') h'); try done.
    + by apply Hno.
    + exists t'. split_and!; [by eapply holds_self|done..].
    + eapply rb_dom_eq; [done|exact Hent|]. intros x Hx. eapply rep_dom; [apply Hz|done].
    + intros c2 es' Hc2 Hdisj. eapply rb_contents_frame; [done|]. intros x Hx.
      eapply holds_frame; [done|]. rewrite Hent. intros [->|Hxt]; [|by eapply Hdisj].
      by apply Ha', (rb_contents_dom _ _ _ _ Hc2).
Qed.

Lemma rb_law_Delete cmp h c es1 a u es2 out `{!UserOrder cmp} :
  rb_contents h c (es1 ++ (a, u) :: es2) → ascending cmp (es1 ++ (a, u) :: es2) →
  wp (oc_Delete cmp c (Some a) out) (λ '(c', out') h',
    out' = (λ _, u) <$> out ∧ rb_contents h' c' (es1 ++ es2) ∧ dom h' = dom h ∖ {[a]} ∧
    (∀ c2 es', rb_contents h c2 es' → (∀ x, x ∈ es'.*1 → x ∉ (es1 ++ (a, u) :: es2).*1) →
       rb_contents h' c2 es')) h.
Proof.
  intros (t & Hz & -> & Hv & He) Hasc. cbn [oc_Delete rb_ops]. wp_seq. rewrite <-He in Hasc. eapply wp_mono.
  { by apply (delete_spec (tree_of (root t) cmp no_key) out h h t es1 a u es2). }
  intros [Tree' out'] h' (t' & [= -> ->] & Hz' & Hv' & He' & _). cbn beta iota. wp_seq.
  assert (Hin : ∀ x, x ∈ (es1 ++ (a, u) :: es2).*1 ↔ x = a ∨ x ∈ (entries t').*1).
  { intros x. rewrite He', !fmap_app, fmap_cons, !elem_of_app, elem_of_cons. cbn. tauto. }
  assert (Hother : ∀ x, x ∉ (entries t').*1 → h' !! x = delete a h !! x)
    by (intros; by eapply holds_frame).
  assert (Hnd := holds_NoDup _ _ _ _ Hz). cbn in Hnd. rewrite He in Hnd.
  assert (Ha : a ∉ (entries t').*1).
  { rewrite He', fmap_app, elem_of_app. rewrite fmap_app, fmap_cons in Hnd.
    apply NoDup_app in Hnd as (_ & Hd & [Hn _]%NoDup_cons). intros [H1|H2]; [|done].
    apply (Hd _ H1). by left. }
  split_and!; [done| | |].
  - exists t'. split_and!; [by eapply holds_self|done..].
  - apply set_eq. intros x. rewrite elem_of_difference, elem_of_singleton.
    destruct (decide (x ∈ (entries t').*1)) as [Hx|Hx].
    + split; [intros _|intros _; eapply rep_dom; [apply Hz'|done]]. split; [|by intros ->].
      eapply rep_dom; [apply Hz|]. rewrite He. apply Hin. by right.
    + rewrite !elem_of_dom, Hother by done. destruct (decide (x = a)) as [->|Hxa].
      * rewrite lookup_delete_eq. split; [by intros [? ?]|by intros [_ ?]].
      * rewrite lookup_delete_ne by done. tauto.
  - intros c2 es' Hc2 Hdisj. eapply rb_contents_frame; [done|]. intros x Hx.
    specialize (Hdisj x Hx). rewrite Hin in Hdisj.
    rewrite Hother, lookup_delete_ne by naive_solver. done.
Qed.

#[export] Instance rb_laws : OrderedCollectionLaws U (rbheap U) (option positive).
Proof.
  refine {| contents := rb_contents; pool := dom |}.
  - apply rb_contents_dom.
  - apply rb_contents_NoDup.
  - intros K ok cmp kcmp h ?. cbn [oc_Init rb_ops]. unfold OrderedCollectionInit.
    destruct ok; [|by exists None].
    assert (Hz : holds h h [] E) by (split; cbn; [done|done|intros; lia|done]).
    assert (Hrun : validate_if_enabled (RbTree None cmp kcmp) h = Some (tt, h)).
    { apply wp_run. eapply (wp_validate _ (RbTree None cmp kcmp) h h E); try done; [|constructor].
      exists 0%nat. constructor. }
    exists (Some None). split; [unfold mbind, M_bind; by rewrite Hrun|]. split; [done|].
    exists E. split_and!; try done. exists 0%nat. constructor.
  - intros h c (t & _ & -> & _ & He). destruct t as [|? l ? ? ?]; [done|]. cbn in He. by destruct (entries l).
  - intros h c es (t & _ & -> & _ & <-). destruct t as [|? l ? ? ?]; [done|].
    cbn. rewrite bool_decide_false; [done|]. by destruct (entries l).
  - intros h c es1 a u es2 (t & Hz & _ & _ & He). by eapply user_struct_at.
  - intros h c es (t & Hz & -> & _ & <-). by eapply min_run.
  - intros h c es1 a u es2 (t & Hz & _ & _ & He). by eapply next_at.
  - intros K cmp kcmp key h c es ? (t & Hz & -> & _ & <-) Hasc.
    cbn [oc_Find rb_ops]. unfold OrderedCollectionFind. apply wp_run.
    pose proof (zip_fuel _ _ _ _ Hz) as Hfuel. cbn in Hfuel.
    wp_seq. apply wp_loop_fuel. intros fuel Hf.
    eapply (find_loop_spec fuel (tree_of (root t) no_cmp kcmp) key h h [] t); [done|lia|].
    by eapply ascending_key_monotone.
  - intros. by apply rb_law_Insert.
  - intros. by apply rb_law_Delete.
Defined.
End implementation.
