(* ===== verification/PciCap.v ===== *)
(** * PCI capability lists (OvmfPkg/Library/BasePciCapLib/BasePciCapLib.c)

    The library is written against the interface of OrderedCollectionLib, so the
    definitions are, too.  The PCI_CAP structures live in a map [caps] that both
    collections of a list share: the owning one, ordered by key, and the temporary
    one, ordered by config space offset.  [None] is a NULL or dangling pointer, a
    failed ASSERT, or a loop that outlives its fuel. *)
From S2P Require Import Prelude CBase OcInterface.
Local Open Scope Z_scope.

Definition PCI_MAX_CONFIG_OFFSET := 0x0100.
Definition PCI_EXP_MAX_CONFIG_OFFSET := 0x1000.
Definition PCI_PRIMARY_STATUS_OFFSET := 0x06.
Definition PCI_CAPBILITY_POINTER_OFFSET := 0x34.
Definition EFI_PCI_STATUS_CAPABILITY := 0x0010.
Definition EFI_PCI_CAPABILITY_ID_PCIEXP := 0x10.

Inductive PCI_CAP_DOMAIN := PciCapNormal | PciCapExtended.

#[export] Instance domain_eq_dec : EqDecision PCI_CAP_DOMAIN.
Proof. solve_decision. Defined.

(** The enumeration values. *)
Definition domain_value (d : PCI_CAP_DOMAIN) : Z :=
  match d with PciCapNormal => 0 | PciCapExtended => 1 end.

Record PCI_CAP_KEY := CapKey { Domain : PCI_CAP_DOMAIN; CapId : Z; Instance : Z }.

#[export] Instance key_eq_dec : EqDecision PCI_CAP_KEY.
Proof. solve_decision. Defined.

(** The union: the arm that was written last. *)
Inductive PCI_CAP_NUM_INSTANCES := NumInstances (n : Z) | InstanceZero (p : positive).

Record PCI_CAP := PciCap {
  Key : PCI_CAP_KEY;
  NumInstancesUnion : PCI_CAP_NUM_INSTANCES;
  Offset : Z;
  MaxSizeHint : Z;
  Version : Z }.

Record PCI_CAP_INFO := CapInfo {
  InfoDomain : PCI_CAP_DOMAIN; InfoCapId : Z; InfoNumInstances : Z; InfoInstance : Z;
  InfoOffset : Z; InfoMaxSizeHint : Z; InfoVersion : Z }.

Abbreviation capmem := (gmap positive PCI_CAP).

(** The config space accessors of a PCI_CAP_DEV: a status and the bytes read, and
    a status for bytes to write. *)
Class PciCapDev (D : Type) := {
  ReadConfig : Z → Z → D → Z * list Z * D;
  WriteConfig : Z → list Z → Z → D → Z * D }.

(** MemoryAllocationLib for PCI_CAP structures. *)
Class CapAllocator := {
  AllocateCap : capmem → option (positive * PCI_CAP);
  AllocateCap_fresh mem p c : AllocateCap mem = Some (p, c) → mem !! p = None }.

(** ** Orderings

    The comparison functions read the structures they are given. *)
Definition key_at (mem : capmem) (p : positive) : PCI_CAP_KEY :=
  match mem !! p with Some c => Key c | None => CapKey PciCapNormal 0 0 end.
Definition offset_at (mem : capmem) (p : positive) : Z :=
  match mem !! p with Some c => Offset c | None => 0 end.

Definition compare_keys (Key1 Key2 : PCI_CAP_KEY) : Z :=
  if domain_value (Domain Key1) <? domain_value (Domain Key2) then -1 else
  if domain_value (Domain Key1) >? domain_value (Domain Key2) then 1 else
  if CapId Key1 <? CapId Key2 then -1 else
  if CapId Key1 >? CapId Key2 then 1 else
  if Instance Key1 <? Instance Key2 then -1 else
  if Instance Key1 >? Instance Key2 then 1 else 0.

Definition ComparePciCapKey (mem : capmem) (PciCapKey : PCI_CAP_KEY) (PciCap : positive) : Z :=
  compare_keys PciCapKey (key_at mem PciCap).
Definition ComparePciCap (mem : capmem) (PciCap1 PciCap2 : positive) : Z :=
  ComparePciCapKey mem (key_at mem PciCap1) PciCap2.
Definition ComparePciCapOffsetKey (mem : capmem) (CapHdrOffset : Z) (PciCap : positive) : Z :=
  CapHdrOffset - offset_at mem PciCap.
Definition ComparePciCapOffset (mem : capmem) (PciCap1 PciCap2 : positive) : Z :=
  offset_at mem PciCap1 - offset_at mem PciCap2.

Definition config_size (d : PCI_CAP_DOMAIN) : Z :=
  if decide (d = PciCapNormal) then PCI_MAX_CONFIG_OFFSET else PCI_EXP_MAX_CONFIG_OFFSET.

(** Little-endian fields of a buffer. *)
Definition byte_at (buf : list Z) (i : nat) : Z := cast UINT8 (nth i buf 0).
Definition le16 (buf : list Z) : Z := byte_at buf 0 + 2 ^ 8 * byte_at buf 1.
Definition le32 (buf : list Z) : Z := le16 buf + 2 ^ 16 * le16 (drop 2 buf).

(** ** State *)

(** [live_lists] counts the PCI_CAP_LIST structures in use. *)
Record pci_state (D S : Type) := PciState {
  device : D; nodes : S; caps : capmem; live_lists : Z }.
Arguments PciState {_ _}.
Arguments device {_ _}.
Arguments nodes {_ _}.
Arguments caps {_ _}.
Arguments live_lists {_ _}.

Section code.
Context {D S C : Type} `{OrderedCollectionOps positive S C} `{PciCapDev D} `{CapAllocator}.
Abbreviation M := (M (pci_state D S)).

Definition on_nodes {A} (m : Prelude.M S A) : M A := λ s,
  '(x, n) ← m (nodes s); Some (x, PciState (device s) n (caps s) (live_lists s)).
Definition get_caps : M capmem := λ s, Some (caps s, s).
Definition put_caps (mem : capmem) : M unit := λ s,
  Some (tt, PciState (device s) (nodes s) mem (live_lists s)).
Definition count_lists (n : Z) : M unit := λ s,
  Some (tt, PciState (device s) (nodes s) (caps s) (live_lists s + n)).
Definition read_config (off size : Z) : M (Z * list Z) := λ s,
  let '(Status, buf, d) := ReadConfig off size (device s) in
  Some ((Status, buf), PciState d (nodes s) (caps s) (live_lists s)).
Definition write_config (off : Z) (buf : list Z) (size : Z) : M Z := λ s,
  let '(Status, d) := WriteConfig off buf size (device s) in
  Some (Status, PciState d (nodes s) (caps s) (live_lists s)).

Definition get_cap (p : positive) : M PCI_CAP :=
  mem ← get_caps; match mem !! p with Some c => mret c | None => fails end.
Definition set_cap (p : positive) (f : PCI_CAP → PCI_CAP) : M unit :=
  mem ← get_caps;
  match mem !! p with Some c => put_caps (<[p := f c]> mem) | None => fails end.
Definition free_cap (p : positive) : M unit :=
  mem ← get_caps;
  match mem !! p with Some _ => put_caps (delete p mem) | None => fails end.

(** [c->NumInstancesUnion.NumInstances] *)
Definition num_instances (c : PCI_CAP) : M Z :=
  match NumInstancesUnion c with NumInstances n => mret n | InstanceZero _ => fails end.

Definition set_instance (n : Z) (z : positive) (c : PCI_CAP) : PCI_CAP :=
  PciCap (CapKey (Domain (Key c)) (CapId (Key c)) n) (InstanceZero z)
    (Offset c) (MaxSizeHint c) (Version c).
Definition set_num_instances (n : Z) (c : PCI_CAP) : PCI_CAP :=
  PciCap (Key c) (NumInstances n) (Offset c) (MaxSizeHint c) (Version c).
Definition set_hint (n : Z) (c : PCI_CAP) : PCI_CAP :=
  PciCap (Key c) (NumInstancesUnion c) (Offset c) n (Version c).

(** OrderedCollectionInsert with the comparison function the collection has; [out]
    is the output pointer of the call, and the entry it ends up with is NULL when
    the call does not set it. *)
Definition insert_with (cmp : capmem → positive → positive → Z) (Coll : C) (out : option (option positive))
    (PciCap : positive) : M (Z * C * option positive) :=
  mem ← get_caps;
  '(Status, Coll, out) ← on_nodes (oc_Insert (cmp mem) Coll out PciCap);
  mret (Status, Coll, mjoin out).

Definition delete_with (cmp : capmem → positive → positive → Z) (Coll : C) (Entry out : option positive)
    : M (C * option positive) :=
  mem ← get_caps; on_nodes (oc_Delete (cmp mem) Coll Entry out).

(** ** Parsing *)

(** The second half of InsertPciCap: link [PciCap] into [CapHdrOffsets], too. *)
Definition link_offset (CapList CapHdrOffsets : C) (PciCap : positive) (PciCapEntry : option positive)
    (Status : Z) (InstanceZero0 : option positive) : M (Z * C * C) :=
  ASSERT (negb (RETURN_ERROR Status));;
  '(Status, CapHdrOffsets, _) ← insert_with ComparePciCapOffset CapHdrOffsets None PciCap;
  if RETURN_ERROR Status then
    let Status := if Status =? RETURN_ALREADY_STARTED then RETURN_DEVICE_ERROR else Status in
    '(CapList, _) ← delete_with ComparePciCap CapList PciCapEntry None;
    free_cap PciCap;;
    mret (Status, CapList, CapHdrOffsets)
  else
    c ← get_cap PciCap;
    (if 0 <? Instance (Key c) then
       match InstanceZero0 with
       | None => fails
       | Some z =>
           zc ← get_cap z;
           n ← num_instances zc;
           set_cap z (set_num_instances (cast UINT16 (n + 1)))
       end
     else mret tt);;
    mret (RETURN_SUCCESS, CapList, CapHdrOffsets).

Definition InsertPciCap (CapList CapHdrOffsets : C) (Domain0 : PCI_CAP_DOMAIN)
    (CapId0 Offset0 Version0 : Z) : M (Z * C * C) :=
  ASSERT (Z.land Offset0 3 =? 0);;
  ASSERT (Offset0 <? config_size Domain0);;
  ASSERT (bool_decide (Domain0 = PciCapExtended) || (Version0 =? 0));;
  mem ← get_caps;
  match AllocateCap mem with
  | None => mret (RETURN_OUT_OF_RESOURCES, CapList, CapHdrOffsets)
  | Some (p, garbage) =>
      put_caps (<[p := PciCap (CapKey Domain0 CapId0 0) (NumInstances 1) Offset0 0 Version0]> mem);;
      '(Status, CapList, PciCapEntry) ← insert_with ComparePciCap CapList (Some None) p;
      if RETURN_ERROR Status then
        if Status =? RETURN_OUT_OF_RESOURCES then
          free_cap p;; mret (Status, CapList, CapHdrOffsets)
        else
        ASSERT (Status =? RETURN_ALREADY_STARTED);;
        z ← on_nodes (oc_UserStruct PciCapEntry);
        zc ← get_cap z;
        n ← num_instances zc;
        set_cap p (set_instance n z);;
        ASSERT (0 <? n);;
        '(Status, CapList, PciCapEntry) ← insert_with ComparePciCap CapList (Some None) p;
        if Status =? RETURN_OUT_OF_RESOURCES then
          free_cap p;; mret (Status, CapList, CapHdrOffsets)
        else link_offset CapList CapHdrOffsets p PciCapEntry Status (Some z)
      else link_offset CapList CapHdrOffsets p PciCapEntry Status None
  end.

Definition CalculatePciCapMaxSizeHint (PciCap : positive) (NextPciCap : option positive) : M unit :=
  c ← get_cap PciCap;
  let ConfigSpaceSize := config_size (Domain (Key c)) in
  next ← match NextPciCap with None => mret None | Some q => n ← get_cap q; mret (Some (Offset n)) end;
  ASSERT (match next with None => true | Some off => Offset c <? off end);;
  ASSERT (Offset c <? ConfigSpaceSize);;
  match next with
  | None => set_cap PciCap (set_hint (cast UINT16 (ConfigSpaceSize - Offset c)))
  | Some off =>
      if off >=? ConfigSpaceSize then set_cap PciCap (set_hint (cast UINT16 (ConfigSpaceSize - Offset c)))
      else set_cap PciCap (set_hint (cast UINT16 (off - Offset c)))
  end.

(** A collection of structures has at most as many entries as there are
    structures. *)
Definition caps_fuel : M nat := mem ← get_caps; mret (Datatypes.S (size mem)).

Fixpoint empty_loop (fuel : nat) (cmp : capmem → positive → positive → Z) (Coll : C)
    (FreePciCap : bool) (PciCapEntry : option positive) : M C :=
  match fuel with
  | O => fails
  | Datatypes.S fuel =>
      match PciCapEntry with
      | None => mret Coll
      | Some _ =>
          NextEntry ← on_nodes (oc_Next PciCapEntry);
          '(Coll, out) ← delete_with cmp Coll PciCapEntry (Some xH);
          (if FreePciCap then match out with Some p => free_cap p | None => fails end else mret tt);;
          empty_loop fuel cmp Coll FreePciCap NextEntry
      end
  end.

Definition EmptyAndUninitPciCapCollection (cmp : capmem → positive → positive → Z)
    (PciCapCollection : C) (FreePciCap : bool) : M unit :=
  fuel ← caps_fuel;
  PciCapEntry ← on_nodes (oc_Min PciCapCollection);
  Coll ← empty_loop fuel cmp PciCapCollection FreePciCap PciCapEntry;
  on_nodes (oc_Uninit Coll).

(** The traversal of the normal capabilities list: the error status with which it
    was left, and whether the device is PCI Express. *)
Fixpoint normal_loop (fuel : nat) (CapList CapHdrOffsets : C) (NormalCapHdrOffset : Z)
    (DeviceIsExpress : bool) : M (Z * C * C * bool) :=
  match fuel with
  | O => fails
  | Datatypes.S fuel =>
      if negb (0 <? NormalCapHdrOffset)
      then mret (RETURN_SUCCESS, CapList, CapHdrOffsets, DeviceIsExpress) else
      '(Status, hdr) ← read_config NormalCapHdrOffset 2;
      if RETURN_ERROR Status then mret (Status, CapList, CapHdrOffsets, DeviceIsExpress) else
      let CapabilityID := byte_at hdr 0 in
      '(Status, CapList, CapHdrOffsets) ←
        InsertPciCap CapList CapHdrOffsets PciCapNormal CapabilityID NormalCapHdrOffset 0;
      if RETURN_ERROR Status then mret (Status, CapList, CapHdrOffsets, DeviceIsExpress) else
      let DeviceIsExpress := DeviceIsExpress || (CapabilityID =? EFI_PCI_CAPABILITY_ID_PCIEXP) in
      normal_loop fuel CapList CapHdrOffsets (Z.land (byte_at hdr 1) 0xFC) DeviceIsExpress
  end.

(** The traversal of the extended capabilities list. *)
Fixpoint extended_loop (fuel : nat) (CapList CapHdrOffsets : C) (ExtendedCapHdrOffset : Z)
    : M (Z * C * C) :=
  match fuel with
  | O => fails
  | Datatypes.S fuel =>
      if negb (0 <? ExtendedCapHdrOffset) then mret (RETURN_SUCCESS, CapList, CapHdrOffsets) else
      '(Status, hdr) ← read_config ExtendedCapHdrOffset 4;
      if (ExtendedCapHdrOffset =? PCI_MAX_CONFIG_OFFSET) && (RETURN_ERROR Status || (le32 hdr =? 0))
      then mret (RETURN_SUCCESS, CapList, CapHdrOffsets) else
      if RETURN_ERROR Status then mret (Status, CapList, CapHdrOffsets) else
      '(Status, CapList, CapHdrOffsets) ←
        InsertPciCap CapList CapHdrOffsets PciCapExtended (Z.land (le32 hdr) 0xFFFF)
          ExtendedCapHdrOffset (Z.land (Z.shiftr (le32 hdr) 16) 0xF);
      if RETURN_ERROR Status then mret (Status, CapList, CapHdrOffsets) else
      let next := Z.land (Z.land (Z.shiftr (le32 hdr) 20) 0xFFF) 0xFFC in
      if (0 <? next) && (next <? PCI_MAX_CONFIG_OFFSET)
      then mret (RETURN_DEVICE_ERROR, CapList, CapHdrOffsets)
      else extended_loop fuel CapList CapHdrOffsets next
  end.

(** Evacuate [CapHdrOffsets], from [OffsetEntry] on, and calculate the hints. *)
Fixpoint hint_loop (fuel : nat) (CapHdrOffsets : C) (OffsetEntry NextOffsetEntry : option positive)
    : M C :=
  match fuel with
  | O => fails
  | Datatypes.S fuel =>
      match NextOffsetEntry with
      | Some _ =>
          '(CapHdrOffsets, out) ← delete_with ComparePciCapOffset CapHdrOffsets OffsetEntry (Some xH);
          NextPciCap ← on_nodes (oc_UserStruct NextOffsetEntry);
          match out with Some p => CalculatePciCapMaxSizeHint p (Some NextPciCap) | None => fails end;;
          NextNext ← on_nodes (oc_Next NextOffsetEntry);
          hint_loop fuel CapHdrOffsets NextOffsetEntry NextNext
      | None =>
          '(CapHdrOffsets, out) ← delete_with ComparePciCapOffset CapHdrOffsets OffsetEntry (Some xH);
          match out with Some p => CalculatePciCapMaxSizeHint p None | None => fails end;;
          mret CapHdrOffsets
      end
  end.

Definition calculate_hints (CapHdrOffsets : C) : M C :=
  fuel ← caps_fuel;
  OffsetEntry ← on_nodes (oc_Min CapHdrOffsets);
  match OffsetEntry with
  | None => mret CapHdrOffsets
  | Some _ =>
      NextOffsetEntry ← on_nodes (oc_Next OffsetEntry);
      hint_loop fuel CapHdrOffsets OffsetEntry NextOffsetEntry
  end.

(** The error labels, from the last one up. *)
Definition FreeOutCapList (Status : Z) : M (Z * option C) :=
  count_lists (-1);; ASSERT (RETURN_ERROR Status);; mret (Status, None).
Definition FreeCapabilities (Status : Z) (Capabilities : C) : M (Z * option C) :=
  EmptyAndUninitPciCapCollection ComparePciCap Capabilities true;; FreeOutCapList Status.
Definition FreeCapHdrOffsets (Status : Z) (Capabilities CapHdrOffsets : C) : M (Z * option C) :=
  EmptyAndUninitPciCapCollection ComparePciCapOffset CapHdrOffsets false;;
  FreeCapabilities Status Capabilities.

(** What is done once both lists have been parsed. *)
Definition finish_list (Capabilities CapHdrOffsets : C) : M (Z * option C) :=
  CapHdrOffsets ← calculate_hints CapHdrOffsets;
  ASSERT (oc_IsEmpty CapHdrOffsets);;
  on_nodes (oc_Uninit CapHdrOffsets);;
  mret (RETURN_SUCCESS, Some Capabilities).

(** From the extended capabilities list on. *)
Definition parse_extended (Capabilities CapHdrOffsets : C) (DeviceIsExpress : bool) : M (Z * option C) :=
  '(Status, Capabilities, CapHdrOffsets) ←
    (if DeviceIsExpress then extended_loop 1024 Capabilities CapHdrOffsets PCI_MAX_CONFIG_OFFSET
     else mret (RETURN_SUCCESS, Capabilities, CapHdrOffsets));
  if RETURN_ERROR Status then FreeCapHdrOffsets Status Capabilities CapHdrOffsets else
  finish_list Capabilities CapHdrOffsets.

(** From the status register on. *)
Definition parse_lists (Capabilities CapHdrOffsets : C) : M (Z * option C) :=
  '(Status, PciStatusReg) ← read_config PCI_PRIMARY_STATUS_OFFSET 2;
  if RETURN_ERROR Status then FreeCapHdrOffsets Status Capabilities CapHdrOffsets else
  if negb (Z.land (le16 PciStatusReg) EFI_PCI_STATUS_CAPABILITY =? 0) then
    '(Status, ptr) ← read_config PCI_CAPBILITY_POINTER_OFFSET 1;
    if RETURN_ERROR Status then FreeCapHdrOffsets Status Capabilities CapHdrOffsets else
    '(Status, Capabilities, CapHdrOffsets, DeviceIsExpress) ←
      normal_loop 64 Capabilities CapHdrOffsets (Z.land (byte_at ptr 0) 0xFC) false;
    if RETURN_ERROR Status then FreeCapHdrOffsets Status Capabilities CapHdrOffsets else
    parse_extended Capabilities CapHdrOffsets DeviceIsExpress
  else parse_extended Capabilities CapHdrOffsets false.

(** The flags say whether the allocations of the list and of the two collection
    structures succeed.  A PCI_CAP_LIST is its [Capabilities] collection. *)
Definition PciCapListInit (list_ok capabilities_ok offsets_ok : bool) : M (Z * option C) :=
  if negb list_ok then mret (RETURN_OUT_OF_RESOURCES, None) else
  count_lists 1;;
  mem ← get_caps;
  Capabilities ← on_nodes (oc_Init capabilities_ok (ComparePciCap mem) (ComparePciCapKey mem));
  match Capabilities with
  | None => FreeOutCapList RETURN_OUT_OF_RESOURCES
  | Some Capabilities =>
      CapHdrOffsets ← on_nodes (oc_Init offsets_ok (ComparePciCapOffset mem) (ComparePciCapOffsetKey mem));
      match CapHdrOffsets with
      | None => FreeCapabilities RETURN_OUT_OF_RESOURCES Capabilities
      | Some CapHdrOffsets => parse_lists Capabilities CapHdrOffsets
      end
  end.

Definition PciCapListUninit (CapList : C) : M unit :=
  EmptyAndUninitPciCapCollection ComparePciCap CapList true;; count_lists (-1).

(** ** Queries *)

Definition PciCapListFindCap (CapList : C) (Domain0 : PCI_CAP_DOMAIN) (CapId0 Instance0 : Z)
    (Cap : option (option positive)) : M (Z * option (option positive)) :=
  mem ← get_caps;
  PciCapEntry ← on_nodes (oc_Find (ComparePciCapKey mem) CapList (CapKey Domain0 CapId0 Instance0));
  match PciCapEntry with
  | None => mret (RETURN_NOT_FOUND, Cap)
  | Some _ =>
      match Cap with
      | None => mret (RETURN_SUCCESS, None)
      | Some _ => p ← on_nodes (oc_UserStruct PciCapEntry); mret (RETURN_SUCCESS, Some (Some p))
      end
  end.

Fixpoint version_loop (fuel : nat) (Domain0 : PCI_CAP_DOMAIN) (CapId0 MinVersion : Z)
    (Cap : option (option positive)) (PciCapEntry : option positive) : M (Z * option (option positive)) :=
  match fuel with
  | O => fails
  | Datatypes.S fuel =>
      match PciCapEntry with
      | None => mret (RETURN_NOT_FOUND, Cap)
      | Some _ =>
          p ← on_nodes (oc_UserStruct PciCapEntry);
          c ← get_cap p;
          if bool_decide (Domain (Key c) ≠ Domain0) || negb (CapId (Key c) =? CapId0)
          then mret (RETURN_NOT_FOUND, Cap)
          else if Version c >=? MinVersion then mret (RETURN_SUCCESS, (λ _, Some p) <$> Cap) else
          Next ← on_nodes (oc_Next PciCapEntry);
          version_loop fuel Domain0 CapId0 MinVersion Cap Next
      end
  end.

Definition PciCapListFindCapVersion (CapList : C) (Domain0 : PCI_CAP_DOMAIN) (CapId0 MinVersion : Z)
    (Cap : option (option positive)) : M (Z * option (option positive)) :=
  mem ← get_caps;
  fuel ← caps_fuel;
  PciCapEntry ← on_nodes (oc_Find (ComparePciCapKey mem) CapList (CapKey Domain0 CapId0 0));
  version_loop fuel Domain0 CapId0 MinVersion Cap PciCapEntry.

Definition PciCapGetInfo (Cap : positive) : M (Z * PCI_CAP_INFO) :=
  c ← get_cap Cap;
  zc ← (if Instance (Key c) =? 0 then mret c else
        match NumInstancesUnion c with InstanceZero z => get_cap z | NumInstances _ => fails end);
  n ← num_instances zc;
  mret (RETURN_SUCCESS,
        CapInfo (Domain (Key c)) (CapId (Key c)) n (Instance (Key c)) (Offset c) (MaxSizeHint c) (Version c)).

Definition PciCapRead (Cap : positive) (SourceOffsetInCap : Z) (DestinationBuffer : list Z) (Size : Z)
    : M (Z * list Z) :=
  c ← get_cap Cap;
  if SourceOffsetInCap + Size >? MaxSizeHint c then mret (RETURN_BAD_BUFFER_SIZE, DestinationBuffer) else
  read_config (cast UINT16 (Offset c + SourceOffsetInCap)) Size.

Definition PciCapWrite (Cap : positive) (DestinationOffsetInCap : Z) (SourceBuffer : list Z) (Size : Z)
    : M Z :=
  c ← get_cap Cap;
  if DestinationOffsetInCap + Size >? MaxSizeHint c then mret RETURN_BAD_BUFFER_SIZE else
  write_config (cast UINT16 (Offset c + DestinationOffsetInCap)) SourceBuffer Size.
End code.
