(* ===== verification/PciCapInv.v ===== *)
(** * What a PCI capability list represents

    A list is the sequence of the capabilities that have been found, in traversal
    order: [represents mem hint l] says that the PCI_CAP structures in memory are
    those of the sequence [l], instance numbers and instance counts included, and
    [cap_inv] that the two collections order exactly these structures. *)
From S2P Require Import Prelude CBase RbWalk OcInterface PciCap.
Local Open Scope Z_scope.

(** ** The orderings *)

Lemma domain_value_inj d e : domain_value d = domain_value e → d = e.
Proof. by destruct d, e. Qed.

(** The lexicographic order on keys, case by case. *)
Lemma compare_keys_spec k1 k2 :
  let lt := domain_value (Domain k1) < domain_value (Domain k2) ∨
    (domain_value (Domain k1) = domain_value (Domain k2) ∧
     (CapId k1 < CapId k2 ∨ (CapId k1 = CapId k2 ∧ Instance k1 < Instance k2))) in
  (compare_keys k1 k2 < 0 ↔ lt) ∧ (compare_keys k1 k2 = 0 ↔ k1 = k2).
Proof.
  destruct k1 as [d1 c1 i1], k2 as [d2 c2 i2]. unfold compare_keys. cbn.
  assert (Hinj := domain_value_inj d1 d2).
  repeat match goal with |- context [if ?b then _ else _] => destruct b eqn:?; bool_hyps end;
    (split; [lia|split; [lia|intros [= -> -> ->]; lia]]) || idtac.
  split; [lia|]. split; [intros _|done]. rewrite Hinj by lia. f_equal; lia.
Qed.

Lemma compare_keys_lt k1 k2 : compare_keys k1 k2 < 0 ↔
  domain_value (Domain k1) < domain_value (Domain k2) ∨
    (domain_value (Domain k1) = domain_value (Domain k2) ∧
     (CapId k1 < CapId k2 ∨ (CapId k1 = CapId k2 ∧ Instance k1 < Instance k2))).
Proof. apply compare_keys_spec. Qed.

Lemma compare_keys_eq k1 k2 : compare_keys k1 k2 = 0 ↔ k1 = k2.
Proof. apply compare_keys_spec. Qed.

Lemma compare_keys_flip k1 k2 : 0 < compare_keys k1 k2 ↔ compare_keys k2 k1 < 0.
Proof.
  rewrite compare_keys_lt. destruct (Z.lt_trichotomy (compare_keys k1 k2) 0) as [Hlt|[Heq|Hgt]].
  - split; [lia|]. apply compare_keys_lt in Hlt. lia.
  - split; [lia|]. apply compare_keys_eq in Heq as ->. lia.
  - split; [intros _|done].
    destruct (decide (k1 = k2)) as [->|Hne].
    { exfalso. assert (compare_keys k2 k2 = 0) by by apply compare_keys_eq. lia. }
    assert (Hn : ¬ compare_keys k1 k2 < 0) by lia. rewrite compare_keys_lt in Hn.
    destruct k1 as [d1 c1 i1], k2 as [d2 c2 i2]. cbn in *.
    destruct (Z.eq_dec (domain_value d1) (domain_value d2)) as [Hd|]; [|lia].
    apply domain_value_inj in Hd as Hd'. subst. right. split; [done|].
    destruct (Z.eq_dec c1 c2) as [->|]; [|lia]. right. split; [done|].
    destruct (Z.eq_dec i1 i2) as [->|]; [done|lia].
Qed.

#[export] Instance ComparePciCap_order mem : UserOrder (ComparePciCap mem).
Proof.
  split; unfold ComparePciCap, ComparePciCapKey; intros.
  - apply compare_keys_flip.
  - rewrite compare_keys_lt in *. lia.
  - match goal with He : _ = 0 |- _ => apply compare_keys_eq in He as -> end. done.
  - match goal with He : _ = 0 |- _ => apply compare_keys_eq in He as <- end. done.
Qed.

#[export] Instance ComparePciCapKey_order mem : KeyOrder (ComparePciCap mem) (ComparePciCapKey mem).
Proof.
  split; unfold ComparePciCap, ComparePciCapKey; intros key u v Hk Hlt.
  - destruct (decide (compare_keys key (key_at mem u) = 0)) as [->%compare_keys_eq|Hne]; [done|].
    assert (Hk' : compare_keys key (key_at mem u) < 0) by lia. rewrite compare_keys_lt in *. lia.
  - apply compare_keys_flip.
    destruct (decide (compare_keys key (key_at mem v) = 0)) as [->%compare_keys_eq|Hne]; [done|].
    assert (Hk' : 0 < compare_keys key (key_at mem v)) by lia.
    apply compare_keys_flip in Hk'. rewrite compare_keys_lt in *. lia.
Qed.

#[export] Instance ComparePciCapOffset_order mem : UserOrder (ComparePciCapOffset mem).
Proof. split; unfold ComparePciCapOffset; lia. Qed.

(** ** Sequences of capabilities *)

Record desc := Desc { d_domain : PCI_CAP_DOMAIN; d_id : Z; d_offset : Z; d_version : Z }.

(** Two occurrences of the same capability. *)
Definition same_cap (d e : desc) : Prop := d_domain d = d_domain e ∧ d_id d = d_id e.

#[export] Instance same_cap_dec d e : Decision (same_cap d e).
Proof. unfold same_cap. apply _. Defined.

#[export] Instance same_cap_equiv : Equivalence same_cap.
Proof. split; [by split|by intros ? ? [? ?]|intros ? ? ? [? ?] [? ?]; split; congruence]. Qed.

(** A capability has its address and its description. *)
Abbreviation item := (positive * desc)%type.

Definition instances (d : desc) (l : list item) : list item := filter (λ x, same_cap d x.2) l.
Definition count (d : desc) (l : list item) : nat := length (instances d l).

(** The structure of the item [x] of the list [l], of which [l1] are the items
    before [x]. *)
Definition structure_of (hint : positive → Z) (l l1 : list item) (x : item) : PCI_CAP :=
  PciCap (CapKey (d_domain x.2) (d_id x.2) (Z.of_nat (count x.2 l1)))
    (match head (instances x.2 l1) with
     | None => NumInstances (Z.of_nat (count x.2 l))
     | Some z => InstanceZero z.1
     end) (d_offset x.2) (hint x.1) (d_version x.2).

Definition represents (mem : capmem) (hint : positive → Z) (l : list item) : Prop :=
  ∀ l1 x l2, l = l1 ++ x :: l2 → mem !! x.1 = Some (structure_of hint l l1 x).

Definition wf_desc (d : desc) : Prop :=
  Z.land (d_offset d) 3 = 0 ∧ 0 < d_offset d < config_size (d_domain d).

Section sequences.
Implicit Types (l : list item) (x z : item) (d e : desc) (mem : capmem) (hint : positive → Z).

Lemma instances_app d l1 l2 : instances d (l1 ++ l2) = instances d l1 ++ instances d l2.
Proof. apply filter_app. Qed.

Lemma instances_cons d x l :
  instances d (x :: l) = if decide (same_cap d x.2) then x :: instances d l else instances d l.
Proof. unfold instances. by rewrite filter_cons. Qed.

Lemma instances_same d e l : same_cap d e → instances d l = instances e l.
Proof.
  intros [H1 H2]. unfold instances. apply list_filter_iff. intros x. unfold same_cap. by rewrite H1, H2.
Qed.

Lemma count_app d l1 l2 : count d (l1 ++ l2) = (count d l1 + count d l2)%nat.
Proof. unfold count. by rewrite instances_app, length_app. Qed.

Lemma count_cons d x l :
  count d (x :: l) = ((if decide (same_cap d x.2) then 1 else 0) + count d l)%nat.
Proof. unfold count. rewrite instances_cons. by case_decide. Qed.

Lemma count_same d e l : same_cap d e → count d l = count e l.
Proof. intros Hs. unfold count. by rewrite (instances_same d e). Qed.

Lemma count_le d l : (count d l ≤ length l)%nat.
Proof. apply length_filter. Qed.

Lemma head_instances_None d l : head (instances d l) = None ↔ count d l = 0%nat.
Proof. unfold count. by destruct (instances d l). Qed.

(** The first instance, when there is one. *)
Lemma head_instances d l z : head (instances d l) = Some z →
  same_cap d z.2 ∧ ∃ l1 l2, l = l1 ++ z :: l2 ∧ count d l1 = 0%nat.
Proof.
  induction l as [|x l IH]; [done|]. rewrite instances_cons. case_decide as Hs; cbn.
  - intros [= ->]. split; [done|]. by exists [], l.
  - intros Hh. destruct (IH Hh) as (Hz & l1 & l2 & -> & Hc). split; [done|].
    exists (x :: l1), l2. split; [done|]. rewrite count_cons, decide_False; done.
Qed.

(** The n-th instance. *)
Lemma nth_instance d l n : (n < count d l)%nat →
  ∃ l1 z l2, l = l1 ++ z :: l2 ∧ same_cap d z.2 ∧ count d l1 = n.
Proof.
  revert n. induction l as [|x l IH]; intros n Hn; [by cbn in Hn; lia|]. rewrite count_cons in Hn.
  case_decide as Hs.
  - destruct n as [|n]; [by exists [], x, l|].
    destruct (IH n) as (l1 & z & l2 & -> & Hz & Hc); [lia|].
    exists (x :: l1), z, l2. split_and!; [done..|]. rewrite count_cons, decide_True by done. lia.
  - destruct (IH n) as (l1 & z & l2 & -> & Hz & Hc); [lia|].
    exists (x :: l1), z, l2. split_and!; [done..|]. rewrite count_cons, decide_False by done. lia.
Qed.

Lemma represents_at mem hint l1 x l2 : represents mem hint (l1 ++ x :: l2) →
  mem !! x.1 = Some (structure_of hint (l1 ++ x :: l2) l1 x).
Proof. intros Hr. by eapply Hr. Qed.

Lemma represents_key mem hint l1 x l2 : represents mem hint (l1 ++ x :: l2) →
  key_at mem x.1 = CapKey (d_domain x.2) (d_id x.2) (Z.of_nat (count x.2 l1)).
Proof. intros Hr. unfold key_at. by rewrite (represents_at _ _ _ _ _ Hr). Qed.

Lemma represents_offset mem hint l x : represents mem hint l → x ∈ l → offset_at mem x.1 = d_offset x.2.
Proof.
  intros Hr (l1 & l2 & ->)%list_elem_of_split. unfold offset_at.
  by rewrite (represents_at _ _ _ _ _ Hr).
Qed.

Lemma represents_alloc mem hint l p : represents mem hint l → p ∈ l.*1 → is_Some (mem !! p).
Proof.
  intros Hr ([q d] & -> & Hx)%list_elem_of_fmap. apply list_elem_of_split in Hx as (l1 & l2 & ->).
  by rewrite (represents_at _ _ _ _ _ Hr).
Qed.
End sequences.

(** ** One more capability *)

Section snoc.
Implicit Types (l : list item) (x z : item) (d e : desc) (mem : capmem) (hint : positive → Z).

Lemma structure_other hint l l1 x p d : ¬ same_cap x.2 d ∨ count x.2 l1 ≠ 0%nat →
  structure_of hint (l ++ [(p, d)]) l1 x = structure_of hint l l1 x.
Proof.
  intros Hx. unfold structure_of. f_equal. destruct (head (instances x.2 l1)) eqn:Hh; [done|].
  apply head_instances_None in Hh. f_equal. rewrite count_app, count_cons.
  rewrite decide_False by (cbn; tauto). cbn. lia.
Qed.

Lemma structure_first hint l l1 x p d : same_cap x.2 d → count x.2 l1 = 0%nat →
  structure_of hint (l ++ [(p, d)]) l1 x =
  set_num_instances (Z.of_nat (count d l) + 1) (structure_of hint l l1 x).
Proof.
  intros Hs Hc. unfold structure_of, set_num_instances. cbn.
  rewrite (proj2 (head_instances_None _ _) Hc). do 2 f_equal.
  rewrite (count_same _ _ _ Hs), count_app, count_cons, decide_True by done. cbn. lia.
Qed.

Lemma snoc_split l l1 l2 y x :
  l ++ [y] = l1 ++ x :: l2 → (l1 = l ∧ x = y) ∨ ∃ l2', l = l1 ++ x :: l2'.
Proof.
  destruct l2 as [|x' l2 _] using rev_ind.
  - intros [-> [= ->]]%app_inj_tail. by left.
  - rewrite app_comm_cons, app_assoc. intros [-> _]%app_inj_tail. right. by exists l2.
Qed.

Lemma represents_snoc mem hint l p d :
  mem !! p = Some (structure_of hint (l ++ [(p, d)]) l (p, d)) →
  (∀ l1 x l2, l = l1 ++ x :: l2 → mem !! x.1 = Some (structure_of hint (l ++ [(p, d)]) l1 x)) →
  represents mem hint (l ++ [(p, d)]).
Proof. intros Hp Hold l1 x l2 [[-> ->]|[l2' Hl]]%snoc_split; [done|]. by eapply Hold. Qed.

(** The first instance of a capability. *)
Lemma represents_first mem hint l p d :
  represents mem hint l → p ∉ l.*1 → count d l = 0%nat →
  represents (<[p := structure_of hint (l ++ [(p, d)]) l (p, d)]> mem) hint (l ++ [(p, d)]).
Proof.
  intros Hr Hp Hc. apply represents_snoc; [apply lookup_insert_eq|]. intros l1 x l2 Hl.
  assert (Hx : x ∈ l) by (subst l; set_solver).
  rewrite lookup_insert_ne by (intros ->; by apply Hp, list_elem_of_fmap_2).
  rewrite structure_other; [by eapply Hr|]. left. intros Hs%symmetry.
  unfold count, instances in Hc. apply length_zero_iff_nil in Hc.
  assert (Hin : x ∈ filter (λ x : item, same_cap d x.2) l) by (by apply list_elem_of_filter).
  rewrite Hc in Hin. by apply elem_of_nil in Hin.
Qed.

(** A further instance: the count in the first one goes up. *)
Lemma represents_again mem hint l p d z :
  represents mem hint l → p ∉ l.*1 → NoDup l.*1 → head (instances d l) = Some z →
  ∃ zc, mem !! z.1 = Some zc ∧ NumInstancesUnion zc = NumInstances (Z.of_nat (count d l)) ∧
    represents (<[z.1 := set_num_instances (Z.of_nat (count d l) + 1) zc]>
                 (<[p := structure_of hint (l ++ [(p, d)]) l (p, d)]> mem)) hint (l ++ [(p, d)]).
Proof.
  intros Hr Hp Hnd Hz. destruct (head_instances _ _ _ Hz) as (Hs & l1 & l2 & Hl & Hc).
  assert (Hzl : z ∈ l) by (rewrite Hl; set_solver).
  assert (Hzp : z.1 ≠ p) by (intros <-; by apply Hp, list_elem_of_fmap_2).
  rewrite (count_same _ _ _ Hs) in Hc.
  exists (structure_of hint l l1 z). split_and!.
  - by eapply Hr.
  - unfold structure_of. cbn. rewrite (proj2 (head_instances_None _ _) Hc). by rewrite (count_same _ _ l Hs).
  - apply represents_snoc; [by rewrite lookup_insert_ne, lookup_insert_eq|]. intros m1 x m2 Hm.
    assert (Hx : x ∈ l) by (rewrite Hm; set_solver).
    destruct (decide (x.1 = z.1)) as [Hxz|Hxz].
    + rewrite Hxz, lookup_insert_eq. destruct x as [q e], z as [q' e']. cbn in Hxz. subst q'.
      rewrite Hl in Hm. rewrite Hl in Hnd.
      destruct (NoDup_split_unique _ _ _ _ _ _ _ Hnd Hm) as (<- & <- & _).
      f_equal. symmetry. apply structure_first; [by symmetry|done].
    + rewrite lookup_insert_ne by done.
      rewrite lookup_insert_ne by (intros ->; by apply Hp, list_elem_of_fmap_2).
      rewrite structure_other; [by eapply Hr|].
      destruct (decide (same_cap x.2 d)) as [Hxd|]; [|by left]. right. intros Hcx.
      (* both would be the first instance *)
      apply Hxz. f_equal. assert (Hh : head (instances d l) = Some x); [|congruence].
      rewrite Hm, instances_app, (instances_same d x.2) by (by symmetry).
      apply length_zero_iff_nil in Hcx. rewrite Hcx, app_nil_l.
      rewrite (instances_same d x.2), instances_cons, decide_True by (done || by symmetry). done.
Qed.

(** Instance numbers are below the count. *)
Lemma count_before d l l1 x l2 : l = l1 ++ x :: l2 → same_cap d x.2 → (count d l1 < count d l)%nat.
Proof. intros -> Hs. rewrite count_app, count_cons, decide_True by done. lia. Qed.
End snoc.

(** ** Offsets *)

Definition offsets (l : list item) : list Z := (λ x : item, d_offset x.2) <$> l.

(** There are not more capabilities than double words of config space. *)
Lemma offsets_bound (l : list item) n :
  NoDup (offsets l) → (∀ x, x ∈ l → Z.land (d_offset x.2) 3 = 0 ∧ 0 < d_offset x.2 < 4 * Z.of_nat n) →
  (length l < Nat.max 1 n)%nat.
Proof.
  intros Hnd Hwf.
  assert (Hsub : ((λ o, o `div` 4) <$> offsets l) ⊆+ seqZ 1 (Z.of_nat n - 1)).
  { apply NoDup_submseteq.
    - assert (Hdiv : ∀ o, o ∈ offsets l → o = 4 * (o `div` 4)).
      { intros o (x & -> & Hx)%list_elem_of_fmap. destruct (Hwf x Hx) as [Hl _].
        change 3 with (Z.ones 2) in Hl. rewrite Z.land_ones in Hl by done.
        pose proof (Z.div_mod (d_offset x.2) 4). change (2 ^ 2) with 4 in Hl. lia. }
      clear Hwf. induction (offsets l) as [|o os IH]; cbn; [constructor|].
      apply NoDup_cons in Hnd as [Ho Hnd]. apply NoDup_cons. split.
      + intros (o' & Heq & Ho')%list_elem_of_fmap. apply Ho.
        rewrite (Hdiv o) by (by left). rewrite Heq, <-(Hdiv o') by (by right). done.
      + apply IH; [done|]. intros o' Ho'. apply Hdiv. by right.
    - intros z (o & -> & (x & -> & Hx)%list_elem_of_fmap)%list_elem_of_fmap.
      destruct (Hwf x Hx) as [Hl Hb]. apply elem_of_seqZ.
      change 3 with (Z.ones 2) in Hl. rewrite Z.land_ones in Hl by done. change (2 ^ 2) with 4 in Hl.
      pose proof (Z.div_mod (d_offset x.2) 4). pose proof (Z.mod_pos_bound (d_offset x.2) 4). lia. }
  apply submseteq_length in Hsub. unfold offsets in Hsub. rewrite !length_fmap, length_seqZ in Hsub. lia.
Qed.
