(* ===== verification/PciCapInsert.v ===== *)
(** * InsertPciCap

    The invariant of a capability list under construction, and InsertPciCap: it
    appends one capability to the sequence, or fails and rolls everything back. *)
From S2P Require Import Prelude CBase RbWalk OcInterface PciCap PciCapInv.
Local Open Scope Z_scope.

(** Sets of nodes. *)
Section node_sets.
Implicit Types (X Y P Q : gset positive).

Lemma nodes_add X P Q Q' a : X ## P → Q = P ∪ X → a ∉ Q → Q' = {[a]} ∪ Q →
  {[a]} ∪ X ## P ∧ Q' = P ∪ ({[a]} ∪ X).
Proof. set_solver. Qed.

Lemma nodes_drop X Y P Q Q' : X ## P → Q = P ∪ X → Y ⊆ X → Q' = Q ∖ Y → X ∖ Y ## P ∧ Q' = P ∪ (X ∖ Y).
Proof. set_solver. Qed.

Lemma nodes_add_drop X a : a ∉ X → ({[a]} ∪ X) ∖ {[a]} = X.
Proof. set_solver. Qed.

Lemma nodes_union_drop X Y : X ## Y → (X ∪ Y) ∖ Y = X.
Proof. set_solver. Qed.

Lemma nodes_two X Y a b : {[b]} ∪ ({[a]} ∪ (X ∪ Y)) = ({[a]} ∪ X) ∪ ({[b]} ∪ Y).
Proof. set_solver. Qed.

Lemma nodes_two_disjoint X Y a b : X ## Y → a ∉ Y → b ∉ {[a]} ∪ (X ∪ Y) → {[a]} ∪ X ## {[b]} ∪ Y.
Proof. set_solver. Qed.
End node_sets.

Section collections.
Context {S C : Type} `{HL : OrderedCollectionLaws positive S C}.
Implicit Types (s : S) (c Coll : C) (es : list (positive * positive)) (ps : list positive).

(** The nodes of a collection. *)
Definition own es : gset positive := list_to_set es.*1.

(** Pool [s] is pool [s0] with the nodes [X] in use, too, and without a change to
    the collections of [s0]. *)
Record owns s0 s (X : gset positive) : Prop := Owns {
  owns_new : X ## pool s0;
  owns_pool : pool s = pool s0 ∪ X;
  owns_keep c es : contents s0 c es → contents s c es }.

(** A collection of the structures [ps]. *)
Record ordered s (cmp : positive → positive → Z) c es ps : Prop := Ordered {
  ord_contents : contents s c es;
  ord_asc : ascending cmp es;
  ord_perm : es.*2 ≡ₚ ps }.

Lemma elem_own es a : a ∈ own es ↔ a ∈ es.*1.
Proof. unfold own. apply elem_of_list_to_set. Qed.

Lemma own_nil : own [] = ∅.
Proof. done. Qed.

Lemma own_mid es1 a p es2 : own (es1 ++ (a, p) :: es2) = {[a]} ∪ own (es1 ++ es2).
Proof. unfold own. rewrite !fmap_app, fmap_cons, !list_to_set_app_L. cbn. set_solver. Qed.

(** The collections of [s0] keep their contents when a collection in [X] changes. *)
Lemma owns_change s0 s s' X Y es :
  owns s0 s X → own es ⊆ X → Y ## pool s0 → pool s' = pool s0 ∪ Y →
  (∀ c2 es', contents s c2 es' → (∀ x, x ∈ es'.*1 → x ∉ es.*1) → contents s' c2 es') →
  owns s0 s' Y.
Proof.
  intros [Hn Hp Hk] Hsub HY Hp' Hk'. split; [done..|].
  intros c2 es2 Hc2. apply Hk'; [by apply Hk|]. intros x Hx Hxe.
  assert (x ∈ pool s0) by (by eapply contents_pool). apply elem_own in Hxe. set_solver.
Qed.

Lemma owns_insert s0 s s' X es a :
  owns s0 s X → own es ⊆ X → a ∉ pool s → pool s' = {[a]} ∪ pool s →
  (∀ c2 es', contents s c2 es' → (∀ x, x ∈ es'.*1 → x ∉ es.*1) → contents s' c2 es') →
  owns s0 s' ({[a]} ∪ X).
Proof.
  intros Ho Hsub Ha Hp Hk. destruct (nodes_add X (pool s0) (pool s) (pool s') a) as [? ?]; [apply Ho..|done|done|].
  by eapply owns_change.
Qed.

Lemma owns_drop s0 s s' X es Y :
  owns s0 s X → own es ⊆ X → Y ⊆ X → pool s' = pool s ∖ Y →
  (∀ c2 es', contents s c2 es' → (∀ x, x ∈ es'.*1 → x ∉ es.*1) → contents s' c2 es') →
  owns s0 s' (X ∖ Y).
Proof.
  intros Ho Hsub HY Hp Hk. destruct (nodes_drop X Y (pool s0) (pool s) (pool s')) as [? ?]; [apply Ho..|done|done|].
  by eapply owns_change.
Qed.

(** One of two collections is released. *)
Lemma owns_release s0 s s' X es :
  owns s0 s (X ∪ own es) → X ## own es → pool s' = pool s ∖ own es →
  (∀ c2 es', contents s c2 es' → (∀ x, x ∈ es'.*1 → x ∉ es.*1) → contents s' c2 es') →
  owns s0 s' X.
Proof.
  intros Ho Hd Hp Hk. rewrite <-(nodes_union_drop X (own es)) by done.
  eapply owns_drop; [done|apply union_subseteq_r|apply union_subseteq_r|done..].
Qed.

(** The structures may change as long as the order of the members does not. *)
Lemma ordered_agree s cmp cmp' c es ps :
  (∀ p q, p ∈ ps → q ∈ ps → cmp p q = cmp' p q) → ordered s cmp c es ps → ordered s cmp' c es ps.
Proof.
  intros Hag [Hc Ha Hp]. split; [done| |done]. eapply ascending_agree; [|done].
  intros p q. rewrite Hp. apply Hag.
Qed.

Lemma ordered_mid s cmp c es1 a p es2 ps :
  ordered s cmp c (es1 ++ es2) ps → ∀ s' c',
  contents s' c' (es1 ++ (a, p) :: es2) → ascending cmp (es1 ++ (a, p) :: es2) →
  ordered s' cmp c' (es1 ++ (a, p) :: es2) (ps ++ [p]).
Proof.
  intros [_ _ Hp] s' c' Hc Ha. split; [done..|]. rewrite <-Hp, !fmap_app, fmap_cons. cbn.
  rewrite <-Permutation_middle, <-Permutation_cons_append. done.
Qed.
End collections.

Section state.
Context {D S C : Type} `{HL : OrderedCollectionLaws positive S C} `{HD : PciCapDev D} `{HA : CapAllocator}.
Implicit Types (st : pci_state D S) (c : C) (es : list (positive * positive)) (mem : capmem)
  (l : list item) (d : desc).

Definition with_nodes st (n : S) : pci_state D S := PciState (device st) n (caps st) (live_lists st).
Definition with_caps st mem : pci_state D S := PciState (device st) (nodes st) mem (live_lists st).

(** ** Execution *)

Lemma wp_on_nodes {A} (m : M S A) (Q : A → pci_state D S → Prop) st :
  wp m (λ x n, Q x (with_nodes st n)) (nodes st) → wp (on_nodes m) Q st.
Proof. unfold wp, on_nodes. by destruct (m (nodes st)) as [[x n]|]. Qed.

(** A query of the nodes. *)
Lemma wp_query {A} (m : M S A) (x : A) (Q : A → pci_state D S → Prop) st :
  m (nodes st) = Some (x, nodes st) → Q x st → wp (on_nodes m) Q st.
Proof. intros Hm HQ. unfold wp, on_nodes. rewrite Hm. by destruct st. Qed.

Lemma wp_get_caps (Q : capmem → pci_state D S → Prop) st : Q (caps st) st → wp get_caps Q st.
Proof. done. Qed.

Lemma wp_put_caps (Q : unit → pci_state D S → Prop) st mem :
  Q tt (with_caps st mem) → wp (put_caps mem) Q st.
Proof. done. Qed.

Lemma wp_get_cap (Q : PCI_CAP → pci_state D S → Prop) st p x :
  caps st !! p = Some x → Q x st → wp (get_cap p) Q st.
Proof. intros Hp HQ. unfold get_cap. wp_seq. apply wp_get_caps. by rewrite Hp. Qed.

Lemma wp_set_cap (Q : unit → pci_state D S → Prop) st p f x :
  caps st !! p = Some x → Q tt (with_caps st (<[p := f x]> (caps st))) → wp (set_cap p f) Q st.
Proof. intros Hp HQ. unfold set_cap. wp_seq. apply wp_get_caps. by rewrite Hp. Qed.

Lemma wp_free_cap (Q : unit → pci_state D S → Prop) st p :
  is_Some (caps st !! p) → Q tt (with_caps st (delete p (caps st))) → wp (free_cap p) Q st.
Proof. intros [x Hp] HQ. unfold free_cap. wp_seq. apply wp_get_caps. by rewrite Hp. Qed.

Lemma wp_num_instances (Q : Z → pci_state D S → Prop) st x n :
  NumInstancesUnion x = NumInstances n → Q n st → wp (num_instances x) Q st.
Proof. intros Hx HQ. unfold num_instances. by rewrite Hx. Qed.

Lemma wp_insert_with cmp `{!UserOrder (cmp (caps st))} c es out p (Q : Z * C * option positive → pci_state D S → Prop) :
  contents (nodes st) c es → ascending (cmp (caps st)) es →
  (∀ a u, (a, u) ∈ es → cmp (caps st) p u = 0 → Q (RETURN_ALREADY_STARTED, c, mjoin ((λ _, Some a) <$> out)) st) →
  (no_match (cmp (caps st) p) es → Q (RETURN_OUT_OF_RESOURCES, c, mjoin out) st) →
  (∀ a c' n' es1 es2, no_match (cmp (caps st) p) es → es = es1 ++ es2 →
     ascending (cmp (caps st)) (es1 ++ (a, p) :: es2) → contents n' c' (es1 ++ (a, p) :: es2) →
     a ∉ pool (nodes st) → pool n' = {[a]} ∪ pool (nodes st) →
     (∀ c2 es', contents (nodes st) c2 es' → (∀ x, x ∈ es'.*1 → x ∉ es.*1) → contents n' c2 es') →
     Q (RETURN_SUCCESS, c', mjoin ((λ _, Some a) <$> out)) (with_nodes st n')) →
  wp (insert_with cmp c out p) Q st.
Proof.
  intros Hc Ha Hcol Hoom Hnew. unfold insert_with. wp_seq. apply wp_get_caps. wp_seq.
  apply wp_on_nodes. eapply wp_mono; [by eapply law_Insert|].
  intros res n Hins. destruct Hins as [a u Hin Hu|Hno|a c' n' es1 es2 Hno He Hasc Hc' Hap Hp Hk];
    cbn beta iota; wp_seq; cbn.
  - destruct st. by eapply Hcol.
  - destruct st. by apply Hoom.
  - by eapply Hnew.
Qed.

Lemma wp_delete_with cmp `{!UserOrder (cmp (caps st))} c es1 a p es2 out
    (Q : C * option positive → pci_state D S → Prop) :
  contents (nodes st) c (es1 ++ (a, p) :: es2) → ascending (cmp (caps st)) (es1 ++ (a, p) :: es2) →
  (∀ c' n', contents n' c' (es1 ++ es2) → pool n' = pool (nodes st) ∖ {[a]} →
     (∀ c2 es', contents (nodes st) c2 es' → (∀ x, x ∈ es'.*1 → x ∉ (es1 ++ (a, p) :: es2).*1) →
        contents n' c2 es') →
     Q (c', (λ _, p) <$> out) (with_nodes st n')) →
  wp (delete_with cmp c (Some a) out) Q st.
Proof.
  intros Hc Ha HQ. unfold delete_with. wp_seq. apply wp_get_caps.
  apply wp_on_nodes. eapply wp_mono; [by eapply law_Delete|].
  intros [c' out'] n (-> & ? & ? & ?). by apply HQ.
Qed.

(** ** The invariant *)

(** [CapList] and [Hdr] order the structures of the sequence [l], by key and by
    offset; all memory of state [st0] is as it was. *)
Record cap_inv st0 st (CapList Hdr : C) es1 es2 l : Prop := CapInv {
  ci_key : ordered (nodes st) (ComparePciCap (caps st)) CapList es1 l.*1;
  ci_off : ordered (nodes st) (ComparePciCapOffset (caps st)) Hdr es2 l.*1;
  ci_rep : represents (caps st) (λ _, 0) l;
  ci_wf x : x ∈ l → wf_desc x.2;
  ci_nodup : NoDup l.*1;
  ci_offsets : NoDup (offsets l);
  ci_disj : own es1 ## own es2;
  ci_owns : owns (nodes st0) (nodes st) (own es1 ∪ own es2);
  ci_new p : p ∈ l.*1 → caps st0 !! p = None;
  ci_rest p : p ∉ l.*1 → caps st !! p = caps st0 !! p }.

Lemma cap_inv_length st0 st CapList Hdr es1 es2 l :
  cap_inv st0 st CapList Hdr es1 es2 l → (length l < 1024)%nat.
Proof.
  intros Hi. apply (offsets_bound l 1024); [apply Hi|]. intros x Hx.
  destruct (ci_wf _ _ _ _ _ _ _ Hi x Hx) as [Hl Ho]. split; [done|].
  unfold config_size, PCI_MAX_CONFIG_OFFSET, PCI_EXP_MAX_CONFIG_OFFSET in Ho. case_decide; lia.
Qed.

(** ** Linking by offset

    [p] has just been linked by key, as the next item of the sequence. *)

Lemma key_agree mem mem' p q : mem !! p = mem' !! p → mem !! q = mem' !! q →
  ComparePciCap mem p q = ComparePciCap mem' p q.
Proof. intros Hp Hq. unfold ComparePciCap, ComparePciCapKey, key_at. by rewrite Hp, Hq. Qed.

Lemma off_agree mem mem' p q : mem !! p = mem' !! p → mem !! q = mem' !! q →
  ComparePciCapOffset mem p q = ComparePciCapOffset mem' p q.
Proof. intros Hp Hq. unfold ComparePciCapOffset, offset_at. by rewrite Hp, Hq. Qed.

(** Counting an instance does not move the structure in either order. *)
Lemma key_at_count mem z zc n q : mem !! z = Some zc →
  key_at (<[z := set_num_instances n zc]> mem) q = key_at mem q.
Proof.
  intros Hz. unfold key_at. destruct (decide (q = z)) as [->|].
  - by rewrite lookup_insert_eq, Hz.
  - by rewrite lookup_insert_ne.
Qed.

Lemma offset_at_count mem z zc n q : mem !! z = Some zc →
  offset_at (<[z := set_num_instances n zc]> mem) q = offset_at mem q.
Proof.
  intros Hz. unfold offset_at. destruct (decide (q = z)) as [->|].
  - by rewrite lookup_insert_eq, Hz.
  - by rewrite lookup_insert_ne.
Qed.

(** What InsertPciCap has done. *)
Definition insert_post st0 st l d (r : Z * C * C) st' : Prop :=
  let '(Status, CapList, Hdr) := r in
  device st' = device st ∧ live_lists st' = live_lists st ∧
  ∃ es1 es2,
    (Status = RETURN_SUCCESS ∧ ∃ p, cap_inv st0 st' CapList Hdr es1 es2 (l ++ [(p, d)])) ∨
    ((Status = RETURN_OUT_OF_RESOURCES ∨ (Status = RETURN_DEVICE_ERROR ∧ d_offset d ∈ offsets l)) ∧
     cap_inv st0 st' CapList Hdr es1 es2 l).

(** The state between the two insertions: [p] is linked by key at node [a]. *)
Record linked_key st (mem1 : capmem) (CapList : C) n es1a a p es1b l d : Prop := LinkedKey {
  lk_fresh : caps st !! p = None;
  lk_mem : mem1 = <[p := structure_of (λ _, 0) (l ++ [(p, d)]) l (p, d)]> (caps st);
  lk_contents : contents n CapList (es1a ++ (a, p) :: es1b);
  lk_asc : ascending (ComparePciCap mem1) (es1a ++ (a, p) :: es1b);
  lk_node : a ∉ pool (nodes st);
  lk_pool : pool n = {[a]} ∪ pool (nodes st);
  lk_keep c2 es' : contents (nodes st) c2 es' → (∀ x, x ∈ es'.*1 → x ∉ (es1a ++ es1b).*1) →
    contents n c2 es' }.

Section middle.
Context st0 st (c0 CapList Hdr : C) (es1a : list (positive * positive)) (a p : positive)
  (es1b es2 : list (positive * positive)) l d mem1 (n : S).
Context (Hinv : cap_inv st0 st c0 Hdr (es1a ++ es1b) es2 l).
Context (Hlk : linked_key st mem1 CapList n es1a a p es1b l d).

Lemma linked_p_new : p ∉ l.*1.
Proof.
  intros Hp. destruct (represents_alloc _ _ _ _ (ci_rep _ _ _ _ _ _ _ Hinv) Hp) as [x Hx].
  by rewrite (lk_fresh _ _ _ _ _ _ _ _ _ _ Hlk) in Hx.
Qed.

Lemma linked_lookup q : q ≠ p → mem1 !! q = caps st !! q.
Proof. intros Hq. rewrite (lk_mem _ _ _ _ _ _ _ _ _ _ Hlk). by rewrite lookup_insert_ne. Qed.

Lemma linked_old q : q ∈ l.*1 → mem1 !! q = caps st !! q.
Proof. intros Hq. apply linked_lookup. intros ->. by apply linked_p_new. Qed.

Lemma linked_disj_hdr x : x ∈ es2.*1 → x ∉ (es1a ++ es1b).*1.
Proof. intros Hx2 Hx1. apply (ci_disj _ _ _ _ _ _ _ Hinv x); by apply elem_own. Qed.

Lemma linked_hdr : contents n Hdr es2.
Proof.
  eapply (lk_keep _ _ _ _ _ _ _ _ _ _ Hlk); [apply (ci_off _ _ _ _ _ _ _ Hinv)|]. apply linked_disj_hdr.
Qed.

Lemma linked_a_hdr : a ∉ es2.*1.
Proof.
  intros Ha. apply (lk_node _ _ _ _ _ _ _ _ _ _ Hlk).
  eapply contents_pool; [apply (ci_off _ _ _ _ _ _ _ Hinv)|done].
Qed.

Lemma linked_hdr_asc : ascending (ComparePciCapOffset mem1) es2.
Proof.
  eapply ascending_agree; [|apply (ci_off _ _ _ _ _ _ _ Hinv)]. intros u v Hu Hv.
  rewrite (ord_perm _ _ _ _ _ (ci_off _ _ _ _ _ _ _ Hinv)) in Hu, Hv.
  by apply off_agree; rewrite linked_old.
Qed.

Lemma linked_owns : owns (nodes st0) n ({[a]} ∪ (own (es1a ++ es1b) ∪ own es2)).
Proof.
  destruct Hlk as [_ _ _ _ Hnode Hpool Hkeep].
  by eapply (owns_insert _ (nodes st) _ _ (es1a ++ es1b)); [apply Hinv|set_solver|..].
Qed.

(** Undoing the first insertion. *)
Lemma linked_rollback c' n' :
  contents n' c' (es1a ++ es1b) → pool n' = pool n ∖ {[a]} →
  (∀ c2 es', contents n c2 es' → (∀ x, x ∈ es'.*1 → x ∉ (es1a ++ (a, p) :: es1b).*1) → contents n' c2 es') →
  cap_inv st0 (PciState (device st) n' (delete p mem1) (live_lists st)) c' Hdr (es1a ++ es1b) es2 l.
Proof.
  intros Hc Hp Hk. pose proof linked_owns as Ho.
  assert (Hmem : delete p mem1 = caps st).
  { rewrite (lk_mem _ _ _ _ _ _ _ _ _ _ Hlk). by rewrite delete_insert_id by apply Hlk. }
  assert (Ha := lk_node _ _ _ _ _ _ _ _ _ _ Hlk). rewrite Hmem.
  destruct Hinv as [Hkey Hoff Hrep Hwf Hnd Hofs Hdis Hown Hnew Hrest]. split; cbn; try done.
  - by split; [|apply Hkey..].
  - split; [|apply Hoff..]. apply Hk; [apply linked_hdr|]. intros x Hx.
    rewrite fmap_app, fmap_cons, elem_of_app, elem_of_cons. intros Hor.
    apply (linked_disj_hdr x Hx). rewrite fmap_app, elem_of_app.
    destruct Hor as [?|[->|?]]; [by left|by destruct linked_a_hdr|by right].
  - replace (own (es1a ++ es1b) ∪ own es2) with
      (({[a]} ∪ (own (es1a ++ es1b) ∪ own es2)) ∖ {[a]}).
    + eapply owns_drop; [exact Ho| |apply union_subseteq_l|exact Hp|exact Hk].
      rewrite own_mid. apply union_mono_l, union_subseteq_l.
    + apply nodes_add_drop. intros Hin. apply Ha. rewrite (owns_pool _ _ _ Hown). by apply elem_of_union_r.
Qed.

(** Both insertions have succeeded. *)
Lemma linked_done Hdr' es2a b es2b n2 mem2 :
  es2 = es2a ++ es2b → contents n2 Hdr' (es2a ++ (b, p) :: es2b) →
  ascending (ComparePciCapOffset mem1) (es2a ++ (b, p) :: es2b) →
  b ∉ pool n → pool n2 = {[b]} ∪ pool n →
  (∀ c2 es', contents n c2 es' → (∀ x, x ∈ es'.*1 → x ∉ es2.*1) → contents n2 c2 es') →
  wf_desc d → d_offset d ∉ offsets l → represents mem2 (λ _, 0) (l ++ [(p, d)]) →
  (∀ q, key_at mem2 q = key_at mem1 q) → (∀ q, offset_at mem2 q = offset_at mem1 q) →
  (∀ q, q ∉ (l ++ [(p, d)]).*1 → mem2 !! q = mem1 !! q) →
  cap_inv st0 (PciState (device st) n2 mem2 (live_lists st)) CapList Hdr'
    (es1a ++ (a, p) :: es1b) (es2a ++ (b, p) :: es2b) (l ++ [(p, d)]).
Proof.
  intros He2 Hc Hasc Hb Hp Hk Hwfd Hod Hrep2 Hkeys Hoffs Hrest2.
  pose proof linked_owns as Ho. pose proof linked_p_new as Hpn.
  destruct Hlk as [Hfresh _ Hlc Hla _ _ _].
  destruct Hinv as [Hkey Hoff Hrep Hwf Hnd Hofs Hdis Hown Hnew Hrest].
  assert (Hpool := owns_pool _ _ _ Ho).
  assert (Ho2 : owns (nodes st0) n2 ({[b]} ∪ ({[a]} ∪ (own (es1a ++ es1b) ∪ own es2)))).
  { eapply (owns_insert _ n _ _ es2); [exact Ho| |done..]. apply union_subseteq_r', union_subseteq_r. }
  assert (Ha2 : a ∉ own es2) by (rewrite elem_own; apply linked_a_hdr).
  split; cbn.
  - split.
    + apply Hk; [done|]. intros x Hx Hx2. apply elem_own in Hx, Hx2. rewrite own_mid in Hx.
      apply elem_of_union in Hx as [->%elem_of_singleton|Hx]; [done|by apply (Hdis x)].
    + eapply ascending_agree; [|exact Hla]. intros u v _ _.
      unfold ComparePciCap, ComparePciCapKey. by rewrite !Hkeys.
    + rewrite !fmap_app, fmap_cons. cbn. rewrite <-Permutation_middle, <-Permutation_cons_append.
      rewrite <-(ord_perm _ _ _ _ _ Hkey), fmap_app. done.
  - split; [done| |].
    + eapply ascending_agree; [|exact Hasc]. intros u v _ _. unfold ComparePciCapOffset. by rewrite !Hoffs.
    + rewrite !fmap_app, fmap_cons. cbn. rewrite <-Permutation_middle, <-Permutation_cons_append.
      rewrite <-(ord_perm _ _ _ _ _ Hoff), He2, fmap_app. done.
  - done.
  - intros x [Hx| ->%list_elem_of_singleton]%elem_of_app; [by apply Hwf|done].
  - rewrite fmap_app. apply NoDup_app. split_and!; [done| |apply NoDup_singleton].
    intros x Hx ->%list_elem_of_singleton. done.
  - unfold offsets. rewrite fmap_app. apply NoDup_app. split_and!; [done| |apply NoDup_singleton].
    intros x Hx ->%list_elem_of_singleton. done.
  - rewrite !own_mid, <-He2. apply nodes_two_disjoint; [done|done|]. intros Hin. apply Hb.
    rewrite Hpool. by apply elem_of_union_r.
  - rewrite !own_mid, <-He2, <-nodes_two. done.
  - intros q. rewrite fmap_app. intros [Hq| ->%list_elem_of_singleton]%elem_of_app; [by apply Hnew|].
    cbn. rewrite <-Hrest by done. done.
  - intros q Hq. rewrite Hrest2 by done. rewrite fmap_app, elem_of_app in Hq.
    rewrite linked_lookup; [apply Hrest|]; intros Hqq; apply Hq; [by left|right; subst; by left].
Qed.
(** The offset of the new structure, and those of the others. *)
Lemma linked_offsets u : u ∈ es2.*2 →
  ComparePciCapOffset mem1 p u = 0 ↔ ∃ x, x ∈ l ∧ x.1 = u ∧ d_offset x.2 = d_offset d.
Proof.
  intros Hu. rewrite (ord_perm _ _ _ _ _ (ci_off _ _ _ _ _ _ _ Hinv)) in Hu.
  assert (Hup : u ≠ p) by (intros ->; by apply linked_p_new).
  apply list_elem_of_fmap in Hu as (x & -> & Hx).
  assert (Hxo := represents_offset _ _ _ _ (ci_rep _ _ _ _ _ _ _ Hinv) Hx).
  unfold ComparePciCapOffset. unfold offset_at at 2. rewrite linked_lookup by done.
  unfold offset_at in Hxo. rewrite Hxo. unfold offset_at.
  rewrite (lk_mem _ _ _ _ _ _ _ _ _ _ Hlk), lookup_insert_eq. cbn. split.
  - intros Heq. exists x. split_and!; [done..|lia].
  - intros (y & Hy & Hyx & Hyo). assert (Hxy : x = y); [|subst; lia].
    destruct x as [q e], y as [q' e']. cbn in *. subst q'.
    assert (Hnd := ci_nodup _ _ _ _ _ _ _ Hinv).
    apply list_elem_of_split in Hx as (l1 & l2 & Hl). rewrite Hl in Hnd.
    apply list_elem_of_split in Hy as (m1 & m2 & Hm). rewrite Hl in Hm.
    destruct (NoDup_split_unique _ _ _ _ _ _ _ Hnd Hm) as (_ & <- & _). done.
Qed.

(** Counting the new instance in the first one. *)
Lemma link_offset_count (n2 : S) (Q : unit → pci_state D S → Prop) :
  wf_desc d →
  (∀ mem2, represents mem2 (λ _, 0) (l ++ [(p, d)]) →
     (∀ q, key_at mem2 q = key_at mem1 q) → (∀ q, offset_at mem2 q = offset_at mem1 q) →
     (∀ q, q ∉ (l ++ [(p, d)]).*1 → mem2 !! q = mem1 !! q) →
     Q tt (PciState (device st) n2 mem2 (live_lists st))) →
  wp (if 0 <? Z.of_nat (count d l) then
        match fst <$> head (instances d l) with
        | None => fails
        | Some z => zc ← get_cap z; m ← num_instances zc; set_cap z (set_num_instances (cast UINT16 (m + 1)))
        end
      else mret tt) Q (PciState (device st) n2 mem1 (live_lists st)).
Proof.
  intros Hwf HQ. pose proof linked_p_new as Hp.
  assert (Hrep := ci_rep _ _ _ _ _ _ _ Hinv). assert (Hmem := lk_mem _ _ _ _ _ _ _ _ _ _ Hlk).
  destruct (head (instances d l)) as [z|] eqn:Hz; cycle 1.
  { apply head_instances_None in Hz. rewrite Hz. cbn. apply wp_ret, HQ; [|done..].
    rewrite Hmem. by apply represents_first. }
  destruct (represents_again _ _ _ _ _ _ Hrep Hp (ci_nodup _ _ _ _ _ _ _ Hinv) Hz) as (zc & Hzc & Hu & Hr).
  destruct (head_instances _ _ _ Hz) as (_ & l1 & l2 & Hl & _).
  assert (Hzl : z.1 ∈ l.*1) by (rewrite Hl, fmap_app, elem_of_app; right; by left).
  assert (Hpos : (0 < count d l)%nat).
  { destruct (count d l) eqn:Hc; [|lia]. apply head_instances_None in Hc. congruence. }
  rewrite (proj2 (Z.ltb_lt _ _)) by lia. cbn [fmap option_fmap option_map].
  assert (Hz1 : mem1 !! z.1 = Some zc) by (by rewrite linked_old).
  wp_seq. apply (wp_get_cap _ _ _ zc); [done|]. wp_seq. apply (wp_num_instances _ _ _ _ Hu).
  apply (wp_set_cap _ _ _ _ zc); [done|]. unfold with_caps. cbn [caps device nodes live_lists].
  pose proof (cap_inv_length _ _ _ _ _ _ _ Hinv) as Hlen. pose proof (count_le d l) as Hcl.
  rewrite cast_id; [|done|cint_unfold; lia]. apply HQ.
  - rewrite Hmem. exact Hr.
  - intros q. by apply key_at_count.
  - intros q. by apply offset_at_count.
  - intros q Hq. apply lookup_insert_ne. intros <-. apply Hq. rewrite fmap_app, elem_of_app. by left.
Qed.

Lemma link_offset_spec : wf_desc d →
  wp (link_offset CapList Hdr p (Some a) RETURN_SUCCESS (fst <$> head (instances d l)))
    (insert_post st0 st l d) (PciState (device st) n mem1 (live_lists st)).
Proof.
  intros Hwf. assert (Hmem := lk_mem _ _ _ _ _ _ _ _ _ _ Hlk).
  assert (Hlc := lk_contents _ _ _ _ _ _ _ _ _ _ Hlk). assert (Hla := lk_asc _ _ _ _ _ _ _ _ _ _ Hlk).
  assert (Hp1 : is_Some (mem1 !! p)) by (by rewrite Hmem, lookup_insert_eq).
  unfold link_offset. wp_seq. apply wp_assert; [done|]. wp_seq.
  eapply (wp_insert_with ComparePciCapOffset); [exact linked_hdr|exact linked_hdr_asc|..].
  - intros b u Hin Hu. cbn beta iota.
    change (RETURN_ERROR RETURN_ALREADY_STARTED) with true. cbn iota. wp_seq.
    eapply (wp_delete_with ComparePciCap); [exact Hlc|exact Hla|]. intros c' n' Hc Hpl Hk. cbn.
    wp_seq. apply wp_free_cap; [done|]. wp_seq. cbn.
    split_and!; [done..|]. exists (es1a ++ es1b), es2. right. split.
    + right. split; [done|]. apply linked_offsets in Hu as (x & Hx & _ & Hxo).
      * rewrite <-Hxo. by apply (list_elem_of_fmap_2 (λ x : item, d_offset x.2)).
      * by apply (list_elem_of_fmap_2 snd _ (b, u)).
    + by apply linked_rollback.
  - intros Hno. cbn beta iota.
    change (RETURN_ERROR RETURN_OUT_OF_RESOURCES) with true. cbn iota. wp_seq.
    eapply (wp_delete_with ComparePciCap); [exact Hlc|exact Hla|]. intros c' n' Hc Hpl Hk. cbn.
    wp_seq. apply wp_free_cap; [done|]. wp_seq. cbn.
    split_and!; [done..|]. exists (es1a ++ es1b), es2. right. split; [by left|].
    by apply linked_rollback.
  - intros b c' n2 es2a es2b Hno He2 Hasc Hc Hb Hpl Hk. cbn beta iota.
    change (RETURN_ERROR RETURN_SUCCESS) with false. cbn iota. wp_seq.
    apply (wp_get_cap _ _ _ (structure_of (λ _, 0) (l ++ [(p, d)]) l (p, d))).
    { cbn. by rewrite Hmem, lookup_insert_eq. }
    wp_seq. cbn [Key structure_of Instance fst snd]. apply link_offset_count; [done|].
    intros mem2 Hrep Hkeys Hoffs Hrest. wp_seq. split_and!; [done..|].
    exists (es1a ++ (a, p) :: es1b), (es2a ++ (b, p) :: es2b). left. split; [done|]. exists p.
    eapply linked_done; try done. intros (x & Hxo & Hx)%list_elem_of_fmap.
    assert (Hxe : x.1 ∈ es2.*2).
    { rewrite (ord_perm _ _ _ _ _ (ci_off _ _ _ _ _ _ _ Hinv)). by apply list_elem_of_fmap_2. }
    apply list_elem_of_fmap in Hxe as ([b' u] & Hxu & Hin). cbn in Hxu. subst u.
    apply (Hno _ Hin). cbn. apply linked_offsets; [by apply (list_elem_of_fmap_2 snd _ (b', x.1))|].
    by exists x.
Qed.
End middle.

(** ** Linking by key *)

Section insert.
Context st0 st (CapList Hdr : C) (es1 es2 : list (positive * positive)) l d (p : positive).
Context (Hinv : cap_inv st0 st CapList Hdr es1 es2 l) (Hp : caps st !! p = None).

Lemma fresh_not_member : p ∉ l.*1.
Proof.
  intros Hin. destruct (represents_alloc _ _ _ _ (ci_rep _ _ _ _ _ _ _ Hinv) Hin) as [x Hx]. congruence.
Qed.

(** A new structure does not disturb the order of the others. *)
Lemma fresh_key_asc x : ascending (ComparePciCap (<[p := x]> (caps st))) es1.
Proof.
  eapply ascending_agree; [|apply (ci_key _ _ _ _ _ _ _ Hinv)]. intros u v Hu Hv.
  rewrite (ord_perm _ _ _ _ _ (ci_key _ _ _ _ _ _ _ Hinv)) in Hu, Hv. pose proof fresh_not_member.
  apply key_agree; rewrite lookup_insert_ne; congruence.
Qed.

Lemma fresh_compare x u : u ∈ es1.*2 →
  ComparePciCap (<[p := x]> (caps st)) p u = compare_keys (Key x) (key_at (caps st) u).
Proof.
  intros Hu. rewrite (ord_perm _ _ _ _ _ (ci_key _ _ _ _ _ _ _ Hinv)) in Hu. pose proof fresh_not_member.
  unfold ComparePciCap, ComparePciCapKey, key_at.
  rewrite lookup_insert_eq, lookup_insert_ne by congruence. done.
Qed.

(** Which instance has which key. *)
Lemma member_key u k : u ∈ es1.*2 → key_at (caps st) u = CapKey (d_domain d) (d_id d) k →
  ∃ l1 x l2, l = l1 ++ x :: l2 ∧ x.1 = u ∧ same_cap d x.2 ∧ k = Z.of_nat (count d l1).
Proof.
  intros Hu Hk. rewrite (ord_perm _ _ _ _ _ (ci_key _ _ _ _ _ _ _ Hinv)) in Hu.
  apply list_elem_of_fmap in Hu as (x & -> & (l1 & l2 & Hl)%list_elem_of_split).
  assert (Hrep := ci_rep _ _ _ _ _ _ _ Hinv). rewrite Hl in Hrep.
  rewrite (represents_key _ _ _ _ _ Hrep) in Hk. injection Hk as Hd Hi Hc.
  exists l1, x, l2. assert (Hs : same_cap d x.2) by by split.
  split_and!; [done..|]. rewrite (count_same _ _ _ Hs). done.
Qed.

Lemma member_entry l1 x l2 : l = l1 ++ x :: l2 → x.1 ∈ es1.*2.
Proof.
  intros Hl. rewrite (ord_perm _ _ _ _ _ (ci_key _ _ _ _ _ _ _ Hinv)), Hl, fmap_app, elem_of_app. right. by left.
Qed.

Lemma insert_failed : cap_inv st0 (with_caps st (delete p (<[p := structure_of (λ _, 0) (l ++ [(p, d)]) l (p, d)]> (caps st))))
  CapList Hdr es1 es2 l.
Proof. rewrite delete_insert_id by done. by destruct st. Qed.

Let new := structure_of (λ _, 0) (l ++ [(p, d)]) l (p, d).

(** The rest of InsertPciCap once the structure has its final key. *)
Lemma insert_keyed (Q : Z * C * option positive → pci_state D S → Prop) :
  (Q (RETURN_OUT_OF_RESOURCES, CapList, None) (with_caps st (<[p := new]> (caps st)))) →
  (∀ es1a a es1b c' n, es1 = es1a ++ es1b → linked_key st (<[p := new]> (caps st)) c' n es1a a p es1b l d →
     Q (RETURN_SUCCESS, c', Some a) (PciState (device st) n (<[p := new]> (caps st)) (live_lists st))) →
  wp (insert_with ComparePciCap CapList (Some None) p) Q (with_caps st (<[p := new]> (caps st))).
Proof.
  intros Hoom Hok. eapply (wp_insert_with ComparePciCap).
  - apply (ci_key _ _ _ _ _ _ _ Hinv).
  - apply fresh_key_asc.
  - intros a u Hin Hu. exfalso. assert (Hu' : u ∈ es1.*2) by by apply (list_elem_of_fmap_2 snd _ (a, u)).
    cbn [caps with_caps] in Hu. rewrite fresh_compare in Hu by done.
    apply compare_keys_eq in Hu. symmetry in Hu. cbn in Hu.
    destruct (member_key _ _ Hu' Hu) as (l1 & x & l2 & Hl & _ & Hs & Hc).
    pose proof (count_before _ _ _ _ _ Hl Hs). lia.
  - intros _. exact Hoom.
  - intros a c' n es1a es1b Hno He Hasc Hc Ha Hpl Hk. apply (Hok es1a a es1b); [done|]. subst es1. by split.
Qed.
Let found (x : PCI_CAP) : capmem := <[p := x]> (caps st).
Let cap0 : PCI_CAP := PciCap (CapKey (d_domain d) (d_id d) 0) (NumInstances 1) (d_offset d) 0 (d_version d).

(** The first attempt collides: with the first instance of the same capability. *)
Lemma collision_instance a u : (a, u) ∈ es1 → ComparePciCap (found cap0) p u = 0 →
  ∃ x zc es1a es1b, x.1 = u ∧ es1 = es1a ++ (a, u) :: es1b ∧ head (instances d l) = Some x ∧ u ≠ p ∧
    caps st !! u = Some zc ∧ NumInstancesUnion zc = NumInstances (Z.of_nat (count d l)) ∧
    (0 < count d l)%nat ∧ set_instance (Z.of_nat (count d l)) u cap0 = new.
Proof.
  intros Hin Hu. assert (Hu2 : u ∈ es1.*2) by by apply (list_elem_of_fmap_2 snd _ (a, u)).
  unfold found in Hu. rewrite fresh_compare in Hu by done. apply compare_keys_eq in Hu. symmetry in Hu.
  destruct (member_key _ _ Hu2 Hu) as (l1 & x & l2 & Hl & <- & Hs & Hc).
  apply list_elem_of_split in Hin as (es1a & es1b & He).
  assert (Hhead : head (instances d l) = Some x).
  { rewrite Hl, instances_app. assert (Hz : count d l1 = 0%nat) by (cbn in Hc; lia).
    unfold count in Hz. apply length_zero_iff_nil in Hz. rewrite Hz, app_nil_l, instances_cons.
    by rewrite decide_True. }
  destruct (represents_again _ _ _ p d x (ci_rep _ _ _ _ _ _ _ Hinv)) as (zc & Hzc & Hzu & _);
    [apply fresh_not_member|apply Hinv|done|].
  exists x, zc, es1a, es1b. split_and!; [done..|congruence|done|done| |].
  - pose proof (count_before _ _ _ _ _ Hl Hs). lia.
  - unfold set_instance, new, structure_of. cbn. by rewrite Hhead.
Qed.

(** The first attempt does not collide: there is no other instance. *)
Lemma no_collision : no_match (ComparePciCap (found cap0) p) es1 → count d l = 0%nat ∧ cap0 = new.
Proof.
  intros Hno. assert (Hzero : count d l = 0%nat).
  { destruct (count d l) as [|m] eqn:Hcd; [done|]. exfalso.
    destruct (nth_instance d l 0) as (l1 & x & l2 & Hl & Hs & Hc0); [lia|].
    assert (Hx := member_entry _ _ _ Hl).
    apply list_elem_of_fmap in Hx as ([b u] & Hxu & Hin). cbn in Hxu. subst u.
    apply (Hno _ Hin). cbn [snd]. unfold found.
    rewrite fresh_compare by (by apply (list_elem_of_fmap_2 snd _ (b, x.1))).
    apply compare_keys_eq. assert (Hrep := ci_rep _ _ _ _ _ _ _ Hinv). rewrite Hl in Hrep.
    rewrite (represents_key _ _ _ _ _ Hrep), <-(count_same _ _ l1 Hs), Hc0.
    by destruct Hs as [<- <-]. }
  split; [done|]. unfold new, structure_of. cbn.
  rewrite (proj2 (head_instances_None _ _) Hzero), count_app, count_cons, Hzero. by rewrite decide_True.
Qed.
End insert.

Lemma insert_post_out st0 st CapList Hdr es1 es2 l d p :
  cap_inv st0 st CapList Hdr es1 es2 l → caps st !! p = None →
  ∀ x, insert_post st0 st l d (RETURN_OUT_OF_RESOURCES, CapList, Hdr)
    (with_caps (with_caps st (<[p := x]> (caps st))) (delete p (<[p := x]> (caps st)))).
Proof.
  intros Hinv Hp x. split_and!; [done..|]. exists es1, es2. right. split; [by left|].
  rewrite delete_insert_id by done. by destruct st.
Qed.

Lemma InsertPciCap_spec st0 st CapList Hdr es1 es2 l d :
  cap_inv st0 st CapList Hdr es1 es2 l → wf_desc d →
  (d_domain d = PciCapExtended ∨ d_version d = 0) →
  wp (InsertPciCap CapList Hdr (d_domain d) (d_id d) (d_offset d) (d_version d))
    (insert_post st0 st l d) st.
Proof.
  intros Hinv Hwf Hver. unfold InsertPciCap.
  wp_seq. apply wp_assert; [by apply Z.eqb_eq, Hwf|].
  wp_seq. apply wp_assert; [apply Z.ltb_lt, Hwf|].
  wp_seq. apply wp_assert.
  { apply orb_true_iff. destruct Hver; [left; by apply bool_decide_eq_true|right; by apply Z.eqb_eq]. }
  wp_seq. apply wp_get_caps. destruct (AllocateCap (caps st)) as [[p garbage]|] eqn:Hal; cycle 1.
  { apply wp_ret. split_and!; [done..|]. exists es1, es2. right. split; [by left|done]. }
  apply AllocateCap_fresh in Hal as Hp.
  wp_seq. apply wp_put_caps. wp_seq.
  eapply (wp_insert_with ComparePciCap); [apply (ci_key _ _ _ _ _ _ _ Hinv)|by eapply fresh_key_asc|..];
    cbn beta iota.
  - intros a u Hin Hu. change (RETURN_ERROR RETURN_ALREADY_STARTED) with true.
    change (RETURN_ALREADY_STARTED =? RETURN_OUT_OF_RESOURCES) with false. cbn iota.
    wp_seq. apply wp_assert; [done|].
    destruct (collision_instance _ _ _ _ _ _ _ _ _ Hinv Hp _ _ Hin Hu)
      as (x & zc & es1a & es1b & <- & He & Hhead & Hxp & Hzc & Hzu & Hpos & Hnew).
    wp_seq. eapply wp_query.
    { cbn. eapply law_UserStruct. rewrite <-He. apply (ci_key _ _ _ _ _ _ _ Hinv). }
    wp_seq. apply (wp_get_cap _ _ _ zc); [by cbn; rewrite lookup_insert_ne|].
    wp_seq. apply (wp_num_instances _ _ _ _ Hzu).
    wp_seq. eapply wp_set_cap; [by cbn; rewrite lookup_insert_eq|].
    wp_seq. apply wp_assert; [apply Z.ltb_lt; lia|]. wp_seq.
    unfold with_caps. cbn [caps device nodes live_lists]. rewrite Hnew, insert_insert_eq.
    eapply insert_keyed; [exact Hinv|done|..]; cbn beta iota.
    + rewrite Z.eqb_refl. wp_seq. apply wp_free_cap; [by cbn; rewrite lookup_insert_eq|].
      wp_seq. by eapply insert_post_out.
    + intros es1a' a' es1b' c' n -> Hlk. clear He.
      change (RETURN_SUCCESS =? RETURN_OUT_OF_RESOURCES) with false. cbn iota.
      pose proof (link_offset_spec _ _ _ _ _ _ _ _ _ _ _ _ _ _ Hinv Hlk Hwf) as Hspec.
      by rewrite Hhead in Hspec.
  - intros _. change (RETURN_ERROR RETURN_OUT_OF_RESOURCES) with true. cbn iota. rewrite Z.eqb_refl.
    wp_seq. apply wp_free_cap; [by cbn; rewrite lookup_insert_eq|]. wp_seq. by eapply insert_post_out.
  - intros a c' n es1a es1b Hno -> Hasc Hc Ha Hpl Hk.
    change (RETURN_ERROR RETURN_SUCCESS) with false. cbn iota.
    destruct (no_collision _ _ _ _ _ _ _ _ _ Hinv Hp Hno) as [Hzero Hnew]. cbn [caps with_caps] in Hasc.
    rewrite Hnew in *. unfold with_caps. cbn [caps device nodes live_lists].
    assert (Hlk : linked_key st (<[p := structure_of (λ _, 0) (l ++ [(p, d)]) l (p, d)]> (caps st)) c' n es1a a p es1b l d)
      by by split.
    pose proof (link_offset_spec _ _ _ _ _ _ _ _ _ _ _ _ _ _ Hinv Hlk Hwf) as Hspec.
    by rewrite (proj2 (head_instances_None _ _) Hzero) in Hspec.
Qed.
End state.
