(* ===== verification/PciCapFree.v ===== *)
(** * Releasing a capability list

    EmptyAndUninitPciCapCollection and the error labels of PciCapListInit: whatever
    has been built is taken apart again, and all memory is as it was. *)
From S2P Require Import Prelude CBase RbWalk OcInterface PciCap PciCapInv PciCapInsert.
Local Open Scope Z_scope.

(** Comparison functions that read no other structures than their arguments. *)
Class LocalOrder (cmp : capmem → positive → positive → Z) : Prop := {
  local_order mem : UserOrder (cmp mem);
  local_agree mem mem' p q : mem !! p = mem' !! p → mem !! q = mem' !! q → cmp mem p q = cmp mem' p q }.
#[export] Existing Instance local_order.

#[export] Instance ComparePciCap_local : LocalOrder ComparePciCap.
Proof. split; [apply _|apply key_agree]. Qed.
#[export] Instance ComparePciCapOffset_local : LocalOrder ComparePciCapOffset.
Proof. split; [apply _|apply off_agree]. Qed.

(** Several structures released. *)
Definition free_all (ps : list positive) (mem : capmem) : capmem := foldr delete mem ps.

Lemma lookup_free_all ps mem q : free_all ps mem !! q = if decide (q ∈ ps) then None else mem !! q.
Proof.
  induction ps as [|p ps IH]; [by rewrite decide_False by apply not_elem_of_nil|].
  change (free_all (p :: ps) mem) with (delete p (free_all ps mem)).
  destruct (decide (q = p)) as [->|Hne].
  - rewrite lookup_delete_eq, decide_True; [done|by left].
  - rewrite lookup_delete_ne by done. rewrite IH.
    destruct (decide (q ∈ ps)); [rewrite decide_True|rewrite decide_False]; rewrite ?elem_of_cons; tauto.
Qed.

Lemma free_all_delete p ps mem : free_all ps (delete p mem) = free_all (p :: ps) mem.
Proof.
  apply map_eq. intros q. rewrite !lookup_free_all.
  destruct (decide (q = p)) as [->|Hne].
  - rewrite lookup_delete_eq, (decide_True (P := p ∈ p :: ps)) by (by left). by case_decide.
  - rewrite lookup_delete_ne by done. rewrite (decide_ext (q ∈ ps) (q ∈ p :: ps)); [done|].
    rewrite elem_of_cons. tauto.
Qed.

Section free.
Context {D S C : Type} `{HL : OrderedCollectionLaws positive S C} `{HD : PciCapDev D} `{HA : CapAllocator}.
Context (cmp : capmem → positive → positive → Z) `{!LocalOrder cmp}.
Implicit Types (st : pci_state D S) (c : C) (es : list (positive * positive)) (mem : capmem) (free : bool).

Lemma empty_loop_spec fuel c es free st (Q : C → pci_state D S → Prop) :
  contents (nodes st) c es → ascending (cmp (caps st)) es → (length es < fuel)%nat →
  (free = true → NoDup es.*2 ∧ ∀ p, p ∈ es.*2 → is_Some (caps st !! p)) →
  (∀ c' n', contents n' c' [] → pool n' = pool (nodes st) ∖ own es →
     (∀ c2 es', contents (nodes st) c2 es' → (∀ x, x ∈ es'.*1 → x ∉ es.*1) → contents n' c2 es') →
     Q c' (PciState (device st) n' (if free then free_all es.*2 (caps st) else caps st) (live_lists st))) →
  wp (empty_loop fuel cmp c free (fst <$> head es)) Q st.
Proof.
  revert c es st. induction fuel as [|fuel IH]; intros c es st Hc Ha Hf Hfree HQ; [lia|].
  destruct es as [|[a p] es]; cbn [fmap option_fmap option_map head fst].
  { cbn [empty_loop]. apply wp_ret. destruct st. replace (if free then _ else _) with caps in HQ by (by destruct free).
    apply HQ; [done|set_solver|done]. }
  cbn [empty_loop]. wp_seq. eapply wp_query; [by apply (law_Next _ c [] a p es)|].
  wp_seq. apply (wp_delete_with cmp c [] a p es); [done|done|]. intros c' n' Hc' Hp Hk. cbn beta iota.
  assert (Hnext : ∀ mem', (∀ q, q ∈ es.*2 → mem' !! q = caps st !! q) →
      (free = true → NoDup es.*2 ∧ ∀ q, q ∈ es.*2 → is_Some (mem' !! q)) →
      (if free then free_all es.*2 mem' else mem') = (if free then free_all (p :: es.*2) (caps st) else caps st) →
      wp (empty_loop fuel cmp c' free (fst <$> head es)) Q (PciState (device st) n' mem' (live_lists st))).
  { intros mem' Hsame Hfr Hmem. apply IH; cbn; [done| |cbn in Hf; lia|done|].
    - apply StronglySorted_cons in Ha as [_ Ha]. eapply ascending_agree; [|exact Ha].
      intros u v Hu Hv. apply local_agree; symmetry; by apply Hsame.
    - rewrite Hmem. intros c2 n2 Hc2 Hp2 Hk2. apply HQ; [done| |].
      + rewrite Hp2, Hp. unfold own. cbn. set_solver.
      + intros c3 es3 Hc3 Hd. apply Hk2; [apply Hk; [done|]|]; intros x Hx; specialize (Hd x Hx);
          cbn in *; set_solver. }
  destruct free; cbn [fmap option_fmap option_map].
  - destruct (Hfree eq_refl) as [Hnd Hal]. cbn in Hnd, Hal. apply NoDup_cons in Hnd as [Hpn Hnd].
    wp_seq. apply wp_free_cap; [apply Hal; by left|].
    apply Hnext.
    + intros q Hq. cbn. apply lookup_delete_ne. by intros ->.
    + intros _. split; [done|]. intros q Hq. cbn. rewrite lookup_delete_ne by (by intros ->).
      apply Hal. by right.
    + apply free_all_delete.
  - wp_seq. by apply Hnext.
Qed.

(** The number of entries is bounded by the number of structures. *)
Lemma wp_caps_fuel es st (Q : nat → pci_state D S → Prop) :
  NoDup es.*2 → (∀ p, p ∈ es.*2 → is_Some (caps st !! p)) →
  (∀ fuel, (length es < fuel)%nat → Q fuel st) → wp caps_fuel Q st.
Proof.
  intros Hnd Hal HQ. unfold caps_fuel. wp_seq. apply wp_get_caps. wp_seq. apply HQ.
  assert (Hsub : list_to_set (C := gset positive) es.*2 ⊆ dom (caps st)).
  { intros p Hp. apply elem_of_dom, Hal. by apply elem_of_list_to_set in Hp. }
  apply subseteq_size in Hsub. rewrite size_list_to_set, size_dom, length_fmap in Hsub by done. lia.
Qed.

Lemma empty_spec c es free st (Q : unit → pci_state D S → Prop) :
  contents (nodes st) c es → ascending (cmp (caps st)) es →
  NoDup es.*2 → (∀ p, p ∈ es.*2 → is_Some (caps st !! p)) →
  (∀ n', pool n' = pool (nodes st) ∖ own es →
     (∀ c2 es', contents (nodes st) c2 es' → (∀ x, x ∈ es'.*1 → x ∉ es.*1) → contents n' c2 es') →
     Q tt (PciState (device st) n' (if free then free_all es.*2 (caps st) else caps st) (live_lists st))) →
  wp (EmptyAndUninitPciCapCollection cmp c free) Q st.
Proof.
  intros Hc Ha Hnd Hal HQ. unfold EmptyAndUninitPciCapCollection. wp_seq.
  apply (wp_caps_fuel es); [done..|]. intros fuel Hf.
  wp_seq. eapply wp_query; [by apply law_Min|].
  wp_seq. apply (empty_loop_spec fuel _ es); [done..|]. intros c' n' Hc' Hp Hk.
  eapply wp_query; [by apply law_Uninit|]. by apply HQ.
Qed.
End free.

Section restore.
Context {D S C : Type} `{HL : OrderedCollectionLaws positive S C} `{HD : PciCapDev D} `{HA : CapAllocator}.
Implicit Types (st : pci_state D S) (c : C) (es : list (positive * positive)) (mem : capmem) (l : list item).

(** All memory is as it was in [st0]: no node and no structure is left over, and
    every collection there was has its entries. *)
Record restored st0 st : Prop := Restored {
  restored_pool : pool (nodes st) = pool (nodes st0);
  restored_caps : caps st = caps st0;
  restored_keep c es : contents (nodes st0) c es → contents (nodes st) c es }.

(** A finished list: the structures of the sequence [l] with their size hints, in
    one collection. *)
Record cap_list st0 st (hint : positive → Z) (CapList : C) es l : Prop := CapListOk {
  cl_key : ordered (nodes st) (ComparePciCap (caps st)) CapList es l.*1;
  cl_rep : represents (caps st) hint l;
  cl_wf x : x ∈ l → wf_desc x.2;
  cl_nodup : NoDup l.*1;
  cl_owns : owns (nodes st0) (nodes st) (own es);
  cl_new p : p ∈ l.*1 → caps st0 !! p = None;
  cl_rest p : p ∉ l.*1 → caps st !! p = caps st0 !! p }.

Lemma cap_list_nodup st0 st hint CapList es l : cap_list st0 st hint CapList es l → NoDup es.*2.
Proof. intros Hc. rewrite (ord_perm _ _ _ _ _ (cl_key _ _ _ _ _ _ Hc)). apply Hc. Qed.

Lemma cap_list_alloc st0 st hint CapList es l p :
  cap_list st0 st hint CapList es l → p ∈ es.*2 → is_Some (caps st !! p).
Proof.
  intros Hc Hp. rewrite (ord_perm _ _ _ _ _ (cl_key _ _ _ _ _ _ Hc)) in Hp.
  eapply represents_alloc; [apply Hc|done].
Qed.

Lemma free_all_rest ps mem mem0 :
  (∀ p, p ∈ ps → mem0 !! p = None) → (∀ p, p ∉ ps → mem !! p = mem0 !! p) → free_all ps mem = mem0.
Proof.
  intros Hnew Hrest. apply map_eq. intros q. rewrite lookup_free_all.
  case_decide as Hq; [by rewrite Hnew|by apply Hrest].
Qed.

(** Releasing the owning collection. *)
Lemma free_list_spec st0 st hint CapList es l (Q : unit → pci_state D S → Prop) :
  cap_list st0 st hint CapList es l →
  (∀ st', restored st0 st' → device st' = device st → live_lists st' = live_lists st → Q tt st') →
  wp (EmptyAndUninitPciCapCollection ComparePciCap CapList true) Q st.
Proof.
  intros Hcl HQ.
  apply (empty_spec ComparePciCap CapList es true).
  - apply (cl_key _ _ _ _ _ _ Hcl).
  - apply (cl_key _ _ _ _ _ _ Hcl).
  - by eapply cap_list_nodup.
  - intros p. by eapply cap_list_alloc.
  - intros n' Hp Hk. destruct Hcl as [Hkey Hrep _ Hnd [Hn Hpool Hkeep] Hnew Hrest].
    apply HQ; [|done..]. split; cbn.
    + set_solver.
    + apply free_all_rest; intros p Hp'; [apply Hnew|apply Hrest];
        by rewrite (ord_perm _ _ _ _ _ Hkey) in Hp'.
    + intros c2 es2 Hc2. apply Hk; [by apply Hkeep|]. intros x Hx Hxe.
      apply (contents_pool _ _ _ _ Hc2) in Hx. apply elem_own in Hxe. set_solver.
Qed.

(** Releasing the offset collection of a list under construction. *)
Lemma free_offsets_spec st0 st CapList Hdr es1 es2 l (Q : unit → pci_state D S → Prop) :
  cap_inv st0 st CapList Hdr es1 es2 l →
  (∀ st', cap_list st0 st' (λ _, 0) CapList es1 l → device st' = device st →
     live_lists st' = live_lists st → Q tt st') →
  wp (EmptyAndUninitPciCapCollection ComparePciCapOffset Hdr false) Q st.
Proof.
  intros Hci HQ. assert (Hoff := ci_off _ _ _ _ _ _ _ Hci).
  apply (empty_spec ComparePciCapOffset Hdr es2 false); [apply Hoff..| | |].
  - rewrite (ord_perm _ _ _ _ _ Hoff). apply Hci.
  - intros p Hp. rewrite (ord_perm _ _ _ _ _ Hoff) in Hp. eapply represents_alloc; [apply Hci|done].
  - intros n' Hp Hk. destruct Hci as [Hkey _ Hrep Hwf Hnd Hofs Hdis Hown Hnew Hrest].
    assert (Hdisj : ∀ x, x ∈ es1.*1 → x ∉ es2.*1).
    { intros x Hx1 Hx2. apply (Hdis x); by apply elem_own. }
    apply HQ; [|done..]. split; cbn; try done.
    + destruct Hkey as [Hc Ha Hpm]. split; [by apply Hk|done..].
    + by eapply owns_release.
Qed.

(** An error label has returned its status and no list. *)
Definition failed st0 st (Status : Z) (r : Z * option C) st' : Prop :=
  r = (Status, None) ∧ restored st0 st' ∧ device st' = device st ∧ live_lists st' = live_lists st - 1.

Lemma FreeOutCapList_spec st0 st Status :
  restored st0 st → RETURN_ERROR Status = true → wp (FreeOutCapList Status) (failed st0 st Status) st.
Proof. intros [? ? ?] He. unfold FreeOutCapList. rewrite He. cbn. by split_and!. Qed.

Lemma FreeCapabilities_spec st0 st hint CapList es l Status :
  cap_list st0 st hint CapList es l → RETURN_ERROR Status = true →
  wp (FreeCapabilities Status CapList) (failed st0 st Status) st.
Proof.
  intros Hcl He. unfold FreeCapabilities. wp_seq. eapply free_list_spec; [exact Hcl|].
  intros st' Hr Hd Hl. eapply wp_mono; [by apply FreeOutCapList_spec|].
  intros r st2 (-> & ? & ? & ?). split_and!; [done..|congruence|lia].
Qed.

Lemma FreeCapHdrOffsets_spec st0 st CapList Hdr es1 es2 l Status :
  cap_inv st0 st CapList Hdr es1 es2 l → RETURN_ERROR Status = true →
  wp (FreeCapHdrOffsets Status CapList Hdr) (failed st0 st Status) st.
Proof.
  intros Hci He. unfold FreeCapHdrOffsets. wp_seq. eapply free_offsets_spec; [exact Hci|].
  intros st' Hr Hd Hl. eapply wp_mono; [by eapply FreeCapabilities_spec|].
  intros r st2 (-> & ? & ? & ?). split_and!; [done..|congruence|lia].
Qed.
End restore.

(** ** Size hints

    The last part of PciCapListInit: the offset collection is evacuated in
    ascending order, and every structure learns how far it may extend. *)

(** The hint of [p], when [next] is the structure with the next higher offset. *)
Definition hint_value (mem : capmem) (p : positive) (next : option positive) : Z :=
  let size := config_size (Domain (key_at mem p)) in
  match next with
  | None => size - offset_at mem p
  | Some q => if offset_at mem q >=? size then size - offset_at mem p else offset_at mem q - offset_at mem p
  end.

(** The hint of [p] in the ascending sequence [ps]. *)
Fixpoint hint_in (mem : capmem) (ps : list positive) (p : positive) : Z :=
  match ps with
  | [] => 0
  | q :: ps => if decide (p = q) then hint_value mem q (head ps) else hint_in mem ps p
  end.

(** Memory with the hints of [ps] filled in. *)
Definition hinted (mem mem' : capmem) (ps : list positive) : Prop :=
  ∀ q, mem' !! q = if decide (q ∈ ps) then set_hint (hint_in mem ps q) <$> mem !! q else mem !! q.

Lemma hint_value_agree mem mem' p next :
  key_at mem' p = key_at mem p → offset_at mem' p = offset_at mem p →
  (∀ q, next = Some q → offset_at mem' q = offset_at mem q) →
  hint_value mem' p next = hint_value mem p next.
Proof.
  intros Hk Ho Hn. unfold hint_value. rewrite Hk, Ho. destruct next as [q|]; [|done]. by rewrite (Hn q).
Qed.

Lemma hint_in_agree mem mem' ps p :
  (∀ q, q ∈ ps → key_at mem' q = key_at mem q ∧ offset_at mem' q = offset_at mem q) →
  hint_in mem' ps p = hint_in mem ps p.
Proof.
  induction ps as [|q ps IH]; intros Hag; [done|]. cbn. case_decide.
  - destruct (Hag q); [by left|]. apply hint_value_agree; [done..|].
    intros r Hr. apply Hag. right. destruct ps; cbn in Hr; simplify_eq. by left.
  - apply IH. intros r Hr. apply Hag. by right.
Qed.

(** [set_hint] changes neither the key nor the offset. *)
Lemma key_at_hint mem p x n q : mem !! p = Some x → key_at (<[p := set_hint n x]> mem) q = key_at mem q.
Proof.
  intros Hp. unfold key_at. destruct (decide (q = p)) as [->|].
  - by rewrite lookup_insert_eq, Hp.
  - by rewrite lookup_insert_ne.
Qed.

Lemma offset_at_hint mem p x n q : mem !! p = Some x → offset_at (<[p := set_hint n x]> mem) q = offset_at mem q.
Proof.
  intros Hp. unfold offset_at. destruct (decide (q = p)) as [->|].
  - by rewrite lookup_insert_eq, Hp.
  - by rewrite lookup_insert_ne.
Qed.

Lemma hinted_cons mem mem' p x ps :
  mem !! p = Some x → p ∉ ps →
  hinted (<[p := set_hint (hint_value mem p (head ps)) x]> mem) mem' ps → hinted mem mem' (p :: ps).
Proof.
  intros Hp Hn Hh q. rewrite Hh. cbn [hint_in]. destruct (decide (q = p)) as [->|Hq].
  - rewrite decide_False, (decide_True (P := p ∈ p :: ps)), lookup_insert_eq, Hp by (done || by left). done.
  - rewrite lookup_insert_ne by done. rewrite (decide_ext (q ∈ p :: ps) (q ∈ ps)) by (rewrite elem_of_cons; tauto).
    case_decide; [|done]. f_equal. f_equal. apply hint_in_agree. intros r _.
    by rewrite (key_at_hint _ _ x), (offset_at_hint _ _ x).
Qed.

(** A well-placed structure. *)
Definition in_config_space (mem : capmem) (p : positive) : Prop :=
  ∃ x, mem !! p = Some x ∧ 0 < Offset x < config_size (Domain (Key x)).

Lemma config_size_bound d : 256 ≤ config_size d ≤ 4096.
Proof. unfold config_size, PCI_MAX_CONFIG_OFFSET, PCI_EXP_MAX_CONFIG_OFFSET. case_decide; lia. Qed.

Section hints.
Context {D S C : Type} `{HL : OrderedCollectionLaws positive S C} `{HD : PciCapDev D} `{HA : CapAllocator}.
Implicit Types (st : pci_state D S) (c : C) (es : list (positive * positive)) (mem : capmem) (l : list item).

Lemma calculate_spec st p x next (Q : unit → pci_state D S → Prop) :
  caps st !! p = Some x → 0 < Offset x < config_size (Domain (Key x)) →
  (∀ q, next = Some q → is_Some (caps st !! q) ∧ offset_at (caps st) p < offset_at (caps st) q) →
  Q tt (with_caps st (<[p := set_hint (hint_value (caps st) p next) x]> (caps st))) →
  wp (CalculatePciCapMaxSizeHint p next) Q st.
Proof.
  intros Hp Hx Hnext HQ. pose proof (config_size_bound (Domain (Key x))).
  assert (Hko : key_at (caps st) p = Key x ∧ offset_at (caps st) p = Offset x).
  { unfold key_at, offset_at. by rewrite Hp. }
  destruct Hko as [Hk Ho]. unfold hint_value in HQ. rewrite Hk, Ho in HQ.
  unfold CalculatePciCapMaxSizeHint. wp_seq. apply (wp_get_cap _ _ _ x); [done|]. wp_seq.
  destruct next as [q|].
  - destruct (Hnext q eq_refl) as [[y Hy] Hlt]. rewrite Ho in Hlt. unfold offset_at in Hlt, HQ.
    rewrite Hy in Hlt, HQ. wp_seq. apply (wp_get_cap _ _ _ y); [done|]. wp_seq.
    apply wp_assert; [by apply Z.ltb_lt|]. wp_seq. apply wp_assert; [apply Z.ltb_lt; lia|].
    destruct (Offset y >=? _) eqn:Hge; bool_hyps;
      apply (wp_set_cap _ _ _ _ x); try done; rewrite cast_id; try done; cint_unfold; lia.
  - wp_seq. apply wp_assert; [done|]. wp_seq. apply wp_assert; [apply Z.ltb_lt; lia|].
    apply (wp_set_cap _ _ _ _ x); [done|]. rewrite cast_id; [done|done|cint_unfold; lia].
Qed.

Lemma hint_loop_spec fuel c a p es st (Q : C → pci_state D S → Prop) :
  contents (nodes st) c ((a, p) :: es) → ascending (ComparePciCapOffset (caps st)) ((a, p) :: es) →
  NoDup (p :: es.*2) → (∀ q, q ∈ p :: es.*2 → in_config_space (caps st) q) → (length es < fuel)%nat →
  (∀ c' n' mem', contents n' c' [] → pool n' = pool (nodes st) ∖ own ((a, p) :: es) →
     (∀ c2 es', contents (nodes st) c2 es' → (∀ x, x ∈ es'.*1 → x ∉ ((a, p) :: es).*1) → contents n' c2 es') →
     hinted (caps st) mem' (p :: es.*2) →
     Q c' (PciState (device st) n' mem' (live_lists st))) →
  wp (hint_loop fuel c (Some a) (fst <$> head es)) Q st.
Proof.
  revert c a p es st. induction fuel as [|fuel IH]; intros c a p es st Hc Ha Hnd Hal Hf HQ; [lia|].
  apply NoDup_cons in Hnd as [Hpn Hnd]. destruct (Hal p) as (x & Hx & Hxo); [by left|].
  assert (Ha' := Ha). apply StronglySorted_cons in Ha' as [Hmin Ha']. rewrite Forall_forall in Hmin.
  assert (Hhead : ∀ mem', (∀ q, mem' !! q = if decide (q ∈ [p]) then set_hint (hint_value (caps st) p None) <$> caps st !! q else caps st !! q) →
    es = [] → hinted (caps st) mem' (p :: es.*2)).
  { intros mem' Hm -> q. rewrite Hm. cbn. case_decide as Hq; [|done].
    apply list_elem_of_singleton in Hq as ->. by rewrite decide_True. }
  destruct es as [|[b q] es]; cbn [fmap option_fmap option_map head fst hint_loop].
  - wp_seq. apply (wp_delete_with ComparePciCapOffset c [] a p []); [done|done|].
    intros c' n' Hc' Hp Hk. cbn beta iota. cbn [fmap option_fmap option_map]. wp_seq.
    apply (calculate_spec _ _ x); [done|done|done|]. wp_seq.
    apply HQ; [done|cbn; rewrite Hp; unfold own; set_solver|done|].
    apply Hhead; [|done]. intros q. cbn. destruct (decide (q = p)) as [->|].
    + by rewrite lookup_insert_eq, decide_True, Hx by (by left).
    + rewrite lookup_insert_ne, decide_False; [done|by intros ->%list_elem_of_singleton|done].
  - wp_seq. apply (wp_delete_with ComparePciCapOffset c [] a p ((b, q) :: es)); [done|done|].
    intros c' n' Hc' Hp Hk. cbn beta iota. cbn [fmap option_fmap option_map]. cbn [app] in *.
    wp_seq. eapply wp_query; [by apply (law_UserStruct _ c' [] b q es)|].
    destruct (Hal q) as (y & Hy & Hyo); [right; by left|].
    wp_seq. apply (calculate_spec _ _ x); [done|done| |].
    { intros r [= <-]. cbn. split; [by eexists|]. specialize (Hmin (b, q)). unfold ComparePciCapOffset in Hmin.
      cbn in Hmin. assert (offset_at (caps st) p - offset_at (caps st) q < 0) by (apply Hmin; by left). lia. }
    wp_seq. eapply wp_query; [by apply (law_Next _ c' [] b q es)|]. unfold with_caps, with_nodes. cbn.
    set (mem1 := <[p := _]> (caps st)).
    assert (Hko : ∀ r, key_at mem1 r = key_at (caps st) r ∧ offset_at mem1 r = offset_at (caps st) r).
    { intros r. unfold mem1. by rewrite (key_at_hint _ _ x), (offset_at_hint _ _ x). }
    apply (IH c' b q es); cbn; [done| |done| |cbn in Hf; lia|].
    + eapply ascending_agree; [|exact Ha']. intros u v _ _. unfold ComparePciCapOffset.
      by rewrite !(proj2 (Hko _)).
    + intros r Hr. destruct (Hal r) as (z & Hz & Hzo); [by right|]. exists z.
      unfold mem1. rewrite lookup_insert_ne; [done|]. by intros <-.
    + intros c2 n2 mem2 Hc2 Hp2 Hk2 Hh. apply HQ; [done| | |].
      * rewrite Hp2, Hp. unfold own. cbn. set_solver.
      * intros c3 es3 Hc3 Hd. apply Hk2; [apply Hk; [done|]|]; intros z Hz; specialize (Hd z Hz); cbn in *; set_solver.
      * eapply hinted_cons; [done|done|]. exact Hh.
Qed.
End hints.
