(* ===== verification/PciCapParse.v ===== *)
(** * PciCapListInit

    The two traversals of the config space, the calculation of the hints, and the
    whole of PciCapListInit: on every device it ends, either with the list of the
    capabilities of the device or with an error and all memory as it was. *)
From S2P Require Import Prelude CBase RbWalk OcInterface PciCap PciCapInv PciCapInsert PciCapFree.
Local Open Scope Z_scope.

(** Masked values. *)
Lemma land_lt x m n : 0 ≤ n → Z.land m (Z.ones n) = m → 0 ≤ Z.land x m < 2 ^ n.
Proof.
  intros Hn Hm. rewrite <-Hm, Z.land_assoc, Z.land_ones by done.
  apply Z.mod_pos_bound. by apply Z.pow_pos_nonneg.
Qed.

Lemma land_aligned x m : Z.land m 3 = 0 → Z.land (Z.land x m) 3 = 0.
Proof. intros Hm. by rewrite <-Z.land_assoc, Hm, Z.land_0_r. Qed.

(** ** The lists of a device

    [normal_chain seen d off ds Status d']: reading the normal capabilities list of
    device [d] from offset [off] on, where [seen] are the offsets read before,
    gives the capabilities [ds], ends with the status [Status], and leaves the
    device in state [d'].  [extended_chain] is the same for the extended list. *)
Definition normal_desc (off : Z) (hdr : list Z) : desc := Desc PciCapNormal (byte_at hdr 0) off 0.
Definition normal_next (hdr : list Z) : Z := Z.land (byte_at hdr 1) 0xFC.
Definition extended_desc (off : Z) (hdr : list Z) : desc :=
  Desc PciCapExtended (Z.land (le32 hdr) 0xFFFF) off (Z.land (Z.shiftr (le32 hdr) 16) 0xF).
Definition extended_next (hdr : list Z) : Z := Z.land (Z.land (Z.shiftr (le32 hdr) 20) 0xFFF) 0xFFC.

(** The extended list may be absent: its first header is then unreadable or zero. *)
Definition absent (off Status : Z) (hdr : list Z) : Prop :=
  off = PCI_MAX_CONFIG_OFFSET ∧ (RETURN_ERROR Status = true ∨ le32 hdr = 0).

Definition is_express (ds : list desc) : bool :=
  existsb (λ d, d_id d =? EFI_PCI_CAPABILITY_ID_PCIEXP) ds.

Lemma wf_normal off hdr : 0 < off < 2 ^ 8 → Z.land off 3 = 0 → wf_desc (normal_desc off hdr).
Proof. by split. Qed.

Lemma wf_extended off hdr : 0 < off < 2 ^ 12 → Z.land off 3 = 0 → wf_desc (extended_desc off hdr).
Proof. by split. Qed.

Section chains.
Context {D : Type} `{HD : PciCapDev D}.
Implicit Types (dev : D) (ds : list desc) (seen : list Z).

Inductive normal_chain : list Z → D → Z → list desc → Z → D → Prop :=
  | normal_end seen dev : normal_chain seen dev 0 [] RETURN_SUCCESS dev
  | normal_unreadable seen dev off Status hdr dev1 :
      0 < off → ReadConfig off 2 dev = (Status, hdr, dev1) → RETURN_ERROR Status = true →
      normal_chain seen dev off [] Status dev1
  | normal_cycle seen dev off Status hdr dev1 :
      0 < off → ReadConfig off 2 dev = (Status, hdr, dev1) → RETURN_ERROR Status = false →
      off ∈ seen → normal_chain seen dev off [] RETURN_DEVICE_ERROR dev1
  | normal_cap seen dev off Status hdr dev1 ds Status' dev2 :
      0 < off → ReadConfig off 2 dev = (Status, hdr, dev1) → RETURN_ERROR Status = false →
      off ∉ seen → normal_chain (seen ++ [off]) dev1 (normal_next hdr) ds Status' dev2 →
      normal_chain seen dev off (normal_desc off hdr :: ds) Status' dev2.

Inductive extended_chain : list Z → D → Z → list desc → Z → D → Prop :=
  | extended_end seen dev : extended_chain seen dev 0 [] RETURN_SUCCESS dev
  | extended_none seen dev off Status hdr dev1 :
      ReadConfig off 4 dev = (Status, hdr, dev1) → absent off Status hdr →
      extended_chain seen dev off [] RETURN_SUCCESS dev1
  | extended_unreadable seen dev off Status hdr dev1 :
      0 < off → ReadConfig off 4 dev = (Status, hdr, dev1) → ¬ absent off Status hdr →
      RETURN_ERROR Status = true → extended_chain seen dev off [] Status dev1
  | extended_cycle seen dev off Status hdr dev1 :
      0 < off → ReadConfig off 4 dev = (Status, hdr, dev1) → ¬ absent off Status hdr →
      RETURN_ERROR Status = false → off ∈ seen → extended_chain seen dev off [] RETURN_DEVICE_ERROR dev1
  | extended_escape seen dev off Status hdr dev1 :
      0 < off → ReadConfig off 4 dev = (Status, hdr, dev1) → ¬ absent off Status hdr →
      RETURN_ERROR Status = false → off ∉ seen → 0 < extended_next hdr < PCI_MAX_CONFIG_OFFSET →
      extended_chain seen dev off [extended_desc off hdr] RETURN_DEVICE_ERROR dev1
  | extended_cap seen dev off Status hdr dev1 ds Status' dev2 :
      0 < off → ReadConfig off 4 dev = (Status, hdr, dev1) → ¬ absent off Status hdr →
      RETURN_ERROR Status = false → off ∉ seen →
      ¬ 0 < extended_next hdr < PCI_MAX_CONFIG_OFFSET →
      extended_chain (seen ++ [off]) dev1 (extended_next hdr) ds Status' dev2 →
      extended_chain seen dev off (extended_desc off hdr :: ds) Status' dev2.

(** Everything PciCapListInit reads from a device. *)
Inductive device_caps : D → list desc → Z → D → Prop :=
  | caps_no_status dev Status hdr dev1 :
      ReadConfig PCI_PRIMARY_STATUS_OFFSET 2 dev = (Status, hdr, dev1) → RETURN_ERROR Status = true →
      device_caps dev [] Status dev1
  | caps_none dev Status hdr dev1 :
      ReadConfig PCI_PRIMARY_STATUS_OFFSET 2 dev = (Status, hdr, dev1) → RETURN_ERROR Status = false →
      Z.land (le16 hdr) EFI_PCI_STATUS_CAPABILITY = 0 →
      device_caps dev [] RETURN_SUCCESS dev1
  | caps_some dev Status hdr dev1 ds Status' dev2 :
      ReadConfig PCI_PRIMARY_STATUS_OFFSET 2 dev = (Status, hdr, dev1) → RETURN_ERROR Status = false →
      Z.land (le16 hdr) EFI_PCI_STATUS_CAPABILITY ≠ 0 →
      listed_caps dev1 ds Status' dev2 → device_caps dev ds Status' dev2
with listed_caps : D → list desc → Z → D → Prop :=
  | caps_no_pointer dev Status ptr dev1 :
      ReadConfig PCI_CAPBILITY_POINTER_OFFSET 1 dev = (Status, ptr, dev1) → RETURN_ERROR Status = true →
      listed_caps dev [] Status dev1
  | caps_normal dev Status ptr dev1 ds Status' dev2 :
      ReadConfig PCI_CAPBILITY_POINTER_OFFSET 1 dev = (Status, ptr, dev1) → RETURN_ERROR Status = false →
      normal_chain [] dev1 (Z.land (byte_at ptr 0) 0xFC) ds Status' dev2 →
      RETURN_ERROR Status' = true ∨ is_express ds = false →
      listed_caps dev ds Status' dev2
  | caps_express dev Status ptr dev1 ds Status1 dev2 es Status' dev3 :
      ReadConfig PCI_CAPBILITY_POINTER_OFFSET 1 dev = (Status, ptr, dev1) → RETURN_ERROR Status = false →
      normal_chain [] dev1 (Z.land (byte_at ptr 0) 0xFC) ds Status1 dev2 → RETURN_ERROR Status1 = false →
      is_express ds = true →
      extended_chain (d_offset <$> ds) dev2 PCI_MAX_CONFIG_OFFSET es Status' dev3 →
      listed_caps dev (ds ++ es) Status' dev3.

Lemma normal_status seen dev off ds Status dev' :
  normal_chain seen dev off ds Status dev' → RETURN_ERROR Status = false → Status = RETURN_SUCCESS.
Proof. induction 1; intros He; try done; auto; congruence. Qed.

Lemma extended_status seen dev off ds Status dev' :
  extended_chain seen dev off ds Status dev' → RETURN_ERROR Status = false → Status = RETURN_SUCCESS.
Proof. induction 1; intros He; try done; auto; congruence. Qed.

(** Two reads of the same bytes. *)
Ltac same_read :=
  match goal with
  | Ha : ReadConfig ?o ?n ?d = _, Hb : ReadConfig ?o ?n ?d = _ |- _ => rewrite Ha in Hb; simplify_eq
  end.

(** The device determines the outcome. *)
Lemma normal_chain_det seen dev off ds1 Status1 dev1 ds2 Status2 dev2 :
  normal_chain seen dev off ds1 Status1 dev1 → normal_chain seen dev off ds2 Status2 dev2 →
  ds1 = ds2 ∧ Status1 = Status2 ∧ dev1 = dev2.
Proof.
  intros Hc1. revert ds2 Status2 dev2. induction Hc1; intros ds2 Status2 dev3 Hc2; inversion Hc2; subst;
    try lia; try same_read; try done; try congruence. by edestruct IHHc1 as (-> & -> & ->).
Qed.

Lemma extended_chain_det seen dev off ds1 Status1 dev1 ds2 Status2 dev2 :
  extended_chain seen dev off ds1 Status1 dev1 → extended_chain seen dev off ds2 Status2 dev2 →
  ds1 = ds2 ∧ Status1 = Status2 ∧ dev1 = dev2.
Proof.
  assert (Hno : ∀ Status hdr, ¬ absent 0 Status hdr) by (intros ? ? [Hz _]; done).
  intros Hc1. revert ds2 Status2 dev2. induction Hc1; intros ds2 Status2 dev3 Hc2; inversion Hc2; subst;
    try lia; try same_read; try done; try congruence; try (by exfalso; eapply Hno).
  by edestruct IHHc1 as (-> & -> & ->).
Qed.

Lemma listed_caps_det dev ds1 Status1 dev1 ds2 Status2 dev2 :
  listed_caps dev ds1 Status1 dev1 → listed_caps dev ds2 Status2 dev2 →
  ds1 = ds2 ∧ Status1 = Status2 ∧ dev1 = dev2.
Proof.
  intros Hc1 Hc2. destruct Hc1; inversion Hc2; subst; same_read; try done; try congruence;
    match goal with Ha : normal_chain _ _ _ _ _ _, Hb : normal_chain _ _ _ _ _ _ |- _ =>
      destruct (normal_chain_det _ _ _ _ _ _ _ _ _ Ha Hb) as (-> & -> & ->) end; try done;
    try (by destruct_or!; congruence).
  match goal with Ha : extended_chain _ _ _ _ _ _, Hb : extended_chain _ _ _ _ _ _ |- _ =>
    by destruct (extended_chain_det _ _ _ _ _ _ _ _ _ Ha Hb) as (-> & -> & ->) end.
Qed.

Lemma device_caps_det dev ds1 Status1 dev1 ds2 Status2 dev2 :
  device_caps dev ds1 Status1 dev1 → device_caps dev ds2 Status2 dev2 →
  ds1 = ds2 ∧ Status1 = Status2 ∧ dev1 = dev2.
Proof.
  intros Hc1 Hc2. destruct Hc1; inversion Hc2; subst; same_read; try done; try congruence. by eapply listed_caps_det.
Qed.
End chains.

Section parse.
Context {D S C : Type} `{HL : OrderedCollectionLaws positive S C} `{HD : PciCapDev D} `{HA : CapAllocator}.
Implicit Types (st : pci_state D S) (c : C) (es : list (positive * positive)) (mem : capmem) (l : list item).

Definition with_device st (d : D) : pci_state D S := PciState d (nodes st) (caps st) (live_lists st).

Lemma wp_read_config off size st (Q : Z * list Z → pci_state D S → Prop) :
  (∀ Status hdr d, ReadConfig off size (device st) = (Status, hdr, d) → Q (Status, hdr) (with_device st d)) →
  wp (read_config off size) Q st.
Proof.
  intros HQ. unfold wp, read_config. destruct (ReadConfig off size (device st)) as [[Status hdr] d] eqn:Hr.
  by apply HQ.
Qed.

Lemma cap_inv_device st0 st CapList Hdr es1 es2 l d :
  cap_inv st0 st CapList Hdr es1 es2 l → cap_inv st0 (with_device st d) CapList Hdr es1 es2 l.
Proof. intros []. by split. Qed.

(** The outcome of a traversal that started with [l]: there was no memory for
    another capability, or the sequence has been extended by what [P] accepts. *)
Definition traversed st0 st l (P : list desc → Z → D → Prop) (Status : Z) (CapList Hdr : C) st' : Prop :=
  live_lists st' = live_lists st ∧ ∃ es1 es2 l',
    cap_inv st0 st' CapList Hdr es1 es2 l' ∧
    (Status = RETURN_OUT_OF_RESOURCES ∨ ∃ ds, l'.*2 = l.*2 ++ ds ∧ P ds Status (device st')).

Lemma traversed_stop st0 st st' l P Status CapList Hdr es1 es2 :
  cap_inv st0 st' CapList Hdr es1 es2 l → live_lists st' = live_lists st →
  P [] Status (device st') → traversed st0 st l P Status CapList Hdr st'.
Proof.
  intros Hi Hl HP. split; [done|]. exists es1, es2, l. split; [done|]. right. exists [].
  by rewrite app_nil_r.
Qed.

Lemma traversed_cons st0 st st1 l P P' Status CapList Hdr st' p d :
  live_lists st1 = live_lists st → traversed st0 st1 (l ++ [(p, d)]) P' Status CapList Hdr st' →
  (∀ ds, P' ds Status (device st') → P (d :: ds) Status (device st')) →
  traversed st0 st l P Status CapList Hdr st'.
Proof.
  intros Hl (Hl' & es1 & es2 & l' & Hi & Hres) HP. split; [by rewrite Hl'|]. exists es1, es2, l'.
  split; [done|]. destruct Hres as [->|(ds & Hds & Hchain)]; [by left|]. right. exists (d :: ds).
  rewrite Hds, fmap_app, <-app_assoc. split; [done|]. by apply HP.
Qed.

(** What InsertPciCap leaves behind. *)
Lemma insert_post_cases st0 st l d Status CapList Hdr st' :
  insert_post st0 st l d (Status, CapList, Hdr) st' →
  device st' = device st ∧ live_lists st' = live_lists st ∧ ∃ es1 es2,
  (Status = RETURN_OUT_OF_RESOURCES ∧ cap_inv st0 st' CapList Hdr es1 es2 l) ∨
  (Status = RETURN_DEVICE_ERROR ∧ d_offset d ∈ offsets l ∧ cap_inv st0 st' CapList Hdr es1 es2 l) ∨
  (Status = RETURN_SUCCESS ∧ (d_offset d ∉ offsets l) ∧
   ∃ p, cap_inv st0 st' CapList Hdr es1 es2 (l ++ [(p, d)])).
Proof.
  intros (Hd & Hl & es1 & es2 & Hres). split_and!; [done..|]. exists es1, es2.
  destruct Hres as [[-> [p Hi]]|[[->|[-> Hin]] Hi]]; [right; right|by left|right; by left].
  split_and!; [done| |by exists p]. assert (Hnd := ci_offsets _ _ _ _ _ _ _ Hi).
  unfold offsets in Hnd. rewrite fmap_app in Hnd. apply NoDup_app in Hnd as (_ & Hdis & _).
  intros Hin. apply (Hdis _ Hin). by left.
Qed.

Lemma offsets_snoc l p d : offsets (l ++ [(p, d)]) = offsets l ++ [d_offset d].
Proof. unfold offsets. by rewrite fmap_app. Qed.

Lemma normal_fuel st0 st CapList Hdr es1 es2 l :
  cap_inv st0 st CapList Hdr es1 es2 l → (∀ x, x ∈ l → d_domain x.2 = PciCapNormal) → (length l < 64)%nat.
Proof.
  intros Hi Hn. apply (offsets_bound l 64); [apply Hi|]. intros x Hx.
  destruct (ci_wf _ _ _ _ _ _ _ Hi x Hx) as [? Ho]. rewrite (Hn x Hx) in Ho. by split.
Qed.

Lemma normal_loop_spec fuel st0 st CapList Hdr es1 es2 l off express :
  cap_inv st0 st CapList Hdr es1 es2 l → (∀ x, x ∈ l → d_domain x.2 = PciCapNormal) →
  (64 ≤ length l + fuel)%nat → 0 ≤ off < 2 ^ 8 → Z.land off 3 = 0 →
  wp (normal_loop fuel CapList Hdr off express) (λ '(Status, CapList', Hdr', express') st',
    traversed st0 st l (λ ds Status dev', normal_chain (offsets l) (device st) off ds Status dev' ∧
      (RETURN_ERROR Status = false → express' = express || is_express ds))
      Status CapList' Hdr' st') st.
Proof.
  revert st CapList Hdr es1 es2 l off express.
  induction fuel as [|fuel IH]; intros st CapList Hdr es1 es2 l off express Hi Hn Hf Hoff Hal.
  { pose proof (normal_fuel _ _ _ _ _ _ _ Hi Hn). lia. }
  cbn [normal_loop]. destruct (Z.ltb_spec 0 off) as [Hpos|Hz]; cbn [negb]; cycle 1.
  { wp_seq. eapply traversed_stop; [done..|]. assert (off = 0) as -> by lia.
    split; [constructor|by rewrite orb_false_r]. }
  wp_seq. apply wp_read_config. intros Status hdr d Hread. cbn beta iota.
  assert (Hi1 := cap_inv_device _ _ _ _ _ _ _ d Hi).
  destruct (RETURN_ERROR Status) eqn:He.
  { wp_seq. eapply traversed_stop; [done..|]. split; [by eapply normal_unreadable|congruence]. }
  wp_seq. eapply wp_mono.
  { apply (InsertPciCap_spec _ _ _ _ _ _ _ (normal_desc off hdr) Hi1); [apply wf_normal; lia|by right]. }
  intros [[Status2 CapList2] Hdr2] st2 (Hdev & Hll & es1' & es2' & Hres)%insert_post_cases. cbn beta iota.
  destruct Hres as [[-> Hi2]|[(-> & Hin & Hi2)|(-> & Hin & p & Hi2)]].
  - wp_seq. split; [done|]. exists es1', es2', l. split; [done|by left].
  - wp_seq. eapply traversed_stop; [done..|]. rewrite Hdev. split; [by eapply normal_cycle|done].
  - change (RETURN_ERROR RETURN_SUCCESS) with false. cbn iota. eapply wp_mono.
    { apply (IH _ _ _ _ _ _ _ _ Hi2).
      - intros x [Hx| ->%list_elem_of_singleton]%elem_of_app; [by apply Hn|done].
      - rewrite length_app. cbn. lia.
      - by apply land_lt.
      - by apply land_aligned. }
    intros [[[Status3 CapList3] Hdr3] express3] st3 Htr. eapply traversed_cons; [done|exact Htr|].
    cbn beta. rewrite offsets_snoc, Hdev. intros ds [Hchain Hex]. split; [by eapply normal_cap|].
    intros Hok. by rewrite Hex, <-orb_assoc.
Qed.

Lemma extended_loop_spec fuel st0 st CapList Hdr es1 es2 l off :
  cap_inv st0 st CapList Hdr es1 es2 l →
  (1024 ≤ length l + fuel)%nat → 0 ≤ off < 2 ^ 12 → Z.land off 3 = 0 →
  wp (extended_loop fuel CapList Hdr off) (λ '(Status, CapList', Hdr') st',
    traversed st0 st l (extended_chain (offsets l) (device st) off) Status CapList' Hdr' st') st.
Proof.
  revert st CapList Hdr es1 es2 l off.
  induction fuel as [|fuel IH]; intros st CapList Hdr es1 es2 l off Hi Hf Hoff Hal.
  { pose proof (cap_inv_length _ _ _ _ _ _ _ Hi). lia. }
  cbn [extended_loop]. destruct (Z.ltb_spec 0 off) as [Hpos|Hz]; cbn [negb]; cycle 1.
  { wp_seq. eapply traversed_stop; [done..|]. assert (off = 0) as -> by lia. constructor. }
  wp_seq. apply wp_read_config. intros Status hdr d Hread. cbn beta iota.
  assert (Hi1 := cap_inv_device _ _ _ _ _ _ _ d Hi).
  destruct ((off =? PCI_MAX_CONFIG_OFFSET) && (RETURN_ERROR Status || (le32 hdr =? 0))) eqn:Hnone.
  { wp_seq. eapply traversed_stop; [done..|]. eapply extended_none; [done|].
    apply andb_true_iff in Hnone as [?%Z.eqb_eq Hor]. split; [done|].
    apply orb_true_iff in Hor as [?|?%Z.eqb_eq]; [by left|by right]. }
  assert (Hpresent : ¬ absent off Status hdr).
  { intros [-> Hor]. rewrite Z.eqb_refl in Hnone. apply orb_false_iff in Hnone as [He ?%Z.eqb_neq].
    rewrite He in Hor. by destruct Hor. }
  destruct (RETURN_ERROR Status) eqn:He.
  { wp_seq. eapply traversed_stop; [done..|]. by eapply extended_unreadable. }
  wp_seq. eapply wp_mono.
  { apply (InsertPciCap_spec _ _ _ _ _ _ _ (extended_desc off hdr) Hi1); [apply wf_extended; lia|by left]. }
  intros [[Status2 CapList2] Hdr2] st2 (Hdev & Hll & es1' & es2' & Hres)%insert_post_cases. cbn beta iota.
  destruct Hres as [[-> Hi2]|[(-> & Hin & Hi2)|(-> & Hin & p & Hi2)]].
  - wp_seq. split; [done|]. exists es1', es2', l. split; [done|by left].
  - wp_seq. eapply traversed_stop; [done..|]. rewrite Hdev. by eapply extended_cycle.
  - change (RETURN_ERROR RETURN_SUCCESS) with false. cbn iota. fold (extended_next hdr).
    destruct ((0 <? extended_next hdr) && (extended_next hdr <? PCI_MAX_CONFIG_OFFSET)) eqn:Hbad.
    { wp_seq. clear Hnone. bool_hyps. eapply (traversed_cons _ _ st2 _ _ (λ ds _ dev', ds = [] ∧ dev' = d)).
      - done.
      - by eapply traversed_stop.
      - intros ds [-> ->]. by eapply extended_escape. }
    assert (Hnext : 0 ≤ extended_next hdr < 2 ^ 12) by (by apply land_lt).
    eapply wp_mono.
    { apply (IH _ _ _ _ _ _ _ Hi2); [rewrite length_app; cbn; lia|done|by apply land_aligned]. }
    intros [[Status3 CapList3] Hdr3] st3 Htr. eapply traversed_cons; [done|exact Htr|].
    rewrite offsets_snoc, Hdev. intros ds Hchain. eapply extended_cap; try done.
    intros Hb. apply andb_false_iff in Hbad as [?%Z.ltb_ge|?%Z.ltb_ge]; lia.
Qed.
End parse.
