(* ===== verification/PciCapFinish.v ===== *)
(** * PciCapListInit, to the end

    The hints of a complete list, and the outcomes of PciCapListInit. *)
From S2P Require Import Prelude CBase RbWalk OcInterface PciCap PciCapInv PciCapInsert PciCapFree.
From S2P Require Import PciCapParse.
Local Open Scope Z_scope.

(** A capability extends to the next header, or to the end of its config space. *)
Definition hints_fit (hint : positive → Z) (l : list item) : Prop := ∀ x, x ∈ l →
  0 < hint x.1 ∧ d_offset x.2 + hint x.1 ≤ config_size (d_domain x.2) ∧
  (∀ y, y ∈ l → d_offset x.2 < d_offset y.2 → d_offset x.2 + hint x.1 ≤ d_offset y.2) ∧
  (d_offset x.2 + hint x.1 = config_size (d_domain x.2) ∨
   ∃ y, y ∈ l ∧ d_offset x.2 + hint x.1 = d_offset y.2).

(** The same for an ascending sequence of structures. *)
Lemma hint_in_fits mem (es : list (positive * positive)) p :
  ascending (ComparePciCapOffset mem) es → p ∈ es.*2 →
  offset_at mem p < config_size (Domain (key_at mem p)) →
  let h := hint_in mem es.*2 p in
  let size := config_size (Domain (key_at mem p)) in
  0 < h ∧ offset_at mem p + h ≤ size ∧
  (∀ q, q ∈ es.*2 → offset_at mem p < offset_at mem q → offset_at mem p + h ≤ offset_at mem q) ∧
  (offset_at mem p + h = size ∨ ∃ q, q ∈ es.*2 ∧ offset_at mem p + h = offset_at mem q).
Proof.
  cbn zeta. induction es as [|[a r] es IH]; cbn; [intros _ Hp; by apply elem_of_nil in Hp|].
  intros [Hmin Ha]%StronglySorted_cons Hp Hsize. rewrite Forall_forall in Hmin.
  assert (Hlt : ∀ q, q ∈ es.*2 → offset_at mem r < offset_at mem q).
  { intros q ([b q'] & -> & Hin)%list_elem_of_fmap. specialize (Hmin _ Hin).
    unfold ComparePciCapOffset in Hmin. cbn in *. lia. }
  destruct (decide (p = r)) as [->|Hpr].
  - unfold hint_value. destruct es as [|[b q] es]; cbn.
    + split_and!; [lia|lia| |by left; lia]. intros q' ->%list_elem_of_singleton. lia.
    + assert (Hq : offset_at mem r < offset_at mem q) by (apply Hlt; cbn; by left).
      assert (Hmin2 : ∀ q', q' ∈ q :: es.*2 → offset_at mem q ≤ offset_at mem q').
      { apply StronglySorted_cons in Ha as [Hmin2 _]. rewrite Forall_forall in Hmin2.
        intros q' [->|([b2 q2] & -> & Hin)%list_elem_of_fmap]%elem_of_cons; [done|].
        specialize (Hmin2 _ Hin). unfold ComparePciCapOffset in Hmin2. cbn in *. lia. }
      destruct (offset_at mem q >=? _) eqn:Hge; bool_hyps.
      * split_and!; [lia|lia| |left; lia]. intros q' [->|Hq']%elem_of_cons ?; [lia|].
        specialize (Hmin2 _ Hq'). lia.
      * split_and!; [lia|lia| |right; exists q; split; [right; by left|lia]].
        intros q' [->|Hq']%elem_of_cons ?; [lia|]. specialize (Hmin2 _ Hq'). lia.
  - apply elem_of_cons in Hp as [->|Hp]; [done|].
    destruct (IH Ha Hp Hsize) as (H1 & H2 & H3 & H4). specialize (Hlt _ Hp).
    split_and!; [done|done| |].
    + intros q' [->|Hq']%elem_of_cons ?; [lia|by apply H3].
    + destruct H4 as [?|(q' & ? & ?)]; [by left|]. right. exists q'. split; [by right|done].
Qed.

Section finish.
Context {D S C : Type} `{HL : OrderedCollectionLaws positive S C} `{HD : PciCapDev D} `{HA : CapAllocator}.
Implicit Types (st : pci_state D S) (c : C) (es : list (positive * positive)) (mem : capmem) (l : list item).

Lemma cap_inv_config st0 st CapList Hdr es1 es2 l p :
  cap_inv st0 st CapList Hdr es1 es2 l → p ∈ es2.*2 → in_config_space (caps st) p.
Proof.
  intros Hi Hp. rewrite (ord_perm _ _ _ _ _ (ci_off _ _ _ _ _ _ _ Hi)) in Hp.
  apply list_elem_of_fmap in Hp as (x & -> & Hx). assert (Hwf := ci_wf _ _ _ _ _ _ _ Hi x Hx).
  apply list_elem_of_split in Hx as (l1 & l2 & ->).
  eexists. split; [apply (represents_at _ _ _ _ _ (ci_rep _ _ _ _ _ _ _ Hi))|]. apply Hwf.
Qed.

Lemma hints_fit_list st0 st CapList Hdr es1 es2 l :
  cap_inv st0 st CapList Hdr es1 es2 l → hints_fit (hint_in (caps st) es2.*2) l.
Proof.
  intros Hi x Hx. assert (Hoff := ci_off _ _ _ _ _ _ _ Hi). assert (Hrep := ci_rep _ _ _ _ _ _ _ Hi).
  assert (Hmem : ∀ y, y ∈ l → y.1 ∈ es2.*2).
  { intros y Hy. rewrite (ord_perm _ _ _ _ _ Hoff). by apply list_elem_of_fmap_2. }
  assert (Ho : ∀ y, y ∈ l → offset_at (caps st) y.1 = d_offset y.2)
    by (intros; by eapply represents_offset).
  assert (Hk : Domain (key_at (caps st) x.1) = d_domain x.2).
  { apply list_elem_of_split in Hx as (l1 & l2 & ->). by rewrite (represents_key _ _ _ _ _ Hrep). }
  destruct (hint_in_fits (caps st) es2 x.1) as (H1 & H2 & H3 & H4); [apply Hoff|by apply Hmem| |].
  { rewrite Hk, Ho by done. apply (ci_wf _ _ _ _ _ _ _ Hi x Hx). }
  rewrite Ho, Hk in * by done. split_and!; [done|done| |].
  - intros y Hy Hlt. rewrite <-(Ho y Hy) in *. apply H3; [by apply Hmem|done].
  - destruct H4 as [?|(q & Hq & Heq)]; [by left|]. right.
    rewrite (ord_perm _ _ _ _ _ Hoff) in Hq. apply list_elem_of_fmap in Hq as (y & -> & Hy).
    exists y. split; [done|]. by rewrite <-(Ho y Hy).
Qed.

(** Filling in the hints of all structures of a list. *)
Lemma represents_hinted mem mem' l (ps : list positive) :
  represents mem (λ _, 0) l → hinted mem mem' ps → ps ≡ₚ l.*1 → represents mem' (hint_in mem ps) l.
Proof.
  intros Hr Hh Hp l1 x l2 Hl. rewrite Hh, decide_True.
  - rewrite (Hr l1 x l2 Hl). done.
  - rewrite Hp, Hl, fmap_app, elem_of_app. right. by left.
Qed.

Lemma hinted_key mem mem' ps q : hinted mem mem' ps → key_at mem' q = key_at mem q.
Proof. intros Hh. unfold key_at. rewrite Hh. case_decide; [|done]. by destruct (mem !! q). Qed.

(** Evacuating the offset collection. *)
Lemma calculate_hints_spec st0 st CapList Hdr es1 es2 l (Q : C → pci_state D S → Prop) :
  cap_inv st0 st CapList Hdr es1 es2 l →
  (∀ c' st', contents (nodes st') c' [] → cap_list st0 st' (hint_in (caps st) es2.*2) CapList es1 l →
     device st' = device st → live_lists st' = live_lists st → Q c' st') →
  wp (calculate_hints Hdr) Q st.
Proof.
  intros Hi HQ. assert (Hoff := ci_off _ _ _ _ _ _ _ Hi).
  assert (Hnd : NoDup es2.*2) by (rewrite (ord_perm _ _ _ _ _ Hoff); apply Hi).
  assert (Hconf : ∀ p, p ∈ es2.*2 → in_config_space (caps st) p) by (intros; by eapply cap_inv_config).
  assert (Hdone : ∀ c' n' mem', contents n' c' [] → pool n' = pool (nodes st) ∖ own es2 →
    (∀ c2 es', contents (nodes st) c2 es' → (∀ x, x ∈ es'.*1 → x ∉ es2.*1) → contents n' c2 es') →
    hinted (caps st) mem' es2.*2 → Q c' (PciState (device st) n' mem' (live_lists st))).
  { intros c' n' mem' Hc' Hp Hk Hh. apply HQ; [done| |done..].
    destruct Hi as [Hkey _ Hrep Hwf Hndl Hofs Hdis Hown Hnew Hrest].
    assert (Hdisj : ∀ x, x ∈ es1.*1 → x ∉ es2.*1).
    { intros x Hx1 Hx2. apply (Hdis x); by apply elem_own. }
    split; cbn; try done.
    - destruct Hkey as [Hc Ha Hpm]. split; [by apply Hk| |done]. eapply ascending_agree; [|exact Ha].
      intros u v _ _. unfold ComparePciCap, ComparePciCapKey. by rewrite !(hinted_key _ _ _ _ Hh).
    - eapply represents_hinted; [done|done|apply Hoff].
    - by eapply owns_release.
    - intros p Hp'. rewrite Hh, decide_False; [by apply Hrest|]. by rewrite (ord_perm _ _ _ _ _ Hoff). }
  unfold calculate_hints. wp_seq. apply (wp_caps_fuel es2); [done| |].
  { intros p Hp. destruct (Hconf p Hp) as (x & Hx & _). by rewrite Hx. }
  intros fuel Hf. wp_seq. eapply wp_query; [apply law_Min, Hoff|].
  destruct es2 as [|[a p] es2]; cbn [fmap option_fmap option_map head fst].
  - apply wp_ret. destruct st as [dv nd cp ll]. apply Hdone; [apply Hoff|set_solver|done|].
    intros q. cbn. by rewrite decide_False by apply not_elem_of_nil.
  - wp_seq. eapply wp_query; [apply (law_Next _ Hdr [] a p es2), Hoff|].
    apply (hint_loop_spec fuel Hdr a p es2); [apply Hoff|apply Hoff|done|done|cbn in Hf; lia|done].
Qed.

(** The list that a successful call returns. *)
Definition listed st0 st (CapList : C) l st' : Prop :=
  live_lists st' = live_lists st ∧ device st' = device st ∧
  ∃ hint es, cap_list st0 st' hint CapList es l ∧ hints_fit hint l.

Lemma finish_list_spec st0 st CapList Hdr es1 es2 l :
  cap_inv st0 st CapList Hdr es1 es2 l →
  wp (finish_list CapList Hdr) (λ r st', r = (RETURN_SUCCESS, Some CapList) ∧ listed st0 st CapList l st') st.
Proof.
  intros Hi. unfold finish_list. wp_seq. eapply calculate_hints_spec; [done|].
  intros c' st' Hc' Hcl Hd Hll. wp_seq. apply wp_assert.
  { by rewrite (law_IsEmpty _ _ _ Hc'), bool_decide_true. }
  wp_seq. eapply wp_query; [by apply law_Uninit|]. wp_seq. split; [done|]. split_and!; [done..|].
  eexists _, es1. split; [done|]. by eapply hints_fit_list.
Qed.

(** The outcomes of the parsing functions: the list of what [P] accepts, or an
    error, because there was no memory or because of the device. *)
Definition parsed st0 st (P : list desc → Z → D → Prop) (r : Z * option C) st' : Prop :=
  (∃ CapList l, r = (RETURN_SUCCESS, Some CapList) ∧ live_lists st' = live_lists st ∧
     P l.*2 RETURN_SUCCESS (device st') ∧ ∃ hint es, cap_list st0 st' hint CapList es l ∧ hints_fit hint l) ∨
  (∃ Status, r = (Status, None) ∧ RETURN_ERROR Status = true ∧ restored st0 st' ∧
     live_lists st' = live_lists st - 1 ∧
     (Status = RETURN_OUT_OF_RESOURCES ∨ ∃ ds, P ds Status (device st'))).

Lemma parsed_failed st0 st st1 (P : list desc → Z → D → Prop) CapList Hdr es1 es2 l Status :
  cap_inv st0 st1 CapList Hdr es1 es2 l → live_lists st1 = live_lists st → RETURN_ERROR Status = true →
  (Status = RETURN_OUT_OF_RESOURCES ∨ ∃ ds, P ds Status (device st1)) →
  wp (FreeCapHdrOffsets Status CapList Hdr) (parsed st0 st P) st1.
Proof.
  intros Hi Hll He HP. eapply wp_mono; [by eapply FreeCapHdrOffsets_spec|].
  intros r st' (-> & Hr & Hd & Hl). right. exists Status. rewrite Hd. by split_and!; [..|rewrite <-Hll|].
Qed.

Lemma parsed_listed st0 st st1 (P : list desc → Z → D → Prop) CapList Hdr es1 es2 l :
  cap_inv st0 st1 CapList Hdr es1 es2 l → live_lists st1 = live_lists st →
  P l.*2 RETURN_SUCCESS (device st1) → wp (finish_list CapList Hdr) (parsed st0 st P) st1.
Proof.
  intros Hi Hll HP. eapply wp_mono; [by eapply finish_list_spec|].
  intros r st' (-> & Hl & Hd & Hlist). left. exists CapList, l. rewrite Hd, Hl. by split_and!.
Qed.

Lemma parse_extended_spec st0 st st1 (P : list desc → Z → D → Prop) CapList Hdr es1 es2 l (express : bool) :
  cap_inv st0 st1 CapList Hdr es1 es2 l → live_lists st1 = live_lists st →
  (if express then ∀ ds Status dev',
     extended_chain (offsets l) (device st1) PCI_MAX_CONFIG_OFFSET ds Status dev' → P (l.*2 ++ ds) Status dev'
   else P l.*2 RETURN_SUCCESS (device st1)) →
  wp (parse_extended CapList Hdr express) (parsed st0 st P) st1.
Proof.
  intros Hi Hll HP. unfold parse_extended. wp_seq. destruct express.
  - eapply wp_mono; [apply (extended_loop_spec 1024 _ _ _ _ _ _ _ _ Hi); [lia|done|done]|].
    intros [[Status CapList'] Hdr'] st2 (Hl2 & es1' & es2' & l' & Hi2 & Hres). cbn beta iota.
    destruct (RETURN_ERROR Status) eqn:He.
    + eapply parsed_failed; [done|by rewrite Hl2|done|].
      destruct Hres as [?|(ds & _ & Hchain)]; [by left|right]. eauto.
    + destruct Hres as [->|(ds & Hl' & Hchain)]; [done|].
      assert (Status = RETURN_SUCCESS) as -> by by eapply extended_status.
      eapply parsed_listed; [done|by rewrite Hl2|]. rewrite Hl'. by apply HP.
  - wp_seq. by eapply parsed_listed.
Qed.

Lemma parse_lists_spec st0 st CapList Hdr es1 es2 :
  cap_inv st0 st CapList Hdr es1 es2 [] →
  wp (parse_lists CapList Hdr) (parsed st0 st (device_caps (device st))) st.
Proof.
  intros Hi. unfold parse_lists. wp_seq. apply wp_read_config. intros Status hdr d1 Hr1. cbn beta iota.
  assert (Hi1 := cap_inv_device _ _ _ _ _ _ _ d1 Hi).
  destruct (RETURN_ERROR Status) eqn:He1.
  { eapply parsed_failed; [done..|]. right. eexists. by eapply caps_no_status. }
  destruct (Z.eqb_spec (Z.land (le16 hdr) EFI_PCI_STATUS_CAPABILITY) 0) as [Hno|Hcaps]; cbn [negb].
  { eapply (parse_extended_spec _ _ _ _ _ _ _ _ _ false); [done|done|]. cbn. by eapply caps_none. }
  wp_seq. apply wp_read_config. intros Status2 ptr d2 Hr2. cbn beta iota. cbn [device with_device] in Hr2.
  assert (Hi2 := cap_inv_device _ _ _ _ _ _ _ d2 Hi1).
  assert (Hcap := λ ds Status' dev', caps_some (device st) Status hdr d1 ds Status' dev' Hr1 He1 Hcaps).
  destruct (RETURN_ERROR Status2) eqn:He2.
  { eapply parsed_failed; [done..|]. right. eexists. by eapply Hcap, caps_no_pointer. }
  wp_seq. eapply wp_mono.
  { apply (normal_loop_spec 64 _ _ _ _ _ _ _ _ _ Hi2); [|cbn; lia|by apply land_lt|by apply land_aligned].
    intros x Hx. by apply elem_of_nil in Hx. }
  intros [[[Status3 CapList3] Hdr3] express] st3 (Hl3 & es1' & es2' & l3 & Hi3 & Hres). cbn beta iota.
  destruct (RETURN_ERROR Status3) eqn:He3.
  { eapply parsed_failed; [done|by rewrite Hl3|done|].
    destruct Hres as [?|(ds & _ & Hchain & _)]; [by left|right]. exists ds.
    eapply Hcap, caps_normal; [done..|by left]. }
  destruct Hres as [->|(ds & Hds & Hchain & Hex)]; [done|]. cbn in Hds. rewrite (Hex eq_refl).
  assert (Status3 = RETURN_SUCCESS) as -> by by eapply normal_status.
  eapply parse_extended_spec; [done|by rewrite Hl3|]. cbn [orb]. rewrite Hds.
  destruct (is_express ds) eqn:Hise.
  - intros es Status' dev' Hext. eapply Hcap, caps_express; [done..|]. rewrite <-Hds, <-list_fmap_compose. done.
  - eapply Hcap, caps_normal; [done..|by right].
Qed.

(** Nothing has been found yet. *)
Lemma cap_inv_start st0 c1 c2 st :
  nodes st = nodes st0 → caps st = caps st0 →
  contents (nodes st) c1 [] → contents (nodes st) c2 [] → cap_inv st0 st c1 c2 [] [] [].
Proof.
  intros Hn Hc H1 H2. split; cbn.
  - split; [done|constructor|done].
  - split; [done|constructor|done].
  - intros l1 x l2 Hl. by destruct l1.
  - intros x Hx. by apply elem_of_nil in Hx.
  - constructor.
  - constructor.
  - set_solver.
  - split; [set_solver|rewrite Hn; set_solver|by rewrite Hn].
  - intros p Hp. by apply elem_of_nil in Hp.
  - by rewrite Hc.
Qed.

(** The two outcomes of PciCapListInit. *)
Definition init_post st (r : Z * option C) st' : Prop :=
  (∃ CapList l, r = (RETURN_SUCCESS, Some CapList) ∧ live_lists st' = live_lists st + 1 ∧
     device_caps (device st) l.*2 RETURN_SUCCESS (device st') ∧
     ∃ hint es, cap_list st st' hint CapList es l ∧ hints_fit hint l) ∨
  (∃ Status, r = (Status, None) ∧ RETURN_ERROR Status = true ∧ restored st st' ∧
     live_lists st' = live_lists st ∧
     (Status = RETURN_OUT_OF_RESOURCES ∨ ∃ ds, device_caps (device st) ds Status (device st'))).

(** An empty owning collection is all there is to release. *)
Lemma cap_list_start st c : contents (nodes st) c [] → cap_list st st (λ _, 0) c [] [].
Proof.
  intros Hc. split; cbn; try done; [by split; [|constructor|]| | |constructor| |].
  - intros l1 x l2 Hl. by destruct l1.
  - intros x Hx. by apply elem_of_nil in Hx.
  - split; [set_solver|set_solver|done].
  - intros p Hp. by apply elem_of_nil in Hp.
Qed.

Lemma init_spec list_ok caps_ok offs_ok st :
  wp (PciCapListInit list_ok caps_ok offs_ok) (init_post st) st.
Proof.
  unfold PciCapListInit. destruct list_ok; cbn [negb]; cycle 1.
  { apply wp_ret. right. eexists. split_and!; [done..|by left]. }
  set (st1 := PciState (device st) (nodes st) (caps st) (live_lists st + 1)).
  wp_seq. apply wp_Some. exists tt, st1. split; [done|].
  assert (Hfail : ∀ r st', failed st st1 RETURN_OUT_OF_RESOURCES r st' → init_post st r st').
  { intros r st' (-> & Hr & Hd & Hl). right. eexists. split_and!; [done..| |by left]. cbn in Hl. lia. }
  wp_seq. apply wp_get_caps. wp_seq.
  destruct (law_Init caps_ok (ComparePciCap (caps st1)) (ComparePciCapKey (caps st1)) (nodes st1))
    as (o1 & Ho1 & H1). eapply wp_query; [exact Ho1|].
  destruct o1 as [c1|]; [destruct H1 as [_ H1]|]; cycle 1.
  { eapply wp_mono; [by apply (FreeOutCapList_spec st st1)|done]. }
  wp_seq.
  destruct (law_Init offs_ok (ComparePciCapOffset (caps st1)) (ComparePciCapOffsetKey (caps st1)) (nodes st1))
    as (o2 & Ho2 & H2). eapply wp_query; [exact Ho2|].
  destruct o2 as [c2|]; [destruct H2 as [_ H2]|]; cycle 1.
  { eapply wp_mono; [apply (FreeCapabilities_spec st st1 (λ _, 0) c1 [] [])|]; [|done|done].
    destruct (cap_list_start _ _ H1). by split. }
  eapply wp_mono; [by apply (parse_lists_spec st _ _ _ [] []), cap_inv_start|].
  intros r st' [(CapList & l & -> & Hl & Hdc & Hrest)|(Status & -> & He & Hr & Hl & Hwhy)].
  - left. by exists CapList, l.
  - right. exists Status. split_and!; [done..| |done]. cbn in Hl. lia.
Qed.
End finish.
