(* ===== verification/PciCapQuery.v ===== *)
(** * Looking up capabilities

    The lookups of a finished list find the instances of a capability in traversal
    order, and the accesses through a capability stay inside of it. *)
From S2P Require Import Prelude CBase RbWalk OcInterface PciCap PciCapInv PciCapInsert PciCapFree.
From S2P Require Import PciCapParse PciCapFinish.
Local Open Scope Z_scope.

(** ** Instances *)

Section instances.
Implicit Types (l : list item) (x : item) (d : desc).

Lemma instance_split d l n x : instances d l !! n = Some x →
  ∃ l1 l2, l = l1 ++ x :: l2 ∧ same_cap d x.2 ∧ count d l1 = n.
Proof.
  intros Hx. destruct (nth_instance d l n) as (l1 & z & l2 & Hl & Hs & Hc); [by eapply lookup_lt_Some|].
  assert (Hz : instances d l !! n = Some z).
  { rewrite Hl, instances_app, instances_cons, decide_True by done. apply list_lookup_middle. by rewrite <-Hc. }
  simplify_eq. by exists l1, l2.
Qed.

Lemma instance_lookup d l1 x l2 : same_cap d x.2 → instances d (l1 ++ x :: l2) !! count d l1 = Some x.
Proof.
  intros Hs. rewrite instances_app, instances_cons, decide_True by done. by apply list_lookup_middle.
Qed.

(** The address of the first of the instances [xs] with a recent enough version. *)
Definition first_version (MinVersion : Z) (xs : list item) : option positive :=
  fst <$> head (filter (λ x : item, MinVersion ≤ d_version x.2) xs).

Lemma first_version_cons MinVersion x xs :
  first_version MinVersion (x :: xs) =
  if d_version x.2 >=? MinVersion then Some x.1 else first_version MinVersion xs.
Proof.
  unfold first_version. rewrite filter_cons, Z.geb_leb. destruct (Z.leb_spec MinVersion (d_version x.2)).
  - by rewrite decide_True.
  - by rewrite decide_False by lia.
Qed.
End instances.

Section query.
Context {D S C : Type} `{HL : OrderedCollectionLaws positive S C} `{HD : PciCapDev D} `{HA : CapAllocator}.
Implicit Types (st : pci_state D S) (c : C) (es : list (positive * positive)) (mem : capmem) (l : list item).

Section list.
Context st0 st (hint : positive → Z) (CapList : C) es l (d : desc).
Context (Hcl : cap_list st0 st hint CapList es l).

Lemma list_key l1 x l2 : l = l1 ++ x :: l2 →
  key_at (caps st) x.1 = CapKey (d_domain x.2) (d_id x.2) (Z.of_nat (count x.2 l1)).
Proof.
  intros Hl. assert (Hrep := cl_rep _ _ _ _ _ _ Hcl). rewrite Hl in Hrep.
  by rewrite (represents_key _ _ _ _ _ Hrep).
Qed.

Lemma list_entry x : x ∈ l → x.1 ∈ es.*2.
Proof.
  intros Hx. rewrite (ord_perm _ _ _ _ _ (cl_key _ _ _ _ _ _ Hcl)). by apply list_elem_of_fmap_2.
Qed.

(** The instance that a key belongs to. *)
Lemma key_instance u k : u ∈ es.*2 → key_at (caps st) u = CapKey (d_domain d) (d_id d) k →
  ∃ n x, k = Z.of_nat n ∧ instances d l !! n = Some x ∧ x.1 = u.
Proof.
  intros Hu Hk. rewrite (ord_perm _ _ _ _ _ (cl_key _ _ _ _ _ _ Hcl)) in Hu.
  apply list_elem_of_fmap in Hu as (x & -> & (l1 & l2 & Hl)%list_elem_of_split).
  rewrite (list_key _ _ _ Hl) in Hk. injection Hk as Hd Hi Hc.
  assert (Hs : same_cap d x.2) by by split.
  exists (count d l1), x. split_and!; [|rewrite Hl; by apply instance_lookup|done].
  by rewrite (count_same _ _ _ Hs).
Qed.

Lemma instance_key n x : instances d l !! n = Some x →
  key_at (caps st) x.1 = CapKey (d_domain d) (d_id d) (Z.of_nat n).
Proof.
  intros (l1 & l2 & Hl & Hs & Hc)%instance_split. rewrite (list_key _ _ _ Hl).
  destruct (Hs) as [-> ->]. by rewrite <-(count_same _ _ _ Hs), Hc.
Qed.

Lemma instance_entry n x : instances d l !! n = Some x → ∃ es1 a es2, es = es1 ++ (a, x.1) :: es2.
Proof.
  intros (l1 & l2 & Hl & _)%instance_split.
  assert (Hx : x.1 ∈ es.*2) by (apply list_entry; rewrite Hl; set_solver).
  apply list_elem_of_fmap in Hx as ([a p] & -> & (es1 & es2 & ->)%list_elem_of_split). by exists es1, a, es2.
Qed.

Lemma list_contents : contents (nodes st) CapList es.
Proof. apply (cl_key _ _ _ _ _ _ Hcl). Qed.

(** The entries before and after one of them. *)
Lemma list_mid es1 a p es2 : es = es1 ++ (a, p) :: es2 →
  (∀ e, e ∈ es1 → compare_keys (key_at (caps st) e.2) (key_at (caps st) p) < 0) ∧
  (∀ e, e ∈ es2 → compare_keys (key_at (caps st) p) (key_at (caps st) e.2) < 0).
Proof.
  intros He. pose proof (cl_key _ _ _ _ _ _ Hcl) as [_ Ha _]. rewrite He in Ha.
  by apply StronglySorted_mid in Ha.
Qed.

(** Searching by key. *)
Lemma list_search key : oc_Find (ComparePciCapKey (caps st)) CapList key (nodes st) =
  Some (find_entry (ComparePciCapKey (caps st) key) es, nodes st).
Proof. apply (law_Find (ComparePciCap (caps st))); [apply _|apply (cl_key _ _ _ _ _ _ Hcl)..]. Qed.

Lemma find_instance n x es1 a es2 : instances d l !! n = Some x → es = es1 ++ (a, x.1) :: es2 →
  find_entry (ComparePciCapKey (caps st) (CapKey (d_domain d) (d_id d) (Z.of_nat n))) es = Some a.
Proof.
  intros Hx He. rewrite He. apply (find_entry_app _ es1 (a, x.1)); unfold ComparePciCapKey; cbn.
  - by apply compare_keys_eq; rewrite (instance_key _ _ Hx).
  - intros e Hin. rewrite <-(instance_key _ _ Hx). apply compare_keys_flip.
    by apply (list_mid _ _ _ _ He).
Qed.

Lemma find_no_instance n : instances d l !! n = None →
  find_entry (ComparePciCapKey (caps st) (CapKey (d_domain d) (d_id d) (Z.of_nat n))) es = None.
Proof.
  intros Hn. unfold find_entry. rewrite filter_none; [done|]. intros [a u] Hin Hu. cbn in Hu.
  apply compare_keys_eq in Hu. symmetry in Hu.
  destruct (key_instance u _ (list_elem_of_fmap_2 snd _ _ Hin) Hu) as (m & x & Hm & Hx & _).
  apply Nat2Z.inj in Hm as <-. congruence.
Qed.

(** The entry behind that of an instance. *)
Lemma next_instance n x y es1 a es2 :
  instances d l !! n = Some x → instances d l !! Datatypes.S n = Some y → es = es1 ++ (a, x.1) :: es2 →
  ∃ b es3, es2 = (b, y.1) :: es3.
Proof.
  intros Hx Hy He. assert (Hkx := instance_key _ _ Hx). assert (Hky := instance_key _ _ Hy).
  destruct (list_mid _ _ _ _ He) as [Hlt Hgt]. rewrite Hkx in Hlt, Hgt.
  destruct (instance_entry _ _ Hy) as (fs1 & b & fs2 & He').
  assert (Hin : (b, y.1) ∈ es2).
  { assert (Hb : (b, y.1) ∈ es) by (rewrite He'; set_solver).
    rewrite He in Hb. apply elem_of_app in Hb as [Hb|[Hb|Hb]%elem_of_cons]; [|injection Hb as _ Hb; rewrite Hb, Hkx in Hky; injection Hky; lia|done].
    specialize (Hlt _ Hb). cbn in Hlt. rewrite Hky, compare_keys_lt in Hlt. cbn in Hlt. lia. }
  destruct es2 as [|[c u] es2]; [by apply elem_of_nil in Hin|].
  apply elem_of_cons in Hin as [[= -> ->]|Hin]; [by exists c, es2|]. exfalso.
  rewrite cons_middle, app_assoc in He. destruct (list_mid _ _ _ _ He) as [_ Hgt2].
  specialize (Hgt2 _ Hin). specialize (Hgt (c, u)). cbn in Hgt, Hgt2.
  rewrite Hky in Hgt2. rewrite compare_keys_lt in Hgt, Hgt2. cbn in Hgt, Hgt2.
  assert (_ ∨ _) by (apply Hgt; by left). lia.
Qed.

Lemma next_other n x es1 a b u es2 :
  instances d l !! n = Some x → instances d l !! Datatypes.S n = None → es = es1 ++ (a, x.1) :: (b, u) :: es2 →
  Domain (key_at (caps st) u) ≠ d_domain d ∨ CapId (key_at (caps st) u) ≠ d_id d.
Proof.
  intros Hx Hnone He. assert (Hkx := instance_key _ _ Hx).
  destruct (decide (Domain (key_at (caps st) u) = d_domain d)) as [Hd|]; [|by left].
  destruct (decide (CapId (key_at (caps st) u) = d_id d)) as [Hi|]; [|by right]. exfalso.
  destruct (list_mid _ _ _ _ He) as [_ Hgt]. specialize (Hgt (b, u)). cbn in Hgt.
  rewrite Hkx, compare_keys_lt in Hgt. cbn in Hgt.
  destruct (key_instance u (Instance (key_at (caps st) u))) as (m & y & Hm & Hy & _).
  { rewrite He. apply (list_elem_of_fmap_2 snd _ (b, u)). set_solver. }
  { rewrite <-Hd, <-Hi. by destruct (key_at (caps st) u). }
  rewrite Hd, Hi, Hm in Hgt. assert (_ ∨ _) by (apply Hgt; by left).
  apply lookup_lt_Some in Hy. apply lookup_ge_None in Hnone. lia.
Qed.

(** ** The queries *)

Lemma query_fuel : (length es < Datatypes.S (size (caps st)))%nat.
Proof.
  assert (Hsub : list_to_set (C := gset positive) es.*2 ⊆ dom (caps st)).
  { intros p Hp. apply elem_of_list_to_set in Hp. apply elem_of_dom. by eapply cap_list_alloc. }
  apply subseteq_size in Hsub. rewrite size_list_to_set, size_dom, length_fmap in Hsub by (by eapply cap_list_nodup).
  lia.
Qed.

(** The answer of a lookup. *)
Definition lookup_result (Cap : option (option positive)) (found : option positive) :
    Z * option (option positive) :=
  match found with
  | Some p => (RETURN_SUCCESS, (λ _, Some p) <$> Cap)
  | None => (RETURN_NOT_FOUND, Cap)
  end.

Lemma find_cap_spec n Cap (Q : Z * option (option positive) → pci_state D S → Prop) :
  Q (lookup_result Cap (fst <$> instances d l !! n)) st →
  wp (PciCapListFindCap CapList (d_domain d) (d_id d) (Z.of_nat n) Cap) Q st.
Proof.
  intros HQ. unfold PciCapListFindCap. wp_seq. apply wp_get_caps.
  wp_seq. eapply wp_query; [apply list_search|].
  destruct (instances d l !! n) as [x|] eqn:Hx.
  - destruct (instance_entry _ _ Hx) as (es1 & a & es2 & He).
    rewrite (find_instance _ _ _ _ _ Hx He). cbn in HQ. destruct Cap as [o|]; [|done].
    wp_seq. eapply wp_query; [|wp_seq; exact HQ]. apply (law_UserStruct _ CapList es1 a _ es2).
    rewrite <-He. apply list_contents.
  - by rewrite find_no_instance.
Qed.

Lemma entry_structure n x : instances d l !! n = Some x → ∃ y, caps st !! x.1 = Some y ∧
  Domain (Key y) = d_domain d ∧ CapId (Key y) = d_id d ∧ Version y = d_version x.2.
Proof.
  intros (l1 & l2 & Hl & [Hd Hi] & _)%instance_split. eexists. split; [by apply (cl_rep _ _ _ _ _ _ Hcl l1 x l2)|].
  by split_and!.
Qed.

Lemma version_loop_spec fuel n x es1 a es2 MinVersion Cap
    (Q : Z * option (option positive) → pci_state D S → Prop) :
  instances d l !! n = Some x → es = es1 ++ (a, x.1) :: es2 → (Datatypes.S (length es2) < fuel)%nat →
  Q (lookup_result Cap (first_version MinVersion (drop n (instances d l)))) st →
  wp (version_loop fuel (d_domain d) (d_id d) MinVersion Cap (Some a)) Q st.
Proof.
  revert n x es1 a es2. induction fuel as [|fuel IH]; intros n x es1 a es2 Hx He Hf HQ; [lia|].
  cbn [version_loop]. assert (Hc := list_contents). rewrite He in Hc.
  wp_seq. eapply wp_query; [by eapply law_UserStruct|].
  destruct (entry_structure _ _ Hx) as (c & Hcx & Hd & Hi & Hv).
  wp_seq. eapply wp_get_cap; [done|]. rewrite Hd, Hi, Hv, Z.eqb_refl, bool_decide_false by tauto. cbn [negb orb].
  rewrite (drop_S _ _ _ Hx), first_version_cons in HQ. destruct (d_version x.2 >=? MinVersion); [by wp_seq|].
  wp_seq. eapply wp_query; [by eapply law_Next|]. destruct (instances d l !! Datatypes.S n) as [y|] eqn:Hy.
  - destruct (next_instance _ _ _ _ _ _ Hx Hy He) as (b & es3 & ->). cbn.
    eapply (IH (Datatypes.S n) y (es1 ++ [(a, x.1)]) b es3); [done|by rewrite <-app_assoc|cbn in Hf; lia|done].
  - rewrite drop_ge in HQ by by apply lookup_ge_None. cbn in HQ.
    destruct es2 as [|[b u] es2]; (destruct fuel as [|fuel]; [cbn in Hf; lia|]); cbn [version_loop head fmap option_fmap option_map fst]; [done|].
    pose proof (next_other _ _ _ _ _ _ _ Hx Hy He) as Hother. rewrite cons_middle, app_assoc in Hc.
    wp_seq. eapply wp_query; [by eapply law_UserStruct|].
    destruct (cap_list_alloc _ _ _ _ _ _ u Hcl) as [cu Hcu].
    { rewrite He. apply (list_elem_of_fmap_2 snd _ (b, u)). set_solver. }
    unfold key_at in Hother. rewrite Hcu in Hother.
    wp_seq. eapply wp_get_cap; [done|]. replace (_ || _) with true; [done|]. symmetry. apply orb_true_iff.
    destruct Hother as [?|?]; [left; by apply bool_decide_eq_true|right]. by apply negb_true_iff, Z.eqb_neq.
Qed.

Lemma find_version_spec MinVersion Cap (Q : Z * option (option positive) → pci_state D S → Prop) :
  Q (lookup_result Cap (first_version MinVersion (instances d l))) st →
  wp (PciCapListFindCapVersion CapList (d_domain d) (d_id d) MinVersion Cap) Q st.
Proof.
  intros HQ. unfold PciCapListFindCapVersion. wp_seq. apply wp_get_caps. unfold caps_fuel.
  wp_seq. apply wp_get_caps. wp_seq.
  eapply wp_query; [apply list_search|].
  destruct (instances d l !! 0%nat) as [x|] eqn:Hx.
  - destruct (instance_entry _ _ Hx) as (es1 & a & es2 & He).
    pose proof (find_instance _ _ _ _ _ Hx He) as Hfind. change (Z.of_nat 0) with 0 in Hfind. rewrite Hfind.
    eapply (version_loop_spec _ 0); [done|done| |by rewrite drop_0].
    pose proof query_fuel as Hf. rewrite He, length_app in Hf. cbn in Hf. lia.
  - pose proof (find_no_instance _ Hx) as Hfind. change (Z.of_nat 0) with 0 in Hfind. rewrite Hfind.
    by destruct (instances d l).
Qed.

(** The information about the item [x]. *)
Definition item_info l1 x : PCI_CAP_INFO :=
  CapInfo (d_domain x.2) (d_id x.2) (Z.of_nat (count x.2 l)) (Z.of_nat (count x.2 l1))
    (d_offset x.2) (hint x.1) (d_version x.2).

Lemma get_info_spec l1 x l2 (Q : Z * PCI_CAP_INFO → pci_state D S → Prop) :
  l = l1 ++ x :: l2 → Q (RETURN_SUCCESS, item_info l1 x) st → wp (PciCapGetInfo x.1) Q st.
Proof.
  intros Hl HQ. assert (Hrep := cl_rep _ _ _ _ _ _ Hcl). unfold PciCapGetInfo.
  wp_seq. eapply wp_get_cap; [by eapply Hrep|]. cbn [structure_of Key Instance NumInstancesUnion].
  destruct (head (instances x.2 l1)) as [z|] eqn:Hz.
  - assert (Hpos : count x.2 l1 ≠ 0%nat) by (intros Hc%head_instances_None; congruence).
    rewrite (proj2 (Z.eqb_neq _ 0)) by lia.
    destruct (head_instances _ _ _ Hz) as (Hs & m1 & m2 & Hl1 & Hc).
    wp_seq. eapply wp_get_cap; [apply (Hrep m1 z (m2 ++ x :: l2)); by rewrite Hl, Hl1, <-app_assoc|].
    rewrite (count_same _ _ _ Hs) in Hc. wp_seq. eapply wp_num_instances.
    { cbn. by rewrite (proj2 (head_instances_None _ _) Hc). }
    wp_seq. unfold item_info in HQ. by rewrite <-(count_same _ _ l Hs).
  - apply head_instances_None in Hz as Hc. rewrite Hc.
    change (Z.of_nat 0 =? 0) with true. cbn iota. wp_seq. eapply wp_num_instances; [cbn; by rewrite Hz|]. wp_seq. unfold item_info in HQ. cbn. rewrite Hc in HQ. done.
Qed.
End list.
End query.
