(* ===== verification/PciCapSpec.v ===== *)
(** * The PCI capability library against its specification

    A client that parses a device, looks capabilities up and releases the list sees
    nothing but the sequence of capabilities that the device reports: [spec_call]
    answers every lookup from that sequence alone. *)
From S2P Require Import Prelude CBase RbWalk OcInterface PciCap PciCapInv PciCapInsert PciCapFree.
From S2P Require Import PciCapParse PciCapFinish PciCapQuery RbDefs RbTree RbHeap OrderedCollection OcRedBlack.
Local Open Scope Z_scope.

(** ** The specification *)

(** The end of a capability: the next header, or the end of its config space. *)
Definition cap_end (ds : list desc) (d : desc) : Z :=
  foldr (λ e m, if d_offset d <? d_offset e then Z.min (d_offset e) m else m) (config_size (d_domain d)) ds.

Definition spec_instances (ds : list desc) (d : desc) : list desc := filter (same_cap d) ds.

Definition spec_info (ds : list desc) (d : desc) (n : nat) (e : desc) : PCI_CAP_INFO :=
  CapInfo (d_domain d) (d_id d) (Z.of_nat (length (spec_instances ds d))) (Z.of_nat n)
    (d_offset e) (cap_end ds e - d_offset e) (d_version e).

(** A lookup: of an instance by its number, or of the first one that is recent
    enough. *)
Inductive cap_call :=
  | ByInstance (d : PCI_CAP_DOMAIN) (id : Z) (n : nat)
  | ByVersion (d : PCI_CAP_DOMAIN) (id min : Z).

Definition call_desc (call : cap_call) : desc :=
  match call with ByInstance d id _ | ByVersion d id _ => Desc d id 0 0 end.

Definition spec_found (ds : list desc) (call : cap_call) : option (nat * desc) :=
  let insts := spec_instances ds (call_desc call) in
  match call with
  | ByInstance _ _ n => (λ e, (n, e)) <$> insts !! n
  | ByVersion _ _ min => list_find (λ e : desc, min ≤ d_version e) insts
  end.

Definition spec_call (ds : list desc) (call : cap_call) : Z * option PCI_CAP_INFO :=
  match spec_found ds call with
  | Some (n, e) => (RETURN_SUCCESS, Some (spec_info ds (call_desc call) n e))
  | None => (RETURN_NOT_FOUND, None)
  end.

(** ** A client *)

Section client.
Context {D S C : Type} `{OrderedCollectionOps positive S C} `{PciCapDev D} `{CapAllocator}.
Abbreviation M := (M (pci_state D S)).

Definition run_call (CapList : C) (call : cap_call) : M (Z * option PCI_CAP_INFO) :=
  '(Status, Cap) ←
    match call with
    | ByInstance d id n => PciCapListFindCap CapList d id (Z.of_nat n) (Some None)
    | ByVersion d id min => PciCapListFindCapVersion CapList d id min (Some None)
    end;
  if RETURN_ERROR Status then mret (Status, None) else
  match mjoin Cap with
  | Some Cap => '(Status, Info) ← PciCapGetInfo Cap; mret (Status, Some Info)
  | None => fails
  end.

Fixpoint run_calls (CapList : C) (calls : list cap_call) : M (list (Z * option PCI_CAP_INFO)) :=
  match calls with
  | [] => mret []
  | call :: calls => r ← run_call CapList call; rs ← run_calls CapList calls; mret (r :: rs)
  end.

(** Parse, look up, release. *)
Definition session (list_ok capabilities_ok offsets_ok : bool) (calls : list cap_call) :
    M (Z * list (Z * option PCI_CAP_INFO)) :=
  '(Status, CapList) ← PciCapListInit list_ok capabilities_ok offsets_ok;
  match CapList with
  | None => mret (Status, [])
  | Some CapList => rs ← run_calls CapList calls; PciCapListUninit CapList;; mret (Status, rs)
  end.
End client.

(** ** The list against the specification *)

Lemma instances_descs d (l : list item) : (instances d l).*2 = spec_instances l.*2 d.
Proof.
  unfold spec_instances. induction l as [|x l IH]; [done|]. rewrite instances_cons, fmap_cons, filter_cons.
  case_decide; cbn; by rewrite IH.
Qed.

Lemma count_descs d (l : list item) : count d l = length (spec_instances l.*2 d).
Proof. unfold count. by rewrite <-instances_descs, length_fmap. Qed.

Lemma cap_end_cons e ds d : cap_end (e :: ds) d =
  if d_offset d <? d_offset e then Z.min (d_offset e) (cap_end ds d) else cap_end ds d.
Proof. done. Qed.

(** [cap_end] is the least of its candidates. *)
Lemma cap_end_spec ds d : let m := cap_end ds d in
  m ≤ config_size (d_domain d) ∧ (∀ e, e ∈ ds → d_offset d < d_offset e → m ≤ d_offset e) ∧
  (m = config_size (d_domain d) ∨ ∃ e, e ∈ ds ∧ d_offset d < d_offset e ∧ m = d_offset e).
Proof.
  cbn zeta. induction ds as [|e ds (H1 & H2 & H3)].
  - split_and!; [done| |by left]. intros e He. by apply elem_of_nil in He.
  - assert (H3' : cap_end ds d = config_size (d_domain d) ∨
      ∃ e', e' ∈ e :: ds ∧ d_offset d < d_offset e' ∧ cap_end ds d = d_offset e').
    { destruct H3 as [?|(e' & ? & ? & ?)]; [by left|right]. exists e'. by split_and!; [right|..]. }
    rewrite cap_end_cons. destruct (Z.ltb_spec (d_offset d) (d_offset e)); split_and!; [lia| |..|done].
    + intros e' [->|He]%elem_of_cons Hlt'; [lia|]. specialize (H2 e' He Hlt'). lia.
    + destruct (Z.min_spec (d_offset e) (cap_end ds d)) as [[_ ->]|[_ ->]]; [|done].
      right. exists e. by split_and!; [left|..].
    + done.
    + intros e' [->|He]%elem_of_cons Hlt'; [lia|]. by apply H2.
Qed.

Lemma hints_end hint (l : list item) x : hints_fit hint l → x ∈ l →
  hint x.1 = cap_end l.*2 x.2 - d_offset x.2.
Proof.
  intros Hf Hx. destruct (Hf x Hx) as (H1 & H2 & H3 & H4).
  destruct (cap_end_spec l.*2 x.2) as (E1 & E2 & E3). cbn zeta in *.
  assert (Hle : d_offset x.2 + hint x.1 ≤ cap_end l.*2 x.2).
  { destruct E3 as [->|(e & (y & -> & Hy)%list_elem_of_fmap & Hlt & ->)]; [done|]. by apply H3. }
  destruct H4 as [?|(y & Hy & Heq)]; [lia|].
  assert (cap_end l.*2 x.2 ≤ d_offset y.2); [|lia].
  apply E2; [by apply list_elem_of_fmap_2|lia].
Qed.

(** The first instance that is recent enough has the address that is searched. *)
Lemma first_version_find min (xs : list item) :
  match list_find (λ e : desc, min ≤ d_version e) xs.*2 with
  | Some (n, e) => ∃ x, xs !! n = Some x ∧ x.2 = e ∧ first_version min xs = Some x.1
  | None => first_version min xs = None
  end.
Proof.
  induction xs as [|x xs IH]; [done|]. cbn [fmap list_fmap]. rewrite first_version_cons, Z.geb_leb. cbn.
  destruct (Z.leb_spec min (d_version x.2)).
  - rewrite decide_True by done. by exists x.
  - rewrite decide_False by lia. destruct (list_find _ xs.*2) as [[n e]|]; cbn; done.
Qed.

Section refinement.
Context {D S C : Type} `{HL : OrderedCollectionLaws positive S C} `{HD : PciCapDev D} `{HA : CapAllocator}.
Implicit Types (st : pci_state D S) (l : list item).

Section calls.
Context st0 st (hint : positive → Z) (CapList : C) (es : list (positive * positive)) l.
Context (Hcl : cap_list st0 st hint CapList es l) (Hfit : hints_fit hint l).

Lemma instance_info d n x : instances d l !! n = Some x →
  ∃ l1 l2, l = l1 ++ x :: l2 ∧ item_info hint l l1 x = spec_info l.*2 d n x.2.
Proof.
  intros (l1 & l2 & Hl & Hs & Hc)%instance_split. exists l1, l2. split; [done|].
  unfold item_info, spec_info. rewrite <-!(count_same _ _ _ Hs), Hc, count_descs.
  rewrite (hints_end _ l) by (done || (rewrite Hl; set_solver)). by destruct Hs as [-> ->].
Qed.

Lemma call_found call (found : option positive) (Q : Z * option PCI_CAP_INFO → pci_state D S → Prop) :
  match spec_found l.*2 call with
  | Some (n, e) => ∃ x, instances (call_desc call) l !! n = Some x ∧ x.2 = e ∧ found = Some x.1
  | None => found = None
  end →
  Q (spec_call l.*2 call) st →
  wp (let '(Status, Cap) := lookup_result (Some None) found in
      if RETURN_ERROR Status then mret (Status, None) else
      match mjoin Cap with
      | Some Cap => '(Status, Info) ← PciCapGetInfo Cap; mret (Status, Some Info)
      | None => fails
      end) Q st.
Proof.
  intros Hfound HQ. unfold spec_call in HQ. destruct (spec_found l.*2 call) as [[n e]|]; [|by subst].
  destruct Hfound as (x & Hx & <- & ->). cbn beta iota delta [lookup_result].
  change (RETURN_ERROR RETURN_SUCCESS) with false. cbn. wp_seq.
  destruct (instance_info _ _ _ Hx) as (l1 & l2 & Hl & Hinfo).
  eapply get_info_spec; [done..|]. cbn beta iota. wp_seq. by rewrite Hinfo.
Qed.

Lemma run_call_spec call (Q : Z * option PCI_CAP_INFO → pci_state D S → Prop) :
  Q (spec_call l.*2 call) st → wp (run_call CapList call) Q st.
Proof.
  intros HQ. unfold run_call. wp_seq. destruct call as [d id n|d id min].
  - eapply (find_cap_spec _ _ _ _ _ _ (Desc d id 0 0)); [done|].
    eapply (call_found (ByInstance d id n)); [|done]. cbn. rewrite <-instances_descs, list_lookup_fmap.
    destruct (instances _ l !! n) as [x|] eqn:Hx; cbn; [|done]. by exists x.
  - eapply (find_version_spec _ _ _ _ _ _ (Desc d id 0 0)); [done|].
    eapply (call_found (ByVersion d id min)); [|done]. cbn. rewrite <-instances_descs.
    pose proof (first_version_find min (instances (Desc d id 0 0) l)) as Hf.
    destruct (list_find _ _) as [[n e]|]; done.
Qed.

Lemma run_calls_spec calls (Q : list (Z * option PCI_CAP_INFO) → pci_state D S → Prop) :
  Q (spec_call l.*2 <$> calls) st → wp (run_calls CapList calls) Q st.
Proof.
  revert Q. induction calls as [|call calls IH]; intros Q HQ; cbn [run_calls]; [by wp_seq|].
  wp_seq. apply run_call_spec. wp_seq. apply IH. by wp_seq.
Qed.
End calls.

Lemma uninit_spec st0 st hint (CapList : C) es l (Q : unit → pci_state D S → Prop) :
  cap_list st0 st hint CapList es l →
  (∀ st', restored st0 st' → device st' = device st → live_lists st' = live_lists st - 1 → Q tt st') →
  wp (PciCapListUninit CapList) Q st.
Proof.
  intros Hcl HQ. unfold PciCapListUninit. wp_seq. eapply free_list_spec; [done|].
  intros st' [Hp Hc Hk] Hd Hl. apply wp_Some. eexists tt, _. split; [done|].
  apply HQ; [by split|done|cbn; lia].
Qed.
(** ** Properties *)

(** C4: the library refines its specification.  A client that parses a device,
    looks capabilities up by instance or by version, and releases the list,
    terminates on every device and with every allocator; all memory is then as it
    was before.  Either every answer (status, instance count and number, offset,
    size hint, version) is the one that the specification gives for the sequence of
    capabilities the device reports, or the parse fails: for lack of memory, or
    with the very status that traversing the lists of this device gives (an
    unreadable register, a repeated or an escaping header). *)
Theorem session_refines list_ok caps_ok offs_ok calls st :
  wp (session list_ok caps_ok offs_ok calls) (λ '(Status, answers) st',
    restored st st' ∧ live_lists st' = live_lists st ∧
    ((Status = RETURN_SUCCESS ∧ ∃ ds, device_caps (device st) ds RETURN_SUCCESS (device st') ∧
        answers = spec_call ds <$> calls) ∨
     (RETURN_ERROR Status = true ∧ answers = [] ∧
        (Status = RETURN_OUT_OF_RESOURCES ∨ ∃ ds, device_caps (device st) ds Status (device st'))))) st.
Proof.
  unfold session. wp_seq. eapply wp_mono; [apply init_spec|].
  intros r st1 [(CapList & l & -> & Hl & Hdc & hint & es & Hcl & Hfit)|(Status & -> & He & Hr & Hl & Hwhy)].
  - wp_seq. eapply run_calls_spec; [done..|]. wp_seq. eapply uninit_spec; [done|].
    intros st2 Hr Hd Hl2. wp_seq. split_and!; [done|lia|]. left. split; [done|]. exists l.*2. by rewrite Hd.
  - wp_seq. split_and!; [done..|]. by right.
Qed.

(** C15: PciCapListInit terminates on every device, also when its capability lists
    are circular, point anywhere or cannot be read.  On success there is one more
    list; its sequence of capabilities is the one the device reports, every
    structure holds its key, instance number, instance count, offset and version,
    and a size hint that ends at the next header or at the end of its config space.
    On failure no list, no structure and no node is left, every other collection
    has its entries, and the status tells why. *)
Theorem pci_init_correct list_ok caps_ok offs_ok st :
  wp (PciCapListInit list_ok caps_ok offs_ok) (λ '(Status, CapList) st',
    match CapList with
    | Some CapList => Status = RETURN_SUCCESS ∧ live_lists st' = live_lists st + 1 ∧
        ∃ l hint es, device_caps (device st) l.*2 RETURN_SUCCESS (device st') ∧
          cap_list st st' hint CapList es l ∧ hints_fit hint l
    | None => RETURN_ERROR Status = true ∧ live_lists st' = live_lists st ∧ restored st st' ∧
        (Status = RETURN_OUT_OF_RESOURCES ∨ ∃ ds, device_caps (device st) ds Status (device st'))
    end) st.
Proof.
  eapply wp_mono; [apply init_spec|].
  intros r st1 [(CapList & l & -> & Hl & Hdc & hint & es & Hcl & Hfit)|(Status & -> & He & Hr & Hl & Hwhy)].
  - split_and!; [done..|]. by exists l, hint, es.
  - by split_and!.
Qed.

(** C16: InsertPciCap preserves the invariant of a list under construction.  A new
    capability is appended to the sequence, with the next instance number and with
    the count in its first instance raised; a header that is already in the list is
    refused with RETURN_DEVICE_ERROR, and for lack of memory (at any of the three
    allocations) the call gives up: then both collections and all structures are as
    they were. *)
Theorem pci_insert_preserves st0 st CapList Hdr es1 es2 l d :
  cap_inv st0 st CapList Hdr es1 es2 l → wf_desc d → (d_domain d = PciCapExtended ∨ d_version d = 0) →
  wp (InsertPciCap CapList Hdr (d_domain d) (d_id d) (d_offset d) (d_version d))
    (λ '(Status, CapList', Hdr') st',
      device st' = device st ∧ live_lists st' = live_lists st ∧ ∃ es1' es2',
      (Status = RETURN_SUCCESS ∧ (d_offset d ∉ offsets l) ∧
         ∃ p, cap_inv st0 st' CapList' Hdr' es1' es2' (l ++ [(p, d)])) ∨
      (Status = RETURN_DEVICE_ERROR ∧ d_offset d ∈ offsets l ∧ cap_inv st0 st' CapList' Hdr' es1' es2' l) ∨
      (Status = RETURN_OUT_OF_RESOURCES ∧ cap_inv st0 st' CapList' Hdr' es1' es2' l)) st.
Proof.
  intros Hi Hwf Hv. eapply wp_mono; [by eapply InsertPciCap_spec|].
  intros [[Status CapList'] Hdr'] st' (Hd & Hl & es1' & es2' & Hres)%insert_post_cases.
  split_and!; [done..|]. exists es1', es2'. tauto.
Qed.

(** The lookups on a finished list find what they promise.  PciCapListFindCap
    finds the instance with the given number in traversal order, and
    PciCapListFindCapVersion the first one in traversal order with at least the
    given version; they report it only to a caller who asks for it, return
    RETURN_NOT_FOUND exactly if there is none, and change nothing. *)
Theorem lookup_correct st0 st hint CapList es l d n MinVersion Cap :
  cap_list st0 st hint CapList es l →
  PciCapListFindCap CapList (d_domain d) (d_id d) (Z.of_nat n) Cap st =
    Some (lookup_result Cap (fst <$> instances d l !! n), st) ∧
  PciCapListFindCapVersion CapList (d_domain d) (d_id d) MinVersion Cap st =
    Some (lookup_result Cap (first_version MinVersion (instances d l)), st).
Proof.
  intros Hcl. split; apply wp_run; [by eapply find_cap_spec|by eapply find_version_spec].
Qed.

(** Accesses through a capability stay inside of it.  PciCapRead and
    PciCapWrite refuse a transfer that does not fit the size hint, without an
    access to the device; any other transfer is one access at the offset of the
    capability (the 16-bit sum does not wrap) within its config space, which does
    not touch the header of another capability. *)
Theorem access_bounds st0 st hint CapList es l x Offset0 buf data Size :
  cap_list st0 st hint CapList es l → hints_fit hint l → x ∈ l → 0 ≤ Offset0 → 0 ≤ Size →
  if Offset0 + Size >? hint x.1 then
    PciCapRead x.1 Offset0 buf Size st = Some ((RETURN_BAD_BUFFER_SIZE, buf), st) ∧
    PciCapWrite x.1 Offset0 data Size st = Some (RETURN_BAD_BUFFER_SIZE, st)
  else
    let first := d_offset x.2 + Offset0 in
    PciCapRead x.1 Offset0 buf Size st = read_config first Size st ∧
    PciCapWrite x.1 Offset0 data Size st = write_config first data Size st ∧
    0 < first ∧ first + Size ≤ config_size (d_domain x.2) ∧
    ∀ y, y ∈ l → d_offset y.2 ≠ d_offset x.2 → ¬ first ≤ d_offset y.2 < first + Size.
Proof.
  intros Hcl Hfit Hx H0 HS. destruct (Hfit x Hx) as (Hpos & Hend & Hnext & _).
  destruct (cl_wf _ _ _ _ _ _ Hcl x Hx) as [_ Hoff]. pose proof (config_size_bound (d_domain x.2)).
  apply list_elem_of_split in Hx as (l1 & l2 & Hl). assert (Hmem := cl_rep _ _ _ _ _ _ Hcl l1 x l2 Hl).
  assert (Hget : get_cap x.1 st = Some (structure_of hint l l1 x, st)).
  { apply wp_run. by eapply wp_get_cap. }
  unfold PciCapRead, PciCapWrite. rewrite !(bind_run _ _ _ _ _ Hget). cbn [structure_of MaxSizeHint Offset].
  rewrite Z.gtb_ltb. destruct (Z.ltb_spec (hint x.1) (Offset0 + Size)) as [Hbad|Hok]; [done|].
  rewrite cast_id by (done || (cint_unfold; lia)).
  split_and!; [done|done|lia|lia|]. intros y Hy Hne Hin.
  assert (d_offset x.2 + hint x.1 ≤ d_offset y.2); [|lia]. apply Hnext; [done|lia].
Qed.
End refinement.

(** ** PCI capabilities on a concrete device

    A PCI Express device with three normal and two extended capabilities, parsed
    with the red-black tree as the collection library. *)

(** ** The instances *)

(** Config space as an array of bytes; accesses beyond it fail. *)
Definition config_read (off size : Z) (space : list Z) : Z * list Z * list Z :=
  if off + size <=? Z.of_nat (length space)
  then (RETURN_SUCCESS, take (Z.to_nat size) (drop (Z.to_nat off) space), space)
  else (RETURN_DEVICE_ERROR, [], space).
Definition config_write (off : Z) (buf : list Z) (size : Z) (space : list Z) : Z * list Z :=
  (RETURN_SUCCESS, list_inserts (Z.to_nat off) (take (Z.to_nat size) buf) space).

#[export] Instance config_dev : PciCapDev (list Z) := {|
  ReadConfig := config_read; WriteConfig := config_write |}.

Definition fresh_cap_node (h : rbheap positive) : option (positive * RED_BLACK_TREE_NODE positive) :=
  Some (fresh (dom h), RbNode xH None None None RedBlackTreeRed).

Lemma fresh_cap_node_fresh h a n : fresh_cap_node h = Some (a, n) → h !! a = None.
Proof. intros [= <- _]. apply not_elem_of_dom, is_fresh. Qed.

#[export] Instance cap_node_allocator : PoolAllocator positive := {|
  AllocatePool := fresh_cap_node; AllocatePool_fresh := fresh_cap_node_fresh |}.

(** Room for a number of structures. *)
Definition fresh_cap (room : nat) (mem : capmem) : option (positive * PCI_CAP) :=
  if (size mem <? room)%nat
  then Some (fresh (dom mem), PciCap (CapKey PciCapNormal 0 0) (NumInstances 0) 0 0 0) else None.

Lemma fresh_cap_fresh room mem p c : fresh_cap room mem = Some (p, c) → mem !! p = None.
Proof.
  unfold fresh_cap. destruct (_ <? _)%nat; [|done]. intros [= <- _]. apply not_elem_of_dom, is_fresh.
Qed.

Definition cap_room (room : nat) : CapAllocator := {|
  AllocateCap := fresh_cap room; AllocateCap_fresh := fresh_cap_fresh room |}.

(** ** A device *)

Definition poke (off : nat) (bytes : list Z) (space : list Z) : list Z := list_inserts off bytes space.

Definition blank : list Z := replicate 512 0.

(** Status register, capability pointer 0x40; at 0x40 PCI Express, at 0x60 and
    0x50 two instances of capability 5; at 0x100 and 0x140 two instances of the
    extended capability 1, with versions 1 and 2. *)
Definition pcie_space : list Z :=
  poke 0x06 [0x10; 0] (poke 0x34 [0x40] (poke 0x40 [0x10; 0x60] (poke 0x60 [5; 0x50] (poke 0x50 [5; 0]
  (poke 0x100 [1; 0; 1; 0x14] (poke 0x140 [1; 0; 2; 0] blank)))))).

(** The same, but the last normal header points back to the first one. *)
Definition circular_space : list Z := poke 0x51 [0x40] pcie_space.

Definition start (space : list Z) : pci_state (list Z) (rbheap positive) := PciState space ∅ ∅ 0.

Definition sample_calls : list cap_call :=
  [ByInstance PciCapNormal 5 0; ByInstance PciCapNormal 5 1; ByInstance PciCapNormal 5 2;
   ByVersion PciCapExtended 1 2; ByVersion PciCapExtended 1 3].

Definition sample_answers : list (Z * option PCI_CAP_INFO) :=
  [(RETURN_SUCCESS, Some (CapInfo PciCapNormal 5 2 0 0x60 0xA0 0));
   (RETURN_SUCCESS, Some (CapInfo PciCapNormal 5 2 1 0x50 0x10 0));
   (RETURN_NOT_FOUND, None);
   (RETURN_SUCCESS, Some (CapInfo PciCapExtended 1 2 1 0x140 0xEC0 2));
   (RETURN_NOT_FOUND, None)].

Example session_runs :
  session (H1 := cap_room 10) true true true sample_calls (start pcie_space) =
  Some ((RETURN_SUCCESS, sample_answers), start pcie_space).
Proof. vm_compute. reflexivity. Qed.

Example session_circular :
  session (H1 := cap_room 10) true true true sample_calls (start circular_space) =
  Some ((RETURN_DEVICE_ERROR, []), start circular_space).
Proof. vm_compute. reflexivity. Qed.

Example session_no_room :
  session (H1 := cap_room 4) true true true sample_calls (start pcie_space) =
  Some ((RETURN_OUT_OF_RESOURCES, []), start pcie_space).
Proof. vm_compute. reflexivity. Qed.

(** ** The properties at this device *)

Definition pcie_descs : list desc :=
  [Desc PciCapNormal 0x10 0x40 0; Desc PciCapNormal 5 0x60 0; Desc PciCapNormal 5 0x50 0;
   Desc PciCapExtended 1 0x100 1; Desc PciCapExtended 1 0x140 2].

(** One header of a list. *)
Lemma read_normal seen (space : list Z) off hdr d ds :
  0 < off → config_read off 2 space = (RETURN_SUCCESS, hdr, space) → bool_decide (off ∈ seen) = false →
  d = normal_desc off hdr → normal_chain (seen ++ [off]) space (normal_next hdr) ds RETURN_SUCCESS space →
  normal_chain seen space off (d :: ds) RETURN_SUCCESS space.
Proof. intros ? Hr ?%bool_decide_eq_false -> ?. by eapply normal_cap; [|exact Hr|..]. Qed.

Lemma read_extended seen (space : list Z) off hdr d ds :
  0 < off → config_read off 4 space = (RETURN_SUCCESS, hdr, space) → bool_decide (off ∈ seen) = false →
  (le32 hdr =? 0) || (0 <? extended_next hdr) && (extended_next hdr <? PCI_MAX_CONFIG_OFFSET) = false →
  d = extended_desc off hdr → extended_chain (seen ++ [off]) space (extended_next hdr) ds RETURN_SUCCESS space →
  extended_chain seen space off (d :: ds) RETURN_SUCCESS space.
Proof.
  intros ? Hr ?%bool_decide_eq_false [?%Z.eqb_neq Hn]%orb_false_iff -> ?.
  eapply extended_cap; [done|exact Hr|by intros [_ [?|?]]|done|done| |done].
  intros [?%Z.ltb_lt ?%Z.ltb_lt]. by apply andb_false_iff in Hn as [?|?]; congruence.
Qed.

Ltac headers l := repeat (eapply l; [done|vm_compute; reflexivity..|]).

Lemma pcie_caps : device_caps pcie_space pcie_descs RETURN_SUCCESS pcie_space.
Proof.
  eapply (caps_some _ RETURN_SUCCESS); [vm_compute; reflexivity|done|done|].
  eapply (caps_express _ RETURN_SUCCESS [0x40] pcie_space [_; _; _] RETURN_SUCCESS pcie_space);
    [vm_compute; reflexivity|done| |done| |].
  - headers read_normal. apply normal_end.
  - done.
  - headers read_extended. apply extended_end.
Qed.

Lemma start_contents space : contents (nodes (start space)) None [].
Proof. exists E. split_and!; [|done| |done]; [by split; cbn; [| |intros; lia|]|]. exists 0%nat. constructor. Qed.

Definition init_succeeds (r : option (Z * option (option positive) * pci_state (list Z) (rbheap positive))) : bool :=
  match r with Some ((Status, Some _), _) => negb (RETURN_ERROR Status) | _ => false end.

Lemma pcie_init : init_succeeds (PciCapListInit (H1 := cap_room 10) true true true (start pcie_space)) = true.
Proof. vm_compute. reflexivity. Qed.

(** The list that PciCapListInit makes of this device. *)
Lemma pcie_list : ∃ st hint CapList es l,
  cap_list (start pcie_space) st hint CapList es l ∧ hints_fit hint l ∧ l.*2 = pcie_descs.
Proof.
  destruct (wp_elim _ _ _ (init_spec (HA := cap_room 10) true true true (start pcie_space)))
    as (r & st & Hrun & Hpost).
  assert (Hok := pcie_init). rewrite Hrun in Hok.
  destruct Hpost as [(CapList & l & -> & _ & Hdc & hint & es & Hcl & Hfit)|(Status & -> & _)]; [|discriminate].
  exists st, hint, CapList, es, l. split_and!; [done..|].
  by destruct (device_caps_det _ _ _ _ _ _ _ Hdc pcie_caps) as (-> & _).
Qed.

Lemma session_refines_witness : ∃ ds,
  device_caps pcie_space ds RETURN_SUCCESS pcie_space ∧ sample_answers = spec_call ds <$> sample_calls.
Proof.
  pose proof (session_refines (HA := cap_room 10) true true true sample_calls (start pcie_space)) as Hs.
  unfold wp in Hs. rewrite session_runs in Hs. destruct Hs as (_ & _ & [[_ Hs]|[He _]]); [exact Hs|discriminate].
Defined.

Lemma pci_init_correct_witness : ∃ st hint CapList es l,
  cap_list (start pcie_space) st hint CapList es l ∧ live_lists st = 1 ∧ l.*2 = pcie_descs.
Proof.
  destruct (wp_elim _ _ _ (pci_init_correct (HA := cap_room 10) true true true (start pcie_space)))
    as ([Status o] & st & Hrun & Hpost).
  assert (Hok := pcie_init). rewrite Hrun in Hok. destruct o as [CapList|]; [|discriminate].
  destruct Hpost as (_ & Hl & l & hint & es & Hdc & Hcl & _). exists st, hint, CapList, es, l.
  split_and!; [done|exact Hl|]. by destruct (device_caps_det _ _ _ _ _ _ _ Hdc pcie_caps) as (-> & _).
Defined.

Lemma pci_insert_preserves_witness : is_Some (InsertPciCap (H1 := cap_room 10) None None PciCapNormal 5 0x40 0 (start blank)).
Proof.
  pose proof (pci_insert_preserves (HA := cap_room 10) (start blank) (start blank) None None [] [] []
    (Desc PciCapNormal 5 0x40 0)) as Hins.
  apply wp_elim in Hins as (r & st & Hrun & _).
  - exists (r, st). exact Hrun.
  - apply cap_inv_start; [done|done|apply start_contents..].
  - by split.
  - by right.
Defined.

Lemma lookup_correct_witness : ∃ (st : pci_state (list Z) (rbheap positive)) (CapList : option positive) p,
  PciCapListFindCap CapList PciCapNormal 5 1 (Some None) st = Some ((RETURN_SUCCESS, Some (Some p)), st) ∧
  PciCapListFindCap CapList PciCapNormal 5 2 None st = Some ((RETURN_NOT_FOUND, None), st).
Proof.
  destruct pcie_list as (st & hint & CapList & es & l & Hcl & _ & Hl).
  set (d := Desc PciCapNormal 5 0 0).
  assert (Hi := instances_descs d l). rewrite Hl in Hi.
  destruct (instances d l) as [|x [|y [|]]] eqn:Hd; try discriminate. exists st, CapList, y.1.
  destruct (lookup_correct (start pcie_space) st hint CapList es l d 1 0 (Some None) Hcl) as [H1 _].
  destruct (lookup_correct (start pcie_space) st hint CapList es l d 2 0 None Hcl) as [H2 _].
  rewrite Hd in H1, H2. split; [exact H1|exact H2].
Defined.

Lemma access_bounds_witness : ∃ (st : pci_state (list Z) (rbheap positive)) p,
  PciCapRead p 4 [] 12 st = read_config 0x54 12 st ∧
  PciCapRead p 4 [] 13 st = Some ((RETURN_BAD_BUFFER_SIZE, []), st).
Proof.
  destruct pcie_list as (st & hint & CapList & es & l & Hcl & Hfit & Hl).
  destruct l as [|[p1 d1] [|[p2 d2] [|[p d] l]]]; try discriminate. cbn in Hl. injection Hl as -> -> -> Hl.
  assert (Hx : (p, Desc PciCapNormal 5 0x50 0) ∈ (p1, Desc PciCapNormal 16 0x40 0) :: (p2, Desc PciCapNormal 5 0x60 0)
    :: (p, Desc PciCapNormal 5 0x50 0) :: l) by set_solver.
  assert (Hh : hint p = 16).
  { pose proof (hints_end _ _ _ Hfit Hx) as He. rewrite !fmap_cons, Hl in He. exact He. }
  exists st, p.
  pose proof (access_bounds _ st hint CapList es _ _ 4 [] [] 12 Hcl Hfit Hx) as H12.
  pose proof (access_bounds _ st hint CapList es _ _ 4 [] [] 13 Hcl Hfit Hx) as H13.
  cbn [fst snd d_offset] in H12, H13. rewrite Hh in H12, H13. split.
  - apply H12; lia.
  - apply H13; lia.
Defined.
