(* ===== verification/LinkedList.v ===== *)
(** * Doubly-linked lists (MdePkg/Library/BaseLib/LinkedList.c)

    The nodes are [LIST_ENTRY] structures in a heap.  Every function is a heap
    program with the ASSERTs of a debug build; [None] is a failed ASSERT, a NULL
    or dangling pointer, or a loop that outlives its fuel. *)
From S2P Require Import Prelude CBase.
Local Open Scope Z_scope.

Abbreviation lptr := (option positive) (only parsing).

Record LIST_ENTRY := ListEntry { ForwardLink : lptr; BackLink : lptr }.

Abbreviation llheap := (gmap positive LIST_ENTRY).

(** Build settings: PcdMaximumLinkedListLength (a UINT32) and
    PcdVerifyNodeInList. *)
Class LinkedListPcd := {
  PcdMaximumLinkedListLength : Z;
  PcdVerifyNodeInList : bool;
  Pcd_range : in_range UINT32 PcdMaximumLinkedListLength }.

Section code.
Context `{LinkedListPcd}.
Abbreviation M := (M llheap).

Definition link_get (f : LIST_ENTRY → lptr) (p : lptr) : M lptr :=
  match p with
  | Some a => λ h, n ← h !! a; Some (f n, h)
  | None => fails
  end.

Definition set_ForwardLink (p v : lptr) : M unit :=
  match p with
  | Some a => λ h, n ← h !! a; Some (tt, <[a := ListEntry v (BackLink n)]> h)
  | None => fails
  end.

Definition set_BackLink (p v : lptr) : M unit :=
  match p with
  | Some a => λ h, n ← h !! a; Some (tt, <[a := ListEntry (ForwardLink n) v]> h)
  | None => fails
  end.

Definition same (p q : lptr) : bool := bool_decide (p = q).
Definition non_null (p : lptr) : bool := bool_decide (p ≠ None).

(** The do-while loop of InternalBaseLibIsListValid; the test on [Count] bounds
    it by PcdMaximumLinkedListLength iterations, which is the fuel it gets. *)
Fixpoint count_nodes (fuel : nat) (List Ptr : lptr) (Count : Z) : M Z :=
  match fuel with
  | O => fails
  | S fuel =>
      Ptr ← link_get ForwardLink Ptr;
      let Count := cast UINTN (Count + 1) in
      if negb (same Ptr List) && (Count <? PcdMaximumLinkedListLength)
      then count_nodes fuel List Ptr Count
      else mret Count
  end.

Definition InternalBaseLibIsListValid (List : lptr) : M bool :=
  ASSERT (non_null List);;
  f ← link_get ForwardLink List; ASSERT (non_null f);;
  b ← link_get BackLink List; ASSERT (non_null b);;
  if 0 <? PcdMaximumLinkedListLength then
    Count ← count_nodes (Z.to_nat PcdMaximumLinkedListLength) List List 0;
    mret (Count <? PcdMaximumLinkedListLength)
  else mret true.

(** The do-while loop of IsNodeInList. *)
Fixpoint find_node (fuel : nat) (FirstEntry SecondEntry Ptr : lptr) (Count : Z) : M bool :=
  match fuel with
  | O => fails
  | S fuel =>
      Ptr ← link_get ForwardLink Ptr;
      let limited := 0 <? PcdMaximumLinkedListLength in
      let Count := if limited then cast UINTN (Count + 1) else Count in
      if limited && (Count =? PcdMaximumLinkedListLength) then mret (same Ptr SecondEntry) else
      if same Ptr SecondEntry then mret true else
      if negb (same Ptr FirstEntry) then find_node fuel FirstEntry SecondEntry Ptr Count
      else mret false
  end.

Definition IsNodeInList (FirstEntry SecondEntry : lptr) : M bool :=
  v ← InternalBaseLibIsListValid FirstEntry; ASSERT v;;
  ASSERT (non_null SecondEntry);;
  h ← get_state;
  find_node (S (size h)) FirstEntry SecondEntry FirstEntry 0.

(** ASSERT_VERIFY_NODE_IN_VALID_LIST *)
Definition ASSERT_VERIFY_NODE_IN_VALID_LIST (FirstEntry SecondEntry : lptr) (InList : bool) : M unit :=
  if PcdVerifyNodeInList then
    b ← IsNodeInList FirstEntry SecondEntry; ASSERT (eqb InList b)
  else
    v ← InternalBaseLibIsListValid FirstEntry; ASSERT v.

Definition InitializeListHead (ListHead : lptr) : M lptr :=
  ASSERT (non_null ListHead);;
  set_ForwardLink ListHead ListHead;;
  set_BackLink ListHead ListHead;;
  mret ListHead.

Definition InsertHeadList (ListHead Entry : lptr) : M lptr :=
  ASSERT_VERIFY_NODE_IN_VALID_LIST ListHead Entry false;;
  f ← link_get ForwardLink ListHead;
  set_ForwardLink Entry f;;
  set_BackLink Entry ListHead;;
  f ← link_get ForwardLink Entry;
  set_BackLink f Entry;;
  set_ForwardLink ListHead Entry;;
  mret ListHead.

Definition InsertTailList (ListHead Entry : lptr) : M lptr :=
  ASSERT_VERIFY_NODE_IN_VALID_LIST ListHead Entry false;;
  set_ForwardLink Entry ListHead;;
  b ← link_get BackLink ListHead;
  set_BackLink Entry b;;
  b ← link_get BackLink Entry;
  set_ForwardLink b Entry;;
  set_BackLink ListHead Entry;;
  mret ListHead.

Definition GetFirstNode (List : lptr) : M lptr :=
  v ← InternalBaseLibIsListValid List; ASSERT v;;
  link_get ForwardLink List.

Definition GetNextNode (List Node : lptr) : M lptr :=
  ASSERT_VERIFY_NODE_IN_VALID_LIST List Node true;;
  link_get ForwardLink Node.

Definition GetPreviousNode (List Node : lptr) : M lptr :=
  ASSERT_VERIFY_NODE_IN_VALID_LIST List Node true;;
  link_get BackLink Node.

Definition IsListEmpty (ListHead : lptr) : M bool :=
  v ← InternalBaseLibIsListValid ListHead; ASSERT v;;
  f ← link_get ForwardLink ListHead;
  mret (same f ListHead).

Definition IsNull (List Node : lptr) : M bool :=
  ASSERT_VERIFY_NODE_IN_VALID_LIST List Node true;;
  mret (same Node List).

Definition IsNodeAtEnd (List Node : lptr) : M bool :=
  ASSERT_VERIFY_NODE_IN_VALID_LIST List Node true;;
  n ← IsNull List Node;
  if (n : bool) then mret false else
  b ← link_get BackLink List; mret (same b Node).

Definition RemoveEntryList (Entry : lptr) : M lptr :=
  e ← IsListEmpty Entry; ASSERT (negb e);;
  f ← link_get ForwardLink Entry;
  b ← link_get BackLink Entry;
  set_BackLink f b;;
  b ← link_get BackLink Entry;
  f ← link_get ForwardLink Entry;
  set_ForwardLink b f;;
  link_get ForwardLink Entry.

Definition SwapListEntries (FirstEntry SecondEntry : lptr) : M lptr :=
  if same FirstEntry SecondEntry then mret SecondEntry else
  ASSERT_VERIFY_NODE_IN_VALID_LIST FirstEntry SecondEntry true;;
  Ptr ← RemoveEntryList FirstEntry;
  b ← link_get BackLink Ptr;
  if same b SecondEntry then InsertTailList SecondEntry FirstEntry else
  r ← InsertHeadList SecondEntry FirstEntry;
  if same Ptr r then mret Ptr else
  RemoveEntryList SecondEntry;;
  InsertTailList Ptr SecondEntry;;
  mret SecondEntry.

End code.
#[global] Arguments link_get : simpl never.
#[global] Arguments set_ForwardLink : simpl never.
#[global] Arguments set_BackLink : simpl never.
