(* ===== verification/LinkedRing.v ===== *)
(** * Rings of list entries

    [ring h x l]: starting from node [x], the forward links of heap [h] visit the
    distinct nodes [l] and come back to [x], and the backward links are their
    inverse.  A ring can be read from any of its nodes. *)
From S2P Require Import Prelude CBase LinkedList.

Implicit Types (h : llheap) (a b e x y z : positive) (l : list positive).

Definition fw h x : option positive := n ← h !! x; ForwardLink n.
Definition bk h x : option positive := n ← h !! x; BackLink n.

Definition link h x y : Prop := fw h x = Some y ∧ bk h y = Some x.

Fixpoint path h x l y : Prop :=
  match l with
  | [] => link h x y
  | z :: l => link h x z ∧ path h z l y
  end.

Definition ring h x l : Prop := path h x l x ∧ NoDup (x :: l).

Lemma path_app h x l1 z l2 y : path h x (l1 ++ z :: l2) y ↔ path h x l1 z ∧ path h z l2 y.
Proof. revert x. induction l1 as [|w l1 IH]; intros x; cbn; [done|]. rewrite IH. tauto. Qed.

(** Reading the ring from another of its nodes. *)
Lemma ring_rotate h x l1 z l2 : ring h x (l1 ++ z :: l2) ↔ ring h z (l2 ++ x :: l1).
Proof.
  unfold ring. rewrite !path_app.
  assert (Hp : x :: l1 ++ z :: l2 ≡ₚ z :: l2 ++ x :: l1).
  { change (x :: l1 ++ z :: l2) with ((x :: l1) ++ z :: l2). by rewrite Permutation_app_comm. }
  rewrite Hp. tauto.
Qed.

Lemma path_ext h h' x l y :
  (∀ z, z ∈ x :: l → fw h' z = fw h z) → (∀ z, z ∈ l ++ [y] → bk h' z = bk h z) →
  path h x l y → path h' x l y.
Proof.
  revert x. induction l as [|w l IH]; intros x Hf Hb; cbn; unfold link.
  - rewrite Hf, Hb; [done|by left|by left].
  - intros [Hl Hp]. rewrite Hf, Hb; [|by left|by left]. split; [done|].
    apply IH; [|by intros z Hz; apply Hb; right|done]. intros z Hz. apply Hf. by right.
Qed.

Lemma path_bk h x l y : path h x l y → bk h y = last (x :: l).
Proof.
  revert x. induction l as [|z l IH]; intros x; cbn; [by intros [_ ?]|].
  intros [_ Hp]. rewrite (IH z Hp). by rewrite !last_cons; destruct (last l).
Qed.

Lemma path_fw h x l y : path h x l y → fw h x = head (l ++ [y]).
Proof. destruct l; cbn; [by intros [? _]|by intros [[? _] _]]. Qed.

Lemma path_snoc h x l w y : path h x (l ++ [w]) y ↔ path h x l w ∧ link h w y.
Proof. by rewrite path_app. Qed.

(** The nodes of a path are allocated. *)
Lemma path_alloc h x l y z : path h x l y → z ∈ x :: l → is_Some (fw h z).
Proof.
  revert x. induction l as [|w l IH]; intros x; cbn.
  - intros [Hf _] ->%list_elem_of_singleton. by eexists.
  - intros [[Hf _] Hp] [->|Hz]%elem_of_cons; [by eexists|]. by eapply IH.
Qed.

Lemma fw_alloc h z : is_Some (fw h z) → is_Some (h !! z).
Proof. unfold fw. destruct (h !! z); [by eexists|by intros []]. Qed.
Lemma bk_alloc h z : is_Some (bk h z) → is_Some (h !! z).
Proof. unfold bk. destruct (h !! z); [by eexists|by intros []]. Qed.

(** ** Stores *)

Definition setf h a v : llheap := alter (λ n, ListEntry v (BackLink n)) a h.
Definition setb h a v : llheap := alter (λ n, ListEntry (ForwardLink n) v) a h.

Lemma fw_setf h a v z : fw (setf h a v) z = if decide (a = z) then _ ← h !! z; v else fw h z.
Proof.
  unfold fw, setf. case_decide as Haz.
  - subst. rewrite lookup_alter_eq. by destruct (h !! z).
  - by rewrite lookup_alter_ne.
Qed.
Lemma bk_setf h a v z : bk (setf h a v) z = bk h z.
Proof.
  unfold bk, setf. destruct (decide (a = z)) as [->|].
  - rewrite lookup_alter_eq. by destruct (h !! z).
  - by rewrite lookup_alter_ne.
Qed.
Lemma bk_setb h a v z : bk (setb h a v) z = if decide (a = z) then _ ← h !! z; v else bk h z.
Proof.
  unfold bk, setb. case_decide as Haz.
  - subst. rewrite lookup_alter_eq. by destruct (h !! z).
  - by rewrite lookup_alter_ne.
Qed.
Lemma fw_setb h a v z : fw (setb h a v) z = fw h z.
Proof.
  unfold fw, setb. destruct (decide (a = z)) as [->|].
  - rewrite lookup_alter_eq. by destruct (h !! z).
  - by rewrite lookup_alter_ne.
Qed.

Lemma setf_alloc h a v z : is_Some (setf h a v !! z) ↔ is_Some (h !! z).
Proof. unfold setf. apply lookup_alter_is_Some. Qed.
Lemma setb_alloc h a v z : is_Some (setb h a v !! z) ↔ is_Some (h !! z).
Proof. unfold setb. apply lookup_alter_is_Some. Qed.

Lemma fw_setf_eq h a v : is_Some (h !! a) → fw (setf h a v) a = v.
Proof. intros [n Hn]. rewrite fw_setf, decide_True by done. by rewrite Hn. Qed.
Lemma fw_setf_ne h a v z : a ≠ z → fw (setf h a v) z = fw h z.
Proof. intros Hne. by rewrite fw_setf, decide_False. Qed.
Lemma bk_setb_eq h a v : is_Some (h !! a) → bk (setb h a v) a = v.
Proof. intros [n Hn]. rewrite bk_setb, decide_True by done. by rewrite Hn. Qed.
Lemma bk_setb_ne h a v z : a ≠ z → bk (setb h a v) z = bk h z.
Proof. intros Hne. by rewrite bk_setb, decide_False. Qed.

Lemma lookup_setf_ne h a v z : a ≠ z → setf h a v !! z = h !! z.
Proof. apply lookup_alter_ne. Qed.
Lemma lookup_setb_ne h a v z : a ≠ z → setb h a v !! z = h !! z.
Proof. apply lookup_alter_ne. Qed.

Create Rewrite HintDb ring.
#[export] Hint Rewrite bk_setf fw_setb setf_alloc setb_alloc : ring.
#[export] Hint Rewrite fw_setf_ne bk_setb_ne lookup_setf_ne lookup_setb_ne using (by auto) : ring.
#[export] Hint Rewrite fw_setf_eq bk_setb_eq using (autorewrite with ring; by auto) : ring.

(** ** Execution *)

Lemma wp_fw (Q : option positive → llheap → Prop) h x :
  is_Some (h !! x) → Q (fw h x) h → wp (link_get ForwardLink (Some x)) Q h.
Proof. unfold wp, link_get, fw. intros [n ->]. done. Qed.
Lemma wp_bk (Q : option positive → llheap → Prop) h x :
  is_Some (h !! x) → Q (bk h x) h → wp (link_get BackLink (Some x)) Q h.
Proof. unfold wp, link_get, bk. intros [n ->]. done. Qed.

Lemma setf_insert h a v n : h !! a = Some n → <[a := ListEntry v (BackLink n)]> h = setf h a v.
Proof.
  intros Hn. apply map_eq. intros z. unfold setf. destruct (decide (a = z)) as [->|].
  - by rewrite lookup_insert_eq, lookup_alter_eq, Hn.
  - by rewrite lookup_insert_ne, lookup_alter_ne.
Qed.
Lemma setb_insert h a v n : h !! a = Some n → <[a := ListEntry (ForwardLink n) v]> h = setb h a v.
Proof.
  intros Hn. apply map_eq. intros z. unfold setb. destruct (decide (a = z)) as [->|].
  - by rewrite lookup_insert_eq, lookup_alter_eq, Hn.
  - by rewrite lookup_insert_ne, lookup_alter_ne.
Qed.

Lemma wp_setf (Q : unit → llheap → Prop) h a v :
  is_Some (h !! a) → Q tt (setf h a v) → wp (set_ForwardLink (Some a) v) Q h.
Proof. unfold wp, set_ForwardLink. intros [n Hn]. rewrite Hn. cbn. by rewrite (setf_insert _ _ _ n). Qed.
Lemma wp_setb (Q : unit → llheap → Prop) h a v :
  is_Some (h !! a) → Q tt (setb h a v) → wp (set_BackLink (Some a) v) Q h.
Proof. unfold wp, set_BackLink. intros [n Hn]. rewrite Hn. cbn. by rewrite (setb_insert _ _ _ n). Qed.

(** ** Inserting after and removing, on links *)

(** Node [e] is linked between [x] and its successor [y]. *)
Lemma ring_insert h h' x l e y :
  ring h x l → e ∉ x :: l → head (l ++ [x]) = Some y →
  link h' x e → link h' e y →
  (∀ z, z ∈ l → fw h' z = fw h z) →
  (∀ z, z ∈ x :: l → z ≠ y → bk h' z = bk h z) →
  ring h' x (e :: l).
Proof.
  intros [Hp Hnd] He Hy Hxe Hey Hf Hb. split; cycle 1.
  { rewrite NoDup_cons in Hnd |- *. rewrite NoDup_cons. set_solver. }
  cbn. split; [done|]. destruct l as [|z l]; cbn in Hy; simplify_eq; [done|].
  cbn in *. split; [done|]. destruct Hp as [_ Hp]. eapply path_ext; [| |exact Hp].
  - intros w Hw. by apply Hf.
  - apply NoDup_cons in Hnd as [Hx [Hz Hl]%NoDup_cons]. intros w Hw. apply Hb; [set_solver|].
    intros ->. apply elem_of_app in Hw as [Hw|Hw%list_elem_of_singleton]; [done|].
    subst. apply Hx. by left.
Qed.

(** The base node [e] of a ring [e, z, l] is bypassed. *)
Lemma ring_remove h h' e z l w :
  ring h e (z :: l) → last (z :: l) = Some w → link h' w z →
  (∀ x, x ∈ z :: l → x ≠ w → fw h' x = fw h x) →
  (∀ x, x ∈ l → bk h' x = bk h x) →
  ring h' z l.
Proof.
  intros [[_ Hp] Hnd] Hw Hlink Hf Hb. apply NoDup_cons in Hnd as [_ Hnd]. split; [|done].
  destruct l as [|v l _] using rev_ind; cbn in Hw; simplify_eq; [done|].
  change (z :: l ++ [v]) with ((z :: l) ++ [v]) in Hw, Hnd.
  rewrite last_snoc in Hw. simplify_eq. rewrite path_snoc in *. destruct Hp as [Hp _].
  split; [|done]. eapply path_ext; [| |exact Hp].
  - intros x Hx. apply Hf; [set_solver|]. intros ->.
    apply NoDup_app in Hnd as (_ & Hd & _). apply (Hd _ Hx). by left.
  - intros x Hx. by apply Hb.
Qed.

(** ** The linked list operations on rings

    What the checks of a debug build compute on a ring, and the effect of every
    function of LinkedList.c, for any setting of the two PCDs. *)

Local Open Scope Z_scope.

Section ops.
Context `{LinkedListPcd}.
Abbreviation Max := PcdMaximumLinkedListLength.

(** The list checks accept [n] nodes. *)
Definition length_ok (n : nat) : Prop := Max = 0 ∨ Z.of_nat n < Max.

Lemma length_ok_le n m : (n ≤ m)%nat → length_ok m → length_ok n.
Proof. unfold length_ok. lia. Qed.

(** ** The checks *)

Lemma ring_node h x l z : ring h x l → z ∈ x :: l → is_Some (fw h z) ∧ is_Some (bk h z) ∧ is_Some (h !! z).
Proof.
  intros Hr Hz. assert (Hf : is_Some (fw h z)) by (destruct Hr; by eapply path_alloc).
  split_and!; [done| |by apply fw_alloc].
  assert (∃ l', ring h z l') as [l' [Hp _]].
  { apply elem_of_cons in Hz as [->|(l1 & l2 & ->)%list_elem_of_split]; [by eexists|].
    apply ring_rotate in Hr. by eexists. }
  rewrite (path_bk _ _ _ _ Hp). rewrite last_cons. destruct (last l'); by eexists.
Qed.

Lemma cast_count c : 0 ≤ c → c < Max → cast UINTN (c + 1) = c + 1.
Proof.
  intros Hc Hm. pose proof Pcd_range as Hr. apply cast_id; cint_unfold; lia.
Qed.

Lemma count_nodes_spec fuel h x p l c :
  path h p l x → x ∉ l → 0 ≤ c → c < Max → (Z.to_nat (Max - c) ≤ fuel)%nat →
  wp (count_nodes fuel (Some x) (Some p) c)
    (λ n h', h' = h ∧ n = Z.min (c + Z.of_nat (length l) + 1) Max) h.
Proof.
  revert p l c. induction fuel as [|fuel IH]; intros p l c Hp Hx Hc Hm Hf; [lia|].
  cbn [count_nodes]. wp_seq.
  eapply wp_fw; [by apply fw_alloc; eapply path_alloc; [done|left]|].
  rewrite (path_fw _ _ _ _ Hp), cast_count by done. unfold same.
  destruct l as [|z l]; cbn [head app].
  - rewrite bool_decide_true by done. cbn. wp_seq. split; [done|]. lia.
  - rewrite bool_decide_false by set_solver. cbn [negb andb].
    destruct (Z.ltb_spec (c + 1) Max) as [Hlt|Hge]; wp_seq.
    + eapply wp_mono; [apply (IH z l); [by destruct Hp|set_solver|lia..]|].
      intros n h' [-> ->]. split; [done|]. cbn [length]. lia.
    + split; [done|]. cbn [length]. lia.
Qed.

Lemma list_valid_spec h x l (Q : bool → llheap → Prop) :
  ring h x l → Q (bool_decide (length_ok (S (length l)))) h →
  wp (InternalBaseLibIsListValid (Some x)) Q h.
Proof.
  intros Hr HQ. destruct (ring_node _ _ _ x Hr) as (Hf & Hb & Hx); [by left|].
  pose proof Pcd_range as Hrange.
  unfold InternalBaseLibIsListValid. wp_seq. apply wp_assert; [done|].
  wp_seq. eapply wp_fw; [done|]. wp_seq. destruct Hf as [f ->]. apply wp_assert; [done|].
  wp_seq. eapply wp_bk; [done|]. wp_seq. destruct Hb as [b ->]. apply wp_assert; [done|].
  destruct (Z.ltb_spec 0 Max) as [Hm|Hm].
  - wp_seq. destruct Hr as [Hp [Hxl _]%NoDup_cons].
    eapply wp_mono; [by eapply (count_nodes_spec _ _ _ _ l); try lia|].
    intros n h' [-> ->]. wp_seq.
    replace (_ <? Max) with (bool_decide (length_ok (S (length l)))); [done|].
    clear HQ. case_bool_decide as Ho; unfold length_ok in Ho; symmetry;
      [apply Z.ltb_lt|apply Z.ltb_ge]; lia.
  - wp_seq. rewrite bool_decide_true in HQ; [done|]. left. cint_unfold. lia.
Qed.

Lemma find_node_spec fuel h x t p l c :
  path h p l x → x ∉ l → 0 ≤ c → Max = 0 ∨ c + Z.of_nat (length l) + 1 < Max →
  (length l < fuel)%nat →
  wp (find_node fuel (Some x) (Some t) (Some p) c)
    (λ r h', h' = h ∧ r = bool_decide (t ∈ l ++ [x])) h.
Proof.
  pose proof Pcd_range as Hrange.
  revert p l c. induction fuel as [|fuel IH]; intros p l c Hp Hx Hc Hm Hf; [lia|].
  cbn [find_node]. wp_seq.
  eapply wp_fw; [by apply fw_alloc; eapply path_alloc; [done|left]|].
  rewrite (path_fw _ _ _ _ Hp).
  set (c' := if 0 <? Max then cast UINTN (c + 1) else c).
  assert (Hc' : (0 <? Max) && (c' =? Max) = false ∧ 0 ≤ c' ∧ (Max = 0 ∨ c' = c + 1)).
  { subst c'. destruct (Z.ltb_spec 0 Max); cbn [andb].
    - rewrite cast_count by lia. split; [apply Z.eqb_neq; lia|]. lia.
    - split_and!; [done|done|]. left. cint_unfold. lia. }
  destruct Hc' as (-> & Hc'0 & Hc'). unfold same.
  destruct l as [|z l]; cbn [head app].
  - rewrite (bool_decide_true (Some x = Some x)) by done. cbn [negb].
    destruct (decide (x = t)) as [->|Hne].
    + rewrite bool_decide_true by done. wp_seq. split; [done|].
      symmetry. apply bool_decide_true. by left.
    + rewrite bool_decide_false by congruence. wp_seq. split; [done|].
      symmetry. apply bool_decide_false. set_solver.
  - destruct (decide (z = t)) as [->|Hne].
    + rewrite bool_decide_true by done. wp_seq. split; [done|].
      symmetry. apply bool_decide_true. by left.
    + rewrite !bool_decide_false by set_solver. cbn [negb].
      eapply wp_mono; [apply (IH z l c'); [by destruct Hp|set_solver|done| |cbn in Hf; lia]|].
      * cbn [length] in Hm. lia.
      * intros r h' [-> ->]. split; [done|]. apply bool_decide_ext. set_solver.
Qed.

Lemma ring_size h x l : ring h x l → (length l < size h)%nat.
Proof.
  intros Hr. destruct Hr as [Hp Hnd]. change (S (length l) ≤ size h)%nat.
  change (S (length l)) with (length (x :: l)). rewrite <-size_dom.
  rewrite <-(size_list_to_set (C := gset positive) (x :: l)) by done.
  apply subseteq_size. intros z Hz%elem_of_list_to_set. apply elem_of_dom.
  by eapply ring_node.
Qed.

Lemma node_in_list_spec h x l t (Q : bool → llheap → Prop) :
  ring h x l → length_ok (S (length l)) → Q (bool_decide (t ∈ x :: l)) h →
  wp (IsNodeInList (Some x) (Some t)) Q h.
Proof.
  intros Hr Hlen HQ. unfold IsNodeInList. wp_seq. eapply list_valid_spec; [done|].
  wp_seq. apply wp_assert; [by apply bool_decide_true|]. wp_seq. apply wp_assert; [done|].
  wp_seq. apply wp_get. pose proof (ring_size _ _ _ Hr) as Hs.
  destruct Hr as [Hp [Hxl _]%NoDup_cons].
  eapply wp_mono; [eapply (find_node_spec _ _ _ _ _ l); [done|done|lia| |lia]|].
  - destruct Hlen; [by left|]. right. lia.
  - intros r h' [-> ->]. replace (bool_decide (t ∈ l ++ [x])) with (bool_decide (t ∈ x :: l)); [done|].
    apply bool_decide_ext. set_solver.
Qed.

Lemma wp_verify h x l t (InList : bool) (Q : unit → llheap → Prop) :
  ring h x l → length_ok (S (length l)) → InList = bool_decide (t ∈ x :: l) → Q tt h →
  wp (ASSERT_VERIFY_NODE_IN_VALID_LIST (Some x) (Some t) InList) Q h.
Proof.
  intros Hr Hlen -> HQ. unfold ASSERT_VERIFY_NODE_IN_VALID_LIST.
  destruct PcdVerifyNodeInList; wp_seq.
  - eapply node_in_list_spec; [done..|]. apply wp_assert; [by apply eqb_reflx|done].
  - eapply list_valid_spec; [done|]. by apply wp_assert; [apply bool_decide_true|].
Qed.

(** ** Insertion *)

(** The state after linking [e] between [x] and [y]. *)
Definition linked_in h x e y : llheap :=
  setf (setb (setb (setf h e (Some y)) e (Some x)) y (Some e)) x (Some e).

Lemma ring_linked_in h x l e y :
  ring h x l → e ∉ x :: l → is_Some (h !! e) → head (l ++ [x]) = Some y →
  ring (linked_in h x e y) x (e :: l) ∧
  (∀ z, z ∉ e :: x :: l → linked_in h x e y !! z = h !! z).
Proof.
  intros Hr He Hal Hy.
  assert (Hyin : y ∈ x :: l).
  { destruct l; cbn in Hy; simplify_eq; [by left|by right; left]. }
  assert (Hx : is_Some (h !! x)) by (eapply ring_node; [done|by left]).
  assert (Hya : is_Some (h !! y)) by (by eapply ring_node).
  assert (x ≠ e) by set_solver. assert (y ≠ e) by set_solver.
  unfold linked_in. split.
  - destruct Hr as [Hp Hnd]. assert (Hxl : x ∉ l) by (by apply NoDup_cons in Hnd as [? _]).
    eapply (ring_insert h _ _ _ _ y); [done..| | | |].
    + split; by autorewrite with ring.
    + split; by autorewrite with ring.
    + intros z Hz. assert (x ≠ z) by set_solver. assert (e ≠ z) by set_solver.
      by autorewrite with ring.
    + intros z Hz Hzy. assert (e ≠ z) by set_solver. by autorewrite with ring.
  - intros z Hz. assert (e ≠ z ∧ x ≠ z ∧ y ≠ z) as (? & ? & ?) by set_solver.
    by autorewrite with ring.
Qed.

Lemma insert_head_spec h x l e :
  ring h x l → e ∉ x :: l → is_Some (h !! e) → length_ok (S (length l)) →
  wp (InsertHeadList (Some x) (Some e))
    (λ r h', r = Some x ∧ ring h' x (e :: l) ∧ (∀ z, z ∉ e :: x :: l → h' !! z = h !! z)) h.
Proof.
  intros Hr He Hal Hlen.
  destruct (ring_node _ _ _ x Hr) as ([y Hy] & _ & Hx); [by left|].
  assert (Hhd : head (l ++ [x]) = Some y) by (destruct Hr as [Hp _]; by rewrite <-(path_fw _ _ _ _ Hp)).
  assert (Hya : is_Some (h !! y)).
  { eapply ring_node; [done|]. destruct l; cbn in Hhd; simplify_eq; [by left|by right; left]. }
  unfold InsertHeadList. wp_seq. eapply wp_verify; [done..| |].
  { symmetry. by apply bool_decide_false. }
  wp_seq. eapply wp_fw; [done|]. rewrite Hy.
  wp_seq. eapply wp_setf; [done|]. wp_seq. eapply wp_setb; [by autorewrite with ring|].
  wp_seq. eapply wp_fw; [by autorewrite with ring|]. rewrite fw_setb, fw_setf_eq by done.
  wp_seq. eapply wp_setb; [by autorewrite with ring|].
  wp_seq. eapply wp_setf; [by autorewrite with ring|].
  wp_seq. split; [done|]. by apply ring_linked_in.
Qed.

(** Inserting at the tail links the entry before the head: the same state, seen
    from the last node. *)
Definition linked_before h x e w : llheap :=
  setb (setf (setb (setf h e (Some x)) e (Some w)) w (Some e)) x (Some e).

Lemma setb_setf_comm h a v b w : setb (setf h a v) b w = setf (setb h b w) a v.
Proof.
  unfold setf, setb. destruct (decide (a = b)) as [->|Hne]; [|by rewrite alter_alter_ne].
  by rewrite !alter_alter_eq.
Qed.

Lemma linked_before_eq h x e w : linked_before h x e w = linked_in h w e x.
Proof. unfold linked_before, linked_in. by rewrite setb_setf_comm. Qed.

Lemma ring_linked_before h x l e w :
  ring h x l → e ∉ x :: l → is_Some (h !! e) → last (x :: l) = Some w →
  ring (linked_before h x e w) x (l ++ [e]) ∧
  (∀ z, z ∉ e :: x :: l → linked_before h x e w !! z = h !! z).
Proof.
  intros Hr He Hal Hw.
  assert (Hwin : w ∈ x :: l) by (by apply last_Some_elem_of).
  rewrite linked_before_eq.
  destruct l as [|v l _] using rev_ind; cbn in Hw; simplify_eq.
  - by apply (ring_linked_in h w [] e w).
  - change (x :: l ++ [v]) with ((x :: l) ++ [v]) in Hw. rewrite last_snoc in Hw. simplify_eq.
    rewrite ring_rotate in Hr. cbn in Hr.
    destruct (ring_linked_in h w (x :: l) e x) as [Hr' Hfr]; [done|set_solver|done..|].
    split.
    + rewrite <-app_assoc. apply ring_rotate. exact Hr'.
    + intros z Hz. apply Hfr. set_solver.
Qed.

Lemma insert_tail_spec h x l e :
  ring h x l → e ∉ x :: l → is_Some (h !! e) → length_ok (S (length l)) →
  wp (InsertTailList (Some x) (Some e))
    (λ r h', r = Some x ∧ ring h' x (l ++ [e]) ∧ (∀ z, z ∉ e :: x :: l → h' !! z = h !! z)) h.
Proof.
  intros Hr He Hal Hlen.
  destruct (ring_node _ _ _ x Hr) as (_ & [w Hw] & Hx); [by left|].
  assert (Hl : last (x :: l) = Some w) by (destruct Hr as [Hp _]; by rewrite <-(path_bk _ _ _ _ Hp)).
  assert (Hwa : is_Some (h !! w)) by (eapply ring_node; [done|]; by apply last_Some_elem_of).
  assert (x ≠ e) by set_solver.
  unfold InsertTailList. wp_seq. eapply wp_verify; [done..| |].
  { symmetry. by apply bool_decide_false. }
  wp_seq. eapply wp_setf; [done|].
  wp_seq. eapply wp_bk; [by autorewrite with ring|]. rewrite bk_setf, Hw.
  wp_seq. eapply wp_setb; [by autorewrite with ring|].
  wp_seq. eapply wp_bk; [by autorewrite with ring|].
  rewrite bk_setb_eq by (by autorewrite with ring).
  wp_seq. eapply wp_setf; [by autorewrite with ring|].
  wp_seq. eapply wp_setb; [by autorewrite with ring|].
  wp_seq. split; [done|]. by apply ring_linked_before.
Qed.

(** ** Removal *)

Lemma list_empty_spec h x l (Q : bool → llheap → Prop) :
  ring h x l → length_ok (S (length l)) → Q (bool_decide (l = [])) h →
  wp (IsListEmpty (Some x)) Q h.
Proof.
  intros Hr Hlen HQ. destruct (ring_node _ _ _ x Hr) as (_ & _ & Hx); [by left|].
  unfold IsListEmpty. wp_seq. eapply list_valid_spec; [done|].
  wp_seq. apply wp_assert; [by apply bool_decide_true|].
  wp_seq. eapply wp_fw; [done|]. wp_seq. destruct Hr as [Hp [Hxl _]%NoDup_cons].
  rewrite (path_fw _ _ _ _ Hp). unfold same.
  destruct l as [|z l]; cbn [app head].
  - by rewrite bool_decide_true in HQ |- *.
  - rewrite bool_decide_false in HQ by done. rewrite bool_decide_false; [done|]. set_solver.
Qed.

(** Removing the node from which the ring is read; the node keeps its links. *)
Lemma remove_spec h e z l :
  ring h e (z :: l) → length_ok (S (S (length l))) →
  wp (RemoveEntryList (Some e))
    (λ r h', r = Some z ∧ ring h' z l ∧ (∀ x, x ∉ z :: l → h' !! x = h !! x)) h.
Proof.
  intros Hr Hlen. destruct (ring_node _ _ _ e Hr) as (_ & [w Hw] & He); [by left|].
  assert (Hfe : fw h e = Some z) by (destruct Hr as [Hp _]; by rewrite (path_fw _ _ _ _ Hp)).
  assert (Hl : last (z :: l) = Some w).
  { destruct Hr as [Hp _]. rewrite (path_bk _ _ _ _ Hp) in Hw. rewrite last_cons in Hw.
    rewrite last_cons. cbn in *. by rewrite last_cons in Hw; destruct (last l). }
  assert (Hwin : w ∈ z :: l) by (by apply last_Some_elem_of).
  assert (Hez : e ∉ z :: l) by (destruct Hr as [_ Hnd]; by apply NoDup_cons in Hnd as [? _]).
  assert (is_Some (h !! z)) by (eapply ring_node; [done|set_solver]).
  assert (is_Some (h !! w)) by (eapply ring_node; [done|set_solver]).
  assert (z ≠ e ∧ w ≠ e) as [? ?] by set_solver.
  unfold RemoveEntryList. wp_seq. eapply list_empty_spec; [done..|].
  wp_seq. apply wp_assert; [done|].
  wp_seq. eapply wp_fw; [done|]. rewrite Hfe. wp_seq. eapply wp_bk; [done|]. rewrite Hw.
  wp_seq. eapply wp_setb; [done|].
  wp_seq. eapply wp_bk; [by autorewrite with ring|]. rewrite bk_setb_ne, Hw by done.
  wp_seq. eapply wp_fw; [by autorewrite with ring|]. rewrite fw_setb, Hfe.
  wp_seq. eapply wp_setf; [by autorewrite with ring|].
  eapply wp_fw; [by autorewrite with ring|]. rewrite fw_setf_ne, fw_setb by done.
  split; [done|]. split.
  - eapply (ring_remove _ _ _ _ _ w Hr Hl).
    + split; by autorewrite with ring.
    + intros x Hx Hxw. by autorewrite with ring.
    + intros x Hx. assert (z ≠ x).
      { intros ->. destruct Hr as [_ Hnd]. by apply NoDup_cons in Hnd as [_ [? _]%NoDup_cons]. }
      by autorewrite with ring.
  - intros x Hx. assert (z ≠ x ∧ w ≠ x) as [? ?] by set_solver. by autorewrite with ring.
Qed.

(** ** Swapping *)

(** The part of SwapListEntries after its checks, when [b] follows [a]. *)
Definition swap_tail (a b : positive) : M llheap (option positive) :=
  Ptr ← RemoveEntryList (Some a);
  p ← link_get BackLink Ptr;
  if same p (Some b) then InsertTailList (Some b) (Some a) else
  r ← InsertHeadList (Some b) (Some a);
  if same Ptr r then mret Ptr else
  RemoveEntryList (Some b);;
  InsertTailList Ptr (Some b);;
  mret (Some b).

Lemma ring_last h x l w : ring h x l → bk h x = Some w → last (x :: l) = Some w.
Proof. intros [Hp _] Hw. by rewrite <-(path_bk _ _ _ _ Hp). Qed.

Lemma last_is_head l x : NoDup (x :: l) → last (x :: l) = Some x → l = [].
Proof.
  intros Hnd. destruct l as [|v l _] using rev_ind; [done|].
  change (x :: l ++ [v]) with ((x :: l) ++ [v]). rewrite last_snoc. intros [= ->].
  exfalso. apply NoDup_cons in Hnd as [Hn _]. apply Hn. set_solver.
Qed.

Definition swapped h a l1 b l2 (r : option positive) h' : Prop :=
  r = Some b ∧ ring h' b (l1 ++ a :: l2) ∧ (∀ z, z ∉ a :: l1 ++ b :: l2 → h' !! z = h !! z).

Lemma swap_adjacent h a b l2 :
  ring h a (b :: l2) → length_ok (S (S (length l2))) →
  wp (swap_tail a b) (swapped h a [] b l2) h.
Proof.
  intros Hr Hlen. assert (Hnd := proj2 Hr). apply NoDup_cons in Hnd as [Ha Hnd].
  assert (Hal : is_Some (h !! a)) by (eapply ring_node; [done|by left]).
  unfold swap_tail, same. wp_seq. eapply wp_mono; [by eapply remove_spec|].
  intros r h1 (-> & Hr1 & Hfr1).
  destruct (ring_node _ _ _ b Hr1) as (_ & [w Hw] & Hb); [by left|].
  assert (Hwl := ring_last _ _ _ _ Hr1 Hw).
  assert (Ha1 : is_Some (h1 !! a)) by (by rewrite Hfr1).
  assert (Hlen1 : length_ok (S (length l2))) by (eapply length_ok_le; [|exact Hlen]; lia).
  wp_seq. eapply wp_bk; [done|]. rewrite Hw. destruct (decide (w = b)) as [->|Hwb].
  - rewrite bool_decide_true by done. apply last_is_head in Hwl as ->; [|done].
    eapply wp_mono; [by eapply insert_tail_spec|].
    intros r h2 (-> & Hr2 & Hfr2). split_and!; [done|done|].
    intros z Hz. rewrite Hfr2 by done. apply Hfr1. set_solver.
  - rewrite bool_decide_false by congruence.
    wp_seq. eapply wp_mono; [by eapply insert_head_spec|].
    intros r h2 (-> & Hr2 & Hfr2). rewrite bool_decide_true by done. wp_seq.
    split_and!; [done|done|]. intros z Hz. rewrite Hfr2 by done. apply Hfr1. set_solver.
Qed.

Lemma swap_apart h a z l1 b l2 :
  ring h a (z :: l1 ++ b :: l2) → length_ok (S (S (S (length l1 + length l2)))) →
  wp (swap_tail a b) (swapped h a (z :: l1) b l2) h.
Proof.
  intros Hr Hlen. assert (Hnd := proj2 Hr). apply NoDup_cons in Hnd as [Ha Hnd].
  assert (Hal : is_Some (h !! a)) by (eapply ring_node; [done|by left]).
  assert (Hbz : b ∉ z :: l1 ++ l2).
  { rewrite <-(Permutation_middle l1 l2 b) in Hnd. rewrite Permutation_swap in Hnd.
    by apply NoDup_cons in Hnd as [? _]. }
  unfold swap_tail, same. wp_seq. eapply wp_mono.
  { eapply remove_spec; [done|]. rewrite length_app. cbn [length]. eapply length_ok_le; [|exact Hlen]. lia. }
  intros r h1 (-> & Hr1 & Hfr1).
  destruct (ring_node _ _ _ z Hr1) as (_ & [w Hw] & Hb); [by left|].
  assert (Hwl := ring_last _ _ _ _ Hr1 Hw).
  assert (Ha1 : is_Some (h1 !! a)) by (by rewrite Hfr1).
  change (z :: l1 ++ b :: l2) with ((z :: l1) ++ b :: l2) in Hwl. rewrite last_app_cons in Hwl.
  rewrite ring_rotate in Hr1.
  assert (Hlen1 : length_ok (S (length (l2 ++ z :: l1)))).
  { rewrite length_app. cbn [length]. eapply length_ok_le; [|exact Hlen]. lia. }
  wp_seq. eapply wp_bk; [done|]. rewrite Hw. destruct (decide (w = b)) as [->|Hwb].
  - rewrite bool_decide_true by done. apply last_is_head in Hwl as ->.
    2:{ apply (NoDup_app (z :: l1) (b :: l2)) in Hnd as (_ & _ & ?). done. }
    cbn [app] in Hr1. eapply wp_mono; [eapply insert_tail_spec; [done|set_solver|done|done]|].
    intros r h2 (-> & Hr2 & Hfr2). split_and!; [done|done|].
    intros x Hx. rewrite Hfr2 by set_solver. apply Hfr1. set_solver.
  - rewrite bool_decide_false by congruence.
    wp_seq. eapply wp_mono; [eapply insert_head_spec; [done|set_solver|done|done]|].
    intros r h2 (-> & Hr2 & Hfr2). rewrite bool_decide_false by set_solver.
    assert (Hb2 : is_Some (h2 !! b)) by (eapply ring_node; [done|by left]).
    wp_seq. eapply wp_mono.
    { eapply remove_spec; [exact Hr2|]. rewrite length_app. cbn [length].
      eapply length_ok_le; [|exact Hlen]. lia. }
    intros r h3 (-> & Hr3 & Hfr3). rewrite ring_rotate in Hr3.
    wp_seq. eapply wp_mono.
    { eapply insert_tail_spec; [exact Hr3|set_solver| |].
      - rewrite Hfr3; [done|]. set_solver.
      - rewrite length_app. cbn [length]. eapply length_ok_le; [|exact Hlen]. lia. }
    intros r h4 (-> & Hr4 & Hfr4). wp_seq. split_and!; [done| |].
    + apply (ring_rotate _ _ (l1 ++ a :: l2) b []). exact Hr4.
    + intros x Hx. rewrite Hfr4, Hfr3, Hfr2, Hfr1 by set_solver. done.
Qed.

Lemma swap_spec h a l1 b l2 :
  ring h a (l1 ++ b :: l2) → length_ok (S (S (length l1 + length l2))) →
  wp (SwapListEntries (Some a) (Some b)) (swapped h a l1 b l2) h.
Proof.
  intros Hr Hlen. assert (Hnd := proj2 Hr). apply NoDup_cons in Hnd as [Ha Hnd].
  unfold SwapListEntries, same at 1. rewrite bool_decide_false by set_solver.
  wp_seq. eapply wp_verify; [done| | |].
  { rewrite length_app. cbn [length]. eapply length_ok_le; [|exact Hlen]. lia. }
  { symmetry. apply bool_decide_true. set_solver. }
  destruct l1 as [|z l1]; [by apply swap_adjacent | by apply swap_apart].
Qed.

End ops.
