(* ===== verification/LinkedListSpec.v ===== *)
(** * Linked lists as a client sees them

    [linked_list h head ns]: the list with head node [head] has the nodes [ns], in
    order.  The theorems state every function of LinkedList.c against that
    sequence, for any setting of PcdMaximumLinkedListLength and
    PcdVerifyNodeInList. *)
From S2P Require Import Prelude CBase LinkedList LinkedRing.
Local Open Scope Z_scope.

Section spec.
Context `{HP : LinkedListPcd}.
Implicit Types (h : llheap) (a b e x y z head : positive) (l ns : list positive).

Definition linked_list h head ns : Prop := ring h head ns.

(** Heaps that agree outside of a list of nodes. *)
Definition same_outside (nodes : list positive) h h' : Prop :=
  ∀ z, z ∉ nodes → h' !! z = h !! z.

Lemma head_app_last l x : head (l ++ [x]) = Some (hd x l).
Proof. by destruct l. Qed.

(** InitializeListHead makes an allocated node the head of an empty list, and
    asserts on NULL. *)
Theorem initialize_correct h head :
  is_Some (h !! head) →
  (∃ h', InitializeListHead (Some head) h = Some (Some head, h') ∧
     linked_list h' head [] ∧ same_outside [head] h h') ∧
  InitializeListHead None h = None.
Proof.
  intros Hal. split; [|done].
  assert (Hwp : wp (InitializeListHead (Some head))
    (λ r h', r = Some head ∧ linked_list h' head [] ∧ same_outside [head] h h') h).
  { unfold InitializeListHead. wp_seq. apply wp_assert; [done|].
    wp_seq. eapply wp_setf; [done|]. wp_seq. eapply wp_setb; [by autorewrite with ring|].
    wp_seq. split; [done|]. split.
    - split; [|repeat constructor; set_solver]. split; by autorewrite with ring.
    - intros z Hz. assert (head ≠ z) by set_solver. by autorewrite with ring. }
  destruct (wp_elim _ _ _ Hwp) as (r & h' & Hrun & -> & Hl & Hf). by exists h'.
Qed.

(** InsertHeadList and InsertTailList put a node that is not in the list at
    its beginning and at its end, whatever the debug settings, return the head
    and touch only the nodes of the list and the new one. *)
Theorem insert_list_correct h head ns e :
  linked_list h head ns → e ∉ head :: ns → is_Some (h !! e) → length_ok (S (length ns)) →
  (∃ h', InsertHeadList (Some head) (Some e) h = Some (Some head, h') ∧
     linked_list h' head (e :: ns) ∧ same_outside (e :: head :: ns) h h') ∧
  (∃ h', InsertTailList (Some head) (Some e) h = Some (Some head, h') ∧
     linked_list h' head (ns ++ [e]) ∧ same_outside (e :: head :: ns) h h').
Proof.
  intros Hr He Hal Hlen. split.
  - destruct (wp_elim _ _ _ (insert_head_spec h head ns e Hr He Hal Hlen)) as (r & h' & Hrun & -> & Hr' & Hf).
    by exists h'.
  - destruct (wp_elim _ _ _ (insert_tail_spec h head ns e Hr He Hal Hlen)) as (r & h' & Hrun & -> & Hr' & Hf).
    by exists h'.
Qed.

(** The head of an empty list cannot be removed. *)
Lemma empty_remove h0 head : linked_list h0 head [] → RemoveEntryList (Some head) h0 = None.
Proof.
  intros Hr0. unfold RemoveEntryList.
  assert (Hrun : IsListEmpty (Some head) h0 = Some (true, h0) ∨ IsListEmpty (Some head) h0 = None).
  { destruct (decide (length_ok 1)) as [Hok|Hok].
    - left. apply wp_run. eapply list_empty_spec; [done|done|]. by rewrite bool_decide_true.
    - right. assert (Hv : InternalBaseLibIsListValid (Some head) h0 = Some (false, h0)).
      { apply wp_run. eapply list_valid_spec; [done|]. by rewrite bool_decide_false. }
      unfold IsListEmpty. by rewrite (bind_run _ _ _ _ _ Hv). }
  destruct Hrun as [Hrun|Hrun]; [by rewrite (bind_run _ _ _ _ _ Hrun)|by apply bind_none].
Qed.

(** RemoveEntryList unlinks exactly the given node, returns the node that
    follows it (the head, for the last node), and leaves the removed node itself
    untouched; on the head of an empty list its ASSERT fails. *)
Theorem remove_correct h head l1 e l2 :
  linked_list h head (l1 ++ e :: l2) → length_ok (S (S (length l1 + length l2))) →
  (∃ h', RemoveEntryList (Some e) h = Some (Some (hd head l2), h') ∧
     linked_list h' head (l1 ++ l2) ∧ h' !! e = h !! e ∧
     same_outside (head :: l1 ++ l2) h h') ∧
  (∀ h0, linked_list h0 head [] → RemoveEntryList (Some head) h0 = None).
Proof.
  intros Hr Hlen. split.
  - unfold linked_list in *. rewrite ring_rotate in Hr. assert (Hnd := proj2 Hr).
    apply NoDup_cons in Hnd as [Hn _].
    assert (∃ z l, l2 ++ head :: l1 = z :: l ∧ z = hd head l2 ∧
      (ring h e (z :: l) → length l = (length l1 + length l2)%nat ∧
        ∀ h', ring h' z l → ring h' head (l1 ++ l2))) as (z & l & Hzl & Hz & Hring).
    { destruct l2 as [|z l2].
      - exists head, l1. rewrite app_nil_r. split_and!; [done..|]. intros _. split; [cbn; lia|done].
      - exists z, (l2 ++ head :: l1). split_and!; [done..|]. intros _. split.
        + rewrite length_app. cbn. lia.
        + intros h'. by rewrite ring_rotate. }
    rewrite Hzl in Hr, Hn. destruct (Hring Hr) as [Hl Hring'].
    destruct (wp_elim _ _ _ (remove_spec h e z l Hr ltac:(by rewrite Hl))) as (r & h' & Hrun & -> & Hr' & Hf).
    exists h'. rewrite <-Hz. split_and!; [done|by apply Hring'|by apply Hf|].
    intros x Hx. apply Hf. rewrite <-Hzl. set_solver.
  - intros h0 Hr0. by apply empty_remove.
Qed.

(** C35: InsertHeadList and InsertTailList put a node that is not in the list at its
    beginning and at its end, whatever the debug settings, as long as the list with
    the node does not exceed PcdMaximumLinkedListLength (0 for no limit), and return
    the head; under the same limit RemoveEntryList unlinks exactly the given node,
    returns the node that follows it (the head, for the last one), and leaves the
    removed node itself untouched; none of them touches a node outside the list;
    removing the head of an empty list fails an ASSERT. *)
Theorem list_updates_correct h head ns :
  linked_list h head ns → length_ok (S (length ns)) →
  (∀ e, e ∉ head :: ns → is_Some (h !! e) →
    (∃ h', InsertHeadList (Some head) (Some e) h = Some (Some head, h') ∧
       linked_list h' head (e :: ns) ∧ same_outside (e :: head :: ns) h h') ∧
    (∃ h', InsertTailList (Some head) (Some e) h = Some (Some head, h') ∧
       linked_list h' head (ns ++ [e]) ∧ same_outside (e :: head :: ns) h h')) ∧
  (∀ l1 e l2, ns = l1 ++ e :: l2 →
    ∃ h', RemoveEntryList (Some e) h = Some (Some (hd head l2), h') ∧
      linked_list h' head (l1 ++ l2) ∧ h' !! e = h !! e ∧ same_outside (head :: l1 ++ l2) h h') ∧
  (ns = [] → RemoveEntryList (Some head) h = None).
Proof.
  intros Hr Hlen. split_and!.
  - intros e He Hal. by apply insert_list_correct.
  - intros l1 e l2 ->. apply (remove_correct h head l1 e l2 Hr).
    rewrite length_app in Hlen. cbn in Hlen. by rewrite Nat.add_succ_r in Hlen.
  - intros ->. by apply empty_remove.
Qed.

Lemma swap_run h a l1 b l2 :
  ring h a (l1 ++ b :: l2) → length_ok (S (S (length l1 + length l2))) →
  ∃ h', SwapListEntries (Some a) (Some b) h = Some (Some b, h') ∧ ring h' b (l1 ++ a :: l2) ∧
    same_outside (a :: l1 ++ b :: l2) h h'.
Proof.
  intros Hr Hlen. destruct (wp_elim _ _ _ (swap_spec h a l1 b l2 Hr Hlen)) as (r & h' & Hrun & -> & Hr' & Hf).
  by exists h'.
Qed.

(** SwapListEntries exchanges the positions of two nodes of a list, in
    either argument order and also when they are neighbours, and returns its
    second argument; swapping a node with itself changes nothing. *)
Theorem swap_correct h head l1 a l2 b l3 :
  linked_list h head (l1 ++ a :: l2 ++ b :: l3) →
  length_ok (3 + length l1 + length l2 + length l3) →
  (∃ h', SwapListEntries (Some a) (Some b) h = Some (Some b, h') ∧
     linked_list h' head (l1 ++ b :: l2 ++ a :: l3) ∧
     same_outside (head :: l1 ++ a :: l2 ++ b :: l3) h h') ∧
  (∃ h', SwapListEntries (Some b) (Some a) h = Some (Some a, h') ∧
     linked_list h' head (l1 ++ b :: l2 ++ a :: l3) ∧
     same_outside (head :: l1 ++ a :: l2 ++ b :: l3) h h') ∧
  SwapListEntries (Some a) (Some a) h = Some (Some a, h).
Proof.
  intros Hr Hlen. unfold linked_list in *. rewrite ring_rotate, <-app_assoc in Hr. cbn in Hr.
  split_and!.
  - destruct (swap_run h a l2 b (l3 ++ head :: l1) Hr) as (h' & Hrun & Hr' & Hf).
    { rewrite length_app. cbn [length]. eapply length_ok_le; [|exact Hlen]. lia. }
    exists h'. split_and!; [done| |].
    + apply (ring_rotate h' b (l2 ++ a :: l3) head l1). by rewrite <-app_assoc.
    + intros z Hz. apply Hf. set_solver.
  - apply (ring_rotate _ _ l2 b) in Hr. rewrite <-app_assoc in Hr.
    assert (Hr2 : ring h b ((l3 ++ head :: l1) ++ a :: l2)) by (by rewrite <-app_assoc).
    destruct (swap_run h b (l3 ++ head :: l1) a l2 Hr2) as (h' & Hrun & Hr' & Hf).
    { rewrite length_app. cbn [length]. eapply length_ok_le; [|exact Hlen]. lia. }
    exists h'. split_and!; [done| |].
    + rewrite <-app_assoc in Hr'. apply (ring_rotate h' a l3 head (l1 ++ b :: l2)) in Hr'.
      by rewrite <-app_assoc in Hr'.
    + intros z Hz. apply Hf. set_solver.
  - unfold SwapListEntries, same. by rewrite bool_decide_true.
Qed.
(** ** The debug checks *)

Lemma list_valid_run h head ns : linked_list h head ns →
  InternalBaseLibIsListValid (Some head) h = Some (bool_decide (length_ok (S (length ns))), h).
Proof. intros Hr. apply wp_run. by eapply list_valid_spec. Qed.

Lemma verify_fails h head ns e (b : bool) : linked_list h head ns →
  ¬ length_ok (S (length ns)) ∨ (PcdVerifyNodeInList = true ∧ b ≠ bool_decide (e ∈ head :: ns)) →
  ASSERT_VERIFY_NODE_IN_VALID_LIST (Some head) (Some e) b h = None.
Proof.
  intros Hr Hcase. pose proof (list_valid_run _ _ _ Hr) as Hv. unfold ASSERT_VERIFY_NODE_IN_VALID_LIST.
  destruct (decide (length_ok (S (length ns)))) as [Hok|Hok].
  - destruct Hcase as [?|[Hpcd Hb]]; [done|]. rewrite Hpcd.
    assert (Hin : IsNodeInList (Some head) (Some e) h = Some (bool_decide (e ∈ head :: ns), h)).
    { apply wp_run. by eapply node_in_list_spec. }
    rewrite (bind_run _ _ _ _ _ Hin). unfold ASSERT.
    by destruct (eqb_spec b (bool_decide (e ∈ head :: ns))).
  - rewrite bool_decide_false in Hv by done.
    destruct PcdVerifyNodeInList.
    + apply bind_none. unfold IsNodeInList. by rewrite (bind_run _ _ _ _ _ Hv).
    + by rewrite (bind_run _ _ _ _ _ Hv).
Qed.

(** The checks of a debug build are exact on a well-formed list.
    InternalBaseLibIsListValid accepts it if and only if PcdMaximumLinkedListLength
    is zero or exceeds the number of nodes, the head included; IsNodeInList then
    decides membership; a list that is too long stops every function that checks
    it, and with PcdVerifyNodeInList set, inserting a node that is already in the
    list fails an ASSERT instead of corrupting it. *)
Theorem list_checks_exact h head ns e :
  linked_list h head ns →
  InternalBaseLibIsListValid (Some head) h = Some (bool_decide (length_ok (S (length ns))), h) ∧
  IsNodeInList (Some head) (Some e) h =
    (if bool_decide (length_ok (S (length ns)))
     then Some (bool_decide (e ∈ head :: ns), h) else None) ∧
  (¬ length_ok (S (length ns)) ∨ (PcdVerifyNodeInList = true ∧ e ∈ head :: ns) →
   InsertHeadList (Some head) (Some e) h = None ∧ InsertTailList (Some head) (Some e) h = None) ∧
  (¬ length_ok (S (length ns)) ∨ (PcdVerifyNodeInList = true ∧ e ∉ head :: ns) →
   GetNextNode (Some head) (Some e) h = None ∧ GetPreviousNode (Some head) (Some e) h = None ∧
   IsNull (Some head) (Some e) h = None ∧ IsNodeAtEnd (Some head) (Some e) h = None).
Proof.
  intros Hr. pose proof (list_valid_run _ _ _ Hr) as Hv. split_and!; [done| | |].
  - case_bool_decide as Hok.
    + apply wp_run. by eapply node_in_list_spec.
    + unfold IsNodeInList. by rewrite (bind_run _ _ _ _ _ Hv).
  - intros Hcase.
    assert (Hn : ASSERT_VERIFY_NODE_IN_VALID_LIST (Some head) (Some e) false h = None).
    { eapply verify_fails; [done|]. destruct Hcase as [?|[? Hin]]; [by left|right].
      split; [done|]. by rewrite bool_decide_true. }
    unfold InsertHeadList, InsertTailList. by rewrite !(bind_none _ _ _ Hn).
  - intros Hcase.
    assert (Hn : ASSERT_VERIFY_NODE_IN_VALID_LIST (Some head) (Some e) true h = None).
    { eapply verify_fails; [done|]. destruct Hcase as [?|[? Hin]]; [by left|right].
      split; [done|]. by rewrite bool_decide_false. }
    unfold GetNextNode, GetPreviousNode, IsNull, IsNodeAtEnd. by rewrite !(bind_none _ _ _ Hn).
Qed.

(** ** Traversal *)

Lemma verify_run h head ns e (b : bool) : linked_list h head ns → length_ok (S (length ns)) →
  b = bool_decide (e ∈ head :: ns) →
  ASSERT_VERIFY_NODE_IN_VALID_LIST (Some head) (Some e) b h = Some (tt, h).
Proof. intros Hr Hlen Hb. apply wp_run. by eapply wp_verify. Qed.

Lemma link_get_run f h x n : h !! x = Some n → link_get f (Some x) h = Some (f n, h).
Proof. intros Hn. unfold link_get. by rewrite Hn. Qed.

Lemma get_fw h x l : ring h x l → link_get ForwardLink (Some x) h = Some (head (l ++ [x]), h).
Proof.
  intros Hr. destruct (ring_node _ _ _ x Hr) as (_ & _ & n & Hn); [by left|].
  rewrite (link_get_run _ _ _ _ Hn). destruct Hr as [Hp _]. rewrite <-(path_fw _ _ _ _ Hp).
  unfold fw. by rewrite Hn.
Qed.

Lemma get_bk h x l : ring h x l → link_get BackLink (Some x) h = Some (last (x :: l), h).
Proof.
  intros Hr. destruct (ring_node _ _ _ x Hr) as (_ & _ & n & Hn); [by left|].
  rewrite (link_get_run _ _ _ _ Hn). destruct Hr as [Hp _]. rewrite <-(path_bk _ _ _ _ Hp).
  unfold bk. by rewrite Hn.
Qed.

Lemma last_app_head l1 l2 x : last (x :: l2 ++ l1) = last ((x :: l2) ++ l1).
Proof. done. Qed.

(** On a list within the length limit the read-only functions return what
    their names say and write nothing: the first node, the node after and the
    node before any node (the head past either end), emptiness, whether a node is
    the head, and whether it is the last one. *)
Theorem list_traversal_correct h head ns :
  linked_list h head ns → length_ok (S (length ns)) →
  GetFirstNode (Some head) h = Some (Some (hd head ns), h) ∧
  IsListEmpty (Some head) h = Some (bool_decide (ns = []), h) ∧
  IsNull (Some head) (Some head) h = Some (true, h) ∧
  IsNodeAtEnd (Some head) (Some head) h = Some (false, h) ∧
  ∀ l1 x l2, ns = l1 ++ x :: l2 →
    GetNextNode (Some head) (Some x) h = Some (Some (hd head l2), h) ∧
    GetPreviousNode (Some head) (Some x) h = Some (last (head :: l1), h) ∧
    IsNull (Some head) (Some x) h = Some (false, h) ∧
    IsNodeAtEnd (Some head) (Some x) h = Some (bool_decide (l2 = []), h).
Proof.
  intros Hr Hlen. pose proof (list_valid_run _ _ _ Hr) as Hv. rewrite bool_decide_true in Hv by done.
  assert (Hhead : ASSERT_VERIFY_NODE_IN_VALID_LIST (Some head) (Some head) true h = Some (tt, h)).
  { eapply verify_run; [done..|]. symmetry. apply bool_decide_true. by left. }
  assert (Hnull : IsNull (Some head) (Some head) h = Some (true, h)).
  { unfold IsNull. rewrite (bind_run _ _ _ _ _ Hhead). unfold same. by rewrite bool_decide_true. }
  split_and!; [| |done| |].
  - unfold GetFirstNode. rewrite (bind_run _ _ _ _ _ Hv), (bind_run _ _ _ tt h) by done.
    by rewrite (get_fw _ _ _ Hr), head_app_last.
  - apply wp_run. by eapply list_empty_spec.
  - unfold IsNodeAtEnd. by rewrite (bind_run _ _ _ _ _ Hhead), (bind_run _ _ _ _ _ Hnull).
  - intros l1 x l2 ->. assert (Hnd := proj2 Hr).
    assert (Hx : ASSERT_VERIFY_NODE_IN_VALID_LIST (Some head) (Some x) true h = Some (tt, h)).
    { eapply verify_run; [done..|]. symmetry. apply bool_decide_true. set_solver. }
    assert (Hxh : x ≠ head) by (apply NoDup_cons in Hnd as [? _]; set_solver).
    assert (Hxnull : IsNull (Some head) (Some x) h = Some (false, h)).
    { unfold IsNull. rewrite (bind_run _ _ _ _ _ Hx). unfold same. by rewrite bool_decide_false by congruence. }
    assert (Hrx := Hr). apply ring_rotate in Hrx. split_and!; [| |done|].
    + unfold GetNextNode. rewrite (bind_run _ _ _ _ _ Hx), (get_fw _ _ _ Hrx), head_app_last.
      by destruct l2.
    + unfold GetPreviousNode. rewrite (bind_run _ _ _ _ _ Hx), (get_bk _ _ _ Hrx).
      rewrite (last_app_head (head :: l1) l2 x). by rewrite last_app_cons.
    + unfold IsNodeAtEnd. rewrite (bind_run _ _ _ _ _ Hx), (bind_run _ _ _ _ _ Hxnull).
      rewrite (bind_run _ _ _ _ _ (get_bk _ _ _ Hr)). unfold same, mret, M_ret. do 2 f_equal.
      apply bool_decide_ext. rewrite (last_app_head (x :: l2) l1 head), last_app_cons.
      split; [|by intros ->]. intros Hlast. apply last_is_head in Hlast; [done|].
      apply (NoDup_app (head :: l1) (x :: l2)) in Hnd as (_ & _ & ?). done.
Qed.

(** The loop every user of a list writes:
    for (Node = GetFirstNode (List); !IsNull (List, Node); Node = GetNextNode (List, Node)). *)
Fixpoint visit (fuel : nat) (List Node : option positive) : M llheap (list (option positive)) :=
  match fuel with
  | O => fails
  | S fuel =>
      n ← IsNull List Node;
      if (n : bool) then mret [] else
      next ← GetNextNode List Node;
      rest ← visit fuel List next;
      mret (Node :: rest)
  end.

Lemma next_and_null h head l1 x l2 :
  ring h head (l1 ++ x :: l2) → length_ok (S (length (l1 ++ x :: l2))) →
  IsNull (Some head) (Some x) h = Some (false, h) ∧
  GetNextNode (Some head) (Some x) h = Some (Some (hd head l2), h).
Proof.
  intros Hr Hlen. assert (Hnd := proj2 Hr).
  assert (Hx : ASSERT_VERIFY_NODE_IN_VALID_LIST (Some head) (Some x) true h = Some (tt, h)).
  { eapply verify_run; [done..|]. symmetry. apply bool_decide_true. set_solver. }
  assert (Hxh : x ≠ head) by (apply NoDup_cons in Hnd as [? _]; set_solver).
  apply ring_rotate in Hr. split.
  - unfold IsNull. rewrite (bind_run _ _ _ _ _ Hx). unfold same. by rewrite bool_decide_false by congruence.
  - unfold GetNextNode. rewrite (bind_run _ _ _ _ _ Hx), (get_fw _ _ _ Hr), head_app_last.
    by destruct l2.
Qed.

Lemma visit_from h head l1 l2 fuel :
  ring h head (l1 ++ l2) → length_ok (S (length (l1 ++ l2))) → (length l2 < fuel)%nat →
  visit fuel (Some head) (Some (hd head l2)) h = Some (Some <$> l2, h).
Proof.
  intros Hr Hlen. revert l1 fuel Hr Hlen.
  induction l2 as [|x l2 IH]; intros l1 fuel Hr Hlen Hf;
    (destruct fuel as [|fuel]; cbn in Hf; [lia|]); cbn [visit hd].
  - assert (Hn : IsNull (Some head) (Some head) h = Some (true, h)).
    { unfold IsNull. rewrite (bind_run _ _ _ tt h).
      - unfold same. by rewrite bool_decide_true.
      - eapply verify_run; [done..|]. symmetry. apply bool_decide_true. by left. }
    by rewrite (bind_run _ _ _ _ _ Hn).
  - destruct (next_and_null _ _ _ _ _ Hr Hlen) as [Hn Hx].
    rewrite (bind_run _ _ _ _ _ Hn), (bind_run _ _ _ _ _ Hx).
    rewrite cons_middle, app_assoc in Hr, Hlen.
    by rewrite (bind_run _ _ _ _ _ (IH _ fuel Hr Hlen ltac:(lia))).
Qed.

(** The iteration idiom visits every node of the list once, in order, and
    ends: a list of n nodes needs n + 1 evaluations of the loop condition. *)
Theorem visit_all h head ns fuel :
  linked_list h head ns → length_ok (S (length ns)) → (length ns < fuel)%nat →
  (Node ← GetFirstNode (Some head); visit fuel (Some head) Node) h = Some (Some <$> ns, h).
Proof.
  intros Hr Hlen Hf.
  assert (Hfirst : GetFirstNode (Some head) h = Some (Some (hd head ns), h)).
  { pose proof (list_valid_run _ _ _ Hr) as Hv. rewrite bool_decide_true in Hv by done.
    unfold GetFirstNode. rewrite (bind_run _ _ _ _ _ Hv), (bind_run _ _ _ tt h) by done.
    by rewrite (get_fw _ _ _ Hr), head_app_last. }
  rewrite (bind_run _ _ _ _ _ Hfirst). by apply (visit_from h head [] ns).
Qed.

(** ** Corrupt lists *)

Fixpoint follow h (k : nat) x : option positive :=
  match k with
  | O => Some x
  | S k => y ← fw h x; follow h k y
  end.

(** Every link points to an allocated node; the links may form any shape. *)
Definition closed h : Prop := ∀ x n, h !! x = Some n →
  BackLink n ≠ None ∧ ∃ y, ForwardLink n = Some y ∧ is_Some (h !! y).

Lemma count_nodes_any fuel h x p c :
  closed h → is_Some (h !! p) → 0 ≤ c → c < PcdMaximumLinkedListLength →
  (Z.to_nat (PcdMaximumLinkedListLength - c) ≤ fuel)%nat →
  wp (count_nodes fuel (Some x) (Some p) c)
    (λ n h', h' = h ∧ ∃ j : nat, (1 ≤ j)%nat ∧ n = c + Z.of_nat j ∧ n ≤ PcdMaximumLinkedListLength ∧
       (∀ i, (1 ≤ i < j)%nat → follow h i p ≠ Some x) ∧
       (follow h j p = Some x ∨ n = PcdMaximumLinkedListLength)) h.
Proof.
  intros Hcl. revert p c. induction fuel as [|fuel IH]; intros p c Hp Hc Hm Hf; [lia|].
  destruct Hp as [n Hn]. destruct (Hcl _ _ Hn) as (_ & y & Hy & Hya).
  assert (Hfw : fw h p = Some y) by (unfold fw; by rewrite Hn).
  cbn [count_nodes]. wp_seq. eapply wp_fw; [by eexists|]. rewrite Hfw, cast_count by done.
  unfold same. destruct (decide (y = x)) as [->|Hyx].
  - rewrite bool_decide_true by done. cbn [negb andb]. wp_seq. split; [done|].
    exists 1%nat. split_and!; [lia..| |].
    + intros i Hi. lia.
    + left. cbn. by rewrite Hfw.
  - rewrite bool_decide_false by congruence. cbn [negb andb].
    destruct (Z.ltb_spec (c + 1) PcdMaximumLinkedListLength) as [Hlt|Hge].
    + eapply wp_mono; [apply (IH y (c + 1)); [done|lia..]|].
      intros r h' (-> & j & Hj & -> & Hle & Hno & Hend). split; [done|].
      exists (S j). split_and!; [lia..| |].
      * intros [|[|i]] Hi; [lia| |].
        -- cbn. rewrite Hfw. cbn. congruence.
        -- cbn. rewrite Hfw. cbn. apply (Hno (S i)). lia.
      * cbn. rewrite Hfw. cbn. destruct Hend; [by left|right; lia].
    + wp_seq. split; [done|]. exists 1%nat. split_and!; [lia..| |].
      * intros i Hi. lia.
      * right. lia.
Qed.

(** With a non-zero PcdMaximumLinkedListLength the validity check ends on
    every heap without dangling links, well-formed list or not, and says whether
    the forward links lead back to the start in fewer steps than the limit. *)
Theorem list_valid_terminates h x :
  closed h → is_Some (h !! x) → 0 < PcdMaximumLinkedListLength →
  ∃ valid, InternalBaseLibIsListValid (Some x) h = Some (valid, h) ∧
    (valid = true ↔ ∃ k : nat, (1 ≤ k)%nat ∧ Z.of_nat k < PcdMaximumLinkedListLength ∧
                      follow h k x = Some x).
Proof.
  intros Hcl Hx Hm. assert (Hn := Hx). destruct Hn as [n Hn].
  destruct (Hcl _ _ Hn) as (Hb & y & Hy & Hya).
  unfold InternalBaseLibIsListValid. rewrite (bind_run _ _ _ tt h) by done.
  rewrite (bind_run _ _ _ _ _ (link_get_run _ _ _ _ Hn)), Hy, (bind_run _ _ _ tt h) by done.
  rewrite (bind_run _ _ _ _ _ (link_get_run _ _ _ _ Hn)).
  destruct (BackLink n) as [b|]; [|done]. rewrite (bind_run _ _ _ tt h) by done.
  rewrite (proj2 (Z.ltb_lt _ _) Hm).
  destruct (wp_elim _ _ _ (count_nodes_any (Z.to_nat PcdMaximumLinkedListLength) h x x 0
              Hcl Hx ltac:(lia) Hm ltac:(lia))) as (r & h' & Hrun & -> & j & Hj & -> & Hle & Hno & Hend).
  rewrite (bind_run _ _ _ _ _ Hrun). eexists. split; [done|]. rewrite Z.ltb_lt. split.
  - intros Hlt. exists j. split_and!; [done|lia|]. destruct Hend; [done|lia].
  - intros (k & Hk & Hkm & Hfol). destruct (decide (k < j)%nat); [|lia].
    exfalso. by apply (Hno k).
Qed.

End spec.

(** ** A concrete list: head 1, nodes 2, 3 and 4, and a free node 5 *)

Definition sample_list : llheap :=
  <[1%positive := ListEntry (Some 2%positive) (Some 4%positive)]>
  (<[2%positive := ListEntry (Some 3%positive) (Some 1%positive)]>
  (<[3%positive := ListEntry (Some 4%positive) (Some 2%positive)]>
  (<[4%positive := ListEntry (Some 1%positive) (Some 3%positive)]>
  (<[5%positive := ListEntry None None]> ∅)))).

Lemma thousand_in_range : in_range UINT32 1000.
Proof. cint_unfold. lia. Qed.

#[export] Instance sample_pcd : LinkedListPcd := {|
  PcdMaximumLinkedListLength := 1000; PcdVerifyNodeInList := true; Pcd_range := thousand_in_range |}.

Lemma sample_linked : linked_list sample_list 1 [2%positive; 3%positive; 4%positive].
Proof.
  split; [by repeat split|]. repeat constructor; set_solver.
Qed.

Lemma sample_length n : (n < 1000)%nat → length_ok n.
Proof. intros Hn. right. cbn. lia. Qed.

Lemma initialize_correct_witness :
  ∃ h', InitializeListHead (Some 5%positive) sample_list = Some (Some 5%positive, h') ∧
    linked_list h' 5 [].
Proof.
  destruct (initialize_correct sample_list 5) as [(h' & Hrun & Hl & _) _].
  - by eexists.
  - exists h'. split; [exact Hrun | exact Hl].
Defined.

Lemma insert_list_correct_witness :
  ∃ h', InsertTailList (Some 1%positive) (Some 5%positive) sample_list = Some (Some 1%positive, h') ∧
    linked_list h' 1 [2%positive; 3%positive; 4%positive; 5%positive].
Proof.
  destruct (insert_list_correct sample_list 1 [2%positive; 3%positive; 4%positive] 5 sample_linked)
    as (_ & h' & Hrun & Hl & _).
  - set_solver.
  - by eexists.
  - apply sample_length. cbn. lia.
  - exists h'. split; [exact Hrun | exact Hl].
Defined.

Lemma list_updates_correct_witness :
  ∃ h', RemoveEntryList (Some 3%positive) sample_list = Some (Some 4%positive, h') ∧
    linked_list h' 1 [2%positive; 4%positive] ∧ h' !! 3%positive = sample_list !! 3%positive.
Proof.
  destruct (list_updates_correct sample_list 1 [2%positive; 3%positive; 4%positive] sample_linked)
    as (_ & Hremove & _).
  - apply sample_length. cbn. lia.
  - destruct (Hremove [2%positive] 3%positive [4%positive] eq_refl) as (h' & Hrun & Hl & He & _).
    by exists h'.
Defined.

Lemma remove_correct_witness :
  ∃ h', RemoveEntryList (Some 3%positive) sample_list = Some (Some 4%positive, h') ∧
    linked_list h' 1 [2%positive; 4%positive].
Proof.
  destruct (remove_correct sample_list 1 [2%positive] 3 [4%positive] sample_linked)
    as [(h' & Hrun & Hl & _) _].
  - apply sample_length. cbn. lia.
  - exists h'. split; [exact Hrun | exact Hl].
Defined.

Lemma swap_correct_witness :
  ∃ h', SwapListEntries (Some 2%positive) (Some 4%positive) sample_list = Some (Some 4%positive, h') ∧
    linked_list h' 1 [4%positive; 3%positive; 2%positive].
Proof.
  destruct (swap_correct sample_list 1 [] 2 [3%positive] 4 [] sample_linked)
    as [(h' & Hrun & Hl & _) _].
  - apply sample_length. cbn. lia.
  - exists h'. split; [exact Hrun | exact Hl].
Defined.

Lemma list_checks_exact_witness :
  InsertHeadList (Some 1%positive) (Some 3%positive) sample_list = None.
Proof.
  apply (list_checks_exact sample_list 1 [2%positive; 3%positive; 4%positive] 3 sample_linked).
  right. split; [reflexivity | set_solver].
Defined.

Lemma list_traversal_correct_witness :
  GetFirstNode (Some 1%positive) sample_list = Some (Some 2%positive, sample_list).
Proof.
  apply (list_traversal_correct sample_list 1 [2%positive; 3%positive; 4%positive] sample_linked).
  apply sample_length. cbn. lia.
Defined.

Lemma visit_all_witness :
  (Node ← GetFirstNode (Some 1%positive); visit 4 (Some 1%positive) Node) sample_list =
    Some ([Some 2%positive; Some 3%positive; Some 4%positive], sample_list).
Proof.
  apply (visit_all sample_list 1 [2%positive; 3%positive; 4%positive] 4 sample_linked).
  - apply sample_length. cbn. lia.
  - cbn. lia.
Defined.

(** Two nodes whose forward links never lead back to the first. *)
Definition broken_list : llheap :=
  <[1%positive := ListEntry (Some 2%positive) (Some 1%positive)]>
  (<[2%positive := ListEntry (Some 2%positive) (Some 1%positive)]> ∅).

Lemma broken_closed : closed broken_list.
Proof.
  intros x n. unfold broken_list.
  destruct (decide (x = 1%positive)) as [->|H1].
  { intros [= <-]. split; [done|]. exists 2%positive. by split. }
  destruct (decide (x = 2%positive)) as [->|H2].
  { intros [= <-]. split; [done|]. exists 2%positive. by split. }
  rewrite !lookup_insert_ne by done. done.
Qed.

Lemma list_valid_terminates_witness :
  ∃ valid, InternalBaseLibIsListValid (Some 1%positive) broken_list = Some (valid, broken_list).
Proof.
  destruct (list_valid_terminates broken_list 1 broken_closed) as (valid & Hrun & _).
  - by eexists.
  - cbn. lia.
  - exists valid. exact Hrun.
Defined.
