(* ===== verification/Kcs.v ===== *)
(** * The IPMI KCS driver (KarlPkg/Ipmi/Kcs): the code

    The port-level routines of Common/IpmiKcs.c over an arbitrary device, and the
    command layer of Dxe/IpmiCmd.c and Dxe/KcsDxe.c (the Pei files are the same
    code with a PPI in place of the protocol) over the message structures, which
    the callers may alias.  [None] is a NULL dereference, an access outside of a
    buffer, a failed ASSERT, or a loop that outlives its fuel. *)
From S2P Require Import Prelude CBase.
Local Open Scope Z_scope.

(** IoLib and TimerLib on the machine the driver runs on: reading a port may
    change the state of the device as well. *)
Class IoDevice (D : Type) := {
  IoRead8 : Z → D → Z * D;
  IoWrite8 : Z → Z → D → D;
  MicroSecondDelay : Z → D → D }.

Definition KCS_RETRY_LIMIT := 3.
Definition KCS_DELAY_UNIT := 50.
Definition KCS_TIME_OUT_LIMIT := 100000.

Definition KCS_REQUEST_HEADER_SIZE := 2.
Definition KCS_RESPONSE_HEADER_SIZE := 3.
Definition KCS_REQUEST_DATA_SIZE := 0xFF.
Definition KCS_RESPONSE_DATA_SIZE := 0xFF.
Definition IPMI_KCS_LUN := 0.

Definition IPMI_KSC_BASE_ADDRESS := 0xCA2.
Definition IPMI_R_KSC_DATA_IN := IPMI_KSC_BASE_ADDRESS + 0.
Definition IPMI_R_KSC_DATA_OUT := IPMI_KSC_BASE_ADDRESS + 0.
Definition IPMI_R_KSC_COMMAND := IPMI_KSC_BASE_ADDRESS + 1.
Definition IPMI_R_KSC_STATUS := IPMI_KSC_BASE_ADDRESS + 1.

(** The bit-fields of IPMI_KCS_STATUS. *)
Definition Obf (RawData : Z) : bool := Z.testbit RawData 0.
Definition Ibf (RawData : Z) : bool := Z.testbit RawData 1.
Definition State (RawData : Z) : Z := Z.land (Z.shiftr RawData 6) 3.

Definition KSC_STATE_IDLE := 0.
Definition KSC_STATE_READ := 1.
Definition KSC_STATE_WRITE := 2.
Definition KSC_STATE_ERROR := 3.

Definition KSC_CRTL_ABORT := 0x60.
Definition KSC_CRTL_WRITE_START := 0x61.
Definition KSC_CRTL_WRITE_END := 0x62.
Definition KSC_CRTL_READ := 0x68.
Definition KSC_STATUS_UNSPECIFIED_ERROR := 0xFF.

Definition IPMI_NETFN_APP := 0x06.
Definition IPMI_APP_GET_SELFTEST_RESULTS := 0x04.

Section port.
Context {D : Type} `{IoDevice D}.
Abbreviation M := (M D).

Definition in8 (port : Z) : M Z := λ d, Some (IoRead8 port d).
Definition out8 (port v : Z) : M unit := λ d, Some (tt, IoWrite8 port v d).
Definition delay (us : Z) : M unit := λ d, Some (tt, MicroSecondDelay us d).

(** The do-while loop of the two wait functions, with the loop condition [again]
    on the status byte.  [TimeOut] ends it, so that is what the fuel counts. *)
Fixpoint wait_loop (again : Z → bool) (fuel : nat) (TimeOut : Z) : M (Z * Z) :=
  match fuel with
  | O => fails
  | S fuel =>
      delay KCS_DELAY_UNIT;;
      RawData ← in8 IPMI_R_KSC_STATUS;
      if RawData =? KSC_STATUS_UNSPECIFIED_ERROR then mret (RETURN_DEVICE_ERROR, RawData) else
      if TimeOut >=? KCS_TIME_OUT_LIMIT then mret (RETURN_TIMEOUT, RawData) else
      if again RawData then wait_loop again fuel (cast UINT64 (TimeOut + 1))
      else mret (RETURN_SUCCESS, RawData)
  end.

Definition wait_fuel : nat := Z.to_nat (KCS_TIME_OUT_LIMIT + 1).

(** Both return the status code and the status byte left in *KcsStatus. *)
Definition WaitForIbfFalse : M (Z * Z) := wait_loop Ibf wait_fuel 0.
Definition WaitForObfTrue : M (Z * Z) := wait_loop (λ raw, negb (Obf raw)) wait_fuel 0.

(** [if (Status != EFI_SUCCESS) return Status;] *)
Definition unless_error {A} (Status : Z) (early : A) (k : M A) : M A :=
  if negb (Status =? RETURN_SUCCESS) then mret early else k.

(** The while loop of KcsErrorExit. *)
Fixpoint error_exit_loop (fuel : nat) (RetryCount : Z) : M Z :=
  match fuel with
  | O => fails
  | S fuel =>
      if negb (RetryCount <? KCS_RETRY_LIMIT) then mret RETURN_SUCCESS else
      WaitForIbfFalse;;
      out8 IPMI_R_KSC_COMMAND KSC_CRTL_ABORT;;
      '(Status, KcsStatus) ← WaitForIbfFalse;
      unless_error Status Status (
      (if Obf KcsStatus then in8 IPMI_R_KSC_DATA_OUT;; mret tt else mret tt);;
      out8 IPMI_R_KSC_DATA_IN 0;;
      '(Status, KcsStatus) ← WaitForIbfFalse;
      unless_error Status Status (
      let retry :=
        let RetryCount := cast UINT8 (RetryCount + 1) in
        if RetryCount =? KCS_RETRY_LIMIT then mret RETURN_DEVICE_ERROR
        else error_exit_loop fuel RetryCount in
      if State KcsStatus =? KSC_STATE_READ then
        '(Status, _) ← WaitForObfTrue;
        unless_error Status Status (
        in8 IPMI_R_KSC_DATA_OUT;;
        out8 IPMI_R_KSC_DATA_IN KSC_CRTL_READ;;
        '(Status, KcsStatus) ← WaitForIbfFalse;
        unless_error Status Status (
        if State KcsStatus =? KSC_STATE_IDLE then
          '(Status, _) ← WaitForObfTrue;
          unless_error Status Status (
          in8 IPMI_R_KSC_DATA_OUT;;
          mret RETURN_SUCCESS)
        else retry))
      else retry))
  end.

(** Every [continue] has incremented RetryCount, so four iterations suffice. *)
Definition KcsErrorExit : M Z := error_exit_loop 4 0.

(** Returns the status code and the byte left in *KcsStatus. *)
Definition KcsCheckStatus (KcsStateForCheck : Z) : M (Z * Z) :=
  '(Status, KcsStatus) ← WaitForIbfFalse;
  unless_error Status (Status, KcsStatus) (
  if KcsStateForCheck =? KSC_STATE_WRITE then
    if State KcsStatus =? KSC_STATE_WRITE then
      in8 IPMI_R_KSC_DATA_OUT;; mret (RETURN_SUCCESS, KcsStatus)
    else
      Status ← KcsErrorExit; mret (Status, KcsStatus)
  else if KcsStateForCheck =? KSC_STATE_READ then
    if (State KcsStatus =? KSC_STATE_READ) || (State KcsStatus =? KSC_STATE_IDLE) then
      '(Status, KcsStatus) ← WaitForObfTrue;
      unless_error Status (Status, KcsStatus) (mret (RETURN_SUCCESS, KcsStatus))
    else
      Status ← KcsErrorExit; mret (Status, KcsStatus)
  else if KcsStateForCheck =? KSC_STATE_IDLE then mret (RETURN_SUCCESS, KcsStatus)
  else mret (RETURN_INVALID_PARAMETER, KcsStatus)).

(** Data[i], which must be inside of the buffer. *)
Definition load8 (Data : list Z) (i : Z) : M Z :=
  match Data !! Z.to_nat i with Some v => mret v | None => fails end.

Fixpoint write_loop (fuel : nat) (Data : list Z) (DataSize i : Z) : M Z :=
  match fuel with
  | O => fails
  | S fuel =>
      if negb (i <? DataSize) then mret RETURN_SUCCESS else
      '(Status, _) ← KcsCheckStatus KSC_STATE_WRITE;
      unless_error Status Status (
      v ← load8 Data i;
      out8 IPMI_R_KSC_DATA_IN v;;
      write_loop fuel Data DataSize (cast UINT8 (i + 1)))
  end.

(** The UINT8 index runs up to DataSize, at most 255. *)
Definition KcsWriteDataToBmc (Data : list Z) (DataSize : Z) : M Z :=
  '(Status, _) ← WaitForIbfFalse;
  unless_error Status Status (
  in8 IPMI_R_KSC_DATA_OUT;;
  out8 IPMI_R_KSC_STATUS KSC_CRTL_WRITE_START;;
  Status ← write_loop 256 Data DataSize 0;
  unless_error Status Status (
  '(Status, _) ← KcsCheckStatus KSC_STATE_WRITE;
  unless_error Status Status (
  out8 IPMI_R_KSC_COMMAND KSC_CRTL_WRITE_END;;
  mret RETURN_SUCCESS))).

(** Data[i] = v *)
Definition store8 (Data : list Z) (i v : Z) : M (list Z) :=
  if (Z.to_nat i <? length Data)%nat
  then mret (<[Z.to_nat i := v]> Data) else fails.

(** The for loop of KcsReadDataFromBmc: the index is incremented both by
    [Data[i++]] and by the loop.  The fuel is explicit, because a DataSize of 255
    lets the UINT8 index wrap. *)
Fixpoint read_loop (fuel : nat) (Data : list Z) (DataSize i : Z) : M (Z * list Z) :=
  match fuel with
  | O => fails
  | S fuel =>
      if negb (i <? DataSize) then mret (RETURN_SUCCESS, Data) else
      out8 IPMI_R_KSC_DATA_IN KSC_CRTL_READ;;
      '(Status, KcsStatus) ← KcsCheckStatus KSC_STATE_READ;
      unless_error Status (Status, Data) (
      if State KcsStatus =? KSC_STATE_IDLE then mret (RETURN_SUCCESS, Data) else
      v ← in8 IPMI_R_KSC_DATA_OUT;
      Data ← store8 Data i v;
      let i := cast UINT8 (i + 1) in
      read_loop fuel Data DataSize (cast UINT8 (i + 1)))
  end.

(** Returns the status code and the content of the buffer. *)
Definition KcsReadDataFromBmc (fuel : nat) (Data : list Z) (DataSize : Z) : M (Z * list Z) :=
  '(Status, _) ← WaitForIbfFalse;
  unless_error Status (Status, Data) (read_loop fuel Data DataSize 0).
End port.

(** ** Messages *)

(** [rq_Data] is NULL or the buffer that it points to. *)
Record KSC_RQ := KscRq {
  rq_Lun : Z; rq_NetFn : Z; rq_Cmd : Z; RqData : list Z;
  rq_Data : option (list Z); rq_DataSize : Z }.

(** What KSC_RS.Data points to: nothing, a buffer of the caller, or the RsData
    field of the structure itself. *)
Inductive rs_pointer := RsNull | RsBuffer (l : list Z) | RsSelf.

Record KSC_RS := KscRs {
  rs_Lun : Z; rs_NetFn : Z; rs_Cmd : Z; CompletionCode : Z; RsData : list Z;
  rs_Data : rs_pointer; rs_DataSize : Z }.

(** (UINT8 * )&Request: the packed bit-field byte (LUN in the low two bits), the
    command and the data. *)
Definition rq_bytes (r : KSC_RQ) : list Z :=
  Z.lor (rq_Lun r) (Z.shiftl (rq_NetFn r) 2) :: rq_Cmd r :: RqData r.

Definition rs_bytes (r : KSC_RS) : list Z :=
  Z.lor (rs_Lun r) (Z.shiftl (rs_NetFn r) 2) :: rs_Cmd r :: CompletionCode r :: RsData r.

(** The structure after its bytes have been overwritten. *)
Definition set_rs_bytes (r : KSC_RS) (bytes : list Z) : KSC_RS :=
  match bytes with
  | b0 :: b1 :: b2 :: data =>
      KscRs (Z.land b0 3) (Z.shiftr b0 2) b1 b2 data (rs_Data r) (rs_DataSize r)
  | _ => r
  end.

(** ** The command layer *)

(** A message argument is the structure in the driver instance or one of the
    caller's. *)
Inductive owner := InInstance | InCaller.

Record kcs_state (D : Type) := KcsState {
  device : D;
  instance_rq : KSC_RQ; instance_rs : KSC_RS;
  caller_rq : KSC_RQ; caller_rs : KSC_RS }.
Arguments KcsState {_}.
Arguments device {_}.
Arguments instance_rq {_}.
Arguments instance_rs {_}.
Arguments caller_rq {_}.
Arguments caller_rs {_}.

Section command.
Context {D : Type} `{IoDevice D}.
Abbreviation M := (M (kcs_state D)).

(** Run a port-level routine. *)
Definition on_device {A} (m : Prelude.M D A) : M A := λ s,
  '(x, d) ← m (device s);
  Some (x, KcsState d (instance_rq s) (instance_rs s) (caller_rq s) (caller_rs s)).

Definition get_rq (o : owner) : M KSC_RQ := λ s,
  Some (match o with InInstance => instance_rq s | InCaller => caller_rq s end, s).
Definition get_rs (o : owner) : M KSC_RS := λ s,
  Some (match o with InInstance => instance_rs s | InCaller => caller_rs s end, s).
Definition put_rq (o : owner) (r : KSC_RQ) : M unit := λ s,
  Some (tt, match o with
            | InInstance => KcsState (device s) r (instance_rs s) (caller_rq s) (caller_rs s)
            | InCaller => KcsState (device s) (instance_rq s) (instance_rs s) r (caller_rs s)
            end).
Definition put_rs (o : owner) (r : KSC_RS) : M unit := λ s,
  Some (tt, match o with
            | InInstance => KcsState (device s) (instance_rq s) r (caller_rq s) (caller_rs s)
            | InCaller => KcsState (device s) (instance_rq s) (instance_rs s) (caller_rq s) r
            end).

(** CopyMem (dst, src, n) between buffers that do not partially overlap. *)
Definition CopyMem (dst src : list Z) (n : Z) : M (list Z) :=
  if bool_decide (Z.to_nat n ≤ length src ∧ Z.to_nat n ≤ length dst)%nat
  then mret (take (Z.to_nat n) src ++ drop (Z.to_nat n) dst) else fails.

(** Copy the caller's request data into the instance; false for a NULL pointer. *)
Definition stage_request (KcsRq : owner) : M bool :=
  rq ← get_rq KcsRq;
  if 0 <? rq_DataSize rq then
    match rq_Data rq with
    | None => mret false
    | Some src =>
        req ← get_rq InInstance;
        data ← CopyMem (RqData req) src (rq_DataSize rq);
        put_rq InInstance (KscRq (rq_Lun req) (rq_NetFn req) (rq_Cmd req) data (rq_Data req) (rq_DataSize req));;
        mret true
    end
  else mret true.

Definition IpmiKcsCmd (fuel : nat) (KcsRq KcsRs : owner) : M Z :=
  rq ← get_rq KcsRq;
  req ← get_rq InInstance;
  put_rq InInstance (KscRq IPMI_KCS_LUN (rq_NetFn rq) (rq_Cmd rq) (RqData req) (rq_Data req) (rq_DataSize req));;
  go ← stage_request KcsRq;
  if negb go then mret RETURN_INVALID_PARAMETER else
  rq ← get_rq KcsRq;
  let DataSize := cast UINT8 (rq_DataSize rq + KCS_REQUEST_HEADER_SIZE) in
  req ← get_rq InInstance;
  Status ← on_device (KcsWriteDataToBmc (rq_bytes req) DataSize);
  unless_error Status Status (
  rs ← get_rs KcsRs;
  let DataSize := cast UINT8 (rs_DataSize rs + KCS_RESPONSE_HEADER_SIZE) in
  resp ← get_rs InInstance;
  '(Status, bytes) ← on_device (KcsReadDataFromBmc fuel (rs_bytes resp) DataSize);
  put_rs InInstance (set_rs_bytes resp bytes);;
  unless_error Status Status (
  rs ← get_rs KcsRs;
  resp ← get_rs InInstance;
  if (0 <? rs_DataSize rs) && (CompletionCode resp =? 0) then
    match rs_Data rs with
    | RsNull => mret RETURN_INVALID_PARAMETER
    | _ =>
        data ← CopyMem (RsData rs) (RsData resp) (rs_DataSize rs);
        put_rs KcsRs (KscRs (rs_Lun rs) (rs_NetFn rs) (rs_Cmd rs) (CompletionCode rs) data RsSelf (rs_DataSize rs));;
        mret RETURN_SUCCESS
    end
  else mret RETURN_SUCCESS)).

(** *p for a KSC_RS.Data pointer. *)
Definition deref_Data (r : KSC_RS) : M Z :=
  match rs_Data r with
  | RsNull => fails
  | RsBuffer l => match l !! 0%nat with Some v => mret v | None => fails end
  | RsSelf => match RsData r !! 0%nat with Some v => mret v | None => fails end
  end.

(** for (Times = 3; Times > 0; Times--): the value of [Times] after the loop. *)
Fixpoint self_test_loop (fuel Times : nat) : M nat :=
  match Times with
  | O => mret O
  | S Times' =>
      Status ← IpmiKcsCmd fuel InInstance InInstance;
      if Status =? RETURN_SUCCESS then mret Times else self_test_loop fuel Times'
  end.

(** The argument is &mInstance, whose messages are the instance ones. *)
Definition GetSelfTestResults (fuel : nat) : M Z :=
  req ← get_rq InInstance;
  put_rq InInstance (KscRq (rq_Lun req) IPMI_NETFN_APP IPMI_APP_GET_SELFTEST_RESULTS
                       (RqData req) (rq_Data req) 0);;
  resp ← get_rs InInstance;
  put_rs InInstance (KscRs (rs_Lun resp) (rs_NetFn resp) (rs_Cmd resp) (CompletionCode resp)
                       (RsData resp) (rs_Data resp) 2);;
  Times ← self_test_loop fuel 3;
  if (Times =? 0)%nat then mret RETURN_DEVICE_ERROR else
  resp ← get_rs InInstance;
  v ← deref_Data resp;
  mret (if v =? 0x55 then RETURN_SUCCESS else RETURN_DEVICE_ERROR).

(** mInstance as the loader leaves it: zero-filled. *)
Definition zero_rq : KSC_RQ := KscRq 0 0 0 (replicate 255 0) None 0.
Definition zero_rs : KSC_RS := KscRs 0 0 0 0 (replicate 255 0) RsNull 0.

(** BmcInitEntryPoint; [Status] is what InstallProtocolInterface (InstallPpi)
    returns.  The source asserts the status itself, not its absence of error. *)
Definition BmcInitEntryPoint (fuel : nat) (Status : Z) : M Z :=
  ASSERT (negb (Status =? 0));;
  GetSelfTestResults fuel.
End command.
