(* ===== verification/KcsSpec.v ===== *)
(** * The IPMI KCS driver: what it guarantees, and what it does not

    For an arbitrary device: every wait is bounded, the transfers end, and the
    buffers are respected; for a device that is ready to write, exactly the
    request bytes are sent.  The last theorems show three defects of the source:
    responses lose every other byte, a transfer of 255 bytes need not end, and
    an aborted transfer is reported as a success. *)
From S2P Require Import Prelude CBase Kcs.
Local Open Scope Z_scope.

Section port.
Context {D : Type} `{HD : IoDevice D}.
Implicit Types (d : D) (raw Status v : Z) (Data : list Z).

(** ** Bounded waiting *)

(** One poll of the status register, and the [n]-th of a series. *)
Definition poll d : Z * D := IoRead8 IPMI_R_KSC_STATUS (MicroSecondDelay KCS_DELAY_UNIT d).

Fixpoint poll_n (n : nat) d : Z * D :=
  match n with
  | O => poll d
  | S n => poll_n n (poll d).2
  end.

Definition wait_outcome (again : Z → bool) d (m : nat) (Status raw : Z) d' : Prop :=
  ∃ n : nat, (n ≤ m)%nat ∧ poll_n n d = (raw, d') ∧
    (∀ i, (i < n)%nat → (poll_n i d).1 ≠ KSC_STATUS_UNSPECIFIED_ERROR ∧ again (poll_n i d).1 = true) ∧
    ((Status = RETURN_DEVICE_ERROR ∧ raw = KSC_STATUS_UNSPECIFIED_ERROR) ∨
     (Status = RETURN_TIMEOUT ∧ raw ≠ KSC_STATUS_UNSPECIFIED_ERROR ∧ n = m) ∨
     (Status = RETURN_SUCCESS ∧ raw ≠ KSC_STATUS_UNSPECIFIED_ERROR ∧ (n < m)%nat ∧ again raw = false)).

Lemma wait_loop_S again fuel TimeOut d :
  wait_loop again (S fuel) TimeOut d =
    let '(raw, d1) := poll d in
    if raw =? KSC_STATUS_UNSPECIFIED_ERROR then Some ((RETURN_DEVICE_ERROR, raw), d1) else
    if TimeOut >=? KCS_TIME_OUT_LIMIT then Some ((RETURN_TIMEOUT, raw), d1) else
    if again raw then wait_loop again fuel (cast UINT64 (TimeOut + 1)) d1
    else Some ((RETURN_SUCCESS, raw), d1).
Proof.
  cbn [wait_loop]. unfold mbind, M_bind, delay, in8. fold (poll d). destruct (poll d) as [raw d1].
  by repeat case_match.
Qed.

Lemma wait_loop_spec again m d : Z.of_nat m ≤ KCS_TIME_OUT_LIMIT →
  wp (wait_loop again (S m) (KCS_TIME_OUT_LIMIT - Z.of_nat m))
    (λ r d', wait_outcome again d m r.1 r.2 d') d.
Proof.
  revert d. induction m as [|m IH]; intros d Hm; unfold wp; rewrite wait_loop_S;
    destruct (poll d) as [raw d1] eqn:Hpoll.
  all: destruct (Z.eqb_spec raw KSC_STATUS_UNSPECIFIED_ERROR) as [Hr|Hr];
    [exists 0%nat; cbn; rewrite Hpoll; split_and!; [lia|done|lia|by left]|].
  - rewrite Z.geb_leb, (proj2 (Z.leb_le _ _)) by lia.
    exists 0%nat. cbn. rewrite Hpoll. split_and!; [lia|done|lia|by right; left].
  - rewrite Z.geb_leb, (proj2 (Z.leb_gt _ _)) by lia.
    destruct (again raw) eqn:Ha.
    + replace (cast UINT64 _) with (KCS_TIME_OUT_LIMIT - Z.of_nat m).
      2:{ rewrite cast_id; [lia|done|]. unfold KCS_TIME_OUT_LIMIT in *. cint_unfold. lia. }
      eapply wp_mono; [apply (IH d1); lia|]. intros [Status raw2] d2 (n & Hn & Hpn & Hall & Hout).
      exists (S n). cbn [poll_n]. rewrite Hpoll. split_and!; [lia|done| |].
      * intros [|i] Hi; cbn [poll_n]; rewrite ?Hpoll; [done|]. apply Hall. lia.
      * destruct Hout as [?|[(?&?&?)|(?&?&?&?)]]; [by left|right; left|right; right];
          split_and!; (done || lia).
    + exists 0%nat. cbn. rewrite Hpoll. split_and!; [lia|done|lia|]. right; right.
      split_and!; (done || lia).
Qed.

Lemma limit_nat : KCS_TIME_OUT_LIMIT - Z.of_nat (Z.to_nat KCS_TIME_OUT_LIMIT) = 0.
Proof. rewrite Z2Nat.id; [apply Z.sub_diag | unfold KCS_TIME_OUT_LIMIT; lia]. Qed.

Lemma wait_fuel_limit : wait_fuel = S (Z.to_nat KCS_TIME_OUT_LIMIT).
Proof. unfold wait_fuel. rewrite Z2Nat.inj_add by done. by rewrite Nat.add_1_r. Qed.

#[local] Opaque wait_fuel.

Lemma wait_spec again d :
  wp (wait_loop again wait_fuel 0)
    (λ r d', wait_outcome again d (Z.to_nat KCS_TIME_OUT_LIMIT) r.1 r.2 d') d.
Proof.
  rewrite wait_fuel_limit, <-limit_nat. apply wait_loop_spec.
  rewrite Z2Nat.id; [done | unfold KCS_TIME_OUT_LIMIT; lia].
Qed.

(** The status codes of a transfer. *)
Definition kcs_status Status : Prop :=
  Status = RETURN_SUCCESS ∨ Status = RETURN_TIMEOUT ∨ Status = RETURN_DEVICE_ERROR.

Lemma wait_outcome_status again d m Status raw d' :
  wait_outcome again d m Status raw d' →
  kcs_status Status ∧ (Status = RETURN_SUCCESS → again raw = false).
Proof.
  intros (n & _ & _ & _ & [[-> _]|[[-> _]|(-> & _ & _ & Ha)]]);
    split; unfold kcs_status; eauto; done.
Qed.

(** ** Steps of a port program on an arbitrary device *)

Lemma wp_wait_ibf (Q : Z * Z → D → Prop) d :
  (∀ Status raw d', kcs_status Status → Q (Status, raw) d') → wp WaitForIbfFalse Q d.
Proof.
  intros HQ. eapply wp_mono; [apply wait_spec|]. intros [Status raw] d' Ho. cbn in Ho.
  apply HQ. by eapply wait_outcome_status.
Qed.
Lemma wp_wait_obf (Q : Z * Z → D → Prop) d :
  (∀ Status raw d', kcs_status Status → Q (Status, raw) d') → wp WaitForObfTrue Q d.
Proof.
  intros HQ. eapply wp_mono; [apply wait_spec|]. intros [Status raw] d' Ho. cbn in Ho.
  apply HQ. by eapply wait_outcome_status.
Qed.
Lemma wp_in8 (Q : Z → D → Prop) p d : (∀ v d', Q v d') → wp (in8 p) Q d.
Proof. intros HQ. unfold wp, in8. destruct (IoRead8 p d). apply HQ. Qed.
Lemma wp_out8 (Q : unit → D → Prop) p v d : (∀ d', Q tt d') → wp (out8 p v) Q d.
Proof. intros HQ. apply HQ. Qed.
Lemma wp_unless {A} (Q : A → D → Prop) Status early (k : M D A) d :
  (Status ≠ RETURN_SUCCESS → Q early d) → (Status = RETURN_SUCCESS → wp k Q d) →
  wp (unless_error Status early k) Q d.
Proof.
  intros He Hk. unfold unless_error. destruct (Z.eqb_spec Status RETURN_SUCCESS); cbn [negb]; [auto|apply wp_ret; auto].
Qed.

Ltac kcs_step :=
  wp_seq;
  first
  [ apply wp_wait_ibf; intros ? ? ? ?
  | apply wp_wait_obf; intros ? ? ? ?
  | apply wp_in8; intros ? ?
  | apply wp_out8; intros ?
  | apply wp_unless; intros ?
  | case_match
  | progress (cbn beta iota zeta) ].

Lemma kcs_success : kcs_status RETURN_SUCCESS.
Proof. by left. Qed.
Lemma kcs_device_error : kcs_status RETURN_DEVICE_ERROR.
Proof. by right; right. Qed.

Lemma error_exit_loop_total fuel n d : (0 < fuel)%nat → 0 ≤ n → 3 < n + Z.of_nat fuel → n ≤ 3 →
  wp (error_exit_loop fuel n) (λ Status _, kcs_status Status) d.
Proof.
  revert n d. induction fuel as [|fuel IH]; intros n d Hf Hn Hnf Hle; [lia|]. cbn [error_exit_loop].
  destruct (Z.ltb_spec n KCS_RETRY_LIMIT) as [Hlt|Hge]; cbn [negb]; unfold KCS_RETRY_LIMIT in *;
    [|by wp_seq; left].
  assert (Hretry : ∀ d, wp
    (let RetryCount := cast UINT8 (n + 1) in
     if RetryCount =? 3 then mret RETURN_DEVICE_ERROR else error_exit_loop fuel RetryCount)
    (λ Status _, kcs_status Status) d).
  { intros d0. cbn zeta. rewrite cast_id; [|done|cint_unfold; lia].
    destruct (Z.eqb_spec (n + 1) 3); [by wp_seq; apply kcs_device_error|]. apply IH; lia. }
  repeat first [apply Hretry | kcs_step]; first [assumption | apply kcs_success].
Qed.

Lemma error_exit_total (Q : Z → D → Prop) d :
  (∀ Status d', kcs_status Status → Q Status d') → wp KcsErrorExit Q d.
Proof.
  intros HQ. eapply wp_mono; [apply error_exit_loop_total; lia|]. auto.
Qed.

Lemma check_status_total (Q : Z * Z → D → Prop) s d :
  s = KSC_STATE_IDLE ∨ s = KSC_STATE_READ ∨ s = KSC_STATE_WRITE →
  (∀ Status raw d', kcs_status Status → Q (Status, raw) d') → wp (KcsCheckStatus s) Q d.
Proof.
  intros Hs HQ. unfold KcsCheckStatus.
  destruct Hs as [->|[->| ->]]; cbn -[State WaitForIbfFalse WaitForObfTrue KcsErrorExit];
    repeat first [kcs_step | wp_seq; apply error_exit_total; intros ? ? ?];
    apply HQ; first [assumption | apply kcs_success].
Qed.

(** Both wait functions end on every device, after at most 100001 polls of
    50 microseconds.  They return success exactly when some poll among the first
    100000 shows the awaited bit before any poll reads 0xFF, a device error on
    0xFF, and a timeout otherwise; the last byte read is left in *KcsStatus. *)
Theorem wait_bounded d :
  (∃ Status raw d', WaitForIbfFalse d = Some ((Status, raw), d') ∧
     wait_outcome Ibf d (Z.to_nat KCS_TIME_OUT_LIMIT) Status raw d') ∧
  (∃ Status raw d', WaitForObfTrue d = Some ((Status, raw), d') ∧
     wait_outcome (λ raw, negb (Obf raw)) d (Z.to_nat KCS_TIME_OUT_LIMIT) Status raw d').
Proof.
  split.
  - destruct (wp_elim _ _ _ (wait_spec Ibf d)) as ([Status raw] & d' & Hrun & Ho). by exists Status, raw, d'.
  - destruct (wp_elim _ _ _ (wait_spec (λ raw, negb (Obf raw)) d)) as ([Status raw] & d' & Hrun & Ho).
    by exists Status, raw, d'.
Qed.

(** ** Transfers on an arbitrary device *)

Lemma wp_load8 (Q : Z → D → Prop) Data i d :
  0 ≤ i → (Z.to_nat i < length Data)%nat → (∀ v, Q v d) → wp (load8 Data i) Q d.
Proof.
  intros Hi Hl HQ. unfold load8. destruct (lookup_lt_is_Some_2 Data (Z.to_nat i) Hl) as [v ->].
  apply HQ.
Qed.

Lemma write_loop_total fuel Data n i d :
  0 ≤ i ≤ n → n ≤ 255 → (Z.to_nat n ≤ length Data)%nat → n < i + Z.of_nat fuel →
  wp (write_loop fuel Data n i) (λ Status _, kcs_status Status) d.
Proof.
  revert i d. induction fuel as [|fuel IH]; intros i d Hi Hn Hl Hf; [lia|]. cbn [write_loop].
  destruct (Z.ltb_spec i n) as [Hlt|Hge]; cbn [negb]; [|wp_seq; apply kcs_success].
  wp_seq. apply check_status_total; [by right; right|]. intros Status raw d1 Hs. cbn beta iota.
  apply wp_unless; intros _; [done|].
  wp_seq. apply wp_load8; [lia|lia|]. intros v. wp_seq. apply wp_out8. intros d2.
  rewrite cast_id; [|done|cint_unfold; lia]. apply IH; lia.
Qed.

Lemma write_total Data n d :
  0 ≤ n ≤ 255 → (Z.to_nat n ≤ length Data)%nat →
  wp (KcsWriteDataToBmc Data n) (λ Status _, kcs_status Status) d.
Proof.
  intros Hn Hl. unfold KcsWriteDataToBmc. wp_seq. apply wp_wait_ibf. intros Status1 raw1 d1 Hs1.
  cbn beta iota. apply wp_unless; intros _; [done|].
  wp_seq. apply wp_in8. intros v dv. wp_seq. apply wp_out8. intros dw.
  wp_seq. eapply wp_mono; [apply write_loop_total; lia|]. intros Status2 d2 Hs. cbn beta.
  apply wp_unless; intros _; [done|]. wp_seq. apply check_status_total; [by right; right|].
  intros Status3 raw d3 Hs3. cbn beta iota. apply wp_unless; intros _; [done|].
  kcs_step. wp_seq. apply kcs_success.
Qed.

(** What the read loop does to the buffer, on any device. *)
Definition odd_kept (Data Data' : list Z) : Prop :=
  length Data' = length Data ∧ ∀ j : nat, Nat.Odd j → Data' !! j = Data !! j.

Lemma odd_kept_refl Data : odd_kept Data Data.
Proof. by split. Qed.

Lemma odd_kept_insert Data Data' i v : Nat.Even i → odd_kept (<[i := v]> Data) Data' → odd_kept Data Data'.
Proof.
  intros He [Hl Hodd]. rewrite length_insert in Hl. split; [done|]. intros j Hj.
  rewrite Hodd by done. apply list_lookup_insert_ne. intros <-. by apply (Nat.Even_Odd_False i).
Qed.

Lemma wp_store8 (Q : list Z → D → Prop) Data i v d :
  0 ≤ i → (Z.to_nat i < length Data)%nat → Q (<[Z.to_nat i := v]> Data) d → wp (store8 Data i v) Q d.
Proof. intros Hi Hl HQ. unfold store8. by rewrite (proj2 (Nat.ltb_lt _ _)). Qed.

Lemma read_loop_total fuel Data n (k : nat) d :
  n ≤ 254 → (Z.to_nat n ≤ length Data)%nat → 2 * Z.of_nat k ≤ n + 1 → n + 2 ≤ 2 * Z.of_nat (k + fuel) →
  wp (read_loop fuel Data n (2 * Z.of_nat k)) (λ r _, kcs_status r.1 ∧ odd_kept Data r.2) d.
Proof.
  revert Data k d. induction fuel as [|fuel IH]; intros Data k d Hn Hl Hk Hf.
  { lia. }
  cbn [read_loop].
  destruct (Z.ltb_spec (2 * Z.of_nat k) n) as [Hlt|Hge]; cbn [negb];
    [|wp_seq; split; [apply kcs_success|apply odd_kept_refl]].
  wp_seq. apply wp_out8. intros d1. wp_seq. apply check_status_total; [by right; left|].
  intros Status raw d2 Hs. cbn beta iota. apply wp_unless; intros _; [by split|].
  case_match; [wp_seq; split; [apply kcs_success|apply odd_kept_refl]|].
  wp_seq. apply wp_in8. intros v d3. wp_seq. apply wp_store8; [lia|lia|].
  cbn zeta. rewrite (cast_id UINT8 (2 * Z.of_nat k + 1)); [|done|cint_unfold; lia].
  rewrite (cast_id UINT8 (2 * Z.of_nat k + 1 + 1)); [|done|cint_unfold; lia].
  replace (2 * Z.of_nat k + 1 + 1) with (2 * Z.of_nat (S k)) by lia.
  eapply wp_mono; [apply IH; rewrite ?length_insert; lia|].
  intros [Status2 Data2] d4 [Hs2 Hodd]. split; [done|].
  eapply odd_kept_insert; [|exact Hodd]. exists k. lia.
Qed.

Lemma read_total fuel Data n d :
  0 ≤ n ≤ 254 → (Z.to_nat n ≤ length Data)%nat → (128 ≤ fuel)%nat →
  wp (KcsReadDataFromBmc fuel Data n) (λ r _, kcs_status r.1 ∧ odd_kept Data r.2) d.
Proof.
  intros Hn Hl Hf. unfold KcsReadDataFromBmc. wp_seq. apply wp_wait_ibf.
  intros Status raw d1 Hs. cbn beta iota. apply wp_unless; intros _; [split; [done|apply odd_kept_refl]|].
  apply (read_loop_total fuel Data n 0); lia.
Qed.

(** C36: on every device the transfer routines end with success, a timeout or a
    device error, and stay inside of their buffers: KcsErrorExit within three
    retries, KcsCheckStatus, KcsWriteDataToBmc for any UINT8 size, and
    KcsReadDataFromBmc for any size up to 254, within 128 iterations. *)
Theorem transfers_end d Data n fuel :
  0 ≤ n ≤ 255 → (Z.to_nat n ≤ length Data)%nat → (128 ≤ fuel)%nat →
  (∃ Status d', KcsErrorExit d = Some (Status, d') ∧ kcs_status Status) ∧
  (∃ Status raw d', KcsCheckStatus KSC_STATE_WRITE d = Some ((Status, raw), d') ∧ kcs_status Status) ∧
  (∃ Status raw d', KcsCheckStatus KSC_STATE_READ d = Some ((Status, raw), d') ∧ kcs_status Status) ∧
  (∃ Status d', KcsWriteDataToBmc Data n d = Some (Status, d') ∧ kcs_status Status) ∧
  (n ≠ 255 → ∃ Status Data' d',
     KcsReadDataFromBmc fuel Data n d = Some ((Status, Data'), d') ∧ kcs_status Status ∧
     length Data' = length Data).
Proof.
  intros Hn Hl Hf. split_and!.
  - assert (Hwp : wp KcsErrorExit (λ Status _, kcs_status Status) d) by (by apply error_exit_total).
    destruct (wp_elim _ _ _ Hwp) as (Status & d' & ? & ?). by exists Status, d'.
  - assert (Hwp : wp (KcsCheckStatus KSC_STATE_WRITE) (λ r _, kcs_status r.1) d)
      by (apply check_status_total; [by right; right|done]).
    destruct (wp_elim _ _ _ Hwp) as ([Status raw] & d' & ? & ?). by exists Status, raw, d'.
  - assert (Hwp : wp (KcsCheckStatus KSC_STATE_READ) (λ r _, kcs_status r.1) d)
      by (apply check_status_total; [by right; left|done]).
    destruct (wp_elim _ _ _ Hwp) as ([Status raw] & d' & ? & ?). by exists Status, raw, d'.
  - destruct (wp_elim _ _ _ (write_total Data n d Hn Hl)) as (Status & d' & ? & ?). by exists Status, d'.
  - intros Hne.
    assert (Hwp : wp (KcsReadDataFromBmc fuel Data n) (λ r _, kcs_status r.1 ∧ odd_kept Data r.2) d)
      by (apply read_total; [lia|done|done]).
    destruct (wp_elim _ _ _ Hwp) as ([Status Data'] & d' & ? & Hs & Hlen & _). by exists Status, Data', d'.
Qed.

(** The double increment of the index.  Whatever the device sends, a
    completed KcsReadDataFromBmc has stored nothing at an odd index: the command
    byte (index 1) of a response, and every other data byte, keep the value they
    had before the transfer. *)
Theorem read_skips_odd_bytes d Data n fuel Status Data' d' :
  0 ≤ n ≤ 254 → (Z.to_nat n ≤ length Data)%nat → (128 ≤ fuel)%nat →
  KcsReadDataFromBmc fuel Data n d = Some ((Status, Data'), d') →
  ∀ j : nat, Nat.Odd j → Data' !! j = Data !! j.
Proof.
  intros Hn Hl Hf Hrun. pose proof (read_total fuel Data n d Hn Hl Hf) as Hwp.
  unfold wp in Hwp. rewrite Hrun in Hwp. apply Hwp.
Qed.

(** ** A device that stays in one state *)

(** [Inv] holds of the device throughout, its status bytes are [ready], and [log]
    records what has been written to its ports. *)
Class SteadyDevice (Inv : D → Prop) (log : D → list (Z * Z)) (ready : Z → Prop) : Prop := {
  steady_poll d : Inv d → ∃ raw d', poll d = (raw, d') ∧ ready raw ∧ Inv d' ∧ log d' = log d;
  steady_in p d : Inv d → Inv (IoRead8 p d).2 ∧ log (IoRead8 p d).2 = log d;
  steady_out p v d : Inv d → Inv (IoWrite8 p v d) ∧ log (IoWrite8 p v d) = log d ++ [(p, v)] }.

Section steady.
Context (Inv : D → Prop) (log : D → list (Z * Z)) (ready : Z → Prop) `{!SteadyDevice Inv log ready}.

Lemma steady_wait again (Q : Z * Z → D → Prop) d :
  Inv d → (∀ raw, ready raw → raw ≠ KSC_STATUS_UNSPECIFIED_ERROR ∧ again raw = false) →
  (∀ raw d', ready raw → Inv d' → log d' = log d → Q (RETURN_SUCCESS, raw) d') →
  wp (wait_loop again wait_fuel 0) Q d.
Proof.
  intros Hi Hready HQ. rewrite wait_fuel_limit. unfold wp. rewrite wait_loop_S.
  destruct (steady_poll d Hi) as (raw & d' & -> & Hr & Hi' & Hlog).
  destruct (Hready raw Hr) as [Hff Ha].
  rewrite (proj2 (Z.eqb_neq _ _) Hff), Z.geb_leb, (proj2 (Z.leb_gt _ _)), Ha by done.
  by apply HQ.
Qed.

Lemma steady_in8 (Q : Z → D → Prop) p d :
  Inv d → (∀ v d', Inv d' → log d' = log d → Q v d') → wp (in8 p) Q d.
Proof.
  intros Hi HQ. unfold wp, in8. pose proof (steady_in p d Hi) as [? ?].
  destruct (IoRead8 p d) as [v d']. by apply HQ.
Qed.

Lemma steady_out8 (Q : unit → D → Prop) p v d :
  Inv d → (∀ d', Inv d' → log d' = log d ++ [(p, v)] → Q tt d') → wp (out8 p v) Q d.
Proof. intros Hi HQ. pose proof (steady_out p v d Hi) as [? ?]. by apply HQ. Qed.
End steady.

Definition ready_write raw : Prop :=
  raw ≠ KSC_STATUS_UNSPECIFIED_ERROR ∧ Ibf raw = false ∧ State raw = KSC_STATE_WRITE.

Definition ready_read raw : Prop :=
  raw ≠ KSC_STATUS_UNSPECIFIED_ERROR ∧ Ibf raw = false ∧ Obf raw = true ∧ State raw = KSC_STATE_READ.

Section writing.
Context (Inv : D → Prop) (log : D → list (Z * Z)) `{!SteadyDevice Inv log ready_write}.

Lemma check_write (Q : Z * Z → D → Prop) d :
  Inv d → (∀ raw d', Inv d' → log d' = log d → Q (RETURN_SUCCESS, raw) d') →
  wp (KcsCheckStatus KSC_STATE_WRITE) Q d.
Proof.
  intros Hi HQ. unfold KcsCheckStatus. wp_seq.
  eapply (steady_wait Inv log ready_write); [done|by intros raw (? & ? & ?)|].
  intros raw d1 (_ & _ & Hst) Hi1 Hl1. cbn beta iota. unfold unless_error.
  rewrite Z.eqb_refl. cbn [negb]. rewrite Z.eqb_refl. rewrite Hst, Z.eqb_refl. wp_seq.
  eapply (steady_in8 Inv log ready_write); [done|]. intros v d2 Hi2 Hl2. wp_seq.
  apply HQ; [done|congruence].
Qed.

Lemma write_loop_sends fuel Data n i d :
  0 ≤ i ≤ n → n ≤ 255 → (Z.to_nat n ≤ length Data)%nat → n < i + Z.of_nat fuel → Inv d →
  wp (write_loop fuel Data n i) (λ Status d', Status = RETURN_SUCCESS ∧ Inv d' ∧
    log d' = log d ++ ((λ v, (IPMI_R_KSC_DATA_IN, v)) <$> drop (Z.to_nat i) (take (Z.to_nat n) Data))) d.
Proof.
  revert i d. induction fuel as [|fuel IH]; intros i d Hi Hn Hl Hf Hinv; [lia|]. cbn [write_loop].
  destruct (Z.ltb_spec i n) as [Hlt|Hge]; cbn [negb].
  - wp_seq. apply check_write; [done|]. intros raw d1 Hi1 Hl1. cbn beta iota. unfold unless_error.
    rewrite Z.eqb_refl. cbn [negb]. wp_seq.
    destruct (lookup_lt_is_Some_2 Data (Z.to_nat i)) as [v Hv]; [lia|].
    unfold load8. rewrite Hv. wp_seq. eapply (steady_out8 Inv log ready_write); [done|].
    intros d2 Hi2 Hl2. rewrite cast_id; [|done|cint_unfold; lia].
    eapply wp_mono; [apply IH; [lia..|done]|]. intros Status d3 (-> & Hi3 & Hl3).
    split_and!; [done..|]. rewrite Hl3, Hl2, Hl1, <-app_assoc. cbn. f_equal.
    rewrite (drop_S (take (Z.to_nat n) Data) v (Z.to_nat i)).
    + cbn. do 3 f_equal. lia.
    + rewrite lookup_take_lt by lia. done.
  - wp_seq. split_and!; [done..|]. rewrite drop_ge; [by rewrite app_nil_r|].
    rewrite length_take. lia.
Qed.

(** C37: on a device that is ready to write throughout the transfer,
    KcsWriteDataToBmc succeeds, and what it writes to the ports is exactly
    WRITE_START, the first DataSize bytes of the buffer in order, and WRITE_END. *)
Theorem write_sends_request d Data n :
  Inv d → 0 ≤ n ≤ 255 → (Z.to_nat n ≤ length Data)%nat →
  ∃ d', KcsWriteDataToBmc Data n d = Some (RETURN_SUCCESS, d') ∧
    log d' = log d ++ (IPMI_R_KSC_STATUS, KSC_CRTL_WRITE_START) ::
      ((λ v, (IPMI_R_KSC_DATA_IN, v)) <$> take (Z.to_nat n) Data) ++
      [(IPMI_R_KSC_COMMAND, KSC_CRTL_WRITE_END)].
Proof.
  intros Hi Hn Hl.
  assert (Hwp : wp (KcsWriteDataToBmc Data n) (λ Status d', Status = RETURN_SUCCESS ∧
    log d' = log d ++ (IPMI_R_KSC_STATUS, KSC_CRTL_WRITE_START) ::
      ((λ v, (IPMI_R_KSC_DATA_IN, v)) <$> take (Z.to_nat n) Data) ++
      [(IPMI_R_KSC_COMMAND, KSC_CRTL_WRITE_END)]) d).
  { unfold KcsWriteDataToBmc. wp_seq.
    eapply (steady_wait Inv log ready_write); [done|by intros raw (? & ? & ?)|].
    intros raw d1 _ Hi1 Hl1. cbn beta iota. unfold unless_error at 1. rewrite Z.eqb_refl. cbn [negb].
    wp_seq. eapply (steady_in8 Inv log ready_write); [done|]. intros v d2 Hi2 Hl2.
    wp_seq. eapply (steady_out8 Inv log ready_write); [done|]. intros d3 Hi3 Hl3.
    wp_seq. eapply wp_mono; [apply write_loop_sends; [lia..|done]|].
    intros Status d4 (-> & Hi4 & Hl4). unfold unless_error at 1. rewrite Z.eqb_refl. cbn [negb].
    wp_seq. apply check_write; [done|]. intros raw2 d5 Hi5 Hl5. cbn beta iota.
    unfold unless_error. rewrite Z.eqb_refl. cbn [negb].
    wp_seq. eapply (steady_out8 Inv log ready_write); [done|]. intros d6 Hi6 Hl6. wp_seq.
    split; [done|]. rewrite Hl6, Hl5, Hl4, Hl3, Hl2, Hl1, <-!app_assoc. cbn. by rewrite drop_0. }
  destruct (wp_elim _ _ _ Hwp) as (Status & d' & Hrun & -> & Hlog). by exists d'.
Qed.
End writing.

Section streaming.
Context (Inv : D → Prop) (log : D → list (Z * Z)) `{!SteadyDevice Inv log ready_read}.

Lemma check_read (Q : Z * Z → D → Prop) d :
  Inv d → (∀ raw d', ready_read raw → Inv d' → Q (RETURN_SUCCESS, raw) d') →
  wp (KcsCheckStatus KSC_STATE_READ) Q d.
Proof.
  intros Hi HQ. unfold KcsCheckStatus. wp_seq.
  eapply (steady_wait Inv log ready_read); [done|by intros raw (? & ? & ?)|].
  intros raw d1 (_ & _ & _ & Hst) Hi1 _. cbn beta iota. unfold unless_error at 1.
  rewrite Z.eqb_refl. cbn [negb]. change (KSC_STATE_READ =? KSC_STATE_WRITE) with false.
  rewrite Z.eqb_refl. rewrite Hst. cbn [orb]. rewrite Z.eqb_refl. cbn [orb]. wp_seq.
  eapply (steady_wait Inv log ready_read); [done| |].
  { intros raw2 (? & ? & Ho & ?). by rewrite Ho. }
  intros raw2 d2 Hr2 Hi2 _. cbn beta iota. unfold unless_error. rewrite Z.eqb_refl. cbn [negb].
  wp_seq. by apply HQ.
Qed.

(** With a DataSize of 255 the UINT8 index wraps from 254 to 0 and the loop
    of KcsReadDataFromBmc has no end of its own: on a device that keeps answering
    in the READ state, no amount of fuel suffices. *)
Theorem read_255_never_ends d Data fuel :
  Inv d → (255 ≤ length Data)%nat → KcsReadDataFromBmc fuel Data 255 d = None.
Proof.
  intros Hi Hl.
  assert (Hloop : ∀ fuel Data d (k : nat), Inv d → (255 ≤ length Data)%nat → (k ≤ 127)%nat →
    read_loop fuel Data 255 (2 * Z.of_nat k) d = None).
  { clear d Data fuel Hi Hl. induction fuel as [|fuel IH]; intros Data d k Hi Hl Hk; [done|]. cbn [read_loop].
    rewrite (proj2 (Z.ltb_lt _ _)) by lia. cbn [negb]. unfold mbind at 1, M_bind at 1, out8 at 1.
    destruct (steady_out IPMI_R_KSC_DATA_IN KSC_CRTL_READ d Hi) as [Hi1 _].
    assert (Hchk : wp (KcsCheckStatus KSC_STATE_READ) (λ r d', r.1 = RETURN_SUCCESS ∧ ready_read r.2 ∧ Inv d')
      (IoWrite8 IPMI_R_KSC_DATA_IN KSC_CRTL_READ d)) by (by apply check_read).
    destruct (wp_elim _ _ _ Hchk) as ([Status raw] & d2 & Hrun & Hst & Hr & Hi2). cbn in Hst, Hr. subst Status.
    rewrite (bind_run _ _ _ _ _ Hrun). unfold unless_error. rewrite Z.eqb_refl. cbn [negb].
    destruct Hr as (_ & _ & _ & ->). change (KSC_STATE_READ =? KSC_STATE_IDLE) with false. cbn iota.
    destruct (steady_in IPMI_R_KSC_DATA_OUT d2 Hi2) as [Hi3 _].
    unfold mbind at 1, M_bind at 1, in8 at 1.
    destruct (IoRead8 IPMI_R_KSC_DATA_OUT d2) as [v d3]. cbn in Hi3.
    unfold store8. rewrite (proj2 (Nat.ltb_lt _ _)) by lia. unfold mbind, M_bind. cbn [mret M_ret].
    rewrite (cast_id UINT8 (2 * Z.of_nat k + 1)); [|done|cint_unfold; lia].
    destruct (decide (k = 127%nat)) as [->|Hne].
    - apply (IH _ _ 0%nat); [done|by rewrite length_insert|lia].
    - rewrite (cast_id UINT8 (2 * Z.of_nat k + 1 + 1)); [|done|cint_unfold; lia].
      replace (2 * Z.of_nat k + 1 + 1) with (2 * Z.of_nat (S k)) by lia.
      apply IH; [done|by rewrite length_insert|lia]. }
  unfold KcsReadDataFromBmc.
  assert (Hw : wp WaitForIbfFalse (λ r d', r.1 = RETURN_SUCCESS ∧ Inv d') d).
  { eapply (steady_wait Inv log ready_read); [done|by intros raw (? & ? & ?)|]. by intros. }
  destruct (wp_elim _ _ _ Hw) as ([Status raw] & d1 & Hrun & Hst & Hi1). cbn in Hst. subst Status.
  rewrite (bind_run _ _ _ _ _ Hrun). unfold unless_error. rewrite Z.eqb_refl. cbn [negb].
  by apply (Hloop fuel Data d1 0%nat); [done|done|lia].
Qed.
End streaming.

(** An aborted transfer is reported as a good one.  When the device is not
    in the WRITE state, KcsCheckStatus runs the abort sequence, and if that
    succeeds returns success itself; so the write loop goes on with the next byte
    of a message the device has just been told to abort. *)
Theorem abort_reported_as_success d raw d1 d2 Data n i v fuel :
  WaitForIbfFalse d = Some ((RETURN_SUCCESS, raw), d1) → State raw ≠ KSC_STATE_WRITE →
  KcsErrorExit d1 = Some (RETURN_SUCCESS, d2) →
  0 ≤ i < n → n ≤ 255 → Data !! Z.to_nat i = Some v →
  KcsCheckStatus KSC_STATE_WRITE d = Some ((RETURN_SUCCESS, raw), d2) ∧
  write_loop (S fuel) Data n i d =
    write_loop fuel Data n (i + 1) (IoWrite8 IPMI_R_KSC_DATA_IN v d2).
Proof.
  intros Hw Hst Hexit Hi Hn Hv.
  assert (Hchk : KcsCheckStatus KSC_STATE_WRITE d = Some ((RETURN_SUCCESS, raw), d2)).
  { unfold KcsCheckStatus. rewrite (bind_run _ _ _ _ _ Hw). unfold unless_error at 1.
    rewrite Z.eqb_refl. cbn [negb]. rewrite Z.eqb_refl, (proj2 (Z.eqb_neq _ _) Hst).
    by rewrite (bind_run _ _ _ _ _ Hexit). }
  split; [done|]. cbn [write_loop]. rewrite (proj2 (Z.ltb_lt _ _)) by lia. cbn [negb].
  rewrite (bind_run _ _ _ _ _ Hchk). unfold unless_error. rewrite Z.eqb_refl. cbn [negb].
  unfold load8. rewrite Hv. unfold mbind, M_bind. cbn [mret M_ret].
  rewrite cast_id; [done|done|cint_unfold; lia].
Qed.
End port.
