(* ===== verification/KcsCommand.v ===== *)
(** * The IPMI command layer

    IpmiKcsCmd on any device and for any aliasing of its message arguments, and
    the self test of the driver entry points. *)
From S2P Require Import Prelude CBase Kcs KcsSpec.
Local Open Scope Z_scope.

Section command.
Context {D : Type} `{HD : IoDevice D}.
Implicit Types (s : kcs_state D) (o : owner).

(** Message structures as C lays them out, with a data pointer that is NULL or
    points to as many bytes as the size says. *)
Definition wf_rq (r : KSC_RQ) : Prop :=
  length (RqData r) = 255%nat ∧ 0 ≤ rq_DataSize r ≤ 255 ∧
  match rq_Data r with Some l => (Z.to_nat (rq_DataSize r) ≤ length l)%nat | None => True end.

Definition wf_rs (r : KSC_RS) : Prop :=
  length (RsData r) = 255%nat ∧ 0 ≤ rs_DataSize r ≤ 255.

Definition rq_of o s : KSC_RQ := match o with InInstance => instance_rq s | InCaller => caller_rq s end.
Definition rs_of o s : KSC_RS := match o with InInstance => instance_rs s | InCaller => caller_rs s end.

Definition wf_state s : Prop := (∀ o, wf_rq (rq_of o s)) ∧ (∀ o, wf_rs (rs_of o s)).

Lemma wp_on_device {A} (m : M D A) (Q : A → kcs_state D → Prop) s :
  wp m (λ x d, Q x (KcsState d (instance_rq s) (instance_rs s) (caller_rq s) (caller_rs s))) (device s) →
  wp (on_device m) Q s.
Proof. unfold wp, on_device. by destruct (m (device s)) as [[x d]|]. Qed.

Lemma wp_get_rq (Q : KSC_RQ → kcs_state D → Prop) o s : Q (rq_of o s) s → wp (get_rq o) Q s.
Proof. done. Qed.
Lemma wp_get_rs (Q : KSC_RS → kcs_state D → Prop) o s : Q (rs_of o s) s → wp (get_rs o) Q s.
Proof. done. Qed.
Lemma wp_put_rq (Q : unit → kcs_state D → Prop) o r s :
  (∀ s', rq_of o s' = r → (∀ o', o' ≠ o → rq_of o' s' = rq_of o' s) → (∀ o', rs_of o' s' = rs_of o' s) →
         Q tt s') → wp (put_rq o r) Q s.
Proof. intros HQ. apply HQ; destruct o; try done; by intros []. Qed.
Lemma wp_put_rs (Q : unit → kcs_state D → Prop) o r s :
  (∀ s', rs_of o s' = r → (∀ o', o' ≠ o → rs_of o' s' = rs_of o' s) → (∀ o', rq_of o' s' = rq_of o' s) →
         Q tt s') → wp (put_rs o r) Q s.
Proof. intros HQ. apply HQ; destruct o; try done; by intros []. Qed.

Lemma wp_CopyMem (Q : list Z → kcs_state D → Prop) dst src n s :
  (Z.to_nat n ≤ length src)%nat → (Z.to_nat n ≤ length dst)%nat →
  (∀ l, length l = length dst → Q l s) → wp (CopyMem dst src n) Q s.
Proof.
  intros Hs Hd HQ. unfold CopyMem. rewrite bool_decide_true by done. apply HQ.
  rewrite length_app, length_take, length_drop. lia.
Qed.

Lemma wf_put_rq s s' o r : wf_state s → wf_rq r → rq_of o s' = r →
  (∀ o', o' ≠ o → rq_of o' s' = rq_of o' s) → (∀ o', rs_of o' s' = rs_of o' s) → wf_state s'.
Proof.
  intros [Hq Hs] Hr Ho Hne Hsame. split; intros o'.
  - destruct o, o'; first [by rewrite Ho | by rewrite Hne].
  - by rewrite Hsame.
Qed.

Lemma wf_put_rs s s' o r : wf_state s → wf_rs r → rs_of o s' = r →
  (∀ o', o' ≠ o → rs_of o' s' = rs_of o' s) → (∀ o', rq_of o' s' = rq_of o' s) → wf_state s'.
Proof.
  intros [Hq Hs] Hr Ho Hne Hsame. split; intros o'.
  - by rewrite Hsame.
  - destruct o, o'; first [by rewrite Ho | by rewrite Hne].
Qed.

Lemma wf_set_bytes r bytes : wf_rs r → length bytes = length (rs_bytes r) → wf_rs (set_rs_bytes r bytes).
Proof.
  intros [Hl Hd] Hb. destruct bytes as [|b0 [|b1 [|b2 data]]]; try done. cbn in Hb.
  split; [cbn; lia|done].
Qed.

(** The part of IpmiKcsCmd that stages the request in the driver instance. *)
Lemma stage_request_total (Q : bool → kcs_state D → Prop) o s :
  wf_state s → (∀ go s', wf_state s' → rs_of InInstance s' = rs_of InInstance s →
                (∀ o', rs_of o' s' = rs_of o' s) → Q go s') →
  wp (stage_request o) Q s.
Proof.
  intros Hwf HQ. unfold stage_request. wp_seq. apply wp_get_rq. destruct Hwf as [Hq Hs].
  destruct (0 <? rq_DataSize (rq_of o s)); [|by apply wp_ret, HQ].
  destruct (Hq o) as (Hlen & Hsz & Hsrc). destruct (Hq InInstance) as (Hleni & Hszi & Hsrci).
  destruct (rq_Data (rq_of o s)) as [src|] eqn:Hd; [|by apply wp_ret, HQ].
  wp_seq. apply wp_get_rq. wp_seq. apply wp_CopyMem; [done|lia|]. intros l Hl.
  wp_seq. apply wp_put_rq. intros s' Ho Hne Hsame. wp_seq. apply HQ; [|done..].
  eapply wf_put_rq; [by split| |done..]. split; [|split]; [cbn in *; congruence|done|done].
Qed.

Lemma cast_UINT8 z : 0 ≤ cast UINT8 z ≤ 255.
Proof. pose proof (cast_range UINT8 z) as Hr. cint_unfold. lia. Qed.

(** Only 252 makes the UINT8 size of a response transfer 255. *)
Lemma response_size z : 0 ≤ z ≤ 255 → z ≠ 252 → 0 ≤ cast UINT8 (z + KCS_RESPONSE_HEADER_SIZE) < 255.
Proof.
  intros Hz Hne. unfold KCS_RESPONSE_HEADER_SIZE. destruct (decide (z ≤ 252)).
  - rewrite cast_id; [lia|done|cint_unfold; lia].
  - unfold cast. cbn [signed UINT8 width]. replace (z + 3) with (z - 253 + 1 * 2 ^ 8) by lia.
    rewrite Z.mod_add by done. rewrite Z.mod_small; lia.
Qed.

Lemma wf_device s d : wf_state s →
  wf_state (KcsState d (instance_rq s) (instance_rs s) (caller_rq s) (caller_rs s)).
Proof. intros [Hq Hs]. split; intros o; [specialize (Hq o)|specialize (Hs o)]; by destruct o. Qed.

(** The transfer of the staged request. *)
Lemma send_request_total (Q : Z → kcs_state D → Prop) s z :
  wf_state s →
  (∀ Status s', kcs_status Status → wf_state s' → (∀ o, rs_of o s' = rs_of o s) → Q Status s') →
  wp (on_device (KcsWriteDataToBmc (rq_bytes (rq_of InInstance s)) (cast UINT8 z))) Q s.
Proof.
  intros Hwf HQ. destruct (proj1 Hwf InInstance) as (Hlen & _ & _). pose proof (cast_UINT8 z).
  apply wp_on_device. eapply wp_mono; [apply write_total; [done|cbn [rq_bytes length]; lia]|].
  intros Status d Hst. apply HQ; [done|by apply wf_device|by intros []].
Qed.

(** The transfer of the response, with the buffer it leaves. *)
Lemma receive_response_total (Q : Z * list Z → kcs_state D → Prop) s z fuel :
  wf_state s → (128 ≤ fuel)%nat → 0 ≤ z ≤ 255 → z ≠ 252 →
  (∀ Status bytes s', kcs_status Status → length bytes = length (rs_bytes (rs_of InInstance s)) →
     wf_state s' → (∀ o, rq_of o s' = rq_of o s) → (∀ o, rs_of o s' = rs_of o s) → Q (Status, bytes) s') →
  wp (on_device (KcsReadDataFromBmc fuel (rs_bytes (rs_of InInstance s))
        (cast UINT8 (z + KCS_RESPONSE_HEADER_SIZE)))) Q s.
Proof.
  intros Hwf Hf Hz Hne HQ. destruct (proj2 Hwf InInstance) as (Hlen & _).
  pose proof (response_size z Hz Hne).
  apply wp_on_device. eapply wp_mono; [apply read_total; [lia|cbn [rs_bytes length]; lia|done]|].
  intros [Status bytes] d [Hst [Hl _]]. apply HQ; [done|done|by apply wf_device|by intros []..].
Qed.

(** IpmiKcsCmd ends on every device, however its message arguments alias the
    messages of the driver instance, without leaving a buffer and with one of four
    status codes, for every response size but 252 (whose transfer size is the 255
    of the endless loop). *)
Theorem ipmi_cmd_ends s fuel KcsRq KcsRs :
  wf_state s → rs_DataSize (rs_of KcsRs s) ≠ 252 → (128 ≤ fuel)%nat →
  ∃ Status s', IpmiKcsCmd fuel KcsRq KcsRs s = Some (Status, s') ∧ wf_state s' ∧
    (kcs_status Status ∨ Status = RETURN_INVALID_PARAMETER).
Proof.
  intros Hwf H252 Hfuel.
  cut (wp (IpmiKcsCmd fuel KcsRq KcsRs) (λ Status s', wf_state s' ∧
    (kcs_status Status ∨ Status = RETURN_INVALID_PARAMETER)) s).
  { intros (Status & s' & ? & ? & ?)%wp_elim. by exists Status, s'. }
  unfold IpmiKcsCmd. wp_seq. apply wp_get_rq. wp_seq. apply wp_get_rq. wp_seq. apply wp_put_rq.
  intros s1 Hi1 Hne1 Hsame1.
  assert (Hwf1 : wf_state s1).
  { eapply wf_put_rq; [done| |done..]. destruct Hwf as [Hq _]. destruct (Hq InInstance). done. }
  wp_seq. apply stage_request_total; [done|]. intros go s2 Hwf2 _ Hsame2.
  destruct go; cbn [negb]; [|wp_seq; split; [done|by right]].
  wp_seq. apply wp_get_rq. wp_seq. apply wp_get_rq.
  wp_seq. apply send_request_total; [done|]. intros Status3 s3 Hs3 Hwf3 Hsame3.
  apply wp_unless; intros _; [by split; [|left]|].
  wp_seq. apply wp_get_rs. wp_seq. apply wp_get_rs.
  wp_seq. apply receive_response_total; [done|done|apply (proj2 Hwf3)|by rewrite Hsame3, Hsame2, Hsame1|].
  intros Status4 bytes s4 Hs4 Hlen4 Hwf4 Hsq4 Hsr4. cbn beta iota.
  wp_seq. apply wp_put_rs. intros s5 Ho5 Hne5 Hsame5.
  assert (Hwf5 : wf_state s5) by (eapply wf_put_rs; [done|by apply wf_set_bytes; [apply Hwf3|]|done..]).
  apply wp_unless; intros _; [by split; [|left]|].
  wp_seq. apply wp_get_rs. wp_seq. apply wp_get_rs.
  destruct (_ && _); [|wp_seq; split; [done|by left; left]].
  destruct (proj2 Hwf5 KcsRs) as [Hlr Hszr]. destruct (proj2 Hwf5 InInstance) as [Hli _].
  destruct (rs_Data (rs_of KcsRs s5)); [wp_seq; by split; [|right]|..];
    (wp_seq; apply wp_CopyMem; [lia|lia|]; intros data Hdata; wp_seq; apply wp_put_rs;
     intros s6 Ho6 Hne6 Hsame6; wp_seq; split; [|by left; left];
     eapply (wf_put_rs s5); [done| |exact Ho6|done|done]; split; cbn; [congruence|done]).
Qed.

(** ** The self test *)

(** The response message of the driver instance has no data pointer. *)
Definition no_data s : Prop := rs_Data (instance_rs s) = RsNull.

Lemma wlp_on_device {A} (m : M D A) (Q : A → kcs_state D → Prop) s :
  (∀ x s', instance_rs s' = instance_rs s → Q x s') → wlp (on_device m) Q s.
Proof.
  intros HQ x s'. unfold on_device. destruct (m (device s)) as [[y d]|]; [|done].
  intros [= <- <-]. by apply HQ.
Qed.

Lemma wlp_unless {A} (Q : A → kcs_state D → Prop) Status early (k : M (kcs_state D) A) s :
  Q early s → wlp k Q s → wlp (unless_error Status early k) Q s.
Proof. intros He Hk. unfold unless_error. case_match; [by apply wlp_ret|done]. Qed.

Lemma wlp_stage o s (Q : bool → kcs_state D → Prop) :
  (∀ go s', instance_rs s' = instance_rs s → Q go s') →
  wlp (stage_request o) Q s.
Proof.
  intros HQ. unfold stage_request. apply wlp_bind. intros rq s1 [= _ <-].
  destruct (0 <? rq_DataSize rq); [|by apply wlp_ret, HQ].
  destruct (rq_Data rq) as [src|]; [|by apply wlp_ret, HQ].
  apply wlp_bind. intros req s1 [= _ <-]. apply wlp_bind. intros data s1.
  unfold CopyMem. case_match; [|done]. intros [= _ <-].
  apply wlp_bind. intros [] s1 [= <-]. by apply wlp_ret, HQ.
Qed.

Lemma ipmi_cmd_no_data fuel s : no_data s →
  wlp (IpmiKcsCmd fuel InInstance InInstance) (λ _ s', no_data s') s.
Proof.
  intros Hs. unfold IpmiKcsCmd.
  apply wlp_bind. intros rq s1 [= _ <-]. apply wlp_bind. intros req s1 [= _ <-].
  apply wlp_bind. intros [] s1 [= <-].
  apply wlp_bind, wlp_stage. intros go s2 Hs2. unfold no_data in Hs. cbn [instance_rs] in Hs2.
  rewrite <-Hs2 in Hs. clear s Hs2. destruct go; cbn [negb]; [|by apply wlp_ret].
  apply wlp_bind. intros rq2 s1 [= _ <-]. apply wlp_bind. intros req2 s1 [= _ <-].
  apply wlp_bind, wlp_on_device. intros Status3 s3 Hs3. rewrite <-Hs3 in Hs. clear s2 Hs3.
  apply wlp_unless; [done|].
  apply wlp_bind. intros rs s1 [= _ <-]. apply wlp_bind. intros resp s1 [= <- <-].
  apply wlp_bind, wlp_on_device. intros [Status4 bytes] s4 Hs4.
  apply wlp_bind. intros [] s5 [= <-].
  assert (Hset : rs_Data (set_rs_bytes (instance_rs s3) bytes) = RsNull)
    by (by destruct bytes as [|? [|? [|? ?]]]).
  apply wlp_unless; [done|].
  apply wlp_bind. intros rs5 s1 [= <- <-]. apply wlp_bind. intros resp5 s1 [= <- <-]. cbn [instance_rs].
  destruct (_ && _); [|by apply wlp_ret]. rewrite Hset. by apply wlp_ret.
Qed.

Lemma self_test_no_data fuel Times s : no_data s →
  wlp (self_test_loop fuel Times) (λ _ s', no_data s') s.
Proof.
  revert s. induction Times as [|Times IH]; intros s Hs; cbn [self_test_loop]; [by apply wlp_ret|].
  apply wlp_bind. eapply wlp_mono; [by apply ipmi_cmd_no_data|]. intros Status s1 Hs1. cbn beta.
  destruct (Status =? RETURN_SUCCESS); [by apply wlp_ret|]. by apply IH.
Qed.

(** C38: the self test of the driver never succeeds.  It passes the instance's own
    response message, whose Data pointer is NULL: a response with completion code
    zero makes IpmiKcsCmd fail with an invalid parameter, and any other response
    makes the test dereference that pointer.  So GetSelfTestResults returns a
    device error or dies, whatever the BMC answers, and so does the entry point
    (whose ASSERT (Status) already fails when the installation succeeds). *)
Theorem self_test_never_succeeds fuel s :
  rs_Data (instance_rs s) = RsNull →
  (∀ Status s', GetSelfTestResults fuel s = Some (Status, s') → Status = RETURN_DEVICE_ERROR) ∧
  BmcInitEntryPoint fuel RETURN_SUCCESS s = None ∧
  (∀ Installed Status s', BmcInitEntryPoint fuel Installed s = Some (Status, s') →
     Status = RETURN_DEVICE_ERROR).
Proof.
  intros Hs.
  assert (Htest : wlp (GetSelfTestResults fuel) (λ Status _, Status = RETURN_DEVICE_ERROR) s).
  { unfold GetSelfTestResults. apply wlp_bind. intros req s1 [= _ <-].
    apply wlp_bind. intros [] s1 [= <-]. apply wlp_bind. intros resp s1 [= <- <-].
    apply wlp_bind. intros [] s1 [= <-].
    apply wlp_bind. eapply wlp_mono; [by apply self_test_no_data|]. intros Times s2 Hs2. cbn beta.
    destruct (Times =? 0)%nat; [by apply wlp_ret|].
    apply wlp_bind. intros resp2 s3 [= <- <-]. unfold deref_Data. rewrite Hs2.
    by apply wlp_bind, wlp_fails. }
  split_and!; [exact Htest|done|].
  intros Installed Status s'. unfold BmcInitEntryPoint, ASSERT.
  destruct (negb (Installed =? 0)); [|done]. apply Htest.
Qed.
End command.

(** ** A scripted KCS device, on which the theorems of the driver are applied *)

(** The status register shows the bytes of [script] and then [steady] for ever;
    the data register reads zero; writes are recorded. *)
Record scripted := Scripted { script : list Z; steady : Z; wlog : list (Z * Z) }.

#[export] Instance scripted_device : IoDevice scripted := {|
  IoRead8 := λ p d,
    if p =? IPMI_R_KSC_STATUS
    then match script d with
         | [] => (steady d, d)
         | x :: l => (x, Scripted l (steady d) (wlog d))
         end
    else (0, d);
  IoWrite8 := λ p v d, Scripted (script d) (steady d) (wlog d ++ [(p, v)]);
  MicroSecondDelay := λ _ d, d |}.

Definition steady_at (raw : Z) (d : scripted) : Prop := script d = [] ∧ steady d = raw.

Lemma scripted_steady raw (ready : Z → Prop) : ready raw →
  SteadyDevice (steady_at raw) wlog ready.
Proof.
  intros Hr. split.
  - intros d [Hs Hraw]. exists raw, d. unfold poll. cbn. rewrite Hs, Hraw. by split_and!.
  - intros p d [Hs Hraw]. cbn. rewrite Hs. by case_match.
  - intros p v d Hi. by split.
Qed.

(** 0x80: WRITE state, IBF clear.  0x41: READ state, OBF set. *)
#[export] Instance write_device : SteadyDevice (steady_at 0x80) wlog ready_write.
Proof. by apply scripted_steady. Qed.
#[export] Instance read_device : SteadyDevice (steady_at 0x41) wlog ready_read.
Proof. by apply scripted_steady. Qed.

Definition write_ready : scripted := Scripted [] 0x80 [].
Definition read_ready : scripted := Scripted [] 0x41 [].

Lemma transfers_end_witness :
  ∃ Status d', KcsWriteDataToBmc [1; 2; 3] 3 write_ready = Some (Status, d') ∧ kcs_status Status.
Proof.
  apply (transfers_end write_ready [1; 2; 3] 3 128).
  - lia.
  - cbn. lia.
  - lia.
Defined.

Lemma read_skips_odd_bytes_witness :
  ([0; 9; 0; 9] : list Z) !! 1%nat = ([9; 9; 9; 9] : list Z) !! 1%nat.
Proof.
  apply (read_skips_odd_bytes read_ready [9; 9; 9; 9] 4 128 RETURN_SUCCESS [0; 9; 0; 9]
           (Scripted [] 0x41 [(IPMI_R_KSC_DATA_IN, KSC_CRTL_READ); (IPMI_R_KSC_DATA_IN, KSC_CRTL_READ)])).
  - lia.
  - cbn. lia.
  - lia.
  - vm_compute. reflexivity.
  - exists 0%nat. reflexivity.
Defined.

Lemma write_sends_request_witness :
  ∃ d', KcsWriteDataToBmc [0x18; 0x04] 2 write_ready = Some (RETURN_SUCCESS, d') ∧
    wlog d' = [(IPMI_R_KSC_STATUS, KSC_CRTL_WRITE_START); (IPMI_R_KSC_DATA_IN, 0x18);
               (IPMI_R_KSC_DATA_IN, 0x04); (IPMI_R_KSC_COMMAND, KSC_CRTL_WRITE_END)].
Proof.
  apply (write_sends_request (steady_at 0x80) wlog write_ready [0x18; 0x04] 2).
  - split; reflexivity.
  - lia.
  - cbn. lia.
Defined.

Lemma read_255_never_ends_witness :
  KcsReadDataFromBmc 1000 (replicate 258 0) 255 read_ready = None.
Proof.
  apply (read_255_never_ends (steady_at 0x41) wlog read_ready (replicate 258 0) 1000).
  - split; reflexivity.
  - rewrite length_replicate. lia.
Defined.

(** The device reports the ERROR state, and recovers when it is aborted. *)
Definition failing : scripted := Scripted [0xC0; 0; 0; 0x40; 0x41; 0; 0x01] 0x80 [].

Definition after_abort : scripted := Scripted [] 0x80
  [(IPMI_R_KSC_COMMAND, KSC_CRTL_ABORT); (IPMI_R_KSC_DATA_IN, 0); (IPMI_R_KSC_DATA_IN, KSC_CRTL_READ)].

Lemma abort_reported_as_success_witness :
  KcsCheckStatus KSC_STATE_WRITE failing = Some ((RETURN_SUCCESS, 0xC0), after_abort).
Proof.
  apply (abort_reported_as_success failing 0xC0 (Scripted [0; 0; 0x40; 0x41; 0; 0x01] 0x80 [])
           after_abort [7; 8] 2 1 8 0).
  - vm_compute. reflexivity.
  - vm_compute. discriminate.
  - vm_compute. reflexivity.
  - lia.
  - lia.
  - reflexivity.
Defined.

(** The driver as it is loaded, with a caller that asks for a device ID. *)
Definition loaded (d : scripted) : kcs_state scripted :=
  KcsState d zero_rq zero_rs
    (KscRq 0 IPMI_NETFN_APP 1 (replicate 255 0) None 0)
    (KscRs 0 0 0 0 (replicate 255 0) (RsBuffer []) 16).

Lemma ipmi_cmd_ends_witness :
  ∃ Status s', IpmiKcsCmd 128 InCaller InCaller (loaded write_ready) = Some (Status, s').
Proof.
  destruct (ipmi_cmd_ends (loaded write_ready) 128 InCaller InCaller) as (Status & s' & Hrun & _).
  - split; intros []; repeat split; cbn; lia.
  - cbn. lia.
  - lia.
  - exists Status, s'. exact Hrun.
Defined.

Lemma self_test_never_succeeds_witness :
  BmcInitEntryPoint 128 RETURN_SUCCESS (loaded write_ready) = None.
Proof. apply (self_test_never_succeeds 128 (loaded write_ready)). reflexivity. Defined.
