(* ===== verification/HiiTree.v ===== *)
(** * HII attribute questions (KarlPkg/Library/HiiAttributeQuestionTreeLib)

    The library walks the IFR opcodes of the form sets in the HII database and
    lists their questions.  Its structures and the byte buffers share one heap;
    the tag of a block is the signature that the macro CR checks.  The linked lists
    are the sequences of their nodes, as [LinkedListSpec] specifies their
    operations.  [None] is a dangling or NULL pointer, an access beyond a buffer,
    the use of an uninitialised variable, or a loop that outlives its fuel. *)
From S2P Require Import Prelude CBase.
Local Open Scope Z_scope.

(** ** Opcodes *)

Definition EFI_IFR_FORM_OP := 0x01.
Definition EFI_IFR_ONE_OF_OP := 0x05.
Definition EFI_IFR_CHECKBOX_OP := 0x06.
Definition EFI_IFR_NUMERIC_OP := 0x07.
Definition EFI_IFR_FORM_SET_OP := 0x0E.
Definition EFI_IFR_REF_OP := 0x0F.
Definition EFI_IFR_STRING_OP := 0x1C.
Definition EFI_IFR_ORDERED_LIST_OP := 0x23.
Definition EFI_IFR_END_OP := 0x29.
Definition EFI_HII_PACKAGE_FORMS := 0x02.

(** Sizes of the packed structures. *)
Definition sizeof_GUID := 16.
Definition sizeof_PACKAGE_LIST_HEADER := 20.
Definition sizeof_PACKAGE_HEADER := 4.
Definition sizeof_OP_HEADER := 2.
Definition sizeof_FORM_SET := 23.
Definition sizeof_REF3 := 33.

Definition AttributeQuestionIsOp (OpCode : Z) : bool :=
  (OpCode =? EFI_IFR_ONE_OF_OP) || (OpCode =? EFI_IFR_CHECKBOX_OP) || (OpCode =? EFI_IFR_NUMERIC_OP)
  || (OpCode =? EFI_IFR_STRING_OP) || (OpCode =? EFI_IFR_ORDERED_LIST_OP).

(** ** Data *)

(** A pointer into a buffer: EFI_GUID *, EFI_IFR_FORM * and the like. *)
Record ptr := Ptr { blk : positive; off : Z }.
Definition ptr_add (p : ptr) (n : Z) : ptr := Ptr (blk p) (off p + n).

Inductive AQ_TYPE := AQ_QUESTION | AQ_REF_FORM | AQ_REF_FSET.

Record FORMSET_NODE := FormSetNode_ {
  FsHandle : Z; FormSet : option ptr; FormSetSize : Z; FormList : list positive }.
Record FORM_NODE := FormNode_ { Form : ptr; FormSize : Z }.
Record FORMREF_NODE := FormRefNode_ { RefFormSetId : ptr; RefFormId : Z }.
Record URL_NODE := UrlNode_ { UrlHandle : Z; Name : Z }.
Record AQ_PAGE := AqPage {
  PageHandle : Z; PageFormSetId : ptr; PageFormSetTitle : Z; PageFormId : Z; PageFormTitle : Z }.

(** [PrevPage] points to the page of another node: it is the address of the node. *)
Record AQ_NODE := AqNode_ {
  ThisPage : AQ_PAGE; PrevPage : option positive; Type_ : AQ_TYPE; QuestionId : Z; Prompt : Z }.

(** [Zeroed] is a structure of AllocateZeroPool before its fields are assigned. *)
Inductive block :=
  | Zeroed
  | Bytes (b : list Z)
  | Chars (s : list Z)
  | FormSetNode (n : FORMSET_NODE)
  | FormNode (n : FORM_NODE)
  | FormRefNode (n : FORMREF_NODE)
  | UrlNode (n : URL_NODE)
  | AqNode (n : AQ_NODE).

Abbreviation pool_mem := (gmap positive block).

Record hii_state := HiiState {
  heap : pool_mem;
  mFormSetList : list positive;
  mFormRefList : list positive;
  gAttributeQuestionList : list positive }.

(** The HII database: the package list of a handle for a buffer size (a status, the
    size, the contents), the handles of a package list GUID (or of all, for NULL), the
    two functions of EFI_HII_STRING_PROTOCOL that HiiLib calls, on a buffer size again,
    and the variable PlatformLang.  A string is the list of its characters. *)
Class HiiDatabase := {
  ExportPackageLists : Z → Z → Z * Z * list Z;
  HiiGetHiiHandles : option (list Z) → option (list Z);
  GetLanguages : Z → Z → Z * Z * list Z;
  GetString : list Z → Z → Z → Z → Z * Z * list Z;
  PlatformLang : option (list Z) }.

(** MemoryAllocationLib: an address that is not in use, or a failure. *)
Class HiiPool := {
  AllocateBlock : gset positive → option positive;
  AllocateBlock_fresh X p : AllocateBlock X = Some p → p ∉ X }.

Abbreviation M := (M hii_state).

Section code.
Context `{HiiDatabase, HiiPool}.

(** ** Memory *)

Definition get_heap : M pool_mem := λ s, Some (heap s, s).
Definition set_heap (h : pool_mem) : M unit := λ s,
  Some (tt, HiiState h (mFormSetList s) (mFormRefList s) (gAttributeQuestionList s)).
Definition set_FormSetList (l : list positive) : M unit := λ s,
  Some (tt, HiiState (heap s) l (mFormRefList s) (gAttributeQuestionList s)).
Definition set_FormRefList (l : list positive) : M unit := λ s,
  Some (tt, HiiState (heap s) (mFormSetList s) l (gAttributeQuestionList s)).
Definition set_QuestionList (l : list positive) : M unit := λ s,
  Some (tt, HiiState (heap s) (mFormSetList s) (mFormRefList s) l).

Definition alloc (b : block) : M (option positive) :=
  h ← get_heap;
  match AllocateBlock (dom h) with
  | None => mret None
  | Some p => set_heap (<[p := b]> h);; mret (Some p)
  end.
Definition free (p : positive) : M unit :=
  h ← get_heap; match h !! p with Some _ => set_heap (delete p h) | None => fails end.
Definition load (p : positive) : M block :=
  h ← get_heap; match h !! p with Some b => mret b | None => fails end.
Definition store (p : positive) (b : block) : M unit :=
  h ← get_heap; match h !! p with Some _ => set_heap (<[p := b]> h) | None => fails end.

Definition nonnull {A} (p : option A) : M A := match p with Some x => mret x | None => fails end.

(** CR, one for each signature. *)
Definition formset_of (p : positive) : M FORMSET_NODE :=
  b ← load p; match b with FormSetNode n => mret n | _ => fails end.
Definition form_of (p : positive) : M FORM_NODE :=
  b ← load p; match b with FormNode n => mret n | _ => fails end.
Definition formref_of (p : positive) : M FORMREF_NODE :=
  b ← load p; match b with FormRefNode n => mret n | _ => fails end.
Definition url_of (p : positive) : M URL_NODE :=
  b ← load p; match b with UrlNode n => mret n | _ => fails end.
Definition question_of (p : positive) : M AQ_NODE :=
  b ← load p; match b with AqNode n => mret n | _ => fails end.

(** The bytes at a pointer, and the little-endian number they are. *)
Definition read_bytes (p : ptr) (n : Z) : M (list Z) :=
  b ← load (blk p);
  match b with
  | Bytes b =>
      if (0 <=? off p) && (off p + n <=? Z.of_nat (length b))
      then mret (take (Z.to_nat n) (drop (Z.to_nat (off p)) b)) else fails
  | _ => fails
  end.
Definition little_endian (b : list Z) : Z := foldr (λ x acc, cast UINT8 x + 256 * acc) 0 b.
Definition read_int (p : ptr) (n : Z) : M Z := b ← read_bytes p n; mret (little_endian b).

(** EFI_IFR_OP_HEADER *)
Definition OpCode (p : ptr) : M Z := read_int p 1.
Definition Length (p : ptr) : M Z := x ← read_int (ptr_add p 1) 1; mret (Z.land x 0x7F).
Definition Scope (p : ptr) : M bool := x ← read_int (ptr_add p 1) 1; mret (negb (Z.shiftr x 7 =? 0)).

(** EFI_HII_PACKAGE_HEADER *)
Definition PackageLength (p : ptr) : M Z := x ← read_int p 4; mret (Z.land x 0xFFFFFF).
Definition PackageType (p : ptr) : M Z := x ← read_int p 4; mret (Z.shiftr x 24).

(** Fields of the IFR opcodes. *)
Definition Guid (FormSet : ptr) : ptr := ptr_add FormSet 2.
Definition FormSetTitle (FormSet : ptr) : M Z := read_int (ptr_add FormSet 18) 2.
Definition Flags (FormSet : ptr) : M Z := read_int (ptr_add FormSet 22) 1.
Definition FormId (Form : ptr) : M Z := read_int (ptr_add Form 2) 2.
Definition FormTitle (Form : ptr) : M Z := read_int (ptr_add Form 4) 2.
Definition Question_Prompt (OpCodeData : ptr) : M Z := read_int (ptr_add OpCodeData 2) 2.
Definition Question_QuestionId (OpCodeData : ptr) : M Z := read_int (ptr_add OpCodeData 6) 2.
Definition Ref_FormId (OpCodeData : ptr) : M Z := read_int (ptr_add OpCodeData 13) 2.
Definition Ref_FormSetId (OpCodeData : ptr) : ptr := ptr_add OpCodeData 17.

Definition CompareGuid (Guid1 Guid2 : ptr) : M bool :=
  a ← read_bytes Guid1 sizeof_GUID; b ← read_bytes Guid2 sizeof_GUID; mret (bool_decide (a = b)).

Definition AllocateCopyPool (n : Z) (p : ptr) : M (option positive) :=
  b ← read_bytes p n; alloc (Bytes b).

(** ** Lists *)

Definition remove_entry (p : positive) (l : list positive) : list positive := filter (λ q, q ≠ p) l.

(** BASE_LIST_FOR_EACH_SAFE with a body that removes and frees every node; [node_of]
    is its CR. *)
Fixpoint free_nodes {A} (node_of : positive → M A) (remove : positive → M unit) (ps : list positive) : M unit :=
  match ps with
  | [] => mret tt
  | p :: ps => node_of p;; remove p;; free p;; free_nodes node_of remove ps
  end.

Definition remove_formset (p : positive) : M unit := λ s, set_FormSetList (remove_entry p (mFormSetList s)) s.
Definition remove_formref (p : positive) : M unit := λ s, set_FormRefList (remove_entry p (mFormRefList s)) s.
Definition remove_question (p : positive) : M unit := λ s,
  set_QuestionList (remove_entry p (gAttributeQuestionList s)) s.
Definition remove_form (fs : positive) (p : positive) : M unit :=
  n ← formset_of fs;
  store fs (FormSetNode (FormSetNode_ (FsHandle n) (FormSet n) (FormSetSize n) (remove_entry p (FormList n)))).

Definition insert_formset (p : positive) : M unit := λ s, set_FormSetList (mFormSetList s ++ [p]) s.
Definition insert_formref (p : positive) : M unit := λ s, set_FormRefList (mFormRefList s ++ [p]) s.
Definition insert_question (p : positive) : M unit := λ s,
  set_QuestionList (gAttributeQuestionList s ++ [p]) s.
Definition insert_form (fs : positive) (p : positive) : M unit :=
  n ← formset_of fs;
  store fs (FormSetNode (FormSetNode_ (FsHandle n) (FormSet n) (FormSetSize n) (FormList n ++ [p]))).

Definition get_FormSetList : M (list positive) := λ s, Some (mFormSetList s, s).
Definition get_FormRefList : M (list positive) := λ s, Some (mFormRefList s, s).
Definition get_QuestionList : M (list positive) := λ s, Some (gAttributeQuestionList s, s).

(** BASE_LIST_FOR_EACH_SAFE with a body that assigns the variable [Node] and breaks
    when [found]: the last value of the variable. *)
Fixpoint search (ps : list positive) (found : positive → M bool) (Node : option positive) : M (option positive) :=
  match ps with
  | [] => mret Node
  | p :: ps => b ← found p; if (b : bool) then mret (Some p) else search ps found (Some p)
  end.

(** ** Lookups *)

Definition AttributeQuestionGetFormSet (FormSetId : option ptr) : M (option positive) :=
  l ← get_FormSetList;
  match FormSetId with
  | None => match head l with None => mret None | Some p => formset_of p;; mret (Some p) end
  | Some FormSetId =>
      search l (λ p, n ← formset_of p; fset ← nonnull (FormSet n); CompareGuid FormSetId (Guid fset)) None
  end.

Fixpoint handle_loop (FormSetId : ptr) (ps : list positive) : M (option Z) :=
  match ps with
  | [] => mret None
  | p :: ps =>
      n ← formset_of p;
      fset ← nonnull (FormSet n);
      b ← CompareGuid FormSetId (Guid fset);
      if (b : bool) then mret (Some (FsHandle n)) else handle_loop FormSetId ps
  end.

Definition AttributeQuestionGetHiiHandle (FormSetId : ptr) : M (option Z) :=
  l ← get_FormSetList; handle_loop FormSetId l.

Definition AttributeQuestionGetForm (FormSetId : option ptr) (FormId0 : Z) : M (option positive) :=
  NodeOfFormSet ← AttributeQuestionGetFormSet FormSetId;
  match NodeOfFormSet with
  | None => mret None
  | Some fs =>
      n ← formset_of fs;
      if FormId0 =? 0
      then match head (FormList n) with None => mret None | Some p => form_of p;; mret (Some p) end
      else search (FormList n) (λ p, f ← form_of p; i ← FormId (Form f); mret (i =? FormId0)) None
  end.

Definition AttributeQuestionGetSelf (FormSetId : ptr) (QuestionId0 : Z) : M (option positive) :=
  l ← get_QuestionList;
  search l (λ p, n ← question_of p;
    b ← CompareGuid FormSetId (PageFormSetId (ThisPage n));
    mret (b && (QuestionId0 =? QuestionId n))) None.

Definition AttributeQuestionGetPrev (ThisAttributeQuestion : positive) : M (option positive) :=
  n ← question_of ThisAttributeQuestion;
  match PrevPage n with None => mret None | Some p => question_of p;; mret (Some p) end.

(** ** The forms of a form set *)

(** From the opcode [OpCodeData] of a form to the opcode that ends it. *)
Fixpoint form_end (fuel : nat) (End : Z) (OpCodeData : ptr) (InTheForm : Z) : M ptr :=
  match fuel with
  | O => fails
  | S fuel =>
      len ← Length OpCodeData;
      let OpCodeData := ptr_add OpCodeData len in
      if negb (off OpCodeData <? End) then mret OpCodeData else
      scope ← Scope OpCodeData;
      op ← OpCode OpCodeData;
      let InTheForm := if (scope : bool) then InTheForm + 1
                       else if op =? EFI_IFR_END_OP then InTheForm - 1 else InTheForm in
      if InTheForm =? 0 then mret OpCodeData else form_end fuel End OpCodeData InTheForm
  end.

Fixpoint form_loop (fuel : nat) (End : Z) (fs : positive) (OpCodeData : ptr) : M Z :=
  match fuel with
  | O => fails
  | S fuel =>
      len ← Length OpCodeData;
      let OpCodeData := ptr_add OpCodeData len in
      if negb (off OpCodeData <? End) then mret RETURN_SUCCESS else
      op ← OpCode OpCodeData;
      if negb (op =? EFI_IFR_FORM_OP) then form_loop fuel End fs OpCodeData else
      let Form := OpCodeData in
      OpCodeData ← form_end fuel End OpCodeData 1;
      NodeOfForm ← alloc Zeroed;
      match NodeOfForm with
      | None => mret RETURN_OUT_OF_RESOURCES
      | Some NodeOfForm =>
          insert_form fs NodeOfForm;;
          len ← Length OpCodeData;
          store NodeOfForm (FormNode (FormNode_ Form (off OpCodeData + len - off Form)));;
          form_loop fuel End fs OpCodeData
      end
  end.

(** The list is that of the node [fs], whose form set has been copied. *)
Definition AttributeQuestionFormListInit (FormSet0 : ptr) (FormSetSize0 : Z) (fs : positive) : M Z :=
  Status ← form_loop (S (Z.to_nat FormSetSize0)) (off FormSet0 + FormSetSize0) fs FormSet0;
  (if RETURN_ERROR Status then n ← formset_of fs; free_nodes form_of (remove_form fs) (FormList n) else mret tt);;
  mret Status.

(** ** Registering form sets *)

(** The form set that [op] opens is wanted. *)
Fixpoint class_loop (n : nat) (FormSetId ClassGuid : ptr) : M bool :=
  match n with
  | O => mret false
  | S n =>
      b ← CompareGuid FormSetId ClassGuid;
      if (b : bool) then mret true else class_loop n FormSetId (ptr_add ClassGuid sizeof_GUID)
  end.

Definition formset_found (FormSetId : option ptr) (OpCodeData : ptr) : M bool :=
  match FormSetId with
  | None => mret true
  | Some FormSetId =>
      b ← CompareGuid FormSetId (Guid OpCodeData);
      if (b : bool) then mret true else
      len ← Length OpCodeData;
      if sizeof_FORM_SET <? len then
        (* the size is added to a pointer to EFI_IFR_OP_HEADER *)
        let ClassGuid := ptr_add OpCodeData (sizeof_FORM_SET * sizeof_OP_HEADER) in
        flags ← Flags OpCodeData;
        class_loop (Z.to_nat (Z.land flags 0x3)) FormSetId ClassGuid
      else mret false
  end.

(** The end of a form set has been found: copy it, and list its forms. *)
Definition finish_formset (node : positive) (OpCodeData : ptr) : M Z :=
  n ← formset_of node;
  fset ← nonnull (FormSet n);
  len ← Length OpCodeData;
  let size := off OpCodeData + len - off fset in
  copy ← AllocateCopyPool size fset;
  store node (FormSetNode (FormSetNode_ (FsHandle n) ((λ b, Ptr b 0) <$> copy) size (FormList n)));;
  match copy with
  | None => mret RETURN_OUT_OF_RESOURCES
  | Some copy => AttributeQuestionFormListInit (Ptr copy 0) size node
  end.

(** The opcodes of a form package; [node] is the variable NodeOfFormSet. *)
Fixpoint op_loop (fuel : nat) (HiiHandle : Z) (FormSetId : option ptr) (End : Z) (OpCodeData : ptr)
    (InTheFormSet : Z) (node : option positive) : M (Z * option positive) :=
  match fuel with
  | O => fails
  | S fuel =>
      if negb (off OpCodeData <? End) then mret (RETURN_SUCCESS, node) else
      '(Status, InTheFormSet) ←
        (if InTheFormSet =? 0 then mret (RETURN_SUCCESS, InTheFormSet) else
         scope ← Scope OpCodeData;
         op ← OpCode OpCodeData;
         let InTheFormSet := if (scope : bool) then InTheFormSet + 1
                             else if op =? EFI_IFR_END_OP then InTheFormSet - 1 else InTheFormSet in
         if InTheFormSet =? 0 then
           match node with
           | None => fails
           | Some node => Status ← finish_formset node OpCodeData; mret (Status, InTheFormSet)
           end
         else mret (RETURN_SUCCESS, InTheFormSet));
      if RETURN_ERROR Status then mret (Status, node) else
      op ← OpCode OpCodeData;
      len ← Length OpCodeData;
      if negb (op =? EFI_IFR_FORM_SET_OP)
      then op_loop fuel HiiHandle FormSetId End (ptr_add OpCodeData len) InTheFormSet node else
      FormSetFound ← formset_found FormSetId OpCodeData;
      if negb FormSetFound
      then op_loop fuel HiiHandle FormSetId End (ptr_add OpCodeData len) InTheFormSet node else
      node ← alloc Zeroed;
      match node with
      | None => mret (RETURN_OUT_OF_RESOURCES, node)
      | Some p =>
          insert_formset p;;
          store p (FormSetNode (FormSetNode_ HiiHandle (Some OpCodeData) 0 []));;
          op_loop fuel HiiHandle FormSetId End (ptr_add OpCodeData len) 1 node
      end
  end.

Fixpoint package_loop (fuel : nat) (HiiHandle : Z) (FormSetId : option ptr) (End : Z) (Package : ptr)
    (node : option positive) : M (Z * option positive) :=
  match fuel with
  | O => fails
  | S fuel =>
      if negb (off Package <? End) then mret (RETURN_SUCCESS, node) else
      type ← PackageType Package;
      len ← PackageLength Package;
      if negb (type =? EFI_HII_PACKAGE_FORMS)
      then package_loop fuel HiiHandle FormSetId End (ptr_add Package len) node else
      '(Status, node) ← op_loop (S (Z.to_nat len)) HiiHandle FormSetId (off Package + len)
        (ptr_add Package sizeof_PACKAGE_HEADER) 0 node;
      if RETURN_ERROR Status then mret (Status, node) else
      package_loop fuel HiiHandle FormSetId End (ptr_add Package len) node
  end.

(** The references of a form; [Status] is uninitialised at first. *)
Fixpoint depex_loop (register : Z → option ptr → bool → M Z) (fuel : nat) (End : Z) (OpCodeData : ptr)
    (Status : option Z) : M Z :=
  match fuel with
  | O => fails
  | S fuel =>
      len ← Length OpCodeData;
      let OpCodeData := ptr_add OpCodeData len in
      if negb (off OpCodeData <? End) then mret RETURN_SUCCESS else
      op ← OpCode OpCodeData;
      if negb (op =? EFI_IFR_REF_OP) then depex_loop register fuel End OpCodeData Status else
      len ← Length OpCodeData;
      if sizeof_REF3 <=? len then
        guid ← read_bytes (Ref_FormSetId OpCodeData) sizeof_GUID;
        match HiiGetHiiHandles (Some guid) with
        | None => mret RETURN_NOT_FOUND
        | Some HiiHandles =>
            Status ← register (default 0 (head HiiHandles)) (Some (Ref_FormSetId OpCodeData)) false;
            if RETURN_ERROR Status then mret Status
            else depex_loop register fuel End OpCodeData (Some Status)
        end
      else
        match Status with
        | None => fails
        | Some s => if RETURN_ERROR s then mret s else depex_loop register fuel End OpCodeData Status
        end
  end.

(** Is the form already in the list of references? *)
Fixpoint ref_listed (ps : list positive) (FormSetId : ptr) (FormId0 : Z) : M bool :=
  match ps with
  | [] => mret false
  | p :: ps =>
      n ← formref_of p;
      b ← CompareGuid FormSetId (RefFormSetId n);
      if b && (FormId0 =? RefFormId n) then mret true else ref_listed ps FormSetId FormId0
  end.

Definition reset_refs (ResetGoto : bool) : M unit :=
  if ResetGoto then l ← get_FormRefList; free_nodes formref_of remove_formref l else mret tt.

Definition free_all_formsets (Status : Z) : M Z :=
  (if Status =? RETURN_OUT_OF_RESOURCES then l ← get_FormSetList; free_nodes formset_of remove_formset l
   else mret tt);; mret Status.

(** AttributeQuestionFormSetRegisterDepex calls AttributeQuestionFormSetRegister,
    here [register]. *)
Definition register_depex (register : Z → option ptr → bool → M Z) (FormSetId : option ptr) (FormId0 : Z)
    (ResetGoto : bool) : M Z :=
  reset_refs ResetGoto;;
  NodeOfFormSet ← AttributeQuestionGetFormSet FormSetId;
  match NodeOfFormSet with
  | None => free_all_formsets RETURN_NOT_READY
  | Some fs =>
      n ← formset_of fs;
      FormSetId ← match FormSetId with
                  | Some g => mret g
                  | None => fset ← nonnull (FormSet n); mret (Guid fset)
                  end;
      NodeOfForm ← AttributeQuestionGetForm (Some FormSetId) FormId0;
      match NodeOfForm with
      | None => free_all_formsets RETURN_NOT_READY
      | Some NodeOfForm =>
          f ← form_of NodeOfForm;
          FormId0 ← (if FormId0 =? 0 then FormId (Form f) else mret FormId0);
          l ← get_FormRefList;
          listed ← ref_listed l FormSetId FormId0;
          if (listed : bool) then free_all_formsets RETURN_SUCCESS else
          NodeOfGoto ← alloc Zeroed;
          match NodeOfGoto with
          | None => free_all_formsets RETURN_OUT_OF_RESOURCES
          | Some NodeOfGoto =>
              insert_formref NodeOfGoto;;
              store NodeOfGoto (FormRefNode (FormRefNode_ FormSetId FormId0));;
              Status ← depex_loop register (S (Z.to_nat (FormSize f))) (off (Form f) + FormSize f) (Form f) None;
              free_all_formsets Status
          end
      end
  end.

(** What AttributeQuestionFormSetRegister does with the package list of a handle. *)
Definition register_packages (register : Z → option ptr → bool → M Z) (HiiHandle : Z) (FormSetId : option ptr)
    (ResetGoto : bool) (PackageList : positive) (PackageListSize : Z) : M Z :=
  '(Status, node) ← package_loop (S (Z.to_nat PackageListSize)) HiiHandle FormSetId PackageListSize
    (Ptr PackageList sizeof_PACKAGE_LIST_HEADER) None;
  if RETURN_ERROR Status then mret Status else
  free PackageList;;
  match node with
  | None => fails
  | Some node =>
      n ← formset_of node;
      fset ← nonnull (FormSet n);
      register_depex register (Some (Guid fset)) 0 ResetGoto
  end.

Fixpoint AttributeQuestionFormSetRegister (fuel : nat) (HiiHandle : Z) (FormSetId : option ptr)
    (ResetGoto : bool) : M Z :=
  match fuel with
  | O => fails
  | S fuel =>
      let register := AttributeQuestionFormSetRegister fuel in
      let '(Status, PackageListSize, _) := ExportPackageLists HiiHandle 0 in
      if Status =? RETURN_BUFFER_TOO_SMALL then
        let '(Status, PackageListSize', bytes) := ExportPackageLists HiiHandle PackageListSize in
        PackageList ← alloc (Bytes bytes);
        match PackageList with
        | None => fails
        | Some PackageList =>
            if RETURN_ERROR Status then mret Status else
            register_packages register HiiHandle FormSetId ResetGoto PackageList PackageListSize'
        end
      else if RETURN_ERROR Status then mret Status
      else fails
  end.

Definition AttributeQuestionFormSetRegisterDepex (fuel : nat) := register_depex (AttributeQuestionFormSetRegister fuel).

Fixpoint free_formsets (ps : list positive) : M unit :=
  match ps with
  | [] => mret tt
  | p :: ps =>
      n ← formset_of p;
      free_nodes form_of (remove_form p) (FormList n);;
      remove_formset p;; free p;; free_formsets ps
  end.

Definition AttributeQuestionFormSetFree : M unit := l ← get_FormSetList; free_formsets l.

Fixpoint register_all_loop (fuel : nat) (HiiHandles : list Z) (Status : Z) : M Z :=
  match HiiHandles with
  | [] => mret Status
  | HiiHandle :: HiiHandles =>
      Status ← AttributeQuestionFormSetRegister fuel HiiHandle None true;
      register_all_loop fuel HiiHandles Status
  end.

Definition AttributeQuestionFormSetRegisterAll (fuel : nat) : M Z :=
  match HiiGetHiiHandles None with
  | None => fails
  | Some [] => mret RETURN_NOT_READY
  | Some HiiHandles =>
      Status ← register_all_loop fuel HiiHandles RETURN_NOT_STARTED;
      (if RETURN_ERROR Status then AttributeQuestionFormSetFree else mret tt);;
      mret Status
  end.

(** ** The list of questions *)

Definition free_all_questions (Status : Z) : M Z :=
  (if Status =? RETURN_OUT_OF_RESOURCES then l ← get_QuestionList; free_nodes question_of remove_question l
   else mret tt);; mret Status.

(** Pop the last reference. *)
Definition pop_ref (Status : Z) : M unit :=
  if Status =? RETURN_NOT_READY then mret tt else
  l ← get_FormRefList;
  match last l with
  | None => mret tt
  | Some p => formref_of p;; remove_formref p;; free p
  end.

(** ThisPage of a new node. *)
Definition this_page (fs : FORMSET_NODE) (f : FORM_NODE) (FormSetId : ptr) (FormId0 : Z) : M AQ_PAGE :=
  fset ← nonnull (FormSet fs);
  fset_title ← FormSetTitle fset;
  title ← FormTitle (Form f);
  mret (AqPage (FsHandle fs) FormSetId fset_title FormId0 title).

(** AllocateZeroPool of an AQ_NODE, linked at the end of the list. *)
Definition new_question : M (option positive) :=
  AttributeQuestion ← alloc Zeroed;
  match AttributeQuestion with
  | None => mret None
  | Some a => insert_question a;; mret (Some a)
  end.

(** The questions and references of a form; the variables FormSetId and FormId are
    assigned by a reference. *)
Fixpoint question_loop (list_init : ptr → Z → option positive → M Z) (fuel : nat) (End : Z)
    (fs : FORMSET_NODE) (f : FORM_NODE) (Prev : option positive) (OpCodeData FormSetId : ptr) (FormId0 : Z) : M Z :=
  match fuel with
  | O => fails
  | S fuel =>
      len ← Length OpCodeData;
      let OpCodeData := ptr_add OpCodeData len in
      if negb (off OpCodeData <? End) then mret RETURN_SUCCESS else
      op ← OpCode OpCodeData;
      if AttributeQuestionIsOp op then
        AttributeQuestion ← new_question;
        match AttributeQuestion with
        | None => mret RETURN_OUT_OF_RESOURCES
        | Some a =>
            id ← FormId (Form f);
            p ← this_page fs f FormSetId id;
            q ← Question_QuestionId OpCodeData;
            prompt ← Question_Prompt OpCodeData;
            store a (AqNode (AqNode_ p Prev AQ_QUESTION q prompt));;
            question_loop list_init fuel End fs f Prev OpCodeData FormSetId FormId0
        end
      else if op =? EFI_IFR_REF_OP then
        AttributeQuestion ← new_question;
        match AttributeQuestion with
        | None => mret RETURN_OUT_OF_RESOURCES
        | Some a =>
            p ← this_page fs f FormSetId FormId0;
            q ← Question_QuestionId OpCodeData;
            prompt ← Question_Prompt OpCodeData;
            len ← Length OpCodeData;
            '(Type0, FormSetId, FormId0) ←
              (if sizeof_REF3 <=? len then mret (AQ_REF_FSET, Ref_FormSetId OpCodeData, 0)
               else id ← Ref_FormId OpCodeData; mret (AQ_REF_FORM, FormSetId, id));
            store a (AqNode (AqNode_ p Prev Type0 q prompt));;
            Status ← list_init FormSetId FormId0 (Some a);
            pop_ref Status;;
            if RETURN_ERROR Status then mret Status else
            question_loop list_init fuel End fs f Prev OpCodeData FormSetId FormId0
        end
      else question_loop list_init fuel End fs f Prev OpCodeData FormSetId FormId0
  end.

Fixpoint AttributeQuestionListInit (fuel : nat) (FormSetId : option ptr) (FormId0 : Z)
    (PrevAttributeQuestionPage : option positive) (ResetGoto : bool) : M Z :=
  match fuel with
  | O => fails
  | S fuel =>
      reset_refs ResetGoto;;
      NodeOfFormSet ← AttributeQuestionGetFormSet FormSetId;
      match NodeOfFormSet with
      | None => free_all_questions RETURN_NOT_READY
      | Some fs =>
          n ← formset_of fs;
          FormSetId ← match FormSetId with
                      | Some g => mret g
                      | None => fset ← nonnull (FormSet n); mret (Guid fset)
                      end;
          NodeOfForm ← AttributeQuestionGetForm (Some FormSetId) FormId0;
          match NodeOfForm with
          | None => free_all_questions RETURN_NOT_READY
          | Some NodeOfForm =>
              f ← form_of NodeOfForm;
              FormId0 ← (if FormId0 =? 0 then FormId (Form f) else mret FormId0);
              NodeOfGoto ← alloc Zeroed;
              match NodeOfGoto with
              | None => free_all_questions RETURN_OUT_OF_RESOURCES
              | Some NodeOfGoto =>
                  l ← get_FormRefList;
                  insert_formref NodeOfGoto;;
                  store NodeOfGoto (FormRefNode (FormRefNode_ FormSetId FormId0));;
                  (* the nodes that are not at the end *)
                  gone ← ref_listed l FormSetId FormId0;
                  if (gone : bool) then free_all_questions RETURN_SUCCESS else
                  Status ← question_loop
                    (λ FormSetId FormId0 Prev, AttributeQuestionListInit fuel (Some FormSetId) FormId0 Prev false)
                    (S (Z.to_nat (FormSize f))) (off (Form f) + FormSize f) n f
                    PrevAttributeQuestionPage (Form f) FormSetId FormId0;
                  free_all_questions Status
              end
          end
      end
  end.

(** ** Paths *)

Definition QUESTION_URL_LENGTH := 256.
Definition QUESTION_URL_SLASH : list Z := [0x2F].

(** StrCatS for a buffer of [DestMax] characters that holds the string [Url]. *)
Definition StrCatS (Url : list Z) (DestMax : Z) (Source : option (list Z)) : list Z :=
  match Source with
  | None => Url
  | Some s =>
      let CopyLen := DestMax - Z.of_nat (length Url) in
      if CopyLen =? 0 then Url
      else if Z.of_nat (length s) <? CopyLen then Url ++ s else Url
  end.

(** The first language code of a list of codes with semicolons between them. *)
Definition code_length (l : list Z) : nat := length (take_while (λ c, negb (c =? 0x3B)) l).

Fixpoint supported_loop (fuel : nat) (Supported Language : list Z) (LanguageLength : nat) : M (option (list Z)) :=
  match fuel with
  | O => fails
  | S fuel =>
      match Supported with
      | [] => mret None
      | _ =>
          let Supported := drop_while (λ c, c =? 0x3B) Supported in
          let CompareLength := code_length Supported in
          if (CompareLength <? LanguageLength)%nat ||
             negb (bool_decide (take LanguageLength Supported = take LanguageLength Language))
          then supported_loop fuel (drop CompareLength Supported) Language LanguageLength
          else mret (Some (take CompareLength Supported))
      end
  end.

(** Back to the '-' before, or to nothing. *)
Fixpoint trim (Language : list Z) (LanguageLength : nat) : nat :=
  match LanguageLength with
  | O => O
  | S n => if (n =? 0)%nat || bool_decide (Language !! n = Some 0x2D) then n else trim Language n
  end.

Fixpoint language_loop (fuel : nat) (Supported Language : list Z) (LanguageLength : nat) : M (option (list Z)) :=
  match fuel with
  | O => fails
  | S fuel =>
      if (LanguageLength =? 0)%nat then mret None else
      Best ← supported_loop (S (length Supported)) Supported Language LanguageLength;
      match Best with
      | Some Best => mret (Some Best)
      | None => language_loop fuel Supported Language (trim Language LanguageLength)
      end
  end.

(** GetBestLanguage in RFC 4646 mode, on the list of its arguments. *)
Fixpoint GetBestLanguage (SupportedLanguages : list Z) (Languages : list (list Z)) : M (option positive) :=
  match Languages with
  | [] => mret None
  | Language :: Languages =>
      let LanguageLength := code_length Language in
      Best ← language_loop (S LanguageLength) SupportedLanguages Language LanguageLength;
      match Best with
      | Some Best => alloc (Chars Best)
      | None => GetBestLanguage SupportedLanguages Languages
      end
  end.

Definition chars_of (p : positive) : M (list Z) := b ← load p; match b with Chars l => mret l | _ => fails end.

Definition HiiGetSupportedLanguages (HiiHandle : Z) : M (option positive) :=
  ASSERT (negb (HiiHandle =? 0));;
  let '(Status, LanguageSize, _) := GetLanguages HiiHandle 0 in
  if negb (Status =? RETURN_BUFFER_TOO_SMALL) then mret None else
  SupportedLanguages ← alloc Zeroed;
  match SupportedLanguages with
  | None => mret None
  | Some p =>
      let '(Status, _, l) := GetLanguages HiiHandle LanguageSize in
      if RETURN_ERROR Status then free p;; mret None else store p (Chars l);; mret (Some p)
  end.

(** GetEfiGlobalVariable2 (L"PlatformLang", ...) *)
Definition get_platform_language : M (option positive) :=
  match PlatformLang with None => mret None | Some l => alloc (Chars l) end.

(** The label Error of HiiGetString. *)
Definition free_buffer (p : option positive) : M unit := match p with Some p => free p | None => mret tt end.
Definition string_error (SupportedLanguages PlatformLanguage BestLanguage String : option positive) : M (option positive) :=
  free_buffer SupportedLanguages;; free_buffer PlatformLanguage;; free_buffer BestLanguage;; mret String.

(** The string in the best language. *)
Definition get_string (BestLanguage : list Z) (HiiHandle StringId : Z) : M (option positive) :=
  let '(Status, StringSize, _) := GetString BestLanguage HiiHandle StringId 0 in
  if negb (Status =? RETURN_BUFFER_TOO_SMALL) then mret None else
  String ← alloc Zeroed;
  match String with
  | None => mret None
  | Some p =>
      let '(Status, _, t) := GetString BestLanguage HiiHandle StringId StringSize in
      if RETURN_ERROR Status then free p;; mret None else store p (Chars t);; mret (Some p)
  end.

(** With NULL for the language. *)
Definition HiiGetString (HiiHandle StringId : Z) : M (option positive) :=
  ASSERT (negb (HiiHandle =? 0));; ASSERT (negb (StringId =? 0));;
  SupportedLanguages ← HiiGetSupportedLanguages HiiHandle;
  match SupportedLanguages with
  | None => string_error None None None None
  | Some sup =>
      PlatformLanguage ← get_platform_language;
      l ← chars_of sup;
      pl ← match PlatformLanguage with Some p => chars_of p | None => mret [] end;
      BestLanguage ← GetBestLanguage l [[]; pl; l];
      match BestLanguage with
      | None => string_error (Some sup) PlatformLanguage None None
      | Some best =>
          lang ← chars_of best;
          String ← get_string lang HiiHandle StringId;
          string_error (Some sup) PlatformLanguage (Some best) String
      end
  end.

(** InsertHeadList of a new URL_NODE. *)
Definition push_url (HiiHandle Name : Z) (UrlNodeList : list positive) : M (option (list positive)) :=
  NodeOfUrl ← alloc Zeroed;
  match NodeOfUrl with
  | None => mret None
  | Some p => store p (UrlNode (UrlNode_ HiiHandle Name));; mret (Some (p :: UrlNodeList))
  end.

(** The way up; the nodes so far are returned also when there is no memory. *)
Fixpoint url_loop (fuel : nat) (This : positive) (UrlNodeList : list positive)
    : M (bool * positive * list positive) :=
  match fuel with
  | O => fails
  | S fuel =>
      Prev ← AttributeQuestionGetPrev This;
      match Prev with
      | None => mret (true, This, UrlNodeList)
      | Some Prev =>
          n ← question_of This;
          l ← push_url (PageHandle (ThisPage n)) (Prompt n) UrlNodeList;
          match l with
          | None => mret (false, This, UrlNodeList)
          | Some UrlNodeList => url_loop fuel Prev UrlNodeList
          end
      end
  end.

Fixpoint url_text (ps : list positive) (Url : list Z) : M (list Z) :=
  match ps with
  | [] => mret Url
  | p :: ps =>
      n ← url_of p;
      let Url := StrCatS Url QUESTION_URL_LENGTH (Some QUESTION_URL_SLASH) in
      String ← HiiGetString (UrlHandle n) (Name n);
      Source ← match String with Some p => t ← chars_of p; mret (Some t) | None => mret None end;
      url_text ps (StrCatS Url QUESTION_URL_LENGTH Source)
  end.

(** The label Done. *)
Definition url_done (UrlNodeList : list positive) (Result : option positive) : M (option positive) :=
  free_nodes url_of (λ _, mret tt) UrlNodeList;; mret Result.

(** The last three nodes: the prompt at the top, the form and the form set. *)
Fixpoint push_names (HiiHandle : Z) (Names : list Z) (UrlNodeList : list positive) : M (bool * list positive) :=
  match Names with
  | [] => mret (true, UrlNodeList)
  | Name :: Names =>
      l ← push_url HiiHandle Name UrlNodeList;
      match l with
      | None => mret (false, UrlNodeList)
      | Some UrlNodeList => push_names HiiHandle Names UrlNodeList
      end
  end.

Definition AttributeQuestionGetUrl (FormSetId : ptr) (QuestionId0 : Z) : M (option positive) :=
  This ← AttributeQuestionGetSelf FormSetId QuestionId0;
  match This with
  | None => mret None
  | Some This =>
      n ← question_of This;
      match Type_ n with
      | AQ_QUESTION =>
          h ← get_heap;
          '(ok, This, UrlNodeList) ← url_loop (S (size h)) This [];
          if negb ok then url_done UrlNodeList None else
          n ← question_of This;
          '(ok, UrlNodeList) ← push_names (PageHandle (ThisPage n))
            [Prompt n; PageFormTitle (ThisPage n); PageFormSetTitle (ThisPage n)] UrlNodeList;
          if negb ok then url_done UrlNodeList None else
          Url ← url_text UrlNodeList [];
          Result ← alloc (Chars Url);
          url_done UrlNodeList Result
      | _ => mret None
      end
  end.

(** ** Entry points *)

Definition AttributeQuestionFree : M unit :=
  l ← get_FormRefList; free_nodes formref_of remove_formref l;;
  l ← get_QuestionList; free_nodes question_of remove_question l.

(** The paths of all questions are computed for the debug output. *)
Fixpoint print_urls (ps : list positive) : M unit :=
  match ps with
  | [] => mret tt
  | p :: ps =>
      n ← question_of p;
      Url ← AttributeQuestionGetUrl (PageFormSetId (ThisPage n)) (QuestionId n);
      (match Url with Some u => free u | None => mret tt end);;
      print_urls ps
  end.

(** AttributeQuestionInit when the form sets have been registered. *)
Definition list_questions (fuel : nat) (FormSetId : option ptr) : M Z :=
  Status ← AttributeQuestionListInit fuel FormSetId 0 None true;
  if RETURN_ERROR Status then mret Status else
  l ← get_QuestionList; print_urls l;; mret RETURN_SUCCESS.

Definition AttributeQuestionInit (fuel : nat) (HiiHandle : Z) (FormSetId : option ptr) : M Z :=
  AttributeQuestionFree;;
  Status ← AttributeQuestionFormSetRegister fuel HiiHandle FormSetId true;
  Status ← (if RETURN_ERROR Status then mret Status else list_questions fuel FormSetId);
  (if RETURN_ERROR Status then AttributeQuestionFree else mret tt);;
  mret Status.
End code.
