(* ===== verification/HiiMem.v ===== *)
(** * The memory of the attribute question library: execution rules *)
From S2P Require Import Prelude CBase HiiTree.
Local Open Scope Z_scope.

Section memory.
Context `{HiiDatabase, HiiPool}.
Implicit Types (s : hii_state) (h : pool_mem) (p q : positive) (b : block) (x : ptr).

Definition with_heap s h : hii_state :=
  HiiState h (mFormSetList s) (mFormRefList s) (gAttributeQuestionList s).

Lemma with_heap_same s : with_heap s (heap s) = s.
Proof. by destruct s. Qed.

(** ** Total execution *)

(** The pool can run out of memory. *)
Definition pool_fails : Prop := ∃ X, AllocateBlock X = None.

Lemma wp_alloc (Q : option positive → hii_state → Prop) b s :
  (pool_fails → Q None s) → (∀ p, heap s !! p = None → Q (Some p) (with_heap s (<[p := b]> (heap s)))) → wp (alloc b) Q s.
Proof.
  intros Hnone Hsome. unfold alloc, get_heap. wp_seq. unfold wp at 1.
  destruct (AllocateBlock (dom (heap s))) as [p|] eqn:Hp; [|wp_seq; apply Hnone; by eexists].
  apply AllocateBlock_fresh, not_elem_of_dom in Hp. by apply Hsome.
Qed.

Lemma wp_load (Q : block → hii_state → Prop) p b s : heap s !! p = Some b → Q b s → wp (load p) Q s.
Proof. intros Hp HQ. unfold wp, load, get_heap, mbind, M_bind. by rewrite Hp. Qed.

Lemma wp_store (Q : unit → hii_state → Prop) p b s :
  is_Some (heap s !! p) → Q tt (with_heap s (<[p := b]> (heap s))) → wp (store p b) Q s.
Proof. intros [c Hp] HQ. unfold wp, store, get_heap, mbind, M_bind. by rewrite Hp. Qed.

Lemma wp_free (Q : unit → hii_state → Prop) p s :
  is_Some (heap s !! p) → Q tt (with_heap s (delete p (heap s))) → wp (free p) Q s.
Proof. intros [c Hp] HQ. unfold wp, free, get_heap, mbind, M_bind. by rewrite Hp. Qed.

Lemma wp_formset_of (Q : FORMSET_NODE → hii_state → Prop) p n s :
  heap s !! p = Some (FormSetNode n) → Q n s → wp (formset_of p) Q s.
Proof. intros Hp HQ. unfold formset_of. wp_seq. by eapply wp_load. Qed.

Lemma wp_form_of (Q : FORM_NODE → hii_state → Prop) p n s :
  heap s !! p = Some (FormNode n) → Q n s → wp (form_of p) Q s.
Proof. intros Hp HQ. unfold form_of. wp_seq. by eapply wp_load. Qed.

Lemma wp_formref_of (Q : FORMREF_NODE → hii_state → Prop) p n s :
  heap s !! p = Some (FormRefNode n) → Q n s → wp (formref_of p) Q s.
Proof. intros Hp HQ. unfold formref_of. wp_seq. by eapply wp_load. Qed.

Lemma wp_url_of (Q : URL_NODE → hii_state → Prop) p n s :
  heap s !! p = Some (UrlNode n) → Q n s → wp (url_of p) Q s.
Proof. intros Hp HQ. unfold url_of. wp_seq. by eapply wp_load. Qed.

Lemma wp_question_of (Q : AQ_NODE → hii_state → Prop) p n s :
  heap s !! p = Some (AqNode n) → Q n s → wp (question_of p) Q s.
Proof. intros Hp HQ. unfold question_of. wp_seq. by eapply wp_load. Qed.

(** Bytes that can be read at a pointer. *)
Definition bytes_at h x (n : Z) : option (list Z) :=
  match h !! blk x with
  | Some (Bytes b) =>
      if (0 <=? off x) && (off x + n <=? Z.of_nat (length b))
      then Some (take (Z.to_nat n) (drop (Z.to_nat (off x)) b)) else None
  | _ => None
  end.

Lemma read_bytes_run x n s : read_bytes x n s = match bytes_at (heap s) x n with Some b => Some (b, s) | None => None end.
Proof.
  unfold read_bytes, load, get_heap, bytes_at, mbind, M_bind.
  destruct (heap s !! blk x) as [[]|]; cbn; try done. by destruct (_ && _).
Qed.

Lemma wp_read_bytes (Q : list Z → hii_state → Prop) x n (bs : list Z) s :
  bytes_at (heap s) x n = Some bs → Q bs s → wp (read_bytes x n) Q s.
Proof. intros Hb HQ. unfold wp. by rewrite read_bytes_run, Hb. Qed.

Lemma wp_read_int (Q : Z → hii_state → Prop) x n (bs : list Z) s :
  bytes_at (heap s) x n = Some bs → Q (little_endian bs) s → wp (read_int x n) Q s.
Proof. intros Hb HQ. unfold read_int. wp_seq. eapply wp_read_bytes; [done|]. by wp_seq. Qed.

(** Bytes in the middle of a buffer. *)
Lemma bytes_at_mid h k (l1 l2 l3 : list Z) :
  h !! k = Some (Bytes (l1 ++ l2 ++ l3)) →
  bytes_at h (Ptr k (Z.of_nat (length l1))) (Z.of_nat (length l2)) = Some l2.
Proof.
  intros Hk. unfold bytes_at. cbn. rewrite Hk, !length_app. rewrite !Nat2Z.id.
  replace (_ && _) with true by (symmetry; apply andb_true_iff; split; apply Z.leb_le; lia).
  by rewrite drop_app_length, take_app_length.
Qed.
End memory.
