(* ===== verification/HiiString.v ===== *)
(** * Strings of the HII database: HiiGetString

    GetBestLanguage against the list of the codes of a language string, and
    HiiGetString: the string it returns is the only block it leaves behind. *)
From S2P Require Import Prelude CBase HiiTree HiiMem.
Local Open Scope Z_scope.

(** ** Language codes *)

(** The parts between semicolons. *)
Fixpoint parts (l : list Z) : list (list Z) :=
  match l with
  | [] => [[]]
  | c :: l => if c =? 0x3B then [] :: parts l else match parts l with t :: ts => (c :: t) :: ts | [] => [[c]] end
  end.

Definition codes (l : list Z) : list (list Z) := filter (λ t, t ≠ []) (parts l).

Abbreviation semicolon := (λ c : Z, c =? 0x3B).
Abbreviation in_code := (λ c : Z, negb (c =? 0x3B)).

Lemma parts_code l : parts l = take_while in_code l :: match drop_while in_code l with [] => [] | _ :: l' => parts l' end.
Proof.
  induction l as [|c l IH]; [done|]. cbn [parts take_while drop_while].
  destruct (c =? 0x3B); cbn [negb]; [done|]. by rewrite IH.
Qed.

Lemma codes_skip l : codes (drop_while semicolon l) = codes l.
Proof.
  induction l as [|c l IH]; [done|]. cbn [drop_while]. unfold codes at 2. cbn [parts].
  destruct (c =? 0x3B) eqn:Hc; [|unfold codes; cbn [parts]; by rewrite Hc]. rewrite IH. by rewrite filter_cons_False by tauto.
Qed.

Lemma codes_cons l : drop_while semicolon l ≠ [] →
  codes (drop_while semicolon l) = take (code_length (drop_while semicolon l)) (drop_while semicolon l)
    :: codes (drop (code_length (drop_while semicolon l)) (drop_while semicolon l)) ∧
  (0 < code_length (drop_while semicolon l))%nat.
Proof.
  intros Hne. assert (∃ c l', drop_while semicolon l = c :: l' ∧ (c =? 0x3B) = false) as (c & l' & E & Hc).
  { clear -Hne. induction l as [|c l IH]; [done|]. cbn [drop_while] in *. destruct (c =? 0x3B) eqn:Hc; [by apply IH|].
    by exists c, l. }
  rewrite E. set (L := c :: l'). assert (take_while in_code L ≠ []) as Ht by (unfold L; cbn [take_while]; by rewrite Hc).
  split; [|unfold code_length; destruct (take_while in_code L); [done|cbn; lia]].
  unfold code_length. rewrite drop_take_while.
  assert (take (length (take_while in_code L)) L = take_while in_code L) as ->.
  { rewrite <-(take_drop_while in_code L) at 2. apply take_app_length. }
  unfold codes at 1. rewrite parts_code, filter_cons_True by done. f_equal. unfold codes.
  destruct (drop_while in_code L) as [|d r] eqn:Hd; [done|].
  assert (d = 0x3B) as ->.
  { assert (∀ l, drop_while in_code l = d :: r → d = 0x3B) as Hhd; [|by eapply Hhd].
    clear. intros l. induction l as [|x l IH]; [done|]. cbn [drop_while].
    destruct (Z.eqb_spec x 0x3B); cbn [negb]; [congruence|done]. }
  cbn [parts]. rewrite Z.eqb_refl. by rewrite filter_cons_False by tauto.
Qed.

(** The first code that begins like the language. *)
Definition find_code (Supported Language : list Z) (n : nat) : option (list Z) :=
  List.find (λ t, (n <=? length t)%nat && bool_decide (take n t = take n Language)) (codes Supported).

(** The lengths to which the language is cut, longest first. *)
Fixpoint cuts (Language : list Z) (n : nat) (here : bool) : list nat :=
  match n with
  | O => []
  | S n' => (if here then [n] else []) ++ cuts Language n' ((n' =? 0)%nat || bool_decide (Language !! n' = Some 0x2D))
  end.

Lemma cuts_trim Language n : cuts Language n false = cuts Language (trim Language n) true.
Proof. induction n as [|n IH]; [done|]. cbn [cuts trim app]. by destruct (_ || _). Qed.

Lemma trim_lt Language n : (0 < n)%nat → (trim Language n < n)%nat.
Proof.
  induction n as [|n IH]; [lia|]. intros _. cbn [trim]. destruct (Nat.eqb_spec n 0); cbn [orb]; [lia|].
  destruct (bool_decide _); [lia|]. specialize (IH ltac:(lia)). lia.
Qed.

Definition best_for (Supported Language : list Z) : option (list Z) :=
  head (omap (find_code Supported Language) (cuts Language (code_length Language) true)).

Definition best_language (Supported : list Z) (Languages : list (list Z)) : option (list Z) :=
  head (omap (best_for Supported) Languages).

Section strings.
Context `{HiiDatabase, HiiPool}.
Implicit Types (s : hii_state) (h : pool_mem) (p q : positive).

Lemma supported_loop_run fuel Supported Language n s : (0 < n)%nat → (length Supported < fuel)%nat →
  supported_loop fuel Supported Language n s = Some (find_code Supported Language n, s).
Proof.
  intros Hn. revert Supported. induction fuel as [|fuel IH]; intros l Hf; [lia|]. cbn [supported_loop].
  destruct l as [|c l]; [done|]. set (L := c :: l) in *. unfold find_code. rewrite <-codes_skip.
  assert (length (drop_while semicolon L) ≤ length L)%nat as Hle
    by (rewrite <-drop_take_while, length_drop; lia).
  destruct (decide (drop_while semicolon L = [])) as [E|Hne].
  { rewrite E. change (code_length []) with 0%nat. rewrite (proj2 (Nat.ltb_lt 0 n)) by lia. cbn [orb].
    rewrite IH by (unfold L in Hf; cbn in *; lia). done. }
  destruct (codes_cons L Hne) as [Hc Hpos]. set (D := drop_while semicolon L) in *. rewrite Hc.
  assert (code_length D ≤ length D)%nat as Hcl by apply take_while_le.
  assert (length (take (code_length D) D) = code_length D) as Hl by (rewrite length_take; lia).
  cbn [List.find]. rewrite Hl.
  destruct (Nat.ltb_spec (code_length D) n) as [Hlt|Hge]; cbn [orb].
  { rewrite (proj2 (Nat.leb_gt _ _)) by lia. cbn [andb]. rewrite IH by (rewrite length_drop; unfold L in *; lia). done. }
  rewrite (proj2 (Nat.leb_le _ _)) by lia. cbn [andb]. rewrite take_take, Nat.min_l by lia.
  destruct (bool_decide (take n D = take n Language)); cbn [negb]; [done|].
  rewrite IH by (rewrite length_drop; unfold L in *; lia). done.
Qed.

Lemma language_loop_run fuel Supported Language n s : (n < fuel)%nat →
  language_loop fuel Supported Language n s = Some (head (omap (find_code Supported Language) (cuts Language n true)), s).
Proof.
  revert n. induction fuel as [|fuel IH]; intros n Hf; [lia|]. cbn [language_loop].
  destruct n as [|n]; [done|]. cbn [Nat.eqb]. erewrite bind_run by (apply supported_loop_run; lia).
  cbn [cuts app omap list_omap]. destruct (find_code Supported Language (S n)) as [b|]; [done|].
  pose proof (trim_lt Language (S n) ltac:(lia)). rewrite IH by lia. rewrite <-cuts_trim. done.
Qed.

Lemma best_language_cons Supported Language Languages :
  best_language Supported (Language :: Languages) =
    match best_for Supported Language with Some b => Some b | None => best_language Supported Languages end.
Proof. unfold best_language. cbn [omap list_omap]. by destruct (best_for Supported Language). Qed.

(** ** Buffers for strings *)

(** A buffer for a text, when there is a text. *)
Inductive stored h : option (list Z) → option positive → pool_mem → Prop :=
  | stored_none : stored h None None h
  | stored_some t p : h !! p = None → stored h (Some t) (Some p) (<[p := Chars t]> h).

(** The text [t], or none when the pool has failed. *)
Definition or_fails (o t : option (list Z)) : Prop := o = t ∨ o = None ∧ pool_fails.

Lemma wp_alloc_stored t s (Q : option positive → hii_state → Prop) :
  (∀ o r h', or_fails o (Some t) → stored (heap s) o r h' → Q r (with_heap s h')) → wp (alloc (Chars t)) Q s.
Proof.
  intros HQ. apply wp_alloc.
  - intros Hp. rewrite <-(with_heap_same s). eapply HQ; [by right|constructor].
  - intros p Hp. eapply HQ; [by left|by constructor].
Qed.

Lemma wp_GetBestLanguage Supported Languages s (Q : option positive → hii_state → Prop) :
  (∀ o r h', or_fails o (best_language Supported Languages) → stored (heap s) o r h' → Q r (with_heap s h')) →
  wp (GetBestLanguage Supported Languages) Q s.
Proof.
  induction Languages as [|L Ls IH]; intros HQ; cbn [GetBestLanguage].
  { rewrite <-(with_heap_same s). eapply HQ; [by left|constructor]. }
  rewrite best_language_cons in HQ. wp_seq. eapply run_wp; [apply language_loop_run; lia|].
  fold (best_for Supported L). destruct (best_for Supported L) as [b|]; [by apply wp_alloc_stored|by apply IH].
Qed.

(** The protocols are called for the size and again for the contents. *)
Definition fetched (call : Z → Z * Z * list Z) : option (list Z) :=
  let '(Status, size, _) := call 0 in
  if negb (Status =? RETURN_BUFFER_TOO_SMALL) then None else
  let '(Status, _, t) := call size in if RETURN_ERROR Status then None else Some t.

Definition fetch (call : Z → Z * Z * list Z) : M (option positive) :=
  let '(Status, size, _) := call 0 in
  if negb (Status =? RETURN_BUFFER_TOO_SMALL) then mret None else
  r ← alloc Zeroed;
  match r with
  | None => mret None
  | Some p =>
      let '(Status, _, t) := call size in if RETURN_ERROR Status then free p;; mret None else store p (Chars t);; mret (Some p)
  end.

Lemma wp_fetch call s (Q : option positive → hii_state → Prop) :
  (∀ o r h', or_fails o (fetched call) → stored (heap s) o r h' → Q r (with_heap s h')) → wp (fetch call) Q s.
Proof.
  unfold fetch, fetched. intros HQ.
  assert (∀ o, or_fails None o → (∀ o' r h', or_fails o' o → stored (heap s) o' r h' → Q r (with_heap s h')) → Q None s) as Hnone
    by (intros o Ho Hall; rewrite <-(with_heap_same s); by eapply Hall; [|constructor]).
  destruct (call 0) as [[Status size] l0]. destruct (negb (Status =? RETURN_BUFFER_TOO_SMALL)).
  { wp_seq. eapply Hnone; [|exact HQ]. by left. }
  wp_seq. apply wp_alloc; [intros Hp; wp_seq; eapply Hnone; [|exact HQ]; by right|]. intros p Hp.
  destruct (call size) as [[Status' size'] t]. destruct (RETURN_ERROR Status').
  - wp_seq. apply wp_free; [cbn; by rewrite lookup_insert_eq|]. wp_seq. cbn. rewrite delete_insert_id by done.
    eapply HQ; [by left|constructor].
  - wp_seq. apply wp_store; [cbn; by rewrite lookup_insert_eq|]. wp_seq. cbn. rewrite insert_insert_eq.
    eapply HQ; [by left|by constructor].
Qed.

(** ** HiiGetString *)

Definition string_in (lang : list Z) (HiiHandle StringId : Z) : option (list Z) := fetched (GetString lang HiiHandle StringId).

(** The string of an identifier for a platform language. *)
Definition hii_string (platform : list Z) (HiiHandle StringId : Z) : option (list Z) :=
  l ← fetched (GetLanguages HiiHandle); b ← best_language l [[]; platform; l]; string_in b HiiHandle StringId.

(** What HiiGetString gives: the string; when the pool fails it can be missing, or be
    in the language that is taken when the platform has none. *)
Definition obtained (HiiHandle StringId : Z) (o : option (list Z)) : Prop :=
  o = hii_string (default [] PlatformLang) HiiHandle StringId ∨
  pool_fails ∧ (o = None ∨ o = hii_string [] HiiHandle StringId).

Lemma stored_cases h o r h' : stored h o r h' →
  (o = None ∧ r = None ∧ h' = h) ∨ ∃ t p, o = Some t ∧ r = Some p ∧ h' !! p = Some (Chars t).
Proof. intros [|t p Hp]; [by left|]. right. exists t, p. by rewrite lookup_insert_eq. Qed.

Lemma wp_chars_of p t s (Q : list Z → hii_state → Prop) : heap s !! p = Some (Chars t) → Q t s → wp (chars_of p) Q s.
Proof. intros Hp HQ. unfold chars_of. wp_seq. by eapply wp_load. Qed.

Lemma stored_other h o r h' q b : stored h o r h' → h !! q = Some b → h' !! q = Some b.
Proof. intros [|t p Hp] Hq; [done|]. rewrite lookup_insert_ne; [done|congruence]. Qed.

(** The buffers that are freed again. *)
Lemma wp_string_error h0 h1 h2 h3 h4 o1 o2 o3 o4 sup pl best r s (Q : option positive → hii_state → Prop) :
  stored h0 o1 sup h1 → stored h1 o2 pl h2 → stored h2 o3 best h3 → stored h3 o4 r h4 → heap s = h4 →
  (∀ h', stored h0 o4 r h' → Q r (with_heap s h')) → wp (string_error sup pl best r) Q s.
Proof.
  intros H1 H2 H3 H4 Hs HQ.
  assert (∀ h', h' = (match r, o4 with Some p, Some t => <[p := Chars t]> h0 | _, _ => h0 end) →
    Q r (with_heap s h')) as Hend.
  { intros h' ->. apply HQ. destruct H4 as [|t p Hp]; constructor.
    destruct H1, H2, H3; by repeat apply lookup_insert_None in Hp as [Hp _]. }
  clear HQ. unfold string_error. destruct s as [hs l1 l2 l3]. cbn [heap] in Hs. subst hs.
  destruct H1 as [|t1 p1 Hp1], H2 as [|t2 p2 Hp2], H3 as [|t3 p3 Hp3], H4 as [|t4 p4 Hp4];
    rewrite ?lookup_insert_None in *; destruct_and?; cbn [free_buffer]; wp_seq;
    repeat (apply wp_free; [eexists; cbn; by simplify_map_eq|]; wp_seq); apply Hend; cbn.
  all: apply map_eq; intros q; repeat (rewrite lookup_delete || rewrite lookup_insert); by repeat (case_decide; simplify_eq).
Qed.

Lemma wp_platform s (Q : option positive → hii_state → Prop) :
  (∀ o r h', or_fails o PlatformLang → stored (heap s) o r h' → Q r (with_heap s h')) → wp get_platform_language Q s.
Proof.
  intros HQ. unfold get_platform_language. destruct PlatformLang as [l|]; [by apply wp_alloc_stored|].
  wp_seq. rewrite <-(with_heap_same s). eapply HQ; [by left|constructor].
Qed.

Lemma wp_HiiGetString HiiHandle StringId s (Q : option positive → hii_state → Prop) :
  HiiHandle ≠ 0 → StringId ≠ 0 →
  (∀ o r h', obtained HiiHandle StringId o → stored (heap s) o r h' → Q r (with_heap s h')) →
  wp (HiiGetString HiiHandle StringId) Q s.
Proof.
  intros Hh Hi HQ. unfold HiiGetString. wp_seq. apply wp_assert; [by apply negb_true_iff, Z.eqb_neq|].
  wp_seq. apply wp_assert; [by apply negb_true_iff, Z.eqb_neq|]. wp_seq.
  assert (pool_fails → obtained HiiHandle StringId None) as Hfail by (intros; right; split; [done|by left]).
  unfold HiiGetSupportedLanguages. wp_seq. apply wp_assert; [by apply negb_true_iff, Z.eqb_neq|].
  eapply (wp_fetch (GetLanguages HiiHandle)). intros o1 sup h1 Ho1 H1.
  destruct (stored_cases _ _ _ _ H1) as [(-> & -> & ->)|(l & p1 & -> & -> & E1)].
  { eapply wp_string_error; [apply stored_none..|done|]. intros h' Hst. inversion Hst; subst. rewrite with_heap_same.
    eapply HQ; [|constructor]. destruct Ho1 as [Ho1|[_ Ho1]]; [left|by apply Hfail]. unfold hii_string. by rewrite <-Ho1. }
  assert (fetched (GetLanguages HiiHandle) = Some l) as Hl by (by destruct Ho1 as [|[? _]]).
  wp_seq. apply wp_platform. intros o2 pl h2 Ho2 H2. wp_seq.
  eapply wp_chars_of; [by eapply stored_other|]. wp_seq.
  assert (∀ Q' : list Z → hii_state → Prop, Q' (default [] o2) (with_heap s h2) →
    wp (match pl with Some p => chars_of p | None => mret [] end) Q' (with_heap s h2)) as Hpl.
  { intros Q' HQ'. destruct (stored_cases _ _ _ _ H2) as [(-> & -> & _)|(t & p & -> & -> & E)]; [by wp_seq|by eapply wp_chars_of]. }
  apply Hpl. wp_seq. apply wp_GetBestLanguage. intros o3 best h3 Ho3 H3.
  assert (∀ o4, or_fails o4 (b ← o3; string_in b HiiHandle StringId) → obtained HiiHandle StringId o4) as Hgot.
  { intros o4 [->|[-> ?]]; [|by apply Hfail]. destruct Ho3 as [->|[-> ?]]; [|by apply Hfail].
    unfold obtained, hii_string. rewrite Hl. cbn [mbind option_bind].
    destruct Ho2 as [->|[-> ?]]; [by left|right; split; [done|by right]]. }
  destruct (stored_cases _ _ _ _ H3) as [(-> & -> & ->)|(b & p3 & -> & -> & E3)].
  { eapply wp_string_error; [exact H1|exact H2|apply stored_none|apply stored_none|done|].
    intros h' Hst. eapply HQ; [|exact Hst]. apply Hgot. by left. }
  wp_seq. eapply wp_chars_of; [done|]. wp_seq. apply (wp_fetch (GetString b HiiHandle StringId)).
  intros o4 r h4 Ho4 H4. eapply wp_string_error; [exact H1|exact H2|exact H3|exact H4|done|].
  intros h' Hst. eapply HQ; [|exact Hst]. by apply Hgot.
Qed.

(** A title or prompt is fetched, and what was fetched stays in memory. *)
Lemma wp_text HiiHandle StringId s (Q : option (list Z) → hii_state → Prop) :
  HiiHandle ≠ 0 → StringId ≠ 0 →
  (∀ o r h', obtained HiiHandle StringId o → stored (heap s) o r h' → Q o (with_heap s h')) →
  wp (HiiGetString HiiHandle StringId) (λ String,
    wp (match String with Some p => t ← chars_of p; mret (Some t) | None => mret None end) Q) s.
Proof.
  intros Hh Hi HQ. apply wp_HiiGetString; [done..|]. intros o r h' Ho Hst.
  destruct (stored_cases _ _ _ _ Hst) as [(-> & -> & ->)|(t & p & -> & -> & E)]; wp_seq; [by eapply HQ|].
  eapply wp_chars_of; [done|]. wp_seq. by eapply HQ.
Qed.
End strings.
