(* ===== verification/HiiForms.v ===== *)
(** * The forms of a form set

    The byte encoding of IFR opcodes, and AttributeQuestionFormListInit on it: the
    library finds exactly the forms that have been encoded. *)
From S2P Require Import Prelude CBase HiiTree HiiMem.
Local Open Scope Z_scope.

(** ** Opcodes as bytes *)

Record ifr_op := IfrOp { op_code : Z; op_scope : bool; op_data : list Z }.

Definition op_len (o : ifr_op) : Z := 2 + Z.of_nat (length (op_data o)).

Definition encode_op (o : ifr_op) : list Z :=
  op_code o :: (op_len o + (if op_scope o then 128 else 0)) :: op_data o.
Definition encode_ops (os : list ifr_op) : list Z := os ≫= encode_op.

Definition wf_op (o : ifr_op) : Prop := 0 ≤ op_code o < 256 ∧ op_len o < 128.

(** The number of open scopes after an opcode. *)
Definition scopes (d : Z) (o : ifr_op) : Z :=
  if op_scope o then d + 1 else if op_code o =? EFI_IFR_END_OP then d - 1 else d.

(** The last opcode, and no other, closes the last of [d] scopes. *)
Fixpoint closes (d : Z) (os : list ifr_op) : bool :=
  match os with
  | [] => false
  | o :: os => if scopes d o =? 0 then bool_decide (os = []) else closes (scopes d o) os
  end.

#[export] Instance op_eq_dec : EqDecision ifr_op.
Proof. solve_decision. Defined.

(** What follows the opcode of a form set: its forms, and other opcodes. *)
Inductive ifr_item := Plain (o : ifr_op) | FormItem (o : ifr_op) (body : list ifr_op).

Definition item_ops (i : ifr_item) : list ifr_op := match i with Plain o => [o] | FormItem o body => o :: body end.
Definition items_ops (its : list ifr_item) : list ifr_op := its ≫= item_ops.
Definition item_form (i : ifr_item) : list (list ifr_op) := match i with Plain _ => [] | FormItem o body => [o :: body] end.
Definition items_forms (its : list ifr_item) : list (list ifr_op) := its ≫= item_form.

Definition wf_item (i : ifr_item) : Prop :=
  Forall wf_op (item_ops i) ∧
  match i with
  | Plain o => op_code o ≠ EFI_IFR_FORM_OP
  | FormItem o body => op_code o = EFI_IFR_FORM_OP ∧ closes 1 body = true
  end.

Lemma encode_ops_cons o os : encode_ops (o :: os) = encode_op o ++ encode_ops os.
Proof. done. Qed.

Lemma encode_ops_one o : encode_ops [o] = encode_op o.
Proof. apply app_nil_r. Qed.

Lemma encode_ops_app os1 os2 : encode_ops (os1 ++ os2) = encode_ops os1 ++ encode_ops os2.
Proof. apply bind_app. Qed.

Lemma length_encode_op o : Z.of_nat (length (encode_op o)) = op_len o.
Proof. unfold op_len. cbn. lia. Qed.

Lemma length_encode_ops os : (2 * length os ≤ length (encode_ops os))%nat.
Proof.
  induction os as [|o os IH]; [done|]. rewrite encode_ops_cons, length_app.
  pose proof (length_encode_op o). unfold op_len in *. cbn [length]. lia.
Qed.

Lemma bytes_inj (a b : list Z) : Some (Bytes a) = Some (Bytes b) → a = b.
Proof. congruence. Qed.

Lemma closes_nonempty d os : closes d os = true → ∃ o os', os = o :: os'.
Proof. destruct os as [|o os]; [done|]. by exists o, os. Qed.

Section forms.
Context `{HiiDatabase, HiiPool}.
Implicit Types (s : hii_state) (h : pool_mem) (p k fs : positive) (o : ifr_op) (os body : list ifr_op).

(** ** Reading opcodes *)

(** The opcode [o] is in buffer [k], behind the bytes [pre]. *)
Definition op_at h k (pre : list Z) o : Prop := ∃ post, h !! k = Some (Bytes (pre ++ encode_op o ++ post)).

Lemma byte_value x : 0 ≤ x < 256 → little_endian [x] = x.
Proof. intros Hx. unfold little_endian. cbn [foldr]. rewrite cast_id; [lia|done|]. cint_unfold. lia. Qed.

Lemma header_byte o : wf_op o → 0 ≤ op_len o + (if op_scope o then 128 else 0) < 256.
Proof. intros [_ Hl]. unfold op_len in *. destruct (op_scope o); lia. Qed.

Lemma wp_OpCode (Q : Z → hii_state → Prop) s k pre o :
  op_at (heap s) k pre o → wf_op o → Q (op_code o) s → wp (OpCode (Ptr k (Z.of_nat (length pre)))) Q s.
Proof.
  intros [post Hk] [Hc _] HQ. eapply wp_read_int; [|by rewrite byte_value].
  by apply (bytes_at_mid _ _ pre [op_code o] _ Hk).
Qed.

Lemma wp_header (Q : Z → hii_state → Prop) s k pre o :
  op_at (heap s) k pre o → wf_op o → Q (op_len o + (if op_scope o then 128 else 0)) s →
  wp (read_int (ptr_add (Ptr k (Z.of_nat (length pre))) 1) 1) Q s.
Proof.
  intros [post Hk] Hw HQ. eapply wp_read_int; [|rewrite byte_value; [done|by apply header_byte]].
  unfold ptr_add. cbn [blk off].
  replace (Z.of_nat (length pre) + 1) with (Z.of_nat (length (pre ++ [op_code o]))) by (rewrite length_app; cbn; lia).
  apply (bytes_at_mid _ _ (pre ++ [op_code o]) [_] (op_data o ++ post)). by rewrite Hk, <-app_assoc.
Qed.

Lemma wp_Length (Q : Z → hii_state → Prop) s k pre o :
  op_at (heap s) k pre o → wf_op o → Q (op_len o) s → wp (Length (Ptr k (Z.of_nat (length pre)))) Q s.
Proof.
  intros Ho Hw HQ. unfold Length. wp_seq. eapply wp_header; [done..|]. wp_seq.
  replace (Z.land _ _) with (op_len o); [done|]. change 127 with (Z.ones 7). rewrite Z.land_ones by done.
  destruct Hw as [_ Hl]. unfold op_len in *. change (2 ^ 7) with 128.
  destruct (op_scope o); [rewrite <-Z.add_mod_idemp_r by done; cbn; rewrite Z.add_0_r|rewrite Z.add_0_r];
    rewrite Z.mod_small; lia.
Qed.

Lemma wp_Scope (Q : bool → hii_state → Prop) s k pre o :
  op_at (heap s) k pre o → wf_op o → Q (op_scope o) s → wp (Scope (Ptr k (Z.of_nat (length pre)))) Q s.
Proof.
  intros Ho Hw HQ. unfold Scope. wp_seq. eapply wp_header; [done..|]. wp_seq.
  replace (negb _) with (op_scope o); [done|]. rewrite Z.shiftr_div_pow2 by done. change (2 ^ 7) with 128.
  destruct Hw as [_ Hl]. unfold op_len in *. destruct (op_scope o).
  - rewrite <-(Z.mul_1_l 128) at 1. rewrite Z.div_add, Z.div_small by lia. done.
  - rewrite Z.add_0_r, Z.div_small by lia. done.
Qed.

(** ** The end of a form *)

Lemma form_end_spec fuel End k d pre o body post s (Q : ptr → hii_state → Prop) :
  heap s !! k = Some (Bytes (pre ++ encode_ops (o :: body) ++ post)) →
  Forall wf_op (o :: body) → closes d body = true →
  Z.of_nat (length (pre ++ encode_ops (o :: body))) ≤ End → (length body < fuel)%nat →
  (∀ pre' last, op_at (heap s) k pre' last → wf_op last →
     Z.of_nat (length pre') + op_len last = Z.of_nat (length (pre ++ encode_ops (o :: body))) →
     Q (Ptr k (Z.of_nat (length pre'))) s) →
  wp (form_end fuel End (Ptr k (Z.of_nat (length pre))) d) Q s.
Proof.
  revert d pre o body. induction fuel as [|fuel IH]; intros d pre o body Hk Hwf Hc HE Hf HQ; [lia|].
  destruct (closes_nonempty _ _ Hc) as (o2 & body' & ->). cbn [form_end].
  apply Forall_cons in Hwf as [Hwo Hwf]. assert (Hwf' := Hwf). apply Forall_cons in Hwf' as [Hwo2 Hwf2].
  wp_seq. eapply (wp_Length _ _ _ _ o); [|done|].
  { eexists. by rewrite Hk, encode_ops_cons, <-app_assoc. }
  unfold ptr_add. cbn [blk off].
  replace (Z.of_nat (length pre) + op_len o) with (Z.of_nat (length (pre ++ encode_op o)))
    by (rewrite length_app, Nat2Z.inj_add, length_encode_op; lia).
  assert (Hk2 : heap s !! k = Some (Bytes ((pre ++ encode_op o) ++ encode_ops (o2 :: body') ++ post))).
  { by rewrite Hk, encode_ops_cons, !app_assoc. }
  assert (Hend : length (pre ++ encode_ops (o :: o2 :: body')) =
    length ((pre ++ encode_op o) ++ encode_ops (o2 :: body'))) by by rewrite encode_ops_cons, app_assoc.
  rewrite Hend in HE, HQ.
  assert (Ho2 : op_at (heap s) k (pre ++ encode_op o) o2).
  { eexists. by rewrite Hk2, encode_ops_cons, <-(app_assoc (encode_op o2)). }
  rewrite (proj2 (Z.ltb_lt _ _)) by (rewrite length_app in HE; pose proof (length_encode_ops (o2 :: body')); cbn in *; lia).
  cbn [negb]. wp_seq. eapply wp_Scope; [done..|]. wp_seq. eapply wp_OpCode; [done..|]. fold (scopes d o2).
  cbn [closes] in Hc. destruct (scopes d o2 =? 0).
  - apply bool_decide_eq_true in Hc as ->. wp_seq. apply (HQ _ o2); [done..|].
    rewrite encode_ops_one, (length_app (pre ++ encode_op o)), Nat2Z.inj_add. by rewrite length_encode_op.
  - apply (IH _ _ o2 body'); [done..|cbn in Hf; lia|done].
Qed.
(** ** The list of forms *)

Definition add_forms (n : FORMSET_NODE) (ps : list positive) : FORMSET_NODE :=
  FormSetNode_ (FsHandle n) (FormSet n) (FormSetSize n) (FormList n ++ ps).

(** The node [p] describes the form [f], which lies in buffer [k]. *)
Definition form_stored k h p (f : list ifr_op) : Prop := ∃ nd, h !! p = Some (FormNode nd) ∧
  blk (Form nd) = k ∧ bytes_at h (Form nd) (FormSize nd) = Some (encode_ops f).

(** The nodes [ps] have been allocated for the forms [fl], and nothing else. *)
Record forms_added k fs (n : FORMSET_NODE) s s' (ps : list positive) (fl : list (list ifr_op)) : Prop := FormsAdded {
  fa_node : heap s' !! fs = Some (FormSetNode (add_forms n ps));
  fa_forms : Forall2 (form_stored k (heap s')) ps fl;
  fa_new p : p ∈ ps → heap s !! p = None;
  fa_nodup : NoDup ps;
  fa_rest q : q ≠ fs → q ∉ ps → heap s' !! q = heap s !! q;
  fa_lists : s' = with_heap s (heap s') }.

Lemma add_forms_nil n : add_forms n [] = n.
Proof. destruct n. unfold add_forms. cbn. by rewrite app_nil_r. Qed.

Lemma add_forms_app n ps qs : add_forms (add_forms n ps) qs = add_forms n (ps ++ qs).
Proof. unfold add_forms. cbn. by rewrite app_assoc. Qed.

Lemma bytes_at_agree h h' x n : h' !! blk x = h !! blk x → bytes_at h' x n = bytes_at h x n.
Proof. unfold bytes_at. by intros ->. Qed.

Lemma forms_added_nil k fs n s : heap s !! fs = Some (FormSetNode n) → forms_added k fs n s s [] [].
Proof. intros Hfs. split; [by rewrite add_forms_nil|constructor|set_solver|constructor|done|]. by rewrite with_heap_same. Qed.

Lemma forms_added_cons k fs n s s1 s' p f ps fl :
  forms_added k fs n s s1 [p] [f] → forms_added k fs (add_forms n [p]) s1 s' ps fl →
  is_Some (heap s !! k) → k ≠ fs → heap s !! fs = Some (FormSetNode n) →
  forms_added k fs n s s' (p :: ps) (f :: fl).
Proof.
  intros [Hn1 Hf1 Hnew1 _ Hr1 Hl1] [Hn2 Hf2 Hnew2 Hnd2 Hr2 Hl2] [bk Hk] Hkfs Hfs.
  apply Forall2_cons in Hf1 as [(nd & Hp & Hblk & Hb) _].
  assert (Hp0 : heap s !! p = None) by (apply Hnew1; by left).
  assert (Hpfs : p ≠ fs) by congruence. assert (Hkp : k ≠ p) by congruence.
  assert (Hpps : p ∉ ps) by (intros Hin; specialize (Hnew2 _ Hin); congruence).
  assert (Hk1 : heap s1 !! k = heap s !! k).
  { apply Hr1; [done|]. by rewrite list_elem_of_singleton. }
  assert (Hkps : k ∉ ps) by (intros Hin; specialize (Hnew2 _ Hin); congruence).
  split.
  - by rewrite Hn2, add_forms_app.
  - constructor; [|done]. exists nd. split_and!; [by rewrite Hr2|done|]. rewrite <-Hb. apply bytes_at_agree.
    rewrite Hblk. by apply Hr2.
  - intros q [->|Hq]%elem_of_cons; [done|]. destruct (decide (q = fs)) as [->|Hqf].
    { specialize (Hnew2 _ Hq). congruence. }
    rewrite <-(Hr1 q); [by apply Hnew2|done|]. intros ->%list_elem_of_singleton. done.
  - by constructor.
  - intros q Hqf Hq. apply not_elem_of_cons in Hq as [Hqp Hq]. rewrite Hr2 by done.
    apply Hr1; [done|]. by rewrite list_elem_of_singleton.
  - rewrite Hl2, Hl1. done.
Qed.

(** A node for the form [f], whose bytes are at [x]. *)
Lemma add_form_spec fs n x f s (Q : unit → hii_state → Prop) p k len :
  heap s !! p = None → heap s !! fs = Some (FormSetNode n) → blk x = k → k ≠ fs →
  bytes_at (heap s) x len = Some (encode_ops f) →
  (∀ s', forms_added k fs n s s' [p] [f] → Q tt s') →
  wp (store p (FormNode (FormNode_ x len))) Q
    (with_heap s (<[fs := FormSetNode (add_forms n [p])]> (<[p := Zeroed]> (heap s)))).
Proof.
  intros Hp Hfs Hx Hkf Hb HQ. assert (Hpf : p ≠ fs) by congruence.
  assert (Hkp : k ≠ p). { intros <-. subst k. unfold bytes_at in Hb. by rewrite Hp in Hb. }
  apply wp_store; [cbn; by rewrite lookup_insert_ne, lookup_insert_eq|]. apply HQ. split; cbn.
  - by rewrite lookup_insert_ne, lookup_insert_eq.
  - constructor; [|constructor]. eexists. split; [apply lookup_insert_eq|]. split; [done|]. cbn [Form FormSize].
    rewrite <-Hb. apply bytes_at_agree. rewrite Hx. by rewrite !lookup_insert_ne.
  - by intros q ->%list_elem_of_singleton.
  - apply NoDup_singleton.
  - intros q Hqf Hqp%not_elem_of_cons. destruct Hqp as [Hqp _]. by rewrite !lookup_insert_ne.
  - done.
Qed.

Lemma wp_insert_form (Q : unit → hii_state → Prop) fs n p s :
  heap s !! fs = Some (FormSetNode n) → Q tt (with_heap s (<[fs := FormSetNode (add_forms n [p])]> (heap s))) →
  wp (insert_form fs p) Q s.
Proof. intros Hfs HQ. unfold insert_form. wp_seq. eapply wp_formset_of; [done|]. apply wp_store; [by eexists|done]. Qed.
(** What the loop has done when it returns: all forms, or no memory for the next one. *)
Definition forms_loop_post k fs n its s (Status : Z) s' : Prop := ∃ ps fl,
  forms_added k fs n s s' ps fl ∧
  (Status = RETURN_SUCCESS ∧ fl = items_forms its ∨ Status = RETURN_OUT_OF_RESOURCES).

Lemma forms_loop_cons k fs n its s s1 Status s' p f :
  forms_added k fs n s s1 [p] [f] → forms_loop_post k fs (add_forms n [p]) its s1 Status s' →
  is_Some (heap s !! k) → k ≠ fs → heap s !! fs = Some (FormSetNode n) →
  ∃ ps fl, forms_added k fs n s s' ps fl ∧
    (Status = RETURN_SUCCESS ∧ fl = f :: items_forms its ∨ Status = RETURN_OUT_OF_RESOURCES).
Proof.
  intros H1 (ps & fl & H2 & Hst) Hk Hkf Hfs. exists (p :: ps), (f :: fl).
  split; [by eapply forms_added_cons|]. destruct Hst as [[-> ->]| ->]; [by left|by right].
Qed.

(** Finding one form: from its opcode [o2] to the new node. *)
Lemma form_item_spec fuel k fs n pre o2 body rest s (Q : Z → hii_state → Prop) End :
  heap s !! fs = Some (FormSetNode n) → k ≠ fs →
  heap s !! k = Some (Bytes (pre ++ encode_ops (o2 :: body) ++ rest)) →
  Forall wf_op (o2 :: body) → closes 1 body = true → (length body < fuel)%nat →
  Z.of_nat (length (pre ++ encode_ops (o2 :: body))) ≤ End →
  Q RETURN_OUT_OF_RESOURCES s →
  (∀ pre' last p s1, pre ++ encode_ops (o2 :: body) = pre' ++ encode_op last → wf_op last →
     forms_added k fs n s s1 [p] [o2 :: body] →
     wp (form_loop fuel End fs (Ptr k (Z.of_nat (length pre')))) Q s1) →
  wp (OpCodeData ← form_end fuel End (Ptr k (Z.of_nat (length pre))) 1;
      NodeOfForm ← alloc Zeroed;
      match NodeOfForm with
      | None => mret RETURN_OUT_OF_RESOURCES
      | Some NodeOfForm =>
          insert_form fs NodeOfForm;;
          len ← Length OpCodeData;
          store NodeOfForm (FormNode (FormNode_ (Ptr k (Z.of_nat (length pre)))
            (off OpCodeData + len - Z.of_nat (length pre))));;
          form_loop fuel End fs OpCodeData
      end) Q s.
Proof.
  intros Hfs Hkf Hk Hwf Hcl Hf HE Hoom Hnext. wp_seq.
  eapply (form_end_spec _ _ _ _ _ o2 body); [done..|].
  intros pre' last [post' Hlast] Hwl Hend. rewrite Hk in Hlast.
  apply bytes_inj in Hlast. rewrite (app_assoc pre), (app_assoc pre') in Hlast.
  apply app_inj_1 in Hlast as [Hpre _].
  2:{ rewrite (length_app pre'). apply Nat2Z.inj. by rewrite Nat2Z.inj_add, length_encode_op. }
  wp_seq. apply wp_alloc; [intros _; by wp_seq|].
  intros p Hp. wp_seq. eapply wp_insert_form; [cbn; rewrite lookup_insert_ne by congruence; done|].
  wp_seq. cbn [heap with_heap]. eapply (wp_Length _ _ _ _ last); [|done|].
  { exists rest. cbn [heap with_heap]. rewrite !lookup_insert_ne, Hk by congruence.
    by rewrite (app_assoc pre), Hpre, <-(app_assoc pre'). }
  wp_seq. apply (add_form_spec fs n _ (o2 :: body) s _ p k); [done|done|done|done| |].
  - cbn [off blk]. rewrite Hend, length_app, Nat2Z.inj_add, Z.add_simpl_l. by apply (bytes_at_mid _ _ _ _ rest).
  - intros s1 Hs1. by eapply Hnext.
Qed.

Lemma form_loop_spec fuel k fs n pre o its s :
  heap s !! fs = Some (FormSetNode n) → k ≠ fs →
  heap s !! k = Some (Bytes (pre ++ encode_op o ++ encode_ops (items_ops its))) →
  wf_op o → Forall wf_item its → (length (items_ops its) < fuel)%nat →
  wp (form_loop fuel (Z.of_nat (length (pre ++ encode_op o ++ encode_ops (items_ops its)))) fs
        (Ptr k (Z.of_nat (length pre)))) (forms_loop_post k fs n its s) s.
Proof.
  revert n pre o its s. induction fuel as [|fuel IH]; intros n pre o its s Hfs Hkf Hk Hwo Hwf Hf; [lia|].
  cbn [form_loop]. wp_seq. eapply wp_Length; [by eexists|done|]. unfold ptr_add. cbn [blk off].
  replace (Z.of_nat (length pre) + op_len o) with (Z.of_nat (length (pre ++ encode_op o)))
    by (rewrite length_app, Nat2Z.inj_add, length_encode_op; lia).
  destruct its as [|[o2|o2 body] its].
  { cbn [items_ops mbind list_bind encode_ops]. rewrite app_nil_r, Z.ltb_irrefl. cbn [negb]. wp_seq.
    exists [], []. split; [by apply forms_added_nil|by left]. }
  all: apply Forall_cons in Hwf as [[Hwi Hkind] Hwf]; set (rest := encode_ops (items_ops its)).
  - apply Forall_cons in Hwi as [Hwo2 _].
    replace (encode_ops (items_ops (Plain o2 :: its))) with (encode_op o2 ++ rest) in * by done.
    rewrite app_assoc in Hk |- *.
    rewrite (proj2 (Z.ltb_lt _ _)) by (rewrite !length_app; pose proof (length_encode_op o2); unfold op_len in *; lia).
    cbn [negb]. wp_seq. eapply wp_OpCode; [by eexists|done|]. rewrite (proj2 (Z.eqb_neq _ _)) by done. cbn [negb].
    change (forms_loop_post k fs n (Plain o2 :: its) s) with (forms_loop_post k fs n its s).
    change (items_ops (Plain o2 :: its)) with (o2 :: items_ops its) in Hf. cbn [length] in Hf.
    apply IH; [done..|lia].
  - destruct Hkind as [Hform Hcl]. cbn [item_ops] in Hwi. assert (Hwo2 := Hwi). apply Forall_cons in Hwo2 as [Hwo2 _].
    change (items_ops (FormItem o2 body :: its)) with ((o2 :: body) ++ items_ops its) in *.
    rewrite length_app in Hf. cbn [length] in Hf.
    rewrite encode_ops_app in *. fold rest in Hk |- *. rewrite app_assoc in Hk |- *.
    rewrite (proj2 (Z.ltb_lt _ _)) by (rewrite !length_app; pose proof (length_encode_ops (o2 :: body));
      cbn [length] in *; lia).
    cbn [negb]. wp_seq. eapply (wp_OpCode _ _ _ _ o2); [|done|].
    { eexists. by rewrite Hk, encode_ops_cons, <-(app_assoc (encode_op o2)). }
    rewrite Hform, Z.eqb_refl. cbn [negb off].
    eapply (form_item_spec fuel k fs n _ o2 body rest); [done..|lia| | |].
    { rewrite (app_assoc (pre ++ _)), (length_app _ rest). lia. }
    { exists [], []. split; [by apply forms_added_nil|by right]. }
    intros pre' last p s1 Hpre Hwl Hs1. assert (Hk1 : heap s1 !! k = heap s !! k).
    { apply (fa_rest _ _ _ _ _ _ _ Hs1); [done|]. intros ->%list_elem_of_singleton.
      rewrite (fa_new _ _ _ _ _ _ _ Hs1) in Hk; [done|by left]. }
    eapply wp_mono; [|intros Status s' Hpost'; eapply forms_loop_cons; [exact Hs1|exact Hpost'|by eexists|done|done]].
    rewrite (app_assoc (pre ++ _)), Hpre, <-(app_assoc pre').
    apply IH; [apply (fa_node _ _ _ _ _ _ _ Hs1)|done| |done|done|lia].
    by rewrite Hk1, Hk, (app_assoc (pre ++ _)), Hpre, <-(app_assoc pre').
Qed.

(** ** Giving up *)

Lemma remove_entry_head p ps : p ∉ ps → remove_entry p (p :: ps) = ps.
Proof.
  intros Hp. unfold remove_entry. rewrite filter_cons_False by tauto.
  induction ps as [|q ps IH]; [done|]. apply not_elem_of_cons in Hp as [Hpq Hp].
  rewrite filter_cons_True by done. by rewrite IH.
Qed.

Lemma free_forms_spec fs n ps s (Q : unit → hii_state → Prop) :
  heap s !! fs = Some (FormSetNode n) → FormList n = ps → NoDup ps →
  (∀ p, p ∈ ps → ∃ nd, heap s !! p = Some (FormNode nd)) →
  (∀ h', h' !! fs = Some (FormSetNode (FormSetNode_ (FsHandle n) (FormSet n) (FormSetSize n) [])) →
     (∀ q, q ∈ ps → h' !! q = None) → (∀ q, q ≠ fs → q ∉ ps → h' !! q = heap s !! q) → Q tt (with_heap s h')) →
  wp (free_nodes form_of (remove_form fs) ps) Q s.
Proof.
  revert n s Q. induction ps as [|p ps IH]; intros n s Q Hfs Hn Hnd Hps HQ; cbn [free_nodes].
  { wp_seq. rewrite <-(with_heap_same s). apply HQ; [|set_solver|done]. rewrite Hfs. destruct n. cbn in Hn. by subst. }
  apply NoDup_cons in Hnd as [Hp Hnd]. destruct (Hps p) as [nd Hpn]; [by left|].
  assert (Hpf : p ≠ fs) by congruence.
  wp_seq. eapply wp_form_of; [done|]. wp_seq. unfold remove_form. wp_seq. eapply wp_formset_of; [done|].
  apply wp_store; [by eexists|]. rewrite Hn, remove_entry_head by done.
  wp_seq. apply wp_free; [cbn; by rewrite lookup_insert_ne, Hpn|]. cbn [heap with_heap].
  eapply IH; [cbn; by rewrite lookup_delete_ne, lookup_insert_eq|done|done| |].
  - intros q Hq. cbn. destruct (Hps q) as [ndq Hqn]; [by right|].
    rewrite lookup_delete_ne, lookup_insert_ne by congruence. by exists ndq.
  - intros h' Hfs' Hq' Hr'. cbn in Hfs', Hr'. apply HQ; [done| |].
    + intros q [->|Hq]%elem_of_cons; [|by apply Hq']. by rewrite Hr', lookup_delete_eq.
    + intros q Hqf [Hqp Hq]%not_elem_of_cons. by rewrite Hr', lookup_delete_ne, lookup_insert_ne.
Qed.

Lemma form_list_init_spec k fs n o its s :
  heap s !! fs = Some (FormSetNode n) → FormList n = [] → k ≠ fs →
  heap s !! k = Some (Bytes (encode_op o ++ encode_ops (items_ops its))) → wf_op o → Forall wf_item its →
  wp (AttributeQuestionFormListInit (Ptr k 0) (Z.of_nat (length (encode_op o ++ encode_ops (items_ops its)))) fs)
    (λ Status s', (Status = RETURN_SUCCESS ∧ ∃ ps, forms_added k fs n s s' ps (items_forms its)) ∨
                  (Status = RETURN_OUT_OF_RESOURCES ∧ s' = s)) s.
Proof.
  intros Hfs Hn Hkf Hk Hwo Hwf. unfold AttributeQuestionFormListInit. cbn [off]. rewrite Z.add_0_l, Nat2Z.id.
  wp_seq. eapply wp_mono; [eapply (form_loop_spec _ k fs n [] o its); try done|].
  { rewrite length_app. pose proof (length_encode_ops (items_ops its)). lia. }
  intros Status s1 (ps & fl & Hadd & [[-> ->]| ->]).
  - cbn. left. split; [done|]. by exists ps.
  - change (RETURN_ERROR RETURN_OUT_OF_RESOURCES) with true. cbn iota.
    destruct Hadd as [Hnode Hforms Hnew Hnd Hrest Hl]. wp_seq. eapply wp_formset_of; [done|].
    assert (Hps : FormList (add_forms n ps) = ps) by (cbn; by rewrite Hn). rewrite Hps.
    eapply (free_forms_spec fs (add_forms n ps)); [done..| |].
    + intros p Hp. apply list_elem_of_lookup in Hp as [i Hi].
      destruct (Forall2_lookup_l _ _ _ _ _ Hforms Hi) as (f & _ & nd & Hp & _). by exists nd.
    + intros h' Hfs' Hq Hr. wp_seq. right. split; [done|]. rewrite Hl.
      assert (h' = heap s) as ->; [|by destruct s].
      apply map_eq. intros q. destruct (decide (q = fs)) as [->|Hqf].
      { rewrite Hfs', Hfs. destruct n. cbn in *. by subst. }
      destruct (decide (q ∈ ps)) as [Hqp|Hqp]; [by rewrite Hq, Hnew|]. by rewrite Hr, Hrest.
Qed.
End forms.
