(* ===== verification/HiiLookup.v ===== *)
(** * The searches of the attribute question library

    The runs of the functions that only read: pointers into buffers, GUIDs, and the
    searches for form sets, forms and questions, which return the first match or,
    when there is none, the last entry. *)
From S2P Require Import Prelude CBase HiiTree HiiMem HiiForms.
Local Open Scope Z_scope.

(** The entry that a search returns: without a match, the variable of the loop still
    points to the last entry. *)
Definition search_result {A} (f : A → bool) (ps : list A) : option A :=
  match List.find f ps with Some p => Some p | None => last ps end.

Lemma find_elem {A} (f : A → bool) ps p : List.find f ps = Some p → p ∈ ps.
Proof. intros [Hin _]%List.find_some. by apply list_elem_of_In. Qed.

Lemma find_ext {A} (f f' : A → bool) ps : (∀ p, p ∈ ps → f p = f' p) → List.find f ps = List.find f' ps.
Proof.
  induction ps as [|p ps IH]; intros Hf; [done|]. cbn. rewrite Hf by by left. destruct (f' p); [done|].
  apply IH. intros q Hq. apply Hf. by right.
Qed.

Lemma search_result_elem {A} (f : A → bool) ps p : search_result f ps = Some p → p ∈ ps.
Proof.
  unfold search_result. destruct (List.find f ps) as [q|] eqn:Hq.
  - intros [= ->]. by apply find_elem in Hq.
  - by apply last_Some_elem_of.
Qed.

Lemma search_result_some {A} (f : A → bool) ps : ps ≠ [] → is_Some (search_result f ps).
Proof.
  intros Hps. unfold search_result. destruct (List.find f ps); [by eexists|].
  destruct (last ps) eqn:Hl; [by eexists|]. by apply last_None in Hl.
Qed.

(** The bytes of the numbers that are read. *)
Lemma little_endian_bounds b : 0 ≤ little_endian b < 256 ^ Z.of_nat (length b).
Proof.
  induction b as [|x b IH]; [done|]. cbn [little_endian foldr length]. fold (little_endian b).
  assert (0 ≤ cast UINT8 x < 256) by (unfold cast; cbn; lia || apply Z.mod_pos_bound; done).
  rewrite Nat2Z.inj_succ, Z.pow_succ_r by lia. nia.
Qed.

Section lookup.
Context `{HiiDatabase, HiiPool}.
Implicit Types (s : hii_state) (h : pool_mem) (p k fs : positive) (x g : ptr).

(** ** Reads inside readable memory *)

Lemma bytes_at_length h x n bs : bytes_at h x n = Some bs → 0 ≤ n → Z.of_nat (length bs) = n.
Proof.
  unfold bytes_at. destruct (h !! blk x) as [[]|]; try done. destruct (_ && _) eqn:Hb; [|done].
  intros [= <-] Hn. bool_hyps. rewrite length_take, length_drop. lia.
Qed.

Lemma bytes_at_sub h x n bs d m : bytes_at h x n = Some bs → 0 ≤ d → 0 ≤ m → d + m ≤ n →
  bytes_at h (ptr_add x d) m = Some (take (Z.to_nat m) (drop (Z.to_nat d) bs)).
Proof.
  unfold bytes_at, ptr_add. cbn. destruct (h !! blk x) as [[]|]; try done. destruct (_ && _) eqn:Hb; [|done].
  intros [= <-] Hd Hm Hn. bool_hyps.
  rewrite (proj2 (Z.leb_le _ _)), (proj2 (Z.leb_le _ _)) by lia. cbn. f_equal.
  rewrite skipn_firstn_comm, take_take, drop_drop. do 2 f_equal; lia.
Qed.

(** The buffer around readable bytes. *)
Lemma bytes_at_inv h x n bs : bytes_at h x n = Some bs → 0 ≤ n →
  ∃ pre post, h !! blk x = Some (Bytes (pre ++ bs ++ post)) ∧ off x = Z.of_nat (length pre).
Proof.
  unfold bytes_at. destruct (h !! blk x) as [[]|] eqn:Hx; try done. destruct (_ && _) eqn:Hb; [|done].
  intros [= <-] Hn. bool_hyps. exists (take (Z.to_nat (off x)) b), (drop (Z.to_nat n) (drop (Z.to_nat (off x)) b)).
  split; [by rewrite !take_drop|]. rewrite length_take. lia.
Qed.

Lemma read_int_run s x n bs : bytes_at (heap s) x n = Some bs → read_int x n s = Some (little_endian bs, s).
Proof. intros Hx. unfold read_int. erewrite bind_run; [done|]. by rewrite read_bytes_run, Hx. Qed.

(** The number of [m] bytes at offset [d]. *)
Definition field_at h x (d m : Z) : option Z := little_endian <$> bytes_at h (ptr_add x d) m.

Lemma field_run s x d m v : field_at (heap s) x d m = Some v → read_int (ptr_add x d) m s = Some (v, s).
Proof. intros (bs & Hb & ->)%fmap_Some. by apply read_int_run. Qed.

Lemma field_at_some h x n bs d m : bytes_at h x n = Some bs → 0 ≤ d → 0 ≤ m → d + m ≤ n → is_Some (field_at h x d m).
Proof. intros Hx Hd Hm Hn. unfold field_at. erewrite bytes_at_sub by done. by eexists. Qed.

(** ** GUIDs *)

Definition guid_at h g : option (list Z) := bytes_at h g sizeof_GUID.

Lemma CompareGuid_run s g1 g2 a b : guid_at (heap s) g1 = Some a → guid_at (heap s) g2 = Some b →
  CompareGuid g1 g2 s = Some (bool_decide (a = b), s).
Proof.
  intros Ha Hb. unfold CompareGuid.
  erewrite bind_run; [|rewrite read_bytes_run; unfold guid_at in Ha; by rewrite Ha].
  erewrite bind_run; [|rewrite read_bytes_run; unfold guid_at in Hb; by rewrite Hb]. done.
Qed.

Definition guids_equal h g1 g2 : bool := bool_decide (guid_at h g1 = guid_at h g2).

Lemma CompareGuid_equal s g1 g2 : is_Some (guid_at (heap s) g1) → is_Some (guid_at (heap s) g2) →
  CompareGuid g1 g2 s = Some (guids_equal (heap s) g1 g2, s).
Proof.
  intros [a Ha] [b Hb]. erewrite CompareGuid_run by done. unfold guids_equal. rewrite Ha, Hb.
  do 2 f_equal. apply bool_decide_ext. split; congruence.
Qed.

(** ** The searches *)

Lemma search_run (f : positive → bool) ps found Node s : (∀ p, p ∈ ps → found p s = Some (f p, s)) →
  search ps found Node s = Some (match search_result f ps with Some p => Some p | None => Node end, s).
Proof.
  revert Node. induction ps as [|p ps IH]; intros Node Hf; [done|]. cbn [search].
  erewrite bind_run; [|apply Hf; by left]. unfold search_result. cbn [List.find]. destruct (f p); [done|].
  rewrite (IH (Some p)) by (intros q Hq; apply Hf; by right). unfold search_result.
  destruct (List.find f ps); [done|]. destruct ps as [|q ps]; [done|].
  change (last (p :: q :: ps)) with (last (q :: ps)).
  destruct (last (q :: ps)) eqn:Hl; [done|]. by apply last_None in Hl.
Qed.

(** ** Registered form sets *)

(** The node [p] describes a form set: its header, and that of each of its forms, can
    be read. *)
Definition form_readable h p : Prop := ∃ f, h !! p = Some (FormNode f) ∧
  is_Some (field_at h (Form f) 2 2) ∧ is_Some (field_at h (Form f) 4 2).
Definition formset_readable h p : Prop := ∃ n x, h !! p = Some (FormSetNode n) ∧ FormSet n = Some x ∧
  is_Some (guid_at h (Guid x)) ∧ is_Some (field_at h x 18 2) ∧ ∀ q, q ∈ FormList n → form_readable h q.
Definition formsets_readable s : Prop := ∀ p, p ∈ mFormSetList s → formset_readable (heap s) p.

Definition formset_matches h g p : bool :=
  match h !! p with
  | Some (FormSetNode n) => match FormSet n with Some x => guids_equal h g (Guid x) | None => false end
  | _ => false
  end.

Definition form_matches h (i : Z) p : bool :=
  match h !! p with
  | Some (FormNode f) => bool_decide (field_at h (Form f) 2 2 = Some i)
  | _ => false
  end.

Lemma GetFormSet_run s g : formsets_readable s → is_Some (guid_at (heap s) g) →
  AttributeQuestionGetFormSet (Some g) s = Some (search_result (formset_matches (heap s) g) (mFormSetList s), s).
Proof.
  intros Hfs Hg. unfold AttributeQuestionGetFormSet. rewrite (bind_run _ _ s (mFormSetList s) s) by done.
  rewrite (search_run (formset_matches (heap s) g)); [by destruct (search_result _ _)|].
  intros p Hp. destruct (Hfs p Hp) as (n & x & Hn & Hx & Hgx & _). apply wp_run. wp_seq.
  eapply wp_formset_of; [done|]. rewrite Hx. wp_seq. eapply run_wp; [done|]. eapply run_wp; [by apply CompareGuid_equal|].
  unfold formset_matches. by rewrite Hn, Hx.
Qed.

Lemma GetFormSet_first s : formsets_readable s →
  AttributeQuestionGetFormSet None s = Some (head (mFormSetList s), s).
Proof.
  intros Hfs. unfold AttributeQuestionGetFormSet. rewrite (bind_run _ _ s (mFormSetList s) s) by done.
  destruct (head (mFormSetList s)) as [p|] eqn:Hp; [|done].
  destruct (Hfs p) as (n & x & Hn & _). { destruct (mFormSetList s); [done|]. injection Hp as ->. by left. }
  apply wp_run. wp_seq. eapply wp_formset_of; [done|]. by wp_seq.
Qed.

Lemma GetForm_run s g i fs n : formsets_readable s → is_Some (guid_at (heap s) g) →
  search_result (formset_matches (heap s) g) (mFormSetList s) = Some fs → heap s !! fs = Some (FormSetNode n) →
  AttributeQuestionGetForm (Some g) i s =
    Some (if i =? 0 then head (FormList n) else search_result (form_matches (heap s) i) (FormList n), s).
Proof.
  intros Hfs Hg Hres Hn. unfold AttributeQuestionGetForm. erewrite bind_run; [|by apply GetFormSet_run].
  rewrite Hres. destruct (Hfs fs) as (n2 & x & Hn2 & _ & _ & _ & Hforms); [by eapply search_result_elem|].
  simplify_eq. apply wp_run. wp_seq. eapply wp_formset_of; [done|]. destruct (i =? 0).
  - destruct (head (FormList n)) as [p|] eqn:Hp; [|by wp_seq].
    destruct (Hforms p) as (f & Hf & _). { destruct (FormList n); [done|]. injection Hp as ->. by left. }
    wp_seq. eapply wp_form_of; [done|]. by wp_seq.
  - eapply run_wp; [apply (search_run (form_matches (heap s) i))|split; [done|by destruct (search_result (form_matches _ _) _)]].
    intros p Hp. destruct (Hforms p Hp) as (f & Hf & [v Hv] & _). apply wp_run. wp_seq.
    eapply wp_form_of; [done|]. wp_seq. eapply run_wp; [exact (field_run _ _ _ _ _ Hv)|]. wp_seq.
    unfold form_matches. rewrite Hf, Hv. split; [done|]. cbn.
    destruct (Z.eqb_spec v i) as [->|Hvi]; case_bool_decide; congruence.
Qed.

(** ** Questions *)

(** The question [p] at position [i] of the list [l]: its page is that of an earlier
    question, or the first one. *)
Definition question_ok h (l : list positive) (i : nat) p : Prop := ∃ n, h !! p = Some (AqNode n) ∧
  is_Some (guid_at h (PageFormSetId (ThisPage n))) ∧
  ∀ q, PrevPage n = Some q → ∃ j, (j < i)%nat ∧ l !! j = Some q.

Record questions_ok h (l : list positive) : Prop := QuestionsOk {
  qo_nodup : NoDup l;
  qo_node i p : l !! i = Some p → question_ok h l i p }.

Definition question_matches h g (id : Z) p : bool :=
  match h !! p with
  | Some (AqNode n) => guids_equal h g (PageFormSetId (ThisPage n)) && (id =? QuestionId n)
  | _ => false
  end.

Lemma GetSelf_run s g id : questions_ok (heap s) (gAttributeQuestionList s) → is_Some (guid_at (heap s) g) →
  AttributeQuestionGetSelf g id s = Some (search_result (question_matches (heap s) g id) (gAttributeQuestionList s), s).
Proof.
  intros Hq Hg. unfold AttributeQuestionGetSelf. rewrite (bind_run _ _ s (gAttributeQuestionList s) s) by done.
  rewrite (search_run (question_matches (heap s) g id)); [by destruct (search_result _ _)|].
  intros p [i Hi]%list_elem_of_lookup. destruct (qo_node _ _ Hq _ _ Hi) as (n & Hn & Hgn & _).
  apply wp_run. wp_seq. eapply wp_question_of; [done|]. wp_seq. eapply run_wp; [by apply CompareGuid_equal|]. wp_seq.
  unfold question_matches. by rewrite Hn.
Qed.

Lemma GetPrev_run s l i p n : questions_ok (heap s) l → l !! i = Some p → heap s !! p = Some (AqNode n) →
  AttributeQuestionGetPrev p s = Some (PrevPage n, s).
Proof.
  intros Hq Hi Hn. destruct (qo_node _ _ Hq _ _ Hi) as (n2 & Hn2 & _ & Hprev). simplify_eq.
  apply wp_run. unfold AttributeQuestionGetPrev. wp_seq. eapply wp_question_of; [done|].
  destruct (PrevPage n) as [q|]; [|by wp_seq]. destruct (Hprev q) as (j & _ & Hj); [done|].
  destruct (qo_node _ _ Hq _ _ Hj) as (nq & Hnq & _). wp_seq. eapply wp_question_of; [done|]. by wp_seq.
Qed.
End lookup.
