(* ===== verification/HiiInv.v ===== *)
(** * The invariant of the attribute question library

    What the three lists hold, and the effect on it of the small steps: a new
    question, a new reference, and the release of references and questions. *)
From S2P Require Import Prelude CBase HiiTree HiiMem HiiForms HiiLookup.
Local Open Scope Z_scope.

(** ** Questions inside forms *)

(** The GUID of a REF3 opcode. *)
Definition ref_guid (o : ifr_op) : list Z := take 16 (drop 15 (op_data o)).

(** An opcode that is a question or a reference is long enough; a reference to
    another form set names one of [G]. *)
Definition wf_question (G : list (list Z)) (o : ifr_op) : Prop :=
  (AttributeQuestionIsOp (op_code o) = true → 8 ≤ op_len o) ∧
  (op_code o = EFI_IFR_REF_OP → 15 ≤ op_len o ∧ (sizeof_REF3 ≤ op_len o → ref_guid o ∈ G)).

Definition wf_form (G : list (list Z)) (os : list ifr_op) : Prop :=
  Forall wf_op os ∧ match os with o :: body => 6 ≤ op_len o ∧ Forall (wf_question G) body | [] => False end.

Section inv.
Context `{HiiDatabase, HiiPool}.
Implicit Types (s : hii_state) (h : pool_mem) (p q : positive) (x g : ptr) (G : list (list Z)).

(** ** Buffers and form nodes stay *)

Definition is_form_block (b : block) : bool :=
  match b with Bytes _ | FormSetNode _ | FormNode _ => true | _ => false end.

Definition same_forms h h' : Prop := ∀ q b, h !! q = Some b → is_form_block b = true → h' !! q = Some b.

#[export] Instance same_forms_preorder : PreOrder same_forms.
Proof. split; [by intros h q b|]. intros h1 h2 h3 H12 H23 q b Hq Hb. by apply H23; [apply H12|]. Qed.

Lemma same_forms_insert h p b : h !! p = None → same_forms h (<[p := b]> h).
Proof. intros Hp q c Hq _. by rewrite lookup_insert_ne by congruence. Qed.

(** Replacing or releasing a block that is no form block. *)
Lemma same_forms_over h p b c : h !! p = Some b → is_form_block b = false → same_forms h (<[p := c]> h).
Proof. intros Hp Hb q d Hq Hd. rewrite lookup_insert_ne; [done|]. intros ->. congruence. Qed.

Lemma same_forms_without h h' (ps : list positive) :
  (∀ p, p ∈ ps → ∃ b, h !! p = Some b ∧ is_form_block b = false) → (∀ q, q ∉ ps → h' !! q = h !! q) → same_forms h h'.
Proof.
  intros Hps Hr q b Hq Hb. rewrite Hr; [done|]. intros (c & Hc & Hcb)%Hps. congruence.
Qed.

Lemma bytes_at_same h h' x n bs : same_forms h h' → bytes_at h x n = Some bs → bytes_at h' x n = Some bs.
Proof.
  intros Hs. unfold bytes_at. destruct (h !! blk x) as [b|] eqn:Hx; [|done]. destruct b; try done.
  by rewrite (Hs _ _ Hx).
Qed.

Lemma field_at_same h h' x d m v : same_forms h h' → field_at h x d m = Some v → field_at h' x d m = Some v.
Proof. intros Hs (bs & Hb & ->)%fmap_Some. unfold field_at. by erewrite bytes_at_same. Qed.

Lemma field_some_same h h' x d m : same_forms h h' → is_Some (field_at h x d m) → is_Some (field_at h' x d m).
Proof. intros Hs [v Hv]. exists v. by eapply field_at_same. Qed.

Lemma guid_some_same h h' g : same_forms h h' → is_Some (guid_at h g) → is_Some (guid_at h' g).
Proof. intros Hs [v Hv]. exists v. by eapply bytes_at_same. Qed.

(** ** Well-formed lists *)

Definition form_wf G h p : Prop := ∃ f os, h !! p = Some (FormNode f) ∧
  bytes_at h (Form f) (FormSize f) = Some (encode_ops os) ∧ wf_form G os.

Definition formset_wf G h p : Prop := ∃ n x u, h !! p = Some (FormSetNode n) ∧ FormSet n = Some x ∧
  guid_at h (Guid x) = Some u ∧ u ∈ G ∧ is_Some (field_at h x 18 2) ∧ ∀ q, q ∈ FormList n → form_wf G h q.

Definition ref_ok h p : Prop := ∃ n, h !! p = Some (FormRefNode n) ∧ is_Some (guid_at h (RefFormSetId n)).

Record aq_inv G s : Prop := AqInv {
  ai_formsets p : p ∈ mFormSetList s → formset_wf G (heap s) p;
  ai_questions : questions_ok (heap s) (gAttributeQuestionList s);
  ai_refs p : p ∈ mFormRefList s → ref_ok (heap s) p;
  ai_refs_nodup : NoDup (mFormRefList s) }.

Lemma form_wf_same G h h' p : same_forms h h' → form_wf G h p → form_wf G h' p.
Proof.
  intros Hs (f & os & Hp & Hb & Hw). exists f, os. split; [by apply Hs|]. split; [by eapply bytes_at_same|done].
Qed.

Lemma formset_wf_same G h h' p : same_forms h h' → formset_wf G h p → formset_wf G h' p.
Proof.
  intros Hs (n & x & u & Hp & Hx & Hu & HG & Ht & Hf). exists n, x, u.
  split_and!; [by apply Hs|done|by eapply bytes_at_same|done|by eapply field_some_same|].
  intros q Hq. eapply form_wf_same; [done|by apply Hf].
Qed.

Lemma question_ok_same h h' l i p : same_forms h h' → h' !! p = h !! p → question_ok h l i p → question_ok h' l i p.
Proof.
  intros Hs Hp (n & Hn & Hg & Hprev). exists n. split; [by rewrite Hp|]. split; [by eapply guid_some_same|done].
Qed.

Lemma questions_ok_same h h' l : same_forms h h' → (∀ p, p ∈ l → h' !! p = h !! p) → questions_ok h l → questions_ok h' l.
Proof.
  intros Hs Hl [Hnd Hn]. split; [done|]. intros i p Hi. eapply question_ok_same; [done| |by apply Hn].
  apply Hl. by eapply list_elem_of_lookup_2.
Qed.

Lemma ref_ok_same h h' p : same_forms h h' → h' !! p = h !! p → ref_ok h p → ref_ok h' p.
Proof. intros Hs Hp (n & Hn & Hg). exists n. split; [by rewrite Hp|by eapply guid_some_same]. Qed.

(** The size of a form, and its header. *)
Lemma wf_form_size G h f os : bytes_at h (Form f) (FormSize f) = Some (encode_ops os) → wf_form G os →
  FormSize f = Z.of_nat (length (encode_ops os)) ∧ 6 ≤ FormSize f.
Proof.
  intros Hb [_ Hw]. destruct os as [|o body]; [done|]. destruct Hw as [Ho _].
  rewrite encode_ops_cons in Hb |- *. pose proof (length_encode_op o).
  assert (Hpos : 0 ≤ FormSize f).
  { unfold bytes_at in Hb. destruct (h !! blk (Form f)) as [[]|]; try done. destruct (_ && _); [|done].
    destruct (Z.le_gt_cases 0 (FormSize f)); [done|]. rewrite Z2Nat.nonpos in Hb by lia. done. }
  apply bytes_at_length in Hb; [|done]. rewrite length_app in *. lia.
Qed.

Lemma form_wf_readable G h p : form_wf G h p → form_readable h p.
Proof.
  intros (f & os & Hp & Hb & Hw). destruct (wf_form_size _ _ _ _ Hb Hw) as [_ Hsz]. exists f.
  split; [done|]. split; eapply field_at_some; (done || lia).
Qed.

Lemma formset_wf_readable G h p : formset_wf G h p → formset_readable h p.
Proof.
  intros (n & x & u & Hp & Hx & Hu & _ & Ht & Hf). exists n, x.
  split_and!; [done|done|by eexists|done|]. intros q Hq. by eapply form_wf_readable, Hf.
Qed.

Lemma aq_inv_readable G s : aq_inv G s → formsets_readable s.
Proof. intros Hi p Hp. by eapply formset_wf_readable, (ai_formsets _ _ Hi). Qed.

(** ** References *)

(** What a reference node stands for. *)
Definition ref_key h p : list Z * Z :=
  match h !! p with
  | Some (FormRefNode n) => (default [] (guid_at h (RefFormSetId n)), RefFormId n)
  | _ => ([], 0)
  end.

Lemma ref_key_same h h' p : same_forms h h' → h' !! p = h !! p → ref_ok h p → ref_key h' p = ref_key h p.
Proof.
  intros Hs Hp (n & Hn & [u Hu]). unfold ref_key. rewrite Hp, Hn, Hu.
  unfold guid_at. by erewrite bytes_at_same.
Qed.

Definition ref_keys s : list (list Z * Z) := ref_key (heap s) <$> mFormRefList s.

Lemma ref_listed_run s ps g u i : (∀ p, p ∈ ps → ref_ok (heap s) p) → guid_at (heap s) g = Some u →
  ref_listed ps g i s = Some (bool_decide ((u, i) ∈ ref_key (heap s) <$> ps), s).
Proof.
  intros Hps Hg. induction ps as [|p ps IH]; [done|]. destruct (Hps p) as (n & Hn & [v Hv]); [by left|].
  cbn [ref_listed]. apply wp_run. wp_seq. eapply wp_formref_of; [done|]. wp_seq.
  eapply run_wp; [by apply CompareGuid_run|].
  assert (Hk : ref_key (heap s) p = (v, RefFormId n)) by (unfold ref_key; by rewrite Hn, Hv).
  destruct (bool_decide (u = v) && (i =? RefFormId n)) eqn:Hb.
  - bool_hyps. case_bool_decide; [|done]. subst. wp_seq. split; [done|].
    rewrite bool_decide_true; [done|]. rewrite fmap_cons, Hk. by left.
  - eapply run_wp; [apply IH; intros q Hq; apply Hps; by right|]. split; [done|]. apply bool_decide_ext.
    rewrite fmap_cons, Hk, elem_of_cons. split; [by right|]. intros [[= -> ->]|?]; [|done].
    by rewrite bool_decide_true, Z.eqb_refl in Hb.
Qed.
End inv.

(** ** The steps of the attribute question library

    Each change of the three lists keeps the invariant: a new question, a new
    reference, and the release of references and questions. *)

Section steps.
Context `{HiiDatabase, HiiPool}.
Implicit Types (s : hii_state) (h : pool_mem) (p q : positive) (x g : ptr) (G : list (list Z)).

(** ** The lists as fields of the state *)

Record list_field := ListField {
  lf_get : hii_state → list positive;
  lf_set : list positive → hii_state → hii_state;
  lf_get_set l s : lf_get (lf_set l s) = l;
  lf_set_set l l' s : lf_set l (lf_set l' s) = lf_set l s;
  lf_set_get s : lf_set (lf_get s) s = s;
  lf_get_heap s h : lf_get (with_heap s h) = lf_get s;
  lf_set_heap l s h : lf_set l (with_heap s h) = with_heap (lf_set l s) h;
  lf_heap l s : heap (lf_set l s) = heap s }.

Definition set_refs (l : list positive) s : hii_state :=
  HiiState (heap s) (mFormSetList s) l (gAttributeQuestionList s).
Definition set_questions (l : list positive) s : hii_state :=
  HiiState (heap s) (mFormSetList s) (mFormRefList s) l.

Definition refs_field : list_field.
Proof. by refine (ListField mFormRefList set_refs _ _ _ _ _ _); intros; destruct s || idtac. Defined.
Definition questions_field : list_field.
Proof. by refine (ListField gAttributeQuestionList set_questions _ _ _ _ _ _); intros; destruct s || idtac. Defined.

(** Releasing all nodes of a list. *)
Lemma free_nodes_spec {A} (F : list_field) (node_of : positive → M A) remove (is_node : block → Prop) s
    (Q : unit → hii_state → Prop) :
  (∀ p s b, heap s !! p = Some b → is_node b → ∃ n, node_of p s = Some (n, s)) →
  (∀ p s, remove p s = Some (tt, lf_set F (remove_entry p (lf_get F s)) s)) →
  (∀ p, p ∈ lf_get F s → ∃ b, heap s !! p = Some b ∧ is_node b) → NoDup (lf_get F s) →
  (∀ h', (∀ q, q ∈ lf_get F s → h' !! q = None) → (∀ q, q ∉ lf_get F s → h' !! q = heap s !! q) →
     Q tt (with_heap (lf_set F [] s) h')) →
  wp (free_nodes node_of remove (lf_get F s)) Q s.
Proof.
  intros Hnode Hrem. remember (lf_get F s) as ps eqn:Hps. revert s Q Hps.
  induction ps as [|p ps IH]; intros s Q Hps Hok Hnd HQ; cbn [free_nodes].
  { wp_seq. rewrite <-(with_heap_same s), <-(lf_set_get F s), <-Hps.
    rewrite <-(with_heap_same (lf_set F [] s)), lf_heap. apply HQ; [set_solver|done]. }
  apply NoDup_cons in Hnd as [Hp Hnd]. destruct (Hok p) as (b & Hb & Hnb); [by left|].
  destruct (Hnode p s b Hb Hnb) as [n Hn]. wp_seq. eapply run_wp; [exact Hn|]. wp_seq. eapply run_wp; [apply Hrem|].
  rewrite <-Hps, remove_entry_head by done. wp_seq. apply wp_free; [by rewrite lf_heap, Hb|].
  rewrite lf_heap. eapply IH; [by rewrite lf_get_heap, lf_get_set| |done|].
  - intros q Hq. cbn. rewrite lookup_delete_ne by (intros ->; done). apply Hok. by right.
  - cbn. intros h' Hin Hout. rewrite lf_set_heap, lf_set_set. apply (HQ h').
    + intros q [->|Hq]%elem_of_cons; [by rewrite Hout, lookup_delete_eq|by apply Hin].
    + intros q [Hqp Hq]%not_elem_of_cons. by rewrite Hout, lookup_delete_ne.
Qed.

(** ** From one state to a later one *)

(** Questions are only added, buffers and form sets stay. *)
Record aq_le s s' : Prop := AqLe {
  al_forms : same_forms (heap s) (heap s');
  al_formsets : mFormSetList s' = mFormSetList s;
  al_questions : ∃ qs, gAttributeQuestionList s' = gAttributeQuestionList s ++ qs;
  al_nodes p : p ∈ gAttributeQuestionList s → heap s' !! p = heap s !! p }.

#[export] Instance aq_le_preorder : PreOrder aq_le.
Proof.
  split.
  - intros s. split; [done|done|exists []; by rewrite app_nil_r|done].
  - intros s1 s2 s3 [Hf1 Hl1 [q1 Hq1] Hn1] [Hf2 Hl2 [q2 Hq2] Hn2]. split.
    + by etrans.
    + congruence.
    + exists (q1 ++ q2). by rewrite Hq2, Hq1, app_assoc.
    + intros p Hp. rewrite Hn2, Hn1; [done..|]. rewrite Hq1. set_solver.
Qed.

Lemma aq_le_elem s s' p : aq_le s s' → p ∈ gAttributeQuestionList s → p ∈ gAttributeQuestionList s'.
Proof. intros [_ _ [qs ->] _] Hp. set_solver. Qed.

(** The references [xs] have been added. *)
Record refs_kept s s' (xs : list positive) : Prop := RefsKept {
  rk_refs : mFormRefList s' = mFormRefList s ++ xs;
  rk_nodes p : p ∈ mFormRefList s → heap s' !! p = heap s !! p }.

Lemma refs_kept_refl s : refs_kept s s [].
Proof. split; [by rewrite app_nil_r|done]. Qed.

Lemma refs_kept_trans s1 s2 s3 xs ys : refs_kept s1 s2 xs → refs_kept s2 s3 ys → refs_kept s1 s3 (xs ++ ys).
Proof.
  intros [H1 Hn1] [H2 Hn2]. split; [by rewrite H2, H1, app_assoc|].
  intros p Hp. rewrite Hn2, Hn1; [done..|]. rewrite H1. set_solver.
Qed.

Lemma refs_kept_keys G s s' xs : aq_inv G s → same_forms (heap s) (heap s') → refs_kept s s' xs →
  ref_keys s' = ref_keys s ++ (ref_key (heap s') <$> xs).
Proof.
  intros Hi Hs [Hr Hn]. unfold ref_keys. rewrite Hr, fmap_app. f_equal. apply list_fmap_ext. intros i p Hp.
  apply list_elem_of_lookup_2 in Hp. apply ref_key_same; [done|by apply Hn|by apply (ai_refs _ _ Hi)].
Qed.

(** The invariant depends on the blocks of the lists only. *)
Lemma aq_inv_later G s s' : aq_inv G s → same_forms (heap s) (heap s') → mFormSetList s' = mFormSetList s →
  questions_ok (heap s') (gAttributeQuestionList s') →
  (∀ p, p ∈ mFormRefList s' → ref_ok (heap s') p) → NoDup (mFormRefList s') → aq_inv G s'.
Proof.
  intros Hi Hs Hl Hq Hr Hnd. split; [|done..]. intros p Hp. rewrite Hl in Hp.
  eapply formset_wf_same; [done|by apply (ai_formsets _ _ Hi)].
Qed.

Lemma aq_inv_fresh G s p : aq_inv G s → heap s !! p = None → (p ∉ gAttributeQuestionList s) ∧ p ∉ mFormRefList s.
Proof.
  intros Hi Hp. split.
  - intros [i Hpi]%list_elem_of_lookup. destruct (qo_node _ _ (ai_questions _ _ Hi) _ _ Hpi) as (? & ? & _). congruence.
  - intros (? & ? & _)%(ai_refs _ _ Hi). congruence.
Qed.

Lemma aq_inv_disjoint G s p : aq_inv G s → p ∈ gAttributeQuestionList s → p ∈ mFormRefList s → False.
Proof.
  intros Hi [i Hpi]%list_elem_of_lookup (n & Hn & _)%(ai_refs _ _ Hi).
  destruct (qo_node _ _ (ai_questions _ _ Hi) _ _ Hpi) as (? & ? & _). congruence.
Qed.

(** ** A new question *)

Definition push_question s p (n : AQ_NODE) : hii_state :=
  HiiState (<[p := AqNode n]> (<[p := Zeroed]> (heap s))) (mFormSetList s) (mFormRefList s)
    (gAttributeQuestionList s ++ [p]).

Lemma insert_twice_ne h p q b c : q ≠ p → (<[p := b]> (<[p := c]> h)) !! q = h !! q.
Proof. intros Hq. by rewrite !lookup_insert_ne. Qed.

Lemma same_forms_push h p b c : h !! p = None → same_forms h (<[p := b]> (<[p := c]> h)).
Proof. intros Hp q d Hq _. rewrite insert_twice_ne; [done|congruence]. Qed.

Lemma push_question_le G s p n : aq_inv G s → heap s !! p = None →
  aq_le s (push_question s p n) ∧ refs_kept s (push_question s p n) [].
Proof.
  intros Hi Hp. destruct (aq_inv_fresh _ _ _ Hi Hp) as [Hpq Hpr]. split; split; cbn.
  - by apply same_forms_push.
  - done.
  - by eexists.
  - intros q Hq. apply insert_twice_ne. by intros ->.
  - by rewrite app_nil_r.
  - intros q Hq. apply insert_twice_ne. by intros ->.
Qed.

Lemma push_question_inv G s p n : aq_inv G s → heap s !! p = None →
  is_Some (guid_at (heap s) (PageFormSetId (ThisPage n))) →
  (∀ q, PrevPage n = Some q → q ∈ gAttributeQuestionList s) → aq_inv G (push_question s p n).
Proof.
  intros Hi Hp Hg Hprev. destruct (aq_inv_fresh _ _ _ Hi Hp) as [Hpq Hpr].
  destruct (push_question_le G s p n Hi Hp) as [Hle Hrk]. assert (Hs := al_forms _ _ Hle).
  eapply aq_inv_later; [done|done|done| | |apply (ai_refs_nodup _ _ Hi)].
  - destruct (ai_questions _ _ Hi) as [Hnd Hn]. split; cbn.
    + apply NoDup_app. split_and!; [done| |apply NoDup_singleton]. intros q Hq ->%list_elem_of_singleton. done.
    + intros i q [Hq|[Hlen Hq]]%lookup_app_Some.
      * destruct (Hn i q Hq) as (nq & Hnq & Hgq & Hpr2). exists nq. split_and!.
        -- rewrite insert_twice_ne; [done|]. intros ->. by eapply Hpq, list_elem_of_lookup_2.
        -- by eapply guid_some_same.
        -- intros r Hr. destruct (Hpr2 r Hr) as (j & Hj & Hjr). exists j. split; [done|]. by apply lookup_app_l_Some.
      * apply list_lookup_singleton_Some in Hq as [Hz <-]. exists n. split_and!; [apply lookup_insert_eq|by eapply guid_some_same|].
        intros r Hr. apply Hprev, list_elem_of_lookup in Hr as [j Hj]. exists j.
        split; [apply lookup_lt_Some in Hj; lia|by apply lookup_app_l_Some].
  - cbn. intros q Hq. eapply ref_ok_same; [done|by apply (rk_nodes _ _ _ Hrk)|by apply (ai_refs _ _ Hi)].
Qed.

(** ** A new reference *)

Definition push_ref s p (n : FORMREF_NODE) : hii_state :=
  HiiState (<[p := FormRefNode n]> (<[p := Zeroed]> (heap s))) (mFormSetList s) (mFormRefList s ++ [p])
    (gAttributeQuestionList s).

Lemma push_ref_le G s p n : aq_inv G s → heap s !! p = None →
  aq_le s (push_ref s p n) ∧ refs_kept s (push_ref s p n) [p].
Proof.
  intros Hi Hp. destruct (aq_inv_fresh _ _ _ Hi Hp) as [Hpq Hpr]. split; split; cbn.
  - by apply same_forms_push.
  - done.
  - exists []. by rewrite app_nil_r.
  - intros q Hq. apply insert_twice_ne. by intros ->.
  - done.
  - intros q Hq. apply insert_twice_ne. by intros ->.
Qed.

Lemma push_ref_inv G s p n : aq_inv G s → heap s !! p = None → is_Some (guid_at (heap s) (RefFormSetId n)) →
  aq_inv G (push_ref s p n).
Proof.
  intros Hi Hp Hg. destruct (aq_inv_fresh _ _ _ Hi Hp) as [Hpq Hpr].
  destruct (push_ref_le G s p n Hi Hp) as [Hle Hrk]. assert (Hs := al_forms _ _ Hle).
  eapply aq_inv_later; [done|done|done| | |]; cbn.
  - eapply questions_ok_same; [done|apply (al_nodes _ _ Hle)|apply (ai_questions _ _ Hi)].
  - intros q [Hq| ->%list_elem_of_singleton]%elem_of_app.
    + eapply ref_ok_same; [done|by apply (rk_nodes _ _ _ Hrk)|by apply (ai_refs _ _ Hi)].
    + exists n. split; [apply lookup_insert_eq|by eapply guid_some_same].
  - apply NoDup_app. split_and!; [apply (ai_refs_nodup _ _ Hi)| |apply NoDup_singleton].
    by intros q Hq ->%list_elem_of_singleton.
Qed.

(** ** Releasing references and questions *)

(** Blocks [ps] are gone, and the list of references is [l]. *)
Lemma refs_freed G s h' (l ps : list positive) : aq_inv G s → (∀ p, p ∈ ps → p ∈ mFormRefList s) → (∀ q, q ∉ ps → h' !! q = heap s !! q) →
  (∀ p, p ∈ l → p ∈ mFormRefList s ∧ p ∉ ps) → NoDup l →
  aq_inv G (with_heap (set_refs l s) h') ∧ aq_le s (with_heap (set_refs l s) h').
Proof.
  intros Hi Hps Hr Hl Hnd. assert (Hs : same_forms (heap s) h').
  { eapply same_forms_without; [|exact Hr]. intros p (n & Hn & _)%Hps%(ai_refs _ _ Hi). by eexists. }
  assert (Hq : ∀ p, p ∈ gAttributeQuestionList s → h' !! p = heap s !! p).
  { intros p Hp. apply Hr. intros Hpp. eapply aq_inv_disjoint; eauto. }
  split.
  - eapply aq_inv_later; [done|done|done| | |done]; cbn.
    + eapply questions_ok_same; [done|exact Hq|apply (ai_questions _ _ Hi)].
    + intros p [Hp Hpp]%Hl. eapply ref_ok_same; [done|by apply Hr|by apply (ai_refs _ _ Hi)].
  - split; [done|done|exists []; by rewrite app_nil_r|done].
Qed.

Lemma reset_refs_spec G s (Q : unit → hii_state → Prop) : aq_inv G s →
  (∀ s', aq_inv G s' → aq_le s s' → gAttributeQuestionList s' = gAttributeQuestionList s → mFormRefList s' = [] → Q tt s') → wp (reset_refs true) Q s.
Proof.
  intros Hi HQ. unfold reset_refs. wp_seq. eapply run_wp; [done|].
  apply (free_nodes_spec refs_field formref_of remove_formref (λ b, ∃ n, b = FormRefNode n) s); [| |..|].
  - intros p s1 b Hp [n ->]. exists n. apply wp_run. by eapply wp_formref_of.
  - done.
  - cbn. intros p (n & Hn & _)%(ai_refs _ _ Hi). by eauto.
  - apply (ai_refs_nodup _ _ Hi).
  - cbn. intros h' Hin Hout. destruct (refs_freed G s h' [] (mFormRefList s)) as [Hi' Hle]; try done; [set_solver|constructor|].
    by apply HQ.
Qed.

Lemma pop_ref_spec G s Status (Q : unit → hii_state → Prop) : aq_inv G s → Status ≠ RETURN_NOT_READY →
  (∀ s', aq_inv G s' → aq_le s s' → gAttributeQuestionList s' = gAttributeQuestionList s →
     (∀ l (r : positive), mFormRefList s = l ++ [r] → mFormRefList s' = l ∧ ∀ p, p ∈ l → heap s' !! p = heap s !! p) → Q tt s') →
  wp (pop_ref Status) Q s.
Proof.
  intros Hi Hst HQ. unfold pop_ref. rewrite (proj2 (Z.eqb_neq _ _)) by done. wp_seq. eapply run_wp; [done|].
  destruct (last (mFormRefList s)) as [r|] eqn:Hlast.
  2:{ wp_seq. apply HQ; [done..|]. intros l y Hl. by rewrite Hl, last_snoc in Hlast. }
  apply last_Some in Hlast as [l Hl]. destruct (ai_refs _ _ Hi r) as (n & Hn & Hg); [rewrite Hl; set_solver|].
  assert (Hnd := ai_refs_nodup _ _ Hi). rewrite Hl in Hnd. apply NoDup_app in Hnd as (Hnd & Hx & _).
  assert (Hxl : r ∉ l) by (intros Hin; apply (Hx r Hin); by left).
  wp_seq. eapply wp_formref_of; [done|]. wp_seq. eapply run_wp; [done|]. apply wp_free; [by eexists|].
  assert (Hrem : remove_entry r (mFormRefList s) = l).
  { rewrite Hl. unfold remove_entry. rewrite filter_app, filter_cons_False, app_nil_r by tauto.
    clear -Hxl. induction l as [|y l IH]; [done|]. apply not_elem_of_cons in Hxl as [Hxy Hxl].
    rewrite filter_cons_True by done. by rewrite IH. }
  destruct (refs_freed G s (delete r (heap s)) l [r]) as [Hi' Hle].
  - done.
  - intros p ->%list_elem_of_singleton. rewrite Hl. set_solver.
  - intros q Hq%not_elem_of_cons. by rewrite lookup_delete_ne by naive_solver.
  - intros p Hp. rewrite Hl. split; [set_solver|]. intros ->%list_elem_of_singleton. done.
  - done.
  - rewrite Hrem. apply HQ; [done..|]. intros l' y Hl'. rewrite Hl in Hl'. apply app_inj_tail in Hl' as [-> ->].
    split; [done|]. intros p Hp. cbn. rewrite lookup_delete_ne by (by intros ->). done.
Qed.

Lemma free_questions_spec G s (Q : unit → hii_state → Prop) : aq_inv G s →
  (∀ s', aq_inv G s' → same_forms (heap s) (heap s') → mFormSetList s' = mFormSetList s →
     gAttributeQuestionList s' = [] → Q tt s') →
  wp (l ← get_QuestionList; free_nodes question_of remove_question l) Q s.
Proof.
  intros Hi HQ. wp_seq. eapply run_wp; [done|].
  assert (Hnode : ∀ p, p ∈ gAttributeQuestionList s → ∃ n, heap s !! p = Some (AqNode n)).
  { intros p [i Hp]%list_elem_of_lookup. destruct (qo_node _ _ (ai_questions _ _ Hi) _ _ Hp) as (n & Hn & _). by exists n. }
  apply (free_nodes_spec questions_field question_of remove_question (λ b, ∃ n, b = AqNode n) s); [| |..|].
  - intros p s1 b Hp [n ->]. exists n. apply wp_run. by eapply wp_question_of.
  - done.
  - cbn. intros p [n Hn]%Hnode. by eauto.
  - apply (qo_nodup _ _ (ai_questions _ _ Hi)).
  - cbn. intros h' Hin Hout. assert (Hs : same_forms (heap s) h').
    { eapply same_forms_without; [|exact Hout]. intros p [n Hn]%Hnode. by eauto. }
    apply HQ; [|done..]. eapply aq_inv_later; [done|done|done| | |apply (ai_refs_nodup _ _ Hi)]; cbn.
    + split; [constructor|]. by intros i p Hp.
    + intros p Hp. eapply ref_ok_same; [done| |by apply (ai_refs _ _ Hi)]. apply Hout. intros Hq. by eapply aq_inv_disjoint.
Qed.
End steps.
