(* ===== verification/HiiUrl.v ===== *)
(** * The path of a question

    AttributeQuestionGetUrl climbs from a question to the form set, and writes the
    names that it has met into a buffer of fixed size. *)
From S2P Require Import Prelude CBase HiiTree HiiMem HiiString HiiLookup HiiForms HiiInv.
Local Open Scope Z_scope.

Section url.
Context `{HiiDatabase, HiiPool}.
Implicit Types (s : hii_state) (h : pool_mem) (p q : positive) (us : list positive).

(** ** The specification *)

(** The nodes from a question up to one that has no previous page. *)
Inductive path_up h : positive → list AQ_NODE → Prop :=
  | path_root p n : h !! p = Some (AqNode n) → PrevPage n = None → path_up h p [n]
  | path_step p n q ns : h !! p = Some (AqNode n) → PrevPage n = Some q → path_up h q ns → path_up h p (n :: ns).

(** A handle, and the identifier of a string of it. *)
Abbreviation name := (Z * Z)%type.

Definition prompt_name (n : AQ_NODE) : name := (PageHandle (ThisPage n), Prompt n).

Definition root_names (n : AQ_NODE) : list name :=
  [(PageHandle (ThisPage n), PageFormSetTitle (ThisPage n)); (PageHandle (ThisPage n), PageFormTitle (ThisPage n))].

(** Form set, form, and the prompts from the first reference down to the question. *)
Definition path_names (ns : list AQ_NODE) : list name :=
  match last ns with Some n => root_names n | None => [] end ++ reverse (prompt_name <$> ns).

(** HiiGetString can be called on the names of a node. *)
Definition named_question h p : Prop := ∀ n, h !! p = Some (AqNode n) →
  PageHandle (ThisPage n) ≠ 0 ∧ Prompt n ≠ 0 ∧ PageFormSetTitle (ThisPage n) ≠ 0 ∧ PageFormTitle (ThisPage n) ≠ 0.

Definition add_text (Url : list Z) (t : option (list Z)) : list Z :=
  StrCatS (StrCatS Url QUESTION_URL_LENGTH (Some QUESTION_URL_SLASH)) QUESTION_URL_LENGTH t.

Definition url_of_texts (ts : list (option (list Z))) : list Z := foldl add_text [] ts.

(** The texts of names, and memory with a block for each of them. *)
Definition texts (names : list name) (ts : list (option (list Z))) : Prop := Forall2 (λ nm, obtained nm.1 nm.2) names ts.

Inductive leaked : pool_mem → list (option (list Z)) → pool_mem → Prop :=
  | leaked_nil h : leaked h [] h
  | leaked_cons h o r h1 ts h2 : stored h o r h1 → leaked h1 ts h2 → leaked h (o :: ts) h2.

(** What AttributeQuestionGetUrl returns for the question [p]: a new string, or NULL.
    The texts of the names are never freed. *)
Definition url_result s p (Result : option positive) s' : Prop := ∃ n ns, path_up (heap s) p (n :: ns) ∧
  match Result with
  | Some u => Type_ n = AQ_QUESTION ∧ ∃ ts h', texts (path_names (n :: ns)) ts ∧ leaked (heap s) ts h' ∧ h' !! u = None ∧
      s' = with_heap s (<[u := Chars (url_of_texts ts)]> h') ∧ Z.of_nat (length (url_of_texts ts)) < QUESTION_URL_LENGTH
  | None => Type_ n ≠ AQ_QUESTION ∧ s' = s ∨
      pool_fails ∧ ∃ ts h', (ts = [] ∨ texts (path_names (n :: ns)) ts) ∧ leaked (heap s) ts h' ∧ s' = with_heap s h'
  end.

(** ** The buffer is not overrun *)

Lemma StrCatS_bound url n src : Z.of_nat (length url) < n → Z.of_nat (length (StrCatS url n src)) < n.
Proof.
  intros Hu. unfold StrCatS. destruct src as [t|]; [|done]. destruct (_ =? 0); [done|].
  destruct (Z.ltb_spec (Z.of_nat (length t)) (n - Z.of_nat (length url))); [|done]. rewrite length_app. lia.
Qed.

Lemma url_of_texts_bound ts : Z.of_nat (length (url_of_texts ts)) < QUESTION_URL_LENGTH.
Proof.
  unfold url_of_texts. assert (Hnil : Z.of_nat (length (@nil Z)) < QUESTION_URL_LENGTH) by done. revert Hnil.
  generalize (@nil Z) as url. induction ts as [|t ts IH]; intros url Hu; [done|]. cbn [foldl].
  apply IH. by do 2 apply StrCatS_bound.
Qed.

(** ** The nodes of a path *)

Lemma path_exists h l i p : questions_ok h l → l !! i = Some p → ∃ ns, path_up h p ns ∧ (length ns ≤ S i)%nat.
Proof.
  intros Hq. revert p. induction i as [i IH] using lt_wf_ind. intros p Hi.
  destruct (qo_node _ _ Hq _ _ Hi) as (n & Hn & _ & Hprev). destruct (PrevPage n) as [q|] eqn:Hp.
  - destruct (Hprev q) as (j & Hj & Hjq); [done|]. destruct (IH j Hj q Hjq) as (ns & Hns & Hlen).
    exists (n :: ns). split; [by eapply path_step|]. cbn. lia.
  - exists [n]. split; [by apply path_root|]. cbn. lia.
Qed.

Lemma path_up_head h p ns : path_up h p ns → ∃ n ns', ns = n :: ns' ∧ h !! p = Some (AqNode n).
Proof. destruct 1; by eauto. Qed.

Lemma path_in_list h l i p ns : questions_ok h l → l !! i = Some p → path_up h p ns →
  Forall (λ n, ∃ q, q ∈ l ∧ h !! q = Some (AqNode n)) ns.
Proof.
  intros Hq Hi Hns. revert i Hi. induction Hns as [p n Hn Hprev|p n q ns Hn Hprev Hns IH]; intros i Hi.
  - repeat constructor. exists p. split; [by eapply list_elem_of_lookup_2|done].
  - constructor; [exists p; split; [by eapply list_elem_of_lookup_2|done]|].
    destruct (qo_node _ _ Hq _ _ Hi) as (n2 & Hn2 & _ & Hpq). simplify_eq.
    destruct (Hpq q Hprev) as (j & _ & Hj). by eapply IH.
Qed.

Lemma path_names_named h l i p ns : questions_ok h l → (∀ q, q ∈ l → named_question h q) → l !! i = Some p →
  path_up h p ns → Forall (λ nm, nm.1 ≠ 0 ∧ nm.2 ≠ 0) (path_names ns).
Proof.
  intros Hq Hnamed Hi Hp. pose proof (path_in_list _ _ _ _ _ Hq Hi Hp) as Hall.
  assert (Forall (λ n, PageHandle (ThisPage n) ≠ 0 ∧ Prompt n ≠ 0 ∧ PageFormSetTitle (ThisPage n) ≠ 0 ∧ PageFormTitle (ThisPage n) ≠ 0) ns) as Hn.
  { eapply Forall_impl; [exact Hall|]. intros n (q & Hin & Hn). by apply (Hnamed q). }
  unfold path_names. apply Forall_app. split.
  - destruct (last ns) as [n|] eqn:Hlast; [|constructor]. apply last_Some_elem_of in Hlast.
    rewrite Forall_forall in Hn. specialize (Hn n Hlast). repeat constructor; cbn; tauto.
  - rewrite Forall_reverse, Forall_fmap. eapply Forall_impl; [exact Hn|]. cbn. tauto.
Qed.

(** The heap is large enough for the fuel of the way up. *)
Lemma questions_fit h l : questions_ok h l → (length l ≤ size h)%nat.
Proof.
  intros [Hnd Hnode]. rewrite <-size_dom, <-(size_list_to_set (C := gset positive) l) by done. apply subseteq_size.
  intros p [i Hi]%elem_of_list_to_set%list_elem_of_lookup. destruct (Hnode i p Hi) as (n & Hn & _). by eapply elem_of_dom_2.
Qed.

Lemma path_names_snoc ns n : path_names (ns ++ [n]) = root_names n ++ prompt_name n :: reverse (prompt_name <$> ns).
Proof. unfold path_names. by rewrite last_snoc, fmap_app, reverse_app. Qed.

(** The URL nodes [us] hold [names], and the rest of the heap is [h0]. *)
Record url_nodes h0 h us (names : list name) : Prop := UrlNodes {
  un_node : Forall2 (λ p nm, h !! p = Some (UrlNode (UrlNode_ nm.1 nm.2))) us names;
  un_nodup : NoDup us;
  un_new p : p ∈ us → h0 !! p = None;
  un_rest q : q ∉ us → h !! q = h0 !! q }.

Lemma url_nodes_nil h : url_nodes h h [] [].
Proof. split; [constructor|constructor|set_solver|done]. Qed.

Lemma url_nodes_fresh h0 h us names p : url_nodes h0 h us names → h !! p = None → p ∉ us.
Proof.
  intros [Hn _ _ _] Hp [i Hi]%list_elem_of_lookup. destruct (Forall2_lookup_l _ _ _ _ _ Hn Hi) as (? & _ & ?). congruence.
Qed.

Lemma url_nodes_cons h0 h us names p nm : url_nodes h0 h us names → h !! p = None →
  url_nodes h0 (<[p := UrlNode (UrlNode_ nm.1 nm.2)]> (<[p := Zeroed]> h)) (p :: us) (nm :: names).
Proof.
  intros Hu Hp. assert (Hpu := url_nodes_fresh _ _ _ _ _ Hu Hp). destruct Hu as [Hn Hnd Hnew Hr]. split.
  - constructor; [apply lookup_insert_eq|]. eapply Forall2_impl; [exact Hn|]. cbn. intros q nm' Hq.
    by rewrite !lookup_insert_ne by congruence.
  - by constructor.
  - intros q [->|Hq]%elem_of_cons; [by rewrite <-Hr|by apply Hnew].
  - intros q [Hqp Hq]%not_elem_of_cons. rewrite !lookup_insert_ne by done. by apply Hr.
Qed.

(** A block beside the nodes. *)
Lemma url_nodes_insert h0 h us names p b : url_nodes h0 h us names → h !! p = None →
  url_nodes (<[p := b]> h0) (<[p := b]> h) us names.
Proof.
  intros Hu Hp. assert (Hpu := url_nodes_fresh _ _ _ _ _ Hu Hp). destruct Hu as [Hn Hnd Hnew Hr]. split.
  - eapply Forall2_impl; [exact Hn|]. cbn. intros q nm' Hq. by rewrite lookup_insert_ne by congruence.
  - done.
  - intros q Hq. rewrite lookup_insert_ne; [by apply Hnew|]. by intros ->.
  - intros q Hq. destruct (decide (q = p)) as [->|]; [by rewrite !lookup_insert_eq|].
    rewrite !lookup_insert_ne by done. by apply Hr.
Qed.

Lemma url_nodes_aq h0 h us names p n : url_nodes h0 h us names → h0 !! p = Some (AqNode n) → h !! p = Some (AqNode n).
Proof. intros [_ _ Hnew Hr] Hp. rewrite Hr; [done|]. intros Hin%Hnew. congruence. Qed.

Lemma wp_push_url h0 us names hd nm s (Q : option (list positive) → hii_state → Prop) :
  url_nodes h0 (heap s) us names → (pool_fails → Q None s) →
  (∀ p h', url_nodes h0 h' (p :: us) ((hd, nm) :: names) → Q (Some (p :: us)) (with_heap s h')) →
  wp (push_url hd nm us) Q s.
Proof.
  intros Hu Hnone HQ. unfold push_url. wp_seq. apply wp_alloc; [intros Hp; wp_seq; by apply Hnone|].
  intros p Hp. wp_seq. apply wp_store; [cbn; by rewrite lookup_insert_eq|]. wp_seq.
  apply (HQ p). by apply (url_nodes_cons _ _ _ _ p (hd, nm)).
Qed.

Lemma wp_push_names h0 hd nms us names s (Q : bool * list positive → hii_state → Prop) :
  url_nodes h0 (heap s) us names →
  (∀ us' names' h', pool_fails → url_nodes h0 h' us' names' → Q (false, us') (with_heap s h')) →
  (∀ us' h', url_nodes h0 h' us' (reverse (pair hd <$> nms) ++ names) → Q (true, us') (with_heap s h')) →
  wp (push_names hd nms us) Q s.
Proof.
  revert us names s Q. induction nms as [|nm nms IH]; intros us names s Q Hu Hf Ht; cbn [push_names].
  { wp_seq. rewrite <-(with_heap_same s). by apply Ht. }
  wp_seq. eapply wp_push_url; [done| |].
  { intros Hp. wp_seq. rewrite <-(with_heap_same s). by eapply Hf. }
  intros p h' Hu'. eapply IH; [exact Hu'| |].
  - intros us' names' h2 Hp Hu2. by eapply Hf.
  - intros us' h2 Hu2. apply Ht. by rewrite fmap_cons, reverse_cons, <-app_assoc.
Qed.

(** The way up. *)
Lemma wp_url_loop fuel h0 l i p ns us names s (Q : bool * positive * list positive → hii_state → Prop) :
  questions_ok h0 l → l !! i = Some p → path_up h0 p ns → (length ns ≤ fuel)%nat → url_nodes h0 (heap s) us names →
  (∀ q us' names' h', pool_fails → url_nodes h0 h' us' names' → Q (false, q, us') (with_heap s h')) →
  (∀ q n ns' us' h', ns = ns' ++ [n] → h0 !! q = Some (AqNode n) →
     url_nodes h0 h' us' (reverse (prompt_name <$> ns') ++ names) → Q (true, q, us') (with_heap s h')) →
  wp (url_loop fuel p us) Q s.
Proof.
  intros Hq Hi Hns. revert i Hi fuel us names s Q.
  induction Hns as [p n Hn Hprev|p n q ns Hn Hprev Hns IH]; intros i Hi fuel us names s Q Hf Hu Hfail Hok;
    (destruct fuel as [|fuel]; [cbn in Hf; lia|]); cbn [url_loop]; wp_seq; unfold AttributeQuestionGetPrev; wp_seq;
    (eapply wp_question_of; [by eapply url_nodes_aq|]); rewrite Hprev.
  { wp_seq. rewrite <-(with_heap_same s). by apply (Hok p n []). }
  destruct (path_up_head _ _ _ Hns) as (nq & ns' & _ & Hnq).
  wp_seq. eapply wp_question_of; [by eapply url_nodes_aq|]. wp_seq.
  eapply wp_question_of; [by eapply url_nodes_aq|]. wp_seq. eapply wp_push_url; [done| |].
  { intros Hp. wp_seq. rewrite <-(with_heap_same s). by eapply Hfail. }
  intros u h' Hu'. destruct (qo_node _ _ Hq _ _ Hi) as (n2 & Hn2 & _ & Hpq). simplify_eq.
  destruct (Hpq q) as (j & _ & Hj); [done|]. eapply (IH j Hj); [cbn in Hf; lia|exact Hu'| |].
  - intros q' us' names' h2 Hp Hu2. by eapply Hfail.
  - intros q' n' ns2 us' h2 -> Hn' Hu2. apply (Hok q' n' (n :: ns2)); [done..|].
    by rewrite fmap_cons, reverse_cons, <-app_assoc.
Qed.

Lemma url_nodes_stored h0 h us names o r h' : url_nodes h0 h us names → stored h o r h' →
  ∃ h0', stored h0 o r h0' ∧ url_nodes h0' h' us names.
Proof.
  intros Hu [|t p Hp]; [exists h0; split; [constructor|done]|]. exists (<[p := Chars t]> h0).
  split; [|by apply url_nodes_insert]. constructor. rewrite <-(un_rest _ _ _ _ Hu); [done|]. by eapply url_nodes_fresh.
Qed.

Lemma wp_url_text US NAMES names us h0 url s (Q : list Z → hii_state → Prop) :
  Forall2 (λ p nm, ∀ h0 h, url_nodes h0 h US NAMES → h !! p = Some (UrlNode (UrlNode_ nm.1 nm.2))) us names →
  Forall (λ nm, nm.1 ≠ 0 ∧ nm.2 ≠ 0) names → url_nodes h0 (heap s) US NAMES →
  (∀ ts h0' h', texts names ts → leaked h0 ts h0' → url_nodes h0' h' US NAMES → Q (foldl add_text url ts) (with_heap s h')) →
  wp (url_text us url) Q s.
Proof.
  intros Hn. revert h0 url s Q. induction Hn as [|p nm us names Hp Hn IH]; intros h0 url s Q Hz Hu HQ; cbn [url_text].
  { wp_seq. rewrite <-(with_heap_same s). eapply (HQ []); [constructor|constructor|done]. }
  apply Forall_cons in Hz as [[Hh Hi] Hz]. wp_seq. eapply wp_url_of; [by eapply Hp|]. cbn [UrlHandle Name].
  wp_seq. eapply wp_mono; [apply (wp_text nm.1 nm.2 s (λ o, wp (url_text us (add_text url o)) Q)); [done..|]|intros r s'; apply wp_bind].
  intros o r h' Ho Hst.
  destruct (url_nodes_stored _ _ _ _ _ _ _ Hu Hst) as (h1 & Hst1 & Hu1).
  eapply (IH h1); [done|exact Hu1|]. intros ts h2 h3 Hts Hl Hu2.
  eapply (HQ (o :: ts)); [by constructor|by eapply leaked_cons|done].
Qed.

Lemma wp_url_done h0 us names r s (Q : option positive → hii_state → Prop) :
  url_nodes h0 (heap s) us names → Q r (with_heap s h0) → wp (url_done us r) Q s.
Proof.
  intros Hu HQ. unfold url_done. wp_seq. revert names s Hu HQ.
  induction us as [|p us IH]; intros names s [Hn Hnd Hnew Hr] HQ; cbn [free_nodes]; wp_seq.
  { replace s with (with_heap s h0); [done|]. destruct s. unfold with_heap. cbn in *. f_equal.
    apply map_eq. intros q. symmetry. apply Hr. set_solver. }
  apply Forall2_cons_inv_l in Hn as (nm & names' & Hp & Hn & ->). apply NoDup_cons in Hnd as [Hpu Hnd].
  eapply wp_url_of; [done|]. wp_seq. apply wp_free; [by eexists|].
  apply (IH names'); [|exact HQ]. cbn. split; [|done|set_solver|].
  - apply Forall2_same_length_lookup. split; [by eapply Forall2_length|]. intros i q nm' Hi Hi'.
    rewrite lookup_delete_ne by (intros ->; by eapply Hpu, list_elem_of_lookup_2).
    by apply (Forall2_lookup_lr _ _ _ _ _ _ Hn Hi Hi').
  - intros q Hq. destruct (decide (q = p)) as [->|Hqp].
    { rewrite lookup_delete_eq, Hnew by by left. done. }
    rewrite lookup_delete_ne by done. apply Hr. set_solver.
Qed.

(** ** The function *)

Lemma get_url_spec s (g : ptr) (id : Z) :
  questions_ok (heap s) (gAttributeQuestionList s) → is_Some (guid_at (heap s) g) →
  (∀ q, q ∈ gAttributeQuestionList s → named_question (heap s) q) →
  wp (AttributeQuestionGetUrl g id) (λ Result s',
    match search_result (question_matches (heap s) g id) (gAttributeQuestionList s) with
    | None => Result = None ∧ s' = s
    | Some p => url_result s p Result s'
    end) s.
Proof.
  intros Hq Hg Hnamed. unfold AttributeQuestionGetUrl. wp_seq. eapply run_wp; [by apply GetSelf_run|].
  destruct (search_result _ _) as [p|] eqn:Hp; [|by wp_seq].
  apply search_result_elem, list_elem_of_lookup in Hp as [i Hi].
  destruct (path_exists _ _ _ _ Hq Hi) as (ns0 & Hpath & Hlen).
  destruct (path_up_head _ _ _ Hpath) as (n & ns & -> & Hn). wp_seq. eapply wp_question_of; [done|].
  destruct (Type_ n) eqn:Hty; [|wp_seq; exists n, ns; split; [done|]; left; split; [congruence|done]..].
  wp_seq. unfold get_heap at 1. eapply run_wp; [done|]. wp_seq.
  assert (Hnull : ∀ us names ts h0 h', pool_fails → url_nodes h0 h' us names → (ts = [] ∨ texts (path_names (n :: ns)) ts) →
    leaked (heap s) ts h0 → wp (url_done us None) (url_result s p) (with_heap s h')).
  { intros us names ts h0 h' Hf Hu Hts Hl. eapply wp_url_done; [exact Hu|]. exists n, ns. split; [done|]. right. split; [done|].
    exists ts, h0. by split_and!. }
  eapply wp_url_loop; [done|done|done| |apply url_nodes_nil| |].
  { pose proof (questions_fit _ _ Hq). apply lookup_lt_Some in Hi. lia. }
  { intros q us names h' Hf Hu. cbn [negb]. eapply (Hnull us names []); [done|done|by left|constructor]. }
  intros q nq ns' us h' Hns Hnq Hu. cbn [negb]. wp_seq. eapply wp_question_of; [by eapply url_nodes_aq|]. wp_seq.
  eapply wp_push_names; [exact Hu| |].
  { intros us' names' h2 Hf Hu'. cbn [negb]. eapply (Hnull us' names' []); [done|done|by left|constructor]. }
  intros us' h2 Hu'. cbn [negb]. rewrite app_nil_r in Hu'. wp_seq.
  set (NAMES := reverse (pair (PageHandle (ThisPage nq)) <$> [Prompt nq; PageFormTitle (ThisPage nq); PageFormSetTitle (ThisPage nq)])
    ++ reverse (prompt_name <$> ns')) in *.
  assert (NAMES = path_names (n :: ns)) as EN by (by rewrite Hns, path_names_snoc).
  eapply (wp_url_text us' NAMES NAMES us'); [|rewrite EN; by eapply path_names_named|exact Hu'|].
  { pose proof (un_node _ _ _ _ Hu') as Hall. apply Forall2_same_length_lookup. split; [exact (Forall2_length _ _ _ Hall)|].
    intros j x nm Hx Hnm h0 h3 Hu3. by apply (Forall2_lookup_lr _ _ _ _ _ _ (un_node _ _ _ _ Hu3) Hx Hnm). }
  intros ts h0 h3 Hts Hl Hu3. rewrite EN in Hts. wp_seq. apply wp_alloc.
  { intros Hf. eapply Hnull; [done|exact Hu3|by right|done]. }
  intros u Hnu. eapply wp_url_done; [by apply url_nodes_insert|]. exists n, ns. split; [done|]. split; [done|].
  exists ts, h0. split_and!; [done|done| |done|apply url_of_texts_bound].
  rewrite <-(un_rest _ _ _ _ Hu3); [done|]. by eapply url_nodes_fresh.
Qed.

(** ** The debug output of all questions *)

(** Memory with more strings. *)
Definition more_strings h h' : Prop := h ⊆ h' ∧ ∀ p b, h' !! p = Some b → h !! p = None → ∃ t, b = Chars t.

#[export] Instance more_strings_preorder : PreOrder more_strings.
Proof.
  split; [intros h; split; [done|congruence]|]. intros h1 h2 h3 [H12 N12] [H23 N23]. split; [by etrans|].
  intros p b Hb Hp. destruct (h2 !! p) as [c|] eqn:Hc; [|by eapply N23].
  assert (h3 !! p = Some c) by by eapply lookup_weaken. simplify_eq. by eapply N12.
Qed.

Lemma leaked_strings h ts h' : leaked h ts h' → more_strings h h'.
Proof.
  induction 1 as [|h o r h1 ts h2 Hst Hl IH]; [done|]. etrans; [|exact IH]. destruct Hst as [|t p Hp]; [done|]. split.
  - by apply insert_subseteq.
  - intros q b [[<- <-]|[_ ?]]%lookup_insert_Some Hq; [by eexists|congruence].
Qed.

Lemma more_strings_same h h' : more_strings h h' → same_forms h h'.
Proof. intros [Hs _] q b Hq _. by eapply lookup_weaken. Qed.

Lemma more_strings_questions h h' l : more_strings h h' → questions_ok h l →
  questions_ok h' l ∧ (∀ p, p ∈ l → h' !! p = h !! p).
Proof.
  intros Hm Hq. assert (∀ p, p ∈ l → h' !! p = h !! p) as Hl.
  { intros p [i Hi]%list_elem_of_lookup. destruct (qo_node _ _ Hq _ _ Hi) as (n & Hn & _). rewrite Hn.
    by eapply lookup_weaken, (proj1 Hm). }
  split; [|done]. eapply questions_ok_same; [by apply more_strings_same|done|done].
Qed.

(** The paths of all questions: only the texts of their names are left behind. *)
Lemma print_urls_spec s ps : questions_ok (heap s) (gAttributeQuestionList s) →
  (∀ q, q ∈ gAttributeQuestionList s → named_question (heap s) q) →
  (∀ p, p ∈ ps → p ∈ gAttributeQuestionList s) →
  wp (print_urls ps) (λ _ s', ∃ h', s' = with_heap s h' ∧ more_strings (heap s) h') s.
Proof.
  revert s. induction ps as [|p ps IH]; intros s Hq Hnamed Hps; cbn [print_urls]; wp_seq.
  { exists (heap s). by rewrite with_heap_same. }
  assert (Hp : p ∈ gAttributeQuestionList s) by (apply Hps; by left). apply list_elem_of_lookup in Hp as [i Hi].
  destruct (qo_node _ _ Hq _ _ Hi) as (n & Hn & Hg & _). eapply wp_question_of; [done|]. wp_seq.
  assert (Hnext : ∀ s' h', s' = with_heap s h' → more_strings (heap s) h' →
    wp (print_urls ps) (λ _ s', ∃ h', s' = with_heap s h' ∧ more_strings (heap s) h') s').
  { intros s' h' -> Hm. destruct (more_strings_questions _ _ _ Hm Hq) as [Hq' Hl].
    eapply wp_mono; [apply IH; [done| |]|].
    - intros q Hin n' Hn'. cbn in Hin, Hn'. rewrite Hl in Hn' by done. by apply (Hnamed q).
    - intros q Hin. apply Hps. by right.
    - intros _ s2 (h2 & -> & Hm2). exists h2. split; [done|]. by etrans. }
  eapply wp_mono; [by apply get_url_spec|]. intros r s' Hr. wp_seq.
  destruct (search_result _ _) as [q|].
  2: { destruct Hr as [-> ->]. wp_seq. apply (Hnext _ (heap s)); [by rewrite with_heap_same|done]. }
  destruct Hr as (n2 & ns & _ & Hr). destruct r as [u|].
  - destruct Hr as (_ & ts & h' & _ & Hl & Hu & -> & _). apply wp_free; [cbn; by rewrite lookup_insert_eq|].
    cbn. rewrite delete_insert_id by done. apply (Hnext _ h'); [done|by eapply leaked_strings].
  - destruct Hr as [[_ ->]|(_ & ts & h' & _ & Hl & ->)]; wp_seq.
    + apply (Hnext _ (heap s)); [by rewrite with_heap_same|done].
    + apply (Hnext _ h'); [done|by eapply leaked_strings].
Qed.
End url.
