(* ===== verification/HiiQuestions.v ===== *)
(** * The list of questions

    AttributeQuestionListInit keeps the invariant and terminates: a reference to a
    form that is being listed already is not followed. *)
From S2P Require Import Prelude CBase HiiTree HiiMem HiiForms HiiLookup HiiInv.
Local Open Scope Z_scope.

Section questions.
Context `{HiiDatabase, HiiPool}.
Implicit Types (s : hii_state) (h : pool_mem) (p q : positive) (x g : ptr) (G : list (list Z)).

(** ** The opcodes of a form *)

Lemma ptr_add_add x a b : ptr_add (ptr_add x a) b = ptr_add x (a + b).
Proof. unfold ptr_add. cbn. by rewrite Z.add_assoc. Qed.

(** The opcode [o] at a distance from [x]. *)
Lemma op_at_form h x n pre o rest : bytes_at h x n = Some (encode_ops (pre ++ o :: rest)) → 0 ≤ n →
  ∃ pre0, ptr_add x (Z.of_nat (length (encode_ops pre))) = Ptr (blk x) (Z.of_nat (length pre0)) ∧ op_at h (blk x) pre0 o.
Proof.
  intros Hb Hn. apply bytes_at_inv in Hb as (pre1 & post & Hx & Hoff); [|done].
  exists (pre1 ++ encode_ops pre). split.
  - unfold ptr_add. f_equal. rewrite length_app. lia.
  - exists (encode_ops rest ++ post). by rewrite Hx, encode_ops_app, encode_ops_cons, !app_assoc.
Qed.

(** Bytes of an opcode. *)
Lemma bytes_of_op h x n pre o rest d m : bytes_at h x n = Some (encode_ops (pre ++ o :: rest)) →
  n = Z.of_nat (length (encode_ops (pre ++ o :: rest))) → 0 ≤ d → 0 ≤ m → d + m ≤ op_len o →
  bytes_at h (ptr_add (ptr_add x (Z.of_nat (length (encode_ops pre)))) d) m =
    Some (take (Z.to_nat m) (drop (Z.to_nat d) (encode_op o))).
Proof.
  intros Hb -> Hd Hm Hl. rewrite ptr_add_add. rewrite encode_ops_app, encode_ops_cons in *.
  pose proof (length_encode_op o). erewrite bytes_at_sub; [|exact Hb|lia|lia|rewrite !length_app; lia]. f_equal.
  replace (Z.to_nat (Z.of_nat (length (encode_ops pre)) + d)) with (length (encode_ops pre) + Z.to_nat d)%nat by lia.
  rewrite <-drop_drop, drop_app_length. rewrite drop_app_le by lia. rewrite take_app_le; [done|]. rewrite length_drop. lia.
Qed.

Lemma field_of_op h x n pre o rest d m : bytes_at h x n = Some (encode_ops (pre ++ o :: rest)) →
  n = Z.of_nat (length (encode_ops (pre ++ o :: rest))) → 0 ≤ d → 0 ≤ m → d + m ≤ op_len o →
  is_Some (field_at h (ptr_add x (Z.of_nat (length (encode_ops pre)))) d m).
Proof. intros Hb Hn Hd Hm Hl. unfold field_at. erewrite bytes_of_op by done. by eexists. Qed.

Lemma guid_of_op h x n pre o rest : bytes_at h x n = Some (encode_ops (pre ++ o :: rest)) →
  n = Z.of_nat (length (encode_ops (pre ++ o :: rest))) → sizeof_REF3 ≤ op_len o →
  guid_at h (Ref_FormSetId (ptr_add x (Z.of_nat (length (encode_ops pre))))) = Some (ref_guid o).
Proof.
  intros Hb Hn Hl. unfold guid_at, Ref_FormSetId. erewrite bytes_of_op; [|done..|unfold sizeof_GUID, sizeof_REF3 in *; lia].
  reflexivity.
Qed.

(** What the loop over a form reads in the nodes of form set and form. *)
Record form_here h (n : FORMSET_NODE) (f : FORM_NODE) (os : list ifr_op) : Prop := FormHere {
  fh_formset : ∃ x, FormSet n = Some x ∧ is_Some (field_at h x 18 2);
  fh_bytes : bytes_at h (Form f) (FormSize f) = Some (encode_ops os);
  fh_size : FormSize f = Z.of_nat (length (encode_ops os));
  fh_header : 6 ≤ FormSize f }.

Lemma form_here_same h h' n f os : same_forms h h' → form_here h n f os → form_here h' n f os.
Proof.
  intros Hs [(x & Hx & Ht) Hb Hz Hh]. split; [|by eapply bytes_at_same|done..].
  exists x. split; [done|by eapply field_some_same].
Qed.

Lemma form_here_field h n f os d : form_here h n f os → 0 ≤ d ≤ 4 → is_Some (field_at h (Form f) d 2).
Proof. intros [_ Hb _ Hh] Hd. eapply field_at_some; [exact Hb|lia..]. Qed.

(** A value that is read. *)
Lemma wp_field (Q : Z → hii_state → Prop) s x d m :
  is_Some (field_at (heap s) x d m) → (∀ v, field_at (heap s) x d m = Some v → Q v s) → wp (read_int (ptr_add x d) m) Q s.
Proof. intros [v Hv] HQ. eapply run_wp; [by apply field_run|by apply HQ]. Qed.

Lemma wp_this_page (Q : AQ_PAGE → hii_state → Prop) s n f os g i : form_here (heap s) n f os →
  (∀ t1 t2, Q (AqPage (FsHandle n) g t1 i t2) s) → wp (this_page n f g i) Q s.
Proof.
  intros Hf HQ. destruct (fh_formset _ _ _ _ Hf) as (x & Hx & Ht). unfold this_page. rewrite Hx. wp_seq.
  eapply run_wp; [done|]. wp_seq. apply wp_field; [done|]. intros t1 _. wp_seq.
  apply wp_field; [by eapply form_here_field|]. intros t2 _. by wp_seq.
Qed.

(** A new question is allocated, its fields are read, and it is stored. *)
Lemma wp_new_question (Q : option positive → hii_state → Prop) s : (pool_fails → Q None s) →
  (∀ p, heap s !! p = None →
     Q (Some p) (HiiState (<[p := Zeroed]> (heap s)) (mFormSetList s) (mFormRefList s) (gAttributeQuestionList s ++ [p]))) →
  wp new_question Q s.
Proof.
  intros Hnone HQ. unfold new_question. wp_seq. apply wp_alloc; [intros Hp; wp_seq; by apply Hnone|].
  intros p Hp. wp_seq. eapply run_wp; [done|]. wp_seq. by apply HQ.
Qed.

Lemma wp_store_question (Q : unit → hii_state → Prop) s p n : heap s !! p = None →
  Q tt (push_question s p n) →
  wp (store p (AqNode n)) Q (HiiState (<[p := Zeroed]> (heap s)) (mFormSetList s) (mFormRefList s) (gAttributeQuestionList s ++ [p])).
Proof. intros Hp HQ. apply wp_store; [cbn; by rewrite lookup_insert_eq|done]. Qed.

(** ** The questions of a form *)

Definition is_question (o : ifr_op) : bool :=
  AttributeQuestionIsOp (op_code o) || (op_code o =? EFI_IFR_REF_OP).

Definition question_type (o : ifr_op) : AQ_TYPE :=
  if AttributeQuestionIsOp (op_code o) then AQ_QUESTION
  else if sizeof_REF3 <=? op_len o then AQ_REF_FSET else AQ_REF_FORM.

(** The node [p] describes the opcode [o]. *)
Definition listed_as h Prev p (o : ifr_op) : Prop := ∃ n, h !! p = Some (AqNode n) ∧ PrevPage n = Prev ∧
  Type_ n = question_type o ∧ QuestionId n = little_endian (take 2 (drop 6 (encode_op o))) ∧
  Prompt n = little_endian (take 2 (drop 2 (encode_op o))).

Definition prev_of h p : option (option positive) :=
  match h !! p with Some (AqNode n) => Some (PrevPage n) | _ => None end.
Definition children h (Prev : option positive) (qs : list positive) : list positive :=
  filter (λ p, prev_of h p = Some Prev) qs.

(** The previous page of each of [qs] is [Prev] or that of another of [qs]. *)
Definition rooted h (Prev : option positive) (qs : list positive) : Prop :=
  ∀ p, p ∈ qs → prev_of h p = Some Prev ∨ ∃ q, q ∈ qs ∧ prev_of h p = Some (Some q).

(** Questions below [Prev] have been added, and no others. *)
Definition grown Prev s s' : Prop :=
  ∃ qs, gAttributeQuestionList s' = gAttributeQuestionList s ++ qs ∧ rooted (heap s') Prev qs.

(** And those directly below [Prev] are the questions of [os], in their order. *)
Definition lists_ops Prev (os : list ifr_op) s s' : Prop :=
  ∃ qs, gAttributeQuestionList s' = gAttributeQuestionList s ++ qs ∧ rooted (heap s') Prev qs ∧
    Forall2 (listed_as (heap s') Prev) (children (heap s') Prev qs) (filter (λ o, is_question o = true) os).

Lemma lists_ops_grown Prev os s s' : lists_ops Prev os s s' → grown Prev s s'.
Proof. intros (qs & Hqs & Hr & _). by exists qs. Qed.

Lemma rooted_nil h Prev : rooted h Prev [].
Proof. by intros p Hp%not_elem_of_nil. Qed.

Lemma lists_ops_nil Prev os s : filter (λ o, is_question o = true) os = [] → lists_ops Prev os s s.
Proof. intros Hos. exists []. rewrite Hos. split_and!; [by rewrite app_nil_r|apply rooted_nil|constructor]. Qed.

Lemma prev_of_same h h' p : h' !! p = h !! p → prev_of h' p = prev_of h p.
Proof. unfold prev_of. by intros ->. Qed.

Lemma children_ext h h' Prev qs : (∀ p, p ∈ qs → h' !! p = h !! p) → children h' Prev qs = children h Prev qs.
Proof.
  intros Hp. unfold children. induction qs as [|q qs IH]; [done|].
  assert (Hq : prev_of h' q = prev_of h q) by (apply prev_of_same, Hp; by left).
  rewrite !filter_cons, Hq, IH; [done|]. intros p Hin. apply Hp. by right.
Qed.

Lemma rooted_ext h h' Prev qs : (∀ p, p ∈ qs → h' !! p = h !! p) → rooted h Prev qs → rooted h' Prev qs.
Proof. intros Hp Hr p Hin. rewrite (prev_of_same h) by by apply Hp. by apply Hr. Qed.

Lemma listed_as_ext h h' Prev ps os : (∀ p, p ∈ ps → h' !! p = h !! p) →
  Forall2 (listed_as h Prev) ps os → Forall2 (listed_as h' Prev) ps os.
Proof.
  intros Hp Hl. induction Hl as [|p o ps os (n & Hn & Hrest) Hl IH]; constructor.
  - exists n. by rewrite Hp by by left.
  - apply IH. intros q Hq. apply Hp. by right.
Qed.

Lemma children_elem h Prev qs p : p ∈ children h Prev qs → p ∈ qs.
Proof. intros [_ Hp]%list_elem_of_filter. done. Qed.

(** One part of a form after another. *)
Lemma lists_ops_app Prev os1 os2 s s1 s' :
  lists_ops Prev os1 s s1 → aq_le s1 s' → lists_ops Prev os2 s1 s' → lists_ops Prev (os1 ++ os2) s s'.
Proof.
  intros (qs1 & Hq1 & Hr1 & Hl1) Hle (qs2 & Hq2 & Hr2 & Hl2). exists (qs1 ++ qs2).
  assert (Hsame : ∀ p, p ∈ qs1 → heap s' !! p = heap s1 !! p).
  { intros p Hp. apply (al_nodes _ _ Hle). rewrite Hq1. set_solver. }
  split_and!; [by rewrite Hq2, Hq1, app_assoc| |].
  - intros p [Hp|Hp]%elem_of_app.
    + destruct (rooted_ext _ _ _ _ Hsame Hr1 p Hp) as [|(q & Hq & ?)]; [by left|]. right. exists q. set_solver.
    + destruct (Hr2 p Hp) as [|(q & Hq & ?)]; [by left|]. right. exists q. set_solver.
  - rewrite filter_app. unfold children. rewrite filter_app. apply Forall2_app; [|done].
    change (filter _ qs1) with (children (heap s') Prev qs1). rewrite (children_ext (heap s1)) by done.
    eapply listed_as_ext; [|done]. intros p Hp%children_elem. by apply Hsame.
Qed.

(** A new question, and perhaps questions below it. *)
Lemma lists_ops_push Prev o s s1 s' p qs :
  gAttributeQuestionList s1 = gAttributeQuestionList s ++ [p] → listed_as (heap s1) Prev p o → is_question o = true →
  aq_le s1 s' → gAttributeQuestionList s' = gAttributeQuestionList s1 ++ qs → rooted (heap s') (Some p) qs →
  NoDup (gAttributeQuestionList s') → (∀ q, Prev = Some q → q ∈ gAttributeQuestionList s) → lists_ops Prev [o] s s'.
Proof.
  intros Hq1 (n & Hn & Hprev & Hfields) Hop Hle Hq2 Hr Hnd Hold.
  assert (Hn' : heap s' !! p = Some (AqNode n)).
  { rewrite (al_nodes _ _ Hle); [done|]. rewrite Hq1. set_solver. }
  assert (Hp : prev_of (heap s') p = Some Prev) by (unfold prev_of; by rewrite Hn', Hprev).
  exists (p :: qs). split_and!; [by rewrite Hq2, Hq1, <-app_assoc| |].
  - intros q [->|Hq]%elem_of_cons; [by left|]. right. destruct (Hr q Hq) as [Hqp|(r & Hin & Hqr)].
    + exists p. split; [by left|done].
    + exists r. split; [by right|done].
  - rewrite (filter_cons_True _ o []), filter_nil by done. unfold children. rewrite filter_cons_True by done.
    rewrite filter_none; [by constructor; [exists n|constructor]|].
    intros q Hq Hqp. rewrite Hq2, Hq1, <-app_assoc in Hnd. apply NoDup_app in Hnd as (_ & Hdis & _).
    destruct (Hr q Hq) as [Hqr|(r & Hin & Hqr)]; rewrite Hqr in Hqp; injection Hqp as <-;
      eapply Hdis; [by apply Hold|by left|by apply Hold|by right].
Qed.

(** ** Outcomes *)

(** [k] references are added on success, and [R] holds of the state; no status but
    these three is returned. *)
Definition outcome G (k : nat) (R : hii_state → Prop) s (Status : Z) s' : Prop :=
  aq_inv G s' ∧ same_forms (heap s) (heap s') ∧ mFormSetList s' = mFormSetList s ∧
  (Status = RETURN_SUCCESS ∧ aq_le s s' ∧ (∃ xs, length xs = k ∧ refs_kept s s' xs) ∧ R s' ∨
   Status = RETURN_NOT_READY ∧ aq_le s s' ∨
   Status = RETURN_OUT_OF_RESOURCES ∧ pool_fails).

Lemma outcome_success G (R : hii_state → Prop) s s' xs : aq_inv G s' → aq_le s s' → refs_kept s s' xs → R s' →
  outcome G (length xs) R s RETURN_SUCCESS s'.
Proof. intros Hi Hle Hrk HR. split_and!; [done|apply Hle..|]. left. eauto 6. Qed.

Lemma outcome_not_ready G k R s s' : aq_inv G s' → aq_le s s' → outcome G k R s RETURN_NOT_READY s'.
Proof. intros Hi Hle. split_and!; [done|apply Hle..|]. auto. Qed.

Lemma outcome_oom G k R s s' : aq_inv G s' → aq_le s s' → pool_fails → outcome G k R s RETURN_OUT_OF_RESOURCES s'.
Proof. intros Hi Hle Hf. split_and!; [done|apply Hle..|]. auto. Qed.

Lemma outcome_before G k (R R' : hii_state → Prop) s s1 xs Status s' : aq_le s s1 → refs_kept s s1 xs →
  (aq_le s1 s' → R s' → R' s') → outcome G k R s1 Status s' → outcome G (length xs + k) R' s Status s'.
Proof.
  intros Hle Hrk HR (Hi & Hf & Hl & Hst). split_and!; [done| | |].
  - by etrans; [apply Hle|].
  - rewrite Hl. apply Hle.
  - destruct Hst as [(-> & Hle2 & (ys & <- & Hrk2) & HR1)|[(-> & Hle2)|?]]; [left|right; left|by right; right].
    + split_and!; [done|by etrans| |by apply HR].
      exists (xs ++ ys). split; [apply length_app|by eapply refs_kept_trans].
    + split; [done|by etrans].
Qed.

(** ** The loop over a form *)

Definition good_guid G h g : Prop := ∃ u, guid_at h g = Some u ∧ u ∈ G.

Lemma good_guid_same G h h' g : same_forms h h' → good_guid G h g → good_guid G h' g.
Proof. intros Hs (u & Hu & HG). exists u. split; [by eapply bytes_at_same|done]. Qed.

Lemma good_guid_some G h g : good_guid G h g → is_Some (guid_at h g).
Proof. intros (u & Hu & _). by exists u. Qed.

Lemma field_bounds h x d v : field_at h x d 2 = Some v → 0 ≤ v < 65536.
Proof.
  intros (bs & Hb & ->)%fmap_Some. pose proof (little_endian_bounds bs) as Hbs.
  apply bytes_at_length in Hb; [|done]. by rewrite Hb in Hbs.
Qed.

(** A call of AttributeQuestionListInit from the loop while the references that stand
    for [K] are listed. *)
Definition list_init_ok G K (list_init : ptr → Z → option positive → M Z) : Prop := ∀ s g i a,
  aq_inv G s → ref_keys s = K → good_guid G (heap s) g → 0 ≤ i < 65536 → a ∈ gAttributeQuestionList s →
  wp (list_init g i (Some a)) (outcome G 1 (grown (Some a) s) s) s.

(** The call, and the removal of its reference; the loop has started in state [b]. *)
Lemma follow_ref G K list_init b s g i a (k : M Z) R : list_init_ok G K list_init →
  aq_le b s → refs_kept b s [] →
  aq_inv G s → ref_keys s = K → good_guid G (heap s) g → 0 ≤ i < 65536 → a ∈ gAttributeQuestionList s →
  (∀ s', aq_inv G s' → aq_le b s' → refs_kept b s' [] → aq_le s s' →
     (∃ qs, gAttributeQuestionList s' = gAttributeQuestionList s ++ qs ∧ rooted (heap s') (Some a) qs) →
     wp k (outcome G 0 R b) s') →
  wp (Status ← list_init g i (Some a); pop_ref Status;; if RETURN_ERROR Status then mret Status else k) (outcome G 0 R b) s.
Proof.
  intros Hlist Hle0 Hrk0 Hi HK Hg Hb Ha Hk. wp_seq. eapply wp_mono; [by apply Hlist|].
  intros Status s2 (Hi2 & Hf2 & Hl2 & [(-> & Hle & (xs & Hxs & Hrk) & qs & Hqs & Hroot)|[(-> & Hle)|(-> & Hp)]]).
  - wp_seq. eapply pop_ref_spec; [done|done|]. intros s3 Hi3 Hle3 Hq3 Hpop. cbn. destruct xs as [|r [|]]; try done.
    destruct (Hpop _ r (rk_refs _ _ _ Hrk)) as [Hr3 Hn3].
    apply Hk; [done|etrans; [done|by etrans]| |by etrans|].
    + change [] with ([] ++ [] : list positive). eapply refs_kept_trans; [done|].
      split; [by rewrite app_nil_r|]. intros q Hq. rewrite Hn3 by done. by apply (rk_nodes _ _ _ Hrk).
    + exists qs. rewrite Hq3. split; [done|]. eapply rooted_ext; [|done]. intros q Hq.
      apply (al_nodes _ _ Hle3). rewrite Hqs. set_solver.
  - wp_seq. unfold pop_ref. cbn. apply outcome_not_ready; [done|by etrans].
  - wp_seq. eapply pop_ref_spec; [done|done|]. intros s3 Hi3 Hle3 _ _. cbn.
    split_and!; [done| |by rewrite (al_formsets _ _ Hle3), Hl2, (al_formsets _ _ Hle0)|auto].
    etrans; [apply Hle0|]. by etrans; [|apply Hle3].
Qed.

(** The fields of the opcode [o] at [x]. *)
Definition op_fields h x o : Prop := ∀ d, 0 ≤ d → d + 2 ≤ op_len o →
  field_at h x d 2 = Some (little_endian (take 2 (drop (Z.to_nat d) (encode_op o)))).

Lemma wp_op_field (Q : Z → hii_state → Prop) s h x o d : op_fields h x o → same_forms h (heap s) → 0 ≤ d → d + 2 ≤ op_len o →
  Q (little_endian (take 2 (drop (Z.to_nat d) (encode_op o)))) s → wp (read_int (ptr_add x d) 2) Q s.
Proof.
  intros Hx Hs Hd Hl HQ. eapply run_wp; [|exact HQ]. apply field_run. eapply field_at_same; [exact Hs|by apply Hx].
Qed.

(** A question of the form. *)
Lemma question_step G s n f os g o x Prev R (k : M Z) :
  aq_inv G s → form_here (heap s) n f os → good_guid G (heap s) g →
  (∀ q, Prev = Some q → q ∈ gAttributeQuestionList s) →
  op_fields (heap s) x o → AttributeQuestionIsOp (op_code o) = true → 8 ≤ op_len o →
  (∀ s', aq_inv G s' → aq_le s s' → refs_kept s s' [] → lists_ops Prev [o] s s' → wp k (outcome G 0 R s) s') →
  wp (AttributeQuestion ← new_question;
      match AttributeQuestion with
      | None => mret RETURN_OUT_OF_RESOURCES
      | Some a =>
          id ← FormId (Form f);
          p ← this_page n f g id;
          q ← Question_QuestionId x;
          prompt ← Question_Prompt x;
          store a (AqNode (AqNode_ p Prev AQ_QUESTION q prompt));; k
      end) (outcome G 0 R s) s.
Proof.
  intros Hi Hf Hg Hprev Hfield Hop Hl Hk. wp_seq. apply wp_new_question.
  { intros Hp. wp_seq. by apply outcome_oom. }
  intros p Hp. set (s0 := HiiState _ _ _ _). assert (Hs0 : same_forms (heap s) (heap s0)) by by apply same_forms_insert.
  assert (Hf0 := form_here_same _ _ _ _ _ Hs0 Hf). wp_seq. apply wp_field; [by eapply form_here_field|].
  intros i _. wp_seq. eapply wp_this_page; [done|]. intros t1 t2. wp_seq.
  eapply wp_op_field; [done|done|lia|lia|]. wp_seq. eapply wp_op_field; [done|done|lia|lia|]. wp_seq.
  apply wp_store_question; [done|]. set (nd := AqNode_ _ _ _ _ _). destruct (push_question_le G s p nd Hi Hp) as [Hle Hrk].
  assert (Hi1 : aq_inv G (push_question s p nd)).
  { apply push_question_inv; [done|done|by eapply good_guid_some|done]. }
  apply Hk; [done..|]. apply (lists_ops_push _ _ _ (push_question s p nd) _ p []); [done| | |done|by rewrite app_nil_r|apply rooted_nil| |done].
  - exists nd. split_and!; [apply lookup_insert_eq|done| |done..]. unfold question_type. by rewrite Hop.
  - unfold is_question. by rewrite Hop.
  - apply (ai_questions _ _ Hi1).
Qed.

(** A reference of the form. *)
Lemma ref_step G K list_init s n f os g i o x Prev R (k : ptr → Z → M Z) : list_init_ok G K list_init →
  aq_inv G s → ref_keys s = K → form_here (heap s) n f os → good_guid G (heap s) g →
  (∀ q, Prev = Some q → q ∈ gAttributeQuestionList s) →
  op_fields (heap s) x o → AttributeQuestionIsOp (op_code o) = false → op_code o = EFI_IFR_REF_OP → 15 ≤ op_len o →
  (sizeof_REF3 ≤ op_len o → good_guid G (heap s) (Ref_FormSetId x)) →
  (∀ s' (Q : Z → hii_state → Prop), same_forms (heap s) (heap s') → Q (op_len o) s' → wp (Length x) Q s') →
  (∀ s' g' i', aq_inv G s' → aq_le s s' → refs_kept s s' [] → lists_ops Prev [o] s s' →
     good_guid G (heap s') g' → wp (k g' i') (outcome G 0 R s) s') →
  wp (AttributeQuestion ← new_question;
      match AttributeQuestion with
      | None => mret RETURN_OUT_OF_RESOURCES
      | Some a =>
          p ← this_page n f g i;
          q ← Question_QuestionId x;
          prompt ← Question_Prompt x;
          len ← Length x;
          '(Type0, g, i) ←
            (if sizeof_REF3 <=? len then mret (AQ_REF_FSET, Ref_FormSetId x, 0)
             else id ← Ref_FormId x; mret (AQ_REF_FORM, g, id));
          store a (AqNode (AqNode_ p Prev Type0 q prompt));;
          Status ← list_init g i (Some a);
          pop_ref Status;;
          if RETURN_ERROR Status then mret Status else k g i
      end) (outcome G 0 R s) s.
Proof.
  intros Hlist Hi HK Hf Hg Hprev Hfield Hnq Hop Hl Href Hlen Hk. wp_seq. apply wp_new_question.
  { intros Hp. wp_seq. by apply outcome_oom. }
  intros p Hp. set (s0 := HiiState _ _ _ _). assert (Hs0 : same_forms (heap s) (heap s0)) by by apply same_forms_insert.
  wp_seq. eapply wp_this_page; [by eapply form_here_same|]. intros t1 t2. wp_seq.
  eapply wp_op_field; [done|done|lia|lia|]. wp_seq. eapply wp_op_field; [done|done|lia|lia|]. wp_seq.
  apply Hlen; [done|]. wp_seq.
  assert (Hrest : ∀ ty g' i', good_guid G (heap s) g' → 0 ≤ i' < 65536 →
    ty = question_type o →
    wp (store p (AqNode (AqNode_ (AqPage (FsHandle n) g t1 i t2) Prev ty (little_endian (take 2 (drop 6 (encode_op o))))
                  (little_endian (take 2 (drop 2 (encode_op o)))))))
      (λ _, wp (Status ← list_init g' i' (Some p); pop_ref Status;;
                if RETURN_ERROR Status then mret Status else k g' i') (outcome G 0 R s)) s0).
  { intros ty g' i' Hg' Hi' Hty. apply wp_store_question; [done|].
    set (nd := AqNode_ _ _ _ _ _). destruct (push_question_le G s p nd Hi Hp) as [Hle Hrk].
    assert (Hi1 : aq_inv G (push_question s p nd)).
    { apply push_question_inv; [done|done|by eapply good_guid_some|done]. }
    eapply (follow_ref G K); [done|done|done|done| |by eapply good_guid_same; [apply Hle|]|done|cbn; set_solver|].
    - rewrite (refs_kept_keys G s _ [] Hi (al_forms _ _ Hle) Hrk). cbn. by rewrite app_nil_r.
    - intros s' Hi2 Hle2 Hrk2 Hle3 (qs & Hqs & Hroot). apply Hk; [done..| |by eapply good_guid_same; [apply Hle2|]].
      apply (lists_ops_push _ _ _ (push_question s p nd) _ p qs); [done| | |done|done|done| |done].
      + exists nd. by split_and!; [apply lookup_insert_eq|..].
      + unfold is_question. by rewrite Hop, Z.eqb_refl, orb_true_r.
      + apply (ai_questions _ _ Hi2). }
  destruct (Z.leb_spec sizeof_REF3 (op_len o)).
  - wp_seq. apply Hrest; [by apply Href|done|]. unfold question_type. rewrite Hnq.
    by rewrite (proj2 (Z.leb_le _ _)) by done.
  - wp_seq. apply wp_field; [eapply field_some_same; [done|rewrite Hfield by lia; by eexists]|]. intros j Hj. wp_seq.
    apply Hrest; [done|by eapply field_bounds|]. unfold question_type. rewrite Hnq.
    by rewrite (proj2 (Z.leb_gt _ _)) by done.
Qed.

(** ** The whole loop *)

Definition op_ptr (f : FORM_NODE) (pre : list ifr_op) : ptr := ptr_add (Form f) (Z.of_nat (length (encode_ops pre))).

Lemma op_ptr_next f pre o : ptr_add (op_ptr f pre) (op_len o) = op_ptr f (pre ++ [o]).
Proof.
  unfold op_ptr. rewrite ptr_add_add, encode_ops_app, encode_ops_one, length_app, Nat2Z.inj_add. by rewrite length_encode_op.
Qed.

Lemma wp_form_Length (Q : Z → hii_state → Prop) s n f pre o rest :
  form_here (heap s) n f (pre ++ o :: rest) → wf_op o → Q (op_len o) s → wp (Length (op_ptr f pre)) Q s.
Proof.
  intros [_ Hb Hz Hh] Hw HQ. destruct (op_at_form _ _ _ _ _ _ Hb) as (pre0 & Heq & Hop); [lia|].
  unfold op_ptr. rewrite Heq. by eapply wp_Length.
Qed.

Lemma wp_form_OpCode (Q : Z → hii_state → Prop) s n f pre o rest :
  form_here (heap s) n f (pre ++ o :: rest) → wf_op o → Q (op_code o) s → wp (OpCode (op_ptr f pre)) Q s.
Proof.
  intros [_ Hb Hz Hh] Hw HQ. destruct (op_at_form _ _ _ _ _ _ Hb) as (pre0 & Heq & Hop); [lia|].
  unfold op_ptr. rewrite Heq. by eapply wp_OpCode.
Qed.

(** The end of the form has been reached. *)
Lemma op_ptr_end h n f os : form_here h n f os → off (op_ptr f os) = off (Form f) + FormSize f.
Proof. intros [_ _ Hz _]. unfold op_ptr, ptr_add. cbn. lia. Qed.

Lemma op_ptr_before h n f pre o rest : form_here h n f (pre ++ o :: rest) → off (op_ptr f pre) < off (Form f) + FormSize f.
Proof.
  intros [_ _ Hz _]. unfold op_ptr, ptr_add. cbn. rewrite Hz, encode_ops_app, encode_ops_cons, !length_app.
  pose proof (length_encode_op o). unfold op_len in *. lia.
Qed.

Lemma question_loop_spec G K list_init fuel n f Prev pre o rest s g i : list_init_ok G K list_init →
  aq_inv G s → ref_keys s = K → form_here (heap s) n f (pre ++ o :: rest) →
  Forall wf_op (o :: rest) → Forall (wf_question G) rest → good_guid G (heap s) g →
  (∀ q, Prev = Some q → q ∈ gAttributeQuestionList s) → (length rest < fuel)%nat →
  wp (question_loop list_init fuel (off (Form f) + FormSize f) n f Prev (op_ptr f pre) g i)
    (outcome G 0 (lists_ops Prev rest s) s) s.
Proof.
  intros Hlist. revert pre o rest s g i. induction fuel as [|fuel IH]; [lia|].
  intros pre o rest s g i Hi HK Hf Hwf Hwq Hg Hprev Hlen. cbn [question_loop]. wp_seq.
  apply Forall_cons in Hwf as [Hwo Hwf]. eapply wp_form_Length; [done..|]. rewrite op_ptr_next.
  destruct rest as [|o2 rest].
  { erewrite op_ptr_end by done. rewrite Z.ltb_irrefl. wp_seq. apply (outcome_success G _ s s []); [done|done|apply refs_kept_refl|by apply lists_ops_nil]. }
  replace (pre ++ o :: o2 :: rest) with ((pre ++ [o]) ++ o2 :: rest) in Hf by by rewrite <-app_assoc.
  revert Hf. generalize (pre ++ [o]) as pre2. intros pre2 Hf.
  assert (Hwf2 := Hwf). apply Forall_cons in Hwf2 as [Hwo2 _]. apply Forall_cons in Hwq as [[Hwq1 Hwq2] Hwq].
  rewrite (proj2 (Z.ltb_lt _ _)) by by eapply op_ptr_before. cbn [negb]. wp_seq. eapply wp_form_OpCode; [done..|].
  assert (Hnext : ∀ s' g' i', aq_inv G s' → aq_le s s' → refs_kept s s' [] → lists_ops Prev [o2] s s' →
    good_guid G (heap s') g' →
    wp (question_loop list_init fuel (off (Form f) + FormSize f) n f Prev (op_ptr f pre2) g' i')
      (outcome G 0 (lists_ops Prev (o2 :: rest) s) s) s').
  { intros s' g' i' Hi' Hle Hrk Hlist' Hg'.
    eapply wp_mono; [|intros St s2; apply (outcome_before G 0 (lists_ops Prev rest s') _ s s' [] St s2 Hle Hrk)].
    2:{ intros Hle2. by apply (lists_ops_app Prev [o2] rest s s'). }
    eapply IH; [done| |eapply form_here_same; [apply Hle|done]|done|done|done| |cbn in Hlen; lia].
    - rewrite (refs_kept_keys G s s' [] Hi (al_forms _ _ Hle) Hrk). cbn. by rewrite app_nil_r.
    - intros q Hq. eapply aq_le_elem; [done|by apply Hprev]. }
  assert (Hfield : op_fields (heap s) (op_ptr f pre2) o2).
  { intros d Hd Hl. unfold field_at, op_ptr. by erewrite bytes_of_op; [|apply Hf|apply Hf|lia..]. }
  destruct (AttributeQuestionIsOp (op_code o2)) eqn:Hop2.
  { eapply (question_step G s n f _ g o2); [done..|by apply Hwq1|]. intros s' Hi' Hle Hrk Hlist'. apply Hnext; [done..|].
    by eapply good_guid_same; [apply Hle|]. }
  destruct (Z.eqb_spec (op_code o2) EFI_IFR_REF_OP) as [Hop|Hop].
  - destruct (Hwq2 Hop) as [Hl15 Hl33]. eapply (ref_step G K _ s n f _ g i o2); try done.
    + intros Hl. eexists. split; [eapply guid_of_op; [apply Hf|apply Hf|done]|by apply Hl33].
    + intros s' Q Hs HQ. eapply wp_form_Length; [by eapply form_here_same|done|done].
  - apply Hnext; [done|done|apply refs_kept_refl| |done]. apply lists_ops_nil. rewrite filter_cons_False, filter_nil; [done|].
    unfold is_question. rewrite Hop2, (proj2 (Z.eqb_neq _ _)) by done. done.
Qed.
End questions.
