(* ===== verification/HiiListInit.v ===== *)
(** * AttributeQuestionListInit: termination and invariant

    The references on the way to a form are distinct, since a form that is listed
    already is not entered again: their number is bounded by the pairs of a form set
    GUID and a form identifier. *)
From S2P Require Import Prelude CBase HiiTree HiiMem HiiForms HiiLookup HiiInv HiiUrl HiiQuestions.
Local Open Scope Z_scope.

(** All that a reference can stand for. *)
Definition ref_targets (G : list (list Z)) : list (list Z * Z) := i ← seqZ 0 65536; (λ u, (u, i)) <$> G.

Lemma elem_of_ref_targets G u i : (u, i) ∈ ref_targets G ↔ u ∈ G ∧ 0 ≤ i < 65536.
Proof.
  unfold ref_targets. rewrite list_elem_of_bind. split.
  - intros (j & (v & [= -> ->] & Hv)%list_elem_of_fmap & Hj%elem_of_seqZ). by split; [|lia].
  - intros [Hu Hi]. exists i. split; [apply list_elem_of_fmap; by exists u|]. apply elem_of_seqZ. lia.
Qed.

Lemma length_ref_targets G : length (ref_targets G) = (Z.to_nat 65536 * length G)%nat.
Proof.
  unfold ref_targets. rewrite <-(length_seqZ 0 65536). generalize (seqZ 0 65536) as ks. intros ks.
  induction ks as [|k ks IH]; [done|]. rewrite bind_cons, length_app, length_fmap, IH. cbn [length]. lia.
Qed.

Lemma NoDup_length_le {A} (l k : list A) : NoDup l → (∀ x, x ∈ l → x ∈ k) → (length l ≤ length k)%nat.
Proof. intros Hnd Hin. by apply submseteq_length, NoDup_submseteq. Qed.

Section list_init.
Context `{HiiDatabase, HiiPool}.
Implicit Types (s : hii_state) (h : pool_mem) (p q : positive) (x g : ptr) (G : list (list Z)).

(** ** Lookups in well-formed lists *)

(** The form set that is listed, and the opcodes of its first form. *)
Definition formset_chosen s (FormSetId : option ptr) : option positive :=
  match FormSetId with
  | None => head (mFormSetList s)
  | Some g => search_result (formset_matches (heap s) g) (mFormSetList s)
  end.

Definition first_form s FormSetId (os : list ifr_op) : Prop := ∃ fs n p f, formset_chosen s FormSetId = Some fs ∧
  heap s !! fs = Some (FormSetNode n) ∧ head (FormList n) = Some p ∧ heap s !! p = Some (FormNode f) ∧
  bytes_at (heap s) (Form f) (FormSize f) = Some (encode_ops os).

Lemma formset_chosen_elem s o fs : formset_chosen s o = Some fs → fs ∈ mFormSetList s.
Proof.
  destruct o as [g|]; cbn; [apply search_result_elem|]. destruct (mFormSetList s); [done|]. intros [= ->]. by left.
Qed.

Lemma GetFormSet_chosen G s o : aq_inv G s → (∀ g, o = Some g → good_guid G (heap s) g) →
  AttributeQuestionGetFormSet o s = Some (formset_chosen s o, s).
Proof.
  intros Hi Ho. assert (Hr := aq_inv_readable _ _ Hi). destruct o as [g|]; [|by apply GetFormSet_first].
  apply GetFormSet_run; [done|by eapply good_guid_some, Ho].
Qed.

(** The GUID with which the form is looked up leads to the same form set. *)
Lemma chosen_guid G s o fs n : aq_inv G s → (∀ g, o = Some g → good_guid G (heap s) g) →
  formset_chosen s o = Some fs → heap s !! fs = Some (FormSetNode n) →
  ∃ g, good_guid G (heap s) g ∧ search_result (formset_matches (heap s) g) (mFormSetList s) = Some fs ∧
    ∀ (Q : ptr → hii_state → Prop), Q g s →
      wp (match o with Some g => mret g | None => fset ← nonnull (FormSet n); mret (Guid fset) end) Q s.
Proof.
  intros Hi Ho Hfs Hn. destruct o as [g|]; [exists g; split_and!; [by apply Ho|done|done]|].
  destruct (ai_formsets _ _ Hi fs) as (n2 & x & u & Hn2 & Hx & Hu & HuG & _); [by eapply (formset_chosen_elem s None)|].
  simplify_eq. exists (Guid x). split_and!; [by exists u| |rewrite Hx; by intros Q HQ].
  cbn in Hfs. unfold search_result. destruct (mFormSetList s) as [|p l]; [done|]. injection Hfs as ->. cbn [List.find].
  unfold formset_matches. rewrite Hn, Hx. unfold guids_equal. by rewrite bool_decide_true.
Qed.

Lemma GetForm_chosen G s g i fs n : aq_inv G s → good_guid G (heap s) g →
  search_result (formset_matches (heap s) g) (mFormSetList s) = Some fs → heap s !! fs = Some (FormSetNode n) →
  ∃ r, AttributeQuestionGetForm (Some g) i s = Some (r, s) ∧ (∀ p, r = Some p → form_wf G (heap s) p) ∧
    (i = 0 → r = head (FormList n)).
Proof.
  intros Hi Hg Hfs Hn. assert (Hr := aq_inv_readable _ _ Hi).
  destruct (ai_formsets _ _ Hi fs) as (n2 & x & u & Hn2 & _ & _ & _ & _ & Hforms); [by eapply search_result_elem|].
  simplify_eq. eexists. split; [eapply GetForm_run; [done|by eapply good_guid_some|done..]|]. split.
  - intros p Hp. apply Hforms. destruct (i =? 0); [|by apply search_result_elem in Hp].
    destruct (FormList n); [done|]. injection Hp as ->. by left.
  - intros ->. done.
Qed.

(** The form set and its forms are found again in a later state. *)
Lemma first_form_before G s s' o os : aq_inv G s → aq_le s s' → (∀ g, o = Some g → good_guid G (heap s) g) →
  first_form s' o os → first_form s o os.
Proof.
  intros Hi Hle Ho (fs & n & p & f & Hfs & Hn & Hp & Hf & Hb). assert (Hs := al_forms _ _ Hle).
  assert (Hch : formset_chosen s' o = formset_chosen s o).
  { unfold formset_chosen. rewrite (al_formsets _ _ Hle). destruct o as [g|]; [|done]. unfold search_result.
    rewrite (find_ext (formset_matches (heap s') g) (formset_matches (heap s) g)); [done|]. intros q Hq.
    destruct (ai_formsets _ _ Hi q Hq) as (nq & x & u & Hnq & Hx & Hu & _). destruct (Ho g eq_refl) as (v & Hv & _).
    unfold formset_matches. rewrite Hnq, (Hs _ _ Hnq) by done. rewrite Hx. unfold guids_equal, guid_at in *.
    by rewrite !(bytes_at_same _ _ _ _ _ Hs Hu), !(bytes_at_same _ _ _ _ _ Hs Hv), Hu, Hv. }
  rewrite Hch in Hfs. destruct (ai_formsets _ _ Hi fs (formset_chosen_elem _ _ _ Hfs)) as (n2 & x & u & Hn2 & _ & _ & _ & _ & Hforms).
  assert (n2 = n) as -> by (rewrite (Hs _ _ Hn2) in Hn by done; by injection Hn).
  destruct (Hforms p) as (f2 & os2 & Hf2 & Hb2 & _). { destruct (FormList n); [done|]. injection Hp as ->. by left. }
  assert (f2 = f) as -> by (rewrite (Hs _ _ Hf2) in Hf by done; by injection Hf).
  exists fs, n, p, f. split_and!; [done..|]. rewrite (bytes_at_same _ _ _ _ _ Hs Hb2) in Hb. by rewrite Hb2, <-Hb.
Qed.

Lemma op_ptr_nil f : op_ptr f [] = Form f.
Proof. unfold op_ptr, ptr_add. destruct (Form f). cbn. by rewrite Z.add_0_r. Qed.

(** ** The label Done *)

(** When there is no memory, the list of questions has been released. *)
Definition list_outcome G (R : hii_state → Prop) s (Status : Z) s' : Prop :=
  outcome G 1 R s Status s' ∧ (Status = RETURN_OUT_OF_RESOURCES → gAttributeQuestionList s' = []).

Lemma free_all_questions_spec G R s s1 Status :
  outcome G 1 R s Status s1 → wp (free_all_questions Status) (list_outcome G R s) s1.
Proof.
  intros Ho. unfold free_all_questions. destruct (Z.eqb_spec Status RETURN_OUT_OF_RESOURCES) as [->|Hs].
  - destruct Ho as (Hi & Hf & Hl & Hst). apply wp_bind. eapply free_questions_spec; [done|].
    intros s2 Hi2 Hf2 Hl2 Hq2. wp_seq. split; [|done]. split_and!; [done|by etrans|by rewrite Hl2|].
    destruct Hst as [[? _]|[[? _]|?]]; [done..|by right; right].
  - wp_seq. split; [done|]. intros ->. done.
Qed.

(** ** The function *)

(** The form has been added to the references. *)
Lemma enter_form G s p n f os g u j Prev list_init :
  ((u, j) ∉ ref_keys s → list_init_ok G (ref_keys s ++ [(u, j)]) list_init) →
  aq_inv G s → heap s !! p = None → form_here (heap s) n f os → wf_form G os →
  guid_at (heap s) g = Some u → u ∈ G → (∀ q, Prev = Some q → q ∈ gAttributeQuestionList s) →
  wp (gone ← ref_listed (mFormRefList s) g j;
      if (gone : bool) then free_all_questions RETURN_SUCCESS else
      Status ← question_loop list_init (S (Z.to_nat (FormSize f))) (off (Form f) + FormSize f) n f Prev (Form f) g j;
      free_all_questions Status)
    (list_outcome G (λ s', grown Prev s s' ∧ (ref_keys s = [] → lists_ops Prev (tail os) s s')) s) (push_ref s p (FormRefNode_ g j)).
Proof.
  intros Hinit Hi Hp Hf Hwf Hg HG Hprev. set (s1 := push_ref s p _).
  destruct (push_ref_le G s p (FormRefNode_ g j) Hi Hp) as [Hle Hrk]. fold s1 in Hle, Hrk. assert (Hs := al_forms _ _ Hle).
  assert (Hi1 : aq_inv G s1) by (apply push_ref_inv; [done|done|by eexists]).
  assert (Hg1 : guid_at (heap s1) g = Some u) by by eapply bytes_at_same.
  wp_seq. eapply run_wp; [apply ref_listed_run; [|exact Hg1]|].
  { intros q Hq. apply (ai_refs _ _ Hi1). cbn. set_solver. }
  assert (Hkeys : ref_key (heap s1) <$> mFormRefList s = ref_keys s).
  { apply list_fmap_ext. intros k q Hq%list_elem_of_lookup_2.
    apply ref_key_same; [done|by apply (rk_nodes _ _ _ Hrk)|by apply (ai_refs _ _ Hi)]. }
  rewrite Hkeys. case_bool_decide as Hin.
  { apply free_all_questions_spec. apply (outcome_success G _ s s1 [p]); [done..|]. split.
    { exists []. split; [by rewrite app_nil_r|apply rooted_nil]. }
    intros Hnil. rewrite Hnil in Hin. by apply not_elem_of_nil in Hin. }
  assert (Hk1 : ref_keys s1 = ref_keys s ++ [(u, j)]).
  { rewrite (refs_kept_keys G s s1 [p] Hi Hs Hrk). cbn [fmap list_fmap]. do 2 f_equal. unfold ref_key.
    cbn [heap push_ref s1]. rewrite lookup_insert_eq. cbn [RefFormSetId RefFormId].
    change (<[p:=_]> (<[p:=Zeroed]> (heap s))) with (heap s1). by rewrite Hg1. }
  destruct os as [|o body]; [by destruct Hwf|]. destruct Hwf as [Hwo [_ Hwq]]. rewrite <-op_ptr_nil at 2.
  wp_seq. eapply wp_mono; [eapply question_loop_spec; [by apply Hinit|done..| |done|done|by exists u| |]|].
  - by eapply (form_here_same _ _ _ _ ([] ++ o :: body)).
  - intros q Hq. eapply aq_le_elem; [done|by apply Hprev].
  - rewrite (fh_size _ _ _ _ Hf), Nat2Z.id. pose proof (length_encode_ops (o :: body)). cbn [length] in *. lia.
  - intros Status s' Ho. apply free_all_questions_spec.
    apply (outcome_before G 0 (lists_ops Prev body s1) _ s s1 [p] Status s' Hle Hrk); [|done].
    intros _ Hlist. split; [by eapply (lists_ops_grown _ body)|by intros _].
Qed.

(** What holds when the list has been extended: the form of an outermost call is listed. *)
Definition list_init_post s FormSetId (i : Z) Prev s' : Prop := grown Prev s s' ∧
  (i = 0 → ref_keys s = [] → ∃ os, first_form s FormSetId os ∧ lists_ops Prev (tail os) s s').

Lemma list_outcome_mono G (R R' : hii_state → Prop) s Status s' :
  (R s' → R' s') → list_outcome G R s Status s' → list_outcome G R' s Status s'.
Proof. intros HR [(Hi & Hf & Hl & Hst) Hq]. split; [|done]. split_and!; [done..|]. naive_solver. Qed.

Lemma list_init_spec G fuel s FormSetId i Prev :
  aq_inv G s → NoDup (ref_keys s) → (∀ k, k ∈ ref_keys s → k ∈ ref_targets G) →
  (length (ref_targets G) < length (ref_keys s) + fuel)%nat →
  (∀ g, FormSetId = Some g → good_guid G (heap s) g) → 0 ≤ i < 65536 →
  (∀ q, Prev = Some q → q ∈ gAttributeQuestionList s) →
  wp (AttributeQuestionListInit fuel FormSetId i Prev false) (list_outcome G (list_init_post s FormSetId i Prev) s) s.
Proof.
  revert s FormSetId i Prev. induction fuel as [|fuel IH]; intros s FormSetId i Prev Hi Hnd HU Hfuel Hg Hb Hprev.
  { pose proof (NoDup_length_le _ _ Hnd HU). lia. }
  cbn [AttributeQuestionListInit reset_refs]. wp_seq. eapply run_wp; [by eapply GetFormSet_chosen|].
  destruct (formset_chosen s FormSetId) as [fs|] eqn:Hfs; [|by apply free_all_questions_spec, outcome_not_ready].
  destruct (ai_formsets _ _ Hi fs (formset_chosen_elem _ _ _ Hfs)) as (n & x & u & Hn & Hx & Hu & HuG & Ht & _).
  wp_seq. eapply wp_formset_of; [done|]. wp_seq.
  destruct (chosen_guid G s FormSetId fs n Hi Hg Hfs Hn) as (g & Hgg & Hsearch & Hwpg). apply Hwpg. wp_seq.
  destruct (GetForm_chosen G s g i fs n Hi Hgg Hsearch Hn) as (rf & Hrf & Hform & Hhead).
  eapply run_wp; [exact Hrf|]. destruct rf as [pf|]; [|by apply free_all_questions_spec, outcome_not_ready].
  destruct (Hform pf eq_refl) as (f & os & Hpf & Hos & Hwf). destruct (wf_form_size _ _ _ _ Hos Hwf) as [Hsz Hh].
  assert (Hhere : form_here (heap s) n f os) by (split; [by exists x|done..]).
  wp_seq. eapply wp_form_of; [done|]. wp_seq.
  assert (Hid : ∀ (Q : Z → hii_state → Prop), (∀ j, 0 ≤ j < 65536 → Q j s) →
    wp (if i =? 0 then FormId (Form f) else mret i) Q s).
  { intros Q HQ. destruct (i =? 0); [|by apply HQ]. apply wp_field; [by eapply form_here_field|].
    intros v Hv. by eapply HQ, field_bounds. }
  apply Hid. clear Hid. intros j Hj. wp_seq. apply wp_alloc.
  { intros Hf. by apply free_all_questions_spec, outcome_oom. }
  intros p Hp. wp_seq. eapply run_wp; [done|]. wp_seq. eapply run_wp; [done|]. wp_seq.
  apply wp_store; [cbn; by rewrite lookup_insert_eq|]. destruct Hgg as (v & Hv & HvG).
  eapply wp_mono; [apply (enter_form G s p n f os g v j Prev); [|done..]|].
  2:{ intros Status s'. apply list_outcome_mono. intros [Hgr Hlist]. split; [done|]. intros Hi0 Hk. exists os.
      split; [by exists fs, n, pf, f; rewrite <-Hhead|by apply Hlist]. }
  intros Hnew s' g' i' a Hi' HK' Hg' Hi2 Ha. eapply wp_mono; [apply IH|].
  - done.
  - rewrite HK'. apply NoDup_app. split_and!; [done| |apply NoDup_singleton]. by intros k Hk ->%list_elem_of_singleton.
  - intros k. rewrite HK'. intros [Hk| ->%list_elem_of_singleton]%elem_of_app; [by apply HU|]. by apply elem_of_ref_targets.
  - rewrite HK', length_app. cbn. lia.
  - by intros g2 [= <-].
  - done.
  - by intros q [= <-].
  - intros St s2 Ho. by apply (list_outcome_mono _ _ (grown (Some a) s')) in Ho as [Ho _]; [|intros [Hgr _]].
Qed.

(** What AttributeQuestionListInit leaves behind when it is called from outside. *)
Definition listing_outcome G s FormSetId (Status : Z) s' : Prop :=
  aq_inv G s' ∧ same_forms (heap s) (heap s') ∧ mFormSetList s' = mFormSetList s ∧
  (Status = RETURN_SUCCESS ∧ aq_le s s' ∧ (∃ os, first_form s FormSetId os ∧ lists_ops None (tail os) s s') ∨
   Status = RETURN_NOT_READY ∧ aq_le s s' ∨
   Status = RETURN_OUT_OF_RESOURCES ∧ gAttributeQuestionList s' = [] ∧ pool_fails).

(** The call from outside. *)
Lemma list_init_reset G fuel s FormSetId :
  aq_inv G s → (∀ g, FormSetId = Some g → good_guid G (heap s) g) → Z.of_nat (length G) * 65536 < Z.of_nat fuel →
  wp (AttributeQuestionListInit fuel FormSetId 0 None true)
    (listing_outcome G s FormSetId) s.
Proof.
  intros Hi Hg Hfuel. destruct fuel as [|fuel]; [lia|]. cbn [AttributeQuestionListInit]. apply wp_bind.
  eapply reset_refs_spec; [done|]. intros s1 Hi1 Hle Hq1 Hr.
  assert (Hk : ref_keys s1 = []) by (unfold ref_keys; by rewrite Hr).
  eapply (wp_mono (AttributeQuestionListInit (S fuel) FormSetId 0 None false)); [apply (list_init_spec G); try done|].
  - rewrite Hk. constructor.
  - rewrite Hk. by intros k Hk'%not_elem_of_nil.
  - rewrite Hk, length_ref_targets. cbn. lia.
  - intros g Hs. eapply good_guid_same; [apply Hle|by apply Hg].
  - intros Status s' [(Hi' & Hf & Hl & Hst) Hq]. split_and!; [done|by etrans; [apply Hle|]|by rewrite Hl; apply Hle|].
    destruct Hst as [(-> & Hle2 & _ & _ & Hlist)|[(-> & Hle2)|[-> Hp]]].
    + left. split_and!; [done|by etrans|]. destruct (Hlist eq_refl Hk) as (os & Hos & Hops). exists os.
      split; [by eapply first_form_before|]. unfold lists_ops in *. by rewrite <-Hq1.
    + right; left. split; [done|by etrans].
    + right; right. auto.
Qed.

(** More strings in memory make no difference. *)
Lemma listing_more_strings G s FormSetId Status s1 h' : more_strings (heap s1) h' →
  listing_outcome G s FormSetId Status s1 → listing_outcome G s FormSetId Status (with_heap s1 h').
Proof.
  intros Hm (Hi & Hf & Hl & Hst). pose proof (more_strings_same _ _ Hm) as Hs.
  destruct (more_strings_questions _ _ _ Hm (ai_questions _ _ Hi)) as [Hq Hsame].
  assert (∀ s0, aq_le s0 s1 → aq_le s0 (with_heap s1 h')) as Hle.
  { intros s0 [Hf0 Hl0 Hq0 Hn0]. split; [by etrans|done|done|]. intros p Hp. cbn. rewrite Hsame; [by apply Hn0|].
    destruct Hq0 as [qs ->]. by apply elem_of_app; left. }
  split; [|split; [by etrans|split; [done|]]].
  - eapply aq_inv_later; [exact Hi|done|done|done| |apply (ai_refs_nodup _ _ Hi)]. cbn. intros p Hp.
    destruct (ai_refs _ _ Hi p Hp) as (n & Hn & Hg). exists n. split; [by eapply lookup_weaken, (proj1 Hm)|by eapply guid_some_same].
  - destruct Hst as [(-> & Ha & os & Hos & qs & Hqs & Hr & Hlist)|[(-> & Ha)|(-> & Hq0 & Hp)]]; [left|right; left; auto|right; right; auto].
    split; [done|]. split; [auto|]. exists os. split; [done|]. exists qs.
    assert (∀ p, p ∈ qs → h' !! p = heap s1 !! p) as Hqs' by (intros p Hp; apply Hsame; rewrite Hqs; by apply elem_of_app; right).
    split; [done|]. cbn. split; [by eapply rooted_ext|]. rewrite (children_ext (heap s1)) by done.
    eapply listed_as_ext; [|done]. intros p Hp%children_elem. by apply Hqs'.
Qed.
End list_init.
