(* ===== verification/HiiSpec.v ===== *)
(** * The attribute question library: correctness

    The forms that are found, the list of questions, and the paths. *)
From S2P Require Import Prelude CBase HiiTree HiiMem HiiForms HiiLookup HiiUrl HiiInv HiiQuestions.
From S2P Require Import HiiListInit HiiString.
Local Open Scope Z_scope.

Section spec.
Context `{HiiDatabase, HiiPool}.
Implicit Types (s : hii_state) (h : pool_mem) (p q : positive) (g : ptr) (G : list (list Z)).

(** C18: AttributeQuestionFormListInit on a form set that encodes the opcode [o] and the
    items [its] succeeds with one new node for each form, in the order of the forms,
    and the bytes that a node describes are exactly the encoding of its form; when
    the pool fails it returns RETURN_OUT_OF_RESOURCES and memory is as before. *)
Theorem forms_roundtrip k fs n o its s :
  heap s !! fs = Some (FormSetNode n) → FormList n = [] → k ≠ fs →
  heap s !! k = Some (Bytes (encode_op o ++ encode_ops (items_ops its))) → wf_op o → Forall wf_item its →
  wp (AttributeQuestionFormListInit (Ptr k 0) (Z.of_nat (length (encode_op o ++ encode_ops (items_ops its)))) fs)
    (λ Status s', (Status = RETURN_SUCCESS ∧ ∃ ps, forms_added k fs n s s' ps (items_forms its)) ∨
                  (Status = RETURN_OUT_OF_RESOURCES ∧ s' = s)) s.
Proof. apply form_list_init_spec. Qed.

(** C13: Listing the questions of registered form sets terminates, also when forms refer
    to each other in cycles, with a call depth of at most one for each pair of a form
    set and a form identifier.  On success the questions and references of the first
    form, in their order, are the new entries without a previous page, and each other
    new entry is below one of them.  Questions that were listed stay; with
    RETURN_OUT_OF_RESOURCES, which needs a failure of the pool, the list is empty.
    Buffers and form sets are left alone, and the invariant is kept: each question has
    a readable form set GUID, and its previous page is that of an earlier question.
    When no listed question has a handle, a prompt or a title that is 0, which
    HiiGetString asserts, the paths of all questions can be computed after that: the
    outcome is the same, and the only new blocks are strings, the texts of titles and
    prompts that nothing frees. *)
Theorem list_questions_correct G fuel s FormSetId :
  aq_inv G s → (∀ g, FormSetId = Some g → good_guid G (heap s) g) → Z.of_nat (length G) * 65536 < Z.of_nat fuel →
  ∃ Status s', AttributeQuestionListInit fuel FormSetId 0 None true s = Some (Status, s') ∧
    listing_outcome G s FormSetId Status s' ∧
    ((Status = RETURN_SUCCESS → ∀ p, p ∈ gAttributeQuestionList s' → named_question (heap s') p) →
     ∃ h', list_questions fuel FormSetId s = Some (Status, with_heap s' h') ∧ more_strings (heap s') h' ∧
       listing_outcome G s FormSetId Status (with_heap s' h')).
Proof.
  intros Hi Hg Hfuel. destruct (wp_elim _ _ _ (list_init_reset G fuel s FormSetId Hi Hg Hfuel)) as (Status & s1 & Hrun & Hout).
  exists Status, s1. split; [done|]. split; [done|]. intros Hnamed. unfold list_questions.
  destruct (Hout) as (Hi1 & _ & _ & Hst).
  assert (RETURN_ERROR Status = true → ∃ h', list_questions fuel FormSetId s = Some (Status, with_heap s1 h') ∧
    more_strings (heap s1) h' ∧ listing_outcome G s FormSetId Status (with_heap s1 h')) as Herr.
  { intros He. exists (heap s1). rewrite with_heap_same. split_and!; [|done|done].
    unfold list_questions. erewrite bind_run by exact Hrun. by rewrite He. }
  destruct Hst as [(-> & _)|[(-> & _)|(-> & _)]]; [|by apply Herr..].
  destruct (wp_elim _ _ _ (print_urls_spec s1 (gAttributeQuestionList s1) (ai_questions _ _ Hi1) (Hnamed eq_refl)
    (λ p Hp, Hp))) as (? & s2 & Hprint & h' & -> & Hm).
  exists h'. split; [|split; [done|by apply listing_more_strings]].
  erewrite bind_run by exact Hrun. change (RETURN_ERROR RETURN_SUCCESS) with false. cbv iota.
  erewrite bind_run by reflexivity. by erewrite bind_run by exact Hprint.
Qed.

(** C19: AttributeQuestionGetUrl returns whenever no listed question has a handle, a
    prompt or a title that is 0, which HiiGetString asserts.  For a question the result
    is a new string: the titles of form set and form and the prompts from the first
    reference down to the question, as HiiGetString gives them in the best language,
    each behind a slash and left out when the buffer has no room for it or the string
    cannot be had; it fits the buffer, and all helper nodes have been freed.  The texts
    that HiiGetString allocates are not freed: besides the result they are exactly the
    new blocks.  The result is NULL, and memory as before, for a reference and for an
    empty list; when the pool fails it can be NULL as well, with the texts fetched so
    far left in memory. *)
Theorem url_correct s g id :
  questions_ok (heap s) (gAttributeQuestionList s) → is_Some (guid_at (heap s) g) →
  (∀ q, q ∈ gAttributeQuestionList s → named_question (heap s) q) →
  wp (AttributeQuestionGetUrl g id) (λ Result s',
    match search_result (question_matches (heap s) g id) (gAttributeQuestionList s) with
    | None => Result = None ∧ s' = s
    | Some p => url_result s p Result s'
    end) s.
Proof. apply get_url_spec. Qed.

(** AttributeQuestionGetSelf returns the last question of the list, not NULL, when no
    question of the list has the form set and the identifier that are asked for. *)
Theorem missing_question s g id l p :
  questions_ok (heap s) (gAttributeQuestionList s) → is_Some (guid_at (heap s) g) →
  gAttributeQuestionList s = l ++ [p] →
  (∀ q, q ∈ gAttributeQuestionList s → question_matches (heap s) g id q = false) →
  AttributeQuestionGetSelf g id s = Some (Some p, s).
Proof.
  intros Hq Hg Hl Hno. rewrite GetSelf_run by done. unfold search_result.
  destruct (List.find _ _) as [q|] eqn:Hf.
  - assert (Hin := find_elem _ _ _ Hf). apply List.find_some in Hf as [_ Hf]. by rewrite Hno in Hf.
  - by rewrite Hl, last_snoc.
Qed.
End spec.

(** ** The attribute question library on concrete form sets

    The theorems of [HiiSpec] applied to a form set with two forms that refer to each
    other, and the library run on it. *)

(** ** A database and a pool *)

(** The only language is "en"; the string of an identifier is that one character. *)
#[local] Instance strings : HiiDatabase := {
  ExportPackageLists := λ _ _, (RETURN_NOT_FOUND, 0, []);
  HiiGetHiiHandles := λ _, None;
  GetLanguages := λ _ size, if size =? 0 then (RETURN_BUFFER_TOO_SMALL, 3, []) else (RETURN_SUCCESS, 3, [101; 110]);
  GetString := λ _ _ i size, if size =? 0 then (RETURN_BUFFER_TOO_SMALL, 4, []) else (RETURN_SUCCESS, 4, [i]);
  PlatformLang := Some [101; 110; 45; 85; 83] }.

#[local] Instance endless_pool : HiiPool.
Proof. refine {| AllocateBlock := λ X, Some (fresh X) |}. intros X p [= <-]. apply is_fresh. Defined.

(** ** A form set *)

Definition a_guid : list Z := [1; 2; 3; 4; 5; 6; 7; 8; 9; 10; 11; 12; 13; 14; 15; 16].

(** Title 65. *)
Definition op_formset := IfrOp EFI_IFR_FORM_SET_OP true (a_guid ++ [65; 0; 0; 0; 0]).
Definition op_form (id title : Z) := IfrOp EFI_IFR_FORM_OP true [id; 0; title; 0].
Definition op_numeric (prompt id : Z) := IfrOp EFI_IFR_NUMERIC_OP false [prompt; 0; 0; 0; id; 0; 0; 0].
Definition op_ref (prompt id form : Z) := IfrOp EFI_IFR_REF_OP false [prompt; 0; 0; 0; id; 0; 0; 0; 0; 0; 0; form; 0].
Definition op_end := IfrOp EFI_IFR_END_OP false [].

(** Form 1 and form 2 refer to each other. *)
Definition form1 := [op_form 1 66; op_numeric 67 5; op_ref 68 6 2; op_end].
Definition form2 := [op_form 2 69; op_numeric 70 7; op_ref 71 8 1; op_end].

Definition the_items : list ifr_item :=
  [FormItem (op_form 1 66) [op_numeric 67 5; op_ref 68 6 2; op_end];
   FormItem (op_form 2 69) [op_numeric 70 7; op_ref 71 8 1; op_end]; Plain op_end].
Definition the_bytes : list Z := encode_op op_formset ++ encode_ops (items_ops the_items).

Definition copied : hii_state := HiiState
  {[1%positive := Bytes the_bytes; 2%positive := FormSetNode (FormSetNode_ 7 (Some (Ptr 1 0)) (Z.of_nat (length the_bytes)) [])]}
  [2%positive] [] [].

Definition run_forms := AttributeQuestionFormListInit (Ptr 1 0) (Z.of_nat (length the_bytes)) 2 copied.

(** The state after the forms have been found, and after the questions have been listed. *)
Definition registered : hii_state := match run_forms with Some (_, s) => s | None => copied end.
Definition listed : hii_state := match list_questions 20 None registered with Some (_, s) => s | None => registered end.

(** The fourth question refers back to the first form, which is not listed again. *)
Example cycle_ends : gAttributeQuestionList listed = [6; 7; 9; 10]%positive.
Proof. by vm_compute. Qed.

(** The path of the second form's question: /A/B/D/F. *)
Example path_text :
  match AttributeQuestionGetUrl (Ptr 1 2) 7 listed with
  | Some (Some u, s) => heap s !! u = Some (Chars [47; 65; 47; 66; 47; 68; 47; 70])
  | _ => False
  end.
Proof. by vm_compute. Qed.

Lemma registered_inv : aq_inv [a_guid] registered.
Proof.
  assert (Hform : ∀ p f os, heap registered !! p = Some (FormNode f) →
    bytes_at (heap registered) (Form f) (FormSize f) = Some (encode_ops os) → wf_form [a_guid] os →
    form_wf [a_guid] (heap registered) p) by (intros p f os Hp Hb Hw; exists f, os; exact (conj Hp (conj Hb Hw))).
  split.
  - intros p Hp. assert (p = 2%positive) as -> by (vm_compute in Hp; by apply list_elem_of_singleton in Hp).
    eexists _, _, a_guid. split; [vm_compute; reflexivity|]. split; [reflexivity|]. split; [vm_compute; reflexivity|].
    split; [by left|]. split; [eexists; vm_compute; reflexivity|]. cbn [FormList]. intros q Hq.
    assert (q = 3%positive ∨ q = 4%positive) as [-> | ->] by set_solver.
    + eapply (Hform _ _ form1); [vm_compute; reflexivity|vm_compute; reflexivity|by repeat constructor].
    + eapply (Hform _ _ form2); [vm_compute; reflexivity|vm_compute; reflexivity|by repeat constructor].
  - split; [constructor|]. intros i p Hp. by vm_compute in Hp.
  - intros p Hp. vm_compute in Hp. by apply not_elem_of_nil in Hp.
  - constructor.
Qed.

Lemma listed_ok : questions_ok (heap listed) (gAttributeQuestionList listed).
Proof.
  assert (Hq : ∀ l i p n, heap listed !! p = Some (AqNode n) → is_Some (guid_at (heap listed) (PageFormSetId (ThisPage n))) →
    (PrevPage n = None ∨ ∃ j, (j < i)%nat ∧ PrevPage n = l !! j) → question_ok (heap listed) l i p).
  { intros l i p n Hn Hg Hprev. exists n. split; [exact Hn|]. split; [exact Hg|]. intros q Hq.
    destruct Hprev as [?|(j & Hj & Hl)]; [congruence|]. exists j. split; [done|congruence]. }
  rewrite cycle_ends. split; [apply (bool_decide_unpack _); by vm_compute|].
  intros [|[|[|[|i]]]] p Hp; try (by destruct i); injection Hp as <-.
  1-2: eapply Hq; [vm_compute; reflexivity|eexists; vm_compute; reflexivity|by left].
  all: eapply Hq; [vm_compute; reflexivity|eexists; vm_compute; reflexivity|right; exists 1%nat; split; [lia|done]].
Qed.

Definition all_named (s : hii_state) : bool := forallb (λ q, match heap s !! q with
  | Some (AqNode n) => negb ((PageHandle (ThisPage n) =? 0) || (Prompt n =? 0) ||
      (PageFormSetTitle (ThisPage n) =? 0) || (PageFormTitle (ThisPage n) =? 0))
  | _ => true
  end) (gAttributeQuestionList s).

Lemma all_named_spec s : all_named s = true → ∀ q, q ∈ gAttributeQuestionList s → named_question (heap s) q.
Proof.
  unfold all_named. rewrite forallb_forall. intros Hall q Hq n Hn. specialize (Hall q (proj1 (list_elem_of_In _ _) Hq)).
  rewrite Hn in Hall. apply negb_true_iff in Hall. rewrite !orb_false_iff, !Z.eqb_neq in Hall. tauto.
Qed.

(** ** The theorems applied *)

Lemma forms_roundtrip_witness : ∃ s' ps, run_forms = Some (RETURN_SUCCESS, s') ∧
  Forall2 (form_stored 1 (heap s')) ps [form1; form2].
Proof.
  pose proof (forms_roundtrip 1 2 (FormSetNode_ 7 (Some (Ptr 1 0)) (Z.of_nat (length the_bytes)) []) op_formset the_items copied
    eq_refl eq_refl ltac:(done) eq_refl ltac:(done) ltac:(by repeat constructor)) as Hwp.
  apply wp_elim in Hwp as (Status & s' & Hrun & [[-> [ps Hps]]|[-> _]]).
  - exists s', ps. split; [exact Hrun|apply (fa_forms _ _ _ _ _ _ _ Hps)].
  - vm_compute in Hrun. discriminate.
Defined.

Definition list_result := AttributeQuestionListInit (Z.to_nat 70000) None 0 None true registered.

Lemma list_questions_correct_witness : ∃ s', list_result = Some (RETURN_SUCCESS, s') ∧
  (∃ os, first_form registered None os ∧ lists_ops None (tail os) registered s') ∧
  ∃ h', list_questions (Z.to_nat 70000) None registered = Some (RETURN_SUCCESS, with_heap s' h') ∧ more_strings (heap s') h'.
Proof.
  assert (Hok : match list_result with
    | Some (st, s) => (st =? 0) && all_named s
    | None => false end = true) by (vm_compute; reflexivity).
  destruct (list_questions_correct [a_guid] (Z.to_nat 70000) registered None registered_inv ltac:(discriminate)
    ltac:(rewrite Z2Nat.id by lia; cbn [length]; lia)) as (Status & s' & Hrun & (_ & _ & _ & Hst) & Hprint).
  fold list_result in Hrun. rewrite Hrun in Hok. apply andb_true_iff in Hok as [Hs Hn]. apply Z.eqb_eq in Hs. subst Status.
  destruct Hst as [(_ & _ & Hos)|[[He _]|[He _]]]; [|discriminate He..]. exists s'. split; [exact Hrun|]. split; [exact Hos|].
  destruct (Hprint (λ _, all_named_spec s' Hn)) as (h' & Hlist & Hm & _). exists h'. split; [exact Hlist|exact Hm].
Defined.

Lemma url_correct_witness : ∃ u s', AttributeQuestionGetUrl (Ptr 1 2) 7 listed = Some (Some u, s') ∧
  heap s' !! u = Some (Chars [47; 65; 47; 66; 47; 68; 47; 70]).
Proof.
  pose proof (url_correct listed (Ptr 1 2) 7 listed_ok ltac:(eexists; vm_compute; reflexivity)
    (all_named_spec listed ltac:(vm_compute; reflexivity))) as Hwp.
  apply wp_elim in Hwp as (r & s' & Hrun & Hres). assert (Htext := path_text). rewrite Hrun in Htext.
  destruct r as [u|]; [|destruct Htext]. exists u, s'. exact (conj Hrun Htext).
Defined.

Lemma missing_question_witness : AttributeQuestionGetSelf (Ptr 1 2) 99 listed = Some (Some 10%positive, listed).
Proof.
  apply (missing_question listed (Ptr 1 2) 99 [6; 7; 9]%positive 10 listed_ok).
  - eexists. vm_compute. reflexivity.
  - rewrite cycle_ends. reflexivity.
  - intros q Hq. rewrite cycle_ends in Hq. repeat (apply elem_of_cons in Hq as [->|Hq]; [by vm_compute|]).
    by apply not_elem_of_nil in Hq.
Defined.
