(* ===== verification/Decompress.v ===== *)
(** * UEFI decompression (MdePkg/Library/BaseUefiDecompressLib/BaseUefiDecompressLib.c)

    The scratch data is the state, and every array access is checked against the
    bounds of its array.  [Bad] is an access out of bounds, a failing ASSERT or an
    undefined shift; [Spin] is a loop that outlives its fuel, [Lost] the
    search of a code tree that does, which alone has a fuel of its own. *)
From S2P Require Import Prelude CBase Math64.
Local Open Scope Z_scope.

(** ** Constants and scratch data *)

Definition BITBUFSIZ := 32.
Definition MAXMATCH := 256.
Definition THRESHOLD := 3.
Definition CODE_BIT := 16.
Definition BAD_TABLE := -1.
Definition NC := 0xff + MAXMATCH + 2 - THRESHOLD.
Definition CBIT := 9.
Definition MAXPBIT := 5.
Definition TBIT := 5.
Definition MAXNP := Z.shiftl 1 MAXPBIT - 1.
Definition NT := CODE_BIT + 3.
Definition NPT := if NT >? MAXNP then NT else MAXNP.
Definition BIT8 := 0x100.

(** [mSrcBase] holds the bytes of the source behind its header. *)
Record SCRATCH_DATA := Sd {
  mSrcBase : list Z; mDstBase : list Z; mOutBuf : Z; mInBuf : Z;
  mBitCount : Z; mBitBuf : Z; mSubBitBuf : Z; mBlockSize : Z; mCompSize : Z; mOrigSize : Z;
  mBadTableFlag : Z;
  mLeft : list Z; mRight : list Z; mCLen : list Z; mPTLen : list Z; mCTable : list Z; mPTTable : list Z;
  mPBit : Z }.

(** ** Computations on the scratch data *)

Inductive outcome (A : Type) := Done (x : A) (s : SCRATCH_DATA) | Bad | Spin | Lost.
Arguments Done {A} _ _.
Arguments Bad {A}.
Arguments Spin {A}.
Arguments Lost {A}.

Definition D (A : Type) : Type := SCRATCH_DATA → outcome A.

#[export] Instance D_ret : MRet D := λ A x s, Done x s.
#[export] Instance D_bind : MBind D := λ A B k m s,
  match m s with Done x s' => k x s' | Bad => Bad | Spin => Spin | Lost => Lost end.

Definition bad {A} : D A := λ _, Bad.
Definition spin {A} : D A := λ _, Spin.
Definition lost {A} : D A := λ _, Lost.
Definition read {A} (f : SCRATCH_DATA → A) : D A := λ s, Done (f s) s.
Definition of_option {A} (o : option A) : D A := match o with Some x => mret x | None => bad end.
Definition require (b : bool) : D unit := if b then mret tt else bad.

Definition set_mDstBase (v : list Z) : D unit := λ s, Done tt (Sd (mSrcBase s) v (mOutBuf s) (mInBuf s)
  (mBitCount s) (mBitBuf s) (mSubBitBuf s) (mBlockSize s) (mCompSize s) (mOrigSize s) (mBadTableFlag s) (mLeft
  s) (mRight s) (mCLen s) (mPTLen s) (mCTable s) (mPTTable s) (mPBit s)).
Definition set_mOutBuf (v : Z) : D unit := λ s, Done tt (Sd (mSrcBase s) (mDstBase s) v (mInBuf s) (mBitCount s)
  (mBitBuf s) (mSubBitBuf s) (mBlockSize s) (mCompSize s) (mOrigSize s) (mBadTableFlag s) (mLeft s) (mRight s)
  (mCLen s) (mPTLen s) (mCTable s) (mPTTable s) (mPBit s)).
Definition set_mInBuf (v : Z) : D unit := λ s, Done tt (Sd (mSrcBase s) (mDstBase s) (mOutBuf s) v (mBitCount s)
  (mBitBuf s) (mSubBitBuf s) (mBlockSize s) (mCompSize s) (mOrigSize s) (mBadTableFlag s) (mLeft s) (mRight s)
  (mCLen s) (mPTLen s) (mCTable s) (mPTTable s) (mPBit s)).
Definition set_mBitCount (v : Z) : D unit := λ s, Done tt (Sd (mSrcBase s) (mDstBase s) (mOutBuf s) (mInBuf s) v
  (mBitBuf s) (mSubBitBuf s) (mBlockSize s) (mCompSize s) (mOrigSize s) (mBadTableFlag s) (mLeft s) (mRight s)
  (mCLen s) (mPTLen s) (mCTable s) (mPTTable s) (mPBit s)).
Definition set_mBitBuf (v : Z) : D unit := λ s, Done tt (Sd (mSrcBase s) (mDstBase s) (mOutBuf s) (mInBuf s)
  (mBitCount s) v (mSubBitBuf s) (mBlockSize s) (mCompSize s) (mOrigSize s) (mBadTableFlag s) (mLeft s) (mRight
  s) (mCLen s) (mPTLen s) (mCTable s) (mPTTable s) (mPBit s)).
Definition set_mSubBitBuf (v : Z) : D unit := λ s, Done tt (Sd (mSrcBase s) (mDstBase s) (mOutBuf s) (mInBuf s)
  (mBitCount s) (mBitBuf s) v (mBlockSize s) (mCompSize s) (mOrigSize s) (mBadTableFlag s) (mLeft s) (mRight s)
  (mCLen s) (mPTLen s) (mCTable s) (mPTTable s) (mPBit s)).
Definition set_mBlockSize (v : Z) : D unit := λ s, Done tt (Sd (mSrcBase s) (mDstBase s) (mOutBuf s) (mInBuf s)
  (mBitCount s) (mBitBuf s) (mSubBitBuf s) v (mCompSize s) (mOrigSize s) (mBadTableFlag s) (mLeft s) (mRight s)
  (mCLen s) (mPTLen s) (mCTable s) (mPTTable s) (mPBit s)).
Definition set_mCompSize (v : Z) : D unit := λ s, Done tt (Sd (mSrcBase s) (mDstBase s) (mOutBuf s) (mInBuf s)
  (mBitCount s) (mBitBuf s) (mSubBitBuf s) (mBlockSize s) v (mOrigSize s) (mBadTableFlag s) (mLeft s) (mRight s)
  (mCLen s) (mPTLen s) (mCTable s) (mPTTable s) (mPBit s)).
Definition set_mBadTableFlag (v : Z) : D unit := λ s, Done tt (Sd (mSrcBase s) (mDstBase s) (mOutBuf s) (mInBuf
  s) (mBitCount s) (mBitBuf s) (mSubBitBuf s) (mBlockSize s) (mCompSize s) (mOrigSize s) v (mLeft s) (mRight s)
  (mCLen s) (mPTLen s) (mCTable s) (mPTTable s) (mPBit s)).
Definition set_mLeft (v : list Z) : D unit := λ s, Done tt (Sd (mSrcBase s) (mDstBase s) (mOutBuf s) (mInBuf s)
  (mBitCount s) (mBitBuf s) (mSubBitBuf s) (mBlockSize s) (mCompSize s) (mOrigSize s) (mBadTableFlag s) v
  (mRight s) (mCLen s) (mPTLen s) (mCTable s) (mPTTable s) (mPBit s)).
Definition set_mRight (v : list Z) : D unit := λ s, Done tt (Sd (mSrcBase s) (mDstBase s) (mOutBuf s) (mInBuf s)
  (mBitCount s) (mBitBuf s) (mSubBitBuf s) (mBlockSize s) (mCompSize s) (mOrigSize s) (mBadTableFlag s) (mLeft
  s) v (mCLen s) (mPTLen s) (mCTable s) (mPTTable s) (mPBit s)).
Definition set_mCLen (v : list Z) : D unit := λ s, Done tt (Sd (mSrcBase s) (mDstBase s) (mOutBuf s) (mInBuf s)
  (mBitCount s) (mBitBuf s) (mSubBitBuf s) (mBlockSize s) (mCompSize s) (mOrigSize s) (mBadTableFlag s) (mLeft
  s) (mRight s) v (mPTLen s) (mCTable s) (mPTTable s) (mPBit s)).
Definition set_mPTLen (v : list Z) : D unit := λ s, Done tt (Sd (mSrcBase s) (mDstBase s) (mOutBuf s) (mInBuf s)
  (mBitCount s) (mBitBuf s) (mSubBitBuf s) (mBlockSize s) (mCompSize s) (mOrigSize s) (mBadTableFlag s) (mLeft
  s) (mRight s) (mCLen s) v (mCTable s) (mPTTable s) (mPBit s)).
Definition set_mCTable (v : list Z) : D unit := λ s, Done tt (Sd (mSrcBase s) (mDstBase s) (mOutBuf s) (mInBuf
  s) (mBitCount s) (mBitBuf s) (mSubBitBuf s) (mBlockSize s) (mCompSize s) (mOrigSize s) (mBadTableFlag s)
  (mLeft s) (mRight s) (mCLen s) (mPTLen s) v (mPTTable s) (mPBit s)).
Definition set_mPTTable (v : list Z) : D unit := λ s, Done tt (Sd (mSrcBase s) (mDstBase s) (mOutBuf s) (mInBuf
  s) (mBitCount s) (mBitBuf s) (mSubBitBuf s) (mBlockSize s) (mCompSize s) (mOrigSize s) (mBadTableFlag s)
  (mLeft s) (mRight s) (mCLen s) (mPTLen s) (mCTable s) v (mPBit s)).

(** Array elements. *)
Definition get_at (l : list Z) (i : Z) : D Z :=
  if 0 <=? i then of_option (l !! Z.to_nat i) else bad.
Definition put_at (l : list Z) (i v : Z) : D (list Z) :=
  if (0 <=? i) && (i <? Z.of_nat (length l)) then mret (<[Z.to_nat i := v]> l) else bad.
(** SetMem and SetMem16 for [n] elements from element [i]. *)
Definition set_range (l : list Z) (i n v : Z) : D (list Z) :=
  if (0 <=? i) && (0 <=? n) && (i + n <=? Z.of_nat (length l))
  then mret (take (Z.to_nat i) l ++ replicate (Z.to_nat n) v ++ drop (Z.to_nat (i + n)) l) else bad.

(** Shifts of a UINT32 by less than its width. *)
Definition c_shl32 (x n : Z) : option Z := if (0 <=? n) && (n <? 32) then Some (cast UINT32 (Z.shiftl x n)) else None.
Definition c_shr32 (x n : Z) : option Z := if (0 <=? n) && (n <? 32) then Some (Z.shiftr x n) else None.

(** ** Bits of the source *)

(** The loop of FillBuf; the result is what is left of NumOfBits. *)
Fixpoint fill_loop (fuel : nat) (NumOfBits : Z) : D Z :=
  match fuel with
  | O => spin
  | S fuel =>
      BitCount ← read mBitCount;
      if negb (NumOfBits >? BitCount) then mret NumOfBits else
      let NumOfBits := cast UINT16 (NumOfBits - BitCount) in
      Sub ← read mSubBitBuf;
      x ← of_option (LShiftU64 Sub NumOfBits);
      Buf ← read mBitBuf;
      set_mBitBuf (Z.lor Buf (cast UINT32 x));;
      CompSize ← read mCompSize;
      (if CompSize >? 0 then
         set_mCompSize (CompSize - 1);;
         Src ← read mSrcBase;
         InBuf ← read mInBuf;
         b ← get_at Src InBuf;
         set_mSubBitBuf b;;
         set_mInBuf (cast UINT32 (InBuf + 1));;
         set_mBitCount 8
       else
         set_mSubBitBuf 0;;
         set_mBitCount 8);;
      fill_loop fuel NumOfBits
  end.

Definition FillBuf (NumOfBits : Z) : D unit :=
  Buf ← read mBitBuf;
  x ← of_option (LShiftU64 Buf NumOfBits);
  set_mBitBuf (cast UINT32 x);;
  NumOfBits ← fill_loop (S (S (Z.to_nat NumOfBits))) NumOfBits;
  BitCount ← read mBitCount;
  set_mBitCount (cast UINT16 (BitCount - NumOfBits));;
  BitCount ← read mBitCount;
  Sub ← read mSubBitBuf;
  y ← of_option (c_shr32 Sub BitCount);
  Buf ← read mBitBuf;
  set_mBitBuf (Z.lor Buf y).

Definition GetBits (NumOfBits : Z) : D Z :=
  Buf ← read mBitBuf;
  OutBits ← of_option (c_shr32 Buf (BITBUFSIZ - NumOfBits));
  FillBuf NumOfBits;;
  mret OutBits.

(** ** Huffman tables *)

(** The parameter Table of MakeTable. *)
Inductive table_id := CTable | PTTable.
Definition get_table (T : table_id) : D (list Z) := match T with CTable => read mCTable | PTTable => read mPTTable end.
Definition set_table (T : table_id) (l : list Z) : D unit := match T with CTable => set_mCTable l | PTTable => set_mPTTable l end.

(** What Pointer points to. *)
Inductive cell := InTable (i : Z) | InLeft (i : Z) | InRight (i : Z).
Definition get_cell (T : table_id) (Pointer : cell) : D Z :=
  match Pointer with
  | InTable i => l ← get_table T; get_at l i
  | InLeft i => l ← read mLeft; get_at l i
  | InRight i => l ← read mRight; get_at l i
  end.
Definition put_cell (T : table_id) (Pointer : cell) (v : Z) : D unit :=
  match Pointer with
  | InTable i => l ← get_table T; l ← put_at l i v; set_table T l
  | InLeft i => l ← read mLeft; l ← put_at l i v; set_mLeft l
  | InRight i => l ← read mRight; l ← put_at l i v; set_mRight l
  end.

(** [None] when a code length exceeds 16. *)
Fixpoint count_loop (BitLen Count : list Z) : D (option (list Z)) :=
  match BitLen with
  | [] => mret (Some Count)
  | Len :: BitLen =>
      if Len >? 16 then mret None else
      c ← get_at Count Len;
      Count ← put_at Count Len (cast UINT16 (c + 1));
      count_loop BitLen Count
  end.

(** Start[2] to Start[17] from Count[1] to Count[16]. *)
Fixpoint start_loop (Counts : list Z) (Index WordOfStart : Z) : list Z :=
  match Counts with
  | [] => []
  | WordOfCount :: Counts =>
      let x := cast UINT16 (WordOfStart + Z.shiftl WordOfCount (16 - Index)) in
      x :: start_loop Counts (Index + 1) x
  end.

(** The loops that scale Start and assign Weight. *)
Definition scaled_start (TableBits : Z) (Start : list Z) : list Z :=
  imap (λ i x, let Index := Z.of_nat i in
    if (1 <=? Index) && (Index <=? TableBits) then Z.shiftr x (16 - TableBits) else x) Start.
Definition weights (TableBits : Z) : list Z :=
  0 :: ((λ Index, if Index <=? TableBits then cast UINT16 (Z.shiftl 1 (TableBits - Index))
                  else cast UINT16 (Z.shiftl 1 (16 - Index))) <$> seqZ 1 16).

(** The path of a code that is longer than TableBits: [n] steps. *)
Fixpoint path_loop (n : nat) (T : table_id) (Mask Index3 Avail : Z) (Pointer : cell) : D (cell * Z) :=
  match n with
  | O => mret (Pointer, Avail)
  | S n =>
      p ← get_cell T Pointer;
      Avail ←
        (if (p =? 0) && (Avail <? 2 * NC - 1) then
           l ← read mLeft; l ← put_at l Avail 0; set_mLeft l;;
           r ← read mRight; r ← put_at r Avail 0; set_mRight r;;
           put_cell T Pointer Avail;;
           mret (cast UINT16 (Avail + 1))
         else mret Avail);
      p ← get_cell T Pointer;
      let Pointer := if p <? 2 * NC - 1 then (if negb (Z.land Index3 Mask =? 0) then InRight p else InLeft p)
                     else Pointer in
      path_loop n T Mask (cast UINT16 (Z.shiftl Index3 1)) Avail Pointer
  end.

(** The loop over the characters, from [Char] on. *)
Fixpoint char_loop (BitLen : list Z) (T : table_id) (TableBits : Z) (Weight : list Z)
    (Char : Z) (Start : list Z) (Avail : Z) : D Z :=
  match BitLen with
  | [] => mret 0
  | Len :: BitLen =>
      if (Len =? 0) || (Len >=? 17) then char_loop BitLen T TableBits Weight (Char + 1) Start Avail else
      start ← get_at Start Len;
      weight ← get_at Weight Len;
      let NextCode := cast UINT16 (start + weight) in
      if Len <=? TableBits then
        if (start >=? NextCode) || (NextCode >? cast UINT16 (Z.shiftl 1 TableBits)) then mret (cast UINT16 BAD_TABLE) else
        l ← get_table T;
        l ← set_range l start (NextCode - start) Char;
        set_table T l;;
        Start ← put_at Start Len NextCode;
        char_loop BitLen T TableBits Weight (Char + 1) Start Avail
      else
        '(Pointer, Avail) ← path_loop (Z.to_nat (Len - TableBits)) T (cast UINT16 (Z.shiftl 1 (15 - TableBits))) start Avail
          (InTable (Z.shiftr start (16 - TableBits)));
        put_cell T Pointer Char;;
        Start ← put_at Start Len NextCode;
        char_loop BitLen T TableBits Weight (Char + 1) Start Avail
  end.

Definition MakeTable (NumOfChar : Z) (BitLen : list Z) (TableBits : Z) (T : table_id) : D Z :=
  require (TableBits <=? 16);;
  require (NumOfChar <=? Z.of_nat (length BitLen));;
  let BitLen := take (Z.to_nat NumOfChar) BitLen in
  Count ← count_loop BitLen (replicate 17 0);
  match Count with
  | None => mret (cast UINT16 BAD_TABLE)
  | Some Count =>
      let Start := 0 :: 0 :: start_loop (drop 1 Count) 1 0 in
      last ← get_at Start 17;
      if negb (last =? 0) then mret (cast UINT16 BAD_TABLE) else
      let JuBits := 16 - TableBits in
      let Start := scaled_start TableBits Start in
      first ← get_at Start (TableBits + 1);
      let Index := Z.shiftr first JuBits in
      let Index3 := cast UINT16 (Z.shiftl 1 TableBits) in
      (if negb (Index =? 0) && (Index <? Index3)
       then l ← get_table T; l ← set_range l Index (Index3 - Index) 0; set_table T l
       else mret tt);;
      char_loop BitLen T TableBits (weights TableBits) 0 Start NumOfChar
  end.

(** ** Decoding *)

(** The loops of DecodeC, DecodeP and ReadCLen that follow the bits of the buffer to a
    leaf below [Limit]. *)
Fixpoint walk (fuel : nat) (Limit Mask Val : Z) : D Z :=
  match fuel with
  | O => lost
  | S fuel =>
      Buf ← read mBitBuf;
      l ← (if negb (Z.land Buf Mask =? 0) then read mRight else read mLeft);
      Val ← get_at l Val;
      if Val >=? Limit then walk fuel Limit (Z.shiftr Mask 1) Val else mret Val
  end.

(** A value of table [T]. *)
Definition lookup (fuel : nat) (T : table_id) (TableBits Limit : Z) : D Z :=
  Buf ← read mBitBuf;
  i ← of_option (c_shr32 Buf (BITBUFSIZ - TableBits));
  l ← get_table T;
  Val ← get_at l i;
  if Val >=? Limit then walk fuel Limit (Z.shiftl 1 (BITBUFSIZ - 1 - TableBits)) Val else mret Val.

Definition DecodeP (fuel : nat) : D Z :=
  Val ← lookup fuel PTTable 8 MAXNP;
  l ← read mPTLen;
  n ← get_at l Val;
  FillBuf n;;
  if Val >? 1 then
    x ← of_option (c_shl32 1 (Val - 1));
    b ← GetBits (Val - 1);
    mret (cast UINT32 (x + b))
  else mret Val.

(** The ones that lengthen a code length. *)
Fixpoint ones_loop (fuel : nat) (Mask CharC : Z) : D Z :=
  match fuel with
  | O => spin
  | S fuel =>
      Buf ← read mBitBuf;
      if negb (Z.land Mask Buf =? 0) then ones_loop fuel (Z.shiftr Mask 1) (cast UINT16 (CharC + 1)) else mret CharC
  end.

(** A run of zero lengths: the array with index after it. *)
Fixpoint zero_loop (fuel : nat) (Size CharC Index : Z) (Lens : list Z) : D (list Z * Z) :=
  match fuel with
  | O => spin
  | S fuel =>
      let CharC := cast UINT16 (CharC - 1) in
      if (cast INT16 CharC >=? 0) && (Index <? Size)
      then Lens ← put_at Lens Index 0; zero_loop fuel Size CharC (Index + 1) Lens
      else mret (Lens, Index)
  end.

Definition put_PTLen (Index v : Z) : D unit := l ← read mPTLen; l ← put_at l Index v; set_mPTLen l.
Definition put_CLen (Index v : Z) : D unit := l ← read mCLen; l ← put_at l Index v; set_mCLen l.

(** The code lengths of the Extra Set or the Position Set; the result is Index. *)
Fixpoint pt_len_loop (fuel : nat) (Number Special Index : Z) : D Z :=
  match fuel with
  | O => spin
  | S fuel =>
      if negb ((Index <? Number) && (Index <? NPT)) then mret Index else
      Buf ← read mBitBuf;
      let CharC := cast UINT16 (Z.shiftr Buf (BITBUFSIZ - 3)) in
      CharC ← (if CharC =? 7 then ones_loop 64 (Z.shiftl 1 (BITBUFSIZ - 1 - 3)) CharC else mret CharC);
      FillBuf (cast UINT16 (if CharC <? 7 then 3 else CharC - 3));;
      put_PTLen Index (cast UINT8 CharC);;
      let Index := Index + 1 in
      Index ←
        (if Index =? Special then
           CharC ← GetBits 2;
           l ← read mPTLen;
           '(l, Index) ← zero_loop (S (Z.to_nat CharC)) NPT (cast UINT16 CharC) Index l;
           set_mPTLen l;; mret Index
         else mret Index);
      pt_len_loop fuel Number Special Index
  end.

Definition ReadPTLen (nn nbit Special : Z) : D Z :=
  require (nn <=? NPT);;
  Number ← GetBits nbit;
  let Number := cast UINT16 Number in
  if Number =? 0 then
    CharC ← GetBits nbit;
    l ← read mPTTable;
    l ← set_range l 0 (Z.of_nat (length l)) (cast UINT16 CharC);
    set_mPTTable l;;
    l ← read mPTLen;
    l ← set_range l 0 nn 0;
    set_mPTLen l;;
    mret 0
  else
    Index ← pt_len_loop (S (Z.to_nat NPT)) Number Special 0;
    l ← read mPTLen;
    (* while (Index < nn && Index < NPT) *)
    l ← set_range l Index (Z.max 0 (Z.min nn NPT - Index)) 0;
    set_mPTLen l;;
    MakeTable nn l 8 PTTable.

(** The code lengths of the Char&Len Set; the result is Index. *)
Fixpoint c_len_loop (walk_fuel fuel : nat) (Number Index : Z) : D Z :=
  match fuel with
  | O => spin
  | S fuel =>
      if negb ((Index <? Number) && (Index <? NC)) then mret Index else
      CharC ← lookup walk_fuel PTTable 8 NT;
      l ← read mPTLen;
      n ← get_at l CharC;
      FillBuf n;;
      if CharC <=? 2 then
        CharC ←
          (if CharC =? 0 then mret 1
           else if CharC =? 1 then b ← GetBits 4; mret (cast UINT16 (b + 3))
           else b ← GetBits CBIT; mret (cast UINT16 (b + 20)));
        l ← read mCLen;
        '(l, Index) ← zero_loop (S (Z.to_nat CharC)) NC CharC Index l;
        set_mCLen l;;
        c_len_loop walk_fuel fuel Number Index
      else
        put_CLen Index (cast UINT8 (CharC - 2));;
        c_len_loop walk_fuel fuel Number (Index + 1)
  end.

(** The result of MakeTable is dropped. *)
Definition ReadCLen (walk_fuel : nat) : D unit :=
  Number ← GetBits CBIT;
  let Number := cast UINT16 Number in
  if Number =? 0 then
    CharC ← GetBits CBIT;
    l ← read mCLen;
    l ← set_range l 0 NC 0;
    set_mCLen l;;
    l ← read mCTable;
    l ← set_range l 0 (Z.of_nat (length l)) (cast UINT16 CharC);
    set_mCTable l
  else
    Index ← c_len_loop walk_fuel (S (Z.to_nat NC)) Number 0;
    l ← read mCLen;
    l ← set_range l Index (NC - Index) 0;
    set_mCLen l;;
    MakeTable NC l 12 CTable;;
    mret tt.

(** The header of a block; [true] when a table is bad. *)
Definition read_tables (walk_fuel : nat) : D bool :=
  BlockSize ← GetBits 16;
  set_mBlockSize (cast UINT16 BlockSize);;
  Flag ← ReadPTLen NT TBIT 3;
  set_mBadTableFlag Flag;;
  if negb (Flag =? 0) then mret true else
  ReadCLen walk_fuel;;
  PBit ← read mPBit;
  Flag ← ReadPTLen MAXNP PBit (cast UINT16 (-1));
  set_mBadTableFlag Flag;;
  mret (negb (Flag =? 0)).

Definition DecodeC (walk_fuel : nat) : D Z :=
  BlockSize ← read mBlockSize;
  bad_table ← (if BlockSize =? 0 then read_tables walk_fuel else mret false);
  if (bad_table : bool) then mret 0 else
  BlockSize ← read mBlockSize;
  set_mBlockSize (cast UINT16 (BlockSize - 1));;
  Index2 ← lookup walk_fuel CTable 12 NC;
  l ← read mCLen;
  n ← get_at l Index2;
  FillBuf n;;
  mret Index2.

(** One byte at the end of the output. *)
Definition put_byte (v : Z) : D unit :=
  Out ← read mOutBuf;
  l ← read mDstBase;
  l ← put_at l Out v;
  set_mDstBase l;;
  set_mOutBuf (cast UINT32 (Out + 1)).

(** The bytes of a pointer; [true] is the jump to Done. *)
Fixpoint copy_loop (fuel : nat) (BytesRemain DataIdx : Z) : D bool :=
  match fuel with
  | O => spin
  | S fuel =>
      if negb (cast INT16 BytesRemain >=? 0) then mret false else
      Out ← read mOutBuf;
      Orig ← read mOrigSize;
      if Out >=? Orig then mret true else
      if DataIdx >=? Orig then set_mBadTableFlag (cast UINT16 BAD_TABLE);; mret true else
      l ← read mDstBase;
      b ← get_at l DataIdx;
      put_byte b;;
      copy_loop fuel (cast UINT16 (BytesRemain - 1)) (cast UINT32 (DataIdx + 1))
  end.

Fixpoint decode_loop (walk_fuel fuel : nat) : D unit :=
  match fuel with
  | O => spin
  | S fuel =>
      CharC ← DecodeC walk_fuel;
      Flag ← read mBadTableFlag;
      if negb (Flag =? 0) then mret tt else
      if CharC <? 256 then
        Out ← read mOutBuf;
        Orig ← read mOrigSize;
        if Out >=? Orig then mret tt else
        put_byte (cast UINT8 CharC);;
        decode_loop walk_fuel fuel
      else
        let BytesRemain := cast UINT16 (CharC - (BIT8 - THRESHOLD)) in
        Out ← read mOutBuf;
        P ← DecodeP walk_fuel;
        let DataIdx := cast UINT32 (Out - P - 1) in
        finished ← copy_loop (S (Z.to_nat BytesRemain)) (cast UINT16 (BytesRemain - 1)) DataIdx;
        if (finished : bool) then mret tt else
        Out ← read mOutBuf;
        Orig ← read mOrigSize;
        if Out >=? Orig then mret tt else decode_loop walk_fuel fuel
  end.

(** Each round of the loop but the last writes to the output. *)
Definition Decode (walk_fuel : nat) : D unit :=
  Orig ← read mOrigSize; decode_loop walk_fuel (S (S (Z.to_nat Orig))).

(** ** Entry points *)

(** A little-endian UINT32. *)
Definition le32_at (Src : list Z) (i : Z) : option Z :=
  b0 ← Src !! Z.to_nat i; b1 ← Src !! Z.to_nat (i + 1); b2 ← Src !! Z.to_nat (i + 2); b3 ← Src !! Z.to_nat (i + 3);
  Some (cast UINT32 (b0 + Z.shiftl b1 8 + Z.shiftl b2 16 + Z.shiftl b3 24)).

(** The status with DestinationSize and ScratchSize; [sizeof_SCRATCH_DATA] is the
    compiler's. *)
Definition UefiDecompressGetInfo (sizeof_SCRATCH_DATA : Z) (Source : list Z) (SourceSize : Z)
    : option (Z * option (Z * Z)) :=
  if SourceSize <? 8 then Some (RETURN_INVALID_PARAMETER, None) else
  CompressedSize ← le32_at Source 0;
  let End := cast UINT32 (CompressedSize + 8) in
  if (SourceSize <? End) || (End <? 8) then Some (RETURN_INVALID_PARAMETER, None) else
  DestinationSize ← le32_at Source 4;
  Some (RETURN_SUCCESS, Some (DestinationSize, sizeof_SCRATCH_DATA)).

(** The scratch data after SetMem and the assignments. *)
Definition initial (Src Dst : list Z) (CompSize OrigSize PBit : Z) : SCRATCH_DATA :=
  Sd Src Dst 0 0 0 0 0 0 CompSize OrigSize 0
    (replicate (Z.to_nat (2 * NC - 1)) 0) (replicate (Z.to_nat (2 * NC - 1)) 0)
    (replicate (Z.to_nat NC) 0) (replicate (Z.to_nat NPT) 0) (replicate 4096 0) (replicate 256 0) PBit.

Definition tiano_body (walk_fuel : nat) : D Z :=
  FillBuf BITBUFSIZ;;
  Decode walk_fuel;;
  Flag ← read mBadTableFlag;
  mret (if negb (Flag =? 0) then RETURN_INVALID_PARAMETER else RETURN_SUCCESS).

(** The result is the status and the destination buffer; [OutOfFuel] is a loop that
    outlives its fuel, [Searching] the search of a code tree after [walk_fuel] steps. *)
Inductive result := Returns (Status : Z) (Destination : list Z) | Undefined | OutOfFuel | Searching.

Definition UefiTianoDecompress (walk_fuel : nat) (Source Destination : list Z) (Version : Z) : result :=
  if negb ((Version =? 1) || (Version =? 2)) then Undefined else
  match le32_at Source 0, le32_at Source 4 with
  | Some CompSize, Some OrigSize =>
      if OrigSize =? 0 then Returns RETURN_SUCCESS Destination else
      match tiano_body walk_fuel
              (initial (drop 8 Source) Destination CompSize OrigSize (if Version =? 1 then 4 else 5)) with
      | Done Status s => Returns Status (mDstBase s)
      | Bad => Undefined
      | Spin => OutOfFuel
      | Lost => Searching
      end
  | _, _ => Undefined
  end.

Definition UefiDecompress (walk_fuel : nat) (Source Destination : list Z) : result :=
  UefiTianoDecompress walk_fuel Source Destination 1.
