(* ===== verification/DecompressBits.v ===== *)
(** * The bit reader of the decompressor

    The buffer, the byte behind it and the rest of the source are one stream of bits,
    padded with zeros; FillBuf drops bits of it and GetBits returns them. *)
From S2P Require Import Prelude CBase Math64 Decompress.
Local Open Scope Z_scope.

(** ** Execution rules *)

(** [wpd P m Q s]: [m] does nothing undefined, an outcome satisfies [Q], no loop
    runs out of fuel, and a search of a code tree does only if [P]. *)
Definition wpd {A} (P : Prop) (m : D A) (Q : A → SCRATCH_DATA → Prop) (s : SCRATCH_DATA) : Prop :=
  match m s with Done x s' => Q x s' | Bad | Spin => False | Lost => P end.

Section rules.
Context (P : Prop).

Lemma wpd_ret {A} (x : A) (Q : A → SCRATCH_DATA → Prop) s : Q x s → wpd P (mret x) Q s.
Proof. done. Qed.

Lemma wpd_bind {A B} (m : D A) (k : A → D B) Q s :
  wpd P m (λ x s', wpd P (k x) Q s') s → wpd P (m ≫= k) Q s.
Proof. unfold wpd, mbind, D_bind. by destruct (m s). Qed.

Lemma wpd_assoc {A B C} (m : D A) (f : A → D B) (g : B → D C) Q s :
  wpd P (m ≫= f) (λ x s', wpd P (g x) Q s') s → wpd P (m ≫= λ y, f y ≫= g) Q s.
Proof. unfold wpd, mbind, D_bind. destruct (m s) as [x s'| | |]; [|done..]. by destruct (f x s'). Qed.

Lemma wpd_mono {A} (m : D A) (Q R : A → SCRATCH_DATA → Prop) s :
  wpd P m Q s → (∀ x s', Q x s' → R x s') → wpd P m R s.
Proof. unfold wpd. destruct (m s); auto. Qed.

Lemma wpd_read {A} (f : SCRATCH_DATA → A) (Q : A → SCRATCH_DATA → Prop) s : Q (f s) s → wpd P (read f) Q s.
Proof. done. Qed.

Lemma wpd_some {A} (x : A) o (Q : A → SCRATCH_DATA → Prop) s : o = Some x → Q x s → wpd P (of_option o) Q s.
Proof. by intros ->. Qed.

Lemma wpd_require b (Q : unit → SCRATCH_DATA → Prop) s : b = true → Q tt s → wpd P (require b) Q s.
Proof. by intros ->. Qed.

Lemma wpd_get_at l i v (Q : Z → SCRATCH_DATA → Prop) s :
  0 ≤ i → l !! Z.to_nat i = Some v → Q v s → wpd P (get_at l i) Q s.
Proof. intros Hi Hl HQ. unfold get_at. rewrite (proj2 (Z.leb_le _ _)) by done. by rewrite Hl. Qed.

Lemma wpd_put_at l i v (Q : list Z → SCRATCH_DATA → Prop) s :
  0 ≤ i < Z.of_nat (length l) → Q (<[Z.to_nat i := v]> l) s → wpd P (put_at l i v) Q s.
Proof. intros Hi HQ. unfold put_at. by rewrite (proj2 (Z.leb_le _ _)), (proj2 (Z.ltb_lt _ _)) by lia. Qed.

Lemma wpd_set_range l i n v (Q : list Z → SCRATCH_DATA → Prop) s :
  0 ≤ i → 0 ≤ n → i + n ≤ Z.of_nat (length l) →
  Q (take (Z.to_nat i) l ++ replicate (Z.to_nat n) v ++ drop (Z.to_nat (i + n)) l) s → wpd P (set_range l i n v) Q s.
Proof. intros Hi Hn Hl HQ. unfold set_range. by rewrite !(proj2 (Z.leb_le _ _)) by lia. Qed.
End rules.

(** Go through the sequencing, reads and assignments at the head of a program. *)
Ltac wpd_seq :=
  repeat lazymatch goal with
  | |- wpd _ (_ ≫= _) _ _ => apply wpd_bind
  | |- wpd _ (mret _) _ _ => apply wpd_ret
  | |- wpd _ (read _) _ _ => apply wpd_read
  end.

(** An assignment to a field of the scratch data. *)
Ltac wpd_set :=
  match goal with
  | |- wpd _ ?m ?Q ?s =>
      let r := eval hnf in (m s) in
      match r with Done ?x ?s' =>
        let s'' := eval cbn [mSrcBase mDstBase mOutBuf mInBuf mBitCount mBitBuf mSubBitBuf mBlockSize mCompSize mOrigSize
          mBadTableFlag mLeft mRight mCLen mPTLen mCTable mPTTable mPBit] in s' in
        change (Q x s''); cbv beta
      end
  end.

(** ** The stream *)

(** The [n] low bits of [x], the highest first. *)
Fixpoint low_bits (n : nat) (x : Z) : list bool :=
  match n with O => [] | S n => Z.testbit x (Z.of_nat n) :: low_bits n x end.

Definition source_bits (s : SCRATCH_DATA) : list bool :=
  take (Z.to_nat (mCompSize s)) (drop (Z.to_nat (mInBuf s)) (mSrcBase s)) ≫= low_bits 8.

(** The bits behind the buffer, and all bits. *)
Definition tail_bits (s : SCRATCH_DATA) : list bool := low_bits (Z.to_nat (mBitCount s)) (mSubBitBuf s) ++ source_bits s.
Definition stream (s : SCRATCH_DATA) : list bool := low_bits 32 (mBitBuf s) ++ tail_bits s.

(** A list of bits, padded with zeros. *)
Definition bit (l : list bool) (i : nat) : bool := default false (l !! i).

Record reader_ok (s : SCRATCH_DATA) : Prop := ReaderOk {
  ro_buf : 0 ≤ mBitBuf s < 2 ^ 32;
  ro_sub : 0 ≤ mSubBitBuf s < 2 ^ 8;
  ro_count : 0 ≤ mBitCount s ≤ 8;
  ro_seen j : mBitCount s ≤ j < 8 → Z.testbit (mBitBuf s) (j - mBitCount s) = Z.testbit (mSubBitBuf s) j;
  ro_src b : b ∈ mSrcBase s → 0 ≤ b < 2 ^ 8;
  ro_in : 0 ≤ mInBuf s ∧ 0 ≤ mCompSize s ∧ mInBuf s + mCompSize s ≤ Z.of_nat (length (mSrcBase s));
  ro_size : Z.of_nat (length (mSrcBase s)) < 2 ^ 32 }.

(** The fields of the reader are replaced. *)
Definition with_reader (s : SCRATCH_DATA) (InBuf BitCount BitBuf SubBitBuf CompSize : Z) : SCRATCH_DATA :=
  Sd (mSrcBase s) (mDstBase s) (mOutBuf s) InBuf BitCount BitBuf SubBitBuf
    (mBlockSize s) CompSize (mOrigSize s) (mBadTableFlag s) (mLeft s) (mRight s) (mCLen s) (mPTLen s)
    (mCTable s) (mPTTable s) (mPBit s).

(** Only they have changed. *)
Definition read_on (s s' : SCRATCH_DATA) : Prop :=
  s' = with_reader s (mInBuf s') (mBitCount s') (mBitBuf s') (mSubBitBuf s') (mCompSize s').

Lemma read_on_refl s : read_on s s.
Proof. by destruct s. Qed.

Lemma read_on_trans s1 s2 s3 : read_on s1 s2 → read_on s2 s3 → read_on s1 s3.
Proof. unfold read_on. intros H12 H23. by rewrite H12 in H23. Qed.

(** ** Bits of lists *)

Lemma length_low_bits n x : length (low_bits n x) = n.
Proof. induction n; cbn; congruence. Qed.

Lemma lookup_low_bits n x i : (i < n)%nat → low_bits n x !! i = Some (Z.testbit x (Z.of_nat (n - 1 - i))).
Proof.
  revert i. induction n as [|n IH]; intros i Hi; [lia|]. cbn [low_bits]. destruct i as [|i].
  - cbn. do 2 f_equal. lia.
  - change ((Z.testbit x (Z.of_nat n) :: low_bits n x) !! S i) with (low_bits n x !! i). rewrite IH by lia. do 2 f_equal. lia.
Qed.

Lemma bit_low_bits n x i : (i < n)%nat → bit (low_bits n x) i = Z.testbit x (Z.of_nat (n - 1 - i)).
Proof. intros Hi. unfold bit. by rewrite lookup_low_bits. Qed.

Lemma bit_app_l l k i : (i < length l)%nat → bit (l ++ k) i = bit l i.
Proof. intros Hi. unfold bit. by rewrite lookup_app_l. Qed.

Lemma bit_app_r l k i : (length l ≤ i)%nat → bit (l ++ k) i = bit k (i - length l).
Proof. intros Hi. unfold bit. by rewrite lookup_app_r. Qed.

Lemma bit_beyond l i : (length l ≤ i)%nat → bit l i = false.
Proof. intros Hi. unfold bit. by rewrite lookup_ge_None_2. Qed.

Lemma bit_drop l n i : bit (drop n l) i = bit l (n + i).
Proof. unfold bit. by rewrite lookup_drop. Qed.

Lemma bit_cons_0 b l : bit (b :: l) 0 = b.
Proof. done. Qed.

(** The next byte of the source. *)
Lemma source_bits_cons s : reader_ok s → 0 < mCompSize s → ∃ b, mSrcBase s !! Z.to_nat (mInBuf s) = Some b ∧ 0 ≤ b < 2 ^ 8 ∧
  source_bits s = low_bits 8 b ++
    (take (Z.to_nat (mCompSize s - 1)) (drop (Z.to_nat (mInBuf s + 1)) (mSrcBase s)) ≫= low_bits 8).
Proof.
  intros Hs Hc. destruct (ro_in _ Hs) as (Hi & _ & Hl).
  destruct (lookup_lt_is_Some_2 (mSrcBase s) (Z.to_nat (mInBuf s))) as [b Hb]; [lia|]. exists b.
  split; [done|]. split; [by apply (ro_src _ Hs); eapply list_elem_of_lookup_2|].
  unfold source_bits. rewrite (drop_S _ b) by done.
  replace (Z.to_nat (mCompSize s)) with (S (Z.to_nat (mCompSize s - 1))) by lia.
  replace (S (Z.to_nat (mInBuf s))) with (Z.to_nat (mInBuf s + 1)) by lia. done.
Qed.

Lemma testbit_high x n i : 0 ≤ x < 2 ^ n → n ≤ i → Z.testbit x i = false.
Proof.
  intros Hx Hi. destruct (Z.le_gt_cases 0 n); [|rewrite Z.pow_neg_r in Hx by lia; lia].
  rewrite <-(Z.mod_small x (2 ^ n)) by done. by apply Z.mod_pow2_bits_high.
Qed.

Lemma cast_UINT_bits t x i : signed t = false → 0 ≤ i < width t → Z.testbit (cast t x) i = Z.testbit x i.
Proof. intros Ht Hi. unfold cast. rewrite Ht. apply Z.mod_pow2_bits_low. lia. Qed.

Lemma lor_bound x y n : 0 ≤ n → 0 ≤ x < 2 ^ n → 0 ≤ y < 2 ^ n → 0 ≤ Z.lor x y < 2 ^ n.
Proof.
  intros Hn Hx Hy. assert (0 ≤ Z.lor x y) by by apply Z.lor_nonneg; lia. split; [done|].
  destruct (Z.eq_dec (Z.lor x y) 0) as [->|]; [by apply Z.pow_pos_nonneg|].
  apply Z.log2_lt_pow2; [lia|]. rewrite Z.log2_lor by lia.
  destruct (Z.eq_dec n 0) as [->|].
  { assert (x = 0) as -> by lia. assert (y = 0) as -> by lia. done. }
  apply Z.max_lub_lt.
  - destruct (Z.eq_dec x 0) as [->|]; [cbn; lia|]. apply Z.log2_lt_pow2; lia.
  - destruct (Z.eq_dec y 0) as [->|]; [cbn; lia|]. apply Z.log2_lt_pow2; lia.
Qed.

Lemma cast_UINT32_bound x : 0 ≤ cast UINT32 x < 2 ^ 32.
Proof. unfold cast. cbn. by apply Z.mod_pos_bound. Qed.

(** ** FillBuf *)

Ltac rd_cbn := cbn [with_reader mSrcBase mInBuf mBitCount mBitBuf mSubBitBuf mCompSize].

(** Bit [i] of the stream when [n] bits of the buffer are still to be filled. *)
Definition next_bit (s : SCRATCH_DATA) (n : Z) (i : nat) : bool :=
  if decide (Z.of_nat i + n < 32) then Z.testbit (mBitBuf s) (31 - Z.of_nat i)
  else bit (tail_bits s) (Z.to_nat (Z.of_nat i + n - 32)).

Record filling (F : nat → bool) (s : SCRATCH_DATA) (n : Z) : Prop := Filling {
  fi_buf : 0 ≤ mBitBuf s < 2 ^ 32;
  fi_sub : 0 ≤ mSubBitBuf s < 2 ^ 8;
  fi_count : 0 ≤ mBitCount s ≤ 8;
  fi_seen j : mBitCount s ≤ j < 8 → n + j - mBitCount s < 32 →
    Z.testbit (mBitBuf s) (n + j - mBitCount s) = Z.testbit (mSubBitBuf s) j;
  fi_low j : 0 ≤ j < n → Z.testbit (mBitBuf s) j = false;
  fi_src b : b ∈ mSrcBase s → 0 ≤ b < 2 ^ 8;
  fi_in : 0 ≤ mInBuf s ∧ 0 ≤ mCompSize s ∧ mInBuf s + mCompSize s ≤ Z.of_nat (length (mSrcBase s));
  fi_size : Z.of_nat (length (mSrcBase s)) < 2 ^ 32;
  fi_bits i : next_bit s n i = F i }.

Lemma bit_tail_sub s i : 0 ≤ mBitCount s → Z.of_nat i < mBitCount s →
  bit (tail_bits s) i = Z.testbit (mSubBitBuf s) (mBitCount s - 1 - Z.of_nat i).
Proof.
  intros Hc Hi. unfold tail_bits. rewrite bit_app_l by (rewrite length_low_bits; lia).
  rewrite bit_low_bits by lia. f_equal. lia.
Qed.

Lemma bit_tail_source s i : 0 ≤ mBitCount s → mBitCount s ≤ Z.of_nat i →
  bit (tail_bits s) i = bit (source_bits s) (Z.to_nat (Z.of_nat i - mBitCount s)).
Proof.
  intros Hc Hi. unfold tail_bits. rewrite bit_app_r by (rewrite length_low_bits; lia).
  rewrite length_low_bits. f_equal. lia.
Qed.

Lemma LShiftU64_ok x n : 0 ≤ n < 64 → LShiftU64 x n = Some (cast UINT64 (Z.shiftl x n)).
Proof.
  intros Hn. unfold LShiftU64, InternalMathLShiftU64, c_shl64, assert_then.
  by rewrite (proj2 (Z.leb_le _ _)), !(proj2 (Z.ltb_lt _ _)) by lia.
Qed.

Lemma shl_bits x n i : 0 ≤ i < 32 → 0 ≤ n →
  Z.testbit (cast UINT32 (cast UINT64 (Z.shiftl x n))) i = Z.testbit x (i - n).
Proof. intros Hi Hn. rewrite !cast_UINT_bits by (done || (cbn; lia)). apply Z.shiftl_spec. lia. Qed.

(** The byte that is put behind the buffer. *)
Lemma filling_step F s n k sub inb comp :
  filling F s n → mBitCount s < n → k = n - mBitCount s → n < 64 →
  0 ≤ sub < 2 ^ 8 → 0 ≤ inb ∧ 0 ≤ comp ∧ inb + comp ≤ Z.of_nat (length (mSrcBase s)) →
  (∀ i, bit (source_bits s) i = bit (low_bits 8 sub ++ (take (Z.to_nat comp) (drop (Z.to_nat inb) (mSrcBase s)) ≫= low_bits 8)) i) →
  filling F (with_reader s inb 8 (Z.lor (mBitBuf s) (cast UINT32 (cast UINT64 (Z.shiftl (mSubBitBuf s) k)))) sub comp) k.
Proof.
  intros [Hbuf Hsub Hc Hseen Hlow Hsrc Hin Hsz HF] Hn -> Hn64 Hsub' Hin' Hnext.
  set (c := mBitCount s) in *.
  assert (Hbit : ∀ i, 0 ≤ i < 32 → Z.testbit (Z.lor (mBitBuf s) (cast UINT32 (cast UINT64 (Z.shiftl (mSubBitBuf s) (n - c))))) i
    = if decide (i < n) then Z.testbit (mSubBitBuf s) (i - (n - c)) else Z.testbit (mBitBuf s) i).
  { intros i Hi. rewrite Z.lor_spec, shl_bits by lia. case_decide.
    - by rewrite Hlow by lia.
    - destruct (Z.lt_ge_cases (i - (n - c)) 8) as [Hj|Hj].
      + specialize (Hseen (i - (n - c))). rewrite <-Hseen by lia. replace (n + (i - (n - c)) - c) with i by lia. apply orb_diag.
      + rewrite (testbit_high (mSubBitBuf s) 8) by done. apply orb_false_r. }
  split; cbn; [|done|lia|lia| |done|done|done|].
  - apply lor_bound; [lia|done|apply cast_UINT32_bound].
  - intros j Hj. destruct (Z.lt_ge_cases j 32).
    + rewrite Hbit by lia. rewrite decide_True by lia. apply Z.testbit_neg_r. lia.
    + apply (testbit_high _ 32); [apply lor_bound; [lia|done|apply cast_UINT32_bound]|lia].
  - intros i. rewrite <-HF. unfold next_bit. cbn. case_decide.
    + rewrite Hbit by lia. case_decide; [|by rewrite decide_True by lia].
      rewrite (decide_False (P := Z.of_nat i + n < 32)) by lia. rewrite bit_tail_sub by lia. fold c. f_equal. lia.
    + rewrite decide_False by lia. rewrite (bit_tail_source s) by lia. fold c. rewrite Hnext.
      unfold tail_bits, source_bits. cbn. f_equal. lia.
Qed.

Lemma fill_loop_spec (P : Prop) F fuel n s (Q : Z → SCRATCH_DATA → Prop) :
  filling F s n → 0 ≤ n < 64 → n + (if decide (mBitCount s = 0) then 1 else 0) < Z.of_nat fuel →
  (∀ k s', 0 ≤ k ≤ mBitCount s' → filling F s' k → read_on s s' → Q k s') → wpd P (fill_loop fuel n) Q s.
Proof.
  revert n s. induction fuel as [|fuel IH]; intros n s Hf Hn Hfuel HQ; [case_decide; lia|]. cbn [fill_loop]. wpd_seq.
  rewrite Z.gtb_ltb. destruct (Z.ltb_spec (mBitCount s) n) as [Hc|Hc]; cbn [negb].
  2:{ wpd_seq. apply HQ; [lia|done|apply read_on_refl]. }
  assert (Hk : cast UINT16 (n - mBitCount s) = n - mBitCount s).
  { destruct (fi_count _ _ _ Hf). apply cast_id; [done|]. cint_unfold. lia. }
  rewrite Hk. wpd_seq. destruct (fi_count _ _ _ Hf) as [Hc0 Hc8], (fi_in _ _ _ Hf) as (Hi & Hs & Hl).
  eapply wpd_some; [apply LShiftU64_ok; lia|]. wpd_seq. wpd_set. wpd_seq. cbn [mCompSize].
  rewrite Z.gtb_ltb. destruct (Z.ltb_spec 0 (mCompSize s)) as [Hpos|Hz].
  - destruct (lookup_lt_is_Some_2 (mSrcBase s) (Z.to_nat (mInBuf s))) as [b Hb]; [lia|].
    wpd_seq. wpd_set. wpd_seq. cbn [mSrcBase mInBuf]. eapply wpd_get_at; [lia|exact Hb|].
    wpd_seq. wpd_set. wpd_seq. wpd_set. wpd_set.
    rewrite (cast_id UINT32 (mInBuf s + 1)) by (done || (pose proof (fi_size _ _ _ Hf); cint_unfold; lia)).
    eapply IH; [eapply (filling_step F s n _ b (mInBuf s + 1) (mCompSize s - 1)); [done|done|done|lia| |lia|]| | |].
    + apply (fi_src _ _ _ Hf). by eapply list_elem_of_lookup_2.
    + intros i. unfold source_bits. rewrite (drop_S _ b) by done.
      replace (Z.to_nat (mCompSize s)) with (S (Z.to_nat (mCompSize s - 1))) by lia.
      by replace (S (Z.to_nat (mInBuf s))) with (Z.to_nat (mInBuf s + 1)) by lia.
    + lia.
    + rewrite decide_False by done. revert Hfuel. case_decide; lia.
    + intros k' s' Hk' Hf' Hr. apply HQ; [done..|]. eapply read_on_trans; [|exact Hr]. reflexivity.
  - wpd_seq. wpd_set. wpd_set.
    eapply IH; [eapply (filling_step F s n _ 0 (mInBuf s) (mCompSize s)); [done|done|done|lia|done|done|]| | |].
    + intros i. unfold source_bits. replace (Z.to_nat (mCompSize s)) with 0%nat by lia. cbn.
      do 8 (destruct i as [|i]; [done|]). done.
    + lia.
    + rewrite decide_False by done. revert Hfuel. case_decide; lia.
    + intros k' s' Hk' Hf' Hr. apply HQ; [done..|]. eapply read_on_trans; [|exact Hr]. reflexivity.
Qed.

(** The bits that have been filled belong to the stream. *)
Lemma filling_start s n : reader_ok s → 0 ≤ n < 64 →
  filling (λ i, bit (stream s) (Z.to_nat n + i))
    (with_reader s (mInBuf s) (mBitCount s) (cast UINT32 (cast UINT64 (Z.shiftl (mBitBuf s) n))) (mSubBitBuf s) (mCompSize s)) n.
Proof.
  intros [Hbuf Hsub Hc Hseen Hsrc Hin Hsz] Hn. split; rd_cbn; try done.
  - apply cast_UINT32_bound.
  - intros j Hj Hlt. rewrite shl_bits by lia. rewrite <-Hseen by lia. f_equal. lia.
  - intros j Hj. destruct (Z.lt_ge_cases j 32).
    + rewrite shl_bits by lia. apply Z.testbit_neg_r. lia.
    + apply (testbit_high _ 32); [apply cast_UINT32_bound|lia].
  - intros i. unfold next_bit, stream. rd_cbn. case_decide.
    + rewrite shl_bits by lia. rewrite bit_app_l by (rewrite length_low_bits; lia).
      rewrite bit_low_bits by lia. f_equal. lia.
    + rewrite bit_app_r by (rewrite length_low_bits; lia). rewrite length_low_bits. unfold tail_bits, source_bits. rd_cbn. f_equal. lia.
Qed.

(** The last bits come from the byte behind the buffer. *)
Lemma filling_end F s k : filling F s k → 0 ≤ k ≤ mBitCount s →
  let s' := with_reader s (mInBuf s) (mBitCount s - k) (Z.lor (mBitBuf s) (Z.shiftr (mSubBitBuf s) (mBitCount s - k)))
    (mSubBitBuf s) (mCompSize s) in
  reader_ok s' ∧ ∀ i, bit (stream s') i = F i.
Proof.
  intros [Hbuf Hsub Hc Hseen Hlow Hsrc Hin Hsz HF] Hk. cbv zeta. set (c := mBitCount s) in *.
  assert (Hr : 0 ≤ Z.shiftr (mSubBitBuf s) (c - k) < 2 ^ 32).
  { rewrite Z.shiftr_div_pow2 by lia. split; [apply Z.div_pos; lia|].
    apply Z.le_lt_trans with (mSubBitBuf s); [|lia]. apply Z.div_le_upper_bound; nia. }
  assert (Hbit : ∀ i, 0 ≤ i → Z.testbit (Z.lor (mBitBuf s) (Z.shiftr (mSubBitBuf s) (c - k))) i
    = if decide (i < k) then Z.testbit (mSubBitBuf s) (i + (c - k)) else Z.testbit (mBitBuf s) i).
  { intros i Hi. rewrite Z.lor_spec, Z.shiftr_spec by done. case_decide; [by rewrite Hlow by lia|].
    destruct (Z.lt_ge_cases (i + (c - k)) 8).
    - destruct (Z.lt_ge_cases i 32).
      + rewrite <-(Hseen (i + (c - k))) by lia. replace (k + (i + (c - k)) - c) with i by lia. apply orb_diag.
      + lia.
    - rewrite (testbit_high (mSubBitBuf s) 8) by lia. apply orb_false_r. }
  split.
  - split; rd_cbn; [apply lor_bound; lia|done|lia| |done|done|done].
    intros j Hj. rewrite Hbit by lia. case_decide; [f_equal; lia|].
    rewrite <-(Hseen j) by lia. f_equal. lia.
  - intros i. rewrite <-HF. unfold next_bit, stream. case_decide.
    + rewrite bit_app_l by (rewrite length_low_bits; lia). rewrite bit_low_bits by lia. cbn [mBitBuf with_reader].
      rewrite Hbit by lia. rewrite decide_False by lia. f_equal. lia.
    + destruct (Nat.lt_ge_cases i 32).
      * rewrite bit_app_l by (rewrite length_low_bits; lia). rewrite bit_low_bits by lia. cbn [mBitBuf with_reader].
        rewrite Hbit by lia. rewrite decide_True by lia. rewrite bit_tail_sub by lia. fold c. f_equal. lia.
      * rewrite bit_app_r by (rewrite length_low_bits; lia). rewrite length_low_bits.
        destruct (Z.lt_ge_cases (Z.of_nat i - 32) (c - k)).
        -- rewrite !bit_tail_sub by (rd_cbn; lia). rd_cbn. fold c. f_equal. lia.
        -- rewrite !bit_tail_source by (rd_cbn; lia). rd_cbn. fold c. unfold source_bits. rd_cbn. f_equal. lia.
Qed.

Lemma FillBuf_spec (P : Prop) n s (Q : unit → SCRATCH_DATA → Prop) :
  reader_ok s → 0 ≤ n < 64 →
  (∀ s', reader_ok s' → read_on s s' → (∀ i, bit (stream s') i = bit (stream s) (Z.to_nat n + i)) → Q tt s') →
  wpd P (FillBuf n) Q s.
Proof.
  intros Hs Hn HQ. unfold FillBuf. wpd_seq. eapply wpd_some; [by apply LShiftU64_ok|]. wpd_seq. wpd_set. wpd_seq.
  eapply fill_loop_spec; [by apply filling_start|done|cbn; case_decide; lia|].
  intros k s' Hk Hf Hr. wpd_seq. wpd_set. wpd_seq. cbn [mBitCount mSubBitBuf].
  destruct (fi_count _ _ _ Hf). rewrite cast_id by (done || (cint_unfold; lia)).
  eapply wpd_some; [unfold c_shr32; by rewrite (proj2 (Z.leb_le _ _)), (proj2 (Z.ltb_lt _ _)) by lia|].
  wpd_seq. wpd_set. destruct (filling_end _ _ _ Hf Hk) as [Hok Hbits]. apply HQ; [done| |done].
  unfold read_on in *. rewrite Hr. done.
Qed.

(** ** GetBits *)

Lemma c_shr32_ok x n : 0 ≤ n < 32 → c_shr32 x n = Some (Z.shiftr x n).
Proof. intros Hn. unfold c_shr32. by rewrite (proj2 (Z.leb_le _ _)), (proj2 (Z.ltb_lt _ _)) by lia. Qed.

Lemma shiftr_bound x n : 0 ≤ x < 2 ^ 32 → 0 ≤ n ≤ 32 → 0 ≤ Z.shiftr x (32 - n) < 2 ^ n.
Proof.
  intros Hx Hn. rewrite Z.shiftr_div_pow2 by lia. split; [apply Z.div_pos; lia|].
  apply Z.div_lt_upper_bound; [lia|]. rewrite <-Z.pow_add_r by lia. replace (32 - n + n) with 32 by lia. lia.
Qed.

(** The first [n] bits of a stream. *)
Definition first_bits (n : nat) (l : list bool) : list bool := bit l <$> seq 0 n.

Lemma low_bits_shiftr s n : 0 ≤ n ≤ 32 →
  low_bits (Z.to_nat n) (Z.shiftr (mBitBuf s) (32 - n)) = first_bits (Z.to_nat n) (stream s).
Proof.
  intros Hn. apply list_eq_same_length with (Z.to_nat n).
  - unfold first_bits. by rewrite length_fmap, length_seq.
  - apply length_low_bits.
  - intros i x y Hi. rewrite lookup_low_bits by done. unfold first_bits. rewrite list_lookup_fmap, lookup_seq_lt by done.
    intros [= <-] [= <-]. unfold stream. rewrite bit_app_l by (rewrite length_low_bits; lia).
    rewrite bit_low_bits by lia. rewrite Z.shiftr_spec by lia. f_equal. lia.
Qed.

Lemma GetBits_spec (P : Prop) n s (Q : Z → SCRATCH_DATA → Prop) :
  reader_ok s → 1 ≤ n ≤ 32 →
  (∀ v s', 0 ≤ v < 2 ^ n → low_bits (Z.to_nat n) v = first_bits (Z.to_nat n) (stream s) →
     reader_ok s' → read_on s s' → (∀ i, bit (stream s') i = bit (stream s) (Z.to_nat n + i)) → Q v s') →
  wpd P (GetBits n) Q s.
Proof.
  intros Hs Hn HQ. unfold GetBits. wpd_seq. unfold BITBUFSIZ. eapply wpd_some; [apply c_shr32_ok; lia|]. wpd_seq.
  apply FillBuf_spec; [done|lia|]. intros s' Hs' Hr Hb. wpd_seq. apply HQ; [|apply low_bits_shiftr; lia|done..].
  apply shiftr_bound; [apply Hs|lia].
Qed.

(** Several numbers in a row. *)
Fixpoint get_all (ns : list Z) : D (list Z) :=
  match ns with [] => mret [] | n :: ns => v ← GetBits n; vs ← get_all ns; mret (v :: vs) end.

Definition encode_all (ns vs : list Z) : list bool := mjoin (zip_with (λ n v, low_bits (Z.to_nat n) v) ns vs).

Lemma first_bits_app n m l l' : (∀ i, bit l' i = bit l (n + i)) → first_bits (n + m) l = first_bits n l ++ first_bits m l'.
Proof.
  intros Hl. unfold first_bits. rewrite seq_app, fmap_app. f_equal. apply list_eq. intros i.
  rewrite !list_lookup_fmap. destruct (Nat.lt_ge_cases i m).
  - rewrite !lookup_seq_lt by done. cbn. by rewrite Hl.
  - by rewrite !lookup_seq_ge.
Qed.

Definition total (ns : list Z) : Z := foldr Z.add 0 ns.

Lemma total_nonneg ns : (∀ n, n ∈ ns → 1 ≤ n ≤ 32) → 0 ≤ total ns.
Proof.
  induction ns as [|n ns IH]; intros Hn; cbn; [done|]. assert (1 ≤ n ≤ 32) by (apply Hn; by left).
  assert (0 ≤ total ns) by (apply IH; intros m Hm; apply Hn; by right). unfold total in *. lia.
Qed.

Lemma get_all_spec (P : Prop) ns s (Q : list Z → SCRATCH_DATA → Prop) :
  reader_ok s → (∀ n, n ∈ ns → 1 ≤ n ≤ 32) →
  (∀ vs s', reader_ok s' → read_on s s' → Forall2 (λ n v, 0 ≤ v < 2 ^ n) ns vs →
     encode_all ns vs = first_bits (Z.to_nat (total ns)) (stream s) → Q vs s') →
  wpd P (get_all ns) Q s.
Proof.
  revert s Q. induction ns as [|n ns IH]; intros s Q Hs Hns HQ; cbn [get_all].
  { wpd_seq. apply HQ; [done|apply read_on_refl|constructor|done]. }
  assert (Hn : 1 ≤ n ≤ 32) by (apply Hns; by left). assert (Hns' : ∀ m, m ∈ ns → 1 ≤ m ≤ 32) by (intros m Hm; apply Hns; by right).
  wpd_seq. apply GetBits_spec; [done|done|]. intros v s1 Hv Hbits Hs1 Hr1 Hnext. wpd_seq. apply IH; [done|done|].
  intros vs s' Hs' Hr Hvs Hall. wpd_seq. apply HQ; [done|by eapply read_on_trans|by constructor|].
  pose proof (total_nonneg _ Hns'). unfold total. cbn [foldr]. fold (total ns). rewrite Z2Nat.inj_add by lia.
  rewrite (first_bits_app _ _ _ (stream s1)) by done.
  change (encode_all (n :: ns) (v :: vs)) with (low_bits (Z.to_nat n) v ++ encode_all ns vs). by rewrite Hbits, Hall.
Qed.
