(* ===== verification/DecompressSafe.v ===== *)
(** * Memory safety of the decompressor

    No access leaves its array, whatever the source holds: the invariant of the
    scratch data and its preservation by every function.  No loop runs out of
    fuel but [walk], and that only where [P] holds. *)
From S2P Require Import Prelude CBase Math64 Decompress DecompressBits.
Local Open Scope Z_scope.

(** ** Arrays *)

(** [n] elements below [b]. *)
Definition arr (n b : Z) (l : list Z) : Prop := Z.of_nat (length l) = n ∧ Forall (λ v, 0 ≤ v < b) l.

(** Indices below [2 * NC - 1]. *)
Definition NODES := 1019.

Lemma arr_replicate n b v : 0 ≤ n → 0 ≤ v < b → arr n b (replicate (Z.to_nat n) v).
Proof. intros Hn Hv. split; [rewrite length_replicate; lia|]. by apply Forall_replicate. Qed.

Lemma arr_insert n b l i v : arr n b l → 0 ≤ v < b → arr n b (<[i := v]> l).
Proof. intros [Hl Hb] Hv. split; [by rewrite length_insert|]. by apply Forall_insert. Qed.

Lemma arr_range n b l i k v : arr n b l → 0 ≤ i → 0 ≤ k → i + k ≤ n → 0 ≤ v < b →
  arr n b (take (Z.to_nat i) l ++ replicate (Z.to_nat k) v ++ drop (Z.to_nat (i + k)) l).
Proof.
  intros [Hl Hb] Hi Hk Hn Hv. split.
  - rewrite !length_app, length_take, length_replicate, length_drop. lia.
  - apply Forall_app. split; [by apply Forall_take|]. apply Forall_app. split; [by apply Forall_replicate|by apply Forall_drop].
Qed.

(** ** The invariant *)

(** The sizes of source and output do not change; [out] bytes have been written. *)
Record sd_ok (orig out : Z) (s : SCRATCH_DATA) : Prop := SdOk {
  so_reader : reader_ok s;
  so_left : arr NODES NODES (mLeft s);
  so_right : arr NODES NODES (mRight s);
  so_clen : arr NC 17 (mCLen s);
  so_ptlen : arr NPT 64 (mPTLen s);
  so_ctable : arr 4096 NODES (mCTable s);
  so_pttable : arr 256 NODES (mPTTable s);
  so_pbit : mPBit s = 4 ∨ mPBit s = 5;
  so_size : 0 ≤ out ≤ orig ∧ orig < 2 ^ 32;
  so_orig : mOrigSize s = orig;
  so_out : mOutBuf s = out;
  so_dst : arr orig 256 (mDstBase s) }.

(** Everything but the reader is as before. *)
Lemma sd_ok_read_on orig out s s' : sd_ok orig out s → read_on s s' → reader_ok s' → sd_ok orig out s'.
Proof. intros [] Hr Hok. rewrite Hr. split; try done. by rewrite <-Hr. Qed.

(** Assignments that keep the invariant. *)
Ltac keep := let H := fresh in
  match goal with Hs : sd_ok _ _ _ |- sd_ok _ _ _ => destruct Hs as [[] ? ? ? ? ? ? ? ? ? ? ?] end; split; [split|..]; done.

Section safe.
Context (P : Prop).

Lemma wpd_get_arr n b l i (Q : Z → SCRATCH_DATA → Prop) s :
  arr n b l → 0 ≤ i < n → (∀ v, 0 ≤ v < b → Q v s) → wpd P (get_at l i) Q s.
Proof.
  intros [Hl Hb] Hi HQ. destruct (lookup_lt_is_Some_2 l (Z.to_nat i)) as [v Hv]; [lia|].
  eapply wpd_get_at; [lia|exact Hv|]. apply HQ. by eapply (Forall_lookup_1 _ _ _ _ Hb).
Qed.

Lemma wpd_put_arr n b l i v (Q : list Z → SCRATCH_DATA → Prop) s :
  arr n b l → 0 ≤ i < n → 0 ≤ v < b → (∀ l', arr n b l' → Q l' s) → wpd P (put_at l i v) Q s.
Proof. intros Hl Hi Hv HQ. apply wpd_put_at; [destruct Hl; lia|]. by apply HQ, arr_insert. Qed.

Lemma wpd_range_arr n b l i k v (Q : list Z → SCRATCH_DATA → Prop) s :
  arr n b l → 0 ≤ i → 0 ≤ k → i + k ≤ n → 0 ≤ v < b → (∀ l', arr n b l' → Q l' s) → wpd P (set_range l i k v) Q s.
Proof. intros Hl Hi Hk Hn Hv HQ. apply wpd_set_range; [done..|destruct Hl; lia|]. by apply HQ, arr_range. Qed.

(** ** Reading *)

Lemma FillBuf_safe orig out n s (Q : unit → SCRATCH_DATA → Prop) :
  sd_ok orig out s → 0 ≤ n < 64 → (∀ s', sd_ok orig out s' → read_on s s' → Q tt s') → wpd P (FillBuf n) Q s.
Proof.
  intros Hs Hn HQ. apply FillBuf_spec; [apply Hs|done|]. intros s' Hs' Hr _. apply HQ; [|done]. by eapply sd_ok_read_on.
Qed.

Lemma GetBits_safe orig out n s (Q : Z → SCRATCH_DATA → Prop) :
  sd_ok orig out s → 1 ≤ n ≤ 32 → (∀ v s', 0 ≤ v < 2 ^ n → sd_ok orig out s' → Q v s') → wpd P (GetBits n) Q s.
Proof.
  intros Hs Hn HQ. apply GetBits_spec; [apply Hs|done|]. intros v s' Hv _ Hs' Hr _. apply HQ; [done|]. by eapply sd_ok_read_on.
Qed.

(** ** Huffman tables *)

Definition table_size (T : table_id) : Z := match T with CTable => 4096 | PTTable => 256 end.
Definition table_bits (T : table_id) : Z := match T with CTable => 12 | PTTable => 8 end.

Lemma get_table_safe orig out T s (Q : list Z → SCRATCH_DATA → Prop) :
  sd_ok orig out s → (∀ l, arr (table_size T) NODES l → Q l s) → wpd P (get_table T) Q s.
Proof. intros Hs HQ. destruct T; wpd_seq; apply HQ; apply Hs. Qed.

Lemma set_table_safe orig out T l s (Q : unit → SCRATCH_DATA → Prop) :
  sd_ok orig out s → arr (table_size T) NODES l → (∀ s', sd_ok orig out s' → Q tt s') → wpd P (set_table T l) Q s.
Proof. intros Hs Hl HQ. destruct T; wpd_set; apply HQ; keep. Qed.

Definition cell_ok (T : table_id) (c : cell) : Prop :=
  match c with InTable i => 0 ≤ i < table_size T | InLeft i | InRight i => 0 ≤ i < NODES end.

Lemma get_cell_safe orig out T c s (Q : Z → SCRATCH_DATA → Prop) :
  sd_ok orig out s → cell_ok T c → (∀ v, 0 ≤ v < NODES → Q v s) → wpd P (get_cell T c) Q s.
Proof.
  intros Hs Hc HQ. destruct c; cbn [get_cell]; wpd_seq; [|eapply wpd_get_arr; [apply Hs|done|done]..].
  eapply get_table_safe; [done|]. intros l Hl. by eapply wpd_get_arr.
Qed.

Lemma put_cell_safe orig out T c v s (Q : unit → SCRATCH_DATA → Prop) :
  sd_ok orig out s → cell_ok T c → 0 ≤ v < NODES → (∀ s', sd_ok orig out s' → Q tt s') → wpd P (put_cell T c v) Q s.
Proof.
  intros Hs Hc Hv HQ. destruct c; cbn [put_cell]; wpd_seq.
  - eapply get_table_safe; [done|]. intros l Hl. wpd_seq. eapply wpd_put_arr; [done..|]. intros l' Hl'.
    by eapply set_table_safe.
  - eapply wpd_put_arr; [apply Hs|done..|]. intros l' Hl'. wpd_set. apply HQ. keep.
  - eapply wpd_put_arr; [apply Hs|done..|]. intros l' Hl'. wpd_set. apply HQ. keep.
Qed.

Lemma cast_UINT16_bound x : 0 ≤ cast UINT16 x < 65536.
Proof. unfold cast. cbn. by apply Z.mod_pos_bound. Qed.

Lemma count_loop_safe lens Count s (Q : option (list Z) → SCRATCH_DATA → Prop) :
  Forall (λ v, 0 ≤ v < 64) lens → arr 17 65536 Count → Q None s → (∀ Count', arr 17 65536 Count' → Q (Some Count') s) →
  wpd P (count_loop lens Count) Q s.
Proof.
  intros Hl. revert Count. induction Hl as [|Len lens HLen Hl IH]; intros Count HC Hnone HQ; cbn [count_loop].
  { wpd_seq. by apply HQ. }
  rewrite Z.gtb_ltb. destruct (Z.ltb_spec 16 Len); [by wpd_seq|]. wpd_seq.
  eapply wpd_get_arr; [done|lia|]. intros c _. wpd_seq.
  eapply wpd_put_arr; [done|lia|apply cast_UINT16_bound|]. intros Count' HC'. by apply IH.
Qed.

Lemma start_loop_arr Counts i x : Forall (λ v, 0 ≤ v < 65536) (start_loop Counts i x) ∧
  length (start_loop Counts i x) = length Counts.
Proof.
  revert i x. induction Counts as [|c Counts IH]; intros i x; cbn [start_loop]; [done|].
  destruct (IH (i + 1) (cast UINT16 (x + Z.shiftl c (16 - i)))) as [HF Hl].
  split; [constructor; [apply cast_UINT16_bound|done]|]. cbn [length]. by rewrite Hl.
Qed.

Lemma scaled_start_arr T Start : arr 18 65536 Start → arr 18 65536 (scaled_start (table_bits T) Start).
Proof.
  intros [Hl HF]. split; [unfold scaled_start; by rewrite length_imap|]. apply Forall_lookup. intros i x.
  unfold scaled_start. rewrite list_lookup_imap. intros (y & Hy & ->)%fmap_Some.
  assert (0 ≤ y < 65536) by by apply (Forall_lookup_1 _ _ _ _ HF Hy). destruct (_ && _); [|done].
  rewrite Z.shiftr_div_pow2 by (destruct T; done). split; [apply Z.div_pos; [lia|by destruct T]|].
  apply Z.le_lt_trans with y; [|lia]. apply Z.div_le_upper_bound; [by destruct T|].
  assert (1 ≤ 2 ^ (16 - table_bits T)) by by destruct T. nia.
Qed.

Lemma weights_arr T : arr 17 65536 (weights (table_bits T)).
Proof. destruct T; (split; [done|]); apply (bool_decide_unpack _); by vm_compute. Qed.

Lemma path_loop_safe orig out n T Mask Index3 Avail c s (Q : cell * Z → SCRATCH_DATA → Prop) :
  sd_ok orig out s → cell_ok T c → 0 ≤ Avail ≤ NODES →
  (∀ c' Avail' s', sd_ok orig out s' → cell_ok T c' → 0 ≤ Avail' ≤ NODES → Q (c', Avail') s') →
  wpd P (path_loop n T Mask Index3 Avail c) Q s.
Proof.
  revert Index3 Avail c s. induction n as [|n IH]; intros Index3 Avail c s Hs Hc HA HQ; cbn [path_loop]; wpd_seq; [by apply HQ|].
  eapply get_cell_safe; [done..|]. intros p Hp. wpd_seq. change (2 * NC - 1) with NODES.
  assert (Hnext : ∀ A s1, sd_ok orig out s1 → 0 ≤ A ≤ NODES → wpd P (get_cell T c)
    (λ p, wpd P (path_loop n T Mask (cast UINT16 (Z.shiftl Index3 1)) A
       (if p <? NODES then if negb (Z.land Index3 Mask =? 0) then InRight p else InLeft p else c)) Q) s1).
  { intros A s1 Hs1 HA1. eapply get_cell_safe; [done..|]. intros p2 Hp2. apply IH; [done| |done|done].
    rewrite (proj2 (Z.ltb_lt _ _)) by lia. by destruct (negb _). }
  destruct ((p =? 0) && (Avail <? NODES)) eqn:Hb; [|wpd_seq; by apply Hnext].
  bool_hyps. wpd_seq. eapply wpd_put_arr; [apply Hs|lia|done|]. intros l Hl. wpd_seq. wpd_set. wpd_seq.
  eapply wpd_put_arr; [apply Hs|lia|done|]. intros r Hr. wpd_seq. wpd_set. wpd_seq.
  eapply put_cell_safe; [|done|lia|]; [keep|]. intros s2 Hs2. wpd_seq.
  rewrite (cast_id UINT16 (Avail + 1)) by (done || (unfold NODES in *; cint_unfold; lia)). apply Hnext; [done|lia].
Qed.

Lemma shiftr_table T x : 0 ≤ x < 65536 → 0 ≤ Z.shiftr x (16 - table_bits T) < table_size T.
Proof.
  intros Hx. rewrite Z.shiftr_div_pow2 by by destruct T. split; [apply Z.div_pos; [lia|by destruct T]|].
  apply Z.div_lt_upper_bound; [by destruct T|]. destruct T; cbn; lia.
Qed.

Lemma char_loop_safe orig out T lens Char Start Avail s (Q : Z → SCRATCH_DATA → Prop) :
  sd_ok orig out s → Forall (λ v, 0 ≤ v < 64) lens → 0 ≤ Char → Char + Z.of_nat (length lens) ≤ NC →
  arr 18 65536 Start → 0 ≤ Avail ≤ NODES → (∀ v s', sd_ok orig out s' → Q v s') →
  wpd P (char_loop lens T (table_bits T) (weights (table_bits T)) Char Start Avail) Q s.
Proof.
  intros Hs Hl. revert Char Start Avail s Hs. induction Hl as [|Len lens HLen Hl IH]; intros Char Start Avail s Hs HC Hn HSt HA HQ;
    cbn [char_loop]; [wpd_seq; by apply HQ|].
  cbn [length] in Hn. assert (HCN : Char < NODES) by (change NC with 510 in Hn; unfold NODES; lia).
  destruct ((Len =? 0) || (Len >=? 17)) eqn:Hb; [apply IH; done || lia|]. bool_hyps. wpd_seq.
  eapply wpd_get_arr; [exact HSt|lia|]. intros start Hstart. wpd_seq.
  eapply wpd_get_arr; [apply weights_arr|lia|]. intros weight _.
  pose proof (cast_UINT16_bound (start + weight)) as Hnext. set (NextCode := cast UINT16 (start + weight)) in *. cbv zeta.
  destruct (Z.leb_spec Len (table_bits T)) as [HT|HT].
  - destruct ((start >=? NextCode) || _) eqn:Hbad; [wpd_seq; by apply HQ|]. bool_hyps.
    assert (NextCode ≤ table_size T) by (by destruct T). wpd_seq.
    eapply get_table_safe; [done|]. intros l Hlt. wpd_seq.
    eapply wpd_range_arr; [done|lia..|]. intros l' Hl'. wpd_seq.
    eapply set_table_safe; [done|done|]. intros s' Hs'. wpd_seq.
    eapply wpd_put_arr; [exact HSt|lia|done|]. intros St' HSt'. apply IH; done || lia.
  - wpd_seq. eapply path_loop_safe; [done|by apply shiftr_table|done|]. intros c A s1 Hs1 Hc HA'. wpd_seq.
    eapply put_cell_safe; [done|done|lia|]. intros s2 Hs2. wpd_seq.
    eapply wpd_put_arr; [exact HSt|lia|done|]. intros St' HSt'. apply IH; done || lia.
Qed.

Lemma MakeTable_safe orig out T n lens s (Q : Z → SCRATCH_DATA → Prop) :
  sd_ok orig out s → Forall (λ v, 0 ≤ v < 64) lens → 0 ≤ n ≤ NC → n ≤ Z.of_nat (length lens) →
  (∀ v s', sd_ok orig out s' → Q v s') → wpd P (MakeTable n lens (table_bits T) T) Q s.
Proof.
  intros Hs Hl Hn Hlen HQ. unfold MakeTable. wpd_seq. apply wpd_require; [by destruct T|]. wpd_seq.
  apply wpd_require; [by apply Z.leb_le|]. wpd_seq.
  apply count_loop_safe; [by apply Forall_take|by apply (arr_replicate 17)|wpd_seq; by apply HQ|]. intros Count [HCl HC].
  assert (HSt : arr 18 65536 (0 :: 0 :: start_loop (drop 1 Count) 1 0)).
  { destruct (start_loop_arr (drop 1 Count) 1 0) as [HF Hlen']. split; [|by repeat constructor].
    cbn [length]. rewrite Hlen', length_drop. lia. }
  wpd_seq. eapply wpd_get_arr; [exact HSt|lia|]. intros last _. destruct (negb (last =? 0)); [wpd_seq; by apply HQ|].
  cbv zeta. wpd_seq. apply scaled_start_arr with (T := T) in HSt.
  eapply wpd_get_arr; [exact HSt|by destruct T|]. intros first Hfirst. wpd_seq. apply shiftr_table with (T := T) in Hfirst.
  assert (Hrest : ∀ s1, sd_ok orig out s1 → wpd P (char_loop (take (Z.to_nat n) lens) T (table_bits T) (weights (table_bits T)) 0
    (scaled_start (table_bits T) (0 :: 0 :: start_loop (drop 1 Count) 1 0)) n) Q s1).
  { intros s1 Hs1. apply char_loop_safe with orig out; [done|by apply Forall_take|done| |done| |done].
    - rewrite length_take. lia.
    - change NC with 510 in Hn. unfold NODES. lia. }
  destruct (negb _ && _) eqn:Hb; wpd_seq; [|by apply Hrest]. eapply get_table_safe; [done|]. intros l Hlt. wpd_seq. bool_hyps.
  assert (cast UINT16 (Z.shiftl 1 (table_bits T)) = table_size T) as HT by by destruct T. rewrite HT in *.
  eapply wpd_range_arr; [exact Hlt|lia..|done|]. intros l' Hl'. eapply set_table_safe; [done|done|]. intros s' Hs'. by apply Hrest.
Qed.

(** ** Code lengths *)

Lemma ones_loop_safe k fuel CharC s (Q : Z → SCRATCH_DATA → Prop) :
  (k + 1 < fuel)%nat → 0 ≤ CharC → CharC + Z.of_nat k + 1 < 65536 →
  (∀ v, CharC ≤ v ≤ CharC + Z.of_nat k + 1 → Q v s) → wpd P (ones_loop fuel (2 ^ Z.of_nat k) CharC) Q s.
Proof.
  revert fuel CharC. induction k as [|k IH]; intros [|fuel] CharC Hf HC Hmax HQ; try lia; cbn [ones_loop]; wpd_seq.
  - destruct (negb _); [|wpd_seq; apply HQ; lia]. destruct fuel; [lia|]. cbn [ones_loop]. wpd_seq.
    change (Z.shiftr (2 ^ Z.of_nat 0) 1) with 0. rewrite Z.land_0_l. cbn [Z.eqb negb]. wpd_seq.
    rewrite cast_id by (done || (cint_unfold; lia)). apply HQ. lia.
  - destruct (negb _); [|wpd_seq; apply HQ; lia].
    replace (Z.shiftr (2 ^ Z.of_nat (S k)) 1) with (2 ^ Z.of_nat k).
    + rewrite cast_id by (done || (cint_unfold; lia)). apply IH; [lia..|]. intros v Hv. apply HQ. lia.
    + rewrite Z.shiftr_div_pow2 by done. rewrite Nat2Z.inj_succ, Z.pow_succ_r by lia.
      change (2 ^ 1) with 2. rewrite Z.mul_comm. by rewrite Z.div_mul.
Qed.

Lemma zero_loop_safe n b fuel Size CharC Index l s (Q : list Z * Z → SCRATCH_DATA → Prop) :
  arr n b l → 0 < b → 0 ≤ CharC < 32768 → CharC < Z.of_nat fuel → 0 ≤ Index ≤ Size → Size ≤ n →
  (∀ l', arr n b l' → Q (l', Z.min Size (Index + CharC)) s) → wpd P (zero_loop fuel Size CharC Index l) Q s.
Proof.
  revert CharC Index l. induction fuel as [|fuel IH]; intros CharC Index l Hl Hb HC Hf HI HS HQ; [lia|]. cbn [zero_loop].
  destruct (Z.eq_dec CharC 0) as [->|Hne].
  { change (cast INT16 (cast UINT16 (0 - 1)) >=? 0) with false. cbn [andb]. wpd_seq.
    replace Index with (Z.min Size (Index + 0)) at 1 by lia. by apply HQ. }
  rewrite (cast_id UINT16) by (done || (cint_unfold; lia)). rewrite (cast_id INT16) by (done || (cint_unfold; lia)).
  rewrite Z.geb_leb, (proj2 (Z.leb_le _ _)) by lia. cbn [andb]. destruct (Z.ltb_spec Index Size).
  - wpd_seq. eapply wpd_put_arr; [exact Hl|lia|lia|]. intros l' Hl'. apply IH; [done|done|lia..|].
    intros l2 Hl2. replace (Z.min Size (Index + 1 + (CharC - 1))) with (Z.min Size (Index + CharC)) by lia. by apply HQ.
  - wpd_seq. replace Index with (Z.min Size (Index + CharC)) at 1 by lia. by apply HQ.
Qed.

Lemma pt_len_loop_safe orig out fuel Number Special Index s (Q : Z → SCRATCH_DATA → Prop) :
  sd_ok orig out s → 0 ≤ Index ≤ NPT → NPT - Index < Z.of_nat fuel →
  (∀ v s', sd_ok orig out s' → 0 ≤ v ≤ NPT → Q v s') → wpd P (pt_len_loop fuel Number Special Index) Q s.
Proof.
  revert Index s. induction fuel as [|fuel IH]; intros Index s Hs HI Hf HQ; [lia|]. cbn [pt_len_loop].
  destruct (negb _) eqn:Hb; [wpd_seq; by apply HQ|]. bool_hyps. wpd_seq.
  assert (Hc : 0 ≤ Z.shiftr (mBitBuf s) (32 - 3) < 2 ^ 3) by (apply shiftr_bound; [apply Hs|done]).
  unfold BITBUFSIZ. rewrite (cast_id UINT16) by (done || (cint_unfold; lia)). set (c := Z.shiftr (mBitBuf s) (32 - 3)) in *.
  assert (Hrest : ∀ CharC, 0 ≤ CharC < 40 → wpd P (FillBuf (cast UINT16 (if CharC <? 7 then 3 else CharC - 3));;
      put_PTLen Index (cast UINT8 CharC);;
      Index ← (if Index + 1 =? Special then
           CharC ← GetBits 2;
           l ← read mPTLen;
           '(l, Index) ← zero_loop (S (Z.to_nat CharC)) NPT (cast UINT16 CharC) (Index + 1) l;
           set_mPTLen l;; mret Index
         else mret (Index + 1));
      pt_len_loop fuel Number Special Index) Q s).
  { intros CharC HC. wpd_seq. eapply FillBuf_safe; [done|destruct (Z.ltb_spec CharC 7); [done|];
      rewrite cast_id by (done || (cint_unfold; lia)); lia|]. intros s1 Hs1 _. wpd_seq. unfold put_PTLen. wpd_seq.
    rewrite cast_id by (done || (cint_unfold; lia)). eapply wpd_put_arr; [apply Hs1|lia|lia|]. intros l Hl. wpd_seq. wpd_set.
    match goal with |- wpd _ _ _ ?s => assert (Hs2 : sd_ok orig out s) by (clear Hs; keep); revert Hs2; generalize s end.
    intros s2 Hs2. wpd_seq. destruct (_ =? Special); wpd_seq; [|apply IH; done || lia].
    eapply GetBits_safe; [done|lia|]. intros z s3 Hz Hs3. wpd_seq. rewrite cast_id by (done || (cint_unfold; lia)).
    eapply zero_loop_safe; [apply Hs3|done|lia|lia|lia|lia|]. intros l' Hl'. wpd_seq. wpd_set. wpd_seq.
    apply IH; [clear Hs Hs2; keep|lia|lia|done]. }
  destruct (c =? 7) eqn:Hc7; [|apply wpd_ret, Hrest; lia].
  change (Z.shiftl 1 (32 - 1 - 3)) with (2 ^ Z.of_nat 28). apply ones_loop_safe; [lia..|].
  intros v Hv. apply Hrest. lia.
Qed.

Lemma ReadPTLen_safe orig out nn nbit Special s (Q : Z → SCRATCH_DATA → Prop) :
  sd_ok orig out s → 0 ≤ nn ≤ NPT → 1 ≤ nbit ≤ 5 → (∀ v s', sd_ok orig out s' → Q v s') →
  wpd P (ReadPTLen nn nbit Special) Q s.
Proof.
  intros Hs Hn Hb HQ. unfold ReadPTLen. wpd_seq. apply wpd_require; [apply Z.leb_le; lia|]. wpd_seq.
  eapply GetBits_safe; [done|lia|]. intros Number s1 _ Hs1. clear Hs. cbv zeta. destruct (_ =? 0).
  - wpd_seq. eapply GetBits_safe; [done|lia|]. intros CharC s2 HC Hs2. clear Hs1. wpd_seq.
    assert (2 ^ nbit ≤ 2 ^ 5) by (apply Z.pow_le_mono_r; lia).
    rewrite cast_id by (done || (cint_unfold; lia)). destruct (so_pttable _ _ _ Hs2) as [Hl _]. rewrite Hl.
    eapply wpd_range_arr; [apply Hs2|done|done|done|unfold NODES; lia|]. intros l' Hl'. wpd_seq. wpd_set. wpd_seq.
    eapply wpd_range_arr; [apply Hs2|lia|lia|lia|done|]. intros l2 Hl2. wpd_seq. wpd_set. wpd_seq. apply HQ. keep.
  - wpd_seq. eapply pt_len_loop_safe; [done|done|done|]. intros Index s2 Hs2 HI. clear Hs1. wpd_seq.
    eapply wpd_range_arr; [apply Hs2|lia|lia|lia|done|]. intros l Hl. wpd_seq. wpd_set.
    assert (Hlen := Hl). destruct Hlen as [Hlen Hbd].
    eapply (MakeTable_safe orig out PTTable); [keep|done|change NC with 510; change NPT with 31 in *; lia|lia|done].
Qed.
End safe.
