(* ===== verification/DecompressRun.v ===== *)
(** * Decoding stays in bounds

    The loops over the codes, on top of the invariant of DecompressSafe: each call of
    DecodeC and DecodeP keeps it, and each round of the loop of Decode writes output, so
    that its own fuel is enough.  More fuel for the searches does not change a run that
    has ended. *)
From S2P Require Import Prelude CBase Math64 Decompress DecompressBits DecompressSafe.
Local Open Scope Z_scope.

Lemma read_on_flag s s' : read_on s s' → mBadTableFlag s' = mBadTableFlag s.
Proof. intros H. by rewrite H. Qed.

Section run.
(** A walk that outlives its fuel is accepted. *)
Context (P : Prop) (HP : P).

Lemma walk_safe orig out fuel Limit Mask Val s (Q : Z → SCRATCH_DATA → Prop) :
  sd_ok orig out s → 0 ≤ Val < NODES → (∀ v, 0 ≤ v < Limit → Q v s) → wpd P (walk fuel Limit Mask Val) Q s.
Proof.
  intros Hs. revert Mask Val. induction fuel as [|fuel IH]; intros Mask Val HV HQ; cbn [walk]; [exact HP|].
  wpd_seq.
  assert (Hnext : ∀ l, arr NODES NODES l → wpd P (get_at l Val)
    (λ Val, wpd P (if Val >=? Limit then walk fuel Limit (Z.shiftr Mask 1) Val else mret Val) Q) s).
  { intros l Hl. eapply wpd_get_arr; [done|done|]. intros v Hv. rewrite Z.geb_leb.
    destruct (Z.leb_spec Limit v); [by apply IH|].
    wpd_seq. apply HQ. lia. }
  destruct (negb _); wpd_seq; apply Hnext; apply Hs.
Qed.

Lemma lookup_safe orig out fuel T Limit s (Q : Z → SCRATCH_DATA → Prop) :
  sd_ok orig out s → (∀ v, 0 ≤ v < Limit → Q v s) → wpd P (lookup fuel T (table_bits T) Limit) Q s.
Proof.
  intros Hs HQ. unfold lookup. wpd_seq. unfold BITBUFSIZ. eapply wpd_some; [apply c_shr32_ok; by destruct T|]. wpd_seq.
  eapply get_table_safe; [done|]. intros l Hl. wpd_seq. eapply wpd_get_arr; [exact Hl| |].
  { replace (table_size T) with (2 ^ table_bits T) by by destruct T. apply shiftr_bound; [apply Hs|by destruct T]. }
  intros v Hv. rewrite Z.geb_leb. destruct (Z.leb_spec Limit v); [by eapply walk_safe|]. wpd_seq. apply HQ. lia.
Qed.

Lemma DecodeP_safe orig out fuel s (Q : Z → SCRATCH_DATA → Prop) :
  sd_ok orig out s → (∀ v s', 0 ≤ v < 2 ^ 30 → sd_ok orig out s' → read_on s s' → Q v s') → wpd P (DecodeP fuel) Q s.
Proof.
  intros Hs HQ. unfold DecodeP. wpd_seq. eapply (lookup_safe orig out fuel PTTable); [done|]. intros v Hv.
  change MAXNP with 31 in Hv. wpd_seq. eapply wpd_get_arr; [apply Hs|done|]. intros n Hn. wpd_seq.
  eapply FillBuf_safe; [done|done|]. intros s1 Hs1 Hr1. rewrite Z.gtb_ltb. destruct (Z.ltb_spec 1 v); wpd_seq.
  - eapply wpd_some; [unfold c_shl32; by rewrite (proj2 (Z.leb_le _ _)), (proj2 (Z.ltb_lt _ _)) by lia|]. wpd_seq.
    apply GetBits_spec; [apply Hs1|lia|]. intros b s2 Hb _ Hs2 Hr2 _. wpd_seq.
    apply HQ; [|by eapply sd_ok_read_on|by eapply read_on_trans]. rewrite Z.shiftl_1_l.
    assert (2 ^ (v - 1) ≤ 2 ^ 29) by (apply Z.pow_le_mono_r; lia).
    rewrite (cast_id UINT32 (2 ^ (v - 1))) by (done || (cint_unfold; lia)).
    rewrite cast_id by (done || (cint_unfold; lia)). lia.
  - apply HQ; [lia|done|done].
Qed.

Lemma c_len_loop_safe orig out walk_fuel fuel Number Index s (Q : Z → SCRATCH_DATA → Prop) :
  sd_ok orig out s → 0 ≤ Index ≤ NC → NC - Index < Z.of_nat fuel →
  (∀ v s', sd_ok orig out s' → 0 ≤ v ≤ NC → Q v s') → wpd P (c_len_loop walk_fuel fuel Number Index) Q s.
Proof.
  revert Index s. induction fuel as [|fuel IH]; intros Index s Hs HI Hf HQ; [lia|]. cbn [c_len_loop].
  destruct (negb _) eqn:Hb; [wpd_seq; by apply HQ|]. bool_hyps. wpd_seq.
  eapply (lookup_safe orig out _ PTTable); [done|]. intros v Hv. change NT with 19 in Hv. wpd_seq.
  eapply wpd_get_arr; [apply Hs|change NPT with 31; lia|]. intros n Hn. wpd_seq.
  eapply FillBuf_safe; [done|done|]. intros s1 Hs1 _. clear Hs.
  destruct (Z.leb_spec v 2) as [Hv2|Hv2].
  - assert (Hrun : ∀ CharC s2, sd_ok orig out s2 → 1 ≤ CharC < 600 →
      wpd P (l ← read mCLen;
             '(l, Index) ← zero_loop (S (Z.to_nat CharC)) NC CharC Index l;
             set_mCLen l;; c_len_loop walk_fuel fuel Number Index) Q s2).
    { intros CharC s2 Hs2 HC. clear Hs1. wpd_seq. eapply zero_loop_safe; [apply Hs2|done|lia|lia|lia|lia|].
      intros l Hl. wpd_seq. wpd_set. apply IH; [keep|lia|lia|done]. }
    apply wpd_bind. destruct (v =? 0); [apply wpd_ret, Hrun; done|]. destruct (v =? 1); wpd_seq.
    + eapply GetBits_safe; [done|lia|]. intros b s2 Hb Hs2. apply wpd_ret.
      rewrite cast_id by (done || (cint_unfold; lia)). apply Hrun; [done|lia].
    + eapply GetBits_safe; [done|unfold CBIT; lia|]. intros b s2 Hb Hs2. apply wpd_ret. change (2 ^ CBIT) with 512 in Hb.
      rewrite cast_id by (done || (cint_unfold; lia)). apply Hrun; [done|lia].
  - unfold put_CLen. wpd_seq. rewrite cast_id by (done || (cint_unfold; lia)).
    eapply wpd_put_arr; [apply Hs1|lia|lia|]. intros l Hl. wpd_set. apply IH; [keep|lia|lia|done].
Qed.

Lemma ReadCLen_safe orig out walk_fuel s (Q : unit → SCRATCH_DATA → Prop) :
  sd_ok orig out s → (∀ s', sd_ok orig out s' → Q tt s') → wpd P (ReadCLen walk_fuel) Q s.
Proof.
  intros Hs HQ. unfold ReadCLen. wpd_seq. eapply GetBits_safe; [done|unfold CBIT; lia|]. intros Number s1 _ Hs1.
  clear Hs. cbv zeta. destruct (_ =? 0).
  - wpd_seq. eapply GetBits_safe; [done|unfold CBIT; lia|]. intros CharC s2 HC Hs2. clear Hs1. change (2 ^ CBIT) with 512 in HC.
    wpd_seq. eapply wpd_range_arr; [apply Hs2|done|done|done|done|]. intros l Hl. wpd_seq. wpd_set. wpd_seq.
    rewrite cast_id by (done || (cint_unfold; lia)). destruct (so_ctable _ _ _ Hs2) as [Hct _]. cbn [mCTable]. rewrite Hct.
    eapply wpd_range_arr; [apply Hs2|done|done|done|unfold NODES; lia|]. intros l2 Hl2. wpd_set. apply HQ. keep.
  - wpd_seq. eapply c_len_loop_safe; [done|done|done|]. intros Index s2 Hs2 HI. clear Hs1. wpd_seq.
    eapply wpd_range_arr; [apply Hs2|lia|lia|lia|done|]. intros l Hl. wpd_seq. wpd_set. wpd_seq.
    assert (Hlen := Hl). destruct Hlen as [Hlen Hbd].
    eapply (MakeTable_safe P orig out CTable); [keep| |done|by rewrite Hlen|].
    + eapply Forall_impl; [exact Hbd|]. cbn. lia.
    + intros v s3 Hs3. wpd_seq. by apply HQ.
Qed.

Lemma read_tables_safe orig out walk_fuel s (Q : bool → SCRATCH_DATA → Prop) :
  sd_ok orig out s → (∀ b s', sd_ok orig out s' → (mBadTableFlag s' = 0 ↔ b = false) → Q b s') →
  wpd P (read_tables walk_fuel) Q s.
Proof.
  intros Hs HQ. unfold read_tables. wpd_seq. eapply GetBits_safe; [done|lia|]. intros z s1 _ Hs1. clear Hs.
  wpd_seq. wpd_set. wpd_seq. eapply ReadPTLen_safe; [keep|done|unfold TBIT; lia|]. intros Flag s2 Hs2. clear Hs1.
  wpd_seq. wpd_set. destruct (Z.eqb_spec Flag 0) as [->|HF]; cbn [negb]; wpd_seq; [|apply HQ; [keep|done]].
  eapply ReadCLen_safe; [keep|]. intros s3 Hs3. clear Hs2. wpd_seq.
  eapply ReadPTLen_safe; [done|done|destruct (so_pbit _ _ _ Hs3); lia|]. intros Flag s4 Hs4. clear Hs3.
  wpd_seq. wpd_set. wpd_seq. apply HQ; [keep|]. cbn. by destruct (Z.eqb_spec Flag 0).
Qed.

(** The flag stays 0 unless a table is bad. *)
Lemma DecodeC_safe orig out walk_fuel s (Q : Z → SCRATCH_DATA → Prop) :
  sd_ok orig out s → mBadTableFlag s = 0 →
  (∀ v s', 0 ≤ v < NC → sd_ok orig out s' → Q v s') → wpd P (DecodeC walk_fuel) Q s.
Proof.
  intros Hs Hflag HQ. unfold DecodeC. wpd_seq.
  assert (Hrest : ∀ s1, sd_ok orig out s1 → wpd P (BlockSize ← read mBlockSize;
      set_mBlockSize (cast UINT16 (BlockSize - 1));;
      Index2 ← lookup walk_fuel CTable 12 NC;
      l ← read mCLen; n ← get_at l Index2; FillBuf n;; mret Index2) Q s1).
  { intros s1 Hs1. clear Hs. wpd_seq. wpd_set. wpd_seq. eapply (lookup_safe orig out _ CTable); [keep|]. intros v Hv.
    wpd_seq. eapply wpd_get_arr; [apply Hs1|done|]. intros n Hn. wpd_seq.
    eapply FillBuf_safe; [keep|lia|]. intros s2 Hs2 _. wpd_seq. by apply HQ. }
  destruct (mBlockSize s =? 0); [|apply wpd_ret; by apply Hrest].
  eapply read_tables_safe; [done|]. intros [] s1 Hs1 _; [clear Hrest|exact (Hrest _ Hs1)].
  wpd_seq. by apply HQ.
Qed.

Lemma put_byte_safe orig out v s (Q : unit → SCRATCH_DATA → Prop) :
  sd_ok orig out s → out < orig → 0 ≤ v < 256 →
  (∀ s', sd_ok orig (out + 1) s' → mBadTableFlag s' = mBadTableFlag s → Q tt s') → wpd P (put_byte v) Q s.
Proof.
  intros Hs Ho Hv HQ. unfold put_byte. destruct (so_size _ _ _ Hs). wpd_seq. rewrite (so_out _ _ _ Hs).
  eapply wpd_put_arr; [apply Hs|lia|done|]. intros l Hl. wpd_seq. wpd_set.
  rewrite cast_id by (done || (cint_unfold; lia)). wpd_set. apply HQ; [|done].
  destruct Hs as [[] ? ? ? ? ? ? ? ? ? ? ?]; split; [split|..]; try done. cbn. lia.
Qed.

Lemma copy_loop_safe orig fuel out br DataIdx s (Q : bool → SCRATCH_DATA → Prop) :
  sd_ok orig out s → mBadTableFlag s = 0 → -1 ≤ br < 32768 → br + 1 < Z.of_nat fuel → 0 ≤ DataIdx →
  (∀ b out' s', sd_ok orig out' s' → (if b : bool then mBadTableFlag s' = 0 → out' = orig
     else mBadTableFlag s' = 0 ∧ out' = out + br + 1) → Q b s') →
  wpd P (copy_loop fuel (cast UINT16 br) DataIdx) Q s.
Proof.
  revert out br DataIdx s. induction fuel as [|fuel IH]; intros out br DataIdx s Hs Hflag Hbr Hf HD HQ; [lia|]. cbn [copy_loop].
  destruct (Z.eq_dec br (-1)) as [->|Hne].
  { change (negb (cast INT16 (cast UINT16 (-1)) >=? 0)) with true. wpd_seq. apply (HQ _ out); [done|lia]. }
  rewrite (cast_id UINT16 br) by (done || (cint_unfold; lia)). rewrite (cast_id INT16) by (done || (cint_unfold; lia)).
  rewrite Z.geb_leb, (proj2 (Z.leb_le _ _)) by lia. cbn [negb]. wpd_seq.
  destruct (so_size _ _ _ Hs). rewrite (so_out _ _ _ Hs), (so_orig _ _ _ Hs). rewrite !Z.geb_leb.
  destruct (Z.leb_spec orig out). { wpd_seq. apply (HQ _ out); [done|lia]. }
  destruct (Z.leb_spec orig DataIdx). { wpd_seq. wpd_set. wpd_seq. apply (HQ _ out); [keep|done]. }
  wpd_seq. eapply wpd_get_arr; [apply Hs|done|]. intros b Hb. wpd_seq.
  eapply put_byte_safe; [done|done|done|]. intros s1 Hs1 Hflag1.
  rewrite (cast_id UINT32) by (done || (cint_unfold; lia)). apply IH with (out := out + 1); [done|congruence|lia..|].
  intros b2 out' s2 Hs2 Hb2. apply (HQ _ out'); [done|]. destruct b2; [done|lia].
Qed.

Lemma decode_loop_safe orig walk_fuel fuel out s (Q : unit → SCRATCH_DATA → Prop) :
  sd_ok orig out s → mBadTableFlag s = 0 → orig - out + 1 < Z.of_nat fuel →
  (∀ out' s', sd_ok orig out' s' → (mBadTableFlag s' = 0 → out' = orig) → Q tt s') → wpd P (decode_loop walk_fuel fuel) Q s.
Proof.
  revert out s. induction fuel as [|fuel IH]; intros out s Hs Hflag Hf HQ; [destruct (so_size _ _ _ Hs); lia|]. cbn [decode_loop].
  wpd_seq. eapply DecodeC_safe; [done|done|]. intros c s1 Hc Hs1. clear s Hs Hflag. wpd_seq.
  destruct (Z.eqb_spec (mBadTableFlag s1) 0) as [Hflag|Hflag]; cbn [negb]; [|wpd_seq; by apply (HQ out)].
  destruct (so_size _ _ _ Hs1). destruct (Z.ltb_spec c 256).
  - wpd_seq. rewrite (so_out _ _ _ Hs1), (so_orig _ _ _ Hs1), Z.geb_leb.
    destruct (Z.leb_spec orig out); [wpd_seq; apply (HQ out); [done|lia]|]. wpd_seq.
    rewrite cast_id by (done || (cint_unfold; lia)). eapply put_byte_safe; [done|done|lia|].
    intros s2 Hs2 Hflag2. apply (IH (out + 1)); [done|congruence|lia|done].
  - change NC with 510 in Hc. unfold BIT8, THRESHOLD. change (256 - 3) with 253. rewrite (cast_id UINT16 (c - 253)) by (done || (cint_unfold; lia)).
    wpd_seq. eapply DecodeP_safe; [done|]. intros p s2 Hp Hs2 Hr2. rewrite <-(read_on_flag _ _ Hr2) in Hflag.
    wpd_seq. apply (copy_loop_safe orig _ out); [done|done|lia|lia|apply cast_UINT32_bound|]. 
    intros [] out' s3 Hs3 Hdone; [by wpd_seq; apply (HQ out')|].
    destruct Hdone as [Hflag3 Hout]. wpd_seq. rewrite (so_out _ _ _ Hs3), (so_orig _ _ _ Hs3), Z.geb_leb.
    destruct (Z.leb_spec orig out'); [wpd_seq; destruct (so_size _ _ _ Hs3); apply (HQ out'); [done|lia]|].
    apply (IH out'); [done|done|lia|done].
Qed.

Lemma tiano_body_safe orig s (walk_fuel : nat) (Q : Z → SCRATCH_DATA → Prop) :
  sd_ok orig 0 s → mBadTableFlag s = 0 →
  (∀ st out s', sd_ok orig out s' → (st = RETURN_SUCCESS ∧ out = orig) ∨ st = RETURN_INVALID_PARAMETER → Q st s') →
  wpd P (tiano_body walk_fuel) Q s.
Proof.
  intros Hs Hflag HQ. unfold tiano_body. wpd_seq. eapply FillBuf_safe; [done|done|]. intros s1 Hs1 Hr1. unfold Decode. wpd_seq.
  destruct (so_size _ _ _ Hs1). rewrite (so_orig _ _ _ Hs1).
  apply (decode_loop_safe orig _ _ 0); [done|by rewrite (read_on_flag _ _ Hr1)|lia|]. intros out s2 Hs2 Hend. wpd_seq. apply (HQ _ out); [done|].
  destruct (Z.eqb_spec (mBadTableFlag s2) 0); [left|by right]. auto.
Qed.
End run.

(** ** More steps for the searches

    A run that is not lost in a code tree does not depend on the fuel of the searches. *)

Definition agrees {A} (m m' : D A) : Prop := ∀ s, m s = Lost ∨ m' s = m s.

Lemma agrees_refl {A} (m : D A) : agrees m m.
Proof. intros s. by right. Qed.

Lemma agrees_bind {A B} (m m' : D A) (k k' : A → D B) : agrees m m' → (∀ x, agrees (k x) (k' x)) → agrees (m ≫= k) (m' ≫= k').
Proof.
  intros Hm Hk s. unfold mbind, D_bind. destruct (Hm s) as [-> | ->]; [by left|]. destruct (m s) as [x s'| | |]; [apply Hk|by right..].
Qed.

Ltac agree := repeat lazymatch goal with
  | |- agrees (_ ≫= _) _ => apply agrees_bind; [|intros ?]
  | |- agrees (if ?b then _ else _) _ => destruct b
  | |- agrees (match ?x with pair _ _ => _ end) _ => destruct x
  | |- agrees ?m ?m => apply agrees_refl
  end.

Section more.
Context (f f' : nat) (Hf : (f ≤ f')%nat).

Lemma walk_agrees Limit Mask Val : agrees (walk f Limit Mask Val) (walk f' Limit Mask Val).
Proof.
  revert f' Hf Mask Val. induction f as [|g IH]; intros h Hh Mask Val; [by left|].
  destruct h as [|h]; [lia|]. cbn [walk]. agree. apply IH. lia.
Qed.

Lemma lookup_agrees T TableBits Limit : agrees (lookup f T TableBits Limit) (lookup f' T TableBits Limit).
Proof. unfold lookup. agree. apply walk_agrees. Qed.

Lemma DecodeP_agrees : agrees (DecodeP f) (DecodeP f').
Proof. unfold DecodeP. agree. apply lookup_agrees. Qed.

Lemma c_len_loop_agrees fuel Number Index : agrees (c_len_loop f fuel Number Index) (c_len_loop f' fuel Number Index).
Proof. revert Index. induction fuel as [|fuel IH]; intros Index; cbn [c_len_loop]; agree; (apply lookup_agrees || apply IH). Qed.

Lemma DecodeC_agrees : agrees (DecodeC f) (DecodeC f').
Proof. unfold DecodeC, read_tables, ReadCLen. agree; (apply lookup_agrees || apply c_len_loop_agrees). Qed.

Lemma decode_loop_agrees fuel : agrees (decode_loop f fuel) (decode_loop f' fuel).
Proof. induction fuel as [|fuel IH]; cbn [decode_loop]; agree; (apply DecodeC_agrees || apply DecodeP_agrees || exact IH). Qed.

Lemma tiano_body_agrees : agrees (tiano_body f) (tiano_body f').
Proof. unfold tiano_body, Decode. agree. apply decode_loop_agrees. Qed.

Lemma UefiTianoDecompress_agrees Source Destination Version :
  UefiTianoDecompress f Source Destination Version = Searching ∨
  UefiTianoDecompress f' Source Destination Version = UefiTianoDecompress f Source Destination Version.
Proof.
  unfold UefiTianoDecompress. destruct (negb _); [by right|].
  destruct (le32_at Source 0) as [CompSize|]; [|by right]. destruct (le32_at Source 4) as [OrigSize|]; [|by right].
  destruct (OrigSize =? 0); [by right|].
  by destruct (tiano_body_agrees (initial (drop 8 Source) Destination CompSize OrigSize (if Version =? 1 then 4 else 5))) as [-> | ->]; [left|right].
Qed.
End more.

(** ** What the decompressor promises

    Its reader returns the bits of the source, and a source that UefiDecompressGetInfo
    accepts never makes it leave its arrays. *)

Definition bytes (l : list Z) : Prop := Forall (λ b, 0 ≤ b < 256) l.

(** ** The initial scratch data *)

Lemma initial_reader Source Dst CompSize OrigSize PBit :
  bytes Source → Z.of_nat (length Source) < 2 ^ 32 → 0 ≤ CompSize → 8 + CompSize ≤ Z.of_nat (length Source) →
  reader_ok (initial (drop 8 Source) Dst CompSize OrigSize PBit).
Proof.
  intros HS Hlen HC Hfit. split; cbn; try done; try lia.
  - intros j _. by rewrite Z.sub_0_r.
  - intros b Hb. apply (Forall_drop _ 8) in HS. rewrite Forall_forall in HS. by apply HS.
  - rewrite length_drop. lia.
  - rewrite length_drop. lia.
Qed.

Lemma initial_ok Source Dst CompSize OrigSize PBit :
  bytes Source → Z.of_nat (length Source) < 2 ^ 32 → 0 ≤ CompSize → 8 + CompSize ≤ Z.of_nat (length Source) →
  bytes Dst → Z.of_nat (length Dst) = OrigSize → OrigSize < 2 ^ 32 → PBit = 4 ∨ PBit = 5 →
  sd_ok OrigSize 0 (initial (drop 8 Source) Dst CompSize OrigSize PBit).
Proof.
  intros HS Hlen HC Hfit HD HDl HO HP. split; try done; cbn [initial mLeft mRight mCLen mPTLen mCTable mPTTable];
    try (by apply initial_reader); try (by apply arr_replicate); try lia.
Qed.

Lemma initial_stream Src Dst CompSize OrigSize PBit i :
  bit (stream (initial Src Dst CompSize OrigSize PBit)) (32 + i) = bit (take (Z.to_nat CompSize) Src ≫= low_bits 8) i.
Proof. unfold stream. rewrite bit_app_r by (rewrite length_low_bits; lia). rewrite length_low_bits. unfold tail_bits, source_bits. cbn. f_equal. lia. Qed.

Lemma first_bits_ext n l l' : (∀ i, bit l i = bit l' i) → first_bits n l = first_bits n l'.
Proof. intros H. unfold first_bits. apply list_fmap_ext. intros i x _. apply H. Qed.

(** The four bytes of a header field. *)
Lemma le32_at_range Source i v : le32_at Source i = Some v → 0 ≤ v < 2 ^ 32.
Proof.
  unfold le32_at. intros Hv. repeat (apply bind_Some in Hv as (? & _ & Hv)). injection Hv as <-. apply cast_UINT32_bound.
Qed.

Lemma GetInfo_fits sz Source CompSize info :
  UefiDecompressGetInfo sz Source (Z.of_nat (length Source)) = Some (RETURN_SUCCESS, info) →
  Z.of_nat (length Source) < 2 ^ 32 → le32_at Source 0 = Some CompSize →
  8 + CompSize ≤ Z.of_nat (length Source) ∧ ∃ OrigSize, le32_at Source 4 = Some OrigSize ∧ info = Some (OrigSize, sz).
Proof.
  unfold UefiDecompressGetInfo. intros Hinfo Hlen HC. destruct (_ <? 8) eqn:H8; [by injection Hinfo|]. rewrite HC in Hinfo.
  cbn [mbind option_bind] in Hinfo. destruct (_ || _) eqn:Hb; [by injection Hinfo|]. bool_hyps.
  apply bind_Some in Hinfo as (OrigSize & HO & [= <-]). split; [|by exists OrigSize].
  apply le32_at_range in HC. revert H0 H. unfold cast. cbn [signed UINT32 width].
  destruct (Z.lt_ge_cases (CompSize + 8) (2 ^ 32)).
  - rewrite Z.mod_small by lia. lia.
  - replace (CompSize + 8) with (CompSize + 8 - 2 ^ 32 + 1 * 2 ^ 32) at 1 by lia. rewrite Z.mod_add by lia.
    rewrite Z.mod_small by lia. lia.
Qed.

Lemma le32_at_some Source i : 0 ≤ i → i + 4 ≤ Z.of_nat (length Source) → is_Some (le32_at Source i).
Proof.
  intros Hi Hl. unfold le32_at.
  destruct (lookup_lt_is_Some_2 Source (Z.to_nat i)) as [b0 ->]; [lia|].
  destruct (lookup_lt_is_Some_2 Source (Z.to_nat (i + 1))) as [b1 ->]; [lia|].
  destruct (lookup_lt_is_Some_2 Source (Z.to_nat (i + 2))) as [b2 ->]; [lia|].
  destruct (lookup_lt_is_Some_2 Source (Z.to_nat (i + 3))) as [b3 ->]; [lia|]. cbn. eauto.
Qed.

Lemma decompress_outcome sz walk_fuel Source Destination Version DestinationSize ScratchSize :
  bytes Source → Z.of_nat (length Source) < 2 ^ 32 →
  UefiDecompressGetInfo sz Source (Z.of_nat (length Source)) = Some (RETURN_SUCCESS, Some (DestinationSize, ScratchSize)) →
  bytes Destination → Z.of_nat (length Destination) = DestinationSize →
  Version = 1 ∨ Version = 2 →
  match UefiTianoDecompress walk_fuel Source Destination Version with
  | Returns Status Dst => (Status = RETURN_SUCCESS ∨ Status = RETURN_INVALID_PARAMETER) ∧
      bytes Dst ∧ length Dst = length Destination
  | Undefined | OutOfFuel => False
  | Searching => True
  end.
Proof.
  intros HS Hlen Hinfo HD HDl HV. assert (8 ≤ Z.of_nat (length Source)).
  { unfold UefiDecompressGetInfo in Hinfo. destruct (Z.ltb_spec (Z.of_nat (length Source)) 8); [by injection Hinfo|done]. }
  destruct (le32_at_some Source 0) as [CompSize HC]; [done|lia|].
  destruct (GetInfo_fits _ _ _ _ Hinfo Hlen HC) as (Hfit & OrigSize & HO & [= -> _]).
  unfold UefiTianoDecompress. rewrite HC, HO.
  replace (negb ((Version =? 1) || (Version =? 2))) with false by (by destruct HV as [-> | ->]).
  destruct (Z.eqb_spec OrigSize 0) as [->|HO0]; [by split; [left|]|].
  apply le32_at_range in HC, HO.
  assert (Hok : sd_ok OrigSize 0 (initial (drop 8 Source) Destination CompSize OrigSize (if Version =? 1 then 4 else 5))).
  { apply initial_ok; try done || lia. destruct HV as [-> | ->]; auto. }
  pose proof (tiano_body_safe True I OrigSize _ walk_fuel (λ st s, (st = RETURN_SUCCESS ∨ st = RETURN_INVALID_PARAMETER) ∧
    bytes (mDstBase s) ∧ length (mDstBase s) = length Destination) Hok eq_refl) as Hrun.
  unfold wpd in Hrun. destruct (tiano_body _ _); [apply Hrun|apply Hrun|apply Hrun|done]; intros st out s' Hs' Hst;
    (destruct (so_dst _ _ _ Hs') as [Hl Hb]; split; [destruct Hst as [[-> _]| ->]; auto|split; [done|lia]]).
Qed.

(** ** Properties *)

(** C6: a source that UefiDecompressGetInfo accepts never makes UefiTianoDecompress or
    UefiDecompress read or write outside the source, the destination of the size
    reported or a table of the scratch buffer, and no loop of it is endless but the
    search of a code tree: unless such a search has not ended after [walk_fuel] steps,
    the outcome is RETURN_SUCCESS or RETURN_INVALID_PARAMETER with a destination of the
    same size that holds bytes, the same for any larger number of steps. *)
Theorem decompress_safe sz walk_fuel Source Destination Version DestinationSize ScratchSize :
  bytes Source → Z.of_nat (length Source) < 2 ^ 32 →
  UefiDecompressGetInfo sz Source (Z.of_nat (length Source)) = Some (RETURN_SUCCESS, Some (DestinationSize, ScratchSize)) →
  bytes Destination → Z.of_nat (length Destination) = DestinationSize →
  Version = 1 ∨ Version = 2 →
  UefiTianoDecompress walk_fuel Source Destination Version = Searching ∨
  ∃ Status Dst, (∀ more, (walk_fuel ≤ more)%nat → UefiTianoDecompress more Source Destination Version = Returns Status Dst) ∧
    (Status = RETURN_SUCCESS ∨ Status = RETURN_INVALID_PARAMETER) ∧ bytes Dst ∧ length Dst = length Destination.
Proof.
  intros HS Hlen Hinfo HD HDl HV. pose proof (decompress_outcome _ walk_fuel _ _ _ _ _ HS Hlen Hinfo HD HDl HV) as Hout.
  destruct (UefiTianoDecompress walk_fuel Source Destination Version) as [Status Dst| | |] eqn:Hrun; [right|done|done|by left].
  exists Status, Dst. split; [|done]. intros more Hmore.
  destruct (UefiTianoDecompress_agrees _ _ Hmore Source Destination Version); congruence.
Qed.

(** C29: after FillBuf has loaded the buffer, any sequence of calls of GetBits returns the
    numbers that the bits of the compressed data spell, high bits first and without
    gaps, and zeros once they are used up. *)
Theorem bits_of_source Source Destination CompSize OrigSize PBit ns :
  bytes Source → Z.of_nat (length Source) < 2 ^ 32 → 0 ≤ CompSize → 8 + CompSize ≤ Z.of_nat (length Source) →
  Forall (λ n, 1 ≤ n ≤ 32) ns →
  ∃ vs s', (FillBuf BITBUFSIZ;; get_all ns) (initial (drop 8 Source) Destination CompSize OrigSize PBit) = Done vs s' ∧
    Forall2 (λ n v, 0 ≤ v < 2 ^ n) ns vs ∧
    encode_all ns vs = first_bits (Z.to_nat (total ns)) (take (Z.to_nat CompSize) (drop 8 Source) ≫= low_bits 8).
Proof.
  intros HS Hlen HC Hfit Hns. rewrite Forall_forall in Hns.
  pose proof (initial_reader Source Destination CompSize OrigSize PBit HS Hlen HC Hfit) as Hok.
  set (s := initial _ _ _ _ _) in *.
  assert (wpd False (FillBuf BITBUFSIZ;; get_all ns) (λ vs _, Forall2 (λ n v, 0 ≤ v < 2 ^ n) ns vs ∧
    encode_all ns vs = first_bits (Z.to_nat (total ns)) (take (Z.to_nat CompSize) (drop 8 Source) ≫= low_bits 8)) s) as Hrun.
  { wpd_seq. apply FillBuf_spec; [done|done|]. intros s1 Hs1 _ Hb. apply get_all_spec; [done|done|].
    intros vs s2 _ _ Hvs Hall. split; [done|]. rewrite Hall. apply first_bits_ext. intros i. rewrite Hb. apply initial_stream. }
  unfold wpd in Hrun. destruct ((FillBuf BITBUFSIZ;; get_all ns) s) as [vs s'| | |]; [|done..]. by exists vs, s'.
Qed.
