(* ===== verification/DecompressCodes.v ===== *)
(** * Canonical prefix codes

    The code that an array of code lengths describes: shorter codes come first, codes of
    the same length in the order of their characters.  A code of length [L] is an
    aligned interval of [2 ^ (16 - L)] numbers of 16 bits, those that start with it. *)
From S2P Require Import Prelude CBase Decompress.
Local Open Scope Z_scope.

(** ** Definitions *)

(** How often length [L] occurs. *)
Definition count (L : Z) (lens : list Z) : Z := Z.of_nat (length (filter (λ x, x = L) lens)).

(** The numbers below the codes of length [L]. *)
Fixpoint base (lens : list Z) (L : nat) : Z :=
  match L with
  | O => 0
  | S l => base lens l + (if decide (l = 0%nat) then 0 else count (Z.of_nat l) lens * 2 ^ (16 - Z.of_nat l))
  end.

(** The first number of the code of character [c], which has length [L]. *)
Definition pos (lens : list Z) (c : nat) (L : Z) : Z :=
  base lens (Z.to_nat L) + count L (take c lens) * 2 ^ (16 - L).

Definition code (lens : list Z) (c : nat) (L : Z) : Z := pos lens c L / 2 ^ (16 - L).

(** Character [c] has a code of length [L]. *)
Definition has_code (lens : list Z) (c : nat) (L : Z) : Prop := lens !! c = Some L ∧ 1 ≤ L ≤ 16.

(** The codes use up all numbers. *)
Definition complete (lens : list Z) : Prop := base lens 17 = 2 ^ 16.

(** ** Counting *)

Lemma count_nonneg L lens : 0 ≤ count L lens.
Proof. unfold count. lia. Qed.

Lemma count_concat L l k : count L (l ++ k) = count L l + count L k.
Proof. unfold count. rewrite filter_app, length_app. lia. Qed.

Lemma count_single L x : count L [x] = if decide (x = L) then 1 else 0.
Proof. unfold count. rewrite filter_cons. by case_decide. Qed.

Lemma count_take_S lens c L : lens !! c = Some L → count L (take (S c) lens) = count L (take c lens) + 1.
Proof.
  intros Hc. rewrite (take_S_r _ _ L) by done. by rewrite count_concat, count_single, decide_True.
Qed.

Lemma count_take_other lens c L L' : lens !! c = Some L' → L ≠ L' → count L (take (S c) lens) = count L (take c lens).
Proof.
  intros Hc HL. rewrite (take_S_r _ _ L') by done. rewrite count_concat, count_single, decide_False by done. lia.
Qed.

Lemma count_take_le lens c L : count L (take c lens) ≤ count L lens.
Proof. rewrite <-(take_drop c lens) at 2. rewrite count_concat. pose proof (count_nonneg L (drop c lens)). lia. Qed.

Lemma count_take_mono lens c c' L : (c ≤ c')%nat → count L (take c lens) ≤ count L (take c' lens).
Proof. intros Hc. replace (take c lens) with (take c (take c' lens)) by (rewrite take_take; f_equal; lia). apply count_take_le. Qed.

Lemma count_take_lt lens c c' L : lens !! c = Some L → (c < c')%nat → count L (take c lens) + 1 ≤ count L (take c' lens).
Proof. intros Hc Hlt. rewrite <-count_take_S by done. apply count_take_mono. lia. Qed.

(** The character with a given number of predecessors of its length. *)
Lemma count_nth lens L r : 0 ≤ r < count L lens → ∃ c, lens !! c = Some L ∧ count L (take c lens) = r.
Proof.
  induction lens as [|x lens IH] using rev_ind; intros Hr; [unfold count in Hr; cbn in Hr; lia|].
  rewrite count_concat, count_single in Hr. destruct (Z.lt_ge_cases r (count L lens)) as [Hlt|Hge].
  - destruct IH as (c & Hc & Hn); [lia|]. exists c. assert (c < length lens)%nat by by eapply lookup_lt_Some.
    rewrite lookup_app_l, take_app_le by lia. done.
  - destruct (decide (x = L)) as [->|Hx].
    + exists (length lens). rewrite lookup_app_r, Nat.sub_diag, take_app_length by done. split; [done|].
      lia.
    + lia.
Qed.

(** ** Intervals *)

Lemma base_S lens l : (0 < l)%nat → base lens (S l) = base lens l + count (Z.of_nat l) lens * 2 ^ (16 - Z.of_nat l).
Proof. intros Hl. cbn [base]. by rewrite decide_False by lia. Qed.

Lemma base_mono lens l l' : (l ≤ l')%nat → base lens l ≤ base lens l'.
Proof.
  induction 1 as [|l' _ IH]; [done|]. etrans; [exact IH|]. cbn [base]. case_decide; [lia|].
  pose proof (count_nonneg (Z.of_nat l') lens). pose proof (Z.pow_nonneg 2 (16 - Z.of_nat l')). nia.
Qed.

Lemma base_nonneg lens l : 0 ≤ base lens l.
Proof. apply (base_mono lens 0). lia. Qed.

Lemma pow_divide a b : 0 ≤ a ≤ b → (2 ^ a | 2 ^ b).
Proof. intros H. exists (2 ^ (b - a)). rewrite <-Z.pow_add_r by lia. f_equal. lia. Qed.

Lemma base_divide lens l : (l ≤ 17)%nat → (2 ^ (17 - Z.of_nat l) | base lens l).
Proof.
  induction l as [|l IH]; intros Hl; [apply Z.divide_0_r|]. cbn [base]. apply Z.divide_add_r.
  - etrans; [|apply IH; lia]. apply pow_divide. lia.
  - case_decide; [apply Z.divide_0_r|]. apply Z.divide_mul_r. apply pow_divide. lia.
Qed.

(** Each code adds to the numbers used. *)
Lemma base_app lens k l : base (lens ++ k) l = base lens l + base k l.
Proof. induction l as [|l IH]; [done|]. cbn [base]. rewrite IH, count_concat. case_decide; lia. Qed.

Lemma base_single x l : base [x] l = if decide (1 ≤ x < Z.of_nat l) then 2 ^ (16 - x) else 0.
Proof.
  induction l as [|l IH]; [by rewrite decide_False by lia|]. cbn [base]. rewrite IH, count_single.
  destruct (decide (l = 0%nat)) as [->|Hl]; [by rewrite !decide_False by lia|].
  destruct (decide (x = Z.of_nat l)) as [->|Hx].
  - rewrite decide_False, decide_True by lia. lia.
  - case_decide; [rewrite decide_True by lia|rewrite decide_False by lia]; lia.
Qed.

(** What the codes of length [l] and more can add. *)
Lemma base_rest lens l : (1 ≤ l ≤ 17)%nat → base lens 17 ≤ base lens l + Z.of_nat (length lens) * 2 ^ (16 - Z.of_nat l).
Proof.
  intros Hl. induction lens as [|x lens IH].
  { assert (Hz : ∀ m, base [] m = 0) by (intros m; induction m as [|m IH]; [done|]; cbn [base]; rewrite IH; by case_decide).
    by rewrite !Hz. }
  change (x :: lens) with ([x] ++ lens). rewrite !base_app, !base_single, length_app, Nat2Z.inj_add. cbn [length].
  assert (0 ≤ 2 ^ (16 - Z.of_nat l)) by (apply Z.pow_nonneg; lia).
  destruct (decide (1 ≤ x < Z.of_nat 17)); [|rewrite decide_False by lia; lia].
  destruct (decide (1 ≤ x < Z.of_nat l)); [lia|].
  assert (2 ^ (16 - x) ≤ 2 ^ (16 - Z.of_nat l)) by (apply Z.pow_le_mono_r; lia). lia.
Qed.

Section codes.
Context (lens : list Z).

Lemma pos_nonneg c L : 0 ≤ pos lens c L.
Proof.
  unfold pos. pose proof (base_nonneg lens (Z.to_nat L)). pose proof (count_nonneg L (take c lens)).
  pose proof (Z.pow_nonneg 2 (16 - L)). nia.
Qed.

Lemma pos_divide c L : 1 ≤ L ≤ 16 → (2 ^ (16 - L) | pos lens c L).
Proof.
  intros HL. apply Z.divide_add_r; [|by apply Z.divide_mul_r, Z.divide_refl].
  etrans; [|apply base_divide; lia]. apply pow_divide. lia.
Qed.

(** The interval of a code lies among those of its length. *)
Lemma pos_range c L : has_code lens c L →
  base lens (Z.to_nat L) ≤ pos lens c L ∧ pos lens c L + 2 ^ (16 - L) ≤ base lens (S (Z.to_nat L)).
Proof.
  intros [Hc HL]. rewrite base_S by lia. rewrite Z2Nat.id by lia. unfold pos.
  pose proof (count_nonneg L (take c lens)).
  assert (Hlt : count L (take c lens) + 1 ≤ count L lens).
  { rewrite <-(firstn_all lens) at 2. apply count_take_lt; [done|by eapply lookup_lt_Some]. }
  assert (0 < 2 ^ (16 - L)) by (apply Z.pow_pos_nonneg; lia). nia.
Qed.

Lemma pos_below c L : complete lens → has_code lens c L → pos lens c L + 2 ^ (16 - L) ≤ 2 ^ 16.
Proof.
  intros Hcomp Hc. destruct (pos_range _ _ Hc) as [_ Hle]. destruct Hc. rewrite <-Hcomp.
  etrans; [exact Hle|]. apply base_mono. lia.
Qed.

Lemma pos_disjoint_lt c c' L L' : has_code lens c L → has_code lens c' L' → L < L' ∨ (L = L' ∧ (c < c')%nat) →
  pos lens c L + 2 ^ (16 - L) ≤ pos lens c' L'.
Proof.
  intros Hc Hc' [Hlt|[-> Hlt]].
  - destruct (pos_range _ _ Hc) as [_ H1], (pos_range _ _ Hc') as [H2 _], Hc, Hc'.
    etrans; [exact H1|]. etrans; [|exact H2]. apply base_mono. lia.
  - destruct Hc as [Hl ?], Hc'. unfold pos. pose proof (count_take_lt lens c c' L' Hl Hlt).
    assert (0 < 2 ^ (16 - L')) by (apply Z.pow_pos_nonneg; lia). nia.
Qed.

(** The codes are free of prefixes: a number starts with one code at most ... *)
Lemma code_unique c c' L L' x : has_code lens c L → has_code lens c' L' →
  pos lens c L ≤ x < pos lens c L + 2 ^ (16 - L) → pos lens c' L' ≤ x < pos lens c' L' + 2 ^ (16 - L') → c = c'.
Proof.
  intros Hc Hc' Hx Hx'. destruct (decide (c = c')) as [|Hne]; [done|]. exfalso.
  destruct (Z.lt_trichotomy L L') as [H|[H|H]].
  - pose proof (pos_disjoint_lt c c' L L' Hc Hc' (or_introl H)). lia.
  - destruct (Nat.lt_ge_cases c c').
    + pose proof (pos_disjoint_lt c c' L L' Hc Hc'). lia.
    + pose proof (pos_disjoint_lt c' c L' L Hc' Hc). lia.
  - pose proof (pos_disjoint_lt c' c L' L Hc' Hc). lia.
Qed.

(** ... and with one at least when they are complete. *)
Lemma code_exists x : complete lens → 0 ≤ x < 2 ^ 16 →
  ∃ c L, has_code lens c L ∧ pos lens c L ≤ x < pos lens c L + 2 ^ (16 - L).
Proof.
  intros Hcomp Hx.
  assert (∃ l, (1 ≤ l ≤ 16)%nat ∧ base lens l ≤ x < base lens (S l)) as (l & Hl & Hb).
  { assert (Hfind : ∀ k, (k ≤ 16)%nat → x < base lens (S k) → ∃ l, (l ≤ 16)%nat ∧ base lens l ≤ x < base lens (S l)).
    { induction k as [|k IH]; intros Hk Hlt.
      - exists 0%nat. split; [lia|]. cbn in *. lia.
      - destruct (Z.lt_ge_cases x (base lens (S k))); [apply IH; lia|]. exists (S k). lia. }
    destruct (Hfind 16%nat) as (l & Hl & Hlx); [done|rewrite Hcomp; lia|]. exists l. split; [|done].
    destruct l; [change (0 ≤ x < 0) in Hlx|]; lia. }
  rewrite base_S in Hb by lia. set (w := 2 ^ (16 - Z.of_nat l)) in *.
  assert (0 < w) by (apply Z.pow_pos_nonneg; lia).
  destruct (count_nth lens (Z.of_nat l) ((x - base lens l) / w)) as (c & Hc & Hr).
  { split; [apply Z.div_pos; lia|]. apply Z.div_lt_upper_bound; [lia|]. lia. }
  exists c, (Z.of_nat l). split; [split; [done|lia]|]. unfold pos. rewrite Nat2Z.id, Hr. fold w.
  pose proof (Z.div_mod (x - base lens l) w). pose proof (Z.mod_pos_bound (x - base lens l) w). lia.
Qed.

(** A number starts with a code if its first bits are the code. *)
Lemma in_interval c L x : 1 ≤ L ≤ 16 → pos lens c L ≤ x < pos lens c L + 2 ^ (16 - L) ↔ x / 2 ^ (16 - L) = code lens c L.
Proof.
  intros HL. unfold code. destruct (pos_divide c L HL) as [q Hq]. rewrite Hq.
  assert (0 < 2 ^ (16 - L)) by (apply Z.pow_pos_nonneg; lia). set (w := 2 ^ (16 - L)) in *. rewrite Z.div_mul by lia.
  pose proof (Z.div_mod x w). pose proof (Z.mod_pos_bound x w). split; intros Hx.
  - symmetry. apply Z.div_unique with (x - q * w); lia.
  - rewrite <-Hx. lia.
Qed.
End codes.

(** ** The trees behind a decoding table

    The first [b] bits of a code select an entry of the table, and each further bit a
    child of a node.  A cell is named by its depth [d] with the [d] bits that lead to
    it; the nodes of the scratch buffer are a list of such names, numbered from the
    number of characters on. *)

#[export] Instance cell_eq_dec : EqDecision cell.
Proof. solve_decision. Defined.

Section tree.
Context (lens : list Z) (b : Z) (Hb : 1 ≤ b ≤ 15).

(** A longer code starts with the bits [p]. *)
Definition internal (d p : Z) : Prop :=
  b ≤ d ∧ ∃ c L, has_code lens c L ∧ d < L ∧ pos lens c L / 2 ^ (16 - d) = p.

(** Character [c], one of the first [k], ends at this cell: all [b] bits long cells
    that start with it when its code is short. *)
Definition leaf (k : nat) (d p : Z) (c : nat) : Prop :=
  (c < k)%nat ∧ ∃ L, has_code lens c L ∧ d = Z.max b L ∧ pos lens c L ≤ p * 2 ^ (16 - d) < pos lens c L + 2 ^ (16 - L).

(** Where a cell is stored. *)
Definition at_cell (nodes : list (Z * Z)) (d p : Z) (x : cell) : Prop :=
  0 ≤ p < 2 ^ d ∧
  ((d = b ∧ x = InTable p) ∨
   (b < d ∧ ∃ i, nodes !! i = Some (d - 1, p / 2) ∧
     x = (if Z.odd p then InRight else InLeft) (Z.of_nat (length lens) + Z.of_nat i))).

(** ** Numbers *)

Lemma pow_pos d : 0 ≤ d → 0 < 2 ^ d.
Proof. apply Z.pow_pos_nonneg. done. Qed.

Lemma div_interval x w p : 0 < w → x / w = p ↔ p * w ≤ x < p * w + w.
Proof.
  intros Hw. pose proof (Z.div_mod x w). pose proof (Z.mod_pos_bound x w). split; [intros <-; lia|].
  intros Hx. symmetry. apply Z.div_unique with (x - p * w); lia.
Qed.

(** Two numbers with the same first [d] bits start with the same codes up to length [d]. *)
Lemma same_prefix c L d x y : has_code lens c L → L ≤ d ≤ 16 → x / 2 ^ (16 - d) = y / 2 ^ (16 - d) →
  pos lens c L ≤ x < pos lens c L + 2 ^ (16 - L) → pos lens c L ≤ y < pos lens c L + 2 ^ (16 - L).
Proof.
  intros [_ HL] Hd Hxy. rewrite !in_interval by done. intros <-.
  assert (H : ∀ z, z / 2 ^ (16 - L) = z / 2 ^ (16 - d) / 2 ^ (d - L)).
  { intros z. rewrite Z.div_div, <-Z.pow_add_r by (try apply Z.pow_nonzero; try apply pow_pos; lia). do 2 f_equal. lia. }
  by rewrite !H, Hxy.
Qed.

Lemma prefix_start d p : 0 ≤ d ≤ 16 → (p * 2 ^ (16 - d)) / 2 ^ (16 - d) = p.
Proof. intros Hd. apply Z.div_mul. apply Z.pow_nonzero; lia. Qed.

Lemma prefix_step x d : 0 ≤ d < 16 → x / 2 ^ (16 - (d + 1)) / 2 = x / 2 ^ (16 - d).
Proof.
  intros Hd. rewrite Z.div_div by (try apply Z.pow_nonzero; lia). f_equal.
  rewrite Z.mul_comm, <-Z.pow_succ_r by lia. f_equal. lia.
Qed.

Lemma prefix_range x d : 0 ≤ x < 2 ^ 16 → 0 ≤ d ≤ 16 → 0 ≤ x / 2 ^ (16 - d) < 2 ^ d.
Proof.
  intros Hx Hd. assert (0 < 2 ^ (16 - d)) by (apply pow_pos; lia). split; [apply Z.div_pos; lia|].
  apply Z.div_lt_upper_bound; [done|]. rewrite <-Z.pow_add_r by lia. replace (16 - d + d) with 16 by lia. lia.
Qed.

(** ** Cells *)

Lemma internal_range d p : internal d p → b ≤ d ≤ 15.
Proof. intros (Hd & c & L & [_ HL] & Hlt & _). lia. Qed.

Lemma internal_parent d p : internal d p → b < d → internal (d - 1) (p / 2).
Proof.
  intros Hi Hd. assert (Hr := internal_range _ _ Hi). destruct Hi as (_ & c & L & Hc & Hlt & <-). split; [lia|].
  exists c, L. split; [done|]. split; [lia|]. replace d with (d - 1 + 1) at 2 by lia. rewrite prefix_step by lia. done.
Qed.

(** No code is the prefix of another. *)
Lemma internal_no_leaf k d p c : internal d p → ¬ leaf k d p c.
Proof.
  intros Hi (_ & L & Hc & Hd & Hp). assert (Hr := internal_range _ _ Hi).
  destruct Hi as (_ & c' & L' & Hc' & Hlt & Hp'). destruct Hc as [Hlc HL].
  assert (c = c') as ->.
  { eapply (code_unique lens c c' L L' (pos lens c' L')); [done|done| |].
    - eapply (same_prefix c L d (p * 2 ^ (16 - d))); [done|lia| |done]. by rewrite prefix_start by lia.
    - destruct Hc'. pose proof (pow_pos (16 - L')). lia. }
  destruct Hc' as [Hlc' _]. assert (L = L') by congruence. lia.
Qed.

Lemma leaf_unique k k' d p c c' : leaf k d p c → leaf k' d p c' → c = c'.
Proof. intros (_ & L & Hc & _ & Hp) (_ & L' & Hc' & _ & Hp'). by eapply code_unique. Qed.

Lemma leaf_S k d p c : leaf k d p c → leaf (S k) d p c.
Proof. intros [Hc Hl]. split; [lia|done]. Qed.

Lemma leaf_S_inv k d p c : leaf (S k) d p c → c = k ∨ leaf k d p c.
Proof. intros [Hc Hl]. destruct (decide (c = k)); [by left|right]. split; [lia|done]. Qed.

Lemma leaf_range k d p c : leaf k d p c → b ≤ d ≤ 16.
Proof. intros (_ & L & [_ HL] & -> & _). lia. Qed.

(** Names and places of cells determine each other. *)
Lemma at_cell_name nodes d p d' p' x : at_cell nodes d p x → at_cell nodes d' p' x → d = d' ∧ p = p'.
Proof.
  intros [Hp [[-> ->]|(Hd & i & Hi & Hx)]] [Hp' [[-> Hx']|(Hd' & i' & Hi' & Hx')]].
  - by injection Hx'.
  - by destruct (Z.odd p').
  - subst. by destruct (Z.odd p).
  - assert (i = i' ∧ Z.odd p = Z.odd p') as [-> Ho].
    { rewrite Hx in Hx'. destruct (Z.odd p), (Z.odd p'); try discriminate Hx'; injection Hx' as Hx'; (split; [lia|done]). }
    rewrite Hi in Hi'. injection Hi' as Hd1 Hp1. split; [lia|].
    pose proof (Z.div_mod p 2). pose proof (Z.div_mod p' 2). rewrite !Zmod_odd, Ho, Hp1 in *. lia.
Qed.

Lemma at_cell_place nodes d p x y : NoDup nodes → at_cell nodes d p x → at_cell nodes d p y → x = y.
Proof.
  intros Hnd [_ [[? ->]|(? & i & Hi & ->)]] [_ [[? ->]|(? & j & Hj & ->)]]; try lia; [done|].
  by rewrite (NoDup_lookup _ _ _ _ Hnd Hi Hj).
Qed.

Lemma at_cell_app nodes new d p x : at_cell nodes d p x → at_cell (nodes ++ new) d p x.
Proof.
  intros [Hp [H|(Hd & i & Hi & Hx)]]; (split; [done|]); [by left|right]. split; [done|]. exists i. by rewrite (lookup_app_l_Some _ _ _ _ Hi).
Qed.

(** A cell of the extended list is an old one or a child of the new node. *)
Lemma at_cell_new nodes d0 p0 d p x : at_cell (nodes ++ [(d0, p0)]) d p x →
  at_cell nodes d p x ∨ (d = d0 + 1 ∧ p / 2 = p0 ∧
    x = (if Z.odd p then InRight else InLeft) (Z.of_nat (length lens) + Z.of_nat (length nodes))).
Proof.
  intros [Hp [H|(Hd & i & Hi & Hx)]]; [left; by split; [|left]|].
  apply lookup_app_Some in Hi as [Hi|[Hge Hi]].
  - left. split; [done|]. right. split; [done|]. by exists i.
  - right. apply list_lookup_singleton_Some in Hi as [Hi [= -> ->]]. split; [lia|]. split; [done|].
    by replace i with (length nodes) in Hx by lia.
Qed.

(** ** The number of nodes *)

Lemma internal_mid d p : complete lens → internal d p →
  ∃ c L, has_code lens c L ∧ pos lens c L = (2 * p + 1) * 2 ^ (15 - d).
Proof.
  intros Hcomp Hi. assert (Hr := internal_range _ _ Hi). set (m := (2 * p + 1) * 2 ^ (15 - d)).
  assert (Hpow : 2 ^ (16 - d) = 2 * 2 ^ (15 - d)) by (rewrite <-Z.pow_succ_r by lia; f_equal; lia).
  assert (0 < 2 ^ (15 - d)) by (apply pow_pos; lia).
  assert (Hm : m / 2 ^ (16 - d) = p) by (apply div_interval; lia).
  assert (Hp : 0 ≤ p < 2 ^ d).
  { destruct Hi as (_ & c & L & Hc & _ & <-). pose proof (pos_below _ _ _ Hcomp Hc). pose proof (pos_nonneg lens c L).
    destruct Hc. pose proof (pow_pos (16 - L)). apply prefix_range; lia. }
  assert (Hd16 : 2 ^ d * 2 ^ (16 - d) = 2 ^ 16) by (rewrite <-Z.pow_add_r by lia; f_equal; lia).
  destruct (code_exists lens m Hcomp) as (c & L & Hc & Hmc); [nia|]. exists c, L. split; [done|].
  destruct (Z.le_gt_cases L d) as [HLd|HLd].
  - exfalso. destruct Hi as (_ & c' & L' & Hc' & Hlt & Hp'). assert (c = c') as ->.
    { eapply (code_unique lens c c' L L' (pos lens c' L')); [done|done| |].
      - eapply (same_prefix c L d m); [done|lia|by rewrite Hm|done].
      - destruct Hc'. pose proof (pow_pos (16 - L')). lia. }
    destruct Hc as [H1 _], Hc' as [H2 _]. assert (L = L') by congruence. lia.
  - destruct Hc as [Hlc HL]. apply (in_interval lens c L m HL) in Hmc. unfold code in Hmc.
    destruct (pos_divide lens c L HL) as [q Hq]. rewrite Hq in *. assert (Hw : 0 < 2 ^ (16 - L)) by (apply pow_pos; lia).
    rewrite Z.div_mul in Hmc by lia. subst q. unfold m.
    assert (2 ^ (15 - d) = 2 ^ (L - 1 - d) * 2 ^ (16 - L)) as -> by (rewrite <-Z.pow_add_r by lia; f_equal; lia).
    rewrite Z.mul_assoc, Z.div_mul by lia. done.
Qed.

(** The middle of a cell names it. *)
Lemma mid_inj d p d' p' : 0 ≤ d ≤ 15 → 0 ≤ d' ≤ 15 → (2 * p + 1) * 2 ^ (15 - d) = (2 * p' + 1) * 2 ^ (15 - d') → d = d' ∧ p = p'.
Proof.
  assert (Hlt : ∀ d p d' p', 0 ≤ d < d' → d' ≤ 15 → (2 * p + 1) * 2 ^ (15 - d) ≠ (2 * p' + 1) * 2 ^ (15 - d')).
  { intros e q e' q' He He' Heq. assert (2 ^ (15 - e) = 2 ^ (e' - e - 1) * 2 * 2 ^ (15 - e')) as Hp.
    { rewrite <-(Z.pow_1_r 2) at 3. rewrite <-!Z.pow_add_r by lia. f_equal. lia. }
    rewrite Hp, Z.mul_assoc in Heq. apply Z.mul_reg_r in Heq; [|apply Z.pow_nonzero; lia]. lia. }
  intros Hd Hd' Heq. destruct (Z.lt_trichotomy d d') as [H|[->|H]].
  - exfalso. apply (Hlt d p d' p'); [lia|lia|done].
  - split; [done|]. apply Z.mul_reg_r in Heq; [lia|apply Z.pow_nonzero; lia].
  - exfalso. apply (Hlt d' p' d p); [lia|lia|done].
Qed.

(** Each node has a character of its own that is not the first one. *)
Lemma nodes_bound nodes : complete lens → NoDup nodes → (∀ d p, (d, p) ∈ nodes → internal d p) → (length nodes < length lens)%nat.
Proof.
  intros Hcomp Hnd Hint. destruct (code_exists lens 0 Hcomp) as (c0 & L0 & Hc0 & Hp0); [lia|].
  assert (Hz : pos lens c0 L0 = 0) by (pose proof (pos_nonneg lens c0 L0); lia).
  assert (∃ cs, length cs = length nodes ∧ NoDup cs ∧
    ∀ c, c ∈ cs → ∃ d p L, (d, p) ∈ nodes ∧ has_code lens c L ∧ pos lens c L = (2 * p + 1) * 2 ^ (15 - d)) as (cs & Hlen & Hcs & Hmem).
  { clear Hc0 Hp0. induction Hnd as [|[d p] nodes Hnot Hnd IH]; [exists []; split; [done|split; [constructor|by intros c ?%elem_of_nil]]|].
    destruct IH as (cs & Hlen & Hcs & Hmem); [intros d' p' H; apply Hint; by right|].
    destruct (internal_mid d p Hcomp) as (c & L & Hc & Hmid); [apply Hint; by left|].
    exists (c :: cs). split; [cbn; by rewrite Hlen|]. split.
    - constructor; [|done]. intros Hin. destruct (Hmem _ Hin) as (d' & p' & L' & Hin' & [Hc' _] & Hmid').
      destruct Hc as [Hc _]. assert (L' = L) as -> by congruence. rewrite Hmid in Hmid'.
      assert (Hr := internal_range d p). assert (Hr' := internal_range d' p').
      apply mid_inj in Hmid' as [-> ->]; [done| |].
      + assert (b ≤ d ≤ 15) by (apply Hr, Hint; by left). lia.
      + assert (b ≤ d' ≤ 15) by (apply Hr', Hint; by right). lia.
    - intros c' [->|Hin]%elem_of_cons; [exists d, p, L; split; [by left|done]|].
      destruct (Hmem _ Hin) as (d' & p' & L' & Hin' & H). exists d', p', L'. split; [by right|done]. }
  assert (Hsub : c0 :: cs ⊆+ seq 0 (length lens)).
  { apply NoDup_submseteq.
    - constructor; [|done]. intros Hin. destruct (Hmem _ Hin) as (d & p & L & Hin' & [Hc _] & Hmid).
      destruct Hc0 as [Hc0 _]. assert (L = L0) as -> by congruence. rewrite Hz in Hmid.
      pose proof (internal_range _ _ (Hint _ _ Hin')).
      assert (0 < 2 ^ (15 - d)) by (apply pow_pos; lia). symmetry in Hmid. apply Z.mul_eq_0 in Hmid as [?|?]; lia.
    - intros c Hin. apply elem_of_seq. split; [lia|]. apply elem_of_cons in Hin as [->|Hin].
      + destruct Hc0 as [Hc0 _]. apply lookup_lt_Some in Hc0. lia.
      + destruct (Hmem _ Hin) as (d & p & L & _ & [Hc _] & _). apply lookup_lt_Some in Hc. lia. }
  apply submseteq_length in Hsub. rewrite length_seq in Hsub. cbn in Hsub. lia.
Qed.
End tree.

(** ** How MakeTable grows the trees

    What the cells hold once the codes of the first [k] characters are in the table,
    and the two steps that change it: a node is allocated, a character is written. *)

Section nodes.
Context (lens : list Z) (b : Z) (Hb : 1 ≤ b ≤ 15).
Abbreviation internal := (internal lens b).
Abbreviation leaf := (leaf lens b).
Abbreviation at_cell := (at_cell lens b).
Abbreviation N := (Z.of_nat (length lens)).

(** [v] is what the cells hold. *)
Record tree_inv (k : nat) (nodes : list (Z * Z)) (v : cell → Z) : Prop := TreeInv {
  ti_nodup : NoDup nodes;
  ti_internal d p : (d, p) ∈ nodes → internal d p;
  ti_parent d p : (d, p) ∈ nodes → b < d → (d - 1, p / 2) ∈ nodes;
  ti_prefix c L d : (c < k)%nat → has_code lens c L → b ≤ d < L → (d, pos lens c L / 2 ^ (16 - d)) ∈ nodes;
  ti_node d p x i : at_cell nodes d p x → nodes !! i = Some (d, p) → v x = N + Z.of_nat i;
  ti_leaf d p x c : at_cell nodes d p x → leaf k d p c → v x = Z.of_nat c;
  ti_zero d p x : at_cell nodes d p x → (d, p) ∉ nodes → (∀ c, ¬ leaf k d p c) →
    base lens (Z.to_nat b + 1) ≤ p * 2 ^ (16 - d) → v x = 0 }.

Lemma tree_inv_ext k nodes v v' : (∀ d p x, at_cell nodes d p x → v' x = v x) → tree_inv k nodes v → tree_inv k nodes v'.
Proof. intros Hv []. split; try done; intros d p x; intros; rewrite (Hv d p x) by done; eauto. Qed.

(** The cells of longer codes. *)
Lemma internal_long d p : internal d p → base lens (Z.to_nat b + 1) ≤ p * 2 ^ (16 - d).
Proof.
  intros Hi. assert (Hr := internal_range lens b _ _ Hi). destruct Hi as (_ & c & L & Hc & Hlt & <-).
  destruct (pos_range lens c L Hc) as [Hpos _].
  assert (Hbase : base lens (Z.to_nat b + 1) ≤ pos lens c L) by (etrans; [|exact Hpos]; apply base_mono; lia).
  destruct (base_divide lens (Z.to_nat b + 1)) as [q Hq]; [lia|].
  replace (17 - Z.of_nat (Z.to_nat b + 1)) with ((d - b) + (16 - d)) in Hq by lia. rewrite Z.pow_add_r, Z.mul_assoc in Hq by lia.
  rewrite Hq in *. assert (0 < 2 ^ (16 - d)) by (apply pow_pos; lia).
  apply Z.mul_le_mono_nonneg_r; [lia|]. apply Z.div_le_lower_bound; [done|]. lia.
Qed.

Lemma tree_inv_init v :
  (∀ d p x, at_cell [] d p x → base lens (Z.to_nat b + 1) ≤ p * 2 ^ (16 - d) → v x = 0) → tree_inv 0 [] v.
Proof.
  intros Hv. split; try (intros *; by intros ?%elem_of_nil).
  - constructor.
  - intros c L d Hc. lia.
  - intros d p x i _ Hi. by rewrite lookup_nil in Hi.
  - intros d p x c _ [Hc _]. lia.
  - intros d p x Hx _ _ Hp. by eapply Hv.
Qed.

(** A node is allocated for a cell on the path of a code. *)
Lemma tree_inv_alloc k nodes v v' d p x :
  let A := N + Z.of_nat (length nodes) in
  tree_inv k nodes v → internal d p → (d, p) ∉ nodes → at_cell nodes d p x →
  v' x = A → v' (InLeft A) = 0 → v' (InRight A) = 0 → (∀ y, y ≠ x → y ≠ InLeft A → y ≠ InRight A → v' y = v y) →
  tree_inv k (nodes ++ [(d, p)]) v'.
Proof.
  intros A [Hnd Hint Hpar Hpre Hnode Hleaf Hzero] Hi Hnew Hx Hvx Hvl Hvr Hold.
  assert (Hfresh : ∀ e q y, at_cell nodes e q y → y ≠ InLeft A ∧ y ≠ InRight A).
  { intros e q y [_ [[_ ->]|(_ & i & Hlt%lookup_lt_Some & ->)]]; [done|].
    destruct (Z.odd q); (split; [|]); intros [= ?]; lia. }
  assert (Hsame : ∀ e q y, at_cell nodes e q y → (e, q) ≠ (d, p) → v' y = v y).
  { intros e q y Hy Hne. destruct (Hfresh _ _ _ Hy). apply Hold; [|done|done]. intros ->. apply Hne.
    by destruct (at_cell_name lens b Hb _ _ _ _ _ _ Hy Hx) as [-> ->]. }
  split.
  - apply NoDup_app. split; [done|]. split; [|apply NoDup_singleton]. by intros y Hy ->%list_elem_of_singleton.
  - intros e q [He|[= -> ->]%list_elem_of_singleton]%elem_of_app; [by apply Hint|done].
  - intros e q [He|[= -> ->]%list_elem_of_singleton]%elem_of_app Hlt; apply elem_of_app; left; [by apply Hpar|].
    destruct Hx as [_ [[-> _]|(_ & i & Hin & _)]]; [lia|]. by eapply list_elem_of_lookup_2.
  - intros c L e Hc HL He. apply elem_of_app. left. by eapply Hpre.
  - intros e q y i Hy Hin. apply lookup_app_Some in Hin as [Hin|[Hge Hin]].
    + apply (at_cell_new lens b Hb) in Hy as [Hy|(-> & <- & _)].
      * rewrite (Hsame _ _ _ Hy); [by eapply Hnode|]. intros [= -> ->]. apply Hnew. by eapply list_elem_of_lookup_2.
      * exfalso. apply Hnew. replace d with (d + 1 - 1) by lia.
        assert (Hr := internal_range lens b _ _ Hi). apply Hpar; [by eapply list_elem_of_lookup_2|lia].
    + apply list_lookup_singleton_Some in Hin as [Hi0 [= <- <-]]. apply (at_cell_new lens b Hb) in Hy as [Hy|(Heq & _)]; [|lia].
      rewrite (at_cell_place lens b _ _ _ _ _ Hnd Hy Hx), Hvx. unfold A. lia.
  - intros e q y c Hy Hc. apply (at_cell_new lens b Hb) in Hy as [Hy|(-> & <- & _)].
    + rewrite (Hsame _ _ _ Hy); [by eapply Hleaf|]. intros [= -> ->]. by eapply internal_no_leaf.
    + exfalso. apply Hnew. assert (Hr := internal_range lens b _ _ Hi). destruct Hc as (Hck & L & HL & Hmax & Hq).
      assert (L = d + 1) as -> by lia. replace (q / 2) with (pos lens c (d + 1) / 2 ^ (16 - d)); [apply (Hpre c (d + 1)); [done|done|lia]|].
      rewrite <-prefix_step by lia. f_equal. apply (in_interval lens c (d + 1) (q * 2 ^ (16 - (d + 1)))) in Hq; [|lia].
      unfold code in Hq. by rewrite <-Hq, prefix_start by lia.
  - intros e q y Hy Hnot Hnl Hlong. apply (at_cell_new lens b Hb) in Hy as [Hy|(_ & _ & ->)]; [|by destruct (Z.odd q)].
    rewrite (Hsame _ _ _ Hy).
    + eapply Hzero; [done| |done|done]. intros Hin. apply Hnot, elem_of_app. by left.
    + intros [= -> ->]. apply Hnot, elem_of_app. right. by left.
Qed.

(** Character [k] is written to its cells. *)
Lemma tree_inv_leaf k nodes v v' L :
  tree_inv k nodes v → has_code lens k L →
  (∀ d, b ≤ d < L → (d, pos lens k L / 2 ^ (16 - d)) ∈ nodes) →
  (∀ d p x, at_cell nodes d p x → leaf (S k) d p k → v' x = Z.of_nat k) →
  (∀ d p x, at_cell nodes d p x → ¬ leaf (S k) d p k → v' x = v x) →
  tree_inv (S k) nodes v'.
Proof.
  intros [Hnd Hint Hpar Hpre Hnode Hleaf Hzero] Hk Hpath Hnew Hold. split; [done..| | | |].
  - intros c L' d Hc HL' Hd. destruct (decide (c = k)) as [->|]; [|apply Hpre; [lia|done|done]].
    destruct Hk as [Hk _], HL' as [HL' _]. assert (L' = L) as -> by congruence. by apply Hpath.
  - intros d p x i Hx Hi. rewrite (Hold _ _ _ Hx); [by eapply Hnode|]. eapply internal_no_leaf; [done|].
    apply Hint. by eapply list_elem_of_lookup_2.
  - intros d p x c Hx Hc. destruct (leaf_S_inv _ _ _ _ _ _ Hc) as [->|Hck]; [by eapply Hnew|].
    rewrite (Hold _ _ _ Hx); [by eapply Hleaf|]. intros Hk'. pose proof (leaf_unique _ _ _ _ _ _ _ _ Hk' Hck) as ->.
    destruct Hck. lia.
  - intros d p x Hx Hnot Hnl Hlong. rewrite (Hold _ _ _ Hx) by done. eapply Hzero; [done|done| |done].
    intros c Hc. by eapply Hnl, leaf_S.
Qed.

(** A character without a code changes nothing. *)
Lemma tree_inv_skip k nodes v : tree_inv k nodes v → (∀ L, ¬ has_code lens k L) → tree_inv (S k) nodes v.
Proof.
  intros [Hnd Hint Hpar Hpre Hnode Hleaf Hzero] Hk.
  assert (Hl : ∀ d p c, leaf (S k) d p c → leaf k d p c).
  { intros d p c Hc. destruct (leaf_S_inv _ _ _ _ _ _ Hc) as [->|]; [|done]. destruct Hc as (_ & L & HL & _). by destruct (Hk L). }
  split; [done..| | | |].
  - intros c L d Hc HL Hd. destruct (decide (c = k)) as [->|]; [by destruct (Hk L)|]. apply Hpre; [lia|done|done].
  - done.
  - intros d p x c Hx Hc. by eapply Hleaf; [|apply Hl].
  - intros d p x Hx Hnot Hnl Hlong. eapply Hzero; [done|done| |done]. intros c Hc. by eapply Hnl, leaf_S.
Qed.
End nodes.
