(* ===== verification/DecompressTable.v ===== *)
(** * MakeTable builds the canonical code

    For complete code lengths the loops of MakeTable count the lengths, start each
    length where [base] says, and grow the trees of DecompressCodes. *)
From S2P Require Import Prelude CBase Math64 Decompress DecompressBits DecompressSafe DecompressCodes.
Local Open Scope Z_scope.

(** ** Counts and starts *)

Lemma cast16_add x y : cast UINT16 (cast UINT16 x + cast UINT16 y) = cast UINT16 (x + y).
Proof. unfold cast. cbn. symmetry. apply Zplus_mod. Qed.

Lemma cast16_add_l x y : cast UINT16 (cast UINT16 x + y) = cast UINT16 (x + y).
Proof. unfold cast. cbn. apply Zplus_mod_idemp_l. Qed.

Lemma cast16_shiftl x y n : 0 ≤ n → cast UINT16 (x + Z.shiftl (cast UINT16 y) n) = cast UINT16 (x + y * 2 ^ n).
Proof.
  intros Hn. rewrite Z.shiftl_mul_pow2 by done. unfold cast. cbn.
  rewrite (Zplus_mod x (_ * _)), (Zplus_mod x (y * _)). do 2 f_equal. apply Zmult_mod_idemp_l.
Qed.

(** [l] holds [f] from index [i] on, as UINT16. *)
Definition holds (l : list Z) (f : Z → Z) : Prop := ∀ i x, l !! i = Some x → x = cast UINT16 (f (Z.of_nat i)).

Lemma count_loop_counts (P : Prop) lens Count f s (Q : option (list Z) → SCRATCH_DATA → Prop) :
  Forall (λ v, 0 ≤ v ≤ 16) lens → arr 17 65536 Count → holds Count f →
  (∀ Count', arr 17 65536 Count' → holds Count' (λ L, f L + count L lens) → Q (Some Count') s) →
  wpd P (count_loop lens Count) Q s.
Proof.
  intros Hl. revert Count f. induction Hl as [|Len lens HLen Hl IH]; intros Count f HC Hf HQ; cbn [count_loop].
  { wpd_seq. apply HQ; [done|]. intros i x Hi. rewrite (Hf _ _ Hi). f_equal. unfold count. cbn. lia. }
  rewrite Z.gtb_ltb, (proj2 (Z.ltb_ge _ _)) by lia. wpd_seq. destruct HC as [HCl HCb].
  destruct (lookup_lt_is_Some_2 Count (Z.to_nat Len)) as [c Hc]; [lia|].
  eapply wpd_get_at; [lia|done|]. wpd_seq. apply wpd_put_at; [lia|].
  apply (IH _ (λ L, f L + count L [Len])).
  - apply arr_insert; [done|]. apply cast_UINT16_bound.
  - intros i x Hi. rewrite count_single. apply list_lookup_insert_Some in Hi as [(<- & <- & _)|[Hne Hi]].
    + rewrite (Hf _ _ Hc), cast16_add_l, Z2Nat.id by lia. by rewrite decide_True.
    + rewrite decide_False by lia. rewrite Z.add_0_r. by apply Hf.
  - intros Count' HC' Hf'. apply HQ; [done|]. intros i x Hi. rewrite (Hf' _ _ Hi). f_equal.
    change (Len :: lens) with ([Len] ++ lens). rewrite count_concat. lia.
Qed.

Lemma start_loop_base lens Counts l x :
  (1 ≤ l)%nat → (l + length Counts ≤ 17)%nat → x = cast UINT16 (base lens l) →
  (∀ i c, Counts !! i = Some c → c = cast UINT16 (count (Z.of_nat (l + i)) lens)) →
  ∀ i y, start_loop Counts (Z.of_nat l) x !! i = Some y → y = cast UINT16 (base lens (S (l + i))).
Proof.
  intros Hl Hlen -> Hc. revert l Hl Hlen Hc. induction Counts as [|c Counts IH]; intros l Hl Hlen Hc i y Hy; [done|].
  cbn [start_loop length] in *. rewrite (Hc 0%nat c eq_refl), Nat.add_0_r, cast16_shiftl, cast16_add_l in Hy by lia.
  rewrite <-base_S in Hy by lia. destruct i as [|i]; [injection Hy as <-; by rewrite Nat.add_0_r|].
  cbn [lookup list_lookup] in Hy. replace (Z.of_nat l + 1) with (Z.of_nat (S l)) in Hy by lia.
  apply IH in Hy; [|lia|lia|].
  - rewrite Hy. do 2 f_equal. lia.
  - intros j d Hd. rewrite (Hc (S j) d Hd). do 2 f_equal. lia.
Qed.

(** Start before it is scaled. *)
Lemma starts_base lens Count : arr 17 65536 Count → holds Count (λ L, count L lens) →
  holds (0 :: 0 :: start_loop (drop 1 Count) 1 0) (λ L, base lens (Z.to_nat L)).
Proof.
  intros [HCl _] Hf i y Hy. destruct i as [|[|i]]; [by injection Hy as <-..|].
  cbn [lookup list_lookup] in Hy. eapply (start_loop_base lens _ 1) in Hy; [|done|rewrite length_drop; lia|done|].
  - rewrite Hy. do 2 f_equal. lia.
  - intros j c Hc. rewrite lookup_drop in Hc. by rewrite (Hf _ _ Hc).
Qed.

(** ** Contents of cells *)

Definition table_of (T : table_id) (s : SCRATCH_DATA) : list Z := match T with CTable => mCTable s | PTTable => mPTTable s end.

Definition at_index (l : list Z) (i : Z) : Z := if decide (0 ≤ i) then default 0 (l !! Z.to_nat i) else 0.

Definition cell_val (T : table_id) (s : SCRATCH_DATA) (x : cell) : Z :=
  match x with InTable i => at_index (table_of T s) i | InLeft i => at_index (mLeft s) i | InRight i => at_index (mRight s) i end.

Definition with_tree (T : table_id) (s : SCRATCH_DATA) (left right table : list Z) : SCRATCH_DATA :=
  Sd (mSrcBase s) (mDstBase s) (mOutBuf s) (mInBuf s) (mBitCount s) (mBitBuf s) (mSubBitBuf s) (mBlockSize s) (mCompSize s)
    (mOrigSize s) (mBadTableFlag s) left right (mCLen s) (mPTLen s)
    (match T with CTable => table | PTTable => mCTable s end) (match T with CTable => mPTTable s | PTTable => table end) (mPBit s).

(** The number of characters of a table, and the cells that its nodes may use. *)
Definition limit (T : table_id) : Z := match T with CTable => NC | PTTable => MAXNP end.

Definition near (T : table_id) (x : cell) : Prop :=
  match x with InTable _ => True | InLeft i | InRight i => i < 2 * limit T end.

(** Only the table and nodes of its own have changed. *)
Record tree_on (T : table_id) (s s' : SCRATCH_DATA) : Prop := TreeOn {
  to_state : s' = with_tree T s (mLeft s') (mRight s') (table_of T s');
  to_left i : 2 * limit T ≤ i → at_index (mLeft s') i = at_index (mLeft s) i;
  to_right i : 2 * limit T ≤ i → at_index (mRight s') i = at_index (mRight s) i }.

Lemma tree_on_refl T s : tree_on T s s.
Proof. split; [by destruct T, s|done|done]. Qed.

Lemma tree_on_trans T s1 s2 s3 : tree_on T s1 s2 → tree_on T s2 s3 → tree_on T s1 s3.
Proof.
  intros [H12 Hl12 Hr12] [H23 Hl23 Hr23]. split.
  - rewrite H12 in H23. by destruct T.
  - intros i Hi. by rewrite Hl23, Hl12.
  - intros i Hi. by rewrite Hr23, Hr12.
Qed.

Lemma at_index_insert l i v j : 0 ≤ i < Z.of_nat (length l) →
  at_index (<[Z.to_nat i := v]> l) j = if decide (j = i) then v else at_index l j.
Proof.
  intros Hi. unfold at_index. case_decide as Hj.
  - case_decide as Hji; [subst; by rewrite list_lookup_insert_eq by lia|]. by rewrite list_lookup_insert_ne by lia.
  - by rewrite decide_False by lia.
Qed.

(** A run of equal elements. *)
Lemma set_range_index l i n v j : 0 ≤ i → 0 ≤ n → i + n ≤ Z.of_nat (length l) →
  at_index (take (Z.to_nat i) l ++ replicate (Z.to_nat n) v ++ drop (Z.to_nat (i + n)) l) j
  = if decide (i ≤ j < i + n) then v else at_index l j.
Proof.
  intros Hi Hn Hl. unfold at_index. destruct (decide (0 ≤ j)) as [Hj|]; [|by rewrite decide_False by lia].
  assert (Ht : length (take (Z.to_nat i) l) = Z.to_nat i) by (rewrite length_take; lia).
  case_decide.
  - rewrite lookup_app_r, lookup_app_l by (rewrite ?length_replicate; lia). by rewrite lookup_replicate_2 by lia.
  - destruct (Z.lt_ge_cases j i).
    + rewrite lookup_app_l by lia. by rewrite lookup_take_lt by lia.
    + rewrite !lookup_app_r by (rewrite ?length_replicate; lia). rewrite length_replicate, lookup_drop. do 2 f_equal. lia.
Qed.

Section table.
Context (P : Prop) (orig out : Z) (T : table_id).

Lemma get_at_index l n B i (Q : Z → SCRATCH_DATA → Prop) s : arr n B l → 0 ≤ i < n → Q (at_index l i) s → wpd P (get_at l i) Q s.
Proof.
  intros [Hl _] Hi HQ. destruct (lookup_lt_is_Some_2 l (Z.to_nat i)) as [v Hv]; [lia|].
  eapply wpd_get_at; [lia|exact Hv|]. unfold at_index in HQ. rewrite decide_True in HQ by lia. by rewrite Hv in HQ.
Qed.

Lemma get_cell_val x (Q : Z → SCRATCH_DATA → Prop) s :
  sd_ok orig out s → cell_ok T x → Q (cell_val T s x) s → wpd P (get_cell T x) Q s.
Proof.
  intros Hs Hx HQ. destruct x; cbn [get_cell cell_val cell_ok] in *; wpd_seq; [|eapply get_at_index; [apply Hs|done|done]..].
  destruct T; wpd_seq; (eapply get_at_index; [apply Hs|done|done]).
Qed.

Lemma put_cell_val x v (Q : unit → SCRATCH_DATA → Prop) s :
  sd_ok orig out s → cell_ok T x → near T x → 0 ≤ v < NODES →
  (∀ s', sd_ok orig out s' → tree_on T s s' → (∀ y, cell_val T s' y = if decide (y = x) then v else cell_val T s y) → Q tt s') →
  wpd P (put_cell T x v) Q s.
Proof.
  intros Hs Hx Hnear Hv HQ.
  assert (Hdec : ∀ (F : Z → cell) i j, (∀ a c, F a = F c → a = c) → (if decide (F j = F i) then v else cell_val T s (F j))
    = if decide (j = i) then v else cell_val T s (F j)).
  { intros F i j HF. destruct (decide (j = i)) as [->|Hne]; [by rewrite decide_True|]. rewrite decide_False; [done|]. intros H. by apply HF in H. }
  destruct x as [i|i|i]; cbn [put_cell cell_ok] in *.
  - destruct T; wpd_seq; cbn [table_size get_table set_table] in *; wpd_seq;
      (apply wpd_put_at; [destruct (so_ctable _ _ _ Hs), (so_pttable _ _ _ Hs); lia|]; wpd_seq; wpd_set; apply HQ;
       [assert (Hc := arr_insert _ _ _ (Z.to_nat i) v (so_ctable _ _ _ Hs) Hv); assert (Hp := arr_insert _ _ _ (Z.to_nat i) v (so_pttable _ _ _ Hs) Hv); keep|by split|];
       intros [j|j|j]; cbn [cell_val table_of mCTable mPTTable]; [|done..]; rewrite at_index_insert by (destruct (so_ctable _ _ _ Hs), (so_pttable _ _ _ Hs); lia);
       symmetry; apply (Hdec InTable); by intros ?? [= ->]).
  - wpd_seq. apply wpd_put_at; [destruct (so_left _ _ _ Hs); lia|]. wpd_set. apply HQ.
    + assert (H := arr_insert _ _ _ (Z.to_nat i) v (so_left _ _ _ Hs) Hv). keep.
    + split; [by destruct T| |done]. intros j Hj. cbn [near mLeft] in *.
      rewrite at_index_insert by (destruct (so_left _ _ _ Hs); lia). by rewrite decide_False by lia.
    + intros [j|j|j]; cbn [cell_val table_of mLeft mRight mCTable mPTTable]; [by destruct T| |done].
      rewrite at_index_insert by (destruct (so_left _ _ _ Hs); lia). symmetry. apply (Hdec InLeft). by intros ?? [= ->].
  - wpd_seq. apply wpd_put_at; [destruct (so_right _ _ _ Hs); lia|]. wpd_set. apply HQ.
    + assert (H := arr_insert _ _ _ (Z.to_nat i) v (so_right _ _ _ Hs) Hv). keep.
    + split; [by destruct T|done|]. intros j Hj. cbn [near mRight] in *.
      rewrite at_index_insert by (destruct (so_right _ _ _ Hs); lia). by rewrite decide_False by lia.
    + intros [j|j|j]; cbn [cell_val table_of mLeft mRight mCTable mPTTable]; [by destruct T|done|].
      rewrite at_index_insert by (destruct (so_right _ _ _ Hs); lia). symmetry. apply (Hdec InRight). by intros ?? [= ->].
Qed.

Lemma fill_table_val {A} i n v (k : D A) Q s :
  sd_ok orig out s → 0 ≤ i → 0 ≤ n → i + n ≤ table_size T → 0 ≤ v < NODES →
  (∀ s', sd_ok orig out s' → tree_on T s s' → (∀ y, cell_val T s' y =
     match y with InTable j => if decide (i ≤ j < i + n) then v else cell_val T s y | _ => cell_val T s y end) → wpd P k Q s') →
  wpd P (l ← get_table T; l ← set_range l i n v; set_table T l;; k) Q s.
Proof.
  intros Hs Hi Hn Hle Hv HQ. destruct (so_ctable _ _ _ Hs) as [Hct _], (so_pttable _ _ _ Hs) as [Hpt _].
  destruct T; cbn [get_table set_table table_size] in *; wpd_seq; (apply wpd_set_range; [done|done|lia|]); wpd_seq; wpd_set;
    (apply HQ; [|by split|intros [j|j|j]; [|done..]; cbn [cell_val table_of mCTable mPTTable]; apply set_range_index; lia]).
  - assert (H := arr_range _ _ _ i n v (so_ctable _ _ _ Hs) Hi Hn Hle Hv). keep.
  - assert (H := arr_range _ _ _ i n v (so_pttable _ _ _ Hs) Hi Hn Hle Hv). keep.
Qed.
End table.

(** ** MakeTable builds the canonical code: the loops

    The loop over the characters keeps [tree_inv]; the path of a long code stops at the
    cell of its last bit. *)

Lemma land_pow2 x n : 0 ≤ n → negb (Z.land x (2 ^ n) =? 0) = Z.testbit x n.
Proof.
  intros Hn. assert (Hbit : ∀ i, 0 ≤ i → Z.testbit (Z.land x (2 ^ n)) i = if decide (i = n) then Z.testbit x n else false).
  { intros i Hi. rewrite Z.land_spec, Z.pow2_bits_eqb by done. destruct (Z.eqb_spec n i) as [->|].
    - by rewrite decide_True, andb_true_r.
    - rewrite decide_False by lia. apply andb_false_r. }
  destruct (Z.testbit x n) eqn:Hx.
  - apply negb_true_iff, Z.eqb_neq. intros H0. specialize (Hbit n Hn). by rewrite H0, decide_True, Z.bits_0 in Hbit.
  - apply negb_false_iff, Z.eqb_eq. apply Z.bits_inj'. intros i Hi. rewrite Hbit, Z.bits_0 by done. by case_decide.
Qed.

Lemma table_bits_range T : 1 ≤ table_bits T ≤ 15.
Proof. by destruct T. Qed.

Section make.
Context (P : Prop) (orig out : Z) (T : table_id) (lens : list Z).
Context (Hcomp : complete lens) (Hlim : Z.of_nat (length lens) ≤ limit T).
Abbreviation b := (table_bits T).
Abbreviation N := (Z.of_nat (length lens)).
Abbreviation at_cell := (at_cell lens b).
Abbreviation tree_inv := (tree_inv lens b).

Lemma limit_nodes : N ≤ 510.
Proof. etrans; [exact Hlim|]. by destruct T. Qed.

Lemma node_number nodes v k i d p : tree_inv k nodes v → nodes !! i = Some (d, p) →
  0 < N + Z.of_nat i < NODES ∧ N + Z.of_nat i < 2 * limit T.
Proof.
  intros Ht Hi. assert (Hn := nodes_bound lens b (table_bits_range T) nodes Hcomp (ti_nodup _ _ _ _ _ Ht) (ti_internal _ _ _ _ _ Ht)).
  apply lookup_lt_Some in Hi. pose proof limit_nodes. unfold NODES. lia.
Qed.

Lemma at_cell_ok nodes v k d p x : tree_inv k nodes v → at_cell nodes d p x → cell_ok T x.
Proof.
  intros Ht [Hp [[-> ->]|(Hd & i & Hi & ->)]]; cbn [cell_ok].
  - by replace (table_size T) with (2 ^ b) by by destruct T.
  - pose proof (node_number _ _ _ _ _ _ Ht Hi). destruct (Z.odd p); cbn; lia.
Qed.

Lemma at_cell_near nodes v k d p x : tree_inv k nodes v → at_cell nodes d p x → near T x.
Proof.
  intros Ht [Hp [[-> ->]|(Hd & i & Hi & ->)]]; [done|].
  pose proof (node_number _ _ _ _ _ _ Ht Hi). destruct (Z.odd p); cbn; lia.
Qed.

(** The assignments to mLeft and mRight are assignments to cells. *)
Lemma wpd_put_left {A} i v (k : D A) Q s :
  wpd P (put_cell T (InLeft i) v) (λ _, wpd P k Q) s → wpd P (l ← read mLeft; l ← put_at l i v; set_mLeft l;; k) Q s.
Proof. unfold wpd, put_cell, read, put_at, mbind, D_bind. destruct (_ && _); exact (λ H, H). Qed.

Lemma wpd_put_right {A} i v (k : D A) Q s :
  wpd P (put_cell T (InRight i) v) (λ _, wpd P k Q) s → wpd P (l ← read mRight; l ← put_at l i v; set_mRight l;; k) Q s.
Proof. unfold wpd, put_cell, read, put_at, mbind, D_bind. destruct (_ && _); exact (λ H, H). Qed.

(** A step of the path: the cell gets a node unless it has one. *)
Lemma path_step k nodes d p ptr s (Q : Z → SCRATCH_DATA → Prop) :
  let A := N + Z.of_nat (length nodes) in
  sd_ok orig out s → tree_inv k nodes (cell_val T s) → internal lens b d p → at_cell nodes d p ptr →
  (∀ nodes' s', sd_ok orig out s' → tree_on T s s' → tree_inv k nodes' (cell_val T s') → (d, p) ∈ nodes' → at_cell nodes' d p ptr →
     (∀ e, e ∈ nodes → e ∈ nodes') → Q (N + Z.of_nat (length nodes')) s') →
  wpd P (p ← get_cell T ptr;
      if (p =? 0) && (A <? 2 * NC - 1) then
        l ← read mLeft; l ← put_at l A 0; set_mLeft l;;
        r ← read mRight; r ← put_at r A 0; set_mRight r;;
        put_cell T ptr A;;
        mret (cast UINT16 (A + 1))
      else mret A) Q s.
Proof.
  intros A Hs Ht Hi Hx HQ. assert (Hok := at_cell_ok _ _ _ _ _ _ Ht Hx). wpd_seq. eapply get_cell_val; [done|done|].
  destruct (decide ((d, p) ∈ nodes)) as [Hin|Hnew].
  - apply list_elem_of_lookup in Hin as Hj. destruct Hj as [j Hj]. rewrite (ti_node _ _ _ _ _ Ht _ _ _ _ Hx Hj).
    destruct (node_number _ _ _ _ _ _ Ht Hj). rewrite (proj2 (Z.eqb_neq _ _)) by lia. wpd_seq.
    apply HQ; [done|apply tree_on_refl|done..].
  - rewrite (ti_zero _ _ _ _ _ Ht _ _ _ Hx Hnew (λ c, internal_no_leaf lens b (table_bits_range T) _ _ _ _ Hi) (internal_long lens b (table_bits_range T) _ _ Hi)).
    assert (Hn : (length (nodes ++ [(d, p)]) < length lens)%nat).
    { apply (nodes_bound lens b (table_bits_range T)); [done| |].
      - apply NoDup_app. split; [by eapply ti_nodup|]. split; [|apply NoDup_singleton]. by intros y Hy ->%list_elem_of_singleton.
      - intros e q [He|[= -> ->]%list_elem_of_singleton]%elem_of_app; [by eapply ti_internal|done]. }
    rewrite length_app in Hn. cbn in Hn. pose proof limit_nodes. assert (HA : 0 ≤ A < NODES) by (unfold A, NODES; lia). assert (A < 2 * limit T) by (unfold A; lia).
    change (2 * NC - 1) with NODES. rewrite (proj2 (Z.ltb_lt A _)) by lia. cbn [Z.eqb andb].
    apply wpd_put_left, put_cell_val with (orig := orig) (out := out); [done|done|cbn; lia|done|]. intros s1 Hs1 Ho1 Hv1.
    apply wpd_put_right, put_cell_val with (orig := orig) (out := out); [done|done|cbn; lia|done|]. intros s2 Hs2 Ho2 Hv2.
    wpd_seq. apply put_cell_val with (orig := orig) (out := out); [done|done|by eapply at_cell_near|done|]. intros s3 Hs3 Ho3 Hv3. wpd_seq.
    rewrite cast_id by (done || (unfold A, NODES in *; cint_unfold; lia)).
    replace (A + 1) with (N + Z.of_nat (length (nodes ++ [(d, p)]))) by (unfold A; rewrite length_app; cbn; lia).
    assert (Hne : ptr ≠ InLeft A ∧ ptr ≠ InRight A).
    { destruct Hx as [_ [[_ ->]|(_ & i & Hlt%lookup_lt_Some & ->)]]; [done|].
      unfold A. destruct (Z.odd p); (split; [|]); intros [= ?]; lia. }
    destruct Hne as [HneL HneR]. apply HQ; [done|by do 2 (eapply tree_on_trans; [done|])| | |by apply at_cell_app|].
    + eapply (tree_inv_alloc lens b (table_bits_range T) k nodes (cell_val T s)); [done|done|done|done|..].
      * rewrite Hv3. by rewrite decide_True.
      * rewrite Hv3, Hv2, Hv1. by rewrite !decide_False, decide_True by done.
      * rewrite Hv3, Hv2. by rewrite decide_False, decide_True by done.
      * intros y H1 H2 H3. rewrite Hv3, Hv2, Hv1. fold A in H2, H3. by rewrite !decide_False by done.
    + apply elem_of_app. right. by left.
    + intros e He. apply elem_of_app. by left.
Qed.

(** The bit of the mask is the next bit of the code. *)
Lemma path_bit x d : b ≤ d < 16 →
  negb (Z.land (cast UINT16 (Z.shiftl x (d - b))) (cast UINT16 (Z.shiftl 1 (15 - b))) =? 0) = Z.odd (x / 2 ^ (16 - (d + 1))).
Proof.
  pose proof (table_bits_range T). intros Hd. replace (cast UINT16 (Z.shiftl 1 (15 - b))) with (2 ^ (15 - b)) by by destruct T.
  rewrite land_pow2, cast_UINT_bits, Z.shiftl_spec by (done || (cbn; lia)).
  rewrite Z.testbit_odd, Z.shiftr_div_pow2 by lia. do 3 f_equal. lia.
Qed.

Lemma path_shift x d : b ≤ d → cast UINT16 (Z.shiftl (cast UINT16 (Z.shiftl x (d - b))) 1) = cast UINT16 (Z.shiftl x (d + 1 - b)).
Proof.
  intros Hd. pose proof (cast16_shiftl 0 (Z.shiftl x (d - b)) 1) as H. rewrite !Z.add_0_l in H. rewrite H by done.
  rewrite !Z.shiftl_mul_pow2 by lia. f_equal. rewrite <-Z.mul_assoc, <-Z.pow_add_r by lia. do 2 f_equal. lia.
Qed.

(** The first bits of a code that is longer. *)
Lemma code_internal k L d : has_code lens k L → b ≤ d < L → internal lens b d (pos lens k L / 2 ^ (16 - d)).
Proof. intros Hk Hd. split; [lia|]. exists k, L. split; [done|]. split; [lia|done]. Qed.

Lemma path_loop_tree k L n d nodes ptr s (Q : cell * Z → SCRATCH_DATA → Prop) :
  has_code lens k L → Z.of_nat n = L - d → b ≤ d ≤ L →
  sd_ok orig out s → tree_inv k nodes (cell_val T s) → at_cell nodes d (pos lens k L / 2 ^ (16 - d)) ptr →
  (∀ ptr' nodes' s', sd_ok orig out s' → tree_on T s s' → tree_inv k nodes' (cell_val T s') →
     at_cell nodes' L (pos lens k L / 2 ^ (16 - L)) ptr' →
     (∀ d', d ≤ d' < L → (d', pos lens k L / 2 ^ (16 - d')) ∈ nodes') → (∀ e, e ∈ nodes → e ∈ nodes') →
     Q (ptr', N + Z.of_nat (length nodes')) s') →
  wpd P (path_loop n T (cast UINT16 (Z.shiftl 1 (15 - b))) (cast UINT16 (Z.shiftl (pos lens k L) (d - b)))
    (N + Z.of_nat (length nodes)) ptr) Q s.
Proof.
  intros Hk. pose proof (table_bits_range T) as Hb. assert (HL : L ≤ 16) by (destruct Hk; lia).
  revert d nodes ptr s. induction n as [|n IH]; intros d nodes ptr s Hn Hd Hs Ht Hx HQ; cbn [path_loop].
  { assert (d = L) as -> by lia. wpd_seq. apply HQ; [done|apply tree_on_refl|done|done|intros d' Hd'; lia|done]. }
  set (x := pos lens k L) in *.
  assert (Hi : internal lens b d (x / 2 ^ (16 - d))) by (apply code_internal; [done|lia]).
  apply wpd_assoc. eapply path_step; [done|done|done|done|]. intros nodes1 s1 Hs1 Ho1 Ht1 Hin Hx1 Hsub.
  apply wpd_bind, get_cell_val with (orig := orig) (out := out); [done|by eapply at_cell_ok|].
  apply list_elem_of_lookup in Hin as Hj. destruct Hj as [j Hj]. rewrite (ti_node _ _ _ _ _ Ht1 _ _ _ _ Hx1 Hj).
  change (2 * NC - 1) with NODES. assert (Hnum := node_number _ _ _ _ _ _ Ht1 Hj).
  rewrite (proj2 (Z.ltb_lt _ _)), path_bit, path_shift by lia.
  apply IH; [lia|lia|done|done| |].
  - split; [apply prefix_range; [|lia]|].
    { pose proof (pos_nonneg lens k L). pose proof (pos_below lens k L Hcomp Hk). assert (0 < 2 ^ (16 - L)) by (apply pow_pos; lia). lia. }
    right. split; [lia|]. exists j. rewrite Z.add_simpl_r, prefix_step by lia. split; [done|]. by destruct (Z.odd _).
  - intros ptr' nodes' s' Hs' Ho' Ht' Hx' Hpath' Hsub'. apply HQ; [done|by eapply tree_on_trans|done|done| |by auto].
    intros d' Hd'. destruct (decide (d' = d)) as [->|]; [by apply Hsub'|]. apply Hpath'. lia.
Qed.
End make.
