(* ===== verification/DecompressChars.v ===== *)
(** * MakeTable builds the canonical code: the characters

    One character after the other gets its code, at the place that Start and Weight
    give, and the whole function ends with all of them in the tree. *)
From S2P Require Import Prelude CBase Math64 Decompress DecompressBits DecompressSafe DecompressCodes.
From S2P Require Import DecompressTable.
Local Open Scope Z_scope.

Section chars.
Context (P : Prop) (orig out : Z) (T : table_id) (lens : list Z).
Context (Hcomp : complete lens) (Hlim : Z.of_nat (length lens) ≤ limit T).
Abbreviation b := (table_bits T).
Abbreviation N := (Z.of_nat (length lens)).
Abbreviation at_cell := (at_cell lens b).
Abbreviation tree_inv := (tree_inv lens b).

(** A number scaled to the table for short codes. *)
Definition scale (L x : Z) : Z := if L <=? b then x / 2 ^ (16 - b) else x.

(** Start before character [k]. *)
Definition starts_ok (k : nat) (Start : list Z) : Prop := ∀ c L, (k ≤ c)%nat → has_code lens c L →
  Start !! Z.to_nat L = Some (scale L (base lens (Z.to_nat L) + count L (take k lens) * 2 ^ (16 - L))).

Lemma weights_at L : 1 ≤ L ≤ 16 → weights b !! Z.to_nat L = Some (scale L (2 ^ (16 - L))).
Proof.
  intros HL. unfold weights, scale. destruct (Z.to_nat L) as [|i] eqn:Hi; [lia|].
  rewrite lookup_cons, list_lookup_fmap, lookup_seqZ_lt by lia. cbn [fmap option_fmap option_map]. replace (1 + Z.of_nat i) with L by lia. f_equal.
  pose proof (table_bits_range T). destruct (Z.leb_spec L b).
  - rewrite Z.shiftl_1_l. replace (16 - L) with ((b - L) + (16 - b)) by lia. rewrite Z.pow_add_r, Z.div_mul by (try apply Z.pow_nonzero; lia).
    apply cast_id; [done|]. assert (0 < 2 ^ (b - L)) by (apply pow_pos; lia).
    assert (2 ^ (b - L) ≤ 2 ^ 15) by (apply Z.pow_le_mono_r; lia). cint_unfold. lia.
  - rewrite Z.shiftl_1_l. apply cast_id; [done|]. assert (0 < 2 ^ (16 - L)) by (apply pow_pos; lia).
    assert (2 ^ (16 - L) ≤ 2 ^ 15) by (apply Z.pow_le_mono_r; lia). cint_unfold. lia.
Qed.

(** Sums and bounds survive the scaling, which divides exactly. *)
Lemma scale_pos k L : has_code lens k L →
  scale L (pos lens k L + 2 ^ (16 - L)) = scale L (pos lens k L) + scale L (2 ^ (16 - L)) ∧
  0 ≤ scale L (pos lens k L) ∧ 0 < scale L (2 ^ (16 - L)) ∧
  scale L (pos lens k L) + scale L (2 ^ (16 - L)) ≤ (if L <=? b then 2 ^ b else 2 ^ 16).
Proof.
  intros Hk. pose proof (pos_below _ _ _ Hcomp Hk) as Hlt. pose proof (pos_nonneg lens k L). pose proof (table_bits_range T).
  destruct Hk as [_ HL]. destruct (pos_divide lens k L HL) as [q Hq]. assert (Hw : 0 < 2 ^ (16 - L)) by (apply pow_pos; lia).
  unfold scale. destruct (Z.leb_spec L b); [|lia].
  assert (Hs : 2 ^ (16 - L) = 2 ^ (b - L) * 2 ^ (16 - b)) by (rewrite <-Z.pow_add_r by lia; f_equal; lia).
  assert (H16 : 2 ^ 16 = 2 ^ b * 2 ^ (16 - b)) by (rewrite <-Z.pow_add_r by lia; f_equal; lia).
  assert (Hb : 0 < 2 ^ (16 - b)) by (apply pow_pos; lia). assert (0 < 2 ^ (b - L)) by (apply pow_pos; lia).
  rewrite Hq, Hs, Z.mul_assoc, <-Z.mul_add_distr_r, !Z.div_mul in * by lia.
  split; [done|]. split; [nia|]. split; [done|]. rewrite H16 in Hlt. nia.
Qed.

(** Start after a character. *)
Lemma starts_next k L Start : has_code lens k L → (length Start = 18)%nat → starts_ok k Start →
  starts_ok (S k) (<[Z.to_nat L := cast UINT16 (scale L (pos lens k L) + scale L (2 ^ (16 - L)))]> Start).
Proof.
  intros Hk Hlen Hst c L' Hc HcL. destruct (decide (L' = L)) as [->|Hne].
  - destruct (scale_pos _ _ Hk) as (Hadd & H0 & Hw & _). rewrite list_lookup_insert_eq by (destruct Hk; lia). f_equal. rewrite <-Hadd.
    assert (Hle : pos lens k L + 2 ^ (16 - L) ≤ pos lens c L) by (apply pos_disjoint_lt; [done|done|right; split; [done|lia]]).
    destruct (scale_pos _ _ HcL) as (_ & Hc0 & Hcw & Hcb).
    assert (Hmono : scale L (pos lens k L + 2 ^ (16 - L)) ≤ scale L (pos lens c L)).
    { unfold scale. destruct (L <=? b); [|done]. apply Z.div_le_mono; [|done]. apply pow_pos. pose proof (table_bits_range T). lia. }
    rewrite cast_id; [|done|].
    + f_equal. unfold pos. rewrite count_take_S by apply Hk. lia.
    + assert ((if L <=? b then 2 ^ b else 2 ^ 16) ≤ 2 ^ 16) by (destruct (L <=? b); [|done]; apply Z.pow_le_mono_r; pose proof (table_bits_range T); lia).
      cint_unfold. rewrite Hadd in *. lia.
  - rewrite list_lookup_insert_ne by (destruct Hk, HcL; lia). rewrite (Hst c L') by (done || lia).
    do 4 f_equal. symmetry. apply count_take_other with L; [apply Hk|done].
Qed.

Lemma starts_skip k L Start : lens !! k = Some L → (∀ L, ¬ has_code lens k L) → starts_ok k Start → starts_ok (S k) Start.
Proof.
  intros Hk Hno Hst c L' Hc HcL. rewrite (Hst c L') by (done || lia). do 4 f_equal. symmetry.
  apply count_take_other with L; [done|]. intros ->. apply (Hno L). split; [done|apply HcL].
Qed.

(** A leaf of a short code. *)
Lemma leaf_short k L d p : has_code lens k L → L ≤ b →
  leaf lens b (S k) d p k ↔ d = b ∧ scale L (pos lens k L) ≤ p < scale L (pos lens k L) + scale L (2 ^ (16 - L)).
Proof.
  intros Hk HL. pose proof (table_bits_range T). destruct (scale_pos _ _ Hk) as (Hadd & _). rewrite <-Hadd. unfold scale.
  rewrite (proj2 (Z.leb_le _ _)) by done. assert (Hw : 0 < 2 ^ (16 - b)) by (apply pow_pos; lia).
  assert (Hdiv : (2 ^ (16 - b) | pos lens k L) ∧ (2 ^ (16 - b) | pos lens k L + 2 ^ (16 - L))).
  { assert (Hd : (2 ^ (16 - b) | 2 ^ (16 - L))) by (apply pow_divide; lia).
    assert ((2 ^ (16 - b) | pos lens k L)) by (etrans; [exact Hd|apply pos_divide; apply Hk]).
    split; [done|by apply Z.divide_add_r]. }
  destruct Hdiv as [[q Hq] [r Hr]]. rewrite Hr, Hq, !Z.div_mul by lia. split.
  - intros (_ & L' & HL' & -> & Hp). assert (L' = L) as -> by (destruct Hk, HL'; congruence).
    rewrite Z.max_l in Hp by lia. split; [lia|]. nia.
  - intros [-> Hp]. split; [lia|]. exists L. split; [done|]. split; [lia|]. nia.
Qed.

(** A leaf of a long code. *)
Lemma leaf_long k L d p : has_code lens k L → b < L → leaf lens b (S k) d p k ↔ d = L ∧ p = pos lens k L / 2 ^ (16 - L).
Proof.
  intros Hk HL. destruct Hk as [Hlk HL16]. split.
  - intros (_ & L' & HL' & -> & Hp). assert (L' = L) as -> by (destruct HL'; congruence). rewrite Z.max_r in * by lia.
    split; [done|]. apply (in_interval lens k L (p * 2 ^ (16 - L)) HL16) in Hp. by rewrite prefix_start in Hp by lia.
  - intros [-> ->]. split; [lia|]. exists L. split; [done|]. split; [lia|].
    apply (in_interval lens k L); [done|]. by rewrite prefix_start by lia.
Qed.

(** The step of the loop for a character with a code. *)
Lemma char_step k L nodes Start rest s (Q : Z → SCRATCH_DATA → Prop) :
  has_code lens k L → sd_ok orig out s → tree_inv k nodes (cell_val T s) → starts_ok k Start → arr 18 65536 Start →
  (∀ nodes' s' Start', sd_ok orig out s' → tree_on T s s' → tree_inv (S k) nodes' (cell_val T s') → starts_ok (S k) Start' →
     arr 18 65536 Start' → wpd P (char_loop rest T b (weights b) (Z.of_nat k + 1) Start' (N + Z.of_nat (length nodes'))) Q s') →
  wpd P (char_loop (L :: rest) T b (weights b) (Z.of_nat k) Start (N + Z.of_nat (length nodes))) Q s.
Proof.
  intros Hk Hs Ht Hst HSt HQ. assert (HL : 1 ≤ L ≤ 16) by apply Hk. pose proof (table_bits_range T) as Hb.
  assert (Hchar : 0 ≤ Z.of_nat k < NODES).
  { destruct Hk as [Hlk%lookup_lt_Some _]. pose proof (limit_nodes T lens Hlim). unfold NODES. lia. }
  destruct (scale_pos _ _ Hk) as (Hadd & H0 & Hw & Hle). cbn [char_loop].
  rewrite (proj2 (Z.eqb_neq L 0)), Z.geb_leb, (proj2 (Z.leb_gt 17 L)) by lia. cbn [orb]. wpd_seq.
  eapply wpd_get_at; [lia|by apply (Hst k L)|]. fold (pos lens k L). wpd_seq. eapply wpd_get_at; [lia|by apply weights_at|].
  cbv zeta. assert (Hnext := starts_next k L Start Hk ltac:(destruct HSt; lia) Hst).
  assert (HSt' := arr_insert _ _ _ (Z.to_nat L) _ HSt (cast_UINT16_bound (scale L (pos lens k L) + scale L (2 ^ (16 - L))))).
  assert (Hlen18 : 0 ≤ L < Z.of_nat (length Start)) by (destruct HSt; lia).
  destruct (Z.leb_spec L b) as [HLb|HLb].
  - assert (Hbnd : 2 ^ b ≤ 2 ^ 15) by (apply Z.pow_le_mono_r; lia).
    rewrite (cast_id UINT16 (_ + _)) in * by (done || (cint_unfold; lia)).
    replace (cast UINT16 (Z.shiftl 1 b)) with (2 ^ b) by by destruct T.
    rewrite Z.geb_leb, Z.gtb_ltb, (proj2 (Z.leb_gt _ _)), (proj2 (Z.ltb_ge _ _)) by lia. cbn [orb].
    eapply fill_table_val; [done|done|lia|replace (table_size T) with (2 ^ b) by (by destruct T); lia|done|].
    intros s1 Hs1 Ho1 Hv1. wpd_seq. apply wpd_put_at; [done|]. apply (HQ nodes); [done|done| |done|done].
    eapply (tree_inv_leaf lens b Hb k nodes (cell_val T s)); [done|done|intros d Hd; lia| |]; intros d p x Hx;
      rewrite (leaf_short _ _ _ _ Hk HLb), Hv1; destruct Hx as [_ [[-> ->]|(Hd & i & _ & ->)]].
    + intros [_ Hp]. by rewrite decide_True by lia.
    + intros [-> _]. lia.
    + intros Hp. rewrite decide_False; [done|]. intros H. apply Hp. split; [done|lia].
    + by destruct (Z.odd p).
  - assert (Hsp : scale L (pos lens k L) = pos lens k L) by (unfold scale; by rewrite (proj2 (Z.leb_gt _ _)) by lia).
    assert (H16 : pos lens k L < 2 ^ 16) by (pose proof (pos_below _ _ _ Hcomp Hk); assert (0 < 2 ^ (16 - L)) by (apply pow_pos; lia); lia).
    rewrite Hsp in *. wpd_seq. replace (pos lens k L) with (cast UINT16 (Z.shiftl (pos lens k L) (b - b))) at 1
      by (rewrite Z.sub_diag, Z.shiftl_0_r; apply cast_id; [done|cint_unfold; lia]).
    apply (path_loop_tree P orig out T lens Hcomp Hlim k L _ b); [done|lia|lia|done|done| |].
    { split; [apply prefix_range; lia|]. left. rewrite Z.shiftr_div_pow2 by lia. done. }
    intros ptr nodes' s1 Hs1 Ho1 Ht1 Hx1 Hpath _. wpd_seq.
    apply put_cell_val with (orig := orig) (out := out); [done|by eapply at_cell_ok|by eapply at_cell_near|done|]. intros s2 Hs2 Ho2 Hv2.
    wpd_seq. apply wpd_put_at; [done|]. apply (HQ nodes'); [done|by eapply tree_on_trans| |done|done].
    eapply (tree_inv_leaf lens b Hb k nodes' (cell_val T s1)); [done|done|by apply Hpath| |]; intros d p x Hx;
      rewrite (leaf_long _ _ _ _ Hk HLb), Hv2.
    + intros [-> ->]. by rewrite (at_cell_place lens b _ _ _ _ _ (ti_nodup _ _ _ _ _ Ht1) Hx Hx1), decide_True.
    + intros Hne. rewrite decide_False; [done|]. intros ->. apply Hne. by apply (at_cell_name lens b Hb nodes' _ _ _ _ ptr).
Qed.

Lemma char_loop_tree k nodes Start s (Q : Z → SCRATCH_DATA → Prop) :
  Forall (λ v, 0 ≤ v ≤ 16) lens → (k ≤ length lens)%nat → sd_ok orig out s → tree_inv k nodes (cell_val T s) →
  starts_ok k Start → arr 18 65536 Start →
  (∀ nodes' s', sd_ok orig out s' → tree_on T s s' → tree_inv (length lens) nodes' (cell_val T s') → Q 0 s') →
  wpd P (char_loop (drop k lens) T b (weights b) (Z.of_nat k) Start (N + Z.of_nat (length nodes))) Q s.
Proof.
  intros Hlens Hk. remember (length lens - k)%nat as m eqn:Hm. revert k nodes Start s Hk Hm.
  induction m as [|m IH]; intros k nodes Start s Hk Hm Hs Ht Hst HSt HQ.
  { rewrite drop_ge by lia. cbn [char_loop]. wpd_seq. eapply HQ; [done|apply tree_on_refl|]. by replace (length lens) with k by lia. }
  destruct (lookup_lt_is_Some_2 lens k) as [L HL]; [lia|]. rewrite (drop_S _ _ _ HL).
  assert (Hrange : 0 ≤ L ≤ 16) by by apply (Forall_lookup_1 _ _ _ _ Hlens HL).
  destruct (Z.eq_dec L 0) as [->|Hne].
  - cbn [char_loop Z.eqb orb]. replace (Z.of_nat k + 1) with (Z.of_nat (S k)) by lia.
    assert (Hno : ∀ L, ¬ has_code lens k L) by (intros L [HL' ?]; rewrite HL in HL'; injection HL'; lia).
    apply IH; [lia|lia|done|by apply tree_inv_skip|by eapply starts_skip|done|done].
  - apply char_step; [split; [done|lia]|done..|]. intros nodes' s' Start' Hs' Ho Ht' Hst' HSt'.
    replace (Z.of_nat k + 1) with (Z.of_nat (S k)) by lia. apply IH; [lia|lia|done..|].
    intros nodes2 s2 Hs2 Ho2 Ht2. eapply HQ; [done|by eapply tree_on_trans|done].
Qed.
End chars.

(** ** Tables decode their codes

    MakeTable from its first loop to its last, and the search in its table: with
    complete code lengths every content of the buffer starts with the code of one
    character, and the search finds it. *)

Lemma buffer_prefix x d : 0 ≤ d ≤ 16 → x / 2 ^ 16 / 2 ^ (16 - d) = x / 2 ^ (32 - d).
Proof.
  intros Hd. rewrite Z.div_div by (try apply Z.pow_nonzero; lia). f_equal. rewrite <-Z.pow_add_r by lia. f_equal. lia.
Qed.

Section lookup.
Context (P : Prop) (T : table_id) (lens : list Z).
Context (Hcomp : complete lens) (Hlim : Z.of_nat (length lens) ≤ limit T).
Abbreviation b := (table_bits T).
Abbreviation N := (Z.of_nat (length lens)).
Abbreviation tree_inv := (tree_inv lens b).

Lemma limit_small : N * 2 ^ (15 - b) < 2 ^ 16.
Proof.
  destruct T; [change (limit CTable) with 510 in Hlim|change (limit PTTable) with 31 in Hlim]; cbn [table_bits];
    [change (2 ^ (15 - 12)) with 8|change (2 ^ (15 - 8)) with 128]; lia.
Qed.

Lemma wpd_fill_last i n v Q s :
  wpd P (l ← get_table T; l ← set_range l i n v; set_table T l;; mret tt) Q s →
  wpd P (l ← get_table T; l ← set_range l i n v; set_table T l) Q s.
Proof.
  unfold wpd, mbind, D_bind. destruct (get_table T s) as [l s1| | |]; [|done..].
  destruct (set_range l i n v s1) as [l' s2| | |]; [|done..]. by destruct (set_table T l' s2) as [[] s3| | |].
Qed.

(** There are codes that fit into the table. *)
Lemma short_codes : 2 ^ (16 - b) ≤ base lens (Z.to_nat b + 1).
Proof.
  pose proof (table_bits_range T). destruct (base_divide lens (Z.to_nat b + 1)) as [q Hq]; [lia|].
  pose proof (base_rest lens (Z.to_nat b + 1)) as Hrest. rewrite Hcomp in Hrest. pose proof (base_nonneg lens (Z.to_nat b + 1)).
  replace (17 - Z.of_nat (Z.to_nat b + 1)) with (16 - b) in Hq by lia.
  replace (16 - Z.of_nat (Z.to_nat b + 1)) with (15 - b) in Hrest by lia.
  assert (0 < 2 ^ (16 - b)) by (apply pow_pos; lia). pose proof limit_small.
  assert (q ≠ 0) by (intros ->; specialize (Hrest ltac:(lia)); lia). nia.
Qed.

Lemma starts_scaled Start : arr 18 65536 Start → holds Start (λ L, base lens (Z.to_nat L)) → starts_ok T lens 0 (scaled_start b Start).
Proof.
  intros [HSl _] Hst c L _ Hc. destruct (lookup_lt_is_Some_2 Start (Z.to_nat L)) as [x Hx]; [destruct Hc; lia|].
  assert (Hrange : 0 ≤ base lens (Z.to_nat L) < 2 ^ 16).
  { pose proof (pos_below _ _ _ Hcomp Hc). destruct (pos_range _ _ _ Hc) as [Hle _]. pose proof (base_nonneg lens (Z.to_nat L)).
    destruct Hc. assert (0 < 2 ^ (16 - L)) by (apply pow_pos; lia). lia. }
  pose proof (Hst _ _ Hx) as Hval. rewrite Z2Nat.id, cast_id in Hval by (done || (cint_unfold; lia) || (destruct Hc; lia)).
  unfold scaled_start, scale. rewrite list_lookup_imap, Hx. cbn [fmap option_fmap option_map]. rewrite Z2Nat.id by (destruct Hc; lia).
  rewrite (proj2 (Z.leb_le 1 L)) by (destruct Hc; lia). rewrite take_0. unfold count. cbn [filter list_filter length andb].
  rewrite Hval. replace (base lens (Z.to_nat L) + Z.of_nat 0 * 2 ^ (16 - L)) with (base lens (Z.to_nat L)) by lia.
  destruct (L <=? b); [|done]. by rewrite Z.shiftr_div_pow2 by (destruct T; cbn; lia).
Qed.

Lemma MakeTable_tree orig out BitLen s (Q : Z → SCRATCH_DATA → Prop) :
  sd_ok orig out s → Forall (λ v, 0 ≤ v ≤ 16) lens → take (length lens) BitLen = lens →
  (∀ nodes s', sd_ok orig out s' → tree_on T s s' → tree_inv (length lens) nodes (cell_val T s') → Q 0 s') →
  wpd P (MakeTable N BitLen b T) Q s.
Proof.
  intros Hs Hl Htake HQ. unfold MakeTable. pose proof (table_bits_range T) as Hb. wpd_seq. apply wpd_require; [by destruct T|]. wpd_seq.
  apply wpd_require. { apply Z.leb_le. rewrite <-Htake at 1. rewrite length_take. lia. }
  rewrite Nat2Z.id, Htake. wpd_seq.
  apply (count_loop_counts P lens _ (λ _, 0)); [done|by apply (arr_replicate 17)| |].
  { intros i x Hx. by apply lookup_replicate in Hx as [-> _]. }
  intros Count HC Hf. cbn [Z.add] in Hf. assert (HSt := starts_base lens Count HC Hf).
  assert (Harr : arr 18 65536 (0 :: 0 :: start_loop (drop 1 Count) 1 0)).
  { destruct HC as [HCl _], (start_loop_arr (drop 1 Count) 1 0) as [HF Hlen']. split; [|by repeat constructor].
    cbn [length]. rewrite Hlen', length_drop. lia. }
  cbv zeta. set (Start := 0 :: 0 :: start_loop (drop 1 Count) 1 0) in *. assert (HSl : (length Start = 18)%nat) by (destruct Harr; lia).
  assert (Hscale := starts_scaled Start Harr HSt).
  destruct (lookup_lt_is_Some_2 Start 17) as [last Hlast]; [lia|]. wpd_seq. eapply wpd_get_at; [done|exact Hlast|].
  rewrite (HSt _ _ Hlast). change (Z.to_nat (Z.of_nat 17)) with 17%nat. rewrite Hcomp. change (negb (cast UINT16 (2 ^ 16) =? 0)) with false.
  cbv iota. assert (Hchars : ∀ s1, sd_ok orig out s1 → tree_on T s s1 →
    (∀ p, 0 ≤ p < 2 ^ b → base lens (Z.to_nat b + 1) ≤ p * 2 ^ (16 - b) → cell_val T s1 (InTable p) = 0) →
    wpd P (char_loop lens T b (weights b) 0 (scaled_start b Start) N) Q s1).
  { intros s1 Hs1 Ho1 Hz. pose proof (char_loop_tree P orig out T lens Hcomp Hlim 0 [] (scaled_start b Start) s1 Q Hl) as Hrun.
    rewrite Z.add_0_r, drop_0 in Hrun. apply Hrun; [lia|done| |done|by apply scaled_start_arr|].
    - apply tree_inv_init. intros d p x [Hp [[-> ->]|(_ & i & Hi & _)]] Hlong; [by apply Hz|by rewrite lookup_nil in Hi].
    - intros nodes s2 Hs2 Ho2 Ht2. eapply HQ; [done|by eapply tree_on_trans|done]. }
  destruct (lookup_lt_is_Some_2 Start (Z.to_nat (b + 1))) as [first Hfirst]; [lia|].
  wpd_seq. eapply wpd_get_at; [by destruct T| |].
  { unfold scaled_start. rewrite list_lookup_imap, Hfirst. cbn [fmap option_fmap option_map]. rewrite Z2Nat.id by (by destruct T).
    by rewrite (proj2 (Z.leb_gt (b + 1) b)), andb_false_r by lia. }
  pose proof (HSt _ _ Hfirst) as Hval. cbv beta in Hval. replace (Z.to_nat (Z.of_nat (Z.to_nat (b + 1)))) with (Z.to_nat b + 1)%nat in Hval by lia.
  pose proof short_codes as Hshort. assert (Hle : base lens (Z.to_nat b + 1) ≤ 2 ^ 16) by (rewrite <-Hcomp; apply base_mono; lia).
  assert (H16 : 2 ^ b * 2 ^ (16 - b) = 2 ^ 16) by (by destruct T). assert (Hw : 0 < 2 ^ (16 - b)) by (by destruct T).
  destruct (Z.eq_dec (base lens (Z.to_nat b + 1)) (2 ^ 16)) as [Hfull|Hpart].
  - rewrite Hval, Hfull. change (cast UINT16 (2 ^ 16)) with 0. rewrite Z.shiftr_0_l. cbn [Z.eqb negb andb]. wpd_seq.
    apply Hchars; [done|apply tree_on_refl|]. intros p Hp Hlong. exfalso. rewrite Hfull in Hlong. nia.
  - rewrite Hval, cast_id by (done || (cint_unfold; lia)). rewrite Z.shiftr_div_pow2 by (by destruct T).
    set (I := base lens (Z.to_nat b + 1) / 2 ^ (16 - b)) in *.
    assert (HI : 1 ≤ I < 2 ^ b) by (split; [apply Z.div_le_lower_bound; lia|apply Z.div_lt_upper_bound; lia]).
    replace (cast UINT16 (Z.shiftl 1 b)) with (2 ^ b) by (by destruct T).
    rewrite (proj2 (Z.eqb_neq _ _)), (proj2 (Z.ltb_lt _ _)) by lia. cbn [negb andb].
    apply wpd_bind, wpd_fill_last, fill_table_val with (orig := orig) (out := out);
      [done|lia|lia|by destruct T; cbn; lia|done|]. intros s1 Hs1 Ho1 Hv1. wpd_seq. apply Hchars; [done|done|].
    intros p Hp Hlong. rewrite Hv1, decide_True; [done|]. split; [|lia]. apply Z.div_le_upper_bound; lia.
Qed.

(** ** The search *)

(** The table and the nodes have their sizes. *)
Definition tables_ok (s : SCRATCH_DATA) : Prop :=
  arr NODES NODES (mLeft s) ∧ arr NODES NODES (mRight s) ∧ arr (table_size T) NODES (table_of T s) ∧ 0 ≤ mBitBuf s < 2 ^ 32.

(** At a node, the rest of the code leads to its character. *)
Lemma walk_tree nodes c L d i fuel s (Q : Z → SCRATCH_DATA → Prop) :
  tables_ok s → tree_inv (length lens) nodes (cell_val T s) → has_code lens c L → mBitBuf s / 2 ^ (32 - L) = code lens c L →
  nodes !! i = Some (d, mBitBuf s / 2 ^ (32 - d)) → b ≤ d < L → L - d ≤ Z.of_nat fuel → Q (Z.of_nat c) s →
  wpd P (walk fuel N (2 ^ (31 - d)) (N + Z.of_nat i)) Q s.
Proof.
  intros (Hl & Hr & Ht & Hbuf) Htree Hc Hx Hi Hd Hfuel HQ. revert d i Hi Hd Hfuel. pose proof (table_bits_range T) as Hb.
  assert (Hck : (c < length lens)%nat) by (destruct Hc as [Hlk%lookup_lt_Some _]; done). assert (HL : L ≤ 16) by (destruct Hc; lia).
  assert (Hpre : ∀ d, d ≤ L → 0 ≤ d → mBitBuf s / 2 ^ (32 - d) = pos lens c L / 2 ^ (16 - d)).
  { intros d HdL Hd0. assert (Hsplit : ∀ z w e, 0 ≤ w → 0 ≤ e → z / 2 ^ (w + e) = z / 2 ^ w / 2 ^ e).
    { intros z w e Hw He. rewrite Z.div_div by (try apply Z.pow_nonzero; try apply pow_pos; lia). f_equal. by rewrite Z.pow_add_r. }
    replace (32 - d) with ((32 - L) + (L - d)) by lia. replace (16 - d) with ((16 - L) + (L - d)) by lia.
    by rewrite !Hsplit, Hx by lia. }
  induction fuel as [|fuel IH]; intros d i Hi Hd Hfuel; [lia|]. cbn [walk]. wpd_seq.
  assert (Hnum := node_number T lens Hcomp Hlim _ _ _ _ _ _ Htree Hi).
  set (x := mBitBuf s / 2 ^ (32 - (d + 1))).
  set (ptr := (if Z.odd x then InRight else InLeft) (N + Z.of_nat i)).
  assert (Hat : at_cell lens b nodes (d + 1) x ptr).
  { split; [unfold x; rewrite Hpre by lia; apply prefix_range; [|lia]|].
    { pose proof (pos_nonneg lens c L). pose proof (pos_below lens c L Hcomp Hc). assert (0 < 2 ^ (16 - L)) by (apply pow_pos; lia). lia. }
    right. split; [lia|]. exists i. split; [|done]. rewrite Z.add_simpl_r, Hi. do 2 f_equal. unfold x. rewrite !Hpre by lia.
    by rewrite prefix_step by lia. }
  assert (Hcell : wpd P (get_at (if Z.odd x then mRight s else mLeft s) (N + Z.of_nat i)) (λ Val,
      wpd P (if Val >=? N then walk fuel N (Z.shiftr (2 ^ (31 - d)) 1) Val else mret Val) Q) s).
  { eapply get_at_index with (n := NODES) (B := NODES); [by destruct (Z.odd x)|lia|].
    replace (at_index (if Z.odd x then mRight s else mLeft s) (N + Z.of_nat i)) with (cell_val T s ptr)
      by (unfold ptr; by destruct (Z.odd x)).
    destruct (Z.eq_dec (d + 1) L) as [Hend|Hgo].
    - assert (Hleaf : leaf lens b (length lens) (d + 1) x c).
      { split; [done|]. exists L. split; [done|]. split; [lia|]. unfold x. rewrite Hpre by lia. rewrite Hend. apply in_interval; [by apply Hc|].
        by rewrite prefix_start by lia. }
      rewrite (ti_leaf _ _ _ _ _ Htree _ _ _ _ Hat Hleaf). rewrite Z.geb_leb, (proj2 (Z.leb_gt _ _)) by lia. by wpd_seq.
    - assert (Hin : (d + 1, x) ∈ nodes).
      { unfold x. rewrite Hpre by lia. eapply (ti_prefix _ _ _ _ _ Htree c L); [done|done|lia]. }
      apply list_elem_of_lookup in Hin as [j Hj]. rewrite (ti_node _ _ _ _ _ Htree _ _ _ _ Hat Hj).
      rewrite Z.geb_leb, (proj2 (Z.leb_le _ _)) by lia. rewrite Z.shiftr_div_pow2 by lia.
      replace (2 ^ (31 - d) / 2 ^ 1) with (2 ^ (31 - (d + 1))); [apply IH; [exact Hj|lia|lia]|].
      rewrite <-Z.pow_sub_r by lia. f_equal. lia. }
  assert (Hbit : negb (Z.land (mBitBuf s) (2 ^ (31 - d)) =? 0) = Z.odd x).
  { rewrite land_pow2 by lia. unfold x. rewrite Z.testbit_odd, Z.shiftr_div_pow2 by lia. do 3 f_equal. lia. }
  rewrite Hbit. by destruct (Z.odd x); wpd_seq.
Qed.

Lemma lookup_tree nodes c L fuel s (Q : Z → SCRATCH_DATA → Prop) :
  tables_ok s → tree_inv (length lens) nodes (cell_val T s) → has_code lens c L → mBitBuf s / 2 ^ (32 - L) = code lens c L →
  16 - b ≤ Z.of_nat fuel → Q (Z.of_nat c) s → wpd P (lookup fuel T b N) Q s.
Proof.
  intros Hs Htree Hc Hx Hfuel HQ. pose proof (table_bits_range T) as Hb. assert (HL : 1 ≤ L ≤ 16) by apply Hc.
  assert (Hck : (c < length lens)%nat) by (destruct Hc as [Hlk%lookup_lt_Some _]; done).
  destruct Hs as (Hl & Hr & Ht & Hbuf). unfold lookup. wpd_seq. unfold BITBUFSIZ.
  eapply wpd_some; [apply c_shr32_ok; lia|]. wpd_seq. set (x := mBitBuf s / 2 ^ (32 - b)).
  rewrite Z.shiftr_div_pow2 by lia. fold x.
  assert (Hxr : 0 ≤ x < 2 ^ b).
  { pose proof (shiftr_bound (mBitBuf s) b Hbuf ltac:(lia)) as H. by rewrite Z.shiftr_div_pow2 in H by lia. }
  assert (Hx16 : 0 ≤ mBitBuf s / 2 ^ 16 < 2 ^ 16) by (split; [apply Z.div_pos; lia|apply Z.div_lt_upper_bound; lia]).
  assert (Hin : pos lens c L ≤ mBitBuf s / 2 ^ 16 < pos lens c L + 2 ^ (16 - L)).
  { apply in_interval; [done|]. by rewrite buffer_prefix by lia. }
  assert (Hat : at_cell lens b nodes b x (InTable x)) by (split; [done|by left]).
  assert (Hcell : wpd P (get_at (table_of T s) x) (λ Val,
      wpd P (if Val >=? N then walk fuel N (Z.shiftl 1 (32 - 1 - b)) Val else mret Val) Q) s).
  { eapply get_at_index; [exact Ht|by destruct T|]. change (at_index (table_of T s) x) with (cell_val T s (InTable x)).
    destruct (Z.le_gt_cases L b) as [HLb|HLb].
    - assert (Hleaf : leaf lens b (length lens) b x c).
      { split; [done|]. exists L. split; [done|]. split; [lia|].
        apply (same_prefix lens c L b (mBitBuf s / 2 ^ 16)); [done|lia| |done].
        by rewrite prefix_start, buffer_prefix by lia. }
      rewrite (ti_leaf _ _ _ _ _ Htree _ _ _ _ Hat Hleaf). rewrite Z.geb_leb, (proj2 (Z.leb_gt _ _)) by lia. by wpd_seq.
    - assert (Hnode : (b, x) ∈ nodes).
      { replace x with (pos lens c L / 2 ^ (16 - b)); [by eapply (ti_prefix _ _ _ _ _ Htree c L); [|done|lia]|].
        unfold x. rewrite <-buffer_prefix by lia. destruct (pos_divide lens c L HL) as [q Hq].
        assert (Hs : ∀ z, z / 2 ^ (16 - b) = z / 2 ^ (16 - L) / 2 ^ (L - b)).
        { intros z. rewrite Z.div_div by (try apply Z.pow_nonzero; try apply pow_pos; lia). f_equal. rewrite <-Z.pow_add_r by lia. f_equal. lia. }
        apply in_interval in Hin; [|done]. unfold code in Hin. by rewrite !Hs, Hin. }
      apply list_elem_of_lookup in Hnode as [i Hi]. rewrite (ti_node _ _ _ _ _ Htree _ _ _ _ Hat Hi).
      rewrite Z.geb_leb, (proj2 (Z.leb_le _ _)) by lia. rewrite Z.shiftl_1_l. replace (32 - 1 - b) with (31 - b) by lia.
      eapply walk_tree; [exact (conj Hl (conj Hr (conj Ht Hbuf)))|done|done|done|exact Hi|lia|lia|done]. }
  destruct T; cbn [get_table]; wpd_seq; exact Hcell.
Qed.
End lookup.

(** C5: for complete code lengths of at most 510 characters (31 for the second table)
    MakeTable accepts them, changes nothing but its table and the nodes, and then the
    search of DecodeC, DecodeP and ReadCLen ends within 16 steps on every content of the
    bit buffer, at the one character whose canonical code the buffer starts with. *)
Theorem MakeTable_canonical orig out T lens BitLen s :
  sd_ok orig out s → take (length lens) BitLen = lens → Forall (λ v, 0 ≤ v ≤ 16) lens → complete lens →
  Z.of_nat (length lens) ≤ limit T →
  ∃ s', MakeTable (Z.of_nat (length lens)) BitLen (table_bits T) T s = Done 0 s' ∧ tree_on T s s' ∧
    ∀ t fuel, mLeft t = mLeft s' → mRight t = mRight s' → table_of T t = table_of T s' → 0 ≤ mBitBuf t < 2 ^ 32 →
      16 ≤ Z.of_nat fuel →
      ∃ c L, (has_code lens c L ∧ mBitBuf t / 2 ^ (32 - L) = code lens c L) ∧
        (∀ c' L', has_code lens c' L' → mBitBuf t / 2 ^ (32 - L') = code lens c' L' → c' = c) ∧
        lookup fuel T (table_bits T) (Z.of_nat (length lens)) t = Done (Z.of_nat c) t.
Proof.
  intros Hs Htake Hl Hcomp Hlim.
  pose proof (MakeTable_tree False T lens Hcomp Hlim orig out BitLen s (λ v s', v = 0 ∧ sd_ok orig out s' ∧ tree_on T s s' ∧
    ∃ nodes, tree_inv lens (table_bits T) (length lens) nodes (cell_val T s')) Hs Hl Htake) as Hrun.
  unfold wpd in Hrun. destruct (MakeTable _ _ _ _ s) as [v s'| | |]; [|by destruct Hrun; eauto..].
  destruct Hrun as (-> & Hs' & Ho & nodes & Htree); [by intros nodes s1; eauto|].
  exists s'. split; [done|]. split; [done|]. intros t fuel HtL HtR HtT Hbuf Hfuel. pose proof (table_bits_range T) as Hb.
  assert (Hx16 : 0 ≤ mBitBuf t / 2 ^ 16 < 2 ^ 16) by (split; [apply Z.div_pos; lia|apply Z.div_lt_upper_bound; lia]).
  assert (Hstart : ∀ c L, has_code lens c L → mBitBuf t / 2 ^ (32 - L) = code lens c L →
    pos lens c L ≤ mBitBuf t / 2 ^ 16 < pos lens c L + 2 ^ (16 - L)).
  { intros c L Hc Hx. apply in_interval; [by apply Hc|]. rewrite buffer_prefix by (destruct Hc; lia). done. }
  destruct (code_exists lens _ Hcomp Hx16) as (c & L & Hc & Hin). exists c, L.
  assert (Hx : mBitBuf t / 2 ^ (32 - L) = code lens c L).
  { apply in_interval in Hin; [|by apply Hc]. rewrite buffer_prefix in Hin by (destruct Hc; lia). done. }
  split; [done|]. split; [intros c' L' Hc' Hx'; by eapply code_unique; [| |apply Hstart|]|].
  assert (Hval : ∀ x, cell_val T t x = cell_val T s' x) by (intros []; cbn [cell_val]; by rewrite ?HtL, ?HtR, ?HtT).
  assert (Htok : tables_ok T t).
  { unfold tables_ok. rewrite HtL, HtR, HtT. split; [apply Hs'|]. split; [apply Hs'|]. split; [destruct T; apply Hs'|done]. }
  assert (Htree' : tree_inv lens (table_bits T) (length lens) nodes (cell_val T t)) by (eapply tree_inv_ext; [|exact Htree]; intros ? ? x _; apply Hval).
  pose proof (lookup_tree False T lens Hcomp Hlim nodes c L fuel t (λ v s2, v = Z.of_nat c ∧ s2 = t)
    Htok Htree' Hc Hx ltac:(lia) (conj eq_refl eq_refl)) as Hlook.
  unfold wpd in Hlook. destruct (lookup _ _ _ _ t) as [v s2| | |]; [|done..]. by destruct Hlook as [-> ->].
Qed.
