(* ===== verification/DecompressFormat.v ===== *)
(** * The compressed format, from the encoder's side

    A reference for the decoder: blocks of three sets of characters and tokens, the bits
    of every way to write them, and the bytes that tokens stand for. *)
From S2P Require Import Prelude CBase Decompress DecompressBits DecompressCodes Math64 DecompressSafe.
From S2P Require Import DecompressTable DecompressChars.
Local Open Scope Z_scope.

(** ** Tokens *)

(** A byte, or [len] bytes from [pos + 1] bytes before the end. *)
Inductive token := Literal (v : Z) | Pointer (len pos : Z).

Fixpoint copy (n : nat) (pos : Z) (out : list Z) : option (list Z) :=
  match n with
  | O => Some out
  | S n =>
      let i := Z.of_nat (length out) - pos - 1 in
      v ← (if 0 <=? i then out !! Z.to_nat i else None);
      copy n pos (out ++ [v])
  end.

Definition expand_token (t : token) (out : list Z) : option (list Z) :=
  match t with
  | Literal v => Some (out ++ [v])
  | Pointer len pos => copy (Z.to_nat len) pos out
  end.

Fixpoint expand (ts : list token) (out : list Z) : option (list Z) :=
  match ts with [] => Some out | t :: ts => out ← expand_token t out; expand ts out end.

(** ** Blocks *)

(** A set of characters: code lengths, or one character whose code has no bits. *)
Inductive set_code := Lens (lens : list Z) | Single (c : Z).

Definition code_bits (lens : list Z) (c : Z) : list bool :=
  match lens !! Z.to_nat c with Some L => low_bits (Z.to_nat L) (code lens (Z.to_nat c) L) | None => [] end.

Definition set_bits (S : set_code) (c : Z) : list bool := match S with Lens lens => code_bits lens c | Single _ => [] end.

(** The code lengths of the Extra Set or the Position Set, of which [num] are written,
    and the number of zero lengths that is written behind the special index; or the
    only character. *)
Inductive pt_header := PtLens (num zeros : Z) (lens : list Z) | PtSingle (c : Z).

(** The code lengths of the Char&Len Set: a length, a zero, or a run of zeros. *)
Inductive c_item := CLen (L : Z) | COne | CRun4 (n : Z) | CRun9 (n : Z).
Inductive c_header := CLens (num : Z) (items : list c_item) | CSingle (c : Z).

Record block := Block { t_head : pt_header; c_head : c_header; p_head : pt_header; tokens : list token }.

Definition item_lens (it : c_item) : list Z :=
  match it with CLen L => [L] | COne => [0] | CRun4 n | CRun9 n => replicate (Z.to_nat n) 0 end.

(** The lengths that items stand for; a run ends with the array, the rest is zero. *)
Definition c_lens (items : list c_item) : list Z :=
  take (Z.to_nat NC) ((items ≫= item_lens) ++ replicate (Z.to_nat NC) 0).

Definition pt_set (h : pt_header) : set_code := match h with PtLens _ _ lens => Lens lens | PtSingle c => Single c end.
Definition c_set (h : c_header) : set_code := match h with CLens _ items => Lens (c_lens items) | CSingle c => Single c end.

Abbreviation tset blk := (pt_set (t_head blk)).
Abbreviation cset blk := (c_set (c_head blk)).
Abbreviation pset blk := (pt_set (p_head blk)).

(** A code length of the Extra Set or the Position Set. *)
Definition len_bits (L : Z) : list bool :=
  if L <? 7 then low_bits 3 L else low_bits 3 7 ++ replicate (Z.to_nat (L - 7)) true ++ [false].

(** The lengths [sent]; behind index [special] the length of a run of zeros. *)
Definition pt_lens_bits (special zeros : Z) (sent : list Z) : list bool :=
  if special <=? Z.of_nat (length sent)
  then (take (Z.to_nat special) sent ≫= len_bits) ++ low_bits 2 zeros ++ (drop (Z.to_nat (special + zeros)) sent ≫= len_bits)
  else sent ≫= len_bits.

Definition pt_bits (nbit special : Z) (h : pt_header) : list bool :=
  match h with
  | PtLens num zeros lens => low_bits (Z.to_nat nbit) num ++ pt_lens_bits special zeros (take (Z.to_nat num) lens)
  | PtSingle c => low_bits (Z.to_nat nbit) 0 ++ low_bits (Z.to_nat nbit) c
  end.

Definition item_bits (T : set_code) (it : c_item) : list bool :=
  match it with
  | CLen L => set_bits T (L + 2)
  | COne => set_bits T 0
  | CRun4 n => set_bits T 1 ++ low_bits 4 (n - 3)
  | CRun9 n => set_bits T 2 ++ low_bits 9 (n - 20)
  end.

Definition c_bits (T : set_code) (h : c_header) : list bool :=
  match h with
  | CLens num items => low_bits 9 num ++ (items ≫= item_bits T)
  | CSingle c => low_bits 9 0 ++ low_bits 9 c
  end.

Definition pos_class (pos : Z) : Z := if pos =? 0 then 0 else Z.log2 pos + 1.

Definition token_bits (blk : block) (t : token) : list bool :=
  match t with
  | Literal v => set_bits (cset blk) v
  | Pointer len pos =>
      let class := pos_class pos in
      set_bits (cset blk) (len + 253) ++ set_bits (pset blk) class ++
      (if 1 <? class then low_bits (Z.to_nat (class - 1)) (pos - 2 ^ (class - 1)) else [])
  end.

Definition block_bits (pbit : Z) (blk : block) : list bool :=
  low_bits 16 (Z.of_nat (length (tokens blk))) ++ pt_bits 5 3 (t_head blk) ++ c_bits (tset blk) (c_head blk) ++
  pt_bits pbit 65535 (p_head blk) ++ (tokens blk ≫= token_bits blk).

(** ** Bytes *)

Definition byte_of (l : list bool) : Z := foldl (λ x i, 2 * x + Z.b2z (bit l i)) 0 (seq 0 8).

Definition pack (l : list bool) : list Z := (λ i, byte_of (drop (8 * i) l)) <$> seq 0 ((length l + 7) / 8).

Definition le32 (n : Z) : list Z := [n `mod` 256; (n / 256) `mod` 256; (n / 65536) `mod` 256; (n / 16777216) `mod` 256].

Definition encode (pbit : Z) (blocks : list block) (size : Z) : list Z :=
  let payload := pack (blocks ≫= block_bits pbit) in
  le32 (Z.of_nat (length payload)) ++ le32 size ++ payload.

(** ** Well-formed blocks *)

(** Code lengths that are complete, each code for [n] characters. *)
Definition lens_ok (n : Z) (lens : list Z) : Prop :=
  Z.of_nat (length lens) = n ∧ Forall (λ v, 0 ≤ v ≤ 16) lens ∧ complete lens.

Definition coded (lens : list Z) (c : Z) : Prop := 0 ≤ c ∧ ∃ L, has_code lens (Z.to_nat c) L.

Definition set_ok (n : Z) (S : set_code) : Prop := match S with Lens lens => lens_ok n lens | Single c => 0 ≤ c < n end.
Definition set_coded (S : set_code) (c : Z) : Prop := match S with Lens lens => coded lens c | Single d => c = d end.

Definition zeros_only (l : list Z) : Prop := Forall (λ L, L = 0) l.

Definition pt_ok (n nbit special : Z) (h : pt_header) : Prop :=
  match h with
  | PtLens num zeros lens => lens_ok n lens ∧ 1 ≤ num ≤ n ∧ num < 2 ^ nbit ∧ zeros_only (drop (Z.to_nat num) lens) ∧
      (special ≤ num → 0 ≤ zeros < 4 ∧ zeros_only (take (Z.to_nat zeros) (drop (Z.to_nat special) lens)))
  | PtSingle c => 0 ≤ c < n ∧ c < 2 ^ nbit
  end.

Definition item_ok (T : set_code) (it : c_item) : Prop :=
  match it with
  | CLen L => 1 ≤ L ≤ 16 ∧ set_coded T (L + 2)
  | COne => set_coded T 0
  | CRun4 n => 3 ≤ n < 19 ∧ set_coded T 1
  | CRun9 n => 20 ≤ n < 532 ∧ set_coded T 2
  end.

(** From index [i] on, the items are as many as are read for [num]. *)
Fixpoint items_fit (num i : Z) (items : list c_item) : Prop :=
  match items with
  | [] => num ≤ i ∨ NC ≤ i
  | it :: items => i < num ∧ i < NC ∧ items_fit num (Z.min NC (i + Z.of_nat (length (item_lens it)))) items
  end.

Definition c_ok (T : set_code) (h : c_header) : Prop :=
  match h with
  | CLens num items => 1 ≤ num < 512 ∧ items_fit num 0 items ∧ Forall (item_ok T) items ∧ lens_ok NC (c_lens items)
  | CSingle c => 0 ≤ c < NC
  end.

Definition token_ok (blk : block) (t : token) : Prop :=
  match t with
  | Literal v => 0 ≤ v < 256 ∧ set_coded (cset blk) v
  | Pointer len pos => 3 ≤ len ≤ MAXMATCH ∧ 0 ≤ pos ∧ set_coded (cset blk) (len + 253) ∧ set_coded (pset blk) (pos_class pos)
  end.

Record block_ok (pbit : Z) (blk : block) : Prop := BlockOk {
  bo_t : pt_ok NT 5 3 (t_head blk);
  bo_c : c_ok (tset blk) (c_head blk);
  bo_p : pt_ok MAXNP pbit 65535 (p_head blk);
  bo_tokens : Forall (token_ok blk) (tokens blk);
  bo_size : 1 ≤ Z.of_nat (length (tokens blk)) < 65536 }.

(** ** Facts *)

Lemma byte_of_bits l j : (j < 8)%nat → Z.testbit (byte_of l) (Z.of_nat (7 - j)) = bit l j.
Proof.
  intros Hj. unfold byte_of. cbn [seq foldl].
  do 8 (destruct j as [|j]; [by destruct (bit l 0), (bit l 1), (bit l 2), (bit l 3), (bit l 4), (bit l 5), (bit l 6), (bit l 7)|]). lia.
Qed.

Lemma byte_of_range l : 0 ≤ byte_of l < 256.
Proof.
  unfold byte_of. cbn [seq foldl].
  by destruct (bit l 0), (bit l 1), (bit l 2), (bit l 3), (bit l 4), (bit l 5), (bit l 6), (bit l 7).
Qed.

(** The bytes of a packed list spell it. *)
Lemma bind_low_bits (l : list Z) i j : (j < 8)%nat →
  bit (l ≫= low_bits 8) (8 * i + j) = bit (from_option (low_bits 8) [] (l !! i)) j.
Proof.
  intros Hj. revert i. induction l as [|x l IH]; intros i; [done|]. cbn [mbind list_bind]. destruct i as [|i].
  - cbn [lookup list_lookup from_option]. rewrite bit_app_l by (rewrite length_low_bits; lia). done.
  - rewrite bit_app_r by (rewrite length_low_bits; lia). rewrite length_low_bits.
    replace (8 * S i + j - 8)%nat with (8 * i + j)%nat by lia. apply IH.
Qed.

Lemma pack_bits l i : bit (pack l ≫= low_bits 8) i = bit l i.
Proof.
  assert (Hi : i = (8 * (i / 8) + i mod 8)%nat) by (apply Nat.div_mod_eq). assert (Hj : (i mod 8 < 8)%nat) by (apply Nat.mod_upper_bound; lia).
  rewrite Hi. set (k := (i / 8)%nat) in *. set (j := (i mod 8)%nat) in *. clearbody k j. rewrite bind_low_bits by done. unfold pack.
  rewrite list_lookup_fmap. destruct (Nat.lt_ge_cases k ((length l + 7) / 8)) as [Hk|Hk].
  - rewrite lookup_seq_lt by done. cbn [fmap option_fmap option_map from_option Nat.add].
    rewrite bit_low_bits by done. replace (8 - 1 - j)%nat with (7 - j)%nat by lia. by rewrite byte_of_bits, bit_drop by done.
  - rewrite lookup_seq_ge by done. cbn [fmap option_fmap option_map from_option]. rewrite !bit_beyond; [done| |cbn [length]; lia].
    assert (length l + 7 < 8 * ((length l + 7) / 8 + 1))%nat; [|lia].
    pose proof (Nat.div_mod_eq (length l + 7) 8). pose proof (Nat.mod_upper_bound (length l + 7) 8). lia.
Qed.

Lemma le32_at_le32 n l k : 0 ≤ n < 2 ^ 32 → Z.of_nat (length k) = 0 ∨ Z.of_nat (length k) = 4 →
  le32_at (k ++ le32 n ++ l) (Z.of_nat (length k)) = Some n.
Proof.
  intros Hn Hk. assert (Hat : ∀ i, (k ++ le32 n ++ l) !! Z.to_nat (Z.of_nat (length k) + Z.of_nat i) = (le32 n ++ l) !! i).
  { intros i. rewrite lookup_app_r by lia. f_equal. lia. }
  unfold le32_at. pose proof (Hat 0%nat) as H0. rewrite Z.add_0_r in H0. rewrite H0.
  change (Z.of_nat (length k) + 1) with (Z.of_nat (length k) + Z.of_nat 1). change (Z.of_nat (length k) + 2) with (Z.of_nat (length k) + Z.of_nat 2).
  change (Z.of_nat (length k) + 3) with (Z.of_nat (length k) + Z.of_nat 3). rewrite !Hat. cbv beta iota delta [le32 app lookup list_lookup mbind option_bind]. f_equal.
  rewrite !Z.shiftl_mul_pow2 by done. pose proof (Z.div_mod n 256). pose proof (Z.div_mod (n / 256) 256). pose proof (Z.div_mod (n / 65536) 256).
  rewrite cast_id; [|done|cint_unfold]; Z.to_euclidean_division_equations; lia.
Qed.

(** ** Reading what was written

    The functions of the reader on a stream that starts with given bits. *)

(** The source goes on with the bits [l], then with zeros. *)
Definition streams (s : SCRATCH_DATA) (l : list bool) : Prop := ∀ i, bit (stream s) i = bit l i.

Lemma low_bits_inj n x y : 0 ≤ x < 2 ^ Z.of_nat n → 0 ≤ y < 2 ^ Z.of_nat n → low_bits n x = low_bits n y → x = y.
Proof.
  intros Hx Hy Heq. apply Z.bits_inj'. intros i Hi. destruct (Z.lt_ge_cases i (Z.of_nat n)).
  - assert (H' : low_bits n x !! (n - 1 - Z.to_nat i)%nat = low_bits n y !! (n - 1 - Z.to_nat i)%nat) by by rewrite Heq.
    rewrite !lookup_low_bits in H' by lia. injection H' as H'.
    by replace (Z.of_nat (n - 1 - (n - 1 - Z.to_nat i))) with i in H' by lia.
  - by rewrite !(testbit_high _ (Z.of_nat n)).
Qed.

Lemma first_bits_streams n s v l : streams s (low_bits n v ++ l) → first_bits n (stream s) = low_bits n v.
Proof.
  intros Hs. apply list_eq_same_length with n; [by rewrite length_low_bits|unfold first_bits; by rewrite length_fmap, length_seq|].
  intros i x y Hi. unfold first_bits. rewrite list_lookup_fmap, lookup_seq_lt by done. intros [= <-]. cbn [Nat.add].
  rewrite Hs, bit_app_l by (rewrite length_low_bits; lia). unfold bit. by intros ->.
Qed.

Lemma streams_drop s s' k l : streams s (k ++ l) → (∀ i, bit (stream s') i = bit (stream s) (length k + i)) → streams s' l.
Proof. intros Hs Hs' i. rewrite Hs', Hs, bit_app_r by lia. f_equal. lia. Qed.

Section streams.
Context (P : Prop) (orig out : Z).

Lemma GetBits_streams n v l s (Q : Z → SCRATCH_DATA → Prop) :
  sd_ok orig out s → streams s (low_bits (Z.to_nat n) v ++ l) → 1 ≤ n ≤ 32 → 0 ≤ v < 2 ^ n →
  (∀ s', sd_ok orig out s' → read_on s s' → streams s' l → Q v s') → wpd P (GetBits n) Q s.
Proof.
  intros Hs Hl Hn Hv HQ. apply GetBits_spec; [apply Hs|done|]. intros v' s' Hv' Hbits Hs' Hr Hnext.
  rewrite (first_bits_streams _ _ _ _ Hl) in Hbits. apply low_bits_inj in Hbits as ->; [|by rewrite Z2Nat.id by lia..].
  apply HQ; [by eapply sd_ok_read_on|done|]. eapply streams_drop; [done|]. by rewrite length_low_bits.
Qed.

Lemma FillBuf_streams n k l s (Q : unit → SCRATCH_DATA → Prop) :
  sd_ok orig out s → streams s (k ++ l) → Z.of_nat (length k) = n → n < 64 →
  (∀ s', sd_ok orig out s' → read_on s s' → streams s' l → Q tt s') → wpd P (FillBuf n) Q s.
Proof.
  intros Hs Hl Hn Hlt HQ. apply FillBuf_spec; [apply Hs|lia|]. intros s' Hs' Hr Hnext.
  apply HQ; [by eapply sd_ok_read_on|done|]. eapply streams_drop; [done|]. by replace (length k) with (Z.to_nat n) by lia.
Qed.

(** The first bits of the buffer. *)
Lemma buffer_streams n v l s : sd_ok orig out s → streams s (low_bits (Z.to_nat n) v ++ l) → 0 ≤ n ≤ 32 → 0 ≤ v < 2 ^ n →
  Z.shiftr (mBitBuf s) (32 - n) = v.
Proof.
  intros Hs Hl Hn Hv. apply (low_bits_inj (Z.to_nat n)); rewrite ?Z2Nat.id by lia; [|done|].
  - apply shiftr_bound; [apply Hs|done].
  - rewrite low_bits_shiftr by done. by eapply first_bits_streams.
Qed.

(** Bit [i] of the stream is in the buffer. *)
Lemma buffer_bit i s : (i < 32)%nat → Z.testbit (mBitBuf s) (31 - Z.of_nat i) = bit (stream s) i.
Proof.
  intros Hi. unfold stream. rewrite bit_app_l by (rewrite length_low_bits; lia). rewrite bit_low_bits by lia. f_equal. lia.
Qed.

(** ** Codes *)

Lemma code_range lens c L : complete lens → has_code lens c L → 0 ≤ code lens c L < 2 ^ L.
Proof.
  intros Hcomp Hc. pose proof (pos_below _ _ _ Hcomp Hc). pose proof (pos_nonneg lens c L). destruct Hc as [_ HL].
  assert (0 < 2 ^ (16 - L)) by (apply pow_pos; lia). apply prefix_range; lia.
Qed.

(** A table that holds the codes of [lens], and their lengths. *)
Definition decodes (T : table_id) (lens : list Z) (s : SCRATCH_DATA) : Prop :=
  complete lens ∧ Z.of_nat (length lens) ≤ limit T ∧ ∃ nodes, tree_inv lens (table_bits T) (length lens) nodes (cell_val T s).

Lemma lookup_streams fuel T lens c l s (Q : Z → SCRATCH_DATA → Prop) :
  sd_ok orig out s → decodes T lens s → coded lens c → streams s (code_bits lens c ++ l) → 16 ≤ Z.of_nat fuel →
  Q c s → wpd P (lookup fuel T (table_bits T) (Z.of_nat (length lens))) Q s.
Proof.
  intros Hs (Hcomp & Hlim & nodes & Htree) (Hc0 & L & HL) Hl Hfuel HQ. unfold code_bits in Hl. rewrite (proj1 HL) in Hl.
  assert (H16 : 1 ≤ L ≤ 16) by apply HL. pose proof (table_bits_range T).
  apply (lookup_tree P T lens Hcomp Hlim nodes (Z.to_nat c) L); [|done|done| |lia|by rewrite Z2Nat.id by lia].
  - split; [apply Hs|]. split; [apply Hs|]. split; [destruct T; apply Hs|apply Hs].
  - rewrite <-Z.shiftr_div_pow2 by lia. eapply buffer_streams; [done|done|lia|by apply code_range].
Qed.

(** The same for a set. *)
Definition set_decodes (T : table_id) (S : set_code) (s : SCRATCH_DATA) : Prop :=
  match S with
  | Lens lens => decodes T lens s
  | Single c => table_of T s = replicate (Z.to_nat (2 ^ table_bits T)) c
  end.

Lemma lookup_set fuel T n S c l s (Q : Z → SCRATCH_DATA → Prop) :
  sd_ok orig out s → set_ok n S → set_decodes T S s → set_coded S c → streams s (set_bits S c ++ l) → 16 ≤ Z.of_nat fuel →
  Q c s → wpd P (lookup fuel T (table_bits T) n) Q s.
Proof.
  intros Hs Hok Hd Hc Hl Hfuel HQ. destruct S as [lens|d]; cbn [set_ok set_decodes set_coded set_bits] in *.
  - destruct Hok as [<- _]. by eapply lookup_streams.
  - subst d. unfold lookup. wpd_seq. pose proof (table_bits_range T). unfold BITBUFSIZ.
    eapply wpd_some; [apply c_shr32_ok; lia|]. wpd_seq.
    assert (wpd P (get_table T) (λ t s', t = table_of T s ∧ s' = s) s) as Ht by (by destruct T).
    eapply wpd_mono; [exact Ht|]. intros t s' [-> ->]. cbn beta. rewrite Hd.
    pose proof (shiftr_bound (mBitBuf s) (table_bits T) (ro_buf _ (so_reader _ _ _ Hs)) ltac:(lia)).
    wpd_seq. eapply wpd_get_at; [lia|by rewrite lookup_replicate_2 by lia|]. cbv beta.
    rewrite Z.geb_leb, (proj2 (Z.leb_gt _ _)) by lia. by wpd_seq.
Qed.


Lemma length_code_bits lens c L : lens !! Z.to_nat c = Some L → 0 ≤ L → Z.of_nat (length (code_bits lens c)) = L.
Proof. intros Hc HL. unfold code_bits. rewrite Hc, length_low_bits. lia. Qed.
End streams.

(** What a table decodes does not depend on the rest of the scratch data. *)
Lemma decodes_ext T lens s s' : mLeft s' = mLeft s → mRight s' = mRight s → table_of T s' = table_of T s → decodes T lens s → decodes T lens s'.
Proof.
  intros Hl Hr Ht (Hcomp & Hlim & nodes & Htree). split; [done|]. split; [done|]. exists nodes.
  eapply tree_inv_ext; [|exact Htree]. intros ? ? [] _; cbn [cell_val]; by rewrite ?Hl, ?Hr, ?Ht.
Qed.

Lemma decodes_read_on T lens s s' : read_on s s' → decodes T lens s → decodes T lens s'.
Proof. intros Hr. apply decodes_ext; rewrite Hr; [done|done|by destruct T]. Qed.

Lemma set_decodes_ext T S s s' : mLeft s' = mLeft s → mRight s' = mRight s → table_of T s' = table_of T s →
  set_decodes T S s → set_decodes T S s'.
Proof. destruct S as [lens|c]; cbn [set_decodes]; [by apply decodes_ext|congruence]. Qed.

Lemma set_decodes_read_on T S s s' : read_on s s' → set_decodes T S s → set_decodes T S s'.
Proof. intros Hr. apply set_decodes_ext; rewrite Hr; [done|done|by destruct T]. Qed.

(** The code lengths of a set. *)
Definition set_lens (n : Z) (S : set_code) : list Z := match S with Lens lens => lens | Single _ => replicate (Z.to_nat n) 0 end.

Lemma set_length n S c : set_ok n S → set_coded S c →
  0 ≤ c < n ∧ ∃ L, set_lens n S !! Z.to_nat c = Some L ∧ 0 ≤ L ≤ 16 ∧ Z.of_nat (length (set_bits S c)) = L.
Proof.
  destruct S as [lens|d]; cbn [set_ok set_coded set_lens set_bits].
  - intros [<- _] (Hc & L & [HL HL16]). pose proof (lookup_lt_Some _ _ _ HL). split; [lia|]. exists L.
    split; [done|]. split; [lia|]. apply length_code_bits; [done|lia].
  - intros Hd ->. split; [done|]. exists 0. split; [by rewrite lookup_replicate_2 by lia|done].
Qed.
