(* ===== verification/DecompressLens.v ===== *)
(** * Reading code lengths

    ReadPTLen and ReadCLen on the bits that the format gives to code lengths, and the
    tables they leave behind. *)
From S2P Require Import Prelude CBase Math64 Decompress DecompressBits DecompressSafe DecompressRun DecompressCodes.
From S2P Require Import DecompressFormat DecompressTable DecompressChars.
Local Open Scope Z_scope.

(** The fields that the header of a block leaves alone. *)
Definition keeps (s s' : SCRATCH_DATA) : Prop :=
  mDstBase s' = mDstBase s ∧ mBlockSize s' = mBlockSize s ∧ mBadTableFlag s' = mBadTableFlag s ∧ mPBit s' = mPBit s.

Lemma keeps_trans s1 s2 s3 : keeps s1 s2 → keeps s2 s3 → keeps s1 s3.
Proof. unfold keeps. intros (?&?&?&?) (?&?&?&?). split_and!; congruence. Qed.

Lemma keeps_read_on s s' : read_on s s' → keeps s s'.
Proof. intros ->. done. Qed.

Lemma keeps_tree_on T s s' : tree_on T s s' → keeps s s'.
Proof. intros [-> _ _]. done. Qed.

(** Tables and code lengths of characters. *)
Definition same_tables (s s' : SCRATCH_DATA) : Prop :=
  mLeft s' = mLeft s ∧ mRight s' = mRight s ∧ mCTable s' = mCTable s ∧ mPTTable s' = mPTTable s.

Lemma same_tables_trans s1 s2 s3 : same_tables s1 s2 → same_tables s2 s3 → same_tables s1 s3.
Proof. unfold same_tables. intros (?&?&?&?) (?&?&?&?). split_and!; congruence. Qed.

Lemma same_tables_read_on s s' : read_on s s' → same_tables s s'.
Proof. intros ->. done. Qed.

Lemma decodes_same_tables T lens s s' : same_tables s s' → decodes T lens s → decodes T lens s'.
Proof. intros (Hl & Hr & Hc & Hp). apply decodes_ext; [done|done|by destruct T]. Qed.

(** The nodes of the large table are out of reach for the small ones. *)
Lemma decodes_other lens s s' : 2 * limit PTTable ≤ Z.of_nat (length lens) → tree_on PTTable s s' → decodes CTable lens s → decodes CTable lens s'.
Proof.
  intros Hn [Hst Hl Hr] (Hcomp & Hlim & nodes & Htree). split; [done|]. split; [done|]. exists nodes.
  eapply tree_inv_ext; [|exact Htree]. intros d p x [_ [[_ ->]|(_ & i & _ & ->)]].
  - rewrite Hst. done.
  - destruct (Z.odd p); cbn [cell_val]; [apply Hr|apply Hl]; lia.
Qed.

Lemma set_range_all (l : list Z) n v : Z.of_nat (length l) = n →
  take (Z.to_nat 0) l ++ replicate (Z.to_nat n) v ++ drop (Z.to_nat (0 + n)) l = replicate (Z.to_nat n) v.
Proof. intros Hn. rewrite drop_ge by lia. by rewrite app_nil_r. Qed.

Section lens.
Context (P : Prop) (orig out : Z).

Lemma ones_loop_count m k fuel CharC s (Q : Z → SCRATCH_DATA → Prop) :
  (m < fuel)%nat → (m ≤ k)%nat → 0 ≤ CharC → CharC + Z.of_nat m < 65536 →
  (∀ j, (j < m)%nat → Z.testbit (mBitBuf s) (Z.of_nat (k - j)) = true) → Z.testbit (mBitBuf s) (Z.of_nat (k - m)) = false →
  Q (CharC + Z.of_nat m) s → wpd P (ones_loop fuel (2 ^ Z.of_nat k) CharC) Q s.
Proof.
  revert k fuel CharC. induction m as [|m IH]; intros k [|fuel] CharC Hf Hk HC Hmax Hones Hzero HQ; try lia; cbn [ones_loop]; wpd_seq;
    rewrite Z.land_comm, land_pow2 by lia.
  - rewrite Nat.sub_0_r in Hzero. rewrite Hzero. wpd_seq. by rewrite Z.add_0_r in HQ.
  - specialize (Hones 0%nat ltac:(lia)) as H0. rewrite Nat.sub_0_r in H0. rewrite H0.
    destruct k as [|k]; [lia|]. replace (Z.shiftr (2 ^ Z.of_nat (S k)) 1) with (2 ^ Z.of_nat k).
    2:{ rewrite Z.shiftr_div_pow2, <-Z.pow_sub_r by lia. f_equal. lia. }
    rewrite cast_id by (done || (cint_unfold; lia)). apply IH; [lia..| | |].
    + intros j Hj. apply (Hones (S j)). lia.
    + done.
    + by replace (CharC + 1 + Z.of_nat m) with (CharC + Z.of_nat (S m)) by lia.
Qed.

Lemma length_len_bits L : 0 ≤ L → Z.of_nat (length (len_bits L)) = if L <? 7 then 3 else L - 3.
Proof.
  intros HL. unfold len_bits. destruct (Z.ltb_spec L 7); [done|]. rewrite !length_app, length_replicate. cbn [length low_bits]. lia.
Qed.

(** The bits of one length at the head of the buffer. *)
Lemma len_read L l s (Q : Z → SCRATCH_DATA → Prop) :
  sd_ok orig out s → streams s (len_bits L ++ l) → 0 ≤ L ≤ 16 → Q L s →
  wpd P (if cast UINT16 (Z.shiftr (mBitBuf s) (BITBUFSIZ - 3)) =? 7
         then ones_loop 64 (Z.shiftl 1 (BITBUFSIZ - 1 - 3)) (cast UINT16 (Z.shiftr (mBitBuf s) (BITBUFSIZ - 3)))
         else mret (cast UINT16 (Z.shiftr (mBitBuf s) (BITBUFSIZ - 3)))) Q s.
Proof.
  intros Hs Hl HL HQ. change BITBUFSIZ with 32. unfold len_bits in Hl. destruct (Z.ltb_spec L 7) as [H7|H7].
  - rewrite (buffer_streams orig out 3 L l s Hs Hl) by lia. rewrite cast_id by (done || (cint_unfold; lia)).
    cbv zeta. rewrite (proj2 (Z.eqb_neq _ _)) by lia. by wpd_seq.
  - rewrite <-app_assoc in Hl. rewrite (buffer_streams orig out 3 7 _ s Hs Hl) by lia. cbv zeta. cbn [Z.eqb Pos.eqb].
    change (cast UINT16 7) with 7. change (Z.shiftl 1 (32 - 1 - 3)) with (2 ^ Z.of_nat 28). cbn [Z.eqb Pos.eqb].
    assert (Hbit : ∀ j, (j < 20)%nat → Z.testbit (mBitBuf s) (Z.of_nat (28 - j)) = bit ((replicate (Z.to_nat (L - 7)) true ++ [false]) ++ l) j).
    { intros j Hj. replace (Z.of_nat (28 - j)) with (31 - Z.of_nat (3 + j)) by lia. rewrite buffer_bit by lia. rewrite Hl.
      rewrite bit_app_r by (rewrite length_low_bits; lia). rewrite length_low_bits. f_equal. lia. }
    apply (ones_loop_count (Z.to_nat (L - 7))); [lia..| | |].
    + intros j Hj. rewrite Hbit by lia. rewrite <-app_assoc, bit_app_l by (rewrite length_replicate; lia). unfold bit.
      by rewrite lookup_replicate_2 by lia.
    + rewrite Hbit by lia. rewrite <-app_assoc, bit_app_r by (rewrite length_replicate; lia). by rewrite length_replicate, Nat.sub_diag.
    + replace (7 + Z.of_nat (Z.to_nat (L - 7))) with L by lia. done.
Qed.

(** A run of zeros, cut off at [Size]. *)
Definition zeroed (Size : Z) (m : nat) (Index : Z) (l : list Z) : list Z :=
  let k := Z.min (Z.of_nat m) (Size - Index) in
  take (Z.to_nat Index) l ++ replicate (Z.to_nat k) 0 ++ drop (Z.to_nat (Index + k)) l.

Lemma zeroed_none Size m Index l : Z.min (Z.of_nat m) (Size - Index) = 0 → zeroed Size m Index l = l.
Proof. unfold zeroed. intros ->. rewrite Z.add_0_r. cbn [Z.to_nat replicate app]. apply take_drop. Qed.

Lemma zero_loop_run Size m Index l s (Q : list Z * Z → SCRATCH_DATA → Prop) :
  0 ≤ Index ≤ Size → Size ≤ Z.of_nat (length l) → Z.of_nat m < 32768 →
  Q (zeroed Size m Index l, Z.min Size (Index + Z.of_nat m)) s → wpd P (zero_loop (S m) Size (Z.of_nat m) Index l) Q s.
Proof.
  revert Index l. induction m as [|m IH]; intros Index l HI HS Hm HQ.
  - cbn [zero_loop]. change (cast INT16 (cast UINT16 (Z.of_nat 0 - 1)) >=? 0) with false. cbn [andb]. wpd_seq.
    rewrite zeroed_none in HQ by lia. by replace (Z.min Size (Index + Z.of_nat 0)) with Index in HQ by lia.
  - change (zero_loop (S (S m)) Size (Z.of_nat (S m)) Index l) with
      (let CharC := cast UINT16 (Z.of_nat (S m) - 1) in
       if (cast INT16 CharC >=? 0) && (Index <? Size)
       then Lens ← put_at l Index 0; zero_loop (S m) Size CharC (Index + 1) Lens else mret (l, Index)).
    cbv zeta. rewrite (cast_id UINT16), (cast_id INT16) by (done || (cint_unfold; lia)).
    rewrite Z.geb_leb, (proj2 (Z.leb_le _ _)) by lia. cbn [andb]. replace (Z.of_nat (S m) - 1) with (Z.of_nat m) by lia.
    destruct (Z.ltb_spec Index Size) as [Hlt|Hge].
    + wpd_seq. apply wpd_put_at; [lia|]. apply IH; [lia|rewrite length_insert; lia|lia|].
      assert (zeroed Size m (Index + 1) (<[Z.to_nat Index:=0]> l) = zeroed Size (S m) Index l) as ->.
      { unfold zeroed. replace (Z.min (Z.of_nat (S m)) (Size - Index)) with (1 + Z.min (Z.of_nat m) (Size - (Index + 1))) by lia.
        set (k := Z.min (Z.of_nat m) _). replace (Z.to_nat (Index + 1)) with (S (Z.to_nat Index)) by lia.
        rewrite (take_S_r _ _ 0) by (rewrite list_lookup_insert_eq by lia; done). rewrite take_insert_ge, drop_insert_lt by lia.
        rewrite <-app_assoc. replace (Z.to_nat (1 + k)) with (S (Z.to_nat k)) by lia. cbn [replicate app].
        by replace (Index + 1 + k) with (Index + (1 + k)) by lia. }
      by replace (Z.min Size (Index + 1 + Z.of_nat m)) with (Z.min Size (Index + Z.of_nat (S m))) by lia.
    + wpd_seq. rewrite zeroed_none in HQ by lia. by replace (Z.min Size (Index + Z.of_nat (S m))) with Index in HQ by lia.
Qed.

(** What the loop of ReadPTLen does to the lengths. *)
Definition pt_on (s s' : SCRATCH_DATA) : Prop := keeps s s' ∧ same_tables s s' ∧ mCLen s' = mCLen s.

Lemma pt_on_trans s1 s2 s3 : pt_on s1 s2 → pt_on s2 s3 → pt_on s1 s3.
Proof.
  intros (Hk & Ht & Hc) (Hk' & Ht' & Hc'). split; [by eapply keeps_trans|]. split; [by eapply same_tables_trans|]. by rewrite Hc'.
Qed.

Lemma pt_on_read_on s s' : read_on s s' → pt_on s s'.
Proof. intros ->. done. Qed.

(** What follows a length at the special index. *)
Definition pt_special (Special Index : Z) : D Z :=
  if Index =? Special then
    CharC ← GetBits 2;
    l ← read mPTLen;
    '(l, Index) ← zero_loop (S (Z.to_nat CharC)) NPT (cast UINT16 CharC) Index l;
    set_mPTLen l;; mret Index
  else mret Index.

(** One length is read. *)
Lemma pt_len_step fuel Number Special L Index l s (Q : Z → SCRATCH_DATA → Prop) :
  sd_ok orig out s → streams s (len_bits L ++ l) → 0 ≤ L ≤ 16 → 0 ≤ Index < NPT → Index < Number →
  (∀ s', sd_ok orig out s' → pt_on s s' → streams s' l → mPTLen s' = <[Z.to_nat Index := L]> (mPTLen s) →
     wpd P (pt_special Special (Index + 1)) (λ i, wpd P (pt_len_loop fuel Number Special i) Q) s') →
  wpd P (pt_len_loop (S fuel) Number Special Index) Q s.
Proof.
  intros Hs Hl HL HI HN HQ. cbn [pt_len_loop]. rewrite !(proj2 (Z.ltb_lt Index _)) by lia. cbn [andb negb]. wpd_seq.
  cbv zeta. apply (len_read L l); [done|done|done|]. wpd_seq.
  assert (Hn : cast UINT16 (if L <? 7 then 3 else L - 3) = if L <? 7 then 3 else L - 3).
  { apply cast_id; [done|]. destruct (Z.ltb_spec L 7); cint_unfold; lia. }
  rewrite Hn. eapply FillBuf_streams; [done|exact Hl|by rewrite length_len_bits by lia|destruct (Z.ltb_spec L 7); lia|].
  intros s1 Hs1 Hr1 Hl1. wpd_seq. unfold put_PTLen. wpd_seq. rewrite cast_id by (done || (cint_unfold; lia)).
  destruct (so_ptlen _ _ _ Hs1) as [Hlen1 _]. change NPT with 31 in *. apply wpd_put_at; [lia|]. wpd_seq. wpd_set. wpd_seq.
  assert (Hpts : mPTLen s1 = mPTLen s) by by rewrite Hr1.
  apply (HQ _); [|by eapply pt_on_trans; [by apply pt_on_read_on|]|done|cbn; by rewrite Hpts].
  assert (Harr := arr_insert _ _ _ (Z.to_nat Index) L (so_ptlen _ _ _ Hs1) ltac:(lia)). clear Hs. keep.
Qed.

(** Lengths that do not reach the special index. *)
Lemma pt_len_run fuel Number Special lens Index l s (Q : Z → SCRATCH_DATA → Prop) :
  sd_ok orig out s → streams s ((lens ≫= len_bits) ++ l) → Forall (λ v, 0 ≤ v ≤ 16) lens →
  0 ≤ Index → Index + Z.of_nat (length lens) ≤ NPT → Index + Z.of_nat (length lens) ≤ Number →
  Index + Z.of_nat (length lens) < Special ∨ Special ≤ Index →
  (∀ s', sd_ok orig out s' → pt_on s s' → streams s' l →
     mPTLen s' = take (Z.to_nat Index) (mPTLen s) ++ lens ++ drop (Z.to_nat (Index + Z.of_nat (length lens))) (mPTLen s) →
     wpd P (pt_len_loop fuel Number Special (Index + Z.of_nat (length lens))) Q s') →
  wpd P (pt_len_loop (length lens + fuel) Number Special Index) Q s.
Proof.
  intros Hs Hl Hlens. revert Index s Hs Hl. induction Hlens as [|L lens HL Hlens IH]; intros Index s Hs Hl HI Hle HN Hsp HQ.
  { cbn [length Nat.add app] in *. change (Z.of_nat 0) with 0 in *. rewrite Z.add_0_r in HQ. apply HQ; [done|done|done|].
    by rewrite take_drop. }
  cbn [length Nat.add mbind list_bind] in *. rewrite <-app_assoc in Hl.
  eapply pt_len_step; [done|exact Hl|done|lia|lia|]. intros s1 Hs1 Ho1 Hl1 Hpt1. unfold pt_special.
  rewrite (proj2 (Z.eqb_neq _ _)) by lia. wpd_seq. apply IH; [done|done|lia|lia|lia|lia|].
  intros s2 Hs2 Ho2 Hl2 Hpt2. replace (Index + 1 + Z.of_nat (length lens)) with (Index + Z.of_nat (S (length lens))) in * by lia.
  apply HQ; [done|by eapply pt_on_trans|done|]. destruct (so_ptlen _ _ _ Hs) as [Hlen _]. change NPT with 31 in *.
  rewrite Hpt2, Hpt1. replace (Z.to_nat (Index + 1)) with (S (Z.to_nat Index)) by lia. rewrite drop_insert_lt by lia.
  rewrite (take_S_r _ _ L) by (rewrite list_lookup_insert_eq by lia; done). rewrite take_insert_ge by lia. by rewrite <-app_assoc.
Qed.

(** The run of zeros at the special index. *)
Lemma pt_special_run k z l s (Q : Z → SCRATCH_DATA → Prop) :
  sd_ok orig out s → streams s (low_bits 2 (Z.of_nat z) ++ l) → (z < 4)%nat → (S k + z ≤ Z.to_nat NPT)%nat →
  (∀ s', sd_ok orig out s' → pt_on s s' → streams s' l →
     take (S k + z) (mPTLen s') = take (S k) (mPTLen s) ++ replicate z 0 → Q (Z.of_nat (S k + z)) s') →
  wpd P (pt_special (Z.of_nat (S k)) (Z.of_nat (S k))) Q s.
Proof.
  intros Hs Hl Hz Hfit HQ. change (Z.to_nat NPT) with 31%nat in Hfit. destruct (so_ptlen _ _ _ Hs) as [Hlen _]. change NPT with 31 in Hlen.
  unfold pt_special. rewrite Z.eqb_refl. wpd_seq. eapply GetBits_streams; [done|exact Hl|lia|lia|]. intros s3 Hs3 Hr3 Hl3. wpd_seq.
  assert (Hpt3 : mPTLen s3 = mPTLen s) by by rewrite Hr3. rewrite Hpt3, cast_id by (done || (cint_unfold; lia)). rewrite Nat2Z.id.
  change NPT with 31. apply zero_loop_run; [lia|lia|lia|]. rewrite (Z.min_r 31), <-Nat2Z.inj_add by lia. wpd_seq. wpd_set. wpd_seq.
  assert (Harr : arr NPT 64 (zeroed 31 z (Z.of_nat (S k)) (mPTLen s))).
  { unfold zeroed. rewrite Z.min_l by lia. apply arr_range; [by rewrite <-Hpt3; apply Hs3|lia|lia|change NPT with 31; lia|lia]. }
  apply HQ; [clear Hs; keep|eapply pt_on_trans; [by apply pt_on_read_on|done]|exact Hl3|].
  cbn [mPTLen]. unfold zeroed. rewrite Z.min_l, !Nat2Z.id, app_assoc by lia. apply take_app_length'.
  rewrite length_app, length_take, length_replicate. lia.
Qed.

(** Zeros among the lengths that are sent, or past their end. *)
Lemma zeros_inside (sent : list Z) n z : zeros_only (take z (drop n sent)) → (n + z ≤ length sent)%nat →
  take n sent ++ replicate z 0 = take (n + z) sent.
Proof.
  intros Hz Hn. assert (take z (drop n sent) = replicate z 0) as <-; [|by rewrite take_take_drop].
  symmetry. apply replicate_as_Forall. split; [rewrite length_take, length_drop; lia|]. eapply Forall_impl; [exact Hz|]. by intros x ->.
Qed.

Lemma zeros_past (sent : list Z) n z : zeros_only (take z (drop n sent)) → (n ≤ length sent ≤ n + z)%nat →
  take n sent ++ replicate z 0 = sent ++ replicate (n + z - length sent) 0.
Proof.
  intros Hz Hn. rewrite <-(take_drop n sent) at 2. rewrite take_ge in Hz by (rewrite length_drop; lia).
  assert (drop n sent = replicate (length sent - n) 0) as ->.
  { symmetry. apply replicate_as_Forall. split; [by rewrite length_drop|]. eapply Forall_impl; [exact Hz|]. by intros x ->. }
  rewrite <-app_assoc, <-replicate_add. do 2 f_equal. lia.
Qed.

(** All lengths that are sent: the array from the start, and the index. *)
Lemma pt_lens_read fuel Special zeros sent l s (Q : Z → SCRATCH_DATA → Prop) :
  sd_ok orig out s → streams s (pt_lens_bits Special zeros sent ++ l) → Forall (λ v, 0 ≤ v ≤ 16) sent →
  0 < Special → Z.of_nat (length sent) ≤ NPT → (length sent < fuel)%nat →
  (Special ≤ Z.of_nat (length sent) → 0 ≤ zeros < 4 ∧ Special + zeros ≤ NPT ∧ zeros_only (take (Z.to_nat zeros) (drop (Z.to_nat Special) sent))) →
  (∀ s' Index, sd_ok orig out s' → pt_on s s' → streams s' l → Z.of_nat (length sent) ≤ Index ≤ NPT →
     take (Z.to_nat Index) (mPTLen s') = sent ++ replicate (Z.to_nat Index - length sent) 0 → Q Index s') →
  wpd P (pt_len_loop fuel (Z.of_nat (length sent)) Special 0) Q s.
Proof.
  intros Hs Hl Hlens Hsp Hle Hf Hz HQ. unfold pt_lens_bits in Hl.
  assert (Hstop : ∀ fuel Index s', (0 < fuel)%nat → Z.of_nat (length sent) ≤ Index → Q Index s' →
    wpd P (pt_len_loop fuel (Z.of_nat (length sent)) Special Index) Q s').
  { intros [|f] Index s' Hf' HI HQ'; [lia|]. cbn [pt_len_loop]. rewrite (proj2 (Z.ltb_ge Index _)) by lia. cbn [andb negb]. by wpd_seq. }
  destruct (Z.leb_spec Special (Z.of_nat (length sent))) as [Hin|Hout].
  2: { replace fuel with (length sent + (fuel - length sent))%nat by lia.
       eapply pt_len_run; [done|exact Hl|done|lia|lia|lia|by left|]. intros s1 Hs1 Ho1 Hl1 Hpt1. rewrite Z.add_0_l in *.
       apply Hstop; [lia|lia|]. apply HQ; [done|done|done|lia|]. rewrite Nat2Z.id in *. rewrite Nat.sub_diag, app_nil_r, Hpt1.
       change (take (Z.to_nat 0) (mPTLen s)) with (@nil Z). cbn [app]. apply take_app_length. }
  specialize (Hz Hin) as (Hz & Hfit & Hz0). set (z := Z.to_nat zeros) in *. change NPT with 31 in *.
  assert (∃ k, Special = Z.of_nat (S k)) as [k HS] by (exists (pred (Z.to_nat Special)); lia). rewrite HS in *. clear Special HS Hsp.
  rewrite !Nat2Z.id in *. destruct (lookup_lt_is_Some_2 sent k ltac:(lia)) as [L HL].
  assert (Hpre : take (S k) sent = take k sent ++ [L]) by by apply take_S_r.
  rewrite Hpre, bind_app, <-!app_assoc in Hl. cbn [mbind list_bind] in Hl. rewrite app_nil_r in Hl.
  assert (Hlp : length (take k sent) = k) by (rewrite length_take; lia).
  replace fuel with (length (take k sent) + S (fuel - S k))%nat by lia.
  assert (HLr : 0 ≤ L ≤ 16) by by apply (Forall_lookup_1 _ _ _ _ Hlens HL).
  assert (Hlen0 : Z.of_nat (length (mPTLen s)) = 31) by (destruct (so_ptlen _ _ _ Hs); done).
  eapply pt_len_run; [done|exact Hl|by apply Forall_take|lia|rewrite Hlp; change NPT with 31; lia|rewrite Hlp; lia|left; rewrite Hlp; lia|].
  rewrite Hlp, Z.add_0_l. change (take (Z.to_nat 0) (mPTLen s)) with (@nil Z). cbn [app]. rewrite Nat2Z.id. intros s1 Hs1 Ho1 Hl1 Hpt1.
  eapply pt_len_step; [done|exact Hl1|done|change NPT with 31; lia|lia|]. intros s2 Hs2 Ho2 Hl2 Hpt2.
  assert (Htake2 : take (S k) (mPTLen s2) = take (S k) sent).
  { rewrite Hpt2, Nat2Z.id, Hpre. rewrite (take_S_r _ _ L).
    - rewrite take_insert_ge by lia. f_equal. rewrite Hpt1. by apply take_app_length'.
    - apply list_lookup_insert_eq. destruct (so_ptlen _ _ _ Hs1) as [H31 _]. change NPT with 31 in H31. lia. }
  assert (Hlen2 : Z.of_nat (length (mPTLen s2)) = 31) by (destruct (so_ptlen _ _ _ Hs2); done).
  replace (Z.of_nat k + 1) with (Z.of_nat (S k)) by lia. replace zeros with (Z.of_nat z) in * by lia.
  eapply pt_special_run; [done|exact Hl2|lia|change (Z.to_nat NPT) with 31%nat; lia|]. intros s4 Hs4 Ho4 Hl4 Htake4.
  rewrite Htake2 in Htake4. replace (Z.to_nat (Z.of_nat (S k) + Z.of_nat z)) with (S k + z)%nat in Hl4 by lia.
  assert (Hon : pt_on s s4) by (do 2 (eapply pt_on_trans; [done|]); done).
  assert (Hlen4 : Z.of_nat (length (mPTLen s4)) = 31) by (destruct (so_ptlen _ _ _ Hs4); done).
  destruct (Nat.le_gt_cases (length sent) (S k + z)) as [Hend|Hmore].
  - apply Hstop; [lia|lia|]. rewrite drop_ge in Hl4 by lia. apply HQ; [done|done|exact Hl4|lia|].
    rewrite Nat2Z.id, Htake4. apply zeros_past; [done|lia].
  - rewrite zeros_inside in Htake4 by (done || lia).
    set (rest := drop (S k + z) sent) in *. assert (Hlr : length rest = (length sent - (S k + z))%nat) by (unfold rest; by rewrite length_drop).
    replace (fuel - S k)%nat with (length rest + (fuel - S k - length rest))%nat by lia.
    eapply pt_len_run; [done|exact Hl4|by apply Forall_drop|lia|change NPT with 31; lia|lia|right; lia|].
    intros s5 Hs5 Ho5 Hl5 Hpt5. replace (Z.of_nat (S k + z) + Z.of_nat (length rest)) with (Z.of_nat (length sent)) in * by lia.
    apply Hstop; [lia|lia|]. apply HQ; [done|by eapply pt_on_trans|done|lia|].
    rewrite Nat2Z.id, Nat.sub_diag, app_nil_r, Hpt5, Nat2Z.id, Htake4, app_assoc. unfold rest. rewrite take_drop. by apply take_app_length.
Qed.

(** Lengths of a code, from the array that holds them. *)
Lemma length_lookup (lens arr : list Z) n c L : take n arr = lens → lens !! c = Some L → arr !! c = Some L.
Proof. intros <- Hc. by apply lookup_take_Some in Hc as [? _]. Qed.

(** ** ReadPTLen *)

Lemma fill_rest (sent : list Z) (n : nat) : Forall (λ L, L = 0) (drop n sent) → (n ≤ length sent)%nat →
  take n sent ++ replicate (length sent - n) 0 = sent.
Proof.
  intros Hz Hn. rewrite <-(take_drop n sent) at 3. f_equal. rewrite <-length_drop. apply replicate_as_Forall_2; [done|].
  eapply Forall_impl; [exact Hz|]. by intros x ->.
Qed.

(** Zeros behind the lengths that are sent, up to [n] lengths. *)
Lemma fill_zeros (sent rest : list Z) n a b : (length sent ≤ n)%nat → (n ≤ length sent + a + b)%nat →
  take n ((sent ++ replicate a 0) ++ replicate b 0 ++ rest) = sent ++ replicate (n - length sent) 0.
Proof.
  intros Hs Hn. rewrite <-app_assoc, (app_assoc (replicate a 0)), <-replicate_add.
  replace n with (length sent + (n - length sent))%nat at 1 by lia. rewrite take_app_add. f_equal.
  rewrite take_app_le by (rewrite length_replicate; lia). rewrite take_replicate. f_equal. lia.
Qed.

(** What a header of the Extra Set or the Position Set leaves behind. *)
Definition pt_read (nn : Z) (h : pt_header) (l : list bool) (s s' : SCRATCH_DATA) : Prop :=
  sd_ok orig out s' ∧ keeps s s' ∧ streams s' l ∧ mCLen s' = mCLen s ∧ take (Z.to_nat nn) (mPTLen s') = set_lens nn (pt_set h) ∧
  set_decodes PTTable (pt_set h) s' ∧
  (∀ S, (∀ cl, S = Lens cl → 2 * limit PTTable ≤ Z.of_nat (length cl)) → set_decodes CTable S s → set_decodes CTable S s').

Lemma ReadPTLen_single nn nbit Special c l s (Q : Z → SCRATCH_DATA → Prop) :
  sd_ok orig out s → streams s (pt_bits nbit Special (PtSingle c) ++ l) → 0 ≤ c < nn → c < 2 ^ nbit → nn ≤ NPT → 1 ≤ nbit ≤ 5 →
  (∀ s', pt_read nn (PtSingle c) l s s' → Q 0 s') → wpd P (ReadPTLen nn nbit Special) Q s.
Proof.
  intros Hs Hl Hc Hcb Hnn Hbit HQ. change NPT with 31 in Hnn. cbn [pt_bits] in Hl. rewrite <-app_assoc in Hl. unfold ReadPTLen. wpd_seq.
  apply wpd_require; [apply Z.leb_le; change NPT with 31; lia|]. wpd_seq.
  eapply GetBits_streams; [done|exact Hl|lia|lia|]. intros s1 Hs1 Hr1 Hl1. cbv zeta. change (cast UINT16 0 =? 0) with true. cbv iota. wpd_seq.
  eapply GetBits_streams; [done|exact Hl1|lia|lia|]. intros s2 Hs2 Hr2 Hl2. wpd_seq. rewrite cast_id by (done || (cint_unfold; lia)).
  destruct (so_pttable _ _ _ Hs2) as [Hpl _], (so_ptlen _ _ _ Hs2) as [Hptl _]. change NPT with 31 in Hptl.
  apply wpd_set_range; [lia|lia|lia|]. rewrite set_range_all by done. wpd_seq. wpd_set. wpd_seq.
  apply wpd_set_range; [lia|lia|cbn; lia|]. wpd_seq. wpd_set. wpd_seq. cbn [mPTLen]. apply HQ.
  change (take (Z.to_nat 0) (mPTLen s2)) with (@nil Z). rewrite Z.add_0_l. cbn [app].
  assert (Harr : arr NPT 64 (take (Z.to_nat 0) (mPTLen s2) ++ replicate (Z.to_nat nn) 0 ++ drop (Z.to_nat (0 + nn)) (mPTLen s2)))
    by (apply arr_range; [apply (so_ptlen _ _ _ Hs2)|lia|lia|change NPT with 31; lia|lia]).
  change (take (Z.to_nat 0) (mPTLen s2)) with (@nil Z) in Harr. rewrite Z.add_0_l in Harr. cbn [app] in Harr.
  assert (Harr2 : arr 256 NODES (replicate (Z.to_nat (Z.of_nat (length (mPTTable s2)))) c)) by (rewrite Hpl; apply arr_replicate; unfold NODES; lia).
  split_and!; [clear Hs Hs1; keep| |exact Hl2| | | |].
  - eapply keeps_trans; [by apply keeps_read_on|]. by eapply keeps_trans; [by apply keeps_read_on|].
  - cbn. by rewrite Hr2, Hr1.
  - cbn [mPTLen pt_set set_lens]. apply take_app_length'. by rewrite length_replicate.
  - cbn [set_decodes pt_set table_of mPTTable table_bits]. by rewrite Hpl.
  - intros S _ Hd. eapply set_decodes_ext; [..|exact Hd]; cbn; by rewrite Hr2, Hr1.
Qed.

Lemma ReadPTLen_lens nn nbit Special num zeros lens l s (Q : Z → SCRATCH_DATA → Prop) :
  sd_ok orig out s → streams s (pt_bits nbit Special (PtLens num zeros lens) ++ l) → pt_ok nn nbit Special (PtLens num zeros lens) →
  nn ≤ MAXNP → 0 < Special → Special + 4 ≤ NPT ∨ NPT < Special → 1 ≤ nbit ≤ 5 →
  (∀ s', pt_read nn (PtLens num zeros lens) l s s' → Q 0 s') → wpd P (ReadPTLen nn nbit Special) Q s.
Proof.
  intros Hs Hl ((Hlen & Hlens & Hcomp) & Hnum & Hfit & Hz & Hsp0) Hnn Hsp Hsp2 Hbit HQ. change MAXNP with 31 in Hnn.
  cbn [pt_bits] in Hl. rewrite <-app_assoc in Hl. unfold ReadPTLen. wpd_seq.
  apply wpd_require; [apply Z.leb_le; change NPT with 31; lia|]. wpd_seq.
  eapply GetBits_streams; [done|exact Hl|lia|lia|]. intros s1 Hs1 Hr1 Hl1. cbv zeta.
  rewrite cast_id by (done || (cint_unfold; lia)). rewrite (proj2 (Z.eqb_neq _ _)) by lia. wpd_seq.
  set (sent := take (Z.to_nat num) lens) in *. assert (Hsent : length sent = Z.to_nat num) by (unfold sent; rewrite length_take; lia).
  replace num with (Z.of_nat (length sent)) at 1 by lia. change NPT with 31 in *.
  eapply pt_lens_read; [done|exact Hl1|by apply Forall_take|lia|change NPT with 31; lia|change (Z.to_nat 31) with 31%nat; lia| |].
  { intros Hle. destruct (Hsp0 ltac:(lia)) as [Hz4 Hz0]. split; [done|]. split; [change NPT with 31; lia|].
    unfold sent, zeros_only in *. rewrite skipn_firstn_comm, take_take, Nat.min_comm, <-take_take. by apply Forall_take. }
  intros s2 Index Hs2 (Hk2 & Ht2 & Hc2) Hl2 HI Hpt2. wpd_seq. change NPT with 31 in *.
  destruct (so_ptlen _ _ _ Hs2) as [Hptl _]. change NPT with 31 in *.
  apply wpd_set_range; [lia|lia|lia|]. set (full := take _ _ ++ _). wpd_seq. wpd_set.
  assert (Harr := arr_range 31 64 _ Index (Z.max 0 (Z.min nn 31 - Index)) 0 (so_ptlen _ _ _ Hs2) ltac:(lia) ltac:(lia) ltac:(lia) ltac:(lia)).
  fold full in Harr.
  match goal with |- wpd _ _ _ ?t => assert (Hk3 : keeps s2 t) by done; assert (Ht3 : same_tables s2 t) by done; assert (Hl3 : streams t l) by done;
    assert (Hc3 : mCLen t = mCLen s2) by done; assert (Hp3 : mPTLen t = full) by done;
    assert (Hs3 : sd_ok orig out t) by (clear Hs Hs1; keep); revert Hk3 Ht3 Hl3 Hc3 Hp3 Hs3; generalize t end.
  intros s3 Hk3 Ht3 Hl3 Hc3 Hp3 Hs3.
  assert (Hfull : take (Z.to_nat nn) full = lens).
  { unfold full. rewrite Hpt2, fill_zeros by lia. rewrite Hsent. unfold sent.
    replace (Z.to_nat nn) with (length lens) by lia. apply fill_rest; [done|lia]. }
  replace nn with (Z.of_nat (length lens)) at 1 by lia.
  apply (MakeTable_tree P PTTable lens Hcomp) with (orig := orig) (out := out); [change (limit PTTable) with 31; lia|done|done| |].
  { rewrite <-Hfull at 2. f_equal. lia. }
  intros nodes s4 Hs4 Ho4 Htree4. apply HQ. split_and!; [done| | | | | |].
  - eapply keeps_trans; [by apply keeps_read_on|]. do 2 (eapply keeps_trans; [done|]). by eapply keeps_tree_on.
  - intros i. rewrite <-(Hl3 i). by rewrite (to_state _ _ _ Ho4).
  - rewrite (to_state _ _ _ Ho4). cbn. rewrite Hc3, Hc2. by rewrite Hr1.
  - rewrite (to_state _ _ _ Ho4). cbn. by rewrite Hp3.
  - split; [done|]. split; [change (limit PTTable) with 31; lia|]. by exists nodes.
  - intros S HS Hd. destruct S as [cl|c]; cbn [set_decodes] in *.
    + eapply decodes_other; [by apply HS|done|]. do 2 (eapply decodes_same_tables; [done|]). by eapply decodes_read_on.
    + rewrite (to_state _ _ _ Ho4). cbn. destruct Ht3 as (_ & _ & -> & _), Ht2 as (_ & _ & -> & _). cbn in Hd. by rewrite Hr1.
Qed.

Lemma ReadPTLen_streams nn nbit Special h l s (Q : Z → SCRATCH_DATA → Prop) :
  sd_ok orig out s → streams s (pt_bits nbit Special h ++ l) → pt_ok nn nbit Special h →
  nn ≤ MAXNP → 0 < Special → Special + 4 ≤ NPT ∨ NPT < Special → 1 ≤ nbit ≤ 5 →
  (∀ s', pt_read nn h l s s' → Q 0 s') → wpd P (ReadPTLen nn nbit Special) Q s.
Proof.
  intros Hs Hl Hok Hnn Hsp Hsp2 Hbit HQ. destruct h as [num zeros lens|c]; [by eapply ReadPTLen_lens|].
  destruct Hok. by eapply ReadPTLen_single.
Qed.

(** ** ReadCLen *)

Definition c_on (s s' : SCRATCH_DATA) : Prop := keeps s s' ∧ same_tables s s' ∧ mPTLen s' = mPTLen s.

Lemma c_on_trans s1 s2 s3 : c_on s1 s2 → c_on s2 s3 → c_on s1 s3.
Proof.
  intros (Hk & Ht & Hc) (Hk' & Ht' & Hc'). split; [by eapply keeps_trans|]. split; [by eapply same_tables_trans|]. by rewrite Hc'.
Qed.

Lemma c_on_read_on s s' : read_on s s' → c_on s s'.
Proof. intros ->. done. Qed.

(** A character of the Extra Set. *)
Lemma c_char walk_fuel T c l s {A} (rest : Z → D A) (Q : A → SCRATCH_DATA → Prop) :
  sd_ok orig out s → set_ok NT T → set_decodes PTTable T s → take (Z.to_nat NT) (mPTLen s) = set_lens NT T →
  16 ≤ Z.of_nat walk_fuel → set_coded T c → streams s (set_bits T c ++ l) →
  (∀ s', sd_ok orig out s' → c_on s s' → streams s' l → mCLen s' = mCLen s → wpd P (rest c) Q s') →
  wpd P (CharC ← lookup walk_fuel PTTable 8 NT; l ← read mPTLen; n ← get_at l CharC; FillBuf n;; rest CharC) Q s.
Proof.
  intros Hs Hok Hd Hpt Hfuel Hc Hl HQ. wpd_seq. eapply (lookup_set P orig out walk_fuel PTTable); [done|exact Hok|exact Hd|exact Hc|exact Hl|done|].
  wpd_seq. destruct (set_length _ _ _ Hok Hc) as (Hc0 & L & HL & HL16 & Hbits).
  eapply wpd_get_at; [lia|by eapply length_lookup|]. wpd_seq.
  eapply FillBuf_streams; [done|exact Hl|done|lia|]. intros s1 Hs1 Hr1 Hl1. apply HQ; [done|by apply c_on_read_on|done|by rewrite Hr1].
Qed.

Lemma take_zeroed m Index (l : list Z) : 0 ≤ Index ≤ NC → Z.of_nat (length l) = NC →
  take (Z.to_nat (Z.min NC (Index + Z.of_nat m))) (zeroed NC m Index l) = take (Z.to_nat NC) (take (Z.to_nat Index) l ++ replicate m 0).
Proof.
  intros HI Hl. unfold zeroed. set (k := Z.min (Z.of_nat m) (NC - Index)).
  rewrite app_assoc, take_app_length' by (rewrite length_app, length_take, length_replicate; lia).
  replace (Z.to_nat NC) with (length (take (Z.to_nat Index) l) + (Z.to_nat NC - Z.to_nat Index))%nat by (rewrite length_take; lia).
  rewrite take_app_add, take_replicate. f_equal. f_equal. lia.
Qed.

Lemma length_zeroed m Index (l : list Z) : 0 ≤ Index ≤ NC → Z.of_nat (length l) = NC → Z.of_nat (length (zeroed NC m Index l)) = NC.
Proof. intros HI Hl. unfold zeroed. rewrite !length_app, length_take, length_replicate, length_drop. lia. Qed.

(** The lengths up to an index. *)
Definition c_stored (s s' : SCRATCH_DATA) (Index : Z) (more : list Z) (Index' : Z) : Prop :=
  Index' = Z.min NC (Index + Z.of_nat (length more)) ∧
  take (Z.to_nat Index') (mCLen s') = take (Z.to_nat NC) (take (Z.to_nat Index) (mCLen s) ++ more).

(** A run of zeros is stored. *)
Lemma c_zeros walk_fuel fuel num m Index l s (Q : Z → SCRATCH_DATA → Prop) :
  sd_ok orig out s → streams s l → 0 ≤ Index < NC → Z.of_nat m < 32768 →
  (∀ s' Index', sd_ok orig out s' → c_on s s' → streams s' l → c_stored s s' Index (replicate m 0) Index' →
     wpd P (c_len_loop walk_fuel fuel num Index') Q s') →
  wpd P (l ← read mCLen; '(l, Index) ← zero_loop (S m) NC (Z.of_nat m) Index l; set_mCLen l;; c_len_loop walk_fuel fuel num Index) Q s.
Proof.
  intros Hs Hl HI Hm HQ. destruct (so_clen _ _ _ Hs) as [Hcl Hcb]. wpd_seq. apply zero_loop_run; [lia|lia|done|]. wpd_seq. wpd_set.
  assert (Harr : arr NC 17 (zeroed NC m Index (mCLen s))).
  { split; [apply length_zeroed; [lia|done]|]. unfold zeroed. rewrite !Forall_app. split_and!; [by apply Forall_take|by apply Forall_replicate|by apply Forall_drop]. }
  apply HQ; [keep|done|done|]. unfold c_stored. rewrite length_replicate. split; [done|]. cbn [mCLen]. apply take_zeroed; [lia|done].
Qed.

(** An item is read. *)
Lemma c_item_step walk_fuel fuel num T it Index l s (Q : Z → SCRATCH_DATA → Prop) :
  sd_ok orig out s → set_ok NT T → set_decodes PTTable T s → take (Z.to_nat NT) (mPTLen s) = set_lens NT T →
  16 ≤ Z.of_nat walk_fuel → item_ok T it → streams s (item_bits T it ++ l) → 0 ≤ Index < NC → Index < num →
  (∀ s' Index', sd_ok orig out s' → c_on s s' → streams s' l → c_stored s s' Index (item_lens it) Index' →
     wpd P (c_len_loop walk_fuel fuel num Index') Q s') →
  wpd P (c_len_loop walk_fuel (S fuel) num Index) Q s.
Proof.
  intros Hs Hok Hd Hpt Hfuel Hit Hl HI HN HQ. cbn [c_len_loop]. rewrite !(proj2 (Z.ltb_lt Index _)) by lia. cbn [andb negb].
  assert (Hrun : ∀ n s1, sd_ok orig out s1 → c_on s s1 → streams s1 l → mCLen s1 = mCLen s → item_lens it = replicate (Z.to_nat n) 0 →
    0 ≤ n < 32768 → wpd P (l ← read mCLen; '(l, Index) ← zero_loop (S (Z.to_nat n)) NC n Index l; set_mCLen l;; c_len_loop walk_fuel fuel num Index) Q s1).
  { intros n s1 Hs1 Ho1 Hl1 Hcl1 Hit1 Hn. replace (zero_loop (S (Z.to_nat n)) NC n) with (zero_loop (S (Z.to_nat n)) NC (Z.of_nat (Z.to_nat n))) by (f_equal; lia). eapply c_zeros; [done|exact Hl1|done|lia|].
    intros s2 Index' Hs2 Ho2 Hl2 Hst. apply HQ; [done|by eapply c_on_trans|done|]. unfold c_stored in *. by rewrite Hit1, <-Hcl1. }
  destruct it as [L| |n|n]; cbn [item_ok item_bits item_lens] in *; rewrite <-?app_assoc in Hl.
  - destruct Hit as [HL Hc]. eapply c_char; [done|done|done|done|done|exact Hc|exact Hl|]. intros s1 Hs1 Ho1 Hl1 Hcl1.
    rewrite (proj2 (Z.leb_gt _ 2)) by lia. unfold put_CLen. replace (L + 2 - 2) with L by lia.
    rewrite cast_id by (done || (cint_unfold; lia)). destruct (so_clen _ _ _ Hs1) as [Hcl _]. wpd_seq. apply wpd_put_at; [lia|]. wpd_seq. wpd_set.
    assert (Harr := arr_insert _ _ _ (Z.to_nat Index) L (so_clen _ _ _ Hs1) ltac:(lia)).
    apply HQ; [clear Hs; keep|done|done|]. unfold c_stored. cbn [mCLen length]. split; [lia|].
    replace (Z.to_nat (Index + 1)) with (S (Z.to_nat Index)) by lia. rewrite (take_S_r _ _ L) by (rewrite list_lookup_insert_eq by lia; done).
    rewrite take_insert_ge by lia. rewrite Hcl1. rewrite (take_ge (_ ++ _)); [done|]. rewrite length_app, length_take. cbn [length]. lia.
  - eapply c_char; [done|done|done|done|done|exact Hit|exact Hl|]. intros s1 Hs1 Ho1 Hl1 Hcl1. cbn [Z.leb Z.compare Z.eqb].
    apply wpd_bind, wpd_ret. by apply (Hrun 1).
  - destruct Hit as [Hn Hc]. eapply c_char; [done|done|done|done|done|exact Hc|exact Hl|]. intros s1 Hs1 Ho1 Hl1 Hcl1.
    cbn [Z.leb Z.compare Z.eqb Pos.eqb Pos.compare Pos.compare_cont]. wpd_seq. eapply GetBits_streams; [done|exact Hl1|lia|lia|]. intros s2 Hs2 Hr2 Hl2.
    apply wpd_ret. replace (n - 3 + 3) with n by lia. rewrite cast_id by (done || (cint_unfold; lia)).
    apply Hrun; [done|eapply c_on_trans; [done|by apply c_on_read_on]|done|by rewrite Hr2|done|lia].
  - destruct Hit as [Hn Hc]. eapply c_char; [done|done|done|done|done|exact Hc|exact Hl|]. intros s1 Hs1 Ho1 Hl1 Hcl1.
    cbn [Z.leb Z.compare Z.eqb Pos.eqb Pos.compare Pos.compare_cont]. wpd_seq.
    eapply GetBits_streams; [done|exact Hl1|done|change CBIT with 9; lia|]. intros s2 Hs2 Hr2 Hl2.
    apply wpd_ret. replace (n - 20 + 20) with n by lia. rewrite cast_id by (done || (cint_unfold; lia)).
    apply Hrun; [done|eapply c_on_trans; [done|by apply c_on_read_on]|done|by rewrite Hr2|done|lia].
Qed.

Lemma take_take_app (a b : list Z) n : take n (take n a ++ b) = take n (a ++ b).
Proof.
  destruct (Nat.le_gt_cases (length a) n); [by rewrite (take_ge a) by lia|].
  rewrite !take_app_le by (rewrite ?length_take; lia). by rewrite take_take, Nat.min_id.
Qed.

Lemma c_stored_none s Index : 0 ≤ Index ≤ NC → c_stored s s Index [] Index.
Proof.
  intros HI. unfold c_stored. cbn [length]. split; [lia|]. rewrite app_nil_r, take_take. f_equal. lia.
Qed.

Lemma c_stored_app s1 s2 s3 I1 I2 I3 m1 m2 : c_stored s1 s2 I1 m1 I2 → c_stored s2 s3 I2 m2 I3 → c_stored s1 s3 I1 (m1 ++ m2) I3.
Proof.
  intros [H12 Ht2] [H23 Ht3]. unfold c_stored. rewrite length_app. split; [lia|]. by rewrite Ht3, Ht2, take_take_app, app_assoc.
Qed.

Lemma item_lens_some T it : item_ok T it → (1 ≤ length (item_lens it))%nat.
Proof. destruct it; cbn [item_ok item_lens length]; rewrite ?length_replicate; lia. Qed.

(** All items are read. *)
Lemma c_items_run walk_fuel fuel num T items Index l s (Q : Z → SCRATCH_DATA → Prop) :
  sd_ok orig out s → set_ok NT T → set_decodes PTTable T s → take (Z.to_nat NT) (mPTLen s) = set_lens NT T →
  16 ≤ Z.of_nat walk_fuel → Forall (item_ok T) items → items_fit num Index items →
  streams s ((items ≫= item_bits T) ++ l) → 0 ≤ Index ≤ NC → NC - Index < Z.of_nat fuel →
  (∀ s' Index', sd_ok orig out s' → c_on s s' → streams s' l → c_stored s s' Index (items ≫= item_lens) Index' → Q Index' s') →
  wpd P (c_len_loop walk_fuel fuel num Index) Q s.
Proof.
  intros Hs Hok Hd Hpt Hwalk Hit. revert fuel Index s Hs Hd Hpt. induction Hit as [|it items Hit Hits IH];
    intros fuel Index s Hs Hd Hpt Hfit Hl HI Hf HQ; cbn [items_fit mbind list_bind] in *.
  - destruct fuel as [|fuel]; [lia|]. cbn [c_len_loop].
    replace ((Index <? num) && (Index <? NC)) with false by (symmetry; apply andb_false_iff; rewrite !Z.ltb_ge; lia).
    cbn [negb]. apply wpd_ret. apply HQ; [done|done|done|by apply c_stored_none].
  - destruct Hfit as (Hnum & HNC & Hfit), fuel as [|fuel]; [lia|]. rewrite <-app_assoc in Hl. pose proof (item_lens_some _ _ Hit).
    eapply c_item_step; [done|done|done|done|done|exact Hit|exact Hl|lia|lia|]. intros s1 Index1 Hs1 Ho1 Hl1 Hst1.
    destruct (Ho1) as (_ & (HL & HR & HC & HP) & Hpt1), (Hst1) as [HI1 _]. rewrite <-HI1 in Hfit.
    apply IH; [done|by eapply set_decodes_ext; [..|exact Hd]|by rewrite Hpt1|done|done|lia|lia|].
    intros s2 Index2 Hs2 Ho2 Hl2 Hst2. apply HQ; [done|by eapply c_on_trans|done|by eapply c_stored_app].
Qed.

(** What the header of the Char&Len Set leaves behind. *)
Definition c_read (h : c_header) (l : list bool) (s s' : SCRATCH_DATA) : Prop :=
  sd_ok orig out s' ∧ keeps s s' ∧ streams s' l ∧ mCLen s' = set_lens NC (c_set h) ∧ set_decodes CTable (c_set h) s'.

Lemma c_lens_full items (arr : list Z) Index : 0 ≤ Index → Index = Z.min NC (0 + Z.of_nat (length (items ≫= item_lens))) →
  take (Z.to_nat Index) arr = take (Z.to_nat NC) (items ≫= item_lens) →
  take (Z.to_nat Index) arr ++ replicate (Z.to_nat (NC - Index)) 0 = c_lens items.
Proof.
  intros H0 HI ->. unfold c_lens. destruct (Z.le_gt_cases NC (Z.of_nat (length (items ≫= item_lens)))) as [Hle|Hgt].
  - rewrite take_app_le by lia. replace (NC - Index) with 0 by lia. apply app_nil_r.
  - rewrite take_ge by lia. rewrite take_app_ge by lia. f_equal. rewrite take_replicate. f_equal. lia.
Qed.

Lemma ReadCLen_single walk_fuel T c l s (Q : unit → SCRATCH_DATA → Prop) :
  sd_ok orig out s → streams s (c_bits T (CSingle c) ++ l) → 0 ≤ c < NC →
  (∀ s', c_read (CSingle c) l s s' → Q tt s') → wpd P (ReadCLen walk_fuel) Q s.
Proof.
  intros Hs Hl Hc HQ. change NC with 510 in Hc. cbn [c_bits] in Hl. rewrite <-app_assoc in Hl. unfold ReadCLen. wpd_seq.
  eapply GetBits_streams; [done|exact Hl|done|done|]. intros s1 Hs1 Hr1 Hl1. cbv zeta. change (cast UINT16 0 =? 0) with true. cbv iota. wpd_seq.
  eapply GetBits_streams; [done|exact Hl1|done|change CBIT with 9; lia|]. intros s2 Hs2 Hr2 Hl2. wpd_seq.
  rewrite cast_id by (done || (cint_unfold; lia)). destruct (so_ctable _ _ _ Hs2) as [Htl _], (so_clen _ _ _ Hs2) as [Hcl _].
  apply wpd_set_range; [lia|done|lia|]. rewrite set_range_all by done. wpd_seq. wpd_set. wpd_seq.
  apply wpd_set_range; [lia|lia|cbn; lia|]. cbn [mCTable]. rewrite set_range_all by done. wpd_set.
  assert (Harr : arr NC 17 (replicate (Z.to_nat NC) 0)) by (apply arr_replicate; done).
  assert (Harr2 : arr 4096 NODES (replicate (Z.to_nat (Z.of_nat (length (mCTable s2)))) c)) by (rewrite Htl; apply arr_replicate; unfold NODES; lia).
  apply HQ. split; [clear Hs Hs1; keep|]. split; [|split; [exact Hl2|split; [done|]]].
  - eapply keeps_trans; [by apply keeps_read_on|]. by eapply keeps_trans; [by apply keeps_read_on|].
  - cbn [c_set set_decodes table_of mCTable table_bits]. by rewrite Htl.
Qed.

Lemma ReadCLen_streams walk_fuel T h l s (Q : unit → SCRATCH_DATA → Prop) :
  sd_ok orig out s → set_ok NT T → set_decodes PTTable T s → take (Z.to_nat NT) (mPTLen s) = set_lens NT T →
  16 ≤ Z.of_nat walk_fuel → c_ok T h → streams s (c_bits T h ++ l) →
  (∀ s', c_read h l s s' → Q tt s') → wpd P (ReadCLen walk_fuel) Q s.
Proof.
  intros Hs Hok Hd Hpt Hwalk Hh Hl HQ. destruct h as [num items|c]; [|by eapply ReadCLen_single].
  destruct Hh as (Hnum & Hfit & Hits & Hlen & Hrange & Hcomp). cbn [c_bits] in Hl. rewrite <-app_assoc in Hl. unfold ReadCLen. wpd_seq.
  eapply GetBits_streams; [done|exact Hl|done|change CBIT with 9; lia|]. intros s1 Hs1 Hr1 Hl1. cbv zeta.
  rewrite cast_id by (done || (cint_unfold; lia)). rewrite (proj2 (Z.eqb_neq _ _)) by lia. wpd_seq.
  eapply c_items_run; [done|exact Hok|by eapply set_decodes_read_on|by rewrite Hr1|done|exact Hits|exact Hfit|exact Hl1|done|done|].
  intros s2 Index Hs2 (Hk2 & Ht2 & Hp2) Hl2 [HI Hst]. wpd_seq. destruct (so_clen _ _ _ Hs2) as [Hcl Hcb].
  apply wpd_set_range; [lia|unfold NC in *; lia|lia|]. change (take (Z.to_nat 0) (mCLen s1)) with (@nil Z) in Hst. cbn [app] in Hst.
  rewrite app_assoc, (c_lens_full items) by (done || lia). rewrite drop_ge, app_nil_r by lia. wpd_seq. wpd_set.
  assert (Harr : arr NC 17 (c_lens items)).
  { rewrite <-(c_lens_full items (mCLen s2) Index) by (done || lia). split; [rewrite length_app, length_take, length_replicate; unfold NC in *; lia|].
    apply Forall_app. split; [by apply Forall_take|by apply Forall_replicate]. }
  match goal with |- wpd _ _ _ ?t => assert (Hk3 : keeps s2 t) by done; assert (Hl3 : streams t l) by done; assert (Hc3 : mCLen t = c_lens items) by done;
    assert (Hs3 : sd_ok orig out t) by (clear Hs Hs1; keep); revert Hk3 Hl3 Hc3 Hs3; generalize t end.
  intros s3 Hk3 Hl3 Hc3 Hs3. wpd_seq. rewrite <-Hlen at 1.
  apply (MakeTable_tree P CTable (c_lens items) Hcomp) with (orig := orig) (out := out);
    [apply Z.eq_le_incl; exact Hlen|done|done|by rewrite firstn_all|].
  intros nodes s4 Hs4 Ho4 Htree4. wpd_seq. apply HQ. split; [done|]. split; [|split; [|split]].
  - eapply keeps_trans; [by apply keeps_read_on|]. do 2 (eapply keeps_trans; [done|]). by eapply keeps_tree_on.
  - intros i. rewrite <-(Hl3 i). by rewrite (to_state _ _ _ Ho4).
  - by rewrite (to_state _ _ _ Ho4).
  - split; [done|]. split; [by apply Z.eq_le_incl|]. by exists nodes.
Qed.
End lens.
