(* ===== verification/DecompressTokens.v ===== *)
(** * Decoding tokens

    DecodeC, DecodeP and the copying loop on the bits of a block. *)
From S2P Require Import Prelude CBase Math64 Decompress DecompressBits DecompressSafe DecompressRun DecompressCodes.
From S2P Require Import DecompressFormat DecompressTable DecompressChars.
From S2P Require Import DecompressLens.
Local Open Scope Z_scope.

(** The tables of block [blk] are in place and [n] tokens are left. *)
Record ready (blk : block) (n : Z) (s : SCRATCH_DATA) : Prop := Ready {
  rd_c : set_decodes CTable (cset blk) s;
  rd_clen : mCLen s = set_lens NC (cset blk);
  rd_p : set_decodes PTTable (pset blk) s;
  rd_plen : take (Z.to_nat MAXNP) (mPTLen s) = set_lens MAXNP (pset blk);
  rd_size : mBlockSize s = n;
  rd_flag : mBadTableFlag s = 0 }.

Lemma ready_read_on blk n s s' : read_on s s' → ready blk n s → ready blk n s'.
Proof.
  intros Hr [Hc Hcl Hp Hpl Hsz Hfl]. split; [by eapply set_decodes_read_on|by rewrite Hr|by eapply set_decodes_read_on|by rewrite Hr|by rewrite Hr|by rewrite Hr].
Qed.

Definition token_char (t : token) : Z := match t with Literal v => v | Pointer len _ => len + 253 end.

Definition token_tail (blk : block) (t : token) : list bool :=
  match t with
  | Literal _ => []
  | Pointer _ pos => set_bits (pset blk) (pos_class pos) ++
      (if 1 <? pos_class pos then low_bits (Z.to_nat (pos_class pos - 1)) (pos - 2 ^ (pos_class pos - 1)) else [])
  end.

Lemma token_bits_split blk t : token_bits blk t = set_bits (cset blk) (token_char t) ++ token_tail blk t.
Proof. destruct t; cbn [token_bits token_char token_tail]; [by rewrite app_nil_r|done]. Qed.

Lemma token_ok_char blk t : token_ok blk t → set_coded (cset blk) (token_char t).
Proof. destruct t; cbn [token_ok]; tauto. Qed.

(** The output that has been written. *)
Definition written (o : list Z) (s : SCRATCH_DATA) : Prop := take (length o) (mDstBase s) = o.

Lemma pt_ok_set n nbit special h : pt_ok n nbit special h → set_ok n (pt_set h).
Proof. destruct h; [by intros [? _]|by intros [? _]]. Qed.

Lemma c_ok_set T h : c_ok T h → set_ok NC (c_set h).
Proof. destruct h; [by intros (_ & _ & _ & ?)|done]. Qed.

Section tokens.
Context (P : Prop) (orig out : Z) (walk_fuel : nat) (Hwalk : 16 ≤ Z.of_nat walk_fuel).

(** The tables of a block. *)
Lemma read_tables_streams pbit blk l s (Q : bool → SCRATCH_DATA → Prop) :
  sd_ok orig out s → mPBit s = pbit → block_ok pbit blk → streams s (block_bits pbit blk ++ l) →
  (∀ s', sd_ok orig out s' → ready blk (Z.of_nat (length (tokens blk))) s' → mDstBase s' = mDstBase s → mPBit s' = mPBit s →
     streams s' ((tokens blk ≫= token_bits blk) ++ l) → Q false s') →
  wpd P (read_tables walk_fuel) Q s.
Proof.
  intros Hs Hpb [Ht Hc Hp Htok Hsz] Hl HQ. unfold block_bits in Hl. rewrite <-!app_assoc in Hl. unfold read_tables. wpd_seq.
  eapply GetBits_streams; [done|exact Hl|lia|lia|]. intros s1 Hs1 Hr1 Hl1. wpd_seq. wpd_set. wpd_seq.
  rewrite (cast_id UINT16 (Z.of_nat _)) by (done || (cint_unfold; lia)).
  match goal with |- wpd _ _ _ ?t => assert (Hs2 : sd_ok orig out t) by (clear Hs; keep); assert (Hl2 := Hl1 : streams t _);
    assert (Hd2 : mDstBase t = mDstBase s1) by done; assert (Hb2 : mPBit t = mPBit s1) by done;
    assert (Hz2 : mBlockSize t = Z.of_nat (length (tokens blk))) by done; revert Hs2 Hl2 Hd2 Hb2 Hz2; generalize t end.
  intros s2 Hs2 Hl2 Hd2 Hb2 Hz2.
  eapply (ReadPTLen_streams P orig out NT TBIT 3); [done|exact Hl2|exact Ht|done|done|by left|done|].
  intros s3 (Hs3 & Hk3 & Hl3 & Hcl3 & Hpt3 & Hd3 & _). wpd_seq. wpd_set. cbn [Z.eqb negb]. wpd_seq.
  match goal with |- wpd _ _ _ ?t => assert (Hs4 : sd_ok orig out t) by (clear Hs Hs1 Hs2; keep); assert (Hl4 := Hl3 : streams t _);
    assert (Hk4 : mDstBase t = mDstBase s3 ∧ mPBit t = mPBit s3 ∧ mBlockSize t = mBlockSize s3) by done; assert (Hpt4 := Hpt3 : take _ (mPTLen t) = _);
    assert (Hd4 : set_decodes PTTable (tset blk) t) by (eapply set_decodes_ext; [..|exact Hd3]; done); revert Hs4 Hl4 Hk4 Hpt4 Hd4; generalize t end.
  intros s4 Hs4 Hl4 (Hk4a & Hk4b & Hk4c) Hpt4 Hd4.
  eapply (ReadCLen_streams P orig out walk_fuel (tset blk)); [done|by eapply pt_ok_set|done|done|done|exact Hc|exact Hl4|].
  intros s5 (Hs5 & Hk5 & Hl5 & Hcl5 & Hd5). wpd_seq.
  assert (Hpbit : mPBit s5 = pbit). { destruct Hk5 as (_ & _ & _ & ->). destruct Hk3 as (_ & _ & _ & Hk3). rewrite Hk4b, Hk3, Hb2. by rewrite Hr1. }
  rewrite Hpbit. assert (Hpr : pbit = 4 ∨ pbit = 5) by (rewrite <-Hpbit; apply Hs5).
  eapply (ReadPTLen_streams P orig out MAXNP pbit (cast UINT16 (-1))); [done|exact Hl5|exact Hp|done|done|by right|lia|].
  intros s6 (Hs6 & Hk6 & Hl6 & Hcl6 & Hpt6 & Hd6 & Hother). wpd_seq. wpd_set. cbn [Z.eqb negb]. wpd_seq.
  destruct Hk3 as (Hk3a & Hk3b & Hk3c & Hk3d), Hk5 as (Hk5a & Hk5b & Hk5c & Hk5d), Hk6 as (Hk6a & Hk6b & Hk6c & Hk6d).
  assert (H510 : ∀ cl, cset blk = Lens cl → 2 * limit PTTable ≤ Z.of_nat (length cl)).
  { intros cl Hcs. apply c_ok_set in Hc. rewrite Hcs in Hc. by destruct Hc as [-> _]. }
  apply HQ; [clear Hs Hs1 Hs2 Hs3 Hs4 Hs5; keep| | | |exact Hl6].
  - split; [|cbn; by rewrite Hcl6| |done| |done].
    + eapply set_decodes_ext; [..|by apply Hother]; done.
    + eapply set_decodes_ext; [..|exact Hd6]; done.
    + cbn. by rewrite Hk6b, Hk5b, Hk4c, Hk3b.
  - cbn. rewrite Hk6a, Hk5a, Hk4a, Hk3a, Hd2. by rewrite Hr1.
  - cbn. rewrite Hk6d, Hk5d, Hk4b, Hk3d, Hb2. by rewrite Hr1.
Qed.

(** ** DecodeC *)

(** What a token leaves alone. *)
Definition same_output (s s' : SCRATCH_DATA) : Prop := mDstBase s' = mDstBase s ∧ mPBit s' = mPBit s.

(** The character of a token. *)
Lemma char_streams blk n c l s (Q : Z → SCRATCH_DATA → Prop) :
  sd_ok orig out s → set_ok NC (cset blk) → ready blk n s → 1 ≤ n < 65536 → set_coded (cset blk) c →
  streams s (set_bits (cset blk) c ++ l) →
  (∀ s', sd_ok orig out s' → ready blk (n - 1) s' → same_output s s' → streams s' l → Q c s') →
  wpd P (BlockSize ← read mBlockSize;
      set_mBlockSize (cast UINT16 (BlockSize - 1));;
      Index2 ← lookup walk_fuel CTable 12 NC;
      l ← read mCLen; n ← get_at l Index2; FillBuf n;; mret Index2) Q s.
Proof.
  intros Hs Hok [Hc Hcl Hp Hpl Hsz Hfl] Hn Hcod Hl HQ. wpd_seq. wpd_set. wpd_seq. rewrite Hsz.
  rewrite cast_id by (done || (cint_unfold; lia)).
  match goal with |- wpd _ _ _ ?t => assert (Hs1 : sd_ok orig out t) by keep; assert (Hl1 := Hl : streams t _);
    assert (Hr1 : ready blk (n - 1) t) by (split; [by eapply set_decodes_ext; [..|exact Hc]|done|by eapply set_decodes_ext; [..|exact Hp]|done|done|done]);
    assert (Ho1 : same_output s t) by done; revert Hs1 Hl1 Hr1 Ho1; generalize t end.
  intros s1 Hs1 Hl1 Hr1 Ho1.
  eapply (lookup_set P orig out walk_fuel CTable); [done|exact Hok|apply Hr1|exact Hcod|exact Hl1|done|]. wpd_seq.
  destruct (set_length _ _ _ Hok Hcod) as (Hc0 & L & HL & HL16 & Hbits).
  eapply wpd_get_at; [lia|rewrite (rd_clen _ _ _ Hr1); exact HL|]. wpd_seq.
  eapply FillBuf_streams; [done|exact Hl1|done|lia|]. intros s2 Hs2 Hr2 Hl2. wpd_seq.
  apply HQ; [done|by eapply ready_read_on| |done]. destruct Ho1 as [Ha Hb]. split; rewrite Hr2; [exact Ha|exact Hb].
Qed.

(** The next character, in a block or at the start of one. *)
Lemma DecodeC_in_block blk n c l s (Q : Z → SCRATCH_DATA → Prop) :
  sd_ok orig out s → set_ok NC (cset blk) → ready blk n s → 1 ≤ n < 65536 → set_coded (cset blk) c →
  streams s (set_bits (cset blk) c ++ l) →
  (∀ s', sd_ok orig out s' → ready blk (n - 1) s' → same_output s s' → streams s' l → Q c s') →
  wpd P (DecodeC walk_fuel) Q s.
Proof.
  intros Hs Hlen Hr Hn Hcod Hl HQ. unfold DecodeC. wpd_seq. rewrite (rd_size _ _ _ Hr), (proj2 (Z.eqb_neq n 0)) by lia. apply wpd_ret.
  cbv iota. exact (char_streams blk n c l s Q Hs Hlen Hr Hn Hcod Hl HQ).
Qed.

Lemma DecodeC_new_block pbit blk t ts l s (Q : Z → SCRATCH_DATA → Prop) :
  sd_ok orig out s → mPBit s = pbit → mBlockSize s = 0 → block_ok pbit blk → tokens blk = t :: ts → streams s (block_bits pbit blk ++ l) →
  (∀ s', sd_ok orig out s' → ready blk (Z.of_nat (length ts)) s' → same_output s s' →
     streams s' (token_tail blk t ++ (ts ≫= token_bits blk) ++ l) → Q (token_char t) s') →
  wpd P (DecodeC walk_fuel) Q s.
Proof.
  intros Hs Hpb Hz Hblk Htok Hl HQ. unfold DecodeC. wpd_seq. rewrite Hz. cbn [Z.eqb].
  eapply read_tables_streams; [done|done|exact Hblk|exact Hl|]. intros s1 Hs1 Hr1 Hd1 Hb1 Hl1. cbv iota.
  rewrite Htok in Hl1, Hr1. cbn [mbind list_bind] in Hl1. rewrite token_bits_split, <-!app_assoc in Hl1.
  assert (Hsz := bo_size _ _ Hblk). rewrite Htok in Hsz. cbn [length] in Hsz, Hr1.
  eapply char_streams; [done|by eapply c_ok_set, bo_c|exact Hr1|lia| |exact Hl1|].
  - assert (Hall := bo_tokens _ _ Hblk). rewrite Htok in Hall. apply token_ok_char. by apply Forall_cons_1 in Hall as [? _].
  - intros s2 Hs2 Hr2 [Hd2 Hb2] Hl2. apply HQ; [done| |split; congruence|done].
    by replace (Z.of_nat (length ts)) with (Z.of_nat (S (length ts)) - 1) by lia.
Qed.

(** ** DecodeP *)

Lemma pos_class_range pos : 0 ≤ pos → 0 ≤ pos_class pos ∧ (1 < pos_class pos → 2 ^ (pos_class pos - 1) ≤ pos < 2 ^ pos_class pos).
Proof.
  intros Hp. unfold pos_class. destruct (Z.eqb_spec pos 0); [lia|]. pose proof (Z.log2_nonneg pos).
  split; [lia|]. intros _. rewrite Z.add_simpl_r. replace (Z.log2 pos + 1) with (Z.succ (Z.log2 pos)) by lia. apply Z.log2_spec. lia.
Qed.

Lemma pos_class_small pos : 0 ≤ pos → pos_class pos ≤ 1 → pos_class pos = pos.
Proof.
  intros Hp. unfold pos_class. destruct (Z.eqb_spec pos 0); [done|]. intros Hc. pose proof (Z.log2_nonneg pos).
  assert (Hl : Z.log2 pos = 0) by lia. rewrite Hl. apply Z.log2_null in Hl. lia.
Qed.

Lemma DecodeP_streams blk n len pos l s (Q : Z → SCRATCH_DATA → Prop) :
  sd_ok orig out s → ready blk n s → set_ok MAXNP (pset blk) → 0 ≤ pos → set_coded (pset blk) (pos_class pos) →
  streams s (token_tail blk (Pointer len pos) ++ l) →
  (∀ s', sd_ok orig out s' → ready blk n s' → same_output s s' → streams s' l → Q pos s') →
  wpd P (DecodeP walk_fuel) Q s.
Proof.
  intros Hs Hr Hok Hpos Hcod Hl HQ. cbn [token_tail] in Hl. rewrite <-app_assoc in Hl. unfold DecodeP. wpd_seq.
  eapply (lookup_set P orig out walk_fuel PTTable); [done|exact Hok|apply Hr|exact Hcod|exact Hl|done|]. wpd_seq.
  destruct (pos_class_range pos Hpos) as [Hcl0 Hcl]. destruct (set_length _ _ _ Hok Hcod) as (Hcl31 & L & HL & HL16 & Hbits).
  change MAXNP with 31 in Hcl31. eapply wpd_get_at; [lia|eapply length_lookup; [apply Hr|exact HL]|]. wpd_seq.
  eapply FillBuf_streams; [done|exact Hl|done|lia|]. intros s1 Hs1 Hr1 Hl1.
  rewrite Z.gtb_ltb. destruct (Z.ltb_spec 1 (pos_class pos)) as [H1|H1]; wpd_seq.
  - specialize (Hcl H1). assert (Hpow : 2 ^ (pos_class pos) = 2 * 2 ^ (pos_class pos - 1)) by (rewrite <-Z.pow_succ_r by lia; f_equal; lia).
    assert (Hp29 : 2 ^ (pos_class pos - 1) ≤ 2 ^ 29) by (apply Z.pow_le_mono_r; lia).
    eapply wpd_some; [unfold c_shl32; by rewrite (proj2 (Z.leb_le _ _)), (proj2 (Z.ltb_lt _ _)) by lia|]. wpd_seq.
    eapply GetBits_streams; [done|exact Hl1|lia|lia|]. intros s2 Hs2 Hr2 Hl2. wpd_seq. rewrite Z.shiftl_1_l.
    rewrite (cast_id UINT32 (2 ^ _)) by (done || (cint_unfold; lia)). replace (2 ^ (pos_class pos - 1) + (pos - 2 ^ (pos_class pos - 1))) with pos by lia.
    rewrite cast_id by (done || (cint_unfold; lia)). apply HQ; [done|by do 2 (eapply ready_read_on; [done|])| |done].
    split; by rewrite Hr2, Hr1.
  - rewrite pos_class_small by lia. apply HQ; [done|by eapply ready_read_on|split; by rewrite Hr1|done].
Qed.
End tokens.

(** ** Decoding blocks

    The loop of Decode on the blocks of the format: every token appends what it stands
    for, and behind the last block the zeros that pad the source end the loop. *)

(** ** Output *)

Definition with_output (s : SCRATCH_DATA) (Dst : list Z) (Out : Z) : SCRATCH_DATA :=
  Sd (mSrcBase s) Dst Out (mInBuf s) (mBitCount s) (mBitBuf s) (mSubBitBuf s) (mBlockSize s) (mCompSize s) (mOrigSize s)
    (mBadTableFlag s) (mLeft s) (mRight s) (mCLen s) (mPTLen s) (mCTable s) (mPTTable s) (mPBit s).

(** Only the output has changed. *)
Definition out_on (s s' : SCRATCH_DATA) : Prop := s' = with_output s (mDstBase s') (mOutBuf s').

Lemma out_on_refl s : out_on s s.
Proof. by destruct s. Qed.

Lemma out_on_trans s1 s2 s3 : out_on s1 s2 → out_on s2 s3 → out_on s1 s3.
Proof. unfold out_on. intros H12 H23. by rewrite H12 in H23. Qed.

Lemma streams_out_on s s' l : out_on s s' → streams s l → streams s' l.
Proof. by intros ->. Qed.

Lemma ready_out_on blk n s s' : out_on s s' → ready blk n s → ready blk n s'.
Proof.
  intros Ho [Hc Hcl Hp Hpl Hsz Hfl]. split; [|by rewrite Ho| |by rewrite Ho|by rewrite Ho|by rewrite Ho].
  - eapply set_decodes_ext; [..|exact Hc]; by rewrite Ho.
  - eapply set_decodes_ext; [..|exact Hp]; by rewrite Ho.
Qed.

Lemma copy_length n pos o o' : copy n pos o = Some o' → length o' = (length o + n)%nat.
Proof.
  revert o. induction n as [|n IH]; intros o Hc; cbn [copy] in Hc; [injection Hc as ->; lia|].
  apply bind_Some in Hc as (v & _ & Hc). rewrite (IH _ Hc), length_app. cbn. lia.
Qed.

(** Tokens only append. *)
Lemma copy_app n pos o o' : copy n pos o = Some o' → ∃ k, o' = o ++ k.
Proof.
  revert o. induction n as [|n IH]; intros o Hc; cbn [copy] in Hc; [injection Hc as ->; exists []; by rewrite app_nil_r|].
  apply bind_Some in Hc as (v & _ & Hc). apply IH in Hc as [k ->]. exists (v :: k). by rewrite <-app_assoc.
Qed.

Lemma expand_app ts o o' : expand ts o = Some o' → ∃ k, o' = o ++ k.
Proof.
  revert o. induction ts as [|t ts IH]; intros o He; cbn [expand] in He; [injection He as ->; exists []; by rewrite app_nil_r|].
  apply bind_Some in He as (o1 & Ht & He). apply IH in He as [k ->].
  assert (∃ k1, o1 = o ++ k1) as [k1 ->].
  { destruct t; cbn [expand_token] in Ht; [injection Ht as <-; by eexists|by eapply copy_app]. }
  exists (k1 ++ k). by rewrite app_assoc.
Qed.

Section decode.
Context (P : Prop) (orig : Z).

Lemma put_byte_written o v s (Q : unit → SCRATCH_DATA → Prop) :
  sd_ok orig (Z.of_nat (length o)) s → written o s → Z.of_nat (length o) < orig → 0 ≤ v < 256 →
  (∀ s', sd_ok orig (Z.of_nat (length (o ++ [v]))) s' → written (o ++ [v]) s' → out_on s s' → Q tt s') → wpd P (put_byte v) Q s.
Proof.
  intros Hs Hw Hlt Hv HQ. unfold put_byte. destruct (so_size _ _ _ Hs), (so_dst _ _ _ Hs) as [Hdl Hdb]. wpd_seq. rewrite (so_out _ _ _ Hs).
  apply wpd_put_at; [lia|]. wpd_seq. wpd_set. rewrite cast_id by (done || (cint_unfold; lia)). wpd_set.
  assert (Harr := arr_insert _ _ _ (Z.to_nat (Z.of_nat (length o))) v (so_dst _ _ _ Hs) Hv).
  assert (Hlen : Z.of_nat (length (o ++ [v])) = Z.of_nat (length o) + 1) by (rewrite length_app; cbn; lia).
  apply HQ; [|unfold written; cbn [mDstBase]|done].
  - rewrite Hlen. destruct Hs as [[] ? ? ? ? ? ? ? ? ? ? ?]; split; [split|..]; try done. cbn. lia.
  - replace (length (o ++ [v])) with (S (length o)) by lia. rewrite Nat2Z.id.
    rewrite (take_S_r _ _ v) by (rewrite list_lookup_insert_eq by lia; done). rewrite take_insert_ge by lia. by rewrite Hw.
Qed.

Lemma copy_streams n pos fuel o o' s (Q : bool → SCRATCH_DATA → Prop) :
  sd_ok orig (Z.of_nat (length o)) s → written o s → copy n pos o = Some o' → Z.of_nat (length o') ≤ orig → 0 ≤ pos →
  (n < fuel)%nat → Z.of_nat n < 32768 →
  (∀ s', sd_ok orig (Z.of_nat (length o')) s' → written o' s' → out_on s s' → Q false s') →
  wpd P (copy_loop fuel (cast UINT16 (Z.of_nat n - 1)) (cast UINT32 (Z.of_nat (length o) - pos - 1))) Q s.
Proof.
  revert fuel o s. induction n as [|n IH]; intros [|fuel] o s Hs Hw Hcopy Hle Hpos Hf Hn HQ; try lia; cbn [copy_loop copy] in *.
  { injection Hcopy as ->. change (negb (cast INT16 (cast UINT16 (Z.of_nat 0 - 1)) >=? 0)) with true. cbv iota. wpd_seq.
    apply HQ; [done|done|apply out_on_refl]. }
  apply bind_Some in Hcopy as (v & Hv & Hcopy). assert (Hlen := copy_length _ _ _ _ Hcopy). rewrite length_app in Hlen. cbn [length] in Hlen.
  destruct (Z.leb_spec 0 (Z.of_nat (length o) - pos - 1)) as [H0|]; [|done]. destruct (so_size _ _ _ Hs).
  rewrite (cast_id UINT16 (Z.of_nat (S n) - 1)), (cast_id INT16) by (done || (cint_unfold; lia)).
  rewrite (cast_id UINT32 (Z.of_nat (length o) - pos - 1)) by (done || (cint_unfold; lia)).
  rewrite Z.geb_leb, (proj2 (Z.leb_le 0 _)) by lia. cbn [negb]. wpd_seq. rewrite (so_out _ _ _ Hs), (so_orig _ _ _ Hs).
  rewrite !Z.geb_leb, !(proj2 (Z.leb_gt orig _)) by lia. wpd_seq.
  assert (Hat : mDstBase s !! Z.to_nat (Z.of_nat (length o) - pos - 1) = Some v) by by eapply length_lookup.
  eapply wpd_get_at; [lia|exact Hat|]. wpd_seq.
  assert (Hrange : 0 ≤ v < 256) by by apply (Forall_lookup_1 _ _ _ _ (proj2 (so_dst _ _ _ Hs)) Hat).
  eapply put_byte_written; [done|done|lia|done|]. intros s1 Hs1 Hw1 Ho1.
  replace (Z.of_nat (S n) - 1 - 1) with (Z.of_nat n - 1) by lia.
  replace (Z.of_nat (length o) - pos - 1 + 1) with (Z.of_nat (length (o ++ [v])) - pos - 1) by (rewrite length_app; cbn [length]; lia).
  apply IH; [done|done|done|done|done|lia|lia|]. intros s2 Hs2 Hw2 Ho2. apply HQ; [done|done|by eapply out_on_trans].
Qed.
End decode.
