(* ===== verification/DecompressBlocks.v ===== *)
(** * Decoding a compressed source

    The state of the decoder between two tokens, the end of the source, and the whole
    of UefiTianoDecompress on what the encoder of DecompressFormat writes. *)
From S2P Require Import Prelude CBase Math64 Decompress DecompressBits DecompressSafe DecompressRun DecompressCodes.
From S2P Require Import DecompressFormat DecompressTable DecompressChars DecompressLens.
From S2P Require Import DecompressTokens.
Local Open Scope Z_scope.

(** ** The end of the source *)

Lemma streams_zeros s n : streams s [] → streams s (low_bits n 0 ++ []).
Proof.
  intros Hs i. rewrite Hs, app_nil_r. destruct (Nat.lt_ge_cases i n).
  - rewrite bit_low_bits by done. by rewrite Z.bits_0.
  - by rewrite !bit_beyond by (rewrite ?length_low_bits; cbn; lia).
Qed.

Section padding.
Context (P : Prop) (orig out : Z).

Lemma GetBits_zeros n s (Q : Z → SCRATCH_DATA → Prop) :
  sd_ok orig out s → streams s [] → 1 ≤ n ≤ 32 →
  (∀ s', sd_ok orig out s' → read_on s s' → streams s' [] → Q 0 s') → wpd P (GetBits n) Q s.
Proof. intros Hs Hl Hn HQ. eapply GetBits_streams; [done|by apply streams_zeros|done|lia|done]. Qed.

Lemma ReadPTLen_zeros nn nbit Special s (Q : Z → SCRATCH_DATA → Prop) :
  sd_ok orig out s → streams s [] → 0 ≤ nn ≤ NPT → 1 ≤ nbit ≤ 5 →
  (∀ s', sd_ok orig out s' → streams s' [] → mDstBase s' = mDstBase s → mCLen s' = mCLen s → mCTable s' = mCTable s →
     mPBit s' = mPBit s → mBlockSize s' = mBlockSize s → Q 0 s') →
  wpd P (ReadPTLen nn nbit Special) Q s.
Proof.
  intros Hs Hl Hn Hb HQ. unfold ReadPTLen. wpd_seq. apply wpd_require; [apply Z.leb_le; lia|]. wpd_seq.
  eapply GetBits_zeros; [done|done|lia|]. intros s1 Hs1 Hr1 Hl1. cbv zeta. change (cast UINT16 0 =? 0) with true. cbv iota. wpd_seq.
  eapply GetBits_zeros; [done|done|lia|]. intros s2 Hs2 Hr2 Hl2. wpd_seq. destruct (so_pttable _ _ _ Hs2) as [Hpl _]. rewrite Hpl.
  eapply wpd_range_arr; [apply Hs2|done|done|done|done|]. intros l1 Harr1. wpd_seq. wpd_set. wpd_seq.
  eapply wpd_range_arr; [apply Hs2|lia|lia|lia|done|]. intros l2 Harr2. wpd_seq. wpd_set. wpd_seq.
  apply HQ; [clear Hs Hs1; keep|exact Hl2|..]; cbn; by rewrite Hr2, Hr1.
Qed.

Lemma ReadCLen_zeros walk_fuel s (Q : unit → SCRATCH_DATA → Prop) :
  sd_ok orig out s → streams s [] →
  (∀ s', sd_ok orig out s' → streams s' [] → mDstBase s' = mDstBase s → arr NC 1 (mCLen s') → arr 4096 1 (mCTable s') →
     mPBit s' = mPBit s → mBlockSize s' = mBlockSize s → Q tt s') →
  wpd P (ReadCLen walk_fuel) Q s.
Proof.
  intros Hs Hl HQ. unfold ReadCLen. wpd_seq. eapply GetBits_zeros; [done|done|unfold CBIT; lia|]. intros s1 Hs1 Hr1 Hl1. cbv zeta.
  change (cast UINT16 0 =? 0) with true. cbv iota. wpd_seq. eapply GetBits_zeros; [done|done|unfold CBIT; lia|]. intros s2 Hs2 Hr2 Hl2. wpd_seq.
  destruct (so_clen _ _ _ Hs2) as [Hcl _], (so_ctable _ _ _ Hs2) as [Hct _].
  apply wpd_set_range; [done|done|lia|]. rewrite set_range_all by done. wpd_seq. wpd_set. wpd_seq. cbn [mCTable]. rewrite Hct.
  apply wpd_set_range; [done|done|cbn [mCTable]; lia|]. rewrite set_range_all by done. wpd_set.
  change (cast UINT16 0) with 0. assert (H1 : arr NC 17 (replicate (Z.to_nat NC) 0)) by by apply arr_replicate.
  assert (H2 : arr 4096 NODES (replicate (Z.to_nat 4096) 0)) by by apply arr_replicate.
  apply HQ; [clear Hs Hs1; keep|exact Hl2|cbn; by rewrite Hr2, Hr1|by apply arr_replicate|by apply arr_replicate|cbn; by rewrite Hr2, Hr1..].
Qed.

(** Behind the last block the decoder reads a block of zeros and the character 0. *)
Lemma DecodeC_zeros walk_fuel s (Q : Z → SCRATCH_DATA → Prop) :
  sd_ok orig out s → streams s [] → mBlockSize s = 0 →
  (∀ s', sd_ok orig out s' → mBadTableFlag s' = 0 → mDstBase s' = mDstBase s → Q 0 s') → wpd P (DecodeC walk_fuel) Q s.
Proof.
  intros Hs Hl Hz HQ. unfold DecodeC. wpd_seq. rewrite Hz. cbn [Z.eqb]. unfold read_tables. wpd_seq.
  eapply GetBits_zeros; [done|done|lia|]. intros s1 Hs1 Hr1 Hl1. wpd_seq. wpd_set. wpd_seq.
  eapply ReadPTLen_zeros; [clear Hs; keep|exact Hl1|done|done|]. intros s2 Hs2 Hl2 Hd2 _ _ _ Hz2. wpd_seq. wpd_set. cbn [Z.eqb negb]. wpd_seq.
  eapply ReadCLen_zeros; [clear Hs Hs1; keep|exact Hl2|]. intros s3 Hs3 Hl3 Hd3 Hcl3 Hct3 _ Hz3. wpd_seq.
  eapply ReadPTLen_zeros; [done|done|done|destruct (so_pbit _ _ _ Hs3); lia|]. intros s4 Hs4 Hl4 Hd4 Hcl4 Hct4 _ Hz4.
  wpd_seq. wpd_set. cbn [Z.eqb negb]. wpd_seq. wpd_set. wpd_seq. unfold lookup. wpd_seq. cbn [mBitBuf]. unfold BITBUFSIZ.
  eapply wpd_some; [apply c_shr32_ok; lia|]. wpd_seq. cbn [get_table]. wpd_seq. cbn [mCTable]. rewrite <-Hct4 in Hct3. rewrite <-Hcl4 in Hcl3.
  eapply wpd_get_arr; [exact Hct3| |].
  { pose proof (shiftr_bound (mBitBuf s4) 12 (ro_buf _ (so_reader _ _ _ Hs4)) ltac:(lia)). lia. }
  intros v Hv. assert (v = 0) as -> by lia. change (0 >=? NC) with false. cbv iota. wpd_seq. cbn [mCLen].
  eapply wpd_get_arr; [exact Hcl3|done|]. intros n Hn. assert (n = 0) as -> by lia. wpd_seq.
  eapply FillBuf_safe; [clear Hs Hs1 Hs2 Hs3; keep|done|]. intros s5 Hs5 Hr5. wpd_seq. apply HQ; [done|by rewrite Hr5|].
  rewrite Hr5. cbn. rewrite Hd4, Hd3. cbn. rewrite Hd2. cbn. by rewrite Hr1.
Qed.
End padding.

(** ** Between two tokens *)

(** The tokens [ts] of block [blk] are left, then the blocks [bs]. *)
Record decoding (pbit : Z) (blk : block) (ts : list token) (bs : list block) (tail : list bool) (s : SCRATCH_DATA) : Prop := Decoding {
  de_pbit : mPBit s = pbit;
  de_size : mBlockSize s = Z.of_nat (length ts);
  de_flag : mBadTableFlag s = 0;
  de_fit : Z.of_nat (length ts) < 65536;
  de_block : ts ≠ [] → ready blk (Z.of_nat (length ts)) s ∧ block_ok pbit blk ∧ Forall (token_ok blk) ts;
  de_blocks : Forall (block_ok pbit) bs;
  de_stream : streams s (tail ++ (ts ≫= token_bits blk) ++ (bs ≫= block_bits pbit)) }.

Definition left_tokens (ts : list token) (bs : list block) : list token := ts ++ (bs ≫= tokens).

Lemma decoding_out_on pbit blk ts bs tail s s' : out_on s s' → decoding pbit blk ts bs tail s → decoding pbit blk ts bs tail s'.
Proof.
  intros Ho [Hp Hz Hf Hfit Hb Hbs Hst]. split; [by rewrite Ho|by rewrite Ho|by rewrite Ho|done| |done|by eapply streams_out_on].
  intros H. destruct (Hb H) as (Hr & Hok). split; [by eapply ready_out_on|done].
Qed.

Section loop.
Context (P : Prop) (orig : Z) (walk_fuel : nat) (Hwalk : 16 ≤ Z.of_nat walk_fuel) (pbit : Z).

Lemma ready_decoding blk ts bs tail s : mPBit s = pbit → Z.of_nat (length ts) < 65536 → ready blk (Z.of_nat (length ts)) s →
  block_ok pbit blk → Forall (token_ok blk) ts → Forall (block_ok pbit) bs →
  streams s (tail ++ (ts ≫= token_bits blk) ++ (bs ≫= block_bits pbit)) → decoding pbit blk ts bs tail s.
Proof. intros Hp Hfit Hr Hok Hts Hbs Hst. by split; try apply Hr. Qed.

(** The character of the next token, in this block or the next. *)
Lemma next_char out blk ts bs t rest s (Q : Z → SCRATCH_DATA → Prop) :
  sd_ok orig out s → decoding pbit blk ts bs [] s → left_tokens ts bs = t :: rest →
  (∀ blk' ts' bs' s', sd_ok orig out s' → decoding pbit blk' ts' bs' (token_tail blk' t) s' →
     ready blk' (Z.of_nat (length ts')) s' → block_ok pbit blk' → token_ok blk' t → Forall (token_ok blk') ts' →
     left_tokens ts' bs' = rest → mDstBase s' = mDstBase s → Q (token_char t) s') →
  wpd P (DecodeC walk_fuel) Q s.
Proof.
  intros Hs [Hp Hz Hf Hfit Hb Hbs Hst] Hleft HQ. cbn [app] in Hst. destruct ts as [|t' ts].
  - destruct bs as [|b bs]; [done|]. apply Forall_cons in Hbs as [Hok Hbs]. cbn [mbind list_bind app] in Hst.
    destruct (tokens b) as [|t' ts] eqn:Htok; [pose proof (bo_size _ _ Hok) as Hsz; rewrite Htok in Hsz; cbn in Hsz; lia|].
    unfold left_tokens in Hleft. cbn [mbind list_bind app] in Hleft. rewrite Htok in Hleft. cbn [app] in Hleft. injection Hleft as -> Hrest.
    assert (Hall := bo_tokens _ _ Hok). rewrite Htok in Hall. apply Forall_cons in Hall as [Ht Hts].
    assert (Hsz := bo_size _ _ Hok). rewrite Htok in Hsz. cbn [length] in Hsz.
    eapply (DecodeC_new_block P orig out walk_fuel Hwalk pbit b t ts); [done|done|by rewrite Hz|done|done|exact Hst|].
    intros s1 Hs1 Hr1 [Hd1 Hb1] Hl1. apply (HQ b ts bs); [done| |done|done|done|done|done|done].
    apply ready_decoding; [congruence|lia|done..].
  - destruct Hb as (Hr & Hok & Hts); [done|]. apply Forall_cons in Hts as [Ht Hts]. unfold left_tokens in Hleft. cbn [app] in Hleft.
    injection Hleft as -> Hrest. cbn [mbind list_bind] in Hst. rewrite token_bits_split, <-!app_assoc in Hst. cbn [length] in *.
    eapply (DecodeC_in_block P orig out walk_fuel Hwalk blk); [done|by eapply c_ok_set, bo_c|exact Hr|lia|by apply token_ok_char|exact Hst|].
    intros s1 Hs1 Hr1 [Hd1 Hb1] Hl1. replace (Z.of_nat (S (length ts)) - 1) with (Z.of_nat (length ts)) in Hr1 by lia.
    apply (HQ blk ts bs); [done| |done|done|done|done|done|done]. apply ready_decoding; [congruence|lia|done..].
Qed.

(** The output is complete. *)
Definition complete_output (final : list Z) (s : SCRATCH_DATA) : Prop := mBadTableFlag s = 0 ∧ mDstBase s = final.

Lemma written_all o s : sd_ok orig (Z.of_nat (length o)) s → written o s → Z.of_nat (length o) = orig → mDstBase s = o.
Proof.
  intros Hs Hw Hlen. destruct (so_dst _ _ _ Hs) as [Hdl _]. rewrite <-Hw. unfold written in Hw. by rewrite take_ge by lia.
Qed.

Lemma decode_loop_streams fuel blk ts bs o final s (Q : unit → SCRATCH_DATA → Prop) :
  sd_ok orig (Z.of_nat (length o)) s → decoding pbit blk ts bs [] s → written o s →
  expand (left_tokens ts bs) o = Some final → Z.of_nat (length final) = orig → orig - Z.of_nat (length o) + 1 < Z.of_nat fuel →
  (∀ s', complete_output final s' → Q tt s') → wpd P (decode_loop walk_fuel fuel) Q s.
Proof.
  revert blk ts bs o s. induction fuel as [|fuel IH]; intros blk ts bs o s Hs Hde Hw Hexp Hfinal Hfuel HQ.
  { destruct (so_size _ _ _ Hs). lia. }
  cbn [decode_loop]. wpd_seq. destruct (left_tokens ts bs) as [|t rest] eqn:Hleft.
  - cbn [expand] in Hexp. injection Hexp as ->. assert (Hdst := written_all _ _ Hs Hw Hfinal).
    unfold left_tokens in Hleft. apply app_eq_nil in Hleft as [-> Hbs].
    assert (bs = []) as ->.
    { destruct bs as [|b bs]; [done|]. exfalso. cbn [mbind list_bind] in Hbs. apply app_eq_nil in Hbs as [Hb _].
      pose proof (de_blocks _ _ _ _ _ _ Hde) as Hok. apply Forall_cons in Hok as [Hok _]. apply bo_size in Hok. rewrite Hb in Hok. cbn in Hok. lia. }
    eapply DecodeC_zeros; [done|apply (de_stream _ _ _ _ _ _ Hde)|apply (de_size _ _ _ _ _ _ Hde)|]. intros s1 Hs1 Hf1 Hd1. wpd_seq.
    rewrite Hf1. cbn [Z.eqb negb Z.ltb Z.compare]. wpd_seq. rewrite (so_out _ _ _ Hs1), (so_orig _ _ _ Hs1), Z.geb_leb, (proj2 (Z.leb_le _ _)) by lia.
    wpd_seq. apply HQ. split; [done|congruence].
  - cbn [expand] in Hexp. apply bind_Some in Hexp as (o1 & Hone & Hexp). destruct (expand_app _ _ _ Hexp) as [k Hk].
    assert (Hlen1 : Z.of_nat (length o1) ≤ orig) by (rewrite <-Hfinal, Hk, length_app; lia).
    eapply next_char; [done|exact Hde|done|]. intros blk' ts' bs' s1 Hs1 Hde1 Hr1 Hok1 Ht1 Hts1 Hleft1 Hd1.
    assert (Hw1 : written o s1) by (unfold written; by rewrite Hd1). clear s Hs Hde Hw Hleft Hd1. wpd_seq.
    rewrite (de_flag _ _ _ _ _ _ Hde1). cbn [Z.eqb negb]. destruct t as [v|len pos]; cbn [token_char token_ok expand_token token_tail] in *.
    + destruct Ht1 as [Hv _]. injection Hone as <-. rewrite length_app in Hlen1. cbn [length] in Hlen1. rewrite (proj2 (Z.ltb_lt _ _)) by lia. wpd_seq.
      rewrite (so_out _ _ _ Hs1), (so_orig _ _ _ Hs1), Z.geb_leb, (proj2 (Z.leb_gt _ _)) by lia. wpd_seq.
      rewrite cast_id by (done || (cint_unfold; lia)). eapply put_byte_written; [done|done|lia|lia|]. intros s2 Hs2 Hw2 Ho2.
      eapply (IH blk' ts' bs'); [done|by eapply decoding_out_on|done|by rewrite Hleft1|done|rewrite length_app; cbn [length]; lia|done].
    + destruct Ht1 as (Hlen & Hpos & Hcc & Hcp). unfold MAXMATCH in Hlen. assert (Hcl := copy_length _ _ _ _ Hone).
      rewrite (proj2 (Z.ltb_ge _ _)) by lia. unfold BIT8, THRESHOLD. cbv zeta. replace (len + 253 - (256 - 3)) with len by lia.
      rewrite (cast_id UINT16 len) by (done || (cint_unfold; lia)). wpd_seq. rewrite (so_out _ _ _ Hs1).
      eapply (DecodeP_streams P orig _ walk_fuel Hwalk blk' _ len); [done|exact Hr1|by eapply pt_ok_set, bo_p|done|done|exact (de_stream _ _ _ _ _ _ Hde1)|].
      intros s2 Hs2 Hr2 [Hd2 Hb2] Hl2. wpd_seq. replace len with (Z.of_nat (Z.to_nat len)) at 2 by lia.
      eapply (copy_streams P orig (Z.to_nat len) pos _ o o1); [done|unfold written; by rewrite Hd2|done|done|done|lia|lia|].
      intros s3 Hs3 Hw3 Ho3. cbv iota. wpd_seq. rewrite (so_out _ _ _ Hs3), (so_orig _ _ _ Hs3), Z.geb_leb.
      assert (Hde3 : decoding pbit blk' ts' bs' [] s3).
      { eapply decoding_out_on; [done|].
        apply ready_decoding; [rewrite Hb2; apply Hde1|apply Hde1|done|done|done|apply Hde1|done]. }
      destruct (Z.leb_spec orig (Z.of_nat (length o1))) as [Hend|Hmore].
      * wpd_seq. apply HQ. split; [apply Hde3|]. rewrite (written_all _ _ Hs3 Hw3) by lia. rewrite Hk.
        rewrite Hk, length_app in Hfinal. assert (length k = 0%nat) as ->%nil_length_inv by lia. by rewrite app_nil_r.
      * eapply (IH blk' ts' bs'); [done|done|done|by rewrite Hleft1|done|lia|done].
Qed.
End loop.

(** ** The compressed source *)

Lemma pack_bytes l : bytes (pack l).
Proof. unfold bytes, pack. apply Forall_fmap, Forall_true. intros i. apply byte_of_range. Qed.

Lemma le32_bytes n : bytes (le32 n).
Proof. unfold bytes, le32. repeat constructor; apply Z.mod_pos_bound; lia. Qed.

Section encoded.
Context (pbit : Z) (blocks : list block) (final : list Z).
Abbreviation size := (Z.of_nat (length final)).
Abbreviation payload := (pack (blocks ≫= block_bits pbit)).
Abbreviation source := (encode pbit blocks size).
Context (Hfit : Z.of_nat (length source) < 2 ^ 32) (Hsize : size < 2 ^ 32).

Lemma source_length : Z.of_nat (length source) = 8 + Z.of_nat (length payload).
Proof. unfold encode. rewrite !length_app. cbn [length le32]. lia. Qed.

Lemma source_sizes : le32_at source 0 = Some (Z.of_nat (length payload)) ∧ le32_at source 4 = Some size.
Proof.
  pose proof source_length. unfold encode. split.
  - apply (le32_at_le32 _ _ []); [lia|by left].
  - apply (le32_at_le32 _ _ (le32 (Z.of_nat (length payload)))); [lia|by right].
Qed.

Lemma source_bytes : bytes source.
Proof. unfold encode, bytes. rewrite !Forall_app. split; [apply le32_bytes|]. split; [apply le32_bytes|apply pack_bytes]. Qed.

Lemma source_info sz : UefiDecompressGetInfo sz source (Z.of_nat (length source)) = Some (RETURN_SUCCESS, Some (size, sz)).
Proof.
  destruct source_sizes as [H0 H4]. pose proof source_length as Hlen. unfold UefiDecompressGetInfo. rewrite H0, H4. cbn [mbind option_bind].
  rewrite (cast_id UINT32) by (done || (cint_unfold; lia)). rewrite !(proj2 (Z.ltb_ge _ _)) by lia. done.
Qed.

(** The bits of the blocks are what the decoder reads. *)
Lemma loaded (P : Prop) Destination (Q : unit → SCRATCH_DATA → Prop) :
  (pbit = 4 ∨ pbit = 5) → bytes Destination → Z.of_nat (length Destination) = size →
  let s := initial (drop 8 source) Destination (Z.of_nat (length payload)) size pbit in
  (∀ s', sd_ok size 0 s' → read_on s s' → streams s' (blocks ≫= block_bits pbit) → Q tt s') → wpd P (FillBuf BITBUFSIZ) Q s.
Proof.
  intros Hp HD HDl s HQ. pose proof source_length.
  assert (Hs : sd_ok size 0 s) by (apply initial_ok; try done; [apply source_bytes|lia..]).
  apply FillBuf_spec; [apply Hs|done|]. intros s' Hs' Hr Hb. apply HQ; [by eapply sd_ok_read_on|done|].
  intros i. rewrite Hb. unfold s. rewrite (initial_stream _ _ _ _ _ i). change (drop 8 source) with payload.
  rewrite Nat2Z.id, firstn_all. apply pack_bits.
Qed.
End encoded.

(** C3: UefiDecompress and UefiTianoDecompress invert every encoding of the format: the
    three sets of a block are complete code lengths (up to 16 bits) or a single
    character whose code has no bits, written in any of the ways the format has (a count
    of lengths behind which the rest are zero, a run of up to 3 zeros behind the special
    index, single zeros, short and long runs of zeros, also past the last character);
    its 1 to 65535 literals and pointers have codes and refer to bytes already written. Then
    UefiDecompressGetInfo reports the size of the original and the decompression of the
    encoded bits succeeds with the bytes that the tokens stand for, whatever the
    destination held. *)
Theorem decompress_encoded sz Version pbit blocks final Destination walk_fuel :
  (Version = 1 ∧ pbit = 4) ∨ (Version = 2 ∧ pbit = 5) → Forall (block_ok pbit) blocks →
  expand (blocks ≫= tokens) [] = Some final →
  Z.of_nat (length (encode pbit blocks (Z.of_nat (length final)))) < 2 ^ 32 → Z.of_nat (length final) < 2 ^ 32 →
  bytes Destination → length Destination = length final → 16 ≤ Z.of_nat walk_fuel →
  let Source := encode pbit blocks (Z.of_nat (length final)) in
  UefiDecompressGetInfo sz Source (Z.of_nat (length Source)) = Some (RETURN_SUCCESS, Some (Z.of_nat (length final), sz)) ∧
  UefiTianoDecompress walk_fuel Source Destination Version = Returns RETURN_SUCCESS final.
Proof.
  intros HV Hblocks Hexp Hfit Hsize HD HDl Hwalk Source. split; [by apply source_info|].
  destruct (source_sizes pbit blocks final Hfit Hsize) as [H0 H4]. unfold UefiTianoDecompress, Source. rewrite H0, H4.
  replace (negb ((Version =? 1) || (Version =? 2))) with false by (by destruct HV as [[-> _]|[-> _]]).
  replace (if Version =? 1 then 4 else 5) with pbit by (by destruct HV as [[-> ->]|[-> ->]]).
  destruct (Z.eqb_spec (Z.of_nat (length final)) 0) as [Hz|Hz].
  { assert (final = []) as -> by (apply nil_length_inv; lia). apply nil_length_inv in HDl. by rewrite HDl. }
  set (s := initial _ _ _ _ _).
  assert (Hrun : wpd False (tiano_body walk_fuel) (λ st s', st = RETURN_SUCCESS ∧ mDstBase s' = final) s).
  { unfold tiano_body. wpd_seq. apply (loaded pbit blocks final Hfit Hsize); [by destruct HV as [[_ ->]|[_ ->]]; auto|done|lia|].
    intros s1 Hs1 Hr1 Hl1. unfold Decode. wpd_seq. rewrite (so_orig _ _ _ Hs1).
    eapply (decode_loop_streams False (Z.of_nat (length final)) walk_fuel Hwalk pbit _ (Block (PtSingle 0) (CSingle 0) (PtSingle 0) []) [] blocks []);
      [exact Hs1| |done|exact Hexp|done|cbn [length]; lia|].
    - split; [by rewrite Hr1|by rewrite Hr1|by rewrite Hr1|done|done|done|exact Hl1].
    - intros s2 [Hf Hd]. wpd_seq. by rewrite Hf. }
  unfold wpd in Hrun. destruct (tiano_body walk_fuel s) as [st s'| | |]; [|done..]. by destruct Hrun as [-> ->].
Qed.

(** ** The decompressor on concrete sources

    Runs of the model, and each theorem at an input where its hypotheses hold. *)

(** ** Deciding well-formedness *)

Definition codedb (lens : list Z) (c : Z) : bool :=
  (0 <=? c) && match lens !! Z.to_nat c with Some L => (1 <=? L) && (L <=? 16) | None => false end.

Definition lens_okb (n : Z) (lens : list Z) : bool :=
  (Z.of_nat (length lens) =? n) && forallb (λ v, (0 <=? v) && (v <=? 16)) lens && (base lens 17 =? 2 ^ 16).

Definition set_okb (n : Z) (S : set_code) : bool := match S with Lens lens => lens_okb n lens | Single c => (0 <=? c) && (c <? n) end.
Definition set_codedb (S : set_code) (c : Z) : bool := match S with Lens lens => codedb lens c | Single d => c =? d end.
Definition zerosb (l : list Z) : bool := forallb (λ L, L =? 0) l.

Definition pt_okb (n nbit special : Z) (h : pt_header) : bool :=
  match h with
  | PtLens num zeros lens => lens_okb n lens && (1 <=? num) && (num <=? n) && (num <? 2 ^ nbit) && zerosb (drop (Z.to_nat num) lens) &&
      ((num <? special) || ((0 <=? zeros) && (zeros <? 4) && zerosb (take (Z.to_nat zeros) (drop (Z.to_nat special) lens))))
  | PtSingle c => (0 <=? c) && (c <? n) && (c <? 2 ^ nbit)
  end.

Definition item_okb (T : set_code) (it : c_item) : bool :=
  match it with
  | CLen L => (1 <=? L) && (L <=? 16) && set_codedb T (L + 2)
  | COne => set_codedb T 0
  | CRun4 n => (3 <=? n) && (n <? 19) && set_codedb T 1
  | CRun9 n => (20 <=? n) && (n <? 532) && set_codedb T 2
  end.

Fixpoint items_fitb (num i : Z) (items : list c_item) : bool :=
  match items with
  | [] => (num <=? i) || (NC <=? i)
  | it :: items => (i <? num) && (i <? NC) && items_fitb num (Z.min NC (i + Z.of_nat (length (item_lens it)))) items
  end.

Definition c_okb (T : set_code) (h : c_header) : bool :=
  match h with
  | CLens num items => (1 <=? num) && (num <? 512) && items_fitb num 0 items && forallb (item_okb T) items && lens_okb NC (c_lens items)
  | CSingle c => (0 <=? c) && (c <? NC)
  end.

Definition token_okb (blk : block) (t : token) : bool :=
  match t with
  | Literal v => (0 <=? v) && (v <? 256) && set_codedb (cset blk) v
  | Pointer len pos => (3 <=? len) && (len <=? MAXMATCH) && (0 <=? pos) && set_codedb (cset blk) (len + 253) && set_codedb (pset blk) (pos_class pos)
  end.

Definition block_okb (pbit : Z) (blk : block) : bool :=
  pt_okb NT 5 3 (t_head blk) && c_okb (tset blk) (c_head blk) && pt_okb MAXNP pbit 65535 (p_head blk) && forallb (token_okb blk) (tokens blk) &&
  (1 <=? Z.of_nat (length (tokens blk))) && (Z.of_nat (length (tokens blk)) <? 65536).

Lemma codedb_ok lens c : codedb lens c = true → coded lens c.
Proof.
  unfold codedb. intros H. bool_hyps. split; [done|]. destruct (lens !! Z.to_nat c) as [L|] eqn:HL; [|done]. bool_hyps.
  exists L. split; [done|lia].
Qed.

Lemma forallb_ok {A} (f : A → bool) (R : A → Prop) l : (∀ x, f x = true → R x) → forallb f l = true → Forall R l.
Proof. intros Hf H. apply Forall_forall. intros x Hx. apply Hf. rewrite forallb_forall in H. apply H. by apply list_elem_of_In. Qed.

Lemma lens_okb_ok n lens : lens_okb n lens = true → lens_ok n lens.
Proof.
  unfold lens_okb. intros H. apply andb_true_iff in H as [H H3]. apply andb_true_iff in H as [H1 H2].
  split; [by apply Z.eqb_eq|]. split; [|by apply Z.eqb_eq]. eapply forallb_ok; [|exact H2]. intros x Hx. cbn in Hx. bool_hyps. lia.
Qed.

Lemma set_codedb_ok S c : set_codedb S c = true → set_coded S c.
Proof. destruct S; [apply codedb_ok|apply Z.eqb_eq]. Qed.

Lemma zerosb_ok l : zerosb l = true → zeros_only l.
Proof. apply forallb_ok. intros x. apply Z.eqb_eq. Qed.

Lemma pt_okb_ok n nbit special h : pt_okb n nbit special h = true → pt_ok n nbit special h.
Proof.
  destruct h as [num zeros lens|c]; cbn [pt_okb pt_ok]; intros H; [|bool_hyps; lia].
  do 5 (apply andb_true_iff in H as [H ?]). split; [by apply lens_okb_ok|]. split; [lia|]. split; [lia|]. split; [by apply zerosb_ok|].
  intros Hs. replace (num <? special) with false in * by lia. cbn [orb] in *. bool_hyps. split; [lia|by apply zerosb_ok].
Qed.

Lemma item_okb_ok T it : item_okb T it = true → item_ok T it.
Proof. destruct it; cbn [item_okb item_ok]; intros H; bool_hyps; try (split; [lia|]); by apply set_codedb_ok. Qed.

Lemma items_fitb_ok num i items : items_fitb num i items = true → items_fit num i items.
Proof.
  revert i. induction items as [|it items IH]; intros i; cbn [items_fitb items_fit]; intros H.
  - apply orb_true_iff in H. rewrite !Z.leb_le in H. done.
  - apply andb_true_iff in H as [H Hf]. bool_hyps. split; [lia|]. split; [lia|by apply IH].
Qed.

Lemma c_okb_ok T h : c_okb T h = true → c_ok T h.
Proof.
  destruct h as [num items|c]; cbn [c_okb c_ok]; intros H; [|bool_hyps; lia]. do 4 (apply andb_true_iff in H as [H ?]).
  split; [lia|]. split; [by apply items_fitb_ok|]. split; [eapply forallb_ok; [apply item_okb_ok|done]|by apply lens_okb_ok].
Qed.

Lemma token_okb_ok blk t : token_okb blk t = true → token_ok blk t.
Proof.
  destruct t; cbn [token_okb token_ok]; intros H; bool_hyps.
  - split; [lia|by apply set_codedb_ok].
  - split; [lia|]. split; [lia|]. split; by apply set_codedb_ok.
Qed.

Lemma block_okb_ok pbit blk : block_okb pbit blk = true → block_ok pbit blk.
Proof.
  unfold block_okb. intros H. do 5 (apply andb_true_iff in H as [H ?]).
  split; [by apply pt_okb_ok|by apply c_okb_ok|by apply pt_okb_ok| |bool_hyps; lia].
  eapply forallb_ok; [|done]. intros x. apply token_okb_ok.
Qed.

(** ** A compressed text *)

(** The text abcabcabca!abcaazz in three blocks: the first has a run of zeros behind the
    special index and a run that ends behind the last character, the second writes no
    zeros there and a single zero, the third has one character per set. *)
Definition sample_blocks : list block :=
  [Block (PtLens 5 1 ([0; 2; 1; 0; 2] ++ replicate 14 0))
     (CLens 500 [CRun9 97; CLen 2; CLen 2; CLen 2; CRun9 157; CRun4 3; CLen 2; CRun9 300]) (PtSingle 2)
     [Literal 97; Literal 98; Literal 99; Pointer 7 2];
   Block (PtLens 5 0 ([2; 0; 2; 2; 2] ++ replicate 14 0))
     (CLens 258 [CRun9 33; CLen 1; CRun9 62; COne; CLen 2; CRun9 159; CLen 2]) (PtLens 4 0 ([1; 0; 0; 1] ++ replicate 27 0))
     [Literal 33; Pointer 4 4; Literal 97];
   Block (PtSingle 0) (CSingle 122) (PtSingle 0) [Literal 122; Literal 122]].

Definition sample_text : list Z := [97; 98; 99; 97; 98; 99; 97; 98; 99; 97; 33; 97; 98; 99; 97; 97; 122; 122].

Example sample_expands : expand (sample_blocks ≫= tokens) [] = Some sample_text.
Proof. vm_compute. reflexivity. Qed.

Example sample_runs : UefiDecompress 16 (encode 4 sample_blocks 18) (replicate 18 0) = Returns RETURN_SUCCESS sample_text.
Proof. vm_compute. reflexivity. Qed.

(** A block with one character per set: a code of no bits. *)
Definition tiny_source : list Z := [12; 0; 0; 0; 6; 0; 0; 0; 0; 6; 2; 160; 0; 0; 249; 1; 160; 31; 232; 64].

Example tiny_runs : UefiDecompress 0 tiny_source (replicate 6 0) = Returns RETURN_SUCCESS [7; 200; 13; 0; 255; 66].
Proof. vm_compute. reflexivity. Qed.

(** Code lengths that are not complete are refused. *)
Example bad_table : UefiDecompress 0 [4; 0; 0; 0; 1; 0; 0; 0; 0; 1; 12; 0] [0] = Returns RETURN_INVALID_PARAMETER [0].
Proof. vm_compute. reflexivity. Qed.

(** ** Witnesses *)

Lemma decompress_encoded_witness :
  UefiDecompressGetInfo 0 (encode 4 sample_blocks 18) (Z.of_nat (length (encode 4 sample_blocks 18))) = Some (RETURN_SUCCESS, Some (18, 0)) ∧
  UefiTianoDecompress 16 (encode 4 sample_blocks 18) (replicate 18 255) 1 = Returns RETURN_SUCCESS sample_text.
Proof.
  apply (decompress_encoded 0 1 4 sample_blocks sample_text (replicate 18 255) 16).
  - left. split; reflexivity.
  - apply Forall_cons_2; [|apply Forall_cons_2; [|apply Forall_cons_2; [|apply Forall_nil_2]]]; apply block_okb_ok; vm_compute; reflexivity.
  - exact sample_expands.
  - vm_compute. reflexivity.
  - vm_compute. reflexivity.
  - repeat constructor; lia.
  - reflexivity.
  - lia.
Defined.

(** Code lengths that reach past the table of 8 bits. *)
Definition long_lens : list Z := [1; 2; 3; 4; 5; 6; 7; 8; 9; 10; 10].

Definition fresh_state : SCRATCH_DATA := initial (drop 8 tiny_source) (replicate 6 0) 12 6 4.

Lemma fresh_state_ok : sd_ok 6 0 fresh_state.
Proof. apply initial_ok; try (repeat constructor; lia); try reflexivity; try lia; vm_compute; intros H; discriminate H. Qed.

Lemma MakeTable_canonical_witness :
  ∃ s', MakeTable 11 long_lens 8 PTTable fresh_state = Done 0 s' ∧ tree_on PTTable fresh_state s' ∧
    ∀ t fuel, mLeft t = mLeft s' → mRight t = mRight s' → mPTTable t = mPTTable s' → 0 ≤ mBitBuf t < 2 ^ 32 → 16 ≤ Z.of_nat fuel →
      ∃ c L, (has_code long_lens c L ∧ mBitBuf t / 2 ^ (32 - L) = code long_lens c L) ∧
        (∀ c' L', has_code long_lens c' L' → mBitBuf t / 2 ^ (32 - L') = code long_lens c' L' → c' = c) ∧
        lookup fuel PTTable 8 11 t = Done (Z.of_nat c) t.
Proof.
  apply (MakeTable_canonical 6 0 PTTable long_lens long_lens fresh_state).
  - exact fresh_state_ok.
  - reflexivity.
  - repeat constructor; lia.
  - vm_compute. reflexivity.
  - vm_compute. intros H. discriminate H.
Defined.

Lemma decompress_safe_witness :
  UefiTianoDecompress 0 tiny_source (replicate 6 0) 1 = Searching ∨
  ∃ Status Dst, (∀ more, (0 ≤ more)%nat → UefiTianoDecompress more tiny_source (replicate 6 0) 1 = Returns Status Dst) ∧
    (Status = RETURN_SUCCESS ∨ Status = RETURN_INVALID_PARAMETER) ∧ bytes Dst ∧ length Dst = length (replicate 6 0).
Proof.
  apply (decompress_safe 0 0 tiny_source (replicate 6 0) 1 6 0).
  - repeat constructor; lia.
  - vm_compute. reflexivity.
  - reflexivity.
  - repeat constructor; lia.
  - reflexivity.
  - left. reflexivity.
Defined.

Lemma bits_of_source_witness :
  ∃ vs s', (FillBuf BITBUFSIZ;; get_all [5; 11; 32]) fresh_state = Done vs s' ∧ Forall2 (λ n v, 0 ≤ v < 2 ^ n) [5; 11; 32] vs ∧
    encode_all [5; 11; 32] vs = first_bits 48 (take 12 (drop 8 tiny_source) ≫= low_bits 8).
Proof.
  apply (bits_of_source tiny_source (replicate 6 0) 12 6 4 [5; 11; 32]).
  - repeat constructor; lia.
  - vm_compute. reflexivity.
  - lia.
  - cbn. lia.
  - repeat constructor; lia.
Defined.
