(* ===== verification/DecompressHang.v ===== *)
(** * A source that the decompressor never leaves

    MakeTable accepts code lengths that overfill the code space by a multiple of the
    whole space, because Start[17] wraps to 0.  The nodes that such lengths write can
    form a cycle, and a later block with all-zero lengths keeps the table that leads
    into it.  The mask of the walk is 0 after 24 steps, so nothing ends the loop. *)
From S2P Require Import Prelude CBase Math64 Decompress DecompressBits.
Local Open Scope Z_scope.

(** ** Endless runs *)

Definition endless {A} (m : D A) (s : SCRATCH_DATA) : Prop := m s = Lost.

Lemma endless_first {A B} (m : D A) (k : A → D B) s : endless m s → endless (m ≫= k) s.
Proof. unfold endless, mbind, D_bind. by intros ->. Qed.

Lemma endless_later {A B} (m : D A) (k : A → D B) x s s' : m s = Done x s' → endless (k x) s' → endless (m ≫= k) s.
Proof. unfold endless, mbind, D_bind. by intros ->. Qed.

(** Run the head of a program on a closed state; unfold a program on it. *)
Ltac head_runs := eapply endless_later; [vm_compute; reflexivity|]; cbv beta.
Ltac unfold_run f := match goal with |- endless _ ?s => let st := fresh "st" in set (st := s); unfold f; subst st end.

Ltac branch :=
  lazymatch goal with |- endless (if ?c then ?a else ?b) ?s =>
    let v := eval vm_compute in c in
    lazymatch v with true => change (endless a s) | false => change (endless b s) end
  end.
Ltac round_starts :=
  match goal with |- endless _ ?s => let st := fresh "st" in set (st := s); cbn [decode_loop]; subst st end.

(** ** The cycle *)

Lemma land_low Buf Mask : Buf `mod` 2 ^ 24 = 0 → 0 ≤ Mask < 2 ^ 24 → Z.land Buf Mask = 0.
Proof.
  intros Hb Hm. rewrite <-(Z.mod_small Mask (2 ^ 24)) by done. rewrite <-Z.land_ones by done.
  rewrite (Z.land_comm Mask), Z.land_assoc, Z.land_ones by done. by rewrite Hb.
Qed.

Lemma walk_cycle fuel Limit Mask a b s :
  mBitBuf s `mod` 2 ^ 24 = 0 → 0 ≤ Mask < 2 ^ 24 → Limit ≤ a → Limit ≤ b → 0 ≤ a → 0 ≤ b →
  mLeft s !! Z.to_nat a = Some b → mLeft s !! Z.to_nat b = Some a → endless (walk fuel Limit Mask a) s.
Proof.
  intros Hbuf. revert a b Mask. induction fuel as [|fuel IH]; intros a b Mask HM Ha Hb Ha0 Hb0 Hab Hba; [done|]. cbn [walk].
  eapply endless_later; [done|]. rewrite land_low by done. cbn [Z.eqb negb].
  eapply endless_later; [done|]. eapply endless_later; [unfold get_at; by rewrite (proj2 (Z.leb_le _ _)), Hab by done|].
  rewrite Z.geb_leb, (proj2 (Z.leb_le _ _)) by done. apply (IH _ a); try done.
  rewrite Z.shiftr_div_pow2 by done. split; [apply Z.div_pos; lia|]. apply Z.div_lt_upper_bound; lia.
Qed.

(** ** The source *)

Definition looping_source : list Z :=
  [62;0;0;0;100;0;0;0;0;1;159;222;7;107;36;145;182;195;31;7;191;125;247;222;171;205;224;83;254;143;210;72;32;0;1;
   159;222;7;107;36;145;182;195;31;7;127;125;247;222;171;205;224;83;254;47;223;197;36;130;0;0;16;128;15;248;0;0;0;0;0].

(** Two blocks build the cycle, the third meets it. *)
Lemma looping_run walk_fuel : endless (tiano_body walk_fuel) (initial (drop 8 looping_source) (replicate 100 0) 62 100 4).
Proof.
  unfold tiano_body. head_runs. apply endless_first. unfold_run Decode. head_runs.
  change (S (S (Z.to_nat 100))) with (S (S (S 99))). generalize 99%nat. intros n.
  do 2 (round_starts; do 2 head_runs; do 2 branch; do 2 head_runs; branch; head_runs).
  round_starts. apply endless_first. unfold_run DecodeC. head_runs. apply endless_first. branch.
  unfold_run read_tables. do 4 head_runs. branch. apply endless_first. unfold_run ReadCLen. head_runs. branch.
  apply endless_first. generalize (Z.to_nat NC). intros m.
  match goal with |- endless _ ?s => set (st := s); cbn [c_len_loop]; subst st end. branch.
  apply endless_first. unfold_run lookup. do 4 head_runs. branch.
  destruct walk_fuel as [|f]; [reflexivity|]. match goal with |- endless _ ?s => set (st := s); cbn [walk]; subst st end. do 3 head_runs. branch.
  eapply (walk_cycle _ _ _ 510 25); vm_compute; (reflexivity || (split; [intros H; discriminate H|reflexivity]) || (intros H; discriminate H)).
Qed.

(** C34: UefiDecompress does not terminate on every source that UefiDecompressGetInfo
    accepts: for a source of 70 bytes and a destination of 100, no number of steps is
    enough for its search in a code tree. *)
Theorem decompress_endless walk_fuel :
  UefiDecompressGetInfo 0 looping_source (Z.of_nat (length looping_source)) = Some (RETURN_SUCCESS, Some (100, 0)) ∧
  UefiDecompress walk_fuel looping_source (replicate 100 0) = Searching.
Proof.
  split; [reflexivity|]. unfold UefiDecompress, UefiTianoDecompress.
  change (le32_at looping_source 0) with (Some 62). change (le32_at looping_source 4) with (Some 100).
  cbn [Z.eqb Pos.eqb orb negb]. by rewrite (looping_run walk_fuel : tiano_body _ _ = Lost).
Qed.
