(* ===== verification/StrParse.v ===== *)
(** * Parsers of bytes, GUIDs and addresses (MdePkg/Library/BaseLib/SafeString.c)

    StrHexToBytes, StrToGuid, StrToIpv4Address, StrToIpv6Address and their CHAR8
    versions.  The local structure of StrToGuid is at an address of the stack; the
    local address arrays are the list of the elements that have been assigned, in
    order, so that its length is AddressIndex.  CopyMem and ZeroMem are used
    through their contract. *)
From S2P Require Import Prelude CBase Math64 CheckSum ByteMem SafeString StrConvert.
Local Open Scope Z_scope.

Section limits.
Context (RSIZE_MAX ASCII_RSIZE_MAX : Z).

(** ** Bytes *)

(** The index at which the first loop stops. *)
Fixpoint hex_index (fuel : nat) (k : char_kind) (String Length Index : Z) : M byte_mem Z :=
  match fuel with
  | O => fails
  | S fuel =>
    if Index <? Length then
      c ← read_char k (String + sizeof_char k * Index);
      if negb (is_hex k c) then mret Index
      else hex_index fuel k String Length (cast UINTN (Index + 1))
    else mret Index
  end.

Fixpoint hex_bytes_loop (fuel : nat) (k : char_kind) (String Length Buffer Index : Z) : M byte_mem unit :=
  match fuel with
  | O => fails
  | S fuel =>
    if Index <? Length then
      c ← read_char k (String + sizeof_char k * Index);
      let v := cast UINT8 (hex_value k c) in
      (if Z.land Index 1 =? 0 then write8 (Buffer + Index / 2) (cast UINT8 (Z.shiftl v 4))
       else b ← read8 (Buffer + Index / 2); write8 (Buffer + Index / 2) (Z.lor b v));;
      hex_bytes_loop fuel k String Length Buffer (cast UINTN (Index + 1))
    else mret tt
  end.

Definition HexToBytes (k : char_kind) (String Length Buffer MaxBufferSize : Z) : M byte_mem Z :=
  assert_aligned k String;;
  SAFE_STRING_CONSTRAINT_CHECK (negb (String =? 0)) RETURN_INVALID_PARAMETER
  (SAFE_STRING_CONSTRAINT_CHECK (negb (Buffer =? 0)) RETURN_INVALID_PARAMETER
  (SAFE_STRING_CONSTRAINT_CHECK (within_rsize RSIZE_MAX ASCII_RSIZE_MAX k Length) RETURN_INVALID_PARAMETER
  (SAFE_STRING_CONSTRAINT_CHECK (Z.land Length 1 =? 0) RETURN_INVALID_PARAMETER
  (SAFE_STRING_CONSTRAINT_CHECK (MaxBufferSize >=? Length / 2) RETURN_BUFFER_TOO_SMALL
  (fuel ← memory_fuel;
   Index ← hex_index fuel k String Length 0;
   if negb (Index =? Length) then mret RETURN_UNSUPPORTED else
   fuel ← memory_fuel;
   hex_bytes_loop fuel k String Length Buffer 0;;
   mret RETURN_SUCCESS))))).

Definition StrHexToBytes := HexToBytes Unicode.
Definition AsciiStrHexToBytes := HexToBytes Ascii.

(** ** GUIDs *)

Definition load_le (n : nat) (p : Z) : M byte_mem Z := m ← get_state; required (read_le m p n).
Definition store_le (n : nat) (p v : Z) : M byte_mem unit := write_bytes p (low_bytes n v).

Definition CopyGuid (DestinationGuid SourceGuid : Z) : M byte_mem unit :=
  v ← load_le 8 SourceGuid; store_le 8 DestinationGuid v;;
  v ← load_le 8 (SourceGuid + 8); store_le 8 (DestinationGuid + 8) v.

(** One field: [n] bytes of hexadecimal digits and the '-' after them. *)
Definition guid_field (k : char_kind) (String n Field : Z) : M byte_mem bool :=
  Status ← HexToBytes k String (2 * n) Field n;
  if RETURN_ERROR Status then mret false else
  c ← read_char k (String + sizeof_char k * (2 * n)); mret (c =? 45).

Definition ToGuid (LocalGuid : Z) (k : char_kind) (String Guid : Z) : M byte_mem Z :=
  assert_aligned k String;;
  SAFE_STRING_CONSTRAINT_CHECK (negb (String =? 0)) RETURN_INVALID_PARAMETER
  (SAFE_STRING_CONSTRAINT_CHECK (negb (Guid =? 0)) RETURN_INVALID_PARAMETER
  (ok ← guid_field k String 4 LocalGuid;
   if negb ok then mret RETURN_UNSUPPORTED else
   v ← load_le 4 LocalGuid; store_le 4 LocalGuid (SwapBytes32 v);;
   let String := String + sizeof_char k * 9 in
   ok ← guid_field k String 2 (LocalGuid + 4);
   if negb ok then mret RETURN_UNSUPPORTED else
   v ← load_le 2 (LocalGuid + 4); store_le 2 (LocalGuid + 4) (SwapBytes16 v);;
   let String := String + sizeof_char k * 5 in
   ok ← guid_field k String 2 (LocalGuid + 6);
   if negb ok then mret RETURN_UNSUPPORTED else
   v ← load_le 2 (LocalGuid + 6); store_le 2 (LocalGuid + 6) (SwapBytes16 v);;
   let String := String + sizeof_char k * 5 in
   ok ← guid_field k String 2 (LocalGuid + 8);
   if negb ok then mret RETURN_UNSUPPORTED else
   let String := String + sizeof_char k * 5 in
   Status ← HexToBytes k String (2 * 6) (LocalGuid + 10) 6;
   if RETURN_ERROR Status then mret RETURN_UNSUPPORTED else
   CopyGuid Guid LocalGuid;; mret RETURN_SUCCESS)).

Definition StrToGuid (LocalGuid : Z) := ToGuid LocalGuid Unicode.
Definition AsciiStrToGuid (LocalGuid : Z) := ToGuid LocalGuid Ascii.

(** ** IPv4 addresses *)

(** The conversions that are called with pointers to local variables. *)
Definition parse_number (conversion : Z → option Z → option Z → M byte_mem number_result) (Pointer : Z)
    : M byte_mem (Z * Z * Z) :=
  '(Status, End, Uintn) ← conversion Pointer (Some Pointer) (Some 0);
  match End, Uintn with Some e, Some n => mret (Status, e, n) | _, _ => fails end.

Definition decimal_number (k : char_kind) : Z → M byte_mem (Z * Z * Z) :=
  parse_number (DecimalToIntegerS RSIZE_MAX ASCII_RSIZE_MAX decimal_uintn MAX_UINTN k).
Definition hex_number (k : char_kind) : Z → M byte_mem (Z * Z * Z) :=
  parse_number (HexToIntegerS RSIZE_MAX ASCII_RSIZE_MAX hex_uintn MAX_UINTN k).

(** [None] is the return of RETURN_UNSUPPORTED; otherwise Pointer, LocalAddress and
    LocalPrefixLength after the loop. *)
Fixpoint ipv4_loop (fuel : nat) (k : char_kind) (Pointer : Z) (LocalAddress : list Z) (LocalPrefixLength : Z)
    : M byte_mem (option (Z * list Z * Z)) :=
  match fuel with
  | O => fails
  | S fuel =>
    let AddressIndex := Z.of_nat (length LocalAddress) in
    if AddressIndex <? 5 then
      c ← read_char k Pointer;
      if negb (is_decimal k c) then mret (Some (Pointer, LocalAddress, LocalPrefixLength)) else
      '(Status, Pointer, Uintn) ← decimal_number k Pointer;
      if RETURN_ERROR Status then mret None else
      if AddressIndex =? 4 then
        if Uintn >? 32 then mret None else
        c ← read_char k Pointer;
        if c =? 47 then ipv4_loop fuel k (Pointer + sizeof_char k) LocalAddress (cast UINT8 Uintn)
        else mret (Some (Pointer, LocalAddress, cast UINT8 Uintn))
      else
        if Uintn >? MAX_UINT8 then mret None else
        let LocalAddress := LocalAddress ++ [cast UINT8 Uintn] in
        c ← read_char k Pointer;
        if Z.of_nat (length LocalAddress) =? 4 then
          if c =? 47 then ipv4_loop fuel k (Pointer + sizeof_char k) LocalAddress LocalPrefixLength
          else mret (Some (Pointer, LocalAddress, LocalPrefixLength))
        else
          if c =? 46 then ipv4_loop fuel k (Pointer + sizeof_char k) LocalAddress LocalPrefixLength
          else mret None
    else mret (Some (Pointer, LocalAddress, LocalPrefixLength))
  end.

(** The status and the values that EndPointer and PrefixLength point to. *)
Definition ToIpv4Address (k : char_kind) (String : Z) (EndPointer : option Z) (Address : Z)
    (PrefixLength : option Z) : M byte_mem (Z * option Z * option Z) :=
  assert_aligned k String;;
  let failed Status := (Status, EndPointer, PrefixLength) in
  SAFE_STRING_CONSTRAINT_CHECK (negb (String =? 0)) (failed RETURN_INVALID_PARAMETER)
  (SAFE_STRING_CONSTRAINT_CHECK (negb (Address =? 0)) (failed RETURN_INVALID_PARAMETER)
  (fuel ← memory_fuel;
   r ← ipv4_loop fuel k String [] MAX_UINT8;
   match r with
   | None => mret (failed RETURN_UNSUPPORTED)
   | Some (Pointer, LocalAddress, LocalPrefixLength) =>
     if Z.of_nat (length LocalAddress) <? 4 then mret (failed RETURN_UNSUPPORTED) else
     write_bytes Address LocalAddress;;
     mret (RETURN_SUCCESS, set_pointer EndPointer Pointer, set_pointer PrefixLength LocalPrefixLength)
   end)).

Definition StrToIpv4Address := ToIpv4Address Unicode.
Definition AsciiStrToIpv4Address := ToIpv4Address Ascii.

(** ** IPv6 addresses *)

Record ipv6_state := Ipv6State {
  ipv6_Pointer : Z; ipv6_Address : list Z; ipv6_CompressStart : Z; ipv6_ExpectPrefix : bool; ipv6_Prefix : Z
}.

Inductive ipv6_step :=
  | Ipv6_Unsupported
  | Ipv6_Break (st : ipv6_state)
  | Ipv6_Continue (st : ipv6_state).

(** The first test of the loop: what is allowed where no digit is. *)
Definition ipv6_colon (k : char_kind) (st : ipv6_state) : M byte_mem (option ipv6_state) :=
  let AddressIndex := Z.of_nat (length (ipv6_Address st)) in
  c ← read_char k (ipv6_Pointer st);
  if is_hex k c then mret (Some st) else
  if negb (c =? 58) then mret None else
  if ipv6_ExpectPrefix st then mret None else
  if negb (ipv6_CompressStart st =? 16) || (AddressIndex =? 16) then mret None else
  let Pointer := ipv6_Pointer st + sizeof_char k in
  let next p := Some (Ipv6State p (ipv6_Address st) AddressIndex (ipv6_ExpectPrefix st) (ipv6_Prefix st)) in
  if AddressIndex =? 0 then
    c ← read_char k Pointer;
    if negb (c =? 58) then mret None else mret (next (Pointer + sizeof_char k))
  else mret (next Pointer).

(** The second test: a group of digits, the prefix length, or the '/' before it. *)
Definition ipv6_digits (k : char_kind) (st : ipv6_state) : M byte_mem ipv6_step :=
  let AddressIndex := Z.of_nat (length (ipv6_Address st)) in
  let Pointer := ipv6_Pointer st in
  c ← read_char k Pointer;
  if negb (is_hex k c) then
    if c =? 47 then
      if negb (ipv6_CompressStart st =? AddressIndex) then mret Ipv6_Unsupported else mret (Ipv6_Continue st)
    else mret (Ipv6_Break st)
  else if negb (ipv6_ExpectPrefix st) then
    '(Status, End, Uintn) ← hex_number k Pointer;
    if RETURN_ERROR Status || ((End - Pointer) / sizeof_char k >? 4) then mret Ipv6_Unsupported else
    ASSERT (AddressIndex + 1 <? 16);;
    mret (Ipv6_Continue (Ipv6State End
      (ipv6_Address st ++ [cast UINT8 (Z.shiftr (cast UINT16 Uintn) 8); cast UINT8 Uintn])
      (ipv6_CompressStart st) (ipv6_ExpectPrefix st) (ipv6_Prefix st)))
  else
    '(Status, End, Uintn) ← decimal_number k Pointer;
    if RETURN_ERROR Status || (End =? Pointer) || (Uintn >? 128) then mret Ipv6_Unsupported else
    mret (Ipv6_Break (Ipv6State End (ipv6_Address st) (ipv6_CompressStart st) (ipv6_ExpectPrefix st) (cast UINT8 Uintn))).

Fixpoint ipv6_loop (fuel : nat) (k : char_kind) (st : ipv6_state) : M byte_mem (option ipv6_state) :=
  match fuel with
  | O => fails
  | S fuel =>
    if Z.of_nat (length (ipv6_Address st)) <? 17 then
      r ← ipv6_colon k st;
      match r with
      | None => mret None
      | Some st =>
        r ← ipv6_digits k st;
        match r with
        | Ipv6_Unsupported => mret None
        | Ipv6_Break st => mret (Some st)
        | Ipv6_Continue st =>
          c ← read_char k (ipv6_Pointer st);
          let next b := Ipv6State (ipv6_Pointer st + sizeof_char k) (ipv6_Address st) (ipv6_CompressStart st) b (ipv6_Prefix st) in
          if c =? 47 then ipv6_loop fuel k (next true) else
          if c =? 58 then
            if Z.of_nat (length (ipv6_Address st)) =? 16 then mret (Some st)
            else ipv6_loop fuel k (next (ipv6_ExpectPrefix st))
          else mret (Some st)
        end
      end
    else mret (Some st)
  end.

(** The address with the zeros of the "::" between its two parts. *)
Definition ipv6_store (Address : Z) (LocalAddress : list Z) (CompressStart : Z) : M byte_mem unit :=
  let AddressIndex := Z.of_nat (length LocalAddress) in
  write_bytes Address (take (Z.to_nat CompressStart) LocalAddress);;
  write_bytes (Address + CompressStart) (replicate (Z.to_nat (16 - AddressIndex)) 0);;
  if AddressIndex >? CompressStart
  then write_bytes (Address + (CompressStart + 16 - AddressIndex)) (drop (Z.to_nat CompressStart) LocalAddress)
  else mret tt.

Definition ToIpv6Address (k : char_kind) (String : Z) (EndPointer : option Z) (Address : Z)
    (PrefixLength : option Z) : M byte_mem (Z * option Z * option Z) :=
  assert_aligned k String;;
  let failed Status := (Status, EndPointer, PrefixLength) in
  SAFE_STRING_CONSTRAINT_CHECK (negb (String =? 0)) (failed RETURN_INVALID_PARAMETER)
  (SAFE_STRING_CONSTRAINT_CHECK (negb (Address =? 0)) (failed RETURN_INVALID_PARAMETER)
  (fuel ← memory_fuel;
   r ← ipv6_loop fuel k (Ipv6State String [] 16 false MAX_UINT8);
   match r with
   | None => mret (failed RETURN_UNSUPPORTED)
   | Some st =>
     let AddressIndex := Z.of_nat (length (ipv6_Address st)) in
     let CompressStart := ipv6_CompressStart st in
     if ((AddressIndex =? 16) && negb (CompressStart =? 16)) || (negb (AddressIndex =? 16) && (CompressStart =? 16))
     then mret (failed RETURN_UNSUPPORTED) else
     ipv6_store Address (ipv6_Address st) CompressStart;;
     mret (RETURN_SUCCESS, set_pointer EndPointer (ipv6_Pointer st), set_pointer PrefixLength (ipv6_Prefix st))
   end)).

Definition StrToIpv6Address := ToIpv6Address Unicode.
Definition AsciiStrToIpv6Address := ToIpv6Address Ascii.
End limits.
