(* ===== verification/StrParseSpec.v ===== *)
(** * Parsers of bytes and GUIDs: equivalence with lists of characters *)
From S2P Require Import Prelude CBase Math64 Math64Spec CheckSum CheckSumSpec ByteMem SafeString SafeStringSpec ByteOrder.
From S2P Require Import StrConvert StrConvertSpec StrCompare StrCompareSpec StrParse.
Local Open Scope Z_scope.

(** ** Reference definitions *)

(** The bytes of pairs of hexadecimal digits. *)
Fixpoint hex_pairs (cs : list Z) : list Z :=
  match cs with a :: b :: cs => hexadecimal a * 16 + hexadecimal b :: hex_pairs cs | _ => [] end.

(** The number of characters at the start of a string that are digits. *)
Definition hex_digits (k : char_kind) (cs : list Z) : nat := length (take_while (is_hex k) cs).

Lemma hex_digits_le k cs : (hex_digits k cs ≤ length cs)%nat.
Proof. apply take_while_le. Qed.

Lemma hex_digits_drop k cs i : (i ≤ hex_digits k cs)%nat → hex_digits k (drop i cs) = (hex_digits k cs - i)%nat.
Proof.
  revert cs. induction i as [|i IH]; intros cs Hi; [by rewrite drop_0, Nat.sub_0_r|].
  unfold hex_digits in *. destruct cs as [|c cs]; [done|]. cbn [take_while drop] in *.
  destruct (is_hex k c); cbn [length] in *; [|lia]. rewrite IH by lia. lia.
Qed.

Lemma hex_digits_S k cs i : (S i ≤ hex_digits k cs)%nat →
  ∃ c rest, drop i cs = c :: rest ∧ is_hex k c = true ∧ drop (S i) cs = rest.
Proof.
  intros Hi. pose proof (hex_digits_drop k cs i ltac:(lia)) as Hd. unfold hex_digits in Hd at 1.
  destruct (drop i cs) as [|c rest] eqn:Hrest; [cbn in Hd; lia|]. exists c, rest. cbn [take_while] in Hd.
  destruct (is_hex k c); [|cbn in Hd; lia]. split_and!; [done|done|].
  rewrite <-Nat.add_1_r, <-drop_drop, Hrest. done.
Qed.

Lemma hex_pairs_bytes k ds : Forall (λ c, is_hex k c = true) ds → bytes (hex_pairs ds).
Proof.
  assert (∀ n ds, (length ds ≤ n)%nat → Forall (λ c, is_hex k c = true) ds → bytes (hex_pairs ds)) as Hn; [|by eapply Hn].
  induction n as [|n IH]; intros [|a [|b l]] Hl Hds; try (by constructor); [cbn in Hl; lia|].
  apply Forall_cons in Hds as [Ha Hds]. apply Forall_cons in Hds as [Hb Hds].
  destruct (is_hex_digit _ _ Ha), (is_hex_digit _ _ Hb). constructor; [unfold byte; lia|apply IH; [cbn in Hl; lia|done]].
Qed.

Lemma length_hex_pairs ds r : length ds = (2 * r)%nat → length (hex_pairs ds) = r.
Proof.
  revert ds. induction r as [|r IH]; intros ds Hl; [by destruct ds|].
  destruct ds as [|a [|b l]]; cbn in Hl; try lia. cbn [hex_pairs length]. rewrite IH; lia.
Qed.

Lemma hex_prefix k cs n : (n ≤ hex_digits k cs)%nat → Forall (λ c, is_hex k c = true) (take n cs).
Proof.
  intros Hn. unfold hex_digits in Hn. rewrite <-(take_drop_while (is_hex k) cs). rewrite take_app_le by lia.
  apply Forall_take, take_while_all.
Qed.

(** ** StrHexToBytes *)

Section strings.
Context (RSIZE_MAX ASCII_RSIZE_MAX : Z) (k : char_kind).
Abbreviation limit := (rsize_max RSIZE_MAX ASCII_RSIZE_MAX k).
Abbreviation area cs := (chars_size k (S (length cs))).

Lemma char_at m p cs i : cstring k m p cs → (i ≤ length cs)%nat →
  read_char k (p + sizeof_char k * Z.of_nat i) m = Some (hd 0 (drop i cs), m).
Proof. intros Hs Hi. by apply cstring_head, cstring_drop. Qed.

Lemma cstring_put m p cs q l : cstring k m p cs → apart q (Z.of_nat (length l)) p (area cs) → cstring k (put m q l) p cs.
Proof.
  intros [Hnz [Hr Hb]] Ha. split; [done|]. split; [done|]. apply buffer_put_apart; [done|].
  rewrite length_text, length_app. cbn [length]. by rewrite Nat.add_1_r.
Qed.

Lemma is_hex_0 : is_hex k 0 = false.
Proof. by destruct k. Qed.

Lemma hex_index_run m p cs n : cstring k m p cs → Z.of_nat n < 2 ^ 64 →
  ∀ fuel i, (i ≤ hex_digits k cs)%nat → (i ≤ n)%nat → (length cs - i < fuel)%nat →
  hex_index fuel k p (Z.of_nat n) (Z.of_nat i) m = Some (Z.of_nat (n `min` hex_digits k cs), m).
Proof.
  intros Hs Hn. pose proof (hex_digits_le k cs) as Hle.
  induction fuel as [|fuel IH]; intros i Hi Hin Hf; [lia|]. cbn [hex_index].
  destruct (Z.ltb_spec (Z.of_nat i) (Z.of_nat n)) as [Hlt|Hge].
  - erewrite bind_run by (apply char_at; [done|lia]). destruct (decide (i = hex_digits k cs)) as [He|Hne].
    + assert (is_hex k (hd 0 (drop i cs)) = false) as ->.
      { pose proof (hex_digits_drop k cs i ltac:(lia)) as Hd. rewrite He, Nat.sub_diag, <-He in Hd. unfold hex_digits in Hd.
        destruct (drop i cs) as [|c rest]; [apply is_hex_0|]. cbn [take_while hd] in *. by destruct (is_hex k c). }
      cbn [negb]. unfold mret, M_ret. do 2 f_equal. lia.
    + destruct (hex_digits_S k cs i ltac:(lia)) as (c & rest & Hd & Hc & _). rewrite Hd. cbn [hd]. rewrite Hc. cbn [negb].
      rewrite cast_id by (done || (cint_unfold; lia)). replace (Z.of_nat i + 1) with (Z.of_nat (S i)) by lia. apply IH; lia.
  - unfold mret, M_ret. do 2 f_equal. lia.
Qed.

Lemma write8_run p b (m : byte_mem) : is_Some (m !! p) → write8 p b m = Some (tt, <[p:=b]> m).
Proof. intros [x Hx]. unfold write8. by rewrite Hx. Qed.

Lemma read8_run p b (m : byte_mem) : m !! p = Some b → read8 p m = Some (b, m).
Proof. intros Hb. unfold read8. by rewrite Hb. Qed.

Lemma even_index j : Z.land (Z.of_nat (2 * j)) 1 = 0 ∧ Z.of_nat (2 * j) / 2 = Z.of_nat j.
Proof.
  replace (Z.of_nat (2 * j)) with (Z.of_nat j * 2) by lia. rewrite Z.div_mul by done. split; [|done].
  change 1 with (Z.ones 1). rewrite Z.land_ones by done. by rewrite Z.mod_mul.
Qed.

Lemma odd_index j : Z.land (Z.of_nat (S (2 * j))) 1 = 1 ∧ Z.of_nat (S (2 * j)) / 2 = Z.of_nat j.
Proof.
  replace (Z.of_nat (S (2 * j))) with (1 + Z.of_nat j * 2) by lia. rewrite Z.div_add by done. split; [|done].
  change (Z.land ?x 1) with (Z.land x (Z.ones 1)). rewrite Z.land_ones by lia. change (2 ^ 1) with 2. by rewrite Z.mod_add.
Qed.

(** Two characters give a byte. *)
Lemma hex_pair_run p cs Buffer n j m fuel : cstring k m p cs → (2 * S j ≤ hex_digits k cs)%nat → (2 * S j ≤ n)%nat →
  is_Some (m !! (Buffer + Z.of_nat j)) → apart (Buffer + Z.of_nat j) 1 p (area cs) → Z.of_nat n < 2 ^ 64 →
  ∃ b, 0 ≤ b < 256 ∧ hex_pairs (take 2 (drop (2 * j) cs)) = [b] ∧
    hex_bytes_loop (S (S fuel)) k p (Z.of_nat n) Buffer (Z.of_nat (2 * j)) m =
    hex_bytes_loop fuel k p (Z.of_nat n) Buffer (Z.of_nat (2 * S j)) (<[Buffer + Z.of_nat j:=b]> m).
Proof.
  intros Hs Hd Hn HB Ha H64. pose proof (hex_digits_le k cs) as Hle.
  destruct (hex_digits_S k cs (2 * j) ltac:(lia)) as (c1 & rest1 & Hr1 & Hc1 & Hn1).
  destruct (hex_digits_S k cs (S (2 * j)) ltac:(lia)) as (c2 & rest2 & Hr2 & Hc2 & _). rewrite Hr2 in Hn1. subst rest1.
  destruct (is_hex_digit _ _ Hc1) as [Hv1 Hb1], (is_hex_digit _ _ Hc2) as [Hv2 Hb2].
  set (x := hexadecimal c1 * 16). set (B := Buffer + Z.of_nat j) in *. set (m1 := <[B:=x]> m).
  exists (x + hexadecimal c2). split; [lia|]. split; [by rewrite Hr1|].
  assert (cstring k m1 p cs) as Hs1 by by apply (cstring_put m p cs B [x] Hs).
  destruct (even_index j) as [He1 He2], (odd_index j) as [Ho1 Ho2].
  cbn [hex_bytes_loop]. rewrite (proj2 (Z.ltb_lt _ _)) by lia. erewrite bind_run by (apply char_at; [done|lia]).
  rewrite Hr1. cbn [hd]. cbv zeta. rewrite Hv1, He1, He2, Z.shiftl_mul_pow2 by done. change (2 ^ 4) with 16.
  rewrite (cast_id UINT8 (hexadecimal c1)) by (done || (cint_unfold; lia)).
  rewrite (cast_id UINT8 (hexadecimal c1 * 16)) by (done || (cint_unfold; lia)).
  erewrite bind_run by (by apply write8_run). fold x B m1. rewrite cast_id by (done || (cint_unfold; lia)).
  replace (Z.of_nat (2 * j) + 1) with (Z.of_nat (S (2 * j))) by lia.
  rewrite (proj2 (Z.ltb_lt _ _)) by lia. erewrite bind_run by (apply char_at; [done|lia]). rewrite Hr2. cbn [hd].
  rewrite Hv2, Ho1, Ho2. rewrite (cast_id UINT8 (hexadecimal c2)) by (done || (cint_unfold; lia)).
  change (1 =? 0) with false. cbv iota. fold B.
  assert ((b ← read8 B; write8 B (Z.lor b (hexadecimal c2))) m1 = Some (tt, <[B:=x + hexadecimal c2]> m)) as Hlor.
  { erewrite bind_run by (apply read8_run; unfold m1; by rewrite lookup_insert_eq).
    rewrite write8_run by (unfold m1; rewrite lookup_insert_eq; done). unfold m1. rewrite insert_insert_eq.
    unfold x. change 16 with (2 ^ 4). rewrite lor_bytes by (done || lia). done. }
  erewrite bind_run by exact Hlor. rewrite cast_id by (done || (cint_unfold; lia)). f_equal. lia.
Qed.

Lemma hex_pairs_app ds es : length ds = 2%nat → hex_pairs (ds ++ es) = hex_pairs ds ++ hex_pairs es.
Proof. by destruct ds as [|a [|b [|c l]]]. Qed.

Lemma hex_bytes_loop_run p cs Buffer : ∀ r j m fuel, cstring k m p cs → (2 * (j + r) ≤ hex_digits k cs)%nat →
  mapped m Buffer (Z.of_nat (j + r)) → apart Buffer (Z.of_nat (j + r)) p (area cs) → (2 * r < fuel)%nat →
  Z.of_nat (2 * (j + r)) < 2 ^ 64 →
  hex_bytes_loop fuel k p (Z.of_nat (2 * (j + r))) Buffer (Z.of_nat (2 * j)) m
    = Some (tt, put m (Buffer + Z.of_nat j) (hex_pairs (take (2 * r) (drop (2 * j) cs)))).
Proof.
  induction r as [|r IH]; intros j m fuel Hs Hd Hm Ha Hf H64; (destruct fuel as [|fuel]; [lia|]).
  { cbn [hex_bytes_loop]. rewrite (proj2 (Z.ltb_ge _ _)) by lia. by rewrite take_0. }
  destruct fuel as [|fuel]; [lia|].
  destruct (hex_pair_run p cs Buffer (2 * (j + S r)) j m fuel Hs) as (b & Hb & Hp & Hrun);
    [lia|lia|apply Hm; lia|unfold apart in *; lia|done|]. rewrite Hrun.
  replace (j + S r)%nat with (S j + r)%nat in * by lia.
  rewrite IH; [| |done|apply (mapped_put m _ [b]); done|done|lia|done].
  2: { apply (cstring_put m p cs _ [b] Hs). unfold apart in *. cbn [length]. lia. }
  replace (2 * S r)%nat with (2 + 2 * r)%nat by lia. rewrite <-take_take_drop, hex_pairs_app, Hp.
  2: { rewrite length_take, length_drop. pose proof (hex_digits_le k cs). lia. }
  rewrite drop_drop. replace (2 * j + 2)%nat with (2 * S j)%nat by lia. cbn [put app].
  do 3 f_equal. lia.
Qed.

(** Valid calls. *)
Lemma HexToBytes_run m p cs Buffer Max r : 0 < p → aligned k p → cstring k m p cs → 0 < Buffer →
  (limit = 0 ∨ Z.of_nat (2 * r) ≤ limit) → Z.of_nat r ≤ Max → Z.of_nat (2 * r) < 2 ^ 64 →
  mapped m Buffer (Z.of_nat r) → apart Buffer (Z.of_nat r) p (area cs) →
  HexToBytes RSIZE_MAX ASCII_RSIZE_MAX k p (Z.of_nat (2 * r)) Buffer Max m =
    if decide (2 * r ≤ hex_digits k cs)%nat then Some (RETURN_SUCCESS, put m Buffer (hex_pairs (take (2 * r) cs)))
    else Some (RETURN_UNSUPPORTED, m).
Proof.
  intros Hp Hal Hs HB Hlim HMax H64 Hm Ha. unfold HexToBytes. rewrite run_aligned by done.
  destruct (even_index r) as [He1 He2].
  rewrite check_true by (apply negb_true_iff, Z.eqb_neq; lia). rewrite check_true by (apply negb_true_iff, Z.eqb_neq; lia).
  rewrite check_true.
  2: { unfold within_rsize. destruct (Z.eqb_spec limit 0); cbn [negb]; [done|]. apply Z.leb_le. lia. }
  rewrite check_true by by rewrite He1. rewrite check_true by (rewrite He2, Z.geb_leb; by apply Z.leb_le).
  erewrite bind_run by reflexivity. pose proof (cstring_fuel _ _ _ _ Hs) as Hfuel.
  erewrite bind_run by (apply (hex_index_run m p cs (2 * r) Hs H64 (S (size m)) 0); lia).
  pose proof (hex_digits_le k cs). case_decide as Hd.
  - rewrite (proj2 (Z.eqb_eq _ _)) by lia. cbn [negb]. erewrite bind_run by reflexivity.
    erewrite bind_run by (apply (hex_bytes_loop_run p cs Buffer r 0 m); (done || lia)).
    rewrite Z.add_0_r. by rewrite drop_0.
  - by rewrite (proj2 (Z.eqb_neq _ _)) by lia.
Qed.

(** ** Fields of a GUID *)

(** [n] bytes and the '-' after them; the rest of the string. *)
Definition guid_part (n : nat) (cs : list Z) : option (list Z * list Z) :=
  if decide (2 * n ≤ hex_digits k cs)%nat then
    match drop (2 * n) cs with
    | c :: rest => if c =? 45 then Some (hex_pairs (take (2 * n) cs), rest) else None
    | [] => None
    end
  else None.

(** The bytes of the structure: the first three fields are stored little-endian. *)
Definition guid_of (cs : list Z) : option (list Z) :=
  '(a, cs) ← guid_part 4 cs; '(b, cs) ← guid_part 2 cs; '(c, cs) ← guid_part 2 cs; '(d, cs) ← guid_part 2 cs;
  if decide (12 ≤ hex_digits k cs)%nat
  then Some (reverse a ++ reverse b ++ reverse c ++ d ++ hex_pairs (take 12 cs)) else None.

Lemma guid_part_Some n cs bs rest : guid_part n cs = Some (bs, rest) →
  bs = hex_pairs (take (2 * n) cs) ∧ bytes bs ∧ length bs = n ∧ rest = drop (2 * n + 1) cs ∧ (2 * n + 1 ≤ length cs)%nat.
Proof.
  unfold guid_part. case_decide as Hd; [|done]. destruct (drop (2 * n) cs) as [|c l] eqn:Hl; [done|].
  destruct (c =? 45); [|done]. intros [= <- <-]. pose proof (hex_digits_le k cs).
  assert (length (drop (2 * n) cs) = S (length l)) as Hlen by by rewrite Hl. rewrite length_drop in Hlen.
  split_and!; [done|by eapply hex_pairs_bytes, hex_prefix|apply length_hex_pairs; rewrite length_take; lia| |lia].
  by rewrite <-drop_drop, Hl.
Qed.

(** Memory outside of a range is the same. *)
Definition kept (p n : Z) (m m' : byte_mem) : Prop := ∀ i, ¬ (p ≤ i < p + n) → m' !! i = m !! i.

Lemma kept_put p n m l : (Z.of_nat (length l) ≤ n) → kept p n m (put m p l).
Proof. intros Hl i Hi. apply lookup_put_ne. lia. Qed.

Lemma guid_field_run m p cs Field n : 0 < p → aligned k p → cstring k m p cs → 0 < Field →
  (limit = 0 ∨ Z.of_nat (2 * n) ≤ limit) → Z.of_nat (2 * n) < 2 ^ 64 →
  mapped m Field (Z.of_nat n) → apart Field (Z.of_nat n) p (area cs) →
  match guid_part n cs with
  | Some (bs, _) => guid_field RSIZE_MAX ASCII_RSIZE_MAX k p (Z.of_nat n) Field m = Some (true, put m Field bs)
  | None => ∃ l, (length l ≤ n)%nat ∧ guid_field RSIZE_MAX ASCII_RSIZE_MAX k p (Z.of_nat n) Field m = Some (false, put m Field l)
  end.
Proof.
  intros Hp Hal Hs HF Hlim H64 Hm Ha. unfold guid_field, guid_part.
  pose proof (HexToBytes_run m p cs Field (Z.of_nat n) n Hp Hal Hs HF Hlim ltac:(lia) H64 Hm Ha) as Hrun.
  replace (Z.of_nat (2 * n)) with (2 * Z.of_nat n) in Hrun by lia. pose proof (hex_digits_le k cs).
  case_decide as Hd.
  2: { exists []. split; [cbn; lia|]. by erewrite bind_run by exact Hrun. }
  set (bs := hex_pairs (take (2 * n) cs)) in *.
  assert (length bs = n) as Hl by (apply length_hex_pairs; rewrite length_take; lia).
  assert (read_char k (p + sizeof_char k * (2 * Z.of_nat n)) (put m Field bs)
    = Some (hd 0 (drop (2 * n) cs), put m Field bs)) as Hread.
  { replace (2 * Z.of_nat n) with (Z.of_nat (2 * n)) by lia. apply char_at; [|lia]. apply cstring_put; [done|by rewrite Hl]. }
  assert (∀ b, (hd 0 (drop (2 * n) cs) =? 45) = b →
    guid_field RSIZE_MAX ASCII_RSIZE_MAX k p (Z.of_nat n) Field m = Some (b, put m Field bs)) as Hfield.
  { intros b <-. unfold guid_field. erewrite bind_run by exact Hrun.
    change (RETURN_ERROR RETURN_SUCCESS) with false. cbv iota. by erewrite bind_run by exact Hread. }
  unfold guid_field in Hfield. destruct (drop (2 * n) cs) as [|c rest]; cbn [hd] in Hfield.
  - exists bs. split; [lia|]. by apply Hfield.
  - destruct (c =? 45) eqn:Hc; [by apply Hfield|]. exists bs. split; [lia|]. by apply Hfield.
Qed.

(** ** Integers in memory *)

Lemma load_le_run m p l : buffer m p l → load_le (length l) p m = Some (le_value l, m).
Proof.
  intros Hb. assert (bytes l) as Hl by (apply Forall_lookup; intros i b Hi; by destruct (Hb i b Hi)).
  unfold load_le. erewrite bind_run by reflexivity. unfold required.
  rewrite (read_le_bytes m p (length l) (le_value l)); [done|by apply le_value_range|by rewrite le_bytes_value].
Qed.

Lemma store_le_run m p n v : mapped m p (Z.of_nat n) → store_le n p v m = Some (tt, put m p (le_bytes n v)).
Proof. intros Hm. unfold store_le. rewrite low_bytes_le. apply write_bytes_run. by rewrite length_le_bytes. Qed.

Lemma swap_field_run m p l n f : bytes l → length l = n → le_bytes n (f (le_value l)) = reverse l →
  (v ← load_le n p; store_le n p (f v)) (put m p l) = Some (tt, put m p (reverse l)).
Proof.
  intros Hl <- Hf. erewrite bind_run by by apply load_le_run, buffer_put.
  rewrite store_le_run by apply put_mapped. by rewrite Hf, put_put by by rewrite length_reverse.
Qed.

Lemma CopyGuid_run m G L g : buffer m L g → length g = 16%nat → mapped m G 16 → apart G 16 L 16 →
  CopyGuid G L m = Some (tt, put m G g).
Proof.
  intros Hg Hl HG Ha. rewrite <-(take_drop 8 g) in Hg. apply buffer_app in Hg as [H1 H2].
  assert (length (take 8 g) = 8%nat) as L1 by (rewrite length_take; lia).
  assert (length (drop 8 g) = 8%nat) as L2 by (rewrite length_drop; lia).
  rewrite L1 in H2. pose proof (load_le_run _ _ _ H1) as R1. rewrite L1 in R1. unfold CopyGuid.
  assert (∀ l, buffer m (L + 8) l → bytes l) as Hby by (intros l Hb; apply Forall_lookup; intros i b Hi; by destruct (Hb i b Hi)).
  assert (bytes (take 8 g)) as B1 by (apply Forall_lookup; intros i b Hi; by destruct (H1 i b Hi)).
  erewrite bind_run by exact R1. pose proof (le_bytes_value _ B1) as V1. rewrite L1 in V1.
  erewrite bind_run by (apply store_le_run; eapply mapped_sub; [exact HG|lia|lia]). rewrite V1.
  assert (buffer (put m G (take 8 g)) (L + 8) (drop 8 g)) as H2'.
  { apply buffer_put_apart; [exact H2|]. rewrite L1, L2. unfold apart in *. lia. }
  pose proof (load_le_run _ _ _ H2') as R2. rewrite L2 in R2. erewrite bind_run by exact R2.
  rewrite store_le_run by (apply mapped_put; eapply mapped_sub; [exact HG|lia|lia]).
  pose proof (le_bytes_value _ (Hby _ H2)) as V2. rewrite L2 in V2. rewrite V2.
  rewrite <-(take_drop 8 g) at 3. by rewrite put_app, L1.
Qed.

(** ** StrToGuid *)

Section guid.
Context (m : byte_mem) (L G : Z) (HL : 0 < L) (HG : 0 < G) (Hlim : limit = 0 ∨ 12 ≤ limit).
Context (HmL : mapped m L 16) (HmG : mapped m G 16) (HLG : apart G 16 L 16).

(** A string that the function still has to read. *)
Definition unread (q : Z) (ds : list Z) : Prop :=
  0 < q ∧ aligned k q ∧ cstring k m q ds ∧ apart L 16 q (area ds).

Lemma unread_rest q ds n bs rest : unread q ds → guid_part n ds = Some (bs, rest) →
  unread (q + sizeof_char k * Z.of_nat (2 * n + 1)) rest.
Proof.
  intros (Hq & Ha & Hs & Hap) (_ & _ & _ & -> & Hle)%guid_part_Some.
  pose proof (sizeof_char_cases k) as Hk. split_and!.
  - destruct Hk as [-> | ->]; lia.
  - intros HU. specialize (Ha HU). subst k. change (sizeof_char Unicode) with 2.
    rewrite Z.mul_comm, Z.mod_add by done. done.
  - by apply cstring_drop.
  - unfold apart, chars_size in *. rewrite length_drop. destruct Hk as [Hk|Hk]; rewrite Hk in *; lia.
Qed.

Definition failing (c : M byte_mem Z) (m' : byte_mem) : Prop :=
  ∃ l, (length l ≤ 16)%nat ∧ c m' = Some (RETURN_UNSUPPORTED, put m L l).

(** The outcome of the rest of the function for what the rest of the string gives. *)
Definition ends (c : M byte_mem Z) (m' : byte_mem) (o : option (list Z)) : Prop :=
  match o with
  | Some g => length g = 16%nat ∧ c m' = Some (RETURN_SUCCESS, put (put m L g) G g)
  | None => failing c m'
  end.

(** One field and what follows it. *)
Lemma guid_stage q ds n acc F (K : M byte_mem Z) o : unread q ds → (1 ≤ n ≤ 6)%nat → (length acc + n ≤ 16)%nat →
  F = L + Z.of_nat (length acc) →
  (∀ bs rest, guid_part n ds = Some (bs, rest) → ends K (put m L (acc ++ bs)) (o bs rest)) →
  ends (ok ← guid_field RSIZE_MAX ASCII_RSIZE_MAX k q (Z.of_nat n) F; if negb ok then mret RETURN_UNSUPPORTED else K)
    (put m L acc) ('(bs, rest) ← guid_part n ds; o bs rest).
Proof.
  intros (Hq & Ha & Hs & Hap) Hn Hacc -> HK.
  assert (cstring k (put m L acc) q ds) as Hs' by (apply cstring_put; [done|unfold apart in *; lia]).
  pose proof (guid_field_run (put m L acc) q ds (L + Z.of_nat (length acc)) n Hq Ha Hs' ltac:(lia) ltac:(lia) ltac:(lia)
    ltac:(apply mapped_put; eapply mapped_sub; [exact HmL|lia|lia]) ltac:(unfold apart in *; lia)) as Hrun.
  destruct (guid_part n ds) as [[bs rest]|]; cbn [mbind option_bind].
  - specialize (HK bs rest eq_refl). rewrite put_app in HK. unfold ends, failing in *. by erewrite bind_run by exact Hrun.
  - destruct Hrun as (l & Hl & Hrun). exists (acc ++ l). split; [rewrite length_app; lia|].
    erewrite bind_run by exact Hrun. cbn [negb]. by rewrite put_app.
Qed.

(** A field of an integer is swapped afterwards. *)
Lemma swap_stage q ds n acc F f (K : M byte_mem Z) o : unread q ds → (1 ≤ n ≤ 6)%nat → (length acc + n ≤ 16)%nat →
  F = L + Z.of_nat (length acc) → (∀ l, bytes l → length l = n → le_bytes n (f (le_value l)) = reverse l) →
  (∀ bs rest, guid_part n ds = Some (bs, rest) → ends K (put m L (acc ++ reverse bs)) (o bs rest)) →
  ends (ok ← guid_field RSIZE_MAX ASCII_RSIZE_MAX k q (Z.of_nat n) F;
        if negb ok then mret RETURN_UNSUPPORTED else (v ← load_le n F; store_le n F (f v);; K))
    (put m L acc) ('(bs, rest) ← guid_part n ds; o bs rest).
Proof.
  intros Hu Hn Hacc HF Hf HK. eapply guid_stage; [done..|]. intros bs rest Hpart. specialize (HK bs rest Hpart).
  apply guid_part_Some in Hpart as (_ & Hb & Hl & _). rewrite put_app, <-HF in HK |- *.
  pose proof (swap_field_run (put m L acc) F bs n f Hb Hl (Hf bs Hb Hl)) as Hs.
  unfold ends, failing in *. by rewrite (bind_run_seq _ _ _ _ _ _ Hs).
Qed.

(** The last field. *)
Lemma last_stage q ds acc : unread q ds → length acc = 10%nat → bytes acc →
  ends (Status ← HexToBytes RSIZE_MAX ASCII_RSIZE_MAX k q (2 * 6) (L + 10) 6;
        if RETURN_ERROR Status then mret RETURN_UNSUPPORTED else (CopyGuid G L;; mret RETURN_SUCCESS)) (put m L acc)
    (if decide (12 ≤ hex_digits k ds)%nat then Some (acc ++ hex_pairs (take 12 ds)) else None).
Proof.
  intros (Hq & Ha & Hs & Hap) Hacc Hba.
  assert (cstring k (put m L acc) q ds) as Hs' by (apply cstring_put; [done|unfold apart in *; lia]).
  pose proof (HexToBytes_run (put m L acc) q ds (L + 10) 6 6 Hq Ha Hs' ltac:(lia) Hlim ltac:(lia) ltac:(done)
    ltac:(apply mapped_put; eapply mapped_sub; [exact HmL|lia|lia]) ltac:(unfold apart in *; lia)) as Hrun.
  change (Z.of_nat (2 * 6)) with (2 * 6) in Hrun. change (2 * 6)%nat with 12%nat in Hrun.
  pose proof (hex_digits_le k ds). case_decide as Hd.
  - assert (length (hex_pairs (take 12 ds)) = 6%nat) as Hl by (apply length_hex_pairs; rewrite length_take; lia).
    set (g := acc ++ hex_pairs (take 12 ds)). assert (length g = 16%nat) as Hg by (unfold g; rewrite length_app; lia).
    split; [done|]. erewrite bind_run by exact Hrun. change (RETURN_ERROR RETURN_SUCCESS) with false. cbv iota.
    replace (L + 10) with (L + Z.of_nat (length acc)) by lia. rewrite <-put_app. fold g.
    assert (bytes (hex_pairs (take 12 ds))) as Hb by by eapply hex_pairs_bytes, hex_prefix.
    erewrite bind_run; [done|]. apply CopyGuid_run; [|done|by apply mapped_put|done].
    apply buffer_put, Forall_app. done.
  - exists acc. split; [lia|]. by erewrite bind_run by exact Hrun.
Qed.

Lemma ToGuid_run p cs : unread p cs → ends (ToGuid RSIZE_MAX ASCII_RSIZE_MAX L k p G) m (guid_of cs).
Proof.
  intros Hu. pose proof Hu as (Hp & Ha & _ & _). change m with (put m L []) at 1. unfold ToGuid, guid_of.
  assert (∀ (c : M byte_mem Z) m' o, ends c m' o → ends (assert_aligned k p;; c) m' o) as Hal.
  { intros c m' o Hc. unfold ends, failing in *. by rewrite run_aligned. }
  apply Hal. rewrite check_true by (apply negb_true_iff, Z.eqb_neq; lia).
  rewrite check_true by (apply negb_true_iff, Z.eqb_neq; lia). cbv zeta.
  apply (swap_stage p cs 4 []); [done|lia|cbn; lia|cbn; lia|exact swapped32|]. intros a cs1 E1.
  pose proof (unread_rest _ _ _ _ _ Hu E1) as Hu1. apply guid_part_Some in E1 as (_ & Ba & La & _).
  apply (swap_stage _ cs1 2 (reverse a)); [exact Hu1|lia|rewrite length_reverse; lia|rewrite length_reverse; lia|exact swapped16|].
  intros b cs2 E2. pose proof (unread_rest _ _ _ _ _ Hu1 E2) as Hu2. apply guid_part_Some in E2 as (_ & Bb & Lb & _).
  apply (swap_stage _ cs2 2 (reverse a ++ reverse b));
    [exact Hu2|lia|rewrite length_app, !length_reverse; lia|rewrite length_app, !length_reverse; lia|exact swapped16|].
  intros c cs3 E3. pose proof (unread_rest _ _ _ _ _ Hu2 E3) as Hu3. apply guid_part_Some in E3 as (_ & Bc & Lc & _).
  apply (guid_stage _ cs3 2 ((reverse a ++ reverse b) ++ reverse c));
    [exact Hu3|lia|rewrite !length_app, !length_reverse; lia|rewrite !length_app, !length_reverse; lia|].
  intros d cs4 E4. pose proof (unread_rest _ _ _ _ _ Hu3 E4) as Hu4. apply guid_part_Some in E4 as (_ & Bd & Ld & _).
  rewrite !app_assoc. apply last_stage; [exact Hu4|rewrite !length_app, !length_reverse; lia|].
  unfold bytes in *. rewrite !Forall_app, !Forall_reverse. done.
Qed.
End guid.
End strings.

(** ** The text of a GUID *)

Definition hex_char (up : bool) (v : Z) : Z := if v <? 10 then 48 + v else (if up then 55 else 87) + v.

Definition hex_text (up : bool) (bs : list Z) : list Z := bs ≫= λ b, [hex_char up (b / 16); hex_char up (b mod 16)].

(** aabbccdd-eeff-gghh-iijj-kkllmmnnoopp for the bytes of the structure. *)
Definition guid_text (up : bool) (g : list Z) : list Z :=
  hex_text up (reverse (take 4 g)) ++ 45 :: hex_text up (reverse (take 2 (drop 4 g))) ++
  45 :: hex_text up (reverse (take 2 (drop 6 g))) ++ 45 :: hex_text up (take 2 (drop 8 g)) ++
  45 :: hex_text up (drop 10 g).

Lemma hex_char_digit up k v : 0 ≤ v < 16 → is_hex k (hex_char up v) = true ∧ hexadecimal (hex_char up v) = v.
Proof.
  intros Hv. assert (forallb (λ v, is_hex k (hex_char up v) && (hexadecimal (hex_char up v) =? v)) (seqZ 0 16) = true) as Hall
    by (destruct up, k; by vm_compute).
  rewrite forallb_forall in Hall. specialize (Hall v ltac:(apply list_elem_of_In, elem_of_seqZ; lia)).
  apply andb_true_iff in Hall as [? ?%Z.eqb_eq]. done.
Qed.

Lemma hex_text_pairs up k bs : bytes bs →
  Forall (λ c, is_hex k c = true) (hex_text up bs) ∧ hex_pairs (hex_text up bs) = bs ∧ length (hex_text up bs) = (2 * length bs)%nat.
Proof.
  induction bs as [|b bs IH]; intros Hb; [by split_and!; [constructor|..]|]. apply Forall_cons in Hb as [Hb Hbs].
  unfold byte in Hb. destruct (IH Hbs) as (IH1 & IH2 & IH3). unfold hex_text in *. rewrite bind_cons.
  pose proof (Z.div_mod b 16 ltac:(done)). pose proof (Z.mod_pos_bound b 16 ltac:(done)).
  assert (0 ≤ b / 16 < 16) as Hdiv by (split; [apply Z.div_pos; lia|apply Z.div_lt_upper_bound; lia]).
  destruct (hex_char_digit up k (b / 16) Hdiv) as [H1 V1], (hex_char_digit up k (b mod 16) ltac:(lia)) as [H2 V2].
  split_and!; [by repeat constructor| |cbn [length app]; rewrite IH3; lia].
  cbn [app hex_pairs]. rewrite V1, V2, IH2. f_equal. lia.
Qed.

Lemma hex_digits_app k ds rest : Forall (λ c, is_hex k c = true) ds → hex_digits k (ds ++ rest) = (length ds + hex_digits k rest)%nat.
Proof.
  unfold hex_digits. induction ds as [|c ds IH]; intros Hds; [done|]. apply Forall_cons in Hds as [Hc Hds].
  cbn [app take_while]. rewrite Hc. cbn [length]. by rewrite IH.
Qed.

Lemma guid_part_text up k bs rest : bytes bs → guid_part k (length bs) (hex_text up bs ++ 45 :: rest) = Some (bs, rest).
Proof.
  intros Hb. destruct (hex_text_pairs up k bs Hb) as (Hd & Hp & Hl). unfold guid_part.
  rewrite decide_True by (rewrite hex_digits_app by done; lia). rewrite <-Hl.
  rewrite drop_app_length, take_app_length, Hp. done.
Qed.

Lemma guid_text_parsed up k g rest : bytes g → length g = 16%nat → guid_of k (guid_text up g ++ rest) = Some g.
Proof.
  intros Hb Hl. unfold guid_of, guid_text.
  assert (∀ i n, bytes (take n (drop i g))) as Hpart by (intros i n; by apply Forall_take, Forall_drop).
  assert (∀ i n l, bytes l → length l = n → guid_part k n (hex_text up l ++ 45 :: i) = Some (l, i)) as Hg
    by (intros i n l Hbl <-; by apply guid_part_text).
  rewrite <-!app_assoc. cbn [app]. rewrite <-!app_assoc. cbn [app]. rewrite <-!app_assoc. cbn [app]. rewrite <-!app_assoc. cbn [app].
  rewrite Hg; [|apply Forall_reverse; apply (Hpart 0%nat)|rewrite length_reverse, length_take; lia]. cbn [mbind option_bind].
  rewrite Hg; [|apply Forall_reverse, Hpart|rewrite length_reverse, length_take, length_drop; lia]. cbn [mbind option_bind].
  rewrite Hg; [|apply Forall_reverse, Hpart|rewrite length_reverse, length_take, length_drop; lia]. cbn [mbind option_bind].
  rewrite Hg; [|apply Hpart|rewrite length_take, length_drop; lia]. cbn [mbind option_bind].
  assert (bytes (drop 10 g)) as Hlast by by apply Forall_drop.
  destruct (hex_text_pairs up k _ Hlast) as (Hd & Hp & Hlen). rewrite length_drop, Hl in Hlen.
  rewrite decide_True by (rewrite hex_digits_app by done; lia).
  replace 12%nat with (length (hex_text up (drop 10 g))) by lia. rewrite take_app_length, Hp, !reverse_involutive.
  f_equal. symmetry. rewrite <-(take_drop 4 g) at 1. f_equal. rewrite <-(take_drop 2 (drop 4 g)) at 1. f_equal.
  rewrite drop_drop, <-(take_drop 2 (drop (4 + 2) g)) at 1. f_equal.
  by rewrite drop_drop, <-(take_drop 2 (drop (4 + 2 + 2) g)), drop_drop.
Qed.

(** ** The functions *)

Section claims.
Context (RSIZE_MAX ASCII_RSIZE_MAX : Z) (k : char_kind).
Abbreviation limit := (rsize_max RSIZE_MAX ASCII_RSIZE_MAX k).
Abbreviation HexToBytes := (HexToBytes RSIZE_MAX ASCII_RSIZE_MAX k).
Abbreviation ToGuid := (ToGuid RSIZE_MAX ASCII_RSIZE_MAX).

(** What StrHexToBytes refuses before it looks at the string. *)
Definition hex_refused (String Length Buffer Max : Z) : option Z :=
  if decide (String = 0 ∨ Buffer = 0 ∨ (limit ≠ 0 ∧ limit < Length) ∨ Z.odd Length = true)
  then Some RETURN_INVALID_PARAMETER
  else if decide (Max < Length / 2) then Some RETURN_BUFFER_TOO_SMALL else None.

Lemma HexToBytes_refused m String Length Buffer Max Status : aligned k String →
  hex_refused String Length Buffer Max = Some Status → HexToBytes String Length Buffer Max m = Some (Status, m).
Proof.
  intros Ha Hr. unfold StrParse.HexToBytes, hex_refused in *. rewrite run_aligned by done.
  assert ((Z.land Length 1 =? 0) = negb (Z.odd Length)) as Hodd.
  { change (Z.land Length 1) with (Z.land Length (Z.ones 1)). rewrite Z.land_ones by lia. change (2 ^ 1) with 2.
    rewrite Zmod_odd. by destruct (Z.odd Length). }
  rewrite Hodd. destruct (Z.eqb_spec String 0) as [HS|HS]; cbn [negb].
  { rewrite decide_True in Hr by tauto. by simplify_eq. }
  rewrite check_true by done. destruct (Z.eqb_spec Buffer 0) as [HB|HB]; cbn [negb].
  { rewrite decide_True in Hr by tauto. by simplify_eq. }
  rewrite check_true by done. destruct (within_rsize RSIZE_MAX ASCII_RSIZE_MAX k Length) eqn:Hw.
  2: { unfold within_rsize in Hw. destruct (Z.eqb_spec limit 0); [done|]. cbn [negb] in Hw. apply Z.leb_gt in Hw.
       rewrite decide_True in Hr by tauto. by simplify_eq. }
  assert (¬ (limit ≠ 0 ∧ limit < Length)) as Hlim.
  { unfold within_rsize in Hw. destruct (Z.eqb_spec limit 0); [tauto|]. cbn [negb] in Hw. apply Z.leb_le in Hw. lia. }
  rewrite check_true by done. destruct (Z.odd Length) eqn:Ho; cbn [negb].
  { rewrite decide_True in Hr by tauto. by simplify_eq. }
  rewrite check_true by done. rewrite decide_False in Hr by (intros [?|[?|[?|?]]]; first [done|tauto|congruence]). case_decide; [|done]. simplify_eq.
  rewrite check_false; [done|]. rewrite Z.geb_leb. by apply Z.leb_gt.
Qed.

(** C21: StrHexToBytes and StrToGuid, with their CHAR8 versions, against their
    definitions on lists of characters.  StrHexToBytes refuses bad arguments, an odd
    Length and a buffer that is too small, returns RETURN_UNSUPPORTED and leaves
    memory alone when the string has fewer than Length hexadecimal digits, and
    otherwise stores the byte of each pair of digits.  StrToGuid stores the 16 bytes
    of the structure, its first three fields in little-endian order, exactly for the
    strings that begin with the five groups of digits, and otherwise returns
    RETURN_UNSUPPORTED without touching Guid; so the canonical text of any GUID, in
    either case of letters, is read back as that GUID. *)
Theorem hex_strings_exact m p cs : 0 < p → aligned k p → cstring k m p cs →
  (∀ String Length Buffer Max Status, aligned k String → hex_refused String Length Buffer Max = Some Status →
    HexToBytes String Length Buffer Max m = Some (Status, m)) ∧
  (∀ r Buffer Max, 0 < Buffer → hex_refused p (Z.of_nat (2 * r)) Buffer Max = None → Z.of_nat (2 * r) < 2 ^ 64 →
    mapped m Buffer (Z.of_nat r) → apart Buffer (Z.of_nat r) p (chars_size k (S (length cs))) →
    HexToBytes p (Z.of_nat (2 * r)) Buffer Max m =
      if decide (2 * r ≤ hex_digits k cs)%nat then Some (RETURN_SUCCESS, put m Buffer (hex_pairs (take (2 * r) cs)))
      else Some (RETURN_UNSUPPORTED, m)) ∧
  (∀ L G, 0 < L → 0 < G → limit = 0 ∨ 12 ≤ limit → mapped m L 16 → mapped m G 16 → apart G 16 L 16 →
    apart L 16 p (chars_size k (S (length cs))) →
    match guid_of k cs with
    | Some g => length g = 16%nat ∧ ToGuid L k p G m = Some (RETURN_SUCCESS, put (put m L g) G g)
    | None => ∃ l, (length l ≤ 16)%nat ∧ ToGuid L k p G m = Some (RETURN_UNSUPPORTED, put m L l)
    end) ∧
  (∀ up g rest, bytes g → length g = 16%nat → guid_of k (guid_text up g ++ rest) = Some g).
Proof.
  intros Hp Ha Hs. split_and!.
  - intros. by apply HexToBytes_refused.
  - intros r Buffer Max HB Hr H64 Hm Hap. unfold hex_refused in Hr. do 2 (case_decide; [done|]).
    pose proof (even_index r) as [_ Hhalf]. rewrite Hhalf in *. apply HexToBytes_run; try done; [|lia].
    destruct (decide (limit = 0)); [by left|]. right. apply Z.nlt_ge. tauto.
  - intros L G HL HG Hlim HmL HmG HLG Hap. by apply (ToGuid_run RSIZE_MAX ASCII_RSIZE_MAX k m L G).
  - intros. by apply guid_text_parsed.
Qed.
End claims.

(** The bytes 0 to 15 as a GUID, its text in lower case at 16 and room for it at 96 and 112. *)
Definition ex_guid : list Z := seqZ 0 16.
Definition ex_guid_memory : byte_mem := put_chars Ascii (put ∅ 96 (replicate 32 0)) 16 (guid_text false ex_guid ++ [0]).

Lemma hex_strings_exact_witness :
  ToGuid 0 0 96 Ascii 16 112 ex_guid_memory = Some (RETURN_SUCCESS, put (put ex_guid_memory 96 ex_guid) 112 ex_guid).
Proof.
  assert (cstring Ascii ex_guid_memory 16 (guid_text false ex_guid)) as Hs.
  { split; [by repeat constructor|]. apply put_chars_chars. by repeat constructor. }
  destruct (hex_strings_exact 0 0 Ascii ex_guid_memory 16 _ ltac:(done) ltac:(done) Hs) as (_ & _ & Hguid & Hround).
  specialize (Hround false ex_guid [] ltac:(by repeat constructor) eq_refl). rewrite app_nil_r in Hround.
  specialize (Hguid 96 112 ltac:(done) ltac:(done) ltac:(by left)). rewrite Hround in Hguid.
  apply Hguid; [| |right; done|right; by vm_compute].
  - intros i Hi. unfold ex_guid_memory, put_chars. apply mapped_put with (q := 96) (n := 32); [|lia].
    change 32 with (Z.of_nat (length (replicate 32 0))). apply put_mapped.
  - intros i Hi. unfold ex_guid_memory, put_chars. apply mapped_put with (q := 96) (n := 32); [|lia].
    change 32 with (Z.of_nat (length (replicate 32 0))). apply put_mapped.
Defined.
