(* ===== verification/StrAddressSpec.v ===== *)
(** * Parsers of addresses: equivalence with lists of characters *)
From S2P Require Import Prelude CBase Math64 CheckSum CheckSumSpec ByteMem SafeString SafeStringSpec ByteOrder StrConvert.
From S2P Require Import StrConvertSpec StrCompare StrCompareSpec StrParse StrParseSpec.
Local Open Scope Z_scope.

(** ** IPv4 addresses on lists *)

Section reference.
Context (k : char_kind).
Abbreviation dec := (is_decimal k).
Abbreviation number := (value 10 decimal).

(** [n] numbers up to 255 with dots between them; the rest of the string. *)
Fixpoint v4_octets (n : nat) (cs : list Z) : option (list Z * list Z) :=
  match n with
  | O => Some ([], cs)
  | S n =>
    let ds := take_while dec cs in
    if decide (ds = [] ∨ 255 < number ds) then None else
    match n, drop_while dec cs with
    | O, rest => Some ([number ds], rest)
    | _, c :: rest => if c =? 46 then '(os, rest) ← v4_octets n rest; Some (number ds :: os, rest) else None
    | _, [] => None
    end
  end.

Lemma v4_octets_S n cs :
  v4_octets (S n) cs =
    if decide (take_while dec cs = [] ∨ 255 < number (take_while dec cs)) then None else
    match n, drop_while dec cs with
    | O, rest => Some ([number (take_while dec cs)], rest)
    | _, c :: rest =>
      if c =? 46 then '(os, rest) ← v4_octets n rest; Some (number (take_while dec cs) :: os, rest) else None
    | _, [] => None
    end.
Proof. done. Qed.

(** What follows a slash: prefix lengths, as long as slashes follow them. *)
Fixpoint v4_lengths (fuel : nat) (P : Z) (cs : list Z) : option (Z * list Z) :=
  match fuel with
  | O => None
  | S fuel =>
    let ds := take_while dec cs in
    if decide (ds = []) then Some (P, cs) else
    if decide (32 < number ds) then None else
    match drop_while dec cs with
    | c :: rest => if c =? 47 then v4_lengths fuel (number ds) rest else Some (number ds, c :: rest)
    | [] => Some (number ds, [])
    end
  end.

Definition v4_prefix (P : Z) (cs : list Z) : option (Z * list Z) :=
  match cs with
  | c :: rest => if c =? 47 then v4_lengths (S (length rest)) P rest else Some (P, cs)
  | [] => Some (P, cs)
  end.

(** The octets, the prefix length and the rest of the string. *)
Definition v4_address (cs : list Z) : option (list Z * Z * list Z) :=
  '(os, rest) ← v4_octets 4 cs; '(P, rest) ← v4_prefix 255 rest; Some (os, P, rest).
End reference.

(** ** Numbers at the start of a string *)

Section strings.
Context (RSIZE_MAX ASCII_RSIZE_MAX : Z) (k : char_kind) (m : byte_mem).
Abbreviation limit := (rsize_max RSIZE_MAX ASCII_RSIZE_MAX k).
Abbreviation dec := (is_decimal k).
Context (Hlim : 0 ≤ limit < 2 ^ 32 - 1).

(** A string at an address that the conversions accept. *)
Definition readable (p : Z) (cs : list Z) : Prop :=
  0 < p ∧ aligned k p ∧ cstring k m p cs ∧ (limit = 0 ∨ Z.of_nat (length cs) ≤ limit).

Lemma readable_drop p cs i : readable p cs → (i ≤ length cs)%nat → readable (p + chars_size k i) (drop i cs).
Proof.
  intros (Hp & Ha & Hs & Hl) Hi. unfold chars_size. split_and!.
  - destruct (sizeof_char_cases k) as [-> | ->]; lia.
  - intros HU. specialize (Ha HU). rewrite HU. change (sizeof_char Unicode) with 2. rewrite Z.mul_comm, Z.mod_add by done. done.
  - by apply cstring_drop.
  - rewrite length_drop. lia.
Qed.

Lemma readable_cons p c cs : readable p (c :: cs) → readable (p + sizeof_char k) cs.
Proof.
  intros Hr. pose proof (readable_drop p (c :: cs) 1 Hr ltac:(cbn; lia)) as Hd. unfold chars_size in Hd.
  by rewrite Z.mul_1_r in Hd.
Qed.

Lemma readable_app p cs ds : readable p (cs ++ ds) → readable (p + chars_size k (length cs)) ds.
Proof.
  intros Hr. pose proof (readable_drop p (cs ++ ds) (length cs) Hr ltac:(rewrite length_app; lia)) as Hd.
  by rewrite drop_app_length in Hd.
Qed.

Lemma readable_head p cs : readable p cs → read_char k p m = Some (hd 0 cs, m).
Proof. intros (_ & _ & Hs & _). by apply cstring_head. Qed.

Lemma readable_fuel p cs : readable p cs → (length cs < S (size m))%nat.
Proof. intros (_ & _ & Hs & _). by eapply cstring_fuel. Qed.

Lemma no_pad cs : pad_space (hd 0 cs) = false → take_while pad_space cs = [] ∧ drop_while pad_space cs = cs.
Proof. destruct cs as [|c cs]; [done|]. cbn [hd take_while drop_while]. by intros ->. Qed.

Lemma digit_no_pad c : 48 ≤ c → pad_space c = false.
Proof. intros. unfold pad_space. by rewrite (proj2 (Z.eqb_neq c 32)), (proj2 (Z.eqb_neq c 9)) by lia. Qed.

(** The decimal number at a character that is not a space. *)
Lemma decimal_number_run p cs : readable p cs → pad_space (hd 0 cs) = false →
  ∃ Status e n, decimal_number RSIZE_MAX ASCII_RSIZE_MAX k p m = Some ((Status, e, n), m) ∧
    (if value 10 decimal (take_while dec cs) >? MAX_UINTN then RETURN_ERROR Status = true
     else Status = RETURN_SUCCESS ∧ e = p + chars_size k (length (take_while dec cs)) ∧ n = value 10 decimal (take_while dec cs)).
Proof.
  intros (Hp & Ha & [Hnz Hch] & Hl) [E1 E2]%no_pad. unfold decimal_number, parse_number.
  pose proof (DecimalToIntegerS_run RSIZE_MAX ASCII_RSIZE_MAX k m p cs Hp Ha Hlim Hnz Hch decimal_uintn MAX_UINTN (Some p) 0
    ltac:(done) (λ a b m' Ha Hb, decimal_uintn_step a b m' Ha Hb)) as Hrun. rewrite decide_True in Hrun by done.
  unfold parse_decimal, parsed in Hrun. rewrite E1, E2 in Hrun.
  destruct (value 10 decimal (take_while dec cs) >? MAX_UINTN) eqn:Hv;
    (erewrite bind_run by exact Hrun); cbn [set_pointer fmap option_fmap option_map length Nat.add]; do 3 eexists.
  - split; [done|by vm_compute].
  - split; [done|]. by split_and!.
Qed.

(** ** The loop of IPv4 *)

Abbreviation ipv4_loop := (ipv4_loop RSIZE_MAX ASCII_RSIZE_MAX).
Abbreviation number := (value 10 decimal).

Lemma head_digit cs : dec (hd 0 cs) = bool_decide (take_while dec cs ≠ []).
Proof.
  destruct cs as [|c cs]; cbn [hd take_while]; [by destruct k|].
  destruct (dec c); [by rewrite bool_decide_eq_true_2|rewrite bool_decide_eq_false_2; tauto].
Qed.

Lemma digits_split cs : cs = take_while dec cs ++ drop_while dec cs ∧
  (length (drop_while dec cs) = length cs - length (take_while dec cs))%nat.
Proof.
  split; [by rewrite take_drop_while|]. rewrite <-drop_take_while, length_drop. done.
Qed.

Lemma number_nonneg cs : 0 ≤ number (take_while dec cs).
Proof.
  apply (value_from_le 10 decimal dec ltac:(lia)); [|lia|apply take_while_all].
  intros c Hc%is_decimal_digit. unfold decimal. lia.
Qed.

(** One number: the loop goes on with it, or stops when there is none or it is too big. *)
Lemma ipv4_number fuel p cs Local P (Hl : (length Local ≤ 4)%nat) : readable p cs →
  let ds := take_while dec cs in
  let rest := drop_while dec cs in
  let p' := p + chars_size k (length ds) in
  readable p' rest ∧
  ipv4_loop (S fuel) k p Local P m =
    if decide (ds = []) then Some (Some (p, Local, P), m) else
    if decide ((if decide (length Local = 4%nat) then 32 else 255) < number ds) then Some (None, m) else
    if decide (length Local = 4%nat) then
      if hd 0 rest =? 47 then ipv4_loop fuel k (p' + sizeof_char k) Local (number ds) m
      else Some (Some (p', Local, number ds), m)
    else if decide (length Local = 3%nat) then
      if hd 0 rest =? 47 then ipv4_loop fuel k (p' + sizeof_char k) (Local ++ [number ds]) P m
      else Some (Some (p', Local ++ [number ds], P), m)
    else if hd 0 rest =? 46 then ipv4_loop fuel k (p' + sizeof_char k) (Local ++ [number ds]) P m
    else Some (None, m).
Proof.
  intros Hr ds rest p'. pose proof (take_while_le dec cs) as Hle.
  assert (readable p' rest) as Hr' by (unfold rest; rewrite <-drop_take_while; by apply readable_drop). split; [done|].
  cbn [StrParse.ipv4_loop]. rewrite (proj2 (Z.ltb_lt _ _)) by lia. erewrite bind_run by by apply readable_head.
  rewrite head_digit. fold ds. destruct (decide (ds = [])) as [Hnil|Hne].
  { by rewrite bool_decide_eq_false_2 by tauto. }
  rewrite bool_decide_eq_true_2 by done. cbn [negb].
  assert (pad_space (hd 0 cs) = false) as Hpad.
  { destruct cs as [|c cs]; [done|]. apply digit_no_pad. unfold ds in Hne. cbn [take_while] in Hne.
    destruct (dec c) eqn:Hdc; [apply is_decimal_digit in Hdc; cbn; lia|done]. }
  destruct (decimal_number_run p cs Hr Hpad) as (Status & e & n & Hrun & Hout). erewrite bind_run by exact Hrun.
  cbv beta iota. fold ds in Hout. rewrite Z.gtb_ltb in Hout.
  destruct (Z.ltb_spec MAX_UINTN (number ds)) as [Hbig|Hsmall].
  { rewrite Hout. rewrite decide_True; [done|]. unfold MAX_UINTN in Hbig. case_decide; lia. }
  destruct Hout as (-> & -> & ->). change (RETURN_ERROR RETURN_SUCCESS) with false. cbv iota. rewrite !Z.gtb_ltb.
  pose proof (number_nonneg cs) as Hpos. fold ds in Hpos.
  fold p'. destruct (decide (length Local = 4%nat)) as [H4|H4].
  - rewrite (proj2 (Z.eqb_eq _ 4)) by lia. destruct (Z.ltb_spec 32 (number ds)); [by rewrite decide_True|].
    rewrite decide_False by lia. erewrite bind_run by by apply readable_head.
    assert (cast UINT8 (number ds) = number ds) as -> by (apply cast_id; [done|cint_unfold; lia]).
    by destruct (hd 0 rest =? 47).
  - rewrite (proj2 (Z.eqb_neq _ 4)) by lia. unfold MAX_UINT8.
    destruct (Z.ltb_spec 255 (number ds)); [by rewrite decide_True|]. rewrite decide_False by lia.
    assert (cast UINT8 (number ds) = number ds) as -> by (apply cast_id; [done|cint_unfold; lia]).
    erewrite bind_run by by apply readable_head. rewrite length_app. cbn [length]. destruct (decide (length Local = 3%nat)) as [H3|H3].
    + rewrite (proj2 (Z.eqb_eq _ 4)) by lia. by destruct (hd 0 rest =? 47).
    + rewrite (proj2 (Z.eqb_neq _ 4)) by lia. by destruct (hd 0 rest =? 46).
Qed.

(** Where the rest of a string starts. *)
Abbreviation after p cs rest := (p + chars_size k (length cs - length rest)).

Lemma after_trans p (cs cs1 rest : list Z) : (length rest ≤ length cs1 ≤ length cs)%nat → after (after p cs cs1) cs1 rest = after p cs rest.
Proof. intros. unfold chars_size. destruct (sizeof_char_cases k) as [-> | ->]; lia. Qed.

Lemma after_digits p cs : p + chars_size k (length (take_while dec cs)) = after p cs (drop_while dec cs).
Proof.
  destruct (digits_split cs) as [_ Hl]. pose proof (take_while_le dec cs). do 2 f_equal. lia.
Qed.

Lemma after_next p (cs : list Z) (c : Z) rest : (length (c :: rest) ≤ length cs)%nat → after p cs (c :: rest) + sizeof_char k = after p cs rest.
Proof. intros Hl. cbn [length] in *. unfold chars_size. destruct (sizeof_char_cases k) as [-> | ->]; lia. Qed.

Lemma ipv4_lengths_run f : ∀ fuel p cs Local P, length Local = 4%nat → readable p cs →
  (length cs < fuel)%nat → (length cs < f)%nat →
  match v4_lengths k f P cs with
  | None => ipv4_loop fuel k p Local P m = Some (None, m)
  | Some (P', rest) => (length rest ≤ length cs)%nat ∧
      ipv4_loop fuel k p Local P m = Some (Some (after p cs rest, Local, P'), m)
  end.
Proof.
  induction f as [|f IH]; intros fuel p cs Local P HL Hr Hfuel Hf; [lia|]. destruct fuel as [|fuel]; [lia|].
  destruct (ipv4_number fuel p cs Local P ltac:(lia) Hr) as [Hr' Hrun]. rewrite HL in Hrun.
  rewrite !(decide_True _ _ eq_refl) in Hrun. rewrite Hrun. rewrite after_digits in *. cbn [v4_lengths].
  pose proof (take_while_le dec cs) as Hle. destruct (digits_split cs) as [_ Hlen].
  case_decide as Hnil.
  { split; [lia|]. rewrite Nat.sub_diag. unfold chars_size. by rewrite Z.mul_0_r, Z.add_0_r. }
  assert (length (take_while dec cs) ≠ 0%nat) by by destruct (take_while dec cs).
  case_decide; [done|]. destruct (drop_while dec cs) as [|c rest] eqn:Hrest; cbn [hd].
  { change (0 =? 47) with false. cbv iota. split; [cbn; lia|done]. }
  cbn [length] in Hlen. destruct (c =? 47); [|split; [cbn; lia|done]].
  rewrite after_next by (cbn; lia). specialize (IH fuel (after p cs rest) rest Local (number (take_while dec cs)) HL).
  assert (readable (after p cs rest) rest) as Hrr by (rewrite <-(after_next p cs c) by (cbn; lia); by eapply readable_cons).
  specialize (IH Hrr ltac:(lia) ltac:(lia)). destruct (v4_lengths k f (number (take_while dec cs)) rest) as [[P' r']|]; [|done].
  destruct IH as [? ->]. split; [lia|]. by rewrite after_trans by lia.
Qed.

Lemma ipv4_octets_run n : ∀ fuel p cs Local P, (length Local + S n = 4)%nat → readable p cs → (length cs < fuel)%nat →
  match v4_octets k (S n) cs with
  | None => ∃ r, ipv4_loop fuel k p Local P m = Some (r, m) ∧ (∀ e L P', r = Some (e, L, P') → (length L < 4)%nat)
  | Some (os, rest) => length os = S n ∧ Forall byte os ∧
      match v4_prefix k P rest with
      | None => ipv4_loop fuel k p Local P m = Some (None, m)
      | Some (P', rest') => (length rest' ≤ length cs)%nat ∧
          ipv4_loop fuel k p Local P m = Some (Some (after p cs rest', Local ++ os, P'), m)
      end
  end.
Proof.
  induction n as [|n IH]; intros fuel p cs Local P HL Hr Hfuel; (destruct fuel as [|fuel]; [lia|]);
    destruct (ipv4_number fuel p cs Local P ltac:(lia) Hr) as [Hr' Hrun];
    rewrite !(decide_False (P := length Local = 4%nat)) in Hrun by lia; rewrite Hrun, after_digits in *;
    pose proof (take_while_le dec cs) as Hle; destruct (digits_split cs) as [_ Hlen]; rewrite v4_octets_S.
  all: destruct (decide (take_while dec cs = [])) as [Hnil|Hnil];
    [rewrite decide_True by tauto; eexists; split; [done|intros; simplify_eq; lia]|].
  all: destruct (decide (255 < number (take_while dec cs))) as [Hbig|Hbig];
    [rewrite decide_True by tauto; by eexists|rewrite decide_False by tauto].
  all: assert (length (take_while dec cs) ≠ 0%nat) by (by destruct (take_while dec cs));
    assert (byte (number (take_while dec cs))) as Hb by (pose proof (number_nonneg cs); unfold byte; lia).
  - rewrite (decide_True (P := length Local = 3%nat)) by lia.
    assert (Forall byte [number (take_while dec cs)]) as Hbs by by constructor.
    split; [done|]. split; [done|]. destruct (drop_while dec cs) as [|c rest]; [by split; [cbn; lia|]|].
    cbn [hd]. unfold v4_prefix. destruct (c =? 47); [|by split; [cbn in *; lia|]].
    rewrite after_next by (cbn in *; lia).
    assert (readable (after p cs rest) rest) as Hrr by (rewrite <-(after_next p cs c) by (cbn in *; lia); by eapply readable_cons).
    cbn [length] in Hlen.
    pose proof (ipv4_lengths_run (S (length rest)) fuel _ rest (Local ++ [number (take_while dec cs)]) P
      ltac:(rewrite length_app; cbn; lia) Hrr ltac:(lia) ltac:(lia)) as Hls.
    destruct (v4_lengths k _ P rest) as [[P' r']|]; [|done]. destruct Hls as [? ->]. split; [lia|].
    by rewrite after_trans by lia.
  - rewrite (decide_False (P := length Local = 3%nat)) by lia.
    destruct (drop_while dec cs) as [|c rest]; [by eexists|]. cbn [hd].
    destruct (c =? 46); [|by eexists]. rewrite after_next by (cbn in *; lia).
    assert (readable (after p cs rest) rest) as Hrr by (rewrite <-(after_next p cs c) by (cbn in *; lia); by eapply readable_cons).
    cbn [length] in Hlen. set (d := number (take_while dec cs)) in *.
    specialize (IH fuel _ rest (Local ++ [d]) P ltac:(rewrite length_app; cbn; lia) Hrr ltac:(lia)).
    destruct (v4_octets k (S n) rest) as [[os r]|]; cbn [mbind option_bind]; [|done].
    destruct IH as (Hos & Hbs & IH). split; [cbn; lia|]. split; [by constructor|].
    destruct (v4_prefix k P r) as [[P' r']|]; [|done]. destruct IH as [? ->]. split; [lia|].
    by rewrite after_trans, <-app_assoc by lia.
Qed.
End strings.

(** ** StrToIpv4Address *)

Section claims.
Context (RSIZE_MAX ASCII_RSIZE_MAX : Z) (k : char_kind) (m : byte_mem).
Abbreviation limit := (rsize_max RSIZE_MAX ASCII_RSIZE_MAX k).

End claims.

(** The text "192.168.1.20/24;" at 16. *)
Definition ex_ipv4_text : list Z := [49; 57; 50; 46; 49; 54; 56; 46; 49; 46; 50; 48; 47; 50; 52; 59].
Definition ex_ipv4_memory : byte_mem := put_chars Ascii (put ∅ 96 (replicate 4 0)) 16 (ex_ipv4_text ++ [0]).

