(* ===== verification/StrIpv6Spec.v ===== *)
(** * IPv6 addresses: equivalence with a parser of lists, and their texts

    The parser of lists has the state of the loop of StrToIpv6Address without its
    pointer and memory: the bytes read, the place of the "::", whether a prefix
    length comes next, and the prefix length. *)
From S2P Require Import Prelude CBase Math64 CheckSum CheckSumSpec ByteMem SafeString SafeStringSpec ByteOrder StrConvert.
From S2P Require Import StrConvertSpec StrCompare StrCompareSpec StrParse StrParseSpec StrAddressSpec.
Local Open Scope Z_scope.

(** ** The parser *)

Section parser.
Context (k : char_kind).
Abbreviation dec := (is_decimal k).
Abbreviation hex := (is_hex k).
Abbreviation decnum := (value 10 decimal).
Abbreviation hexnum := (value 16 hexadecimal).

(** A hexadecimal number: how many characters it has, and its value.  An x after
    zeros is part of it. *)
Definition hex_span (cs : list Z) : nat * Z :=
  let zeros := length (take_while leading_zero cs) in
  let digits n cs := ((n + length (take_while hex cs))%nat, hexnum (take_while hex cs)) in
  match drop_while leading_zero cs with
  | c :: rest => if letter_x c then (if (zeros =? 0)%nat then (0%nat, 0) else digits (S zeros) rest) else digits 0%nat cs
  | [] => digits 0%nat cs
  end.

Definition v6_state : Type := list Z * Z * Z * list Z.

Definition v6_colon (A : list Z) (start : Z) (expect : bool) (cs : list Z) : option (Z * list Z) :=
  if hex (hd 0 cs) then Some (start, cs) else
  match cs with
  | c :: rest =>
    if negb (c =? 58) || expect || negb (start =? 16) || (Z.of_nat (length A) =? 16) then None else
    if Z.of_nat (length A) =? 0 then match rest with d :: rest => if d =? 58 then Some (0, rest) else None | [] => None end
    else Some (Z.of_nat (length A), rest)
  | [] => None
  end.

(** A group, or the end of the address. *)
Definition v6_item (A : list Z) (start : Z) (expect : bool) (P : Z) (cs : list Z) : option (v6_state + list Z * list Z) :=
  if hex (hd 0 cs) then
    if expect then
      let ds := take_while dec cs in
      if decide (ds = [] ∨ 128 < decnum ds) then None else Some (inl (A, start, decnum ds, drop_while dec cs))
    else
      let '(n, v) := hex_span cs in
      if decide (4 < n)%nat then None else Some (inr (A ++ [v / 256; v mod 256], drop n cs))
  else if hd 0 cs =? 47 then (if start =? Z.of_nat (length A) then Some (inr (A, cs)) else None)
  else Some (inl (A, start, P, cs)).

Section next.
Context (loop : list Z → Z → bool → Z → list Z → option v6_state).

Definition v6_next (A : list Z) (start : Z) (expect : bool) (P : Z) (cs : list Z) : option v6_state :=
  match cs with
  | c :: rest =>
    if c =? 47 then loop A start true P rest else
    if c =? 58 then (if Z.of_nat (length A) =? 16 then Some (A, start, P, cs) else loop A start expect P rest)
    else Some (A, start, P, cs)
  | [] => Some (A, start, P, cs)
  end.

Definition v6_body (A : list Z) (start : Z) (expect : bool) (P : Z) (cs : list Z) : option v6_state :=
  r ← v6_item A start expect P cs;
  match r with inl st => Some st | inr (A, cs) => v6_next A start expect P cs end.
End next.

Fixpoint v6_loop (fuel : nat) (A : list Z) (start : Z) (expect : bool) (P : Z) (cs : list Z) : option v6_state :=
  match fuel with
  | O => None
  | S fuel => '(start, cs) ← v6_colon A start expect cs; v6_body (v6_loop fuel) A start expect P cs
  end.

(** The 16 bytes, the prefix length and the rest of the string. *)
Definition v6_address (cs : list Z) : option (list Z * Z * list Z) :=
  '(A, start, P, rest) ← v6_loop (S (length cs)) [] 16 false 255 cs;
  let n := Z.of_nat (length A) in
  if ((n =? 16) && negb (start =? 16)) || (negb (n =? 16) && (start =? 16)) then None else
  Some (take (Z.to_nat start) A ++ replicate (16 - length A) 0 ++ drop (Z.to_nat start) A, P, rest).

(** ** Its states *)

Definition v6_shape (A : list Z) (start : Z) (expect : bool) : Prop :=
  bytes A ∧ Nat.Even (length A) ∧ (length A ≤ 16)%nat ∧ (start = 16 ∨ 0 ≤ start ≤ Z.of_nat (length A)) ∧
  (expect = true ∨ (length A < 16)%nat).

Lemma hexnum_bounds ds : Forall (λ c, hex c = true) ds → 0 ≤ hexnum ds < 16 ^ Z.of_nat (length ds).
Proof.
  intros Hds. unfold value. assert (∀ acc, 0 ≤ acc →
    acc ≤ value_from 16 hexadecimal acc ds < (acc + 1) * 16 ^ Z.of_nat (length ds)) as Hfrom; [|specialize (Hfrom 0); lia].
  induction Hds as [|c ds Hc Hds IH]; intros acc Hacc; cbn [value_from length]; [change (16 ^ Z.of_nat 0) with 1; lia|].
  apply is_hex_digit in Hc as [_ Hv]. rewrite Nat2Z.inj_succ, Z.pow_succ_r by lia.
  specialize (IH (acc * 16 + hexadecimal c) ltac:(lia)).
  assert (0 < 16 ^ Z.of_nat (length ds)) by (apply Z.pow_pos_nonneg; lia). nia.
Qed.

Lemma leading_zeros_hex cs : (length (take_while leading_zero cs) ≤ length (take_while hex cs))%nat.
Proof.
  induction cs as [|c cs IH]; [done|]. cbn [take_while]. destruct (leading_zero c) eqn:Hc; [|cbn; lia].
  unfold leading_zero in Hc. apply Z.eqb_eq in Hc as ->. assert (hex 48 = true) as -> by by destruct k. cbn [length]. lia.
Qed.

Lemma letter_x_not_hex c : letter_x c = true → hex c = false.
Proof. unfold letter_x. intros [->%Z.eqb_eq | ->%Z.eqb_eq]%orb_true_iff; by destruct k. Qed.

Lemma hex_span_bounds cs : hex (hd 0 cs) = true →
  let '(n, v) := hex_span cs in (0 < n ≤ length cs)%nat ∧ 0 ≤ v < 16 ^ Z.of_nat n.
Proof.
  intros Hhd. destruct cs as [|c cs]; [by destruct k|]. cbn [hd] in Hhd.
  assert (∀ n ds, 0 ≤ hexnum (take_while hex ds) < 16 ^ Z.of_nat (n + length (take_while hex ds))) as Hv.
  { intros n ds. destruct (hexnum_bounds (take_while hex ds) (take_while_all hex ds)). split; [done|].
    eapply Z.lt_le_trans; [done|]. apply Z.pow_le_mono_r; lia. }
  assert (0 < length (take_while hex (c :: cs)) ≤ length (c :: cs))%nat as Hd
    by (split; [cbn [take_while]; rewrite Hhd; cbn; lia|apply take_while_le]).
  unfold hex_span. destruct (drop_while leading_zero (c :: cs)) as [|d rest] eqn:Hrest; [by split; [|apply (Hv 0%nat)]|].
  destruct (letter_x d) eqn:Hx; [|by split; [|apply (Hv 0%nat)]].
  pose proof (take_drop_while leading_zero (c :: cs)) as Hall. rewrite Hrest in Hall.
  destruct (length (take_while leading_zero (c :: cs))) as [|z] eqn:Hz; cbn [Nat.eqb].
  - apply length_zero_iff_nil in Hz. rewrite Hz in Hall. cbn [app] in Hall. simplify_eq.
    apply letter_x_not_hex in Hx. congruence.
  - split; [|apply Hv]. pose proof (take_while_le hex rest). apply (f_equal length) in Hall.
    rewrite length_app, Hz in Hall. cbn [length] in *. lia.
Qed.

Lemma shape_colon A start expect cs start' cs' : v6_shape A start expect → v6_colon A start expect cs = Some (start', cs') →
  v6_shape A start' expect ∧ (length cs' ≤ length cs)%nat.
Proof.
  intros (Hb & He & Hl & Hs & Hx) Hc. unfold v6_colon in Hc. destruct (hex (hd 0 cs)).
  { simplify_eq. by split_and!; [done..|]. }
  destruct cs as [|c rest]; [done|].
  destruct (negb (c =? 58) || expect || negb (start =? 16) || (Z.of_nat (length A) =? 16)) eqn:Hg; [done|].
  destruct (Z.eqb_spec (Z.of_nat (length A)) 0) as [H0|H0].
  - destruct rest as [|d rest]; [done|]. case_match; [|done]. simplify_eq. split; [|cbn; lia].
    split_and!; try done. right. lia.
  - simplify_eq. split; [|cbn; lia]. split_and!; try done. right. lia.
Qed.

Definition v6_result (n : nat) (r : option v6_state) : Prop :=
  ∀ A start P rest, r = Some (A, start, P, rest) → v6_shape A start true ∧ (length rest ≤ n)%nat.

Lemma shape_true A start expect : v6_shape A start expect → v6_shape A start true.
Proof. intros (?&?&?&?&?). split_and!; auto. Qed.

Lemma shape_item A start expect P cs r : v6_shape A start expect → v6_item A start expect P cs = Some r →
  match r with
  | inl st => v6_result (length cs) (Some st)
  | inr (A', cs') => v6_shape A' start true ∧ (length cs' ≤ length cs)%nat
  end.
Proof.
  intros Hsh Hr. pose proof (shape_true _ _ _ Hsh) as Ht. unfold v6_item in Hr. destruct (hex (hd 0 cs)) eqn:Hhd.
  - destruct expect.
    + case_decide; simplify_eq. intros ???? [= <- <- <- <-]. split; [done|]. rewrite <-drop_take_while, length_drop. lia.
    + pose proof (hex_span_bounds cs Hhd) as Hsp. destruct (hex_span cs) as [n v]. destruct Hsp as [Hn Hv].
      case_decide as H4; simplify_eq. split; [|rewrite length_drop; lia].
      destruct Hsh as (Hb & [j Hj] & Hl & Hs & [?|Hlt]); [done|].
      assert (v < 16 ^ 4) as Hv4 by (eapply Z.lt_le_trans; [apply Hv|]; apply Z.pow_le_mono_r; lia).
      change (16 ^ 4) with 65536 in Hv4. split_and!.
      * apply Forall_app. split; [done|]. pose proof (Z.mod_pos_bound v 256 ltac:(done)).
        repeat constructor; unfold byte; try lia; [apply Z.div_pos; lia|apply Z.div_lt_upper_bound; lia].
      * rewrite length_app. exists (S j). cbn. lia.
      * rewrite length_app. cbn. lia.
      * rewrite length_app. destruct Hs; [by left|right; cbn; lia].
      * by left.
  - destruct (hd 0 cs =? 47); [case_match; by simplify_eq|]. simplify_eq. by intros ???? [= <- <- <- <-].
Qed.

Lemma shape_next f n A start expect P cs (loop := v6_loop f) :
  (∀ A start expect P cs', (length cs' < n)%nat → v6_shape A start expect →
     v6_result (length cs') (loop A start expect P cs')) →
  v6_shape A start true → (length cs ≤ n)%nat → v6_result n (v6_next loop A start expect P cs).
Proof.
  intros Hloop Ht Hle. assert (v6_result n (Some (A, start, P, cs))) as Hstop by (intros ???? [= <- <- <- <-]; done).
  destruct cs as [|c rest]; [done|]. cbn [v6_next]. cbn [length] in Hle. destruct (c =? 47).
  { intros ???? Hr. eapply Hloop in Hr as [? ?]; [|lia|done]. split; [done|lia]. }
  destruct (c =? 58); [|done]. destruct (Z.eqb_spec (Z.of_nat (length A)) 16); [done|].
  intros ???? Hr. eapply Hloop in Hr as [? ?]; [|lia|]; [split; [done|lia]|].
  destruct Ht as (?&?&?&?&_). split_and!; try done. right. lia.
Qed.

Lemma shape_body f A start expect P cs (loop := v6_loop f) :
  (∀ A start expect P cs', (length cs' < length cs)%nat → v6_shape A start expect →
     v6_result (length cs') (loop A start expect P cs')) →
  v6_shape A start expect → v6_result (length cs) (v6_body loop A start expect P cs).
Proof.
  intros Hloop Hsh. unfold v6_body. destruct (v6_item A start expect P cs) as [[st|[A' cs']]|] eqn:Hi; cbn [mbind option_bind].
  - exact (shape_item _ _ _ _ _ _ Hsh Hi).
  - destruct (shape_item _ _ _ _ _ _ Hsh Hi). by apply shape_next.
  - done.
Qed.

Lemma shape_loop f : ∀ A start expect P cs, v6_shape A start expect → v6_result (length cs) (v6_loop f A start expect P cs).
Proof.
  induction f as [|f IH]; intros A start expect P cs Hsh; [done|]. cbn [v6_loop].
  destruct (v6_colon A start expect cs) as [[start' cs']|] eqn:Hc; [|done]. cbn [mbind option_bind].
  apply shape_colon in Hc as [Hsh' Hle]; [|done].
  intros ???? Hr. eapply shape_body in Hr as [? ?]; [split; [done|lia]| |done]. intros. by apply IH.
Qed.
End parser.

(** ** The loop of StrToIpv6Address *)

Section strings.
Context (RSIZE_MAX ASCII_RSIZE_MAX : Z) (k : char_kind) (m : byte_mem).
Abbreviation limit := (rsize_max RSIZE_MAX ASCII_RSIZE_MAX k).
Abbreviation dec := (is_decimal k).
Abbreviation hex := (is_hex k).
Abbreviation readable := (readable RSIZE_MAX ASCII_RSIZE_MAX k m).
Abbreviation after p cs rest := (p + chars_size k (length cs - length rest)).
Context (Hlim : 0 ≤ limit < 2 ^ 32 - 1).

Lemma hex_no_pad cs : hex (hd 0 cs) = true → pad_space (hd 0 cs) = false.
Proof. intros [? _]%is_hex_range. by apply digit_no_pad. Qed.

(** The hexadecimal number at a digit. *)
Lemma hex_number_run p cs : readable p cs → hex (hd 0 cs) = true →
  ∃ Status e v, hex_number RSIZE_MAX ASCII_RSIZE_MAX k p m = Some ((Status, e, v), m) ∧
    (if decide (4 < (hex_span k cs).1)%nat
     then RETURN_ERROR Status = true ∨ (Status = RETURN_SUCCESS ∧ e = p + chars_size k (hex_span k cs).1)
     else Status = RETURN_SUCCESS ∧ e = p + chars_size k (hex_span k cs).1 ∧ v = (hex_span k cs).2).
Proof.
  intros (Hp & Ha & [Hnz Hch] & Hl) Hhd. destruct (no_pad cs (hex_no_pad cs Hhd)) as [E1 E2].
  assert (∀ c l, cs = c :: l → letter_x c = false) as Hfirst.
  { intros c l ->. cbn [hd] in Hhd. destruct (letter_x c) eqn:Hx; [|done].
    apply (letter_x_not_hex k) in Hx. congruence. }
  pose proof (HexToIntegerS_run RSIZE_MAX ASCII_RSIZE_MAX k m p cs Hp Ha Hlim Hnz Hch hex_uintn MAX_UINTN
    ltac:(done) (λ a b m' Ha Hb, hex_uintn_step a b m' Ha Hb) (Some p) 0 Hfirst) as Hrun. rewrite decide_True in Hrun by done.
  pose proof (hex_span_bounds k cs Hhd) as Hb. destruct (hex_span k cs) as [n v] eqn:Hspan. cbn [fst snd].
  assert (∃ e, parse_hex k p (Some p) MAX_UINTN cs =
    if v >? MAX_UINTN then (RETURN_UNSUPPORTED, Some e, Some MAX_UINTN)
    else (RETURN_SUCCESS, Some (p + chars_size k n), Some v)) as [e Hparse].
  { unfold parse_hex. rewrite E1, E2. cbn [length Nat.add]. unfold hex_span in Hspan.
    destruct (drop_while leading_zero cs) as [|c rest] eqn:Hd; [|destruct (letter_x c) eqn:Hx].
    - simplify_eq. unfold parsed. by case_match; eexists.
    - destruct (length (take_while leading_zero cs) =? 0)%nat; simplify_eq; [lia|]. unfold parsed. by case_match; eexists.
    - simplify_eq. unfold parsed. by case_match; eexists. }
  rewrite Hparse in Hrun. unfold hex_number, parse_number. destruct Hb as [Hn Hv].
  destruct (v >? MAX_UINTN) eqn:Hbig; (erewrite bind_run by exact Hrun); do 3 eexists; (split; [done|]).
  - rewrite decide_True; [by left; vm_compute|]. apply Nat.nle_gt. intros Hn4. rewrite Z.gtb_lt in Hbig.
    assert (16 ^ Z.of_nat n ≤ 16 ^ 4) by (apply Z.pow_le_mono_r; lia). change (16 ^ 4) with 65536 in *.
    unfold MAX_UINTN in Hbig. lia.
  - by case_decide; [right|].
Qed.

Abbreviation state p A start expect P := (Ipv6State p A start expect P).

Lemma after_self p (cs : list Z) : after p cs cs = p.
Proof. rewrite Nat.sub_diag. unfold chars_size. by rewrite Z.mul_0_r, Z.add_0_r. Qed.

Lemma colon_run p cs A start expect P : readable p cs →
  match v6_colon k A start expect cs with
  | Some (start', cs') => readable (after p cs cs') cs' ∧
      ipv6_colon k (state p A start expect P) m = Some (Some (state (after p cs cs') A start' expect P), m)
  | None => ipv6_colon k (state p A start expect P) m = Some (None, m)
  end.
Proof.
  intros Hr. unfold ipv6_colon, v6_colon. cbn [ipv6_Pointer ipv6_Address ipv6_ExpectPrefix ipv6_CompressStart ipv6_Prefix].
  erewrite bind_run by by eapply readable_head. destruct (hex (hd 0 cs)) eqn:Hhd.
  { by rewrite after_self. }
  destruct cs as [|c rest]; [done|]. cbn [hd]. destruct (c =? 58); cbn [negb orb]; [|done].
  destruct expect; cbn [orb]; [done|]. destruct (negb (start =? 16)); cbn [orb]; [done|].
  destruct (Z.of_nat (length A) =? 16); [done|].
  assert (readable (p + sizeof_char k) rest) as Hr1 by by eapply readable_cons.
  assert (p + sizeof_char k = after p (c :: rest) rest) as Ep.
  { rewrite <-(after_next k p (c :: rest) c rest), after_self by done. done. }
  destruct (Z.eqb_spec (Z.of_nat (length A)) 0) as [H0|H0]; [|rewrite Ep in *; by split].
  erewrite bind_run by by eapply readable_head. destruct rest as [|d rest]; [done|]. cbn [hd].
  destruct (d =? 58); cbn [negb]; [|done]. rewrite Ep, H0 in *. rewrite after_next by (cbn; lia). split; [|done].
  rewrite <-(after_next k p (c :: d :: rest) d rest) by (cbn; lia). by eapply readable_cons.
Qed.

Lemma group_bytes_cast v : 0 ≤ v < 65536 →
  cast UINT8 (Z.shiftr (cast UINT16 v) 8) = v / 256 ∧ cast UINT8 v = v mod 256.
Proof.
  intros Hv. assert (cast UINT16 v = v) as -> by (apply cast_id; [done|cint_unfold; lia]).
  rewrite Z.shiftr_div_pow2 by done. change (2 ^ 8) with 256. split; [|done]. apply cast_id; [done|].
  assert (0 ≤ v / 256 < 256); [|cint_unfold; lia]. split; [apply Z.div_pos; lia|apply Z.div_lt_upper_bound; lia].
Qed.

Lemma span_count p n : (p + chars_size k n - p) / sizeof_char k = Z.of_nat n.
Proof.
  unfold chars_size. replace (p + sizeof_char k * Z.of_nat n - p) with (Z.of_nat n * sizeof_char k) by lia.
  apply Z.div_mul. by destruct (sizeof_char_cases k) as [-> | ->].
Qed.

Lemma item_run p cs A start expect P : readable p cs → v6_shape A start expect →
  match v6_item k A start expect P cs with
  | Some (inl (A', start', P', rest)) =>
      ipv6_digits RSIZE_MAX ASCII_RSIZE_MAX k (state p A start expect P) m
        = Some (Ipv6_Break (state (after p cs rest) A' start' expect P'), m)
  | Some (inr (A', cs')) => readable (after p cs cs') cs' ∧ (length cs' ≤ length cs)%nat ∧
      ipv6_digits RSIZE_MAX ASCII_RSIZE_MAX k (state p A start expect P) m
        = Some (Ipv6_Continue (state (after p cs cs') A' start expect P), m)
  | None => ipv6_digits RSIZE_MAX ASCII_RSIZE_MAX k (state p A start expect P) m = Some (Ipv6_Unsupported, m)
  end.
Proof.
  intros Hr (_ & [j Hj] & Hl & _ & Hx). unfold ipv6_digits, v6_item.
  cbn [ipv6_Pointer ipv6_Address ipv6_ExpectPrefix ipv6_CompressStart ipv6_Prefix].
  erewrite bind_run by by eapply readable_head. destruct (hex (hd 0 cs)) eqn:Hhd; cbn [negb].
  2: { destruct (hd 0 cs =? 47); [|by rewrite after_self]. destruct (start =? Z.of_nat (length A)); cbn [negb]; [|done].
       by rewrite after_self. }
  destruct expect; cbn [negb].
  - destruct (decimal_number_run RSIZE_MAX ASCII_RSIZE_MAX k m Hlim p cs Hr (hex_no_pad cs Hhd)) as (Status & e & n & Hrun & Hout).
    erewrite bind_run by exact Hrun. cbv beta iota. rewrite Z.gtb_ltb in Hout. pose proof (number_nonneg k cs) as Hpos.
    destruct (Z.ltb_spec MAX_UINTN (value 10 decimal (take_while dec cs))) as [Hbig|Hsmall].
    { rewrite Hout. unfold MAX_UINTN in Hbig. by rewrite decide_True by lia. }
    destruct Hout as (-> & -> & ->). change (RETURN_ERROR RETURN_SUCCESS) with false. cbn [orb].
    destruct (decide (take_while dec cs = [])) as [Hnil|Hnil].
    { rewrite decide_True by tauto. rewrite Hnil. cbn [length]. rewrite (proj2 (Z.eqb_eq _ p)); [done|].
      unfold chars_size. lia. }
    assert (length (take_while dec cs) ≠ 0%nat) by (by destruct (take_while dec cs)).
    rewrite (proj2 (Z.eqb_neq _ p)) by (unfold chars_size; destruct (sizeof_char_cases k) as [-> | ->]; lia).
    cbn [orb]. rewrite Z.gtb_ltb. destruct (Z.ltb_spec 128 (value 10 decimal (take_while dec cs))).
    { by rewrite decide_True by tauto. }
    rewrite decide_False by (intros [?|?]; [done|lia]). rewrite after_digits.
    by rewrite cast_id by (done || (cint_unfold; lia)).
  - destruct (hex_number_run p cs Hr Hhd) as (Status & e & v & Hrun & Hout). erewrite bind_run by exact Hrun. cbv beta iota.
    pose proof (hex_span_bounds k cs Hhd) as Hsp. destruct (hex_span k cs) as [n w]. cbn [fst snd] in Hout. destruct Hsp as [Hn Hw].
    case_decide as H4.
    { destruct Hout as [-> | [-> ->]]; [done|]. change (RETURN_ERROR RETURN_SUCCESS) with false. cbn [orb].
      by rewrite span_count, Z.gtb_ltb, (proj2 (Z.ltb_lt 4 _)) by lia. }
    destruct Hout as (-> & -> & ->). change (RETURN_ERROR RETURN_SUCCESS) with false. cbn [orb].
    rewrite span_count, Z.gtb_ltb, (proj2 (Z.ltb_ge 4 _)) by lia. destruct Hx as [?|Hx]; [done|].
    rewrite (proj2 (Z.ltb_lt _ 16)) by lia. change (ASSERT true) with (mret tt : M byte_mem unit). erewrite bind_run by reflexivity.
    assert (w < 16 ^ 4) as H64 by (eapply Z.lt_le_trans; [apply Hw|]; apply Z.pow_le_mono_r; lia).
    change (16 ^ 4) with 65536 in H64. destruct (group_bytes_cast w ltac:(lia)) as [-> ->].
    replace (p + chars_size k n) with (after p cs (drop n cs)) by (rewrite length_drop; do 2 f_equal; lia).
    split; [|split; [rewrite length_drop; lia|done]].
    rewrite length_drop. replace (length cs - (length cs - n))%nat with n by lia. apply readable_drop; [done|done|lia].
Qed.

(** The state at the end; whether a prefix length was expected is not used any more. *)
Definition ended (p : Z) (cs : list Z) (r : option v6_state) (o : option ipv6_state) : Prop :=
  match r, o with
  | None, None => True
  | Some (A, start, P, rest), Some st => ∃ expect, st = state (after p cs rest) A start expect P
  | _, _ => False
  end.

Lemma ended_suffix p cs cs' r o : (length cs' ≤ length cs)%nat → v6_result (length cs') r →
  ended (after p cs cs') cs' r o → ended p cs r o.
Proof.
  intros Hle Hr He. destruct r as [[[[A start] P] rest]|], o as [st|]; try done. destruct He as [expect ->].
  destruct (Hr _ _ _ _ eq_refl) as [_ Hrest]. exists expect. by rewrite after_trans by lia.
Qed.

Abbreviation ipv6_loop := (ipv6_loop RSIZE_MAX ASCII_RSIZE_MAX).

(** Both loops agree on what remains of a string. *)
Definition loops_agree (f fuel : nat) : Prop := ∀ p cs A start expect P, v6_shape A start expect → readable p cs →
  (length cs < fuel)%nat → (length cs < f)%nat →
  ∃ o, ipv6_loop fuel k (state p A start expect P) m = Some (o, m) ∧ ended p cs (v6_loop k f A start expect P cs) o.

Lemma next_run f fuel p cs A start expect P : loops_agree f fuel → v6_shape A start true → readable p cs →
  (length cs ≤ fuel)%nat → (length cs ≤ f)%nat →
  ∃ o, (if hd 0 cs =? 47 then ipv6_loop fuel k (state (p + sizeof_char k) A start true P) else
        if hd 0 cs =? 58 then
          if Z.of_nat (length A) =? 16 then mret (Some (state p A start expect P))
          else ipv6_loop fuel k (state (p + sizeof_char k) A start expect P)
        else mret (Some (state p A start expect P))) m = Some (o, m) ∧
    ended p cs (v6_next (v6_loop k f) A start expect P cs) o.
Proof.
  intros Hag Ht Hr Hfuel Hf.
  assert (∃ o, mret (M := M byte_mem) (Some (state p A start expect P)) m = Some (o, m) ∧ ended p cs (Some (A, start, P, cs)) o) as Hstop
    by (eexists; split; [done|]; exists expect; by rewrite after_self).
  destruct cs as [|c rest]; [exact Hstop|]. cbn [hd v6_next]. cbn [length] in *.
  assert (p + sizeof_char k = after p (c :: rest) rest) as Ep by (by rewrite <-(after_next k p (c :: rest) c rest), after_self).
  assert (readable (p + sizeof_char k) rest) as Hr1 by by eapply readable_cons.
  assert (∀ b, v6_shape A start b → ∃ o, ipv6_loop fuel k (state (p + sizeof_char k) A start b P) m = Some (o, m) ∧
    ended p (c :: rest) (v6_loop k f A start b P rest) o) as Hgo.
  { intros b Hb. destruct (Hag _ rest A start b P Hb Hr1 ltac:(lia) ltac:(lia)) as (o & Ho & He). exists o. split; [done|].
    rewrite Ep in He. eapply ended_suffix; [|by apply shape_loop|done]. cbn. lia. }
  destruct (c =? 47); [by apply Hgo|]. destruct (c =? 58); [|exact Hstop].
  destruct (Z.eqb_spec (Z.of_nat (length A)) 16); [exact Hstop|]. apply Hgo.
  destruct Ht as (?&?&?&?&_). split_and!; try done. right. lia.
Qed.

Lemma ipv6_loop_run f : ∀ fuel, loops_agree f fuel.
Proof.
  induction f as [|f IH]; intros fuel p cs A start expect P Hsh Hr Hfuel Hf; [lia|]. destruct fuel as [|fuel]; [lia|].
  cbn [StrParse.ipv6_loop v6_loop]. cbn [ipv6_Address]. rewrite (proj2 (Z.ltb_lt _ 17)) by (destruct Hsh as (_ & _ & ? & _); lia).
  pose proof (colon_run p cs A start expect P Hr) as Hc.
  destruct (v6_colon k A start expect cs) as [[start1 cs1]|] eqn:Ec; cbn [mbind option_bind].
  2: { exists None. by erewrite bind_run by exact Hc. }
  destruct Hc as [Hr1 Hc]. erewrite bind_run by exact Hc. cbv iota beta.
  apply shape_colon in Ec as [Hsh1 Hle1]; [|done].
  assert (v6_result (length cs1) (v6_body k (v6_loop k f) A start1 expect P cs1)) as Hres
    by (apply shape_body; [intros; by apply shape_loop|done]).
  assert (∀ c o, c = Some (o, m) → ended (after p cs cs1) cs1 (v6_body k (v6_loop k f) A start1 expect P cs1) o →
    ∃ o, c = Some (o, m) ∧ ended p cs (v6_body k (v6_loop k f) A start1 expect P cs1) o) as Hend
    by (intros c o Hco Ho; exists o; split; [done|by eapply ended_suffix]).
  set (p1 := after p cs cs1) in *. pose proof (item_run p1 cs1 A start1 expect P Hr1 Hsh1) as Hi.
  unfold v6_body in *. destruct (v6_item k A start1 expect P cs1) as [[[[[A' start'] P'] rest]|[A' cs2]]|] eqn:Ei;
    cbn [mbind option_bind] in *.
  - erewrite bind_run by exact Hi. cbv iota beta. eapply Hend; [done|]. by eexists.
  - destruct Hi as (Hr2 & Hle2 & Hi). erewrite bind_run by exact Hi. cbv iota beta.
    destruct (shape_item _ _ _ _ _ _ _ Hsh1 Ei) as [Ht _]. cbn [ipv6_Pointer ipv6_Address ipv6_CompressStart ipv6_Prefix ipv6_ExpectPrefix].
    erewrite bind_run by by eapply readable_head.
    destruct (next_run f fuel _ cs2 A' start1 expect P (IH fuel) Ht Hr2 ltac:(lia) ltac:(lia)) as (o & Ho & He).
    eapply Hend; [exact Ho|]. eapply ended_suffix; [exact Hle2| |exact He].
    apply shape_next; [intros; by apply shape_loop|done|done].
  - erewrite bind_run by exact Hi. by eapply Hend.
Qed.
End strings.

(** ** Texts of addresses *)

Section text.
Context (k : char_kind).
Abbreviation dec := (is_decimal k).
Abbreviation hex := (is_hex k).
Abbreviation decnum := (value 10 decimal).
Abbreviation hexnum := (value 16 hexadecimal).

(** Groups of one to four digits with colons between them, and their bytes. *)
Fixpoint groups_text (gs : list (list Z)) : list Z :=
  match gs with [] => [] | [g] => g | g :: gs => g ++ 58 :: groups_text gs end.

Definition groups_bytes (gs : list (list Z)) : list Z := gs ≫= λ g, [hexnum g / 256; hexnum g mod 256].

Definition group_ok (g : list Z) : Prop := (0 < length g ≤ 4)%nat ∧ Forall (λ c, hex c = true) g.

(** The prefix length and what may follow an address. *)
Definition prefix_text (o : option (list Z)) : list Z := match o with Some ds => 47 :: ds | None => [] end.
Definition prefix_value (o : option (list Z)) : Z := match o with Some ds => decnum ds | None => 255 end.
Definition prefix_ok (o : option (list Z)) : Prop :=
  ∀ ds, o = Some ds → ds ≠ [] ∧ Forall (λ c, dec c = true) ds ∧ decnum ds ≤ 128.

Definition stops (rest : list Z) : Prop :=
  hex (hd 0 rest) = false ∧ letter_x (hd 0 rest) = false ∧ hd 0 rest ≠ 47 ∧ hd 0 rest ≠ 58.

Lemma length_groups_bytes gs : length (groups_bytes gs) = (2 * length gs)%nat.
Proof. induction gs as [|g gs IH]; [done|]. unfold groups_bytes in *. rewrite bind_cons, length_app, IH. cbn. lia. Qed.

Lemma decimal_hex c : dec c = true → hex c = true.
Proof. intros Hc. destruct k; cbn in *; unfold InternalIsHexaDecimalDigitCharacter, InternalAsciiIsHexaDecimalDigitCharacter; by rewrite Hc. Qed.

Lemma take_while_run (f : Z → bool) ds cs : Forall (λ c, f c = true) ds → f (hd 0 cs) = false → take_while f (ds ++ cs) = ds.
Proof.
  induction 1 as [|c ds Hc Hds IH]; intros Hf; cbn [app take_while]; [|by rewrite Hc, IH].
  destruct cs as [|c cs]; [done|]. cbn [hd] in Hf. cbn [take_while]. by rewrite Hf.
Qed.

Lemma hex_span_group g cs : Forall (λ c, hex c = true) g → hex (hd 0 cs) = false → letter_x (hd 0 cs) = false →
  hex_span k (g ++ cs) = (length g, hexnum g).
Proof.
  intros Hg Hhd Hx. unfold hex_span. rewrite take_while_run by done.
  assert (∀ c rest, drop_while leading_zero (g ++ cs) = c :: rest → letter_x c = false) as Hfirst; [|].
  { induction Hg as [|d g Hd Hg IH]; intros c rest; cbn [app drop_while].
    - destruct cs as [|d cs]; [done|]. cbn [hd drop_while] in *. destruct (leading_zero d) eqn:Hz; [|by intros [= <- <-]].
      unfold leading_zero in Hz. apply Z.eqb_eq in Hz as ->. by destruct k.
    - destruct (leading_zero d); [apply IH|]. intros [= <- <-]. destruct (letter_x d) eqn:Hxd; [|done].
      apply (letter_x_not_hex k) in Hxd. congruence. }
  destruct (drop_while leading_zero (g ++ cs)) as [|c rest]; [done|]. by rewrite (Hfirst c rest).
Qed.

Lemma group_head g cs : group_ok g → hex (hd 0 (g ++ cs)) = true.
Proof. intros [Hl Hg]. destruct Hg; [cbn in Hl; lia|done]. Qed.

Lemma groups_head gs cs : gs ≠ [] → Forall group_ok gs → hex (hd 0 (groups_text gs ++ cs)) = true.
Proof.
  intros Hne Hg. destruct Hg as [|g gs Hg Hgs]; [done|]. destruct gs; cbn [groups_text]; [by apply group_head|].
  rewrite <-app_assoc. by apply group_head.
Qed.

Lemma item_group A start P g cs : group_ok g → hex (hd 0 cs) = false → letter_x (hd 0 cs) = false →
  v6_item k A start false P (g ++ cs) = Some (inr (A ++ [hexnum g / 256; hexnum g mod 256], cs)).
Proof.
  intros Hg Hhd Hx. unfold v6_item. rewrite group_head by done. destruct Hg as [Hl Hg].
  rewrite hex_span_group by done. rewrite decide_False by lia. by rewrite drop_app_length.
Qed.

Lemma loop_hex f A start expect P cs : hex (hd 0 cs) = true →
  v6_loop k (S f) A start expect P cs = v6_body k (v6_loop k f) A start expect P cs.
Proof. intros Hhd. cbn [v6_loop]. unfold v6_colon. by rewrite Hhd. Qed.

Lemma body_groups gs : ∀ f A start P cs, gs ≠ [] → Forall group_ok gs → (length A + 2 * length gs ≤ 16)%nat →
  hex (hd 0 cs) = false → letter_x (hd 0 cs) = false → (length (groups_text gs ++ cs) ≤ f)%nat →
  ∃ f', (length cs ≤ f')%nat ∧
    v6_body k (v6_loop k f) A start false P (groups_text gs ++ cs) =
    v6_next (v6_loop k f') (A ++ groups_bytes gs) start false P cs.
Proof.
  induction gs as [|g gs IH]; intros f A start P cs Hne Hok HA Hhd Hx Hf; [done|]. apply Forall_cons in Hok as [Hg Hok].
  destruct gs as [|g' gs'].
  - exists f. cbn [groups_text] in *. rewrite length_app in Hf. split; [lia|]. unfold v6_body.
    by rewrite item_group.
  - remember (g' :: gs') as gs eqn:Hgs. assert (groups_text (g :: gs) = g ++ 58 :: groups_text gs) as E by by subst.
    rewrite E in *. rewrite <-app_assoc in *. cbn [app] in *. rewrite length_app in Hf. cbn [length] in Hf, HA.
    assert (gs ≠ []) as Hne' by by subst. assert (length gs ≠ 0%nat) by (by subst). clear Hgs E Hne.
    unfold v6_body at 1. rewrite item_group by (done || by destruct k). cbn [mbind option_bind v6_next].
    change (58 =? 47) with false. change (58 =? 58) with true. cbv iota. rewrite length_app. cbn [length].
    rewrite (proj2 (Z.eqb_neq _ 16)) by lia. destruct f as [|f]; [lia|]. rewrite loop_hex by by apply groups_head.
    destruct (IH f (A ++ [hexnum g / 256; hexnum g mod 256]) start P cs Hne' Hok) as (f' & Hf' & ->);
      [rewrite length_app; cbn; lia|done|done|lia|]. exists f'. split; [done|].
    unfold groups_bytes. by rewrite bind_cons, app_assoc.
Qed.

Lemma suffix_head o rest : prefix_ok o → stops rest →
  hex (hd 0 (prefix_text o ++ rest)) = false ∧ letter_x (hd 0 (prefix_text o ++ rest)) = false.
Proof. intros Ho (Hh & Hx & _). destruct o; [by destruct k|done]. Qed.

Lemma next_suffix f A start o rest : prefix_ok o → stops rest → (length (prefix_text o ++ rest) ≤ f)%nat →
  v6_next (v6_loop k f) A start false 255 (prefix_text o ++ rest) = Some (A, start, prefix_value o, rest).
Proof.
  intros Ho (Hh & Hx & H47 & H58) Hf. destruct o as [ds|]; cbn [prefix_text prefix_value app] in *.
  - destruct (Ho ds eq_refl) as (Hne & Hds & Hv). cbn [v6_next length] in *. change (47 =? 47) with true. cbv iota.
    destruct f as [|f]; [lia|]. assert (dec (hd 0 rest) = false) as Hd.
    { destruct (dec (hd 0 rest)) eqn:Hd; [|done]. apply decimal_hex in Hd. congruence. }
    assert (hex (hd 0 (ds ++ rest)) = true) as Hhd by (destruct Hds; [done|by apply decimal_hex]).
    rewrite loop_hex by done. unfold v6_body, v6_item. rewrite Hhd, take_while_run by done.
    rewrite decide_False by (intros [?|?]; [done|lia]). cbn [mbind option_bind]. do 2 f_equal.
    rewrite <-drop_take_while, take_while_run by done. by rewrite drop_app_length.
  - destruct rest as [|c rest]; [done|]. cbn [hd v6_next] in *. by rewrite (proj2 (Z.eqb_neq c 47)), (proj2 (Z.eqb_neq c 58)).
Qed.

(** What follows a "::". *)
Lemma body_tail gs f A o rest : Forall group_ok gs → (length A + 2 * length gs ≤ 16)%nat → prefix_ok o → stops rest →
  (length (groups_text gs ++ prefix_text o ++ rest) ≤ f)%nat →
  v6_body k (v6_loop k f) A (Z.of_nat (length A)) false 255 (groups_text gs ++ prefix_text o ++ rest)
    = Some (A ++ groups_bytes gs, Z.of_nat (length A), prefix_value o, rest).
Proof.
  intros Hgs HA Ho Hr Hf. destruct (suffix_head o rest Ho Hr) as [Hh Hx]. destruct (decide (gs = [])) as [-> | Hne].
  - cbn [groups_text app groups_bytes mbind list_bind] in *. rewrite app_nil_r. unfold v6_body, v6_item. rewrite Hh.
    destruct o as [ds|].
    + cbn [prefix_text app hd]. change (47 =? 47) with true. cbv iota. rewrite Z.eqb_refl. cbn [mbind option_bind].
      by apply (next_suffix f A (Z.of_nat (length A)) (Some ds) rest).
    + destruct Hr as (_ & _ & H47 & _). cbn [prefix_text app]. by rewrite (proj2 (Z.eqb_neq _ 47)).
  - destruct (body_groups gs f A (Z.of_nat (length A)) 255 (prefix_text o ++ rest) Hne Hgs HA Hh Hx Hf) as (f' & Hf' & ->).
    by rewrite next_suffix.
Qed.

Lemma parse_full gs o rest : Forall group_ok gs → length gs = 8%nat → prefix_ok o → stops rest →
  v6_address k (groups_text gs ++ prefix_text o ++ rest) = Some (groups_bytes gs, prefix_value o, rest).
Proof.
  intros Hgs Hl Ho Hr. assert (gs ≠ []) as Hne by by intros ->. destruct (suffix_head o rest Ho Hr) as [Hh Hx].
  unfold v6_address. rewrite loop_hex by by apply groups_head.
  destruct (body_groups gs (length (groups_text gs ++ prefix_text o ++ rest)) [] 16 255 (prefix_text o ++ rest) Hne Hgs
    ltac:(cbn; lia) Hh Hx ltac:(lia)) as (f' & Hf' & ->).
  rewrite next_suffix by done. cbn [mbind option_bind app].
  assert (length (groups_bytes gs) = 16%nat) as H16 by (rewrite length_groups_bytes; lia). rewrite H16.
  change (Z.of_nat 16 =? 16) with true. cbn [negb andb orb]. rewrite <-H16, Nat.sub_diag. cbn [replicate app].
  change (Z.to_nat 16) with 16%nat. rewrite take_ge, drop_ge, app_nil_r by lia. done.
Qed.

Lemma parse_compressed gs1 gs2 o rest : Forall group_ok gs1 → Forall group_ok gs2 → (length gs1 + length gs2 ≤ 7)%nat →
  prefix_ok o → stops rest →
  v6_address k (groups_text gs1 ++ 58 :: 58 :: groups_text gs2 ++ prefix_text o ++ rest) =
    Some (groups_bytes gs1 ++ replicate (16 - 2 * (length gs1 + length gs2)) 0 ++ groups_bytes gs2, prefix_value o, rest).
Proof.
  intros H1 H2 Hl Ho Hr. set (tail := groups_text gs2 ++ prefix_text o ++ rest). unfold v6_address.
  assert (v6_loop k (S (length (groups_text gs1 ++ 58 :: 58 :: tail))) [] 16 false 255 (groups_text gs1 ++ 58 :: 58 :: tail)
    = Some (groups_bytes gs1 ++ groups_bytes gs2, Z.of_nat (length (groups_bytes gs1)), prefix_value o, rest)) as ->.
  - pose proof (length_groups_bytes gs1) as Hl1. destruct (decide (gs1 = [])) as [-> | Hne].
    + cbn [groups_text app v6_loop]. unfold v6_colon. cbn [hd]. assert (hex 58 = false) as -> by by destruct k.
      cbn [Z.of_nat length Z.eqb negb orb mbind option_bind Pos.eqb]. apply (body_tail gs2 _ [] o rest); try done; [cbn; lia|].
      unfold tail. cbn. lia.
    + rewrite loop_hex by by apply groups_head.
      destruct (body_groups gs1 (length (groups_text gs1 ++ 58 :: 58 :: tail)) [] 16 255 (58 :: 58 :: tail) Hne H1
        ltac:(cbn; lia) ltac:(by destruct k) eq_refl ltac:(lia)) as (f' & Hf' & ->).
      cbn [app v6_next]. change (58 =? 47) with false. change (58 =? 58) with true. cbv iota.
      rewrite (proj2 (Z.eqb_neq _ 16)) by lia. cbn [length] in Hf'. destruct f' as [|f']; [lia|].
      cbn [v6_loop]. unfold v6_colon. cbn [hd]. assert (hex 58 = false) as -> by by destruct k.
      change (negb (58 =? 58) || false || negb (16 =? 16)) with false. cbn [orb]. rewrite (proj2 (Z.eqb_neq _ 16)) by lia.
      assert (length gs1 ≠ 0%nat) by by destruct gs1. rewrite (proj2 (Z.eqb_neq _ 0)) by lia. cbn [mbind option_bind].
      apply body_tail; try done; [lia|]. fold tail. lia.
  - cbn [mbind option_bind]. rewrite length_app, !length_groups_bytes.
    rewrite (proj2 (Z.eqb_neq _ 16)) by lia. rewrite (proj2 (Z.eqb_neq (Z.of_nat _) 16)) by lia. cbn [negb andb orb].
    rewrite Nat2Z.id, <-(length_groups_bytes gs1), take_app_length, drop_app_length.
    rewrite length_groups_bytes, Nat.mul_add_distr_l. done.
Qed.
End text.

(** ** StrToIpv6Address *)

Section claims.
Context (RSIZE_MAX ASCII_RSIZE_MAX : Z) (k : char_kind) (m : byte_mem).
Abbreviation limit := (rsize_max RSIZE_MAX ASCII_RSIZE_MAX k).
Abbreviation ToIpv6Address := (ToIpv6Address RSIZE_MAX ASCII_RSIZE_MAX k).

Lemma shape_start : v6_shape [] 16 false.
Proof. split_and!; [by constructor|by exists 0%nat|cbn; lia|by left|right; cbn; lia]. Qed.

Lemma v6_address_shape cs A P rest : v6_address k cs = Some (A, P, rest) → bytes A ∧ length A = 16%nat ∧ (length rest ≤ length cs)%nat.
Proof.
  unfold v6_address. intros Ha. destruct (v6_loop k _ [] 16 false 255 cs) as [[[[L start] P'] rest']|] eqn:Hl; [|done].
  cbn [mbind option_bind] in Ha.
  destruct (shape_loop _ _ _ _ _ _ _ shape_start _ _ _ _ Hl) as [(Hb & _ & Hle & Hs & _) Hrest].
  case_match; [done|]. simplify_eq. unfold bytes in *. split_and!; [|rewrite !length_app, length_take, length_drop, length_replicate; lia|done].
  rewrite !Forall_app. split_and!; [by apply Forall_take|by apply Forall_replicate|by apply Forall_drop].
Qed.

Lemma store_run m' Address L start : mapped m' Address 16 → (length L ≤ 16)%nat → (start = 16 ∧ length L = 16%nat ∨ 0 ≤ start ≤ Z.of_nat (length L)) →
  ipv6_store Address L start m' =
    Some (tt, put m' Address (take (Z.to_nat start) L ++ replicate (16 - length L) 0 ++ drop (Z.to_nat start) L)).
Proof.
  intros Hm Hl Hs. unfold ipv6_store.
  assert (length (take (Z.to_nat start) L) = Z.to_nat start) as Ht by (rewrite length_take; lia).
  erewrite bind_run by (apply write_bytes_run; eapply mapped_sub; [exact Hm|lia|lia]).
  replace (Z.to_nat (16 - Z.of_nat (length L))) with (16 - length L)%nat by lia.
  erewrite bind_run by (apply write_bytes_run, mapped_put; eapply mapped_sub; [exact Hm|lia|rewrite length_replicate; lia]).
  rewrite !put_app, Ht, length_replicate, Z2Nat.id by lia. rewrite Z.gtb_ltb.
  destruct (Z.ltb_spec start (Z.of_nat (length L))).
  - replace (Address + (start + 16 - Z.of_nat (length L))) with (Address + start + Z.of_nat (16 - length L)) by lia.
    rewrite write_bytes_run; [done|]. apply mapped_put, mapped_put. eapply mapped_sub; [exact Hm|lia|rewrite length_drop; lia].
  - rewrite (drop_ge L) by lia. done.
Qed.

End claims.

(** "fe80::1:2/64" in memory at 16. *)
Definition ex_ipv6_groups : list (list Z) := [[49]; [50]].
Definition ex_ipv6_text : list Z := [102; 101; 56; 48; 58; 58; 49; 58; 50; 47; 54; 52].
Definition ex_ipv6_memory : byte_mem := put_chars Unicode (put ∅ 96 (replicate 16 0)) 16 (ex_ipv6_text ++ [0]).

