(* ===== verification/FwCfg.v ===== *)
(** * The fw_cfg library over I/O ports (OvmfPkg/Library/QemuFwCfgLib)

    QemuFwCfgLib.c with the instance of the SEC phase (QemuFwCfgSec.c), which has no
    DMA and takes the interface for available.  The state is the memory and the
    device behind the ports; local variables that hold an integer are values, the
    local array FName is at an address of the stack.  DEBUG output is left out. *)
From S2P Require Import Prelude CBase Math64 CheckSum ByteMem SafeString StrCompare.
Local Open Scope Z_scope.

Definition FW_CFG_IO_SELECTOR := 0x510.
Definition FW_CFG_IO_DATA := 0x511.
Definition QEMU_FW_CFG_FNAME_SIZE := 56.

Definition QemuFwCfgItemSignature := 0x0000.
Definition QemuFwCfgItemInterfaceVersion := 0x0001.
Definition QemuFwCfgItemFileDir := 0x0019.

Section device.
(** The ports of the machine. *)
Context {D : Type} (IoRead8 : Z → D → Z * D) (IoWrite8 IoWrite16 : Z → Z → D → D).
(** PcdMaximumUnicodeStringLength and PcdMaximumAsciiStringLength, and the place of
    the local array of QemuFwCfgFindFile. *)
Context (RSIZE_MAX ASCII_RSIZE_MAX FName : Z).

Abbreviation S := (byte_mem * D)%type.

Definition on_memory {A} (c : M byte_mem A) : M S A := λ s,
  match c s.1 with Some (x, m) => Some (x, (m, s.2)) | None => None end.
Definition in8 (port : Z) : M S Z := λ s, let '(v, d) := IoRead8 port s.2 in Some (v, (s.1, d)).
Definition out8 (port v : Z) : M S unit := λ s, Some (tt, (s.1, IoWrite8 port v s.2)).
Definition out16 (port v : Z) : M S unit := λ s, Some (tt, (s.1, IoWrite16 port v s.2)).

(** IoReadFifo8 and IoWriteFifo8 of IoLib: [n] accesses of the port. *)
Fixpoint read_fifo (port : Z) (n : nat) : M S (list Z) :=
  match n with O => mret [] | Datatypes.S n => b ← in8 port; l ← read_fifo port n; mret (b :: l) end.
Fixpoint write_fifo (port : Z) (n : nat) (Buffer : Z) : M S unit :=
  match n with
  | O => mret tt
  | Datatypes.S n => b ← on_memory (read8 Buffer); out8 port b;; write_fifo port n (Buffer + 1)
  end.

Definition IoReadFifo8 (Port Count Buffer : Z) : M S unit :=
  l ← read_fifo Port (Z.to_nat Count); on_memory (write_bytes Buffer l).
Definition IoWriteFifo8 (Port Count Buffer : Z) : M S unit := write_fifo Port (Z.to_nat Count) Buffer.

(** ** The SEC instance *)

Definition InternalQemuFwCfgIsAvailable : bool := true.
Definition InternalQemuFwCfgDmaIsAvailable : bool := false.

(** ASSERT (FALSE). *)
Definition InternalQemuFwCfgDmaBytes (Size Buffer Control : Z) : M S unit := fails.

(** ** The library *)

Definition QemuFwCfgSelectItem (QemuFwCfgItem : Z) : M S unit :=
  out16 FW_CFG_IO_SELECTOR (cast UINT16 QemuFwCfgItem).

Definition InternalQemuFwCfgReadBytes (Size Buffer : Z) : M S unit :=
  if InternalQemuFwCfgDmaIsAvailable && (Size <=? MAX_UINT32)
  then InternalQemuFwCfgDmaBytes (cast UINT32 Size) Buffer 2
  else IoReadFifo8 FW_CFG_IO_DATA Size Buffer.

Definition QemuFwCfgReadBytes (Size Buffer : Z) : M S unit :=
  if InternalQemuFwCfgIsAvailable then InternalQemuFwCfgReadBytes Size Buffer
  else on_memory (write_bytes Buffer (replicate (Z.to_nat Size) 0)).

Definition QemuFwCfgWriteBytes (Size Buffer : Z) : M S unit :=
  if InternalQemuFwCfgIsAvailable then
    if InternalQemuFwCfgDmaIsAvailable && (Size <=? MAX_UINT32)
    then InternalQemuFwCfgDmaBytes (cast UINT32 Size) Buffer 16
    else IoWriteFifo8 FW_CFG_IO_DATA Size Buffer
  else mret tt.

(** The loop of QemuFwCfgSkipBytes: chunks of the size of SkipBuffer, thrown away. *)
Fixpoint skip_chunks (fuel : nat) (Size : Z) : M S unit :=
  match fuel with
  | O => fails
  | Datatypes.S fuel =>
    if Size >? 0 then
      let ChunkSize := Z.min Size 256 in
      read_fifo FW_CFG_IO_DATA (Z.to_nat ChunkSize);; skip_chunks fuel (Size - ChunkSize)
    else mret tt
  end.

Definition QemuFwCfgSkipBytes (Size : Z) : M S unit :=
  if negb InternalQemuFwCfgIsAvailable then mret tt else
  if InternalQemuFwCfgDmaIsAvailable && (Size <=? MAX_UINT32)
  then InternalQemuFwCfgDmaBytes (cast UINT32 Size) 0 4
  else skip_chunks (Datatypes.S (Z.to_nat (Size / 256 + 1))) Size.

Definition read_integer (n : nat) : M S Z :=
  if InternalQemuFwCfgIsAvailable then l ← read_fifo FW_CFG_IO_DATA n; mret (le_value l) else mret 0.

Definition QemuFwCfgRead8 : M S Z := read_integer 1.
Definition QemuFwCfgRead16 : M S Z := read_integer 2.
Definition QemuFwCfgRead32 : M S Z := read_integer 4.
Definition QemuFwCfgRead64 : M S Z := read_integer 8.

Definition QemuFwCfgIsAvailable : M S bool :=
  QemuFwCfgSelectItem QemuFwCfgItemSignature;;
  Signature ← QemuFwCfgRead32;
  QemuFwCfgSelectItem QemuFwCfgItemInterfaceVersion;;
  Revision ← QemuFwCfgRead32;
  if negb (Signature =? 0x554d4551) || (Revision <? 1) then mret false else mret true.

(** The loop over the directory; [None] is RETURN_NOT_FOUND. *)
Fixpoint find_loop (fuel : nat) (Name Count Idx : Z) : M S (option (Z * Z)) :=
  match fuel with
  | O => fails
  | Datatypes.S fuel =>
    if Idx <? Count then
      FileSize ← QemuFwCfgRead32;
      FileSelect ← QemuFwCfgRead16;
      FileReserved ← QemuFwCfgRead16;
      InternalQemuFwCfgReadBytes QEMU_FW_CFG_FNAME_SIZE FName;;
      r ← on_memory (AsciiStrCmp RSIZE_MAX ASCII_RSIZE_MAX Name FName);
      if r =? 0 then mret (Some (SwapBytes16 FileSelect, SwapBytes32 FileSize))
      else find_loop fuel Name Count (cast UINT32 (Idx + 1))
    else mret None
  end.

(** The status, with the item and the size of the file when it is found. *)
Definition QemuFwCfgFindFile (Name : Z) : M S (Z * option (Z * Z)) :=
  if negb InternalQemuFwCfgIsAvailable then mret (RETURN_UNSUPPORTED, None) else
  QemuFwCfgSelectItem QemuFwCfgItemFileDir;;
  c ← QemuFwCfgRead32;
  let Count := SwapBytes32 c in
  r ← find_loop (Datatypes.S (Z.to_nat Count)) Name Count 0;
  match r with
  | Some f => mret (RETURN_SUCCESS, Some f)
  | None => mret (RETURN_NOT_FOUND, None)
  end.
End device.
