(* ===== verification/FwCfgParser.v ===== *)
(** * The simple parser of fw_cfg files
    (OvmfPkg/Library/QemuFwCfgSimpleParserLib/QemuFwCfgSimpleParser.c)

    Every function of the file over the library class QemuFwCfgLib: [FwCfgOps] has
    the functions that the parser calls, over any state that contains a byte
    memory.  The local arrays and the string literals are at addresses. *)
From Stdlib Require Import Ascii String.
From S2P Require Import Prelude CBase CheckSum ByteMem SafeString StrConvert StrCompare.
Local Open Scope Z_scope.

(** The functions of QemuFwCfgLib. *)
Class FwCfgOps (D : Type) := {
  cfg_IsAvailable : M (byte_mem * D) bool;
  cfg_FindFile : Z → M (byte_mem * D) (Z * option (Z * Z));
  cfg_SelectItem : Z → M (byte_mem * D) unit;
  cfg_ReadBytes : Z → Z → M (byte_mem * D) unit }.

(** The words that mean TRUE and FALSE, as the characters of the string literals. *)
Definition characters (s : string) : list Z := (λ a, Z.of_N (N_of_ascii a)) <$> list_ascii_of_string s.
Definition true_words : list (list Z) := characters <$> ["true"; "yes"; "y"; "enable"; "enabled"; "1"]%string.
Definition false_words : list (list Z) := characters <$> ["false"; "no"; "n"; "disable"; "disabled"; "0"]%string.

(** Sizes of the local arrays: the longest valid string, its NUL, a CR and a LF. *)
Definition CRLF_LENGTH : Z := 2.
Definition UINT64_STRING_MAX_SIZE : Z := Z.max 21 19.
Definition BOOL_STRING_MAX_SIZE : Z := 9.

Section parser.
Context {D : Type} `{FwCfgOps D}.
Context (RSIZE_MAX ASCII_RSIZE_MAX : Z).
(** The local arrays of two functions, and the addresses of the [true_words] and of
    the [false_words] in mTrueString and mFalseString. *)
Context (Uint64String BoolString : Z) (mTrueString mFalseString : list Z).

Abbreviation S := (byte_mem * D)%type.

Definition lift {A} (c : M byte_mem A) : M S A := λ s,
  match c s.1 with Some (x, m) => Some (x, (m, s.2)) | None => None end.

(** The status and the updated buffer size. *)
Definition QemuFwCfgGetAsString (FileName BufferSize Buffer : Z) : M S (Z * Z) :=
  available ← cfg_IsAvailable;
  if negb available then mret (RETURN_UNSUPPORTED, BufferSize) else
  '(Status, file) ← cfg_FindFile FileName;
  if RETURN_ERROR Status then mret (Status, BufferSize) else
  '(FwCfgItem, FwCfgSize) ← (match file with Some f => mret f | None => fails end);
  if FwCfgSize >? BufferSize then mret (RETURN_PROTOCOL_ERROR, BufferSize) else
  cfg_SelectItem FwCfgItem;;
  cfg_ReadBytes FwCfgSize Buffer;;
  terminated ← (if FwCfgSize >? 0
                then c ← lift (read_char Ascii (Buffer + (FwCfgSize - 1))); mret (c =? 0)
                else mret false);
  if (terminated : bool) then mret (RETURN_SUCCESS, FwCfgSize) else
  if FwCfgSize =? BufferSize then mret (RETURN_PROTOCOL_ERROR, BufferSize) else
  lift (write_char Ascii (Buffer + FwCfgSize) 0);;
  mret (RETURN_SUCCESS, FwCfgSize + 1).

(** The size without a trailing CR LF or LF. *)
Definition newline_size (InSize Buffer : Z) : M byte_mem Z :=
  crlf ← (if InSize >=? 3 then
            c ← read_char Ascii (Buffer + (InSize - 3));
            if c =? 13 then d ← read_char Ascii (Buffer + (InSize - 2)); mret (d =? 10) else mret false
          else mret false);
  if (crlf : bool) then mret (InSize - 2) else
  lf ← (if InSize >=? 2 then d ← read_char Ascii (Buffer + (InSize - 2)); mret (d =? 10) else mret false);
  if (lf : bool) then mret (InSize - 1) else mret InSize.

Definition StripNewline (BufferSize Buffer : Z) : M byte_mem Z :=
  OutSize ← newline_size BufferSize Buffer;
  if OutSize <? BufferSize then write_char Ascii (Buffer + (OutSize - 1)) 0;; mret OutSize
  else mret BufferSize.

(** The status, and the value that is stored on success. *)
Definition QemuFwCfgParseUint64WithLimit (FileName : Z) (ParseAsHex : bool) (Limit : Z) : M S (Z * option Z) :=
  '(Status, Uint64StringSize) ←
    QemuFwCfgGetAsString FileName (UINT64_STRING_MAX_SIZE + CRLF_LENGTH) Uint64String;
  if RETURN_ERROR Status then mret (Status, None) else
  lift (StripNewline Uint64StringSize Uint64String);;
  '(Status, EndPointer, Uint64) ←
    lift (if ParseAsHex
          then AsciiStrHexToUint64S RSIZE_MAX ASCII_RSIZE_MAX Uint64String (Some 0) (Some 0)
          else AsciiStrDecimalToUint64S RSIZE_MAX ASCII_RSIZE_MAX Uint64String (Some 0) (Some 0));
  if RETURN_ERROR Status then mret (Status, None) else
  match EndPointer, Uint64 with
  | Some EndPointer, Some Uint64 =>
    if EndPointer =? Uint64String then mret (RETURN_PROTOCOL_ERROR, None) else
    c ← lift (read_char Ascii EndPointer);
    if negb (c =? 0) || (Uint64 >? Limit) then mret (RETURN_PROTOCOL_ERROR, None)
    else mret (RETURN_SUCCESS, Some Uint64)
  | _, _ => fails
  end.

Definition QemuFwCfgSimpleParserInit : M S Z := mret RETURN_SUCCESS.

(** The comparison with the words of an array. *)
Fixpoint find_word (words : list Z) : M byte_mem bool :=
  match words with
  | [] => mret false
  | w :: words =>
    r ← AsciiStriCmp RSIZE_MAX ASCII_RSIZE_MAX BoolString w;
    if r =? 0 then mret true else find_word words
  end.

Definition QemuFwCfgParseBool (FileName : Z) : M S (Z * option bool) :=
  '(Status, BoolStringSize) ←
    QemuFwCfgGetAsString FileName (BOOL_STRING_MAX_SIZE + CRLF_LENGTH) BoolString;
  if RETURN_ERROR Status then mret (Status, None) else
  lift (StripNewline BoolStringSize BoolString);;
  is_true ← lift (find_word mTrueString);
  if (is_true : bool) then mret (RETURN_SUCCESS, Some true) else
  is_false ← lift (find_word mFalseString);
  if (is_false : bool) then mret (RETURN_SUCCESS, Some false) else
  mret (RETURN_PROTOCOL_ERROR, None).

Definition QemuFwCfgParseUint8 (FileName : Z) (ParseAsHex : bool) : M S (Z * option Z) :=
  '(Status, Uint64) ← QemuFwCfgParseUint64WithLimit FileName ParseAsHex MAX_UINT8;
  if RETURN_ERROR Status then mret (Status, None) else mret (RETURN_SUCCESS, cast UINT8 <$> Uint64).

Definition QemuFwCfgParseUint16 (FileName : Z) (ParseAsHex : bool) : M S (Z * option Z) :=
  '(Status, Uint64) ← QemuFwCfgParseUint64WithLimit FileName ParseAsHex MAX_UINT16;
  if RETURN_ERROR Status then mret (Status, None) else mret (RETURN_SUCCESS, cast UINT16 <$> Uint64).

Definition QemuFwCfgParseUint32 (FileName : Z) (ParseAsHex : bool) : M S (Z * option Z) :=
  '(Status, Uint64) ← QemuFwCfgParseUint64WithLimit FileName ParseAsHex MAX_UINT32;
  if RETURN_ERROR Status then mret (Status, None) else mret (RETURN_SUCCESS, cast UINT32 <$> Uint64).

Definition QemuFwCfgParseUint64 (FileName : Z) (ParseAsHex : bool) : M S (Z * option Z) :=
  '(Status, Uint64) ← QemuFwCfgParseUint64WithLimit FileName ParseAsHex MAX_UINT64;
  if RETURN_ERROR Status then mret (Status, None) else mret (RETURN_SUCCESS, Uint64).

Definition QemuFwCfgParseUintn (FileName : Z) (ParseAsHex : bool) : M S (Z * option Z) :=
  '(Status, Uint64) ← QemuFwCfgParseUint64WithLimit FileName ParseAsHex MAX_UINTN;
  if RETURN_ERROR Status then mret (Status, None) else mret (RETURN_SUCCESS, cast UINTN <$> Uint64).
End parser.
