(* ===== verification/FwCfgSpec.v ===== *)
(** * The simple parser of fw_cfg files: what is accepted

    [FwCfgLaws] is what the parser needs of QemuFwCfgLib: named files whose bytes
    can be read.  The theorems give the value of a file as a function of its
    bytes. *)
From S2P Require Import Prelude CBase CheckSum CheckSumSpec ByteMem SafeString SafeStringSpec.
From S2P Require Import StrConvert StrConvertSpec StrCompare StrCompareSpec FwCfgParser.
Local Open Scope Z_scope.

(** The content of the first file with a name. *)
Fixpoint file_named (name : list Z) (files : list (list Z * list Z)) : option (list Z) :=
  match files with
  | [] => None
  | (n, content) :: files => if decide (name = n) then Some content else file_named name files
  end.

(** The library may use [cfg_scratch_size] bytes of the stack at [cfg_scratch]. *)
Class FwCfgLaws (D : Type) `{FwCfgOps D} (RSIZE_MAX ASCII_RSIZE_MAX : Z) (files : list (list Z * list Z)) := {
  cfg_ready : D → Prop;
  cfg_scratch : Z;
  cfg_scratch_size : nat;
  law_bytes : Forall (λ f, bytes f.2) files;
  law_IsAvailable m d : cfg_ready d →
    ∃ d', cfg_IsAvailable (m, d) = Some (true, (m, d')) ∧ cfg_ready d';
  law_FindFile m d Name name : cfg_ready d → mapped m cfg_scratch (Z.of_nat cfg_scratch_size) →
    accepted RSIZE_MAX ASCII_RSIZE_MAX Ascii m Name name →
    apart Name (Z.of_nat (S (length name))) cfg_scratch (Z.of_nat cfg_scratch_size) →
    ∃ l d', (length l ≤ cfg_scratch_size)%nat ∧ cfg_ready d' ∧
      match file_named name files with
      | None => cfg_FindFile Name (m, d) = Some ((RETURN_NOT_FOUND, None), (put m cfg_scratch l, d'))
      | Some content => ∃ item,
          cfg_FindFile Name (m, d) =
            Some ((RETURN_SUCCESS, Some (item, Z.of_nat (length content))), (put m cfg_scratch l, d')) ∧
          ∀ m1 Buffer, mapped m1 Buffer (Z.of_nat (length content)) → ∃ d1,
            (cfg_SelectItem item;; cfg_ReadBytes (Z.of_nat (length content)) Buffer) (m1, d')
              = Some (tt, (put m1 Buffer content, d1)) ∧ cfg_ready d1
      end }.

(** ** The text of a file *)

(** The buffer of [size] bytes after the file has been read, with its NUL. *)
Definition as_string (size : nat) (data : list Z) : option (list Z) :=
  if decide (size < length data)%nat then None else
  if decide (last data = Some 0) then Some data else
  if decide (length data = size) then None else Some (data ++ [0]).

Definition strip_newline (b : list Z) : list Z :=
  let n := length b in
  if decide ((3 ≤ n)%nat ∧ b !! (n - 3)%nat = Some 13 ∧ b !! (n - 2)%nat = Some 10) then take (n - 3) b ++ [0] else
  if decide ((2 ≤ n)%nat ∧ b !! (n - 2)%nat = Some 10) then take (n - 2) b ++ [0] else b.

(** The string in a buffer. *)
Definition text_of (b : list Z) : list Z := take_while (λ c, negb (c =? 0)) b.

(** ** The value of a text *)

(** What follows the prefix of a hexadecimal number; [None] for an x without a zero. *)
Definition hex_part (cs : list Z) : option (list Z) :=
  let body := drop_while pad_space cs in
  match drop_while leading_zero body with
  | c :: rest => if letter_x c then
                   if (length (take_while leading_zero body) =? 0)%nat then None else Some rest
                 else Some body
  | [] => Some body
  end.

Definition number_file (Limit base : Z) (f : Z → Z) (digit : Z → bool) (cs : list Z) (part : option (list Z))
    : Z * option Z :=
  match part with
  | None => (RETURN_PROTOCOL_ERROR, None)
  | Some ds =>
    if value base f (take_while digit ds) >? MAX_UINT64 then (RETURN_UNSUPPORTED, None) else
    if bool_decide (cs ≠ []) && forallb digit ds && (value base f ds <=? Limit)
    then (RETURN_SUCCESS, Some (value base f ds)) else (RETURN_PROTOCOL_ERROR, None)
  end.

Definition integer_file (ParseAsHex : bool) (Limit : Z) (cs : list Z) : Z * option Z :=
  if ParseAsHex then number_file Limit 16 hexadecimal (is_hex Ascii) cs (hex_part cs)
  else number_file Limit 10 decimal (is_decimal Ascii) cs (Some (drop_while pad_space cs)).

(** The outcome of a parse of a file with a buffer of [size] bytes. *)
Definition parse_file {A} (size : nat) (parse : list Z → Z * option A) (data : list Z) : Z * option A :=
  match as_string size data with
  | None => (RETURN_PROTOCOL_ERROR, None)
  | Some b => parse (text_of (strip_newline b))
  end.

(** ** Bytes as characters *)

Lemma text_ascii cs : bytes cs → text Ascii cs = cs.
Proof.
  induction cs as [|c cs IH]; intros Hb; [done|]. apply Forall_cons in Hb as [Hc Hb].
  rewrite text_cons, IH by done. cbn. by rewrite Z.mod_small.
Qed.

Lemma chars_buffer m p cs : buffer m p cs → chars Ascii m p cs.
Proof.
  intros Hb. assert (bytes cs) as Hcs by (apply Forall_lookup; intros i b Hi; by destruct (Hb i b Hi)).
  split; [exact Hcs|]. by rewrite text_ascii.
Qed.

Lemma accepted_same RSIZE_MAX ASCII_RSIZE_MAX m1 m2 p cs :
  accepted RSIZE_MAX ASCII_RSIZE_MAX Ascii m1 p cs → (∀ i, p ≤ i < p + Z.of_nat (S (length cs)) → m2 !! i = m1 !! i) →
  accepted RSIZE_MAX ASCII_RSIZE_MAX Ascii m2 p cs.
Proof.
  intros (Hp & Ha & [Hnz [Hr Hb]] & Hl & H64) Hsame. split_and!; [done..| |done|done]. split; [done|]. split; [done|].
  intros i b Hi. destruct (Hb i b Hi) as [Hm ?]. split; [|done]. rewrite Hsame; [done|].
  rewrite text_ascii in Hi by exact Hr. apply lookup_lt_Some in Hi. rewrite length_app in Hi. cbn [length] in Hi. lia.
Qed.

Lemma text_of_nonzero b : nonzero (text_of b).
Proof.
  apply Forall_forall. intros c Hc. pose proof (take_while_all (λ c, negb (c =? 0)) b) as Hall.
  rewrite Forall_forall in Hall. specialize (Hall c Hc). cbv beta in Hall. apply negb_true_iff, Z.eqb_neq in Hall. done.
Qed.

Lemma text_of_split b : last b = Some 0 → ∃ r, b = text_of b ++ 0 :: r.
Proof.
  intros Hlast. unfold text_of. pose proof (take_drop_while (λ c, negb (c =? 0)) b) as Hb.
  destruct (drop_while (λ c, negb (c =? 0)) b) as [|c r] eqn:Hd.
  - exfalso. rewrite app_nil_r in Hb. pose proof (take_while_all (λ c, negb (c =? 0)) b) as Hall. rewrite Hb in Hall.
    apply last_Some in Hlast as [l ->]. apply Forall_app in Hall as [_ Hall]. by apply Forall_cons in Hall as [? _].
  - exists r. rewrite <-Hb at 1. f_equal. f_equal.
    assert (∀ l, drop_while (λ c, negb (c =? 0)) l = c :: r → c = 0) as Hhd; [|by eapply Hhd].
    induction l as [|x l IH]; [done|]. cbn [drop_while]. destruct (Z.eqb_spec x 0) as [->|]; cbn [negb]; [by intros [= <- _]|done].
Qed.

Lemma cstring_text m p b : buffer m p b → last b = Some 0 → cstring Ascii m p (text_of b).
Proof.
  intros Hb Hlast. split; [apply text_of_nonzero|]. destruct (text_of_split b Hlast) as [r Hr].
  apply chars_buffer in Hb. rewrite Hr in Hb. change (0 :: r) with ([0] ++ r) in Hb. rewrite app_assoc in Hb.
  by apply chars_app in Hb as [? _].
Qed.

Lemma read_byte m p b i c : buffer m p b → b !! i = Some c → read_char Ascii (p + Z.of_nat i) m = Some (c, m).
Proof.
  intros Hb Hi. apply wp_run, wp_read_char with (c := c); [|done]. apply chars_buffer in Hb.
  pose proof (chars_at _ _ _ _ _ _ Hb Hi) as Hc. change (sizeof_char Ascii) with 1 in Hc. by rewrite Z.mul_1_l in Hc.
Qed.

Lemma write_byte m p c : is_Some (m !! p) → byte c → write_char Ascii p c m = Some (tt, <[p:=c]> m).
Proof.
  intros Hm Hc. apply wp_run, wp_write_char.
  - intros i Hi. change (sizeof_char Ascii) with 1 in Hi. by replace i with p by lia.
  - cbn. by rewrite Z.mod_small.
Qed.

(** ** The newline *)

Lemma last_at b : last b = Some 0 → (0 < length b)%nat.
Proof. destruct b; [done|cbn; lia]. Qed.

Lemma buffer_cut m p b i : buffer m p b → (i < length b)%nat → buffer (<[p + Z.of_nat i:=0]> m) p (take i b ++ [0]).
Proof.
  intros Hb Hi j c Hj. destruct (decide (j = i)) as [->|Hne].
  - rewrite lookup_app_r in Hj by (rewrite length_take; lia). rewrite length_take in Hj.
    replace (i - i `min` length b)%nat with 0%nat in Hj by lia. cbn in Hj. simplify_eq. by rewrite lookup_insert_eq.
  - rewrite lookup_insert_ne by lia. apply Hb. apply lookup_app_Some in Hj as [Hj|[Hle Hj]].
    + by apply lookup_take_Some in Hj as [? _].
    + rewrite length_take in Hle, Hj. apply lookup_lt_Some in Hj. cbn [length] in Hj. lia.
Qed.

(** The tests of a byte, [i] bytes before the end of the buffer. *)
Lemma test_byte m p b i (c : Z) (K : M byte_mem bool) (yes : bool) : buffer m p b → (1 ≤ i ≤ length b)%nat →
  K m = Some (yes, m) →
  (d ← read_char Ascii (p + (Z.of_nat (length b) - Z.of_nat i)); if d =? c then K else mret false) m
    = Some (bool_decide (b !! (length b - i)%nat = Some c) && yes, m).
Proof.
  intros Hb Hi HK. destruct (lookup_lt_is_Some_2 b (length b - i) ltac:(lia)) as [d Hd].
  replace (p + (Z.of_nat (length b) - Z.of_nat i)) with (p + Z.of_nat (length b - i)) by lia.
  erewrite bind_run by (by eapply read_byte). rewrite Hd. destruct (Z.eqb_spec d c) as [->|Hne].
  - by rewrite bool_decide_eq_true_2.
  - rewrite bool_decide_eq_false_2 by congruence. done.
Qed.

Lemma test_last m p b i (c : Z) : buffer m p b → (1 ≤ i ≤ length b)%nat →
  (d ← read_char Ascii (p + (Z.of_nat (length b) - Z.of_nat i)); mret (d =? c)) m
    = Some (bool_decide (b !! (length b - i)%nat = Some c), m).
Proof.
  intros Hb Hi. destruct (lookup_lt_is_Some_2 b (length b - i) ltac:(lia)) as [d Hd].
  replace (p + (Z.of_nat (length b) - Z.of_nat i)) with (p + Z.of_nat (length b - i)) by lia.
  erewrite bind_run by (by eapply read_byte). rewrite Hd. unfold mret, M_ret. do 2 f_equal.
  destruct (Z.eqb_spec d c) as [->|Hne]; [by rewrite bool_decide_eq_true_2|by rewrite bool_decide_eq_false_2 by congruence].
Qed.

Lemma newline_size_run m p b : buffer m p b → last b = Some 0 →
  newline_size (Z.of_nat (length b)) p m = Some (Z.of_nat (length (strip_newline b)), m).
Proof.
  intros Hb Hlast. pose proof (last_at b Hlast) as Hn. unfold newline_size, strip_newline.
  assert ((if Z.of_nat (length b) >=? 3 then
            c ← read_char Ascii (p + (Z.of_nat (length b) - 3));
            if c =? 13 then d ← read_char Ascii (p + (Z.of_nat (length b) - 2)); mret (d =? 10) else mret false
          else mret false) m
    = Some (bool_decide ((3 ≤ length b)%nat ∧ b !! (length b - 3)%nat = Some 13 ∧ b !! (length b - 2)%nat = Some 10), m)) as Hcrlf.
  { rewrite Z.geb_leb. destruct (Z.leb_spec 3 (Z.of_nat (length b))); [|rewrite bool_decide_eq_false_2 by lia; done].
    etransitivity; [exact (test_byte m p b 3 13 _ _ Hb ltac:(lia) (test_last m p b 2 10 Hb ltac:(lia)))|]. do 2 f_equal.
    rewrite !bool_decide_and, (bool_decide_eq_true_2 (3 ≤ length b)%nat) by lia. done. }
  rewrite (bind_run _ _ _ _ _ Hcrlf).
  destruct (decide ((3 ≤ length b)%nat ∧ b !! (length b - 3)%nat = Some 13 ∧ b !! (length b - 2)%nat = Some 10)) as [H1|H1].
  { rewrite (bool_decide_eq_true_2 _ H1). rewrite length_app, length_take. cbn [length]. unfold mret, M_ret. do 2 f_equal. lia. }
  rewrite (bool_decide_eq_false_2 _ H1).
  assert ((if Z.of_nat (length b) >=? 2 then d ← read_char Ascii (p + (Z.of_nat (length b) - 2)); mret (d =? 10) else mret false) m
    = Some (bool_decide ((2 ≤ length b)%nat ∧ b !! (length b - 2)%nat = Some 10), m)) as Hlf.
  { rewrite Z.geb_leb. destruct (Z.leb_spec 2 (Z.of_nat (length b))); [|rewrite bool_decide_eq_false_2 by lia; done].
    etransitivity; [exact (test_last m p b 2 10 Hb ltac:(lia))|]. do 2 f_equal.
    rewrite bool_decide_and, (bool_decide_eq_true_2 (2 ≤ length b)%nat) by lia. done. }
  rewrite (bind_run _ _ _ _ _ Hlf).
  destruct (decide ((2 ≤ length b)%nat ∧ b !! (length b - 2)%nat = Some 10)) as [H2|H2].
  - rewrite (bool_decide_eq_true_2 _ H2). rewrite length_app, length_take. cbn [length]. unfold mret, M_ret. do 2 f_equal. lia.
  - by rewrite (bool_decide_eq_false_2 _ H2).
Qed.

(** What StripNewline leaves in memory. *)
Lemma StripNewline_run m p b : buffer m p b → last b = Some 0 →
  ∃ m', StripNewline (Z.of_nat (length b)) p m = Some (Z.of_nat (length (strip_newline b)), m') ∧
    buffer m' p (strip_newline b) ∧ last (strip_newline b) = Some 0 ∧
    (∀ i, ¬ (p ≤ i < p + Z.of_nat (length b)) → m' !! i = m !! i).
Proof.
  intros Hb Hlast. pose proof (last_at b Hlast) as Hn.
  unfold StripNewline. rewrite (bind_run _ _ _ _ _ (newline_size_run m p b Hb Hlast)).
  assert (strip_newline b = b ∨ ∃ i, (S i < length b)%nat ∧ strip_newline b = take i b ++ [0]) as [Heq|(i & Hi & Heq)].
  { unfold strip_newline. case_decide as H1; [right; exists (length b - 3)%nat; split; [lia|done]|].
    case_decide; [right; exists (length b - 2)%nat; split; [lia|done]|by left]. }
  - rewrite Heq, (proj2 (Z.ltb_ge _ _)) by lia. by exists m.
  - rewrite Heq. rewrite length_app, length_take. cbn [length].
    rewrite (proj2 (Z.ltb_lt _ _)) by lia. exists (<[p + Z.of_nat i:=0]> m). split_and!.
    + replace (p + (Z.of_nat (i `min` length b + 1) - 1)) with (p + Z.of_nat i) by lia.
      erewrite bind_run; [done|]. apply write_byte; [|done]. apply (buffer_mapped m p b Hb). lia.
    + apply buffer_cut; [done|lia].
    + by rewrite last_snoc.
    + intros j Hj. by rewrite lookup_insert_ne by lia.
Qed.

(** ** Reading a file *)

Lemma lift_run {D A} (c : M byte_mem A) m (d : D) x m' : c m = Some (x, m') → lift c (m, d) = Some (x, (m', d)).
Proof. intros Hc. unfold lift. cbn [fst snd]. by rewrite Hc. Qed.

Lemma file_named_bytes name files data : Forall (λ f, bytes f.2) files → file_named name files = Some data → bytes data.
Proof.
  intros Hall. induction files as [|[n c] files IH]; [done|]. apply Forall_cons in Hall as [Hc Hall].
  cbn [file_named]. case_decide; [by intros [= <-]|by apply IH].
Qed.

(** [m'] is [m] outside of two ranges. *)
Definition same_outside (a n b k : Z) (m m' : byte_mem) : Prop :=
  ∀ i, ¬ (a ≤ i < a + n) → ¬ (b ≤ i < b + k) → m' !! i = m !! i.

(** The test whether the last byte of a file is a NUL. *)
Lemma terminated_run {D} m p data (d : D) : buffer m p data →
  (if Z.of_nat (length data) >? 0
   then c ← lift (read_char Ascii (p + (Z.of_nat (length data) - 1))); mret (c =? 0) else mret false) (m, d)
    = Some (bool_decide (last data = Some 0), (m, d)).
Proof.
  intros Hb. rewrite Z.gtb_ltb. destruct (Z.ltb_spec 0 (Z.of_nat (length data))).
  - destruct (lookup_lt_is_Some_2 data (length data - 1) ltac:(lia)) as [c Hc].
    replace (p + (Z.of_nat (length data) - 1)) with (p + Z.of_nat (length data - 1)) by lia.
    erewrite bind_run by (by eapply lift_run, read_byte).
    rewrite last_lookup. replace (Nat.pred (length data)) with (length data - 1)%nat by lia. rewrite Hc.
    unfold mret, M_ret. do 2 f_equal.
    destruct (Z.eqb_spec c 0) as [->|]; [by rewrite bool_decide_eq_true_2|by rewrite bool_decide_eq_false_2 by congruence].
  - destruct data; [by rewrite bool_decide_eq_false_2|cbn in *; lia].
Qed.

Section client.
Context {D : Type} `{FwCfgOps D} (RSIZE_MAX ASCII_RSIZE_MAX : Z) (files : list (list Z * list Z)).
Context `{!FwCfgLaws D RSIZE_MAX ASCII_RSIZE_MAX files}.
Context (m : byte_mem) (d : D) (Name : Z) (name : list Z).
Context (Hready : cfg_ready d) (Hscratch : mapped m cfg_scratch (Z.of_nat cfg_scratch_size)).
Context (Hname : accepted RSIZE_MAX ASCII_RSIZE_MAX Ascii m Name name).
Context (Haway : apart Name (Z.of_nat (S (length name))) cfg_scratch (Z.of_nat cfg_scratch_size)).

Lemma GetAsString_run size Buffer : (0 < size)%nat → mapped m Buffer (Z.of_nat size) →
  ∃ m' d', cfg_ready d' ∧
    same_outside cfg_scratch (Z.of_nat cfg_scratch_size) Buffer (Z.of_nat size) m m' ∧
    match file_named name files ≫= λ data, Some (as_string size data) with
    | None => QemuFwCfgGetAsString Name (Z.of_nat size) Buffer (m, d)
                = Some ((RETURN_NOT_FOUND, Z.of_nat size), (m', d'))
    | Some None => QemuFwCfgGetAsString Name (Z.of_nat size) Buffer (m, d)
                     = Some ((RETURN_PROTOCOL_ERROR, Z.of_nat size), (m', d'))
    | Some (Some b) => QemuFwCfgGetAsString Name (Z.of_nat size) Buffer (m, d)
                         = Some ((RETURN_SUCCESS, Z.of_nat (length b)), (m', d')) ∧
                       buffer m' Buffer b ∧ last b = Some 0 ∧ (length b ≤ size)%nat
    end.
Proof.
  intros Hsize HB. destruct (law_IsAvailable m d Hready) as (d1 & Havail & Hr1).
  destruct (law_FindFile m d1 Name name Hr1 Hscratch Hname Haway) as (l & d2 & Hl & Hr2 & Hfind).
  unfold QemuFwCfgGetAsString. erewrite bind_run by exact Havail. cbn [negb].
  assert (same_outside cfg_scratch (Z.of_nat cfg_scratch_size) Buffer (Z.of_nat size) m (put m cfg_scratch l)) as Hsame1.
  { intros i Hi _. apply lookup_put_ne. lia. }
  destruct (file_named name files) as [data|] eqn:Hfile.
  2: { exists (put m cfg_scratch l), d2. split_and!; [done..|]. cbn. by erewrite bind_run by exact Hfind. }
  pose proof (file_named_bytes _ _ _ law_bytes Hfile) as Hbytes.
  destruct Hfind as (item & Hfind & Hread). cbn [mbind option_bind]. erewrite bind_run by exact Hfind.
  cbv beta iota. rewrite RETURN_SUCCESS_no_error. erewrite bind_run by reflexivity. cbv beta iota. rewrite Z.gtb_ltb.
  unfold as_string. destruct (decide (size < length data)%nat) as [Hbig|Hfit].
  { rewrite (proj2 (Z.ltb_lt _ _)) by lia. by exists (put m cfg_scratch l), d2. }
  rewrite (proj2 (Z.ltb_ge _ _)) by lia.
  destruct (Hread (put m cfg_scratch l) Buffer) as (d3 & Hrun & Hr3).
  { apply mapped_put. eapply mapped_sub; [exact HB|lia|lia]. }
  set (m2 := put (put m cfg_scratch l) Buffer data) in *.
  assert (buffer m2 Buffer data) as Hdata by by apply buffer_put.
  assert (same_outside cfg_scratch (Z.of_nat cfg_scratch_size) Buffer (Z.of_nat size) m m2) as Hsame2.
  { intros i Hi1 Hi2. unfold m2. rewrite lookup_put_ne by lia. by apply Hsame1. }
  rewrite (bind_run_seq _ _ _ _ _ _ Hrun).
  assert ((if Z.of_nat (length data) >? 0
           then c ← lift (read_char Ascii (Buffer + (Z.of_nat (length data) - 1))); mret (c =? 0) else mret false) (m2, d3)
    = Some (bool_decide (last data = Some 0), (m2, d3))) as Hterm by by apply terminated_run.
  rewrite (bind_run _ _ _ _ _ Hterm). destruct (decide (last data = Some 0)) as [Hlast|Hlast].
  { rewrite (bool_decide_eq_true_2 _ Hlast). exists m2, d3. split_and!; [done..|lia]. }
  rewrite (bool_decide_eq_false_2 _ Hlast). destruct (decide (length data = size)) as [Heq|Hne].
  { rewrite (proj2 (Z.eqb_eq _ _)) by lia. by exists m2, d3. }
  rewrite (proj2 (Z.eqb_neq _ _)) by lia.
  exists (<[Buffer + Z.of_nat (length data):=0]> m2), d3.
  erewrite bind_run; [|apply lift_run, write_byte; [|done]].
  2: { apply (mapped_put _ Buffer data _ _ (mapped_put m cfg_scratch l _ _ HB)). lia. }
  split_and!; [done| | | | |].
  - intros i Hi1 Hi2. rewrite lookup_insert_ne by lia. by apply Hsame2.
  - rewrite length_app. cbn [length]. unfold mret, M_ret. do 3 f_equal. lia.
  - unfold m2. rewrite <-put_snoc. apply buffer_put. apply Forall_app. split; [done|by apply Forall_singleton].
  - by rewrite last_snoc.
  - rewrite length_app. cbn [length]. lia.
Qed.
End client.

(** ** The simple parser of fw_cfg files: integers and words *)

Lemma take_while_forallb p cs : length (take_while p cs) = length cs ↔ forallb p cs = true.
Proof.
  induction cs as [|c cs IH]; [done|]. cbn [take_while forallb]. destruct (p c); cbn [andb length]; [|split; [lia|done]].
  rewrite <-IH. split; lia.
Qed.

Lemma take_while_id p cs : forallb p cs = true → take_while p cs = cs.
Proof.
  induction cs as [|c cs IH]; [done|]. cbn [take_while forallb]. destruct (p c); cbn [andb]; [|done].
  intros Hall. by rewrite IH.
Qed.

(** What the parser does with the result of a conversion. *)
Definition check_number {D} (Uint64String Limit : Z) (r : number_result) : M (byte_mem * D) (Z * option Z) :=
  let '(Status, EndPointer, Uint64) := r in
  if RETURN_ERROR Status then mret (Status, None) else
  match EndPointer, Uint64 with
  | Some EndPointer, Some Uint64 =>
    if EndPointer =? Uint64String then mret (RETURN_PROTOCOL_ERROR, None) else
    c ← lift (read_char Ascii EndPointer);
    if negb (c =? 0) || (Uint64 >? Limit) then mret (RETURN_PROTOCOL_ERROR, None)
    else mret (RETURN_SUCCESS, Some Uint64)
  | _, _ => fails
  end.

Lemma RETURN_UNSUPPORTED_error : RETURN_ERROR RETURN_UNSUPPORTED = true.
Proof. by vm_compute. Qed.
Lemma RETURN_NOT_FOUND_error : RETURN_ERROR RETURN_NOT_FOUND = true.
Proof. by vm_compute. Qed.
Lemma RETURN_PROTOCOL_ERROR_error : RETURN_ERROR RETURN_PROTOCOL_ERROR = true.
Proof. by vm_compute. Qed.

Section number.
Context {D : Type} (m : byte_mem) (d : D) (p : Z) (cs : list Z).
Context (Hcs : cstring Ascii m p cs).

(** Digits that begin [start] characters into the text. *)
Lemma check_parsed Limit base f digit start e0 : digit 0 = false → (start ≤ length cs)%nat →
  check_number p Limit (parsed Ascii p (Some e0) MAX_UINT64 base f digit start (drop start cs)) (m, d) =
    Some (number_file Limit base f digit cs (Some (drop start cs)), (m, d)).
Proof.
  intros H0 Hstart. unfold parsed, number_file. set (ds := drop start cs). set (t := take_while digit ds).
  assert (length ds = length cs - start)%nat as Hds by apply length_drop.
  pose proof (take_while_le digit ds) as Ht. fold t in Ht.
  destruct (value base f t >? MAX_UINT64); [cbn; by rewrite RETURN_UNSUPPORTED_error|].
  cbn [check_number set_pointer fmap option_fmap option_map]. rewrite RETURN_SUCCESS_no_error.
  unfold chars_size. change (sizeof_char Ascii) with 1. rewrite Z.mul_1_l.
  destruct (Z.eqb_spec (p + Z.of_nat (start + length t)) p) as [Hz|Hnz].
  { assert (start = 0 ∧ length t = 0)%nat as [-> Ht0] by lia. unfold ds in *. rewrite drop_0 in *.
    destruct (decide (cs = [])) as [->|Hne]; [done|]. rewrite (bool_decide_eq_true_2 _ Hne). cbn [andb].
    destruct (forallb digit cs) eqn:Hall; [|done]. apply take_while_forallb in Hall. fold t in Hall.
    destruct cs; [done|]. cbn in Hall, Ht0. lia. }
  assert (cs ≠ []) as Hne by (intros ->; cbn in *; lia). rewrite (bool_decide_eq_true_2 _ Hne). cbn [andb].
  assert (∃ c, (cs ++ [0]) !! (start + length t)%nat = Some c ∧ (c =? 0) = forallb digit ds) as (c & Hc & Hc0).
  { destruct (decide (length t = length ds)) as [Hfull|Hpart].
    - exists 0. rewrite lookup_app_r by lia. replace (start + length t - length cs)%nat with 0%nat by lia. split; [done|].
      symmetry. by apply take_while_forallb.
    - destruct (lookup_lt_is_Some_2 cs (start + length t) ltac:(lia)) as [c Hc]. exists c.
      split; [by apply lookup_app_l_Some|]. pose proof (Forall_lookup_1 _ _ _ _ (cstring_nonzero _ _ _ _ Hcs) Hc) as Hn.
      cbv beta in Hn. rewrite (proj2 (Z.eqb_neq c 0)) by done. symmetry. apply not_true_iff_false. intros Hall.
      apply Hpart. by apply take_while_forallb. }
  erewrite bind_run.
  2: { apply lift_run, wp_run, wp_read_char with (c := c); [|done].
       pose proof (chars_at _ _ _ _ _ _ (cstring_chars _ _ _ _ Hcs) Hc) as Hch.
       change (sizeof_char Ascii) with 1 in Hch. by rewrite Z.mul_1_l in Hch. }
  rewrite Hc0. destruct (forallb digit ds) eqn:Hall; cbn [negb andb orb]; [|done].
  unfold t. rewrite take_while_id by done. rewrite Z.gtb_ltb, Z.leb_antisym. by destruct (Limit <? value base f ds).
Qed.

Lemma check_decimal Limit e0 : 0 ≤ Limit →
  check_number p Limit (parse_decimal Ascii p (Some e0) MAX_UINT64 cs) (m, d)
    = Some (integer_file false Limit cs, (m, d)).
Proof.
  intros HL. unfold parse_decimal, integer_file. rewrite <-drop_take_while.
  apply check_parsed; [done|apply take_while_le].
Qed.

Lemma check_hex Limit e0 : 0 ≤ Limit →
  check_number p Limit (parse_hex Ascii p (Some e0) MAX_UINT64 cs) (m, d)
    = Some (integer_file true Limit cs, (m, d)).
Proof.
  intros HL. unfold parse_hex, integer_file, hex_part. destruct (positions cs) as [Hpos Hdrop].
  assert (∀ e, check_number p Limit (parsed Ascii p (Some e) MAX_UINT64 16 hexadecimal (is_hex Ascii)
      (length (take_while pad_space cs)) (drop_while pad_space cs)) (m, d) =
    Some (number_file Limit 16 hexadecimal (is_hex Ascii) cs (Some (drop_while pad_space cs)), (m, d))) as Hbody.
  { intros e. rewrite <-drop_take_while. apply check_parsed; [done|apply take_while_le]. }
  destruct (drop_while leading_zero (drop_while pad_space cs)) as [|c rest] eqn:Hrest; [apply Hbody|].
  destruct (letter_x c); [|apply Hbody]. destruct (_ =? 0)%nat eqn:Hz.
  - cbn [check_number set_pointer fmap option_fmap option_map]. by rewrite RETURN_SUCCESS_no_error, Z.eqb_refl.
  - assert (drop (S (length (take_while pad_space cs) + length (take_while leading_zero (drop_while pad_space cs)))) cs = rest) as Hr.
    { rewrite <-Nat.add_1_r, <-drop_drop, Hdrop. done. }
    rewrite <-Hr. apply check_parsed; [done|].
    apply (f_equal length) in Hdrop. rewrite length_drop in Hdrop. cbn [length] in Hdrop. lia.
Qed.
End number.

Section client.
Context {D : Type} `{FwCfgOps D} (RSIZE_MAX ASCII_RSIZE_MAX : Z) (files : list (list Z * list Z)).
Context `{!FwCfgLaws D RSIZE_MAX ASCII_RSIZE_MAX files}.
Context (Hlimit : 0 ≤ ASCII_RSIZE_MAX < 2 ^ 32 - 1) (Hroom : ASCII_RSIZE_MAX = 0 ∨ 23 ≤ ASCII_RSIZE_MAX).
Context (m : byte_mem) (d : D) (Name : Z) (name : list Z).
Context (Hready : cfg_ready d) (Hscratch : mapped m cfg_scratch (Z.of_nat cfg_scratch_size)).
Context (Hname : accepted RSIZE_MAX ASCII_RSIZE_MAX Ascii m Name name).
Context (Haway : apart Name (Z.of_nat (S (length name))) cfg_scratch (Z.of_nat cfg_scratch_size)).


(** The outcome for a file: the status of a missing file, or that of the parse. *)
Definition file_outcome {A} (size : nat) (parse : list Z → Z * option A) : Z * option A :=
  match file_named name files with
  | None => (RETURN_NOT_FOUND, None)
  | Some data => parse_file size parse data
  end.

(** The string that the parsers of this library look at. *)
Definition file_text (size : nat) : option (list Z) :=
  data ← file_named name files; b ← as_string size data; Some (text_of (strip_newline b)).

Lemma text_short b : (length (text_of b) ≤ length b)%nat.
Proof. apply take_while_le. Qed.

Lemma strip_newline_short b : last b = Some 0 → (length (strip_newline b) ≤ length b)%nat.
Proof.
  intros Hlast. pose proof (last_at b Hlast). unfold strip_newline.
  repeat case_decide; rewrite ?length_app, ?length_take; cbn [length]; lia.
Qed.

Lemma text_fits b : last b = Some 0 → last (strip_newline b) = Some 0 → (length b ≤ 23)%nat →
  (length (text_of (strip_newline b)) ≤ 23)%nat.
Proof. intros Hl Hs Hb. pose proof (text_short (strip_newline b)). pose proof (strip_newline_short b Hl). lia. Qed.

Lemma ParseUint64WithLimit_run Uint64String Limit (ParseAsHex : bool) :
  0 < Uint64String → mapped m Uint64String 23 → 0 ≤ Limit →
  (ParseAsHex = true → ∀ c l, file_text 23 = Some (c :: l) → letter_x c = false) →
  ∃ m' d', cfg_ready d' ∧ same_outside cfg_scratch (Z.of_nat cfg_scratch_size) Uint64String 23 m m' ∧
    QemuFwCfgParseUint64WithLimit RSIZE_MAX ASCII_RSIZE_MAX Uint64String Name ParseAsHex Limit (m, d)
      = Some (file_outcome 23 (integer_file ParseAsHex Limit), (m', d')).
Proof.
  intros HU HmU HL Hx. unfold file_outcome, file_text in *.
  destruct (GetAsString_run RSIZE_MAX ASCII_RSIZE_MAX files m d Name name Hready Hscratch Hname Haway 23 Uint64String
    ltac:(lia) HmU) as (m1 & d1 & Hr1 & Hsame1 & Hget).
  unfold QemuFwCfgParseUint64WithLimit. change (UINT64_STRING_MAX_SIZE + CRLF_LENGTH) with (Z.of_nat 23).
  destruct (file_named name files) as [data|]; cbn [mbind option_bind] in Hget.
  2: { exists m1, d1. split_and!; [done..|]. erewrite bind_run by exact Hget. cbv beta iota.
       by rewrite RETURN_NOT_FOUND_error. }
  unfold parse_file. cbn [mbind option_bind] in Hx. destruct (as_string 23 data) as [b|].
  2: { exists m1, d1. split_and!; [done..|]. erewrite bind_run by exact Hget. cbv beta iota.
       by rewrite RETURN_PROTOCOL_ERROR_error. }
  destruct Hget as (Hget & Hb & Hlast & Hlen). erewrite bind_run by exact Hget. cbv beta iota.
  rewrite RETURN_SUCCESS_no_error.
  destruct (StripNewline_run m1 Uint64String b Hb Hlast) as (m2 & Hstrip & Hb2 & Hlast2 & Hsame2).
  erewrite bind_run by (apply lift_run; exact Hstrip).
  pose proof (cstring_text _ _ _ Hb2 Hlast2) as Hcs. set (cs := text_of (strip_newline b)) in *.
  pose proof (text_fits b Hlast Hlast2 Hlen) as Hfit. fold cs in Hfit.
  exists m2, d1. split_and!; [done| |].
  { intros i Hi1 Hi2. rewrite Hsame2 by lia. by apply Hsame1. }
  pose proof Hcs as [Hnz Hch]. assert (aligned Ascii Uint64String) as Hal by done.
  destruct ParseAsHex.
  - assert (AsciiStrHexToUint64S RSIZE_MAX ASCII_RSIZE_MAX Uint64String (Some 0) (Some 0) m2 =
      Some (parse_hex Ascii Uint64String (Some 0) MAX_UINT64 cs, m2)) as Hrun.
    { unfold AsciiStrHexToUint64S.
      rewrite (HexToIntegerS_run RSIZE_MAX ASCII_RSIZE_MAX Ascii m2 Uint64String cs HU Hal Hlimit Hnz Hch hex_uint64 MAX_UINT64
        ltac:(done) (λ a b m' Ha Hb, hex_uint64_step a b m' Ha Hb)).
      - rewrite decide_True; [done|]. cbn [rsize_max]. lia.
      - intros c l Hc. apply (Hx eq_refl c l). exact (f_equal Some Hc). }
    erewrite bind_run by (apply lift_run; exact Hrun). by apply (check_hex m2 d1 Uint64String cs Hcs).
  - assert (AsciiStrDecimalToUint64S RSIZE_MAX ASCII_RSIZE_MAX Uint64String (Some 0) (Some 0) m2 =
      Some (parse_decimal Ascii Uint64String (Some 0) MAX_UINT64 cs, m2)) as Hrun.
    { unfold AsciiStrDecimalToUint64S.
      rewrite (DecimalToIntegerS_run RSIZE_MAX ASCII_RSIZE_MAX Ascii m2 Uint64String cs HU Hal Hlimit Hnz Hch decimal_uint64 MAX_UINT64
        (Some 0) 0 ltac:(done) (λ a b m' Ha Hb, decimal_uint64_step a b m' Ha Hb)).
      rewrite decide_True; [done|]. cbn [rsize_max]. lia. }
    erewrite bind_run by (apply lift_run; exact Hrun). by apply (check_decimal m2 d1 Uint64String cs Hcs).
Qed.

(** ** Integers *)

Lemma digits_nonneg base f digit ds : 0 ≤ base → (∀ c, digit c = true → 0 ≤ f c) →
  forallb digit ds = true → 0 ≤ value base f ds.
Proof.
  intros Hb Hf Hds. unfold value. assert (∀ acc, 0 ≤ acc → 0 ≤ value_from base f acc ds) as Hacc; [|by apply Hacc].
  revert Hds. induction ds as [|c ds IH]; intros Hds acc Ha; [done|]. cbn [forallb] in Hds.
  apply andb_true_iff in Hds as [Hc Hds]. cbn [value_from]. apply IH; [done|]. specialize (Hf c Hc). nia.
Qed.

Lemma number_file_bounds Limit base f digit cs part v : 0 ≤ base → (∀ c, digit c = true → 0 ≤ f c) →
  (number_file Limit base f digit cs part).2 = Some v → 0 ≤ v ≤ Limit.
Proof.
  intros Hb Hf. unfold number_file. destruct part as [ds|]; [|done]. destruct (_ >? MAX_UINT64); [done|].
  destruct (_ && (_ <=? Limit)) eqn:Hall; [|done]. cbn [snd]. intros Hv. simplify_eq.
  apply andb_true_iff in Hall as [[_ Hds]%andb_true_iff HL%Z.leb_le]. split; [by eapply digits_nonneg|done].
Qed.

Lemma integer_file_bounds hex Limit cs v : (integer_file hex Limit cs).2 = Some v → 0 ≤ v ≤ Limit.
Proof.
  destruct hex; apply number_file_bounds; try done; intros c Hc.
  - destruct (is_hex_digit _ _ Hc). lia.
  - apply is_decimal_digit in Hc. unfold decimal. lia.
Qed.

(** The value of a file fits into the type that has its limit. *)
Lemma integer_outcome_cast t hex r : signed t = false → 0 < width t →
  r = file_outcome 23 (integer_file hex (2 ^ width t - 1)) → cast t <$> r.2 = r.2.
Proof.
  intros Ht Hw ->. unfold file_outcome, parse_file. destruct (file_named name files) as [data|]; [|done].
  destruct (as_string 23 data) as [b|]; [|done].
  destruct (integer_file hex _ _).2 as [v|] eqn:Hv; [|done]. apply integer_file_bounds in Hv. cbn [fmap option_fmap option_map].
  f_equal. unfold cast. rewrite Ht. apply Z.mod_small. lia.
Qed.

Lemma integer_outcome_status hex Limit r : r = file_outcome 23 (integer_file hex Limit) →
  RETURN_ERROR r.1 = false ∧ r.1 = RETURN_SUCCESS ∨ RETURN_ERROR r.1 = true ∧ r.2 = None.
Proof.
  intros ->. unfold file_outcome, parse_file. destruct (file_named name files) as [data|]; [|by right].
  destruct (as_string 23 data) as [b|]; [|by right]. unfold integer_file, number_file.
  destruct hex; [destruct (hex_part _); [|by right]|]; (destruct (_ >? MAX_UINT64); [by right|]); destruct (_ && (_ <=? Limit)); first [by left|by right].
Qed.

(** The narrowing of the result of QemuFwCfgParseUint64WithLimit. *)
Lemma narrow_run t hex (c : M (byte_mem * D) (Z * option Z)) m' d' : signed t = false → 0 < width t →
  c (m, d) = Some (file_outcome 23 (integer_file hex (2 ^ width t - 1)), (m', d')) →
  ('(Status, Uint64) ← c; if RETURN_ERROR Status then mret (Status, None) else mret (RETURN_SUCCESS, cast t <$> Uint64)) (m, d)
    = Some (file_outcome 23 (integer_file hex (2 ^ width t - 1)), (m', d')).
Proof.
  intros Ht Hw Hc. erewrite bind_run by exact Hc.
  destruct (file_outcome 23 _) as [Status v] eqn:Ho. symmetry in Ho. cbv beta iota.
  pose proof (integer_outcome_cast t hex _ Ht Hw Ho) as Hcast. cbn [snd] in Hcast.
  destruct (integer_outcome_status hex _ _ Ho) as [[Hs He]|[Hs He]]; cbn [fst snd] in Hs, He; rewrite Hs.
  - by rewrite Hcast, He.
  - by rewrite He.
Qed.

(** C9: the outcome of QemuFwCfgParseUint8 to QemuFwCfgParseUintn as a function of
    the bytes of the named file: RETURN_NOT_FOUND without the file;
    RETURN_PROTOCOL_ERROR when it has more than the 23 bytes of the buffer with its
    NUL; otherwise, with the trailing newline removed, the number of the text when
    the digits after the spaces (and the 0x) reach its end and the number is within
    the type, RETURN_UNSUPPORTED when it exceeds 64 bits and RETURN_PROTOCOL_ERROR
    in the other cases.  For the hexadecimal parsers the text must not begin with x
    or X, where the code reads the byte before the buffer.  A value is only produced
    on success, and memory changes only in the buffer and in the library's scratch
    space. *)
Theorem fw_cfg_integers Uint64String (ParseAsHex : bool) :
  0 < Uint64String → mapped m Uint64String 23 →
  (ParseAsHex = true → ∀ c l, file_text 23 = Some (c :: l) → letter_x c = false) →
  let returns (parse : Z → bool → M (byte_mem * D) (Z * option Z)) Limit := ∃ m' d', cfg_ready d' ∧
    same_outside cfg_scratch (Z.of_nat cfg_scratch_size) Uint64String 23 m m' ∧
    parse Name ParseAsHex (m, d) = Some (file_outcome 23 (integer_file ParseAsHex Limit), (m', d')) in
  returns (QemuFwCfgParseUint8 RSIZE_MAX ASCII_RSIZE_MAX Uint64String) (2 ^ 8 - 1) ∧
  returns (QemuFwCfgParseUint16 RSIZE_MAX ASCII_RSIZE_MAX Uint64String) (2 ^ 16 - 1) ∧
  returns (QemuFwCfgParseUint32 RSIZE_MAX ASCII_RSIZE_MAX Uint64String) (2 ^ 32 - 1) ∧
  returns (QemuFwCfgParseUint64 RSIZE_MAX ASCII_RSIZE_MAX Uint64String) (2 ^ 64 - 1) ∧
  returns (QemuFwCfgParseUintn RSIZE_MAX ASCII_RSIZE_MAX Uint64String) (2 ^ 64 - 1).
Proof.
  intros HU HmU Hx returns.
  assert (∀ t, signed t = false → 0 < width t → ∀ p,
    (∀ m' d', QemuFwCfgParseUint64WithLimit RSIZE_MAX ASCII_RSIZE_MAX Uint64String Name ParseAsHex (2 ^ width t - 1) (m, d)
       = Some (file_outcome 23 (integer_file ParseAsHex (2 ^ width t - 1)), (m', d')) →
     p Name ParseAsHex (m, d) = Some (file_outcome 23 (integer_file ParseAsHex (2 ^ width t - 1)), (m', d'))) →
    returns p (2 ^ width t - 1)) as Hreturns.
  { intros t Ht Hw p Hp.
    destruct (ParseUint64WithLimit_run Uint64String (2 ^ width t - 1) ParseAsHex HU HmU ltac:(lia) Hx)
      as (m' & d' & Hr & Hsame & Hrun). exists m', d'. split_and!; [done..|]. by apply Hp. }
  split_and!.
  - apply (Hreturns UINT8); [done|done|]. intros m' d' Hrun. by apply (narrow_run UINT8).
  - apply (Hreturns UINT16); [done|done|]. intros m' d' Hrun. by apply (narrow_run UINT16).
  - apply (Hreturns UINT32); [done|done|]. intros m' d' Hrun. by apply (narrow_run UINT32).
  - apply (Hreturns UINT64); [done|done|]. intros m' d' Hrun. unfold QemuFwCfgParseUint64.
    erewrite bind_run by exact Hrun. destruct (file_outcome 23 _) as [Status v] eqn:Ho. symmetry in Ho. cbv beta iota.
    destruct (integer_outcome_status ParseAsHex _ _ Ho) as [[Hs He]|[Hs He]]; cbn [fst snd] in Hs, He; by rewrite Hs, He.
  - apply (Hreturns UINTN); [done|done|]. intros m' d' Hrun. by apply (narrow_run UINTN).
Qed.

(** ** Words *)

Lemma upper_nonzero cs : nonzero cs → nonzero (map upper cs).
Proof.
  intros Hnz. apply Forall_map. eapply Forall_impl; [exact Hnz|]. intros c Hc. cbn. unfold upper.
  destruct (Z.leb_spec 97 c); cbn [andb]; [|done]. destruct (_ <=? 122); [lia|done].
Qed.

Lemma upper_range cs : Forall (λ c, char_range Ascii c) cs → Forall (λ c, char_range Ascii c) (map upper cs).
Proof.
  intros Hr. apply Forall_map. eapply Forall_impl; [exact Hr|]. intros c Hc. change (0 ≤ c < 256) in Hc. change (0 ≤ upper c < 256). unfold upper.
  destruct (Z.leb_spec 97 c); cbn [andb]; [|done]. destruct (_ <=? 122); [lia|done].
Qed.

(** Equality up to case. *)
Definition same_word (cs w : list Z) : bool := bool_decide (map upper cs = map upper w).

Lemma same_word_run m1 p q cs w :
  accepted RSIZE_MAX ASCII_RSIZE_MAX Ascii m1 p cs → accepted RSIZE_MAX ASCII_RSIZE_MAX Ascii m1 q w →
  ∃ r, AsciiStriCmp RSIZE_MAX ASCII_RSIZE_MAX p q m1 = Some (r, m1) ∧ (r =? 0) = same_word cs w.
Proof.
  intros Hcs Hw. eexists. split; [by apply AsciiStriCmp_run|]. unfold same_word.
  pose proof Hcs as (_ & _ & Hc & _). pose proof Hw as (_ & _ & Hd & _).
  apply Bool.eq_iff_eq_true. rewrite Z.eqb_eq, bool_decide_eq_true.
  apply compare_0; [apply upper_nonzero; by destruct Hc|apply upper_nonzero; by destruct Hd| |];
    apply upper_range; by eapply cstring_range.
Qed.

Lemma find_word_run m1 p cs words ws : accepted RSIZE_MAX ASCII_RSIZE_MAX Ascii m1 p cs →
  Forall2 (accepted RSIZE_MAX ASCII_RSIZE_MAX Ascii m1) words ws →
  find_word RSIZE_MAX ASCII_RSIZE_MAX p words m1 = Some (existsb (same_word cs) ws, m1).
Proof.
  intros Hcs Hall. induction Hall as [|a w words ws Ha _ IH]; [done|]. cbn [find_word existsb].
  destruct (same_word_run m1 p a cs w Hcs Ha) as (r & Hr & He). erewrite bind_run by exact Hr. rewrite He.
  by destruct (same_word cs w).
Qed.

(** The value of a text. *)
Definition bool_file (cs : list Z) : Z * option bool :=
  if existsb (same_word cs) true_words then (RETURN_SUCCESS, Some true) else
  if existsb (same_word cs) false_words then (RETURN_SUCCESS, Some false) else (RETURN_PROTOCOL_ERROR, None).

(** The literals of an array are away from what the parser writes. *)
Definition literals_at (BoolString : Z) : list Z → list (list Z) → Prop := Forall2 (λ a w,
  accepted RSIZE_MAX ASCII_RSIZE_MAX Ascii m a w ∧
  apart a (Z.of_nat (S (length w))) cfg_scratch (Z.of_nat cfg_scratch_size) ∧
  apart a (Z.of_nat (S (length w))) BoolString 11).

Lemma literals_kept BoolString m1 words ws : literals_at BoolString words ws →
  same_outside cfg_scratch (Z.of_nat cfg_scratch_size) BoolString 11 m m1 →
  Forall2 (accepted RSIZE_MAX ASCII_RSIZE_MAX Ascii m1) words ws.
Proof.
  intros Hall Hsame. eapply Forall2_impl; [exact Hall|]. intros a w (Ha & H1 & H2).
  eapply accepted_same; [exact Ha|]. intros i Hi. unfold apart in *. apply Hsame; lia.
Qed.

(** C20: the outcome of QemuFwCfgParseBool as a function of the bytes of the file:
    TRUE or FALSE when the text, without its trailing newline, is one of the words
    of mTrueString or of mFalseString in any case of letters, and otherwise
    RETURN_PROTOCOL_ERROR; RETURN_NOT_FOUND without the file, and
    RETURN_PROTOCOL_ERROR for a file that does not fit into the 11 bytes of the
    buffer with its NUL. *)
Theorem fw_cfg_bool BoolString mTrueString mFalseString :
  0 < BoolString → mapped m BoolString 11 →
  literals_at BoolString mTrueString true_words → literals_at BoolString mFalseString false_words →
  ∃ m' d', cfg_ready d' ∧ same_outside cfg_scratch (Z.of_nat cfg_scratch_size) BoolString 11 m m' ∧
    QemuFwCfgParseBool RSIZE_MAX ASCII_RSIZE_MAX BoolString mTrueString mFalseString Name (m, d)
      = Some (file_outcome 11 bool_file, (m', d')).
Proof.
  intros HB HmB Htrue Hfalse. unfold file_outcome.
  destruct (GetAsString_run RSIZE_MAX ASCII_RSIZE_MAX files m d Name name Hready Hscratch Hname Haway 11 BoolString
    ltac:(lia) HmB) as (m1 & d1 & Hr1 & Hsame1 & Hget).
  unfold QemuFwCfgParseBool. change (BOOL_STRING_MAX_SIZE + CRLF_LENGTH) with (Z.of_nat 11).
  destruct (file_named name files) as [data|]; cbn [mbind option_bind] in Hget.
  2: { exists m1, d1. split_and!; [done..|]. by erewrite bind_run by exact Hget. }
  unfold parse_file. destruct (as_string 11 data) as [b|].
  2: { exists m1, d1. split_and!; [done..|]. by erewrite bind_run by exact Hget. }
  destruct Hget as (Hget & Hb & Hlast & Hlen). erewrite bind_run by exact Hget. cbv beta iota.
  rewrite RETURN_SUCCESS_no_error.
  destruct (StripNewline_run m1 BoolString b Hb Hlast) as (m2 & Hstrip & Hb2 & Hlast2 & Hsame2).
  erewrite bind_run by (apply lift_run; exact Hstrip).
  pose proof (cstring_text _ _ _ Hb2 Hlast2) as Hcs. set (cs := text_of (strip_newline b)) in *.
  pose proof (text_short (strip_newline b)) as Hs1. pose proof (strip_newline_short b Hlast) as Hs2. fold cs in Hs1.
  assert (same_outside cfg_scratch (Z.of_nat cfg_scratch_size) BoolString 11 m m2) as Hsame.
  { intros i Hi1 Hi2. rewrite Hsame2 by lia. by apply Hsame1. }
  assert (accepted RSIZE_MAX ASCII_RSIZE_MAX Ascii m2 BoolString cs) as Hacc.
  { split_and!; [done|done|done|cbn [rsize_max]; lia|]. unfold chars_size. change (sizeof_char Ascii) with 1; change (2 ^ 64) with 18446744073709551616. lia. }
  pose proof (find_word_run m2 BoolString cs _ _ Hacc (literals_kept _ _ _ _ Htrue Hsame)) as Ht.
  pose proof (find_word_run m2 BoolString cs _ _ Hacc (literals_kept _ _ _ _ Hfalse Hsame)) as Hf.
  exists m2, d1. split_and!; [done..|]. unfold bool_file.
  erewrite bind_run by (apply lift_run; exact Ht). destruct (existsb (same_word cs) true_words); [done|].
  erewrite bind_run by (apply lift_run; exact Hf). by destruct (existsb (same_word cs) false_words).
Qed.
End client.

(** ** What is accepted as a number *)

(** A file of one space, and the file "0x", are the number zero. *)
Lemma no_digits_is_zero :
  integer_file false 255 [32] = (RETURN_SUCCESS, Some 0) ∧ integer_file true 255 [48; 120] = (RETURN_SUCCESS, Some 0) ∧
  integer_file false 255 [] = (RETURN_PROTOCOL_ERROR, None).
Proof. by vm_compute. Qed.
