(* ===== verification/FwCfgLib.v ===== *)
(** * The fw_cfg library over I/O ports: what it reads

    [FwCfgDevice] is the interface that QEMU documents for the selector and the data
    port: writing the selector starts the data of an item, each read of the data
    port returns its next byte, and zero past its end.  The library is correct for
    every such device, and gives the interface [FwCfgLaws] of the parser. *)
From S2P Require Import Prelude CBase Math64 Math64Spec CheckSum CheckSumSpec ByteMem SafeString SafeStringSpec.
From S2P Require Import StrCompare StrCompareSpec ByteOrder FwCfg FwCfgParser FwCfgSpec StrConvert.
Local Open Scope Z_scope.

Class FwCfgDevice (D : Type) := {
  io_read8 : Z → D → Z * D;
  io_write8 : Z → Z → D → D;
  io_write16 : Z → Z → D → D;
  (** the bytes of an item, and those of the selected item that are still to be read *)
  dev_item : Z → list Z;
  dev_data : D → list Z;
  dev_item_bytes sel : bytes (dev_item sel);
  dev_select sel d : 0 ≤ sel < 2 ^ 16 → dev_data (io_write16 FW_CFG_IO_SELECTOR sel d) = dev_item sel;
  dev_read d : (io_read8 FW_CFG_IO_DATA d).1 = hd 0 (dev_data d);
  dev_next d : dev_data (io_read8 FW_CFG_IO_DATA d).2 = tail (dev_data d) }.

(** ** Reading from the device *)

(** The next [n] bytes, with zeros past the end of the item. *)
Definition padded (n : nat) (l : list Z) : list Z := take n l ++ replicate (n - length l) 0.

Lemma padded_S n l : padded (S n) l = hd 0 l :: padded n (tail l).
Proof. unfold padded. destruct l as [|b l]; cbn [take length tail hd replicate app Nat.sub]; [|done].
  by rewrite take_nil, Nat.sub_0_r. Qed.

Lemma padded_app n l r : length l = n → padded n (l ++ r) = l.
Proof. intros <-. unfold padded. rewrite take_app_length, length_app. replace (_ - _)%nat with 0%nat by lia. apply app_nil_r. Qed.

Lemma length_padded n l : length (padded n l) = n.
Proof. unfold padded. rewrite length_app, length_take, length_replicate. lia. Qed.

Lemma padded_bytes n l : bytes l → bytes (padded n l).
Proof. intros Hl. apply Forall_app. split; [by apply Forall_take|]. by apply Forall_replicate. Qed.

Section library.
Context {D : Type} `{FwCfgDevice D}.
Implicit Types (m : byte_mem) (d : D).

(** The program returns [v], leaves the memory [m'], and [rest] is still to be read. *)
Definition reads {A} (c : M (byte_mem * D) A) m d (v : A) m' (rest : list Z) : Prop :=
  ∃ d', c (m, d) = Some (v, (m', d')) ∧ dev_data d' = rest.

Lemma reads_bind {A B} (c : M (byte_mem * D) A) (k : A → M (byte_mem * D) B) m d v m' rest w m'' rest' :
  reads c m d v m' rest → (∀ d', dev_data d' = rest → reads (k v) m' d' w m'' rest') →
  reads (c ≫= k) m d w m'' rest'.
Proof.
  intros (d1 & Hc & Hd) Hk. destruct (Hk d1 Hd) as (d2 & Hk2 & Hd2). exists d2. split; [|done].
  by erewrite bind_run by exact Hc.
Qed.

Lemma reads_ret {A} (v : A) m d : reads (mret v) m d v m (dev_data d).
Proof. by exists d. Qed.

Lemma select_reads sel m d : 0 ≤ sel < 2 ^ 16 → reads (QemuFwCfgSelectItem io_write16 sel) m d tt m (dev_item sel).
Proof.
  intros Hs. eexists. split; [done|]. cbn [snd fst]. rewrite cast_id by (done || (cint_unfold; lia)).
  by apply dev_select.
Qed.

Lemma read_fifo_reads n m d :
  reads (read_fifo io_read8 FW_CFG_IO_DATA n) m d (padded n (dev_data d)) m (drop n (dev_data d)).
Proof.
  revert d. induction n as [|n IH]; intros d; [apply reads_ret|]. cbn [read_fifo]. rewrite padded_S.
  apply (reads_bind _ _ _ _ (hd 0 (dev_data d)) m (tail (dev_data d))).
  - exists (io_read8 FW_CFG_IO_DATA d).2. split; [|apply dev_next]. unfold in8. cbn [fst snd].
    rewrite <-dev_read. by destruct (io_read8 _ d).
  - intros d1 Hd1. eapply reads_bind; [apply IH|]. intros d2 Hd2. rewrite Hd1 in *.
    exists d2. split; [done|]. rewrite Hd2. destruct (dev_data d); [cbn [tail]; by rewrite !drop_nil|done].
Qed.

Lemma read_integer_reads n m d : reads (read_integer io_read8 n) m d (le_value (padded n (dev_data d))) m (drop n (dev_data d)).
Proof.
  unfold read_integer. cbn. eapply reads_bind; [apply read_fifo_reads|]. intros d1 Hd1. exists d1. by split.
Qed.

Lemma read_bytes_reads n Buffer m d : mapped m Buffer (Z.of_nat n) →
  reads (InternalQemuFwCfgReadBytes io_read8 (Z.of_nat n) Buffer) m d tt (put m Buffer (padded n (dev_data d))) (drop n (dev_data d)).
Proof.
  intros Hm. unfold InternalQemuFwCfgReadBytes. cbn [InternalQemuFwCfgDmaIsAvailable andb]. unfold IoReadFifo8. rewrite Nat2Z.id.
  eapply reads_bind; [apply read_fifo_reads|]. intros d1 Hd1. exists d1. split; [|done].
  unfold on_memory. cbn [fst snd]. by rewrite write_bytes_run by by rewrite length_padded.
Qed.

Lemma skip_chunks_reads fuel : ∀ Size m d, 0 ≤ Size → Size ≤ 256 * (Z.of_nat fuel - 1) →
  reads (skip_chunks io_read8 fuel Size) m d tt m (drop (Z.to_nat Size) (dev_data d)).
Proof.
  induction fuel as [|fuel IH]; intros Size m d HS Hf; [lia|].
  cbn [skip_chunks]. rewrite Z.gtb_ltb. destruct (Z.ltb_spec 0 Size).
  - eapply reads_bind; [apply read_fifo_reads|]. intros d1 Hd1.
    assert (drop (Z.to_nat Size) (dev_data d) = drop (Z.to_nat (Size - Z.min Size 256)) (dev_data d1)) as ->.
    { rewrite Hd1, drop_drop. f_equal. lia. }
    apply IH; lia.
  - replace Size with 0 by lia. apply reads_ret.
Qed.

Lemma skip_reads Size m d : 0 ≤ Size →
  reads (QemuFwCfgSkipBytes io_read8 Size) m d tt m (drop (Z.to_nat Size) (dev_data d)).
Proof.
  intros HS. unfold QemuFwCfgSkipBytes. cbn [InternalQemuFwCfgIsAvailable InternalQemuFwCfgDmaIsAvailable negb andb].
  apply skip_chunks_reads; [done|]. pose proof (Z.div_mod Size 256 ltac:(done)).
  pose proof (Z.mod_pos_bound Size 256 ltac:(done)). lia.
Qed.

Lemma IsAvailable_reads m d :
  reads (QemuFwCfgIsAvailable io_read8 io_write16) m d
    (bool_decide (le_value (padded 4 (dev_item 0)) = 0x554d4551 ∧ 1 ≤ le_value (padded 4 (dev_item 1))))
    m (drop 4 (dev_item 1)).
Proof.
  unfold QemuFwCfgIsAvailable. eapply reads_bind; [by apply select_reads|]. intros d1 Hd1.
  eapply reads_bind; [apply read_integer_reads|]. intros d2 _. rewrite Hd1. clear Hd1.
  eapply reads_bind; [by apply select_reads|]. intros d3 Hd3.
  eapply reads_bind; [apply read_integer_reads|]. intros d4 Hd4. rewrite Hd3 in *. exists d4. split; [|done].
  change QemuFwCfgItemSignature with 0. change QemuFwCfgItemInterfaceVersion with 1.
  destruct (Z.eqb_spec (le_value (padded 4 (dev_item 0))) 0x554d4551); cbn [negb orb];
    [|by rewrite bool_decide_eq_false_2 by tauto].
  destruct (Z.ltb_spec (le_value (padded 4 (dev_item 1))) 1);
    [by rewrite bool_decide_eq_false_2 by lia|by rewrite bool_decide_eq_true_2].
Qed.

(** ** The directory of files *)

Record fw_file := FwFile { fw_name : list Z; fw_select : Z; fw_content : list Z; fw_reserved : list Z; fw_padding : list Z }.

Definition dir_entry (f : fw_file) : list Z :=
  be_bytes 4 (Z.of_nat (length (fw_content f))) ++ be_bytes 2 (fw_select f) ++ fw_reserved f ++
  (fw_name f ++ 0 :: fw_padding f).

Record file_ok (f : fw_file) : Prop := {
  ok_name : nonzero (fw_name f);
  ok_length : length (fw_name f ++ 0 :: fw_padding f) = 56%nat;
  ok_reserved : length (fw_reserved f) = 2%nat;
  ok_select : 0 ≤ fw_select f < 2 ^ 16;
  ok_size : Z.of_nat (length (fw_content f)) < 2 ^ 32;
  ok_bytes : bytes (fw_name f ++ 0 :: fw_padding f);
  ok_content : dev_item (fw_select f) = fw_content f }.

Fixpoint find_file (name : list Z) (files : list fw_file) : option fw_file :=
  match files with [] => None | f :: files => if decide (name = fw_name f) then Some f else find_file name files end.

Lemma read_entry n l rest d : dev_data d = l ++ rest → length l = n → padded n (dev_data d) = l ∧ drop n (dev_data d) = rest.
Proof. intros -> Hl. split; [by apply padded_app|]. rewrite <-Hl. apply drop_app_length. Qed.

Context (RSIZE_MAX ASCII_RSIZE_MAX FName : Z) (HFName : 0 < FName) (Hroom : ASCII_RSIZE_MAX = 0 ∨ 55 ≤ ASCII_RSIZE_MAX).
Context (Name : Z) (name : list Z) (Haway : apart Name (Z.of_nat (S (length name))) FName 56).
Abbreviation accepted_at m p cs := (accepted RSIZE_MAX ASCII_RSIZE_MAX Ascii m p cs).

Lemma name_accepted m f : file_ok f → accepted_at (put m FName (fw_name f ++ 0 :: fw_padding f)) FName (fw_name f).
Proof.
  intros []. rewrite length_app in ok_length0. cbn [length] in ok_length0.
  split_and!; [done|done| |cbn [rsize_max]; lia|].
  2: { unfold chars_size. change (sizeof_char Ascii) with 1. change (2 ^ 64) with 18446744073709551616. lia. }
  split; [done|]. pose proof (buffer_put m FName _ ok_bytes0) as Hb. apply chars_buffer in Hb.
  change (0 :: fw_padding f) with ([0] ++ fw_padding f) in Hb at 2. rewrite app_assoc in Hb.
  by apply chars_app in Hb as [? _].
Qed.

Lemma accepted_put m l : accepted_at m Name name → (length l ≤ 56)%nat → accepted_at (put m FName l) Name name.
Proof.
  intros Ha Hl. eapply accepted_same; [exact Ha|]. intros i Hi. unfold apart in Haway. apply lookup_put_ne. lia.
Qed.

(** What is left in FName. *)
Definition found (f : fw_file) : Z * Z := (fw_select f, Z.of_nat (length (fw_content f))).

Lemma find_loop_run files : ∀ fuel Idx Count m d rest, Forall file_ok files →
  dev_data d = (files ≫= dir_entry) ++ rest → mapped m FName 56 → accepted_at m Name name →
  (length files < fuel)%nat → 0 ≤ Idx → Idx + Z.of_nat (length files) = Count → Count < 2 ^ 32 →
  ∃ l d', (l = [] ∨ length l = 56%nat) ∧
    find_loop io_read8 RSIZE_MAX ASCII_RSIZE_MAX FName fuel Name Count Idx (m, d)
      = Some (found <$> find_file name files, (put m FName l, d')).
Proof.
  induction files as [|f files IH]; intros fuel Idx Count m d rest Hall Hd Hm Hacc Hf HI HC H32;
    (destruct fuel as [|fuel]; [cbn in Hf; lia|]); cbn [find_loop length find_file] in *.
  { rewrite (proj2 (Z.ltb_ge _ _)) by lia. exists [], d. split; [by left|done]. }
  rewrite (proj2 (Z.ltb_lt _ _)) by lia. apply Forall_cons in Hall as [Hok Hall].
  pose proof Hok as []. rewrite bind_cons in Hd. unfold dir_entry at 1 in Hd. rewrite <-!app_assoc in Hd.
  destruct (read_integer_reads 4 m d) as (d1 & Hr1 & Hd1).
  destruct (read_entry 4 _ _ d Hd (length_be_bytes _ _)) as [Hp1 Hq1]. rewrite Hp1 in Hr1. rewrite Hq1 in Hd1.
  destruct (read_integer_reads 2 m d1) as (d2 & Hr2 & Hd2).
  destruct (read_entry 2 _ _ d1 Hd1 (length_be_bytes _ _)) as [Hp2 Hq2]. rewrite Hp2 in Hr2. rewrite Hq2 in Hd2.
  destruct (read_integer_reads 2 m d2) as (d3 & Hr3 & Hd3).
  destruct (read_entry 2 _ _ d2 Hd2 ok_reserved0) as [_ Hq3]. rewrite Hq3 in Hd3. rewrite app_assoc in Hd3.
  destruct (read_bytes_reads 56 FName m d3 Hm) as (d4 & Hr4 & Hd4).
  destruct (read_entry 56 _ _ d3 Hd3 ok_length0) as [Hp4 Hq4]. rewrite Hp4 in Hr4. rewrite Hq4 in Hd4.
  erewrite bind_run by exact Hr1. erewrite bind_run by exact Hr2. erewrite bind_run by exact Hr3.
  erewrite bind_run by exact Hr4. set (m1 := put m FName (fw_name f ++ 0 :: fw_padding f)) in *.
  pose proof (name_accepted m f Hok) as Hfn. pose proof (accepted_put m (fw_name f ++ 0 :: fw_padding f) Hacc ltac:(lia)) as Hn.
  fold m1 in Hfn, Hn. pose proof Hfn as (_ & _ & Hc1 & _). pose proof Hn as (_ & _ & Hc2 & _).
  assert (on_memory (AsciiStrCmp RSIZE_MAX ASCII_RSIZE_MAX Name FName) (m1, d4)
    = Some (compare Ascii name (fw_name f), (m1, d4))) as Hcmp.
  { unfold on_memory, AsciiStrCmp. cbn [fst snd]. by rewrite (Cmp_run _ _ Ascii m1 Name FName name (fw_name f)). }
  erewrite bind_run by exact Hcmp. pose proof (compare_equal Ascii m1 Name FName _ _ Hc2 Hc1) as Heq.
  destruct (Z.eqb_spec (compare Ascii name (fw_name f)) 0) as [Hz|Hnz].
  - rewrite decide_True by tauto. exists (fw_name f ++ 0 :: fw_padding f), d4. split; [by right|].
    rewrite be_value16, be_value32 by lia. done.
  - rewrite decide_False by tauto. rewrite cast_id by (done || (cint_unfold; lia)).
    destruct (IH fuel (Idx + 1) Count m1 d4 rest Hall Hd4 (mapped_put _ _ _ _ _ Hm) Hn ltac:(lia) ltac:(lia) ltac:(lia) H32)
      as (l & d' & Hl & Hrun). destruct Hl as [->|Hl].
    + exists (fw_name f ++ 0 :: fw_padding f), d'. by split; [right|].
    + exists l, d'. split; [by right|]. rewrite Hrun. unfold m1. rewrite put_put by lia. done.
Qed.

(** The directory of the device. *)
Definition directory (files : list fw_file) : Prop :=
  Forall file_ok files ∧ Z.of_nat (length files) < 2 ^ 32 ∧
  ∃ rest, dev_item QemuFwCfgItemFileDir = be_bytes 4 (Z.of_nat (length files)) ++ (files ≫= dir_entry) ++ rest.

Lemma FindFile_run files m d : directory files → mapped m FName 56 → accepted_at m Name name →
  ∃ l d', (l = [] ∨ length l = 56%nat) ∧
    QemuFwCfgFindFile io_read8 io_write16 RSIZE_MAX ASCII_RSIZE_MAX FName Name (m, d) =
      Some (match find_file name files with
            | Some f => (RETURN_SUCCESS, Some (found f)) | None => (RETURN_NOT_FOUND, None) end, (put m FName l, d')).
Proof.
  intros (Hall & H32 & rest & Hdir) Hm Hacc. unfold QemuFwCfgFindFile. cbn [InternalQemuFwCfgIsAvailable negb].
  destruct (select_reads QemuFwCfgItemFileDir m d ltac:(done)) as (d1 & Hs & Hd1). rewrite Hdir in Hd1.
  erewrite bind_run by exact Hs. destruct (read_integer_reads 4 m d1) as (d2 & Hr & Hd2).
  destruct (read_entry 4 _ _ d1 Hd1 (length_be_bytes _ _)) as [Hp Hq]. rewrite Hp in Hr. rewrite Hq in Hd2.
  erewrite bind_run by exact Hr. cbv zeta. rewrite be_value32 by lia.
  destruct (find_loop_run files (S (Z.to_nat (Z.of_nat (length files)))) 0 _ m d2 rest Hall Hd2 Hm Hacc
    ltac:(lia) ltac:(done) eq_refl H32) as (l & d3 & Hl & Hrun).
  erewrite bind_run by exact Hrun. exists l, d3. split; [done|]. by destruct (find_file name files).
Qed.

Lemma find_file_ok files f name0 : Forall file_ok files → find_file name0 files = Some f → file_ok f.
Proof.
  induction files as [|g files IH]; [done|]. intros [Hg Hall]%Forall_cons. cbn [find_file].
  case_decide; [by intros [= <-]|by apply IH].
Qed.

Lemma read_content files name0 f m d Buffer : directory files → find_file name0 files = Some f →
  mapped m Buffer (Z.of_nat (length (fw_content f))) →
  reads (QemuFwCfgSelectItem io_write16 (fw_select f);;
         QemuFwCfgReadBytes io_read8 (Z.of_nat (length (fw_content f))) Buffer) m d tt (put m Buffer (fw_content f)) [].
Proof.
  intros (Hall & _) Hf HB. destruct (find_file_ok _ _ _ Hall Hf).
  eapply reads_bind; [by apply select_reads|]. intros d1 Hd1. rewrite ok_content0 in Hd1.
  destruct (read_bytes_reads (length (fw_content f)) Buffer m d1 HB) as (d2 & Hr & Hd2). exists d2.
  destruct (read_entry (length (fw_content f)) (fw_content f) [] d1) as [Hp Hq]; [by rewrite app_nil_r|done|].
  rewrite Hp in Hr. rewrite Hq in Hd2. split; [exact Hr|done].
Qed.
End library.

(** ** The fw_cfg library and its parser over a device

    The instance of the SEC phase against the interface of the parser, and the
    parser on a concrete device with two files. *)

Section library.
Context {D : Type} `{FwCfgDevice D}.
Context (RSIZE_MAX ASCII_RSIZE_MAX FName : Z) (HFName : 0 < FName) (Hroom : ASCII_RSIZE_MAX = 0 ∨ 55 ≤ ASCII_RSIZE_MAX).

(** C28: the library over the ports of any device that behaves as QEMU documents:
    ReadBytes stores the next bytes of the selected item and Read8 to Read64 return
    them as a little-endian integer, zeros past its end; SkipBytes advances by its
    Size; IsAvailable tells whether the signature and the revision are there; and
    FindFile returns the selector and the size of the first entry of the directory
    with the name, whose content ReadBytes then delivers, or RETURN_NOT_FOUND. *)
Theorem fw_cfg_library_correct files m d Name name :
  directory files → mapped m FName 56 → accepted RSIZE_MAX ASCII_RSIZE_MAX Ascii m Name name →
  apart Name (Z.of_nat (S (length name))) FName 56 →
  (∀ n Buffer, mapped m Buffer (Z.of_nat n) →
    reads (QemuFwCfgReadBytes io_read8 (Z.of_nat n) Buffer) m d tt (put m Buffer (padded n (dev_data d))) (drop n (dev_data d))) ∧
  reads (QemuFwCfgRead8 io_read8) m d (le_value (padded 1 (dev_data d))) m (drop 1 (dev_data d)) ∧
  reads (QemuFwCfgRead16 io_read8) m d (le_value (padded 2 (dev_data d))) m (drop 2 (dev_data d)) ∧
  reads (QemuFwCfgRead32 io_read8) m d (le_value (padded 4 (dev_data d))) m (drop 4 (dev_data d)) ∧
  reads (QemuFwCfgRead64 io_read8) m d (le_value (padded 8 (dev_data d))) m (drop 8 (dev_data d)) ∧
  (∀ Size, 0 ≤ Size → reads (QemuFwCfgSkipBytes io_read8 Size) m d tt m (drop (Z.to_nat Size) (dev_data d))) ∧
  reads (QemuFwCfgIsAvailable io_read8 io_write16) m d
    (bool_decide (le_value (padded 4 (dev_item 0)) = 0x554d4551 ∧ 1 ≤ le_value (padded 4 (dev_item 1))))
    m (drop 4 (dev_item 1)) ∧
  (∃ l d', (l = [] ∨ length l = 56%nat) ∧
    QemuFwCfgFindFile io_read8 io_write16 RSIZE_MAX ASCII_RSIZE_MAX FName Name (m, d) =
      Some (match find_file name files with
            | Some f => (RETURN_SUCCESS, Some (fw_select f, Z.of_nat (length (fw_content f))))
            | None => (RETURN_NOT_FOUND, None)
            end, (put m FName l, d'))) ∧
  (∀ f Buffer, find_file name files = Some f → mapped m Buffer (Z.of_nat (length (fw_content f))) →
    reads (QemuFwCfgSelectItem io_write16 (fw_select f);;
           QemuFwCfgReadBytes io_read8 (Z.of_nat (length (fw_content f))) Buffer) m d tt (put m Buffer (fw_content f)) []).
Proof.
  intros Hdir Hm Hname Haway. split_and!.
  - intros n Buffer HB. by apply read_bytes_reads.
  - apply read_integer_reads.
  - apply read_integer_reads.
  - apply read_integer_reads.
  - apply read_integer_reads.
  - intros Size HS. by apply skip_reads.
  - apply IsAvailable_reads.
  - by eapply FindFile_run.
  - intros f Buffer Hf HB. by eapply read_content.
Qed.

Definition sec_ops : FwCfgOps D := {|
  cfg_IsAvailable := QemuFwCfgIsAvailable io_read8 io_write16;
  cfg_FindFile := QemuFwCfgFindFile io_read8 io_write16 RSIZE_MAX ASCII_RSIZE_MAX FName;
  cfg_SelectItem := QemuFwCfgSelectItem io_write16;
  cfg_ReadBytes := QemuFwCfgReadBytes io_read8 |}.

Lemma files_named files name :
  file_named name ((λ f, (fw_name f, fw_content f)) <$> files) = fw_content <$> find_file name files.
Proof.
  induction files as [|f files IH]; [done|]. cbn [fmap list_fmap file_named find_file]. by case_decide.
Qed.

(** The library has the interface of the parser when the interface is available. *)
Definition sec_laws files : directory files →
  le_value (padded 4 (dev_item 0)) = 0x554d4551 → 1 ≤ le_value (padded 4 (dev_item 1)) →
  @FwCfgLaws D sec_ops RSIZE_MAX ASCII_RSIZE_MAX ((λ f, (fw_name f, fw_content f)) <$> files).
Proof.
  intros Hdir Hsig Hrev.
  refine {| cfg_ready := λ _, True; cfg_scratch := FName; cfg_scratch_size := 56%nat |}.
  - apply Forall_fmap. destruct Hdir as [Hall _]. eapply Forall_impl; [exact Hall|]. intros f Hf.
    cbn. rewrite <-(ok_content f Hf). apply dev_item_bytes.
  - intros m d _. destruct (IsAvailable_reads m d) as (d' & Hrun & _). exists d'. split; [|done].
    cbn [cfg_IsAvailable sec_ops]. by rewrite Hrun, bool_decide_eq_true_2.
  - intros m d Name name _ Hm Hname Haway.
    destruct (FindFile_run RSIZE_MAX ASCII_RSIZE_MAX FName HFName Hroom Name name Haway files m d Hdir Hm Hname)
      as (l & d' & Hl & Hrun). exists l, d'. split; [destruct Hl as [->|Hl]; cbn; lia|]. split; [done|].
    rewrite files_named. destruct (find_file name files) as [f|] eqn:Hf; cbn [fmap option_fmap option_map]; [|done].
    exists (fw_select f). split; [done|]. intros m1 Buffer HB.
    destruct (read_content files name f m1 d' Buffer Hdir Hf HB) as (d1 & Hread & _). by exists d1.
Defined.
End library.

(** ** A device *)

(** The state of the device is what is left of the selected item. *)
Definition dev_items (sel : Z) : list Z :=
  if sel =? 0 then [0x51; 0x45; 0x4d; 0x55] else if sel =? 1 then [3; 0; 0; 0] else
  if sel =? 0x20 then [48; 120; 49; 102; 10] else if sel =? 0x21 then [89; 101; 115; 13; 10] else
  if sel =? 0x19 then be_bytes 4 2 ++
    be_bytes 4 5 ++ be_bytes 2 0x20 ++ [0; 0] ++ [110] ++ replicate 55 0 ++
    be_bytes 4 5 ++ be_bytes 2 0x21 ++ [0; 0] ++ [98] ++ replicate 55 0 else [].

Lemma dev_items_bytes sel : bytes (dev_items sel).
Proof.
  assert (∀ l, forallb (λ b, (0 <=? b) && (b <? 256)) l = true → bytes l) as Hb.
  { intros l Hl. apply Forall_forall. intros b Hi. rewrite forallb_forall in Hl.
    specialize (Hl b ltac:(by apply list_elem_of_In)). unfold byte. lia. }
  unfold dev_items. repeat (case_match; [by apply Hb|]). by apply Hb.
Qed.

#[refine] Instance ex_device : FwCfgDevice (list Z) := {|
  io_read8 := λ _ d, (hd 0 d, tail d);
  io_write8 := λ _ _ d, d;
  io_write16 := λ _ sel _, dev_items sel;
  dev_item := dev_items;
  dev_data := λ d, d |}.
Proof. all: done || apply dev_items_bytes. Defined.

(** The files "n" and "b" with the lines 0x1f and Yes. *)
Definition ex_files : list fw_file :=
  [ FwFile [110] 0x20 [48; 120; 49; 102; 10] [0; 0] (replicate 54 0);
    FwFile [98] 0x21 [89; 101; 115; 13; 10] [0; 0] (replicate 54 0) ].

Lemma ex_directory : directory ex_files.
Proof.
  split; [|split; [done|by exists []]].
  repeat constructor; cbn; try done; by rewrite ?length_replicate.
Qed.

(** The names at 16 and 20, the local arrays at 32, 96 and 128, and the literals. *)
Definition true_at : list Z := [256; 272; 288; 304; 320; 336].
Definition false_at : list Z := [352; 368; 384; 400; 416; 432].

Definition ex_parser_memory : byte_mem :=
  foldr (λ '(p, w) m, put m p (w ++ [0])) (put ∅ 16 (replicate 512 0))
    ((16, [110]) :: (20, [98]) :: zip true_at true_words ++ zip false_at false_words).

(** Decidable forms of the hypotheses. *)
Definition string_at (m : byte_mem) (p : Z) (w : list Z) : bool :=
  (0 <? p) && (length w <? 1000)%nat && forallb (λ c, (0 <? c) && (c <? 256)) w &&
  forallb (λ ic, bool_decide (m !! (p + Z.of_nat ic.1) = Some ic.2)) (imap pair (w ++ [0])).

Lemma string_at_accepted m p w : string_at m p w = true → accepted 0 0 Ascii m p w.
Proof.
  intros [[[Hp%Z.ltb_lt Hl%Nat.ltb_lt]%andb_true_iff Hw]%andb_true_iff Hb]%andb_true_iff.
  rewrite forallb_forall in Hw, Hb.
  assert (Forall (λ c, 0 < c < 256) w) as Hr.
  { apply Forall_forall. intros c Hc. specialize (Hw c ltac:(by apply list_elem_of_In)). lia. }
  assert (bytes (w ++ [0])) as Hbytes.
  { apply Forall_app. split; [|by repeat constructor]. eapply Forall_impl; [exact Hr|]. intros c Hc. cbv beta in Hc. unfold byte. lia. }
  split_and!; [done|done| |by left|].
  2: { unfold chars_size. change (sizeof_char Ascii) with 1. change (2 ^ 64) with 18446744073709551616. lia. }
  split; [eapply Forall_impl; [exact Hr|]; intros c Hc; cbn in *; lia|]. split; [exact Hbytes|]. rewrite text_ascii by done.
  intros i b Hi. split; [|by eapply Forall_lookup_1].
  specialize (Hb (i, b)). cbn [fst snd] in Hb. apply bool_decide_eq_true in Hb; [done|].
  apply list_elem_of_In, list_elem_of_lookup. exists i. by rewrite list_lookup_imap, Hi.
Qed.

Definition all_mapped (m : byte_mem) (p n : Z) : bool := forallb (λ i, bool_decide (is_Some (m !! i))) (seqZ p n).

Lemma all_mapped_mapped m p n : all_mapped m p n = true → mapped m p n.
Proof.
  intros Hall i Hi. unfold all_mapped in Hall. rewrite forallb_forall in Hall.
  specialize (Hall i ltac:(apply list_elem_of_In, elem_of_seqZ; lia)). by apply bool_decide_eq_true in Hall.
Qed.

Definition literal_ok (BoolString : Z) (m : byte_mem) (pw : Z * list Z) : bool :=
  string_at m pw.1 pw.2 && (88 <=? pw.1) && (BoolString + 11 <=? pw.1).

Definition ex_ops : FwCfgOps (list Z) := sec_ops 0 0 32.

Definition ex_laws : @FwCfgLaws (list Z) ex_ops 0 0 ((λ f, (fw_name f, fw_content f)) <$> ex_files) :=
  sec_laws 0 0 32 ltac:(done) ltac:(by left) ex_files ex_directory ltac:(done) ltac:(done).

Lemma literals_ok words ws : forallb (literal_ok 128 ex_parser_memory) (zip words ws) = true → length words = length ws →
  @literals_at (list Z) ex_ops 0 0 _ ex_laws ex_parser_memory 128 words ws.
Proof.
  revert ws. induction words as [|a words IH]; intros [|w ws] Hall Hl; [constructor|done|done|].
  cbn [zip zip_with forallb] in Hall. apply andb_true_iff in Hall as [Ha Hall]. constructor; [|apply IH; [done|cbn in Hl; lia]].
  unfold literal_ok in Ha. cbn [fst snd] in Ha.
  apply andb_true_iff in Ha as [[Hs H1%Z.leb_le]%andb_true_iff H2%Z.leb_le].
  split_and!; [by apply string_at_accepted|right; exact H1|right; lia].
Qed.

Lemma fw_cfg_library_correct_witness :
  ∃ l d', QemuFwCfgFindFile io_read8 io_write16 0 0 32 20 (ex_parser_memory, []) =
    Some ((RETURN_SUCCESS, Some (0x21, 5)), (put ex_parser_memory 32 l, d')).
Proof.
  destruct (fw_cfg_library_correct 0 0 32 ltac:(done) ltac:(by left) ex_files ex_parser_memory [] 20 [98]
    ex_directory (all_mapped_mapped ex_parser_memory 32 56 ltac:(by vm_compute)) (string_at_accepted ex_parser_memory 20 [98] ltac:(by vm_compute))
    ltac:(left; done)) as (_ & _ & _ & _ & _ & _ & _ & (l & d' & _ & Hrun) & _).
  exists l, d'. exact Hrun.
Defined.

Lemma fw_cfg_integers_witness :
  ∃ s, @QemuFwCfgParseUint8 (list Z) ex_ops 0 0 96 16 true (ex_parser_memory, []) = Some ((RETURN_SUCCESS, Some 31), s).
Proof.
  destruct (@fw_cfg_integers (list Z) ex_ops 0 0 _ ex_laws ltac:(done) ltac:(by left) ex_parser_memory [] 16 [110]
    I (all_mapped_mapped ex_parser_memory 32 56 ltac:(by vm_compute)) (string_at_accepted ex_parser_memory 16 [110] ltac:(by vm_compute))
    ltac:(left; done) 96 true ltac:(done) (all_mapped_mapped ex_parser_memory 96 23 ltac:(by vm_compute)))
    as ((m' & d' & _ & _ & Hrun) & _).
  - intros _ c l Hc. vm_compute in Hc. by simplify_eq.
  - exists (m', d'). exact Hrun.
Defined.

Lemma fw_cfg_bool_witness :
  ∃ s, @QemuFwCfgParseBool (list Z) ex_ops 0 0 128 true_at false_at 20 (ex_parser_memory, [])
    = Some ((RETURN_SUCCESS, Some true), s).
Proof.
  destruct (@fw_cfg_bool (list Z) ex_ops 0 0 _ ex_laws ltac:(done) ltac:(by left) ex_parser_memory [] 20 [98]
    I (all_mapped_mapped ex_parser_memory 32 56 ltac:(by vm_compute)) (string_at_accepted ex_parser_memory 20 [98] ltac:(by vm_compute))
    ltac:(left; done) 128 true_at false_at ltac:(done) (all_mapped_mapped ex_parser_memory 128 11 ltac:(by vm_compute))
    (literals_ok true_at true_words ltac:(by vm_compute) eq_refl)
    (literals_ok false_at false_words ltac:(by vm_compute) eq_refl))
    as (m' & d' & _ & _ & Hrun).
  exists (m', d'). exact Hrun.
Defined.
